(* ===== verification/_CoqProject ===== *)
-Q . S2P
Prelude.v
Bytes.v
Wire.v
WireProps.v
Artifacts.v
ArtifactsProps.v
TeeAttestation.v
TeeAttestationProps.v
TeePolicyProps.v
TeeBootstrap.v
TeeBootstrapProps.v
TeeAssemblyProps.v
TeeHashes.v
TeeExample.v
TeeTheorems.v
SystemTx.v
SystemTxProps.v
BootstrapBlock.v
BitMath.v
MulDiv.v
PriceMath.v
BinTree.v
P2pAddress.v
Native.v
Lifecycle.v
ValidatorSet.v
ValidatorSetInv.v
ValidatorSetMoves.v
ValidatorSetProps.v
ValidatorSetStake.v
Snapshots.v
SnapshotsProps.v
ConsensusProof.v
ConsensusProofProps.v
Staking.v
StakingQueue.v
StakingInv.v
StakingProps.v
SlashIndicator.v
SlashIndicatorProps.v
Containers.v
Heap.v
Policy.v
Stablecoin.v
Vote.v
VoteInv.v
VoteSteps.v
VoteProps.v
Governance.v
GovernanceInv.v
GovernanceProps.v
