(* ===== verification/Prelude.v ===== *)
(** * A verification of the outbe runtime

    The program is an EVM chain whose system contracts are Rust precompiles
    ([src/crates]). This library models the validator registry with its committee
    snapshots, staking, slashing, the consensus certificate verifiers and evidence
    codecs, the system transactions of a block and the artifacts of its header,
    the TEE attestation messages with the bootstrap payload of block 1, validator
    voting and the governance registry it decides on, the stablecoin with its
    policy registry, the storage containers they use and the fixed-point arithmetic of the price ladder, and proves the properties
    that make them correct. Every definition is a shallow embedding of the Rust code:
    pure functions are functions, storage is an explicit state, errors are values.

    ** Parts of the program and the files that model them

    - [Prelude] (this file): machine-width integers, [PrecompileError] and
      [result], the storage monad [M] with checkpoints, storage mappings, record
      update, and the proof automation. Sources: [blockchain/primitives/src]
      [error.rs], [storage/handle.rs], [storage/types/mapping.rs], [slot.rs].
    - [Bytes]: big-endian words, byte strings and the parameter [Keccak].
    - [Wire], [WireProps]: the codecs of slashing evidence
      ([system/slashindicator/src] [evidence.rs], [vrf_evidence.rs],
      [seed_partial_evidence.rs]), the signature namespaces
      ([blockchain/consensus/src/proof/constants.rs]) and the certified-parent
      metadata ([blockchain/primitives/src/consensus_metadata.rs]).
    - [Artifacts], [ArtifactsProps]: the artifact container in a header's extra
      data ([blockchain/primitives/src/reshare_artifact.rs]): its records, the
      boundary and late-finalize payloads, and the sanitising of proposer bytes.
    - [TeeAttestation]: the TEE messages ([blockchain/primitives/src]
      [tee_attestation_v1.rs], [tee_signatures.rs]): network binding and
      descriptor, DKG hashes, node id, validator binding, host authorization,
      initialization manifest, registration intent, key-ready proof, evidence,
      policy and policy schedule, gas and resource schedules, each with its
      validation, canonical codec and domain-separated hash, written against the
      class [TeeCrypto] of signature recovery. [TeeAttestationProps] and
      [TeePolicyProps] prove the codecs exact with the shared tactics [tread] and
      [tcanon] and follow policy schedules and gas charges.
    - [TeeBootstrap]: the block-1 payload ([tee_bootstrap_v2.rs]): assembly with
      deduplicated collateral, preflight, validation, codec, signing hash and
      precharge. [TeeBootstrapProps] treats the codec, its lengths and gas,
      [TeeAssemblyProps] assembly and canonicity, [TeeHashes] all hashed messages
      together; [TeeExample] is a concrete two-validator deployment and
      [TeeTheorems] states the properties.
    - [SystemTx], [SystemTxProps]: system transactions
      ([blockchain/primitives/src/system_tx.rs]): kinds and calldata, the zones
      of a block body, the expected set per block, the executor's phase cursor,
      the visible gas plan, and the Phase 1 envelope. Written against the class
      [Alloy] (transaction decoding and signature hashes). [BootstrapBlock]
      composes the gas plan of block 1 with the TEE bootstrap payload.
    - [BitMath], [MulDiv], [PriceMath]: [math/bit_math.rs],
      [uint256x256_math.rs] with [scaled_math.rs], and [uint128x128_math.rs],
      [price_helper.rs], [reference_price.rs], [constants.rs].
    - [BinTree]: [math/tree_math.rs], the bitmap trie over bin ids, written
      against the class [BinTreeStorage] (the trait of the same name) and proved
      against its laws [BinTreeLaws]; [CurrencyBins] is the implementation of
      [core/nod/src/state.rs].
    - [P2pAddress]: the consensus P2P address codec
      ([blockchain/primitives/src/consensus_p2p.rs]).
    - [Lifecycle]: the typed validator lifecycle of
      [system/validatorset/src/state_machine]: every transition ([mod.rs]), the
      payloads ([state.rs]) and the stored row ([adapter.rs]).
    - [ValidatorSet]: the registry ([runtime.rs], [schema.rs], [delegation.rs],
      [hooks.rs], [precompile.rs] of the same crate). [ValidatorSetInv] relates
      the stored fields to a function from addresses to lifecycles ([vs_rep]) and
      shows each call moves it along the pure transitions; [ValidatorSetMoves]
      does the same for registration, the committee boundary and the cleanup
      sweep; [ValidatorSetProps] states the properties; [ValidatorSetStake]
      follows the mirrored stake through every call.
    - [Snapshots], [SnapshotsProps]: the committee snapshot store and its prune
      ring ([system/validatorset/src/state.rs], [proof/committee.rs]) and the
      atomic boundary activation of [hooks.rs].
    - [ConsensusProof], [ConsensusProofProps]: the metadata-bound certificate
      verifier and the late-finalize verifier ([proof/verifier.rs],
      [late_finalize.rs], [committee_keys.rs], [error.rs]), the certificate codec
      ([hybrid_wire.rs]), seed-partial checks and fingerprints, written against
      the class [Commonware] of the consensus library's codecs and signatures.
    - [Native]: the native balance moves of [storage/direct.rs], for any state with
      balances (class [Native]); [Staking] and [Vote] are instances.
    - [Staking]: [system/staking/src/logic.rs], [contract.rs], [precompile.rs]. It owns the registry it
      calls into, as the code constructs a [ValidatorSet] over the same storage.
      [StakingQueue] treats the linked lists of the unbonding queue,
      [StakingInv] the invariant of stake, queue, registry and balances,
      [StakingProps] the properties.
    - [SlashIndicator]: [system/slashindicator/src] [runtime.rs], [hooks.rs],
      [precompile.rs], [schema.rs] and the signature checks of [evidence.rs],
      over [Staking], the registry and the snapshots; the schedule of
      [protocol_schedule.rs]. [SlashIndicatorProps] characterises every entry
      point by what its evidence has to show ([fault]) and follows felonies
      through bonds, balances and lifecycles.
    - [Containers], [Heap]: the storage vector, set, deque, ring buffer and
      binary heap of [storage/types].
    - [Policy]: the stablecoin policy registry ([core/stablecoinpolicy/src]).
    - [Stablecoin]: the stablecoin ledger ([core/stablecoin/src]), written against
      the class [PolicyApi] of policy queries that [Policy] implements.

    - [Vote]: validator voting ([system/vote/src]), in a world of its storage, the
      registry, native balances and the storage of the target modules; the trait
      [VoteTarget] is a record of operations. [VoteInv] holds the invariant of
      proposals, votes and bonds, [VoteSteps] what finalization, creation and a
      vote do, [VoteProps] the properties and the interface [target_contract]
      that a target module has to keep.
    - [Governance]: the canon, the meta-canon and the improvement proposals
      ([core/governance/src]) with the vote target that creates approved ones.
      [GovernanceInv] holds the invariant of a book of proposals,
      [GovernanceProps] the properties and the proof that the target keeps
      [target_contract].

    ** What the theorems show

    - Registry: reachable registries decode everywhere, list exactly the
      registered validators and never share a key or NodeId; every call is a path
      of the pure state machine; committee membership changes only at a certified
      boundary, which installs exactly the certified set; cleanup terminates and
      removes exactly what is expired; delegates, registration, unjailing,
      punishment and participation behave as specified on every branch.
    - Snapshots: every epoch reads the last snapshot written for it while its ring
      slot is its own, evicted records leave nothing behind, and a boundary is
      all or nothing across registry and snapshots.
    - Certificates: two certificates accepted for one committee share more than a
      third of its members; a late-finalize credit names exactly its set bits.
    - Lifecycle: the stored row and the typed state are inverse to each other;
      reachable states validate and keep a non-zero registry index until cleanup;
      shares move only at boundaries.
    - Staking: stakes, the recorded total, the queue, the registry mirror and the
      native balance stay consistent over every sequence of staking and registry
      calls; matured claims are always paid exactly; slashing takes its share.
    - Slashing: evidence is accepted exactly when it proves a fault and was not
      used before, in any order of its parts and under any selector; a felony
      takes exactly its share of bond and unbonding entries, pays exactly the
      reward share, which the code leaves unbounded and which stays within what
      was taken for percentages up to 100, and touches nobody else; an absence is
      punished once; window passes are not repeated; the books of Staking stay
      balanced through all of it.
    - Blocks: a body passes the checks exactly when it is the expected begin
      transactions, user transactions and the expected end transactions; the
      executor's cursor follows that schedule; the gas plan spends the block
      exactly; header artifacts are read back as written and sanitising keeps
      only what the proposer may set.
    - TEE messages: every message has exactly one encoding; a hash of any of the
      twenty kinds binds its message and its kind, up to a keccak collision; a
      policy schedule has one policy in force, whose hash commits to its whole
      history; the gas of registry calls is exact on every branch; assembling the
      bootstrap loses nothing, depends on no order and is canonical; its length
      is predicted exactly; and the payload of up to 49 validators always fits
      block 1.
    - Containers and trie: every sequence of calls behaves as on the
      mathematical object (set, list, window, bag with priorities, one set of ids
      per currency), with every loop terminating.
    - Arithmetic: the 512-bit division computes the exact floor up to its real
      bound and the bin of a price is total and monotone.
    - Stablecoin and policies: supply is the sum of balances, authority for every
      change, freezing, pausing, permits, atomicity; permission checks agree with
      a reference evaluator.
    - Voting: open bonds are covered by the balance and listed exactly; approval
      needs two thirds of the active validators and a closed window; the block
      hook puts exactly what is due to the targets, decides and settles by the
      tally what they apply, keeps open what they fail, and, for targets that keep
      their contract, never fails; votes and outcomes are final.
    - Governance: ids, author lists, status sets and their pages are exact;
      nothing changes without the prescribed authority; an approved vote creates
      exactly the record it asked for.
    - Codecs: the P2P address, the certified-parent metadata and invalid-VRF
      evidence are read exactly from their encodings, no decoder panics, and
      signed payloads never cross chain, vote kind or committee.

    ** Conventions, bounds and fuel

    - An unsigned integer of width [w] is a [Z]; [U256] and native operators wrap
      as in release builds, [checked_*] return an option, [to_u32] panics. A
      panic is the result [Panic], never an error value.
    - Storage reads and writes do not fail; a checkpoint guard is
      [with_checkpoint], which restores the state unless the body returns [Ok].
      Dispatch runs inside the call frame's checkpoint.
    - Error messages keep their literal text; interpolated values are dropped.
      Events are a log where a property speaks of them; metrics and tracing are
      not modelled.
    - Loops over storage run on fuel computed from the state and yield [Panic]
      when it runs out: [walk_fuel] is the queue length plus one, the cleanup
      sweep takes the registry size plus one, [sift_up] its start index plus one,
      [sift_down] the heap length plus one, [log2] 128 rounds. The theorems show
      these are enough.
    - Hashes, BLS and ECDSA signatures and the OCOMP key registration codec are
      third-party or cryptographic code: the fields of the classes [Externals]
      ([ValidatorSet]), [Crypto] ([Stablecoin]), [Keccak] ([Bytes]),
      [Commonware] ([ConsensusProof]), [TeeCrypto] ([TeeAttestation]), [Alloy]
      ([SystemTx]) and [GovernanceLibs] ([Governance], with the JSON reader and
      the line diff); the theorems hold for all of them, the witnesses use concrete
      ones. The TEE theorems assume of keccak that its values are 32 bytes.
      [SnapshotsProps] assumes of each write that its key is neither zero nor the key of the same committee at another epoch
      ([good_write]). Staking theorems assume room in the [u32]
      queue counter ([has_room]) and a caller other than the staking contract
      itself. Voting and governance theorems assume that keccak does not collide
      on their 52- and 24-byte index keys, and that the [u32] indexes have room
      for another entry ([call_ok], [books_have_room], and [room] of
      [target_contract]): no target could promise an answer without it. All voting
      theorems assume that targets leave the Vote, registry and balance state
      alone ([frames]), which is proved of the Governance target.

    ** Not modelled

    Consensus beyond its certificate verifiers, networking, the node, RPC and
    transaction pool (I/O over reth,
    revm and commonware); the TEE services, enclave and registry (DCAP quote
    verification and SGX) and the off-chain compute protocol
    (external cryptography); the remaining core ledgers (gratis, promis, gem, nod
    beyond its trie, intex, tribute, metadosis, lysis, credis, desis and their
    factories), oracle, rewards, and the other vote targets (software update, L2
    registry, stablecoin factory), for which the voting theorems ask
    [target_contract] as a hypothesis;
    the metrics, journal and gas table of slashing. Storage
    slot addresses are not computed: regions of different contracts and fields
    are taken as disjoint. The manifest lists every part with the reason. *)

(** ** Shared vocabulary

    Machine-width integers, the error type of the precompiles, the storage monad
    with its checkpoints, storage mappings, record update, and the proof
    automation over them. *)

From stdpp Require Export base tactics decidable gmap strings list numbers fin_maps.
From Stdlib Require Export ZArith Lia.

#[global] Open Scope Z_scope.

Declare Scope rudis_scope.
Delimit Scope rudis_scope with rudis.
#[global] Open Scope rudis_scope.

(** * Machine-width integers

    An unsigned [w]-bit integer is a [Z] in [0, 2^w). [U256] operators of
    alloy/ruint ([+], [-], [*]) wrap; native integers wrap in release builds;
    [checked_*] return an option and [saturating_*] clamp. *)

Definition u8_max : Z := 2 ^ 8 - 1.
Definition u32_max : Z := 2 ^ 32 - 1.
Definition u64_max : Z := 2 ^ 64 - 1.
Definition u128_max : Z := 2 ^ 128 - 1.
Definition u256_max : Z := 2 ^ 256 - 1.

Definition in_range (max z : Z) : Prop := 0 <= z <= max.

Definition wrapping_add (max a b : Z) : Z := (a + b) mod (max + 1).
Definition wrapping_sub (max a b : Z) : Z := (a - b) mod (max + 1).
Definition wrapping_mul (max a b : Z) : Z := (a * b) mod (max + 1).

Definition checked_add (max a b : Z) : option Z :=
  if a + b <=? max then Some (a + b) else None.
Definition checked_sub (a b : Z) : option Z :=
  if b <=? a then Some (a - b) else None.
Definition checked_mul (max a b : Z) : option Z :=
  if a * b <=? max then Some (a * b) else None.
Definition saturating_sub (a b : Z) : Z := if b <=? a then a - b else 0.
Definition saturating_add (max a b : Z) : Z :=
  if a + b <=? max then a + b else max.

(** Addresses (160 bits) and [B256] words are their big-endian value. *)
Abbreviation Address := Z (only parsing).
Abbreviation B256 := Z (only parsing).
Definition ZERO_ADDRESS : Address := 0.

(** * Errors and results *)

(** [PrecompileError]. A typed Solidity error ([RevertBytes]) is its name with
    the words of its ABI arguments; interpolated values of [Revert] and
    [Fatal] messages are dropped. *)
Inductive PrecompileError : Type :=
  | Revert (msg : string)
  | RevertBytes (name : string) (args : list Z)
  | Storage (msg : string)
  | Fatal (msg : string).

#[global] Instance PrecompileError_eq_dec : EqDecision PrecompileError.
Proof. solve_decision. Defined.

(** [Panic] is a call that does not return: a Rust panic, or a model loop that
    exhausts its fuel (the theorems show the latter does not happen). *)
Inductive result (A : Type) : Type :=
  | Ok (a : A)
  | Err (e : PrecompileError)
  | Panic.
Arguments Ok {A} a.
Arguments Err {A} e.
Arguments Panic {A}.

Definition rbind {A B} (r : result A) (k : A -> result B) : result B :=
  match r with
  | Ok a => k a
  | Err e => Err e
  | Panic => Panic
  end.

Definition ok_or {A} (o : option A) (e : PrecompileError) : result A :=
  match o with Some a => Ok a | None => Err e end.

Definition rrequire (b : bool) (e : PrecompileError) : result unit :=
  if b then Ok tt else Err e.

Notation "'let?' x := r 'in' k" := (rbind r (fun x => k))
  (at level 10, x pattern, r at level 100, k at level 200) : rudis_scope.

(** * Typed errors

    [Result<A, E>] for the components with an error enum of their own. *)

Definition ebind {E A B} (r : E + A) (k : A -> E + B) : E + B :=
  match r with inl e => inl e | inr a => k a end.
Definition erequire {E} (b : bool) (e : E) : E + unit := if b then inr tt else inl e.
Definition eok_or {E A} (o : option A) (e : E) : E + A :=
  match o with Some a => inr a | None => inl e end.
Fixpoint emap {E X A} (l : list X) (f : X -> E + A) : E + list A :=
  match l with
  | [] => inr []
  | x :: l' => ebind (f x) (fun a => ebind (emap l' f) (fun r => inr (a :: r)))
  end.

Notation "'let+' x := r 'in' k" := (ebind r (fun x => k))
  (at level 10, x pattern, r at level 100, k at level 200) : rudis_scope.

(** * The storage monad

    A computation runs on the state of the contracts it touches. Writes made
    before an error stay until a checkpoint (or the call frame) reverts them,
    as in the storage provider. *)

Definition M (S A : Type) : Type := S -> result A * S.

Section Monad.
Context {S : Type}.

Definition mret {A} (a : A) : M S A := fun s => (Ok a, s).
Definition mfail {A} (e : PrecompileError) : M S A := fun s => (Err e, s).
Definition mpanic {A} : M S A := fun s => (Panic, s).
Definition mbind {A B} (m : M S A) (k : A -> M S B) : M S B :=
  fun s => match m s with
           | (Ok a, s') => k a s'
           | (Err e, s') => (Err e, s')
           | (Panic, s') => (Panic, s')
           end.
Definition gets {A} (f : S -> A) : M S A := fun s => (Ok (f s), s).
Definition modify (f : S -> S) : M S unit := fun s => (Ok tt, f s).
Definition lift {A} (r : result A) : M S A := fun s => (r, s).
Definition require (b : bool) (e : PrecompileError) : M S unit :=
  if b then mret tt else mfail e.

(** A pure computation that reads the state. *)
Definition reads {A} (f : S -> result A) : M S A := fun s => (f s, s).

(** [StorageHandle::with_checkpoint] and [CheckpointGuard]: the writes are
    kept only when the body returns [Ok]. *)
Definition with_checkpoint {A} (m : M S A) : M S A :=
  fun s => match m s with
           | (Ok a, s') => (Ok a, s')
           | (Err e, _) => (Err e, s)
           | (Panic, _) => (Panic, s)
           end.

Fixpoint mfor {X} (l : list X) (f : X -> M S unit) : M S unit :=
  match l with
  | [] => mret tt
  | x :: l' => mbind (f x) (fun _ => mfor l' f)
  end.

Fixpoint mmap {X A} (l : list X) (f : X -> M S A) : M S (list A) :=
  match l with
  | [] => mret []
  | x :: l' => mbind (f x) (fun a => mbind (mmap l' f) (fun r => mret (a :: r)))
  end.

(** [while] loops: the body returns [Some] to iterate with the next loop
    variables and [None]-like [inr] to leave the loop. *)
Fixpoint mwhile {X A} (fuel : nat) (body : X -> M S (X + A)) (x : X) : M S A :=
  match fuel with
  | O => mpanic
  | Datatypes.S fuel' =>
      mbind (body x) (fun r => match r with
                               | inl x' => mwhile fuel' body x'
                               | inr a => mret a
                               end)
  end.
End Monad.

Notation "'let!' x := m 'in' k" := (mbind m (fun x => k))
  (at level 10, x pattern, m at level 100, k at level 200) : rudis_scope.
Notation "m ';;;' k" := (mbind m (fun _ => k))
  (at level 199, k at level 200, right associativity) : rudis_scope.

(** Run a computation of one contract inside a larger state. *)
Definition zoom {W S A} (get : W -> S) (put : S -> W -> W) (m : M S A) : M W A :=
  fun w => let '(r, s') := m (get w) in (r, put s' w).

(** Result combinators over lists ([?] inside an iterator chain). *)
Fixpoint rmap {X A} (l : list X) (f : X -> result A) : result (list A) :=
  match l with
  | [] => Ok []
  | x :: l' => rbind (f x) (fun a => rbind (rmap l' f) (fun r => Ok (a :: r)))
  end.

(** * Storage mappings

    An EVM mapping reads the zero value where nothing was written, and writing
    zero clears the slot: the finite map keeps only non-zero entries. *)

Class Storable (V : Type) := word0 : V.
#[global] Instance Storable_Z : Storable Z := 0.
#[global] Instance Storable_bool : Storable bool := false.
#[global] Instance Storable_list {A} : Storable (list A) := [].

Section Mapping.
Context `{Countable K} `{EqDecision V} `{Storable V}.

Definition mread (m : gmap K V) (k : K) : V := default word0 (m !! k).
Definition mwrite (k : K) (v : V) (m : gmap K V) : gmap K V :=
  if decide (v = word0) then delete k m else <[k := v]> m.
End Mapping.

Notation "m .[ k ]" := (mread m k) (at level 1, k at level 200, format "m .[ k ]").
Notation "m .[ k <- v ]" := (mwrite k v m)
  (at level 1, k at level 200, v at level 200, format "m .[ k  <-  v ]").

(** The sum of the values of a map. *)
Definition map_sum `{Countable K} (m : gmap K Z) : Z :=
  map_fold (fun _ v acc => v + acc) 0 m.

(** * Record update

    [r <| f := v |>] is [r] with field [f] replaced. A record type registers
    its eta expansion as an [Eta] instance. *)

Class Eta (R : Type) := eta : R -> R.
Class Setter {R T : Type} (f : R -> T) := set : T -> R -> R.
Arguments set {R T} f {_} v r.
#[global] Hint Mode Setter ! ! ! : typeclass_instances.

Ltac solve_setter :=
  lazymatch goal with
  | |- @Setter ?R ?T ?f =>
      let inst := constr:(_ : Eta R) in
      let e := eval hnf in inst in
      let p := eval pattern f in e in
      lazymatch p with
      | ?F _ => exact (fun (v : T) (r : R) => F (fun _ => v) r)
      end
  end.
#[global] Hint Extern 1 (Setter _) => solve_setter : typeclass_instances.

Notation "r <| f := v |>" := (set f v r)
  (at level 1, f at next level, left associativity, format "r  <| f  :=  v |>") : rudis_scope.

(** * Lemmas on the monad *)

Create HintDb rudis discriminated.
#[export] Hint Constants Opaque : rudis.
#[export] Hint Variables Opaque : rudis.

Section MonadLemmas.
Context {S : Type}.

Lemma mbind_ok {A B} (m : M S A) (k : A -> M S B) s b s' :
  mbind m k s = (Ok b, s') ->
  exists a s1, m s = (Ok a, s1) /\ k a s1 = (Ok b, s').
Proof. unfold mbind. destruct (m s) as [[a|e|] s1]; naive_solver. Qed.

Lemma mbind_ok_intro {A B} (m : M S A) (k : A -> M S B) s a s1 r :
  m s = (Ok a, s1) -> k a s1 = r -> mbind m k s = r.
Proof. intros Hm <-. unfold mbind. by rewrite Hm. Qed.

Lemma gets_ok {A} (f : S -> A) s a s' :
  gets f s = (Ok a, s') -> a = f s /\ s' = s.
Proof. unfold gets. naive_solver. Qed.

Lemma modify_ok (f : S -> S) s (u : unit) s' :
  modify f s = (Ok u, s') -> s' = f s.
Proof. unfold modify. naive_solver. Qed.

Lemma mret_ok {A} (x : A) (s : S) a s' :
  mret x s = (Ok a, s') -> a = x /\ s' = s.
Proof. unfold mret. naive_solver. Qed.

Lemma lift_ok {A} (r : result A) (s : S) a s' :
  lift r s = (Ok a, s') -> r = Ok a /\ s' = s.
Proof. unfold lift. naive_solver. Qed.

Lemma reads_ok {A} (f : S -> result A) s a s' :
  reads f s = (Ok a, s') -> f s = Ok a /\ s' = s.
Proof. unfold reads. naive_solver. Qed.

Lemma require_ok b e (s : S) u s' :
  require b e s = (Ok u, s') -> b = true /\ s' = s.
Proof. unfold require, mret, mfail. destruct b; naive_solver. Qed.

Lemma mfail_ok {A} e (s : S) (a : A) s' : mfail e s = (Ok a, s') -> False.
Proof. unfold mfail. naive_solver. Qed.

Lemma mpanic_ok {A} (s : S) (a : A) s' : mpanic s = (Ok a, s') -> False.
Proof. unfold mpanic. naive_solver. Qed.

Lemma with_checkpoint_ok {A} (m : M S A) s a s' :
  with_checkpoint m s = (Ok a, s') <-> m s = (Ok a, s').
Proof. unfold with_checkpoint. destruct (m s) as [[]]; naive_solver. Qed.

Lemma with_checkpoint_not_ok {A} (m : M S A) s r s' :
  with_checkpoint m s = (r, s') -> (forall a, r <> Ok a) -> s' = s.
Proof. unfold with_checkpoint. destruct (m s) as [[]]; naive_solver. Qed.

(** Induction over a loop body that preserves an invariant. *)
Lemma mfor_inv {X} (I : S -> Prop) (l : list X) (f : X -> M S unit) s u s' :
  (forall x s1 s2, x ∈ l -> I s1 -> f x s1 = (Ok tt, s2) -> I s2) ->
  I s -> mfor l f s = (Ok u, s') -> I s'.
Proof.
  revert s. induction l as [|x l IH]; simpl; intros s Hf HI Hrun.
  - by apply mret_ok in Hrun as [_ ->].
  - apply mbind_ok in Hrun as ([] & s1 & H1 & H2).
    eapply IH; [|eapply Hf; [left|exact HI|exact H1]|exact H2].
    intros y ?? Hy. apply Hf. by right.
Qed.

(** [ro m]: the computation does not write; [atomic m]: a call that does not
    return [Ok] leaves the state as it was. *)
Definition ro {A} (m : M S A) : Prop := forall s, snd (m s) = s.
Definition atomic {A} (m : M S A) : Prop :=
  forall s, (exists a, fst (m s) = Ok a) \/ snd (m s) = s.

Lemma ro_ret {A} (a : A) : ro (mret a). Proof. done. Qed.
Lemma ro_fail {A} e : ro (@mfail S A e). Proof. done. Qed.
Lemma ro_panic {A} : ro (@mpanic S A). Proof. done. Qed.
Lemma ro_gets {A} (f : S -> A) : ro (gets f). Proof. done. Qed.
Lemma ro_lift {A} (r : result A) : ro (@lift S A r). Proof. done. Qed.
Lemma ro_reads {A} (f : S -> result A) : ro (reads f). Proof. done. Qed.
Lemma ro_require b e : ro (@require S b e).
Proof. unfold require. by destruct b. Qed.
Lemma ro_bind {A B} (m : M S A) (k : A -> M S B) :
  ro m -> (forall a, ro (k a)) -> ro (mbind m k).
Proof.
  intros Hm Hk s. unfold mbind. specialize (Hm s).
  destruct (m s) as [[a|e|] s1]; simpl in *; subst; try done. apply Hk.
Qed.

Lemma ro_atomic {A} (m : M S A) : ro m -> atomic m.
Proof. intros Hm s. right. apply Hm. Qed.
Lemma atomic_checkpoint {A} (m : M S A) : atomic (with_checkpoint m).
Proof. intros s. unfold with_checkpoint. destruct (m s) as [[]]; simpl; eauto. Qed.
Lemma atomic_modify f : atomic (@modify S f).
Proof. intros s. left. by exists tt. Qed.
Lemma atomic_bind_ro {A B} (m : M S A) (k : A -> M S B) :
  ro m -> (forall a, atomic (k a)) -> atomic (mbind m k).
Proof.
  intros Hm Hk s. unfold mbind. specialize (Hm s).
  destruct (m s) as [[a|e|] s1]; simpl in *; subst; eauto. apply Hk.
Qed.

Lemma atomic_bind_ret {A B} (m : M S A) (f : A -> B) :
  atomic m -> atomic (mbind m (fun a => mret (f a))).
Proof.
  intros Hm s. specialize (Hm s). unfold mbind.
  destruct (m s) as [[a|e|] s1]; simpl in *; destruct Hm as [[? ?]|?]; try done; eauto.
Qed.
Lemma ro_mfor {X} (l : list X) (f : X -> M S unit) :
  (forall x, ro (f x)) -> ro (mfor l f).
Proof. intros Hf. induction l; simpl; [apply ro_ret|by apply ro_bind]. Qed.
Lemma ro_mmap {X A} (l : list X) (f : X -> M S A) :
  (forall x, ro (f x)) -> ro (mmap l f).
Proof.
  intros Hf. induction l; simpl; [apply ro_ret|].
  apply ro_bind; [done|]. intros ?. apply ro_bind; [done|]. intros ?. apply ro_ret.
Qed.

Lemma mmap_pure {X A} (l : list X) (f : X -> M S A) (g : X -> A) s :
  (forall x, x ∈ l -> f x s = (Ok (g x), s)) -> mmap l f s = (Ok (g <$> l), s).
Proof.
  induction l as [|x l IH]; simpl; intros Hf; [done|].
  eapply mbind_ok_intro; [apply Hf; by left|].
  eapply mbind_ok_intro; [apply IH; intros y Hy; apply Hf; by right|done].
Qed.

Lemma atomic_err {A} (m : M S A) s e s' :
  atomic m -> m s = (Err e, s') -> s' = s.
Proof. intros Hm Hs. destruct (Hm s) as [[a Ha]|Ha]; rewrite Hs in Ha; by simpl in Ha. Qed.

(** [keeps f m]: the computation leaves [f] of the state alone, whether or not
    it succeeds. *)
Definition keeps {A B} (f : S -> B) (m : M S A) : Prop := forall s, f (snd (m s)) = f s.

Lemma keeps_ro {A B} (f : S -> B) (m : M S A) : ro m -> keeps f m.
Proof. intros Hm s. by rewrite Hm. Qed.
Lemma keeps_modify {B} (f : S -> B) g : (forall s, f (g s) = f s) -> keeps f (@modify S g).
Proof. intros Hg s. apply Hg. Qed.
Lemma keeps_checkpoint {A B} (f : S -> B) (m : M S A) : keeps f m -> keeps f (with_checkpoint m).
Proof.
  intros Hm s. specialize (Hm s). unfold with_checkpoint. by destruct (m s) as [[] ?].
Qed.
Lemma keeps_bind {A B C} (f : S -> B) (m : M S A) (k : A -> M S C) :
  keeps f m -> (forall a, keeps f (k a)) -> keeps f (mbind m k).
Proof.
  intros Hm Hk s. specialize (Hm s). unfold mbind.
  destruct (m s) as [[a|e|] s1]; simpl in *; [by rewrite (Hk a s1)|done|done].
Qed.
Lemma keeps_mfor {X B} (f : S -> B) (l : list X) (m : X -> M S unit) :
  (forall x, keeps f (m x)) -> keeps f (mfor l m).
Proof. intros Hm. induction l; simpl; [by apply keeps_ro|by apply keeps_bind]. Qed.
Lemma keeps_run {A B} (f : S -> B) (m : M S A) s r s' : keeps f m -> m s = (r, s') -> f s' = f s.
Proof. intros Hm Hs. specialize (Hm s). by rewrite Hs in Hm. Qed.

(** [runs m]: the computation succeeds from every state. *)
Definition runs {A} (m : M S A) : Prop := forall s, exists a s', m s = (Ok a, s').

Lemma runs_ret {A} (a : A) : runs (mret a). Proof. intros s. by eexists _, _. Qed.
Lemma runs_gets {A} (f : S -> A) : runs (gets f). Proof. intros s. by eexists _, _. Qed.
Lemma runs_modify f : runs (@modify S f). Proof. intros s. by eexists _, _. Qed.
Lemma runs_bind {A B} (m : M S A) (k : A -> M S B) :
  runs m -> (forall a, runs (k a)) -> runs (mbind m k).
Proof.
  intros Hm Hk s. destruct (Hm s) as (a & s1 & Ha). destruct (Hk a s1) as (b & s2 & Hb).
  exists b, s2. unfold mbind. by rewrite Ha.
Qed.
Lemma runs_lift_ok {A} (a : A) : runs (lift (Ok a)). Proof. intros s. by eexists _, _. Qed.
Lemma runs_checkpoint {A} (m : M S A) : runs m -> runs (with_checkpoint m).
Proof. intros H s. destruct (H s) as (a & s' & Ha). exists a, s'. by apply with_checkpoint_ok. Qed.
Lemma runs_mfor {X} (l : list X) (f : X -> M S unit) : (forall x, runs (f x)) -> runs (mfor l f).
Proof. intros Hf. induction l; simpl; [apply runs_ret|by apply runs_bind]. Qed.

Lemma runs_atomic {A} (m : M S A) : runs m -> atomic m.
Proof. intros Hm s. left. destruct (Hm s) as (a & s' & Ha). exists a. by rewrite Ha. Qed.

Lemma ro_run {A} (m : M S A) s r s' : ro m -> m s = (r, s') -> s' = s.
Proof. intros Hm Hs. specialize (Hm s). by rewrite Hs in Hm. Qed.
End MonadLemmas.

#[export] Hint Resolve ro_ret ro_fail ro_panic ro_gets ro_lift ro_reads
  ro_require ro_atomic atomic_checkpoint atomic_modify runs_ret runs_gets runs_modify
  runs_lift_ok : rudis.

(** [solve_ro] and [solve_atomic] follow the shape of the computation; the
    lemmas of the components it calls come from the hint database. *)
Ltac solve_ro :=
  repeat first
    [ solve [eauto 2 with rudis]
    | apply ro_bind; [|intros ?]
    | apply ro_mfor; intros ?
    | apply ro_mmap; intros ?
    | case_match ].
Ltac solve_keeps :=
  repeat first
    [ solve [eauto 2 with rudis]
    | apply keeps_ro; solve [solve_ro]
    | apply keeps_bind; [|intros ?]
    | apply keeps_checkpoint
    | apply keeps_mfor; intros ?
    | apply keeps_modify; intros ?; reflexivity
    | case_match ].
Ltac solve_runs :=
  repeat first
    [ solve [eauto 2 with rudis]
    | apply runs_bind; [|intros ?]
    | case_match ].
Ltac solve_atomic :=
  repeat first
    [ solve [eauto 2 with rudis]
    | apply atomic_bind_ro; [solve [solve_ro]|intros ?]
    | apply atomic_bind_ret
    | apply ro_atomic; solve [solve_ro]
    | case_match ].

Lemma Ok_inj {A} (a b : A) : Ok a = Ok b -> a = b.
Proof. congruence. Qed.

Lemma rbind_ok {A B} (r : result A) (k : A -> result B) b :
  rbind r k = Ok b -> exists a, r = Ok a /\ k a = Ok b.
Proof. destruct r; simpl; naive_solver. Qed.

Lemma ok_or_ok {A} (o : option A) e a : ok_or o e = Ok a -> o = Some a.
Proof. destruct o; simpl; naive_solver. Qed.

Lemma rrequire_ok b e u : rrequire b e = Ok u -> b = true.
Proof. unfold rrequire. destruct b; naive_solver. Qed.
Lemma rrequire_iff b e : rrequire b e = Ok tt <-> b = true.
Proof. by destruct b. Qed.

Lemma ebind_inr {E A B} (r : E + A) (k : A -> E + B) b :
  ebind r k = inr b -> exists a, r = inr a /\ k a = inr b.
Proof. destruct r as [e|a]; simpl; [done|]. by exists a. Qed.
Lemma erequire_inr {E} b (e : E) : erequire b e = inr tt -> b = true.
Proof. by destruct b. Qed.
Lemma eok_or_inr {E A} (o : option A) (e : E) a : eok_or o e = inr a -> o = Some a.
Proof. destruct o; simpl; congruence. Qed.
Lemma emap_inr {E X A} (l : list X) (f : X -> E + A) : forall r,
  emap l f = inr r <-> Forall2 (fun x a => f x = inr a) l r.
Proof.
  induction l as [|x l IH]; intros r; simpl; split.
  - intros [= <-]. constructor.
  - by inversion 1.
  - intros (a & Ha & (r' & Hr & [= <-])%ebind_inr)%ebind_inr. constructor; [done|by apply IH].
  - inversion 1 as [|? a ? r' Ha Hr]; subst. rewrite Ha. simpl.
    apply IH in Hr. by rewrite Hr.
Qed.

(** One successful step of a typed-error computation; checks become [true]. *)
Ltac estep H :=
  let a := fresh "a" in let Ha := fresh "He" in
  apply ebind_inr in H as (a & Ha & H);
  try (destruct a; apply erequire_inr in Ha).

(** Boolean tests as propositions. *)
Ltac bprop :=
  repeat match goal with
  | H : (_ && _)%bool = true |- _ => apply andb_true_iff in H as [??]
  | H : (_ || _)%bool = false |- _ => apply orb_false_iff in H as [??]
  | H : (_ || _)%bool = true |- _ => apply orb_true_iff in H
  | H : (_ && _)%bool = false |- _ => apply andb_false_iff in H
  | H : negb _ = true |- _ => apply negb_true_iff in H
  | H : negb _ = false |- _ => apply negb_false_iff in H
  | H : (_ <=? _) = true |- _ => apply Z.leb_le in H
  | H : (_ <=? _) = false |- _ => apply Z.leb_gt in H
  | H : (_ <? _) = true |- _ => apply Z.ltb_lt in H
  | H : (_ <? _) = false |- _ => apply Z.ltb_ge in H
  | H : (_ =? _) = true |- _ => apply Z.eqb_eq in H
  | H : (_ =? _) = false |- _ => apply Z.eqb_neq in H
  | H : bool_decide _ = true |- _ => apply bool_decide_eq_true_1 in H
  | H : bool_decide _ = false |- _ => apply bool_decide_eq_false_1 in H
  end.

(** * Lemmas on checked arithmetic *)

Lemma checked_add_some max a b c :
  checked_add max a b = Some c -> c = a + b /\ a + b <= max.
Proof. unfold checked_add. case_match; bprop; naive_solver. Qed.
Lemma checked_sub_some a b c : checked_sub a b = Some c -> c = a - b /\ b <= a.
Proof. unfold checked_sub. case_match; bprop; naive_solver. Qed.
Lemma checked_mul_some max a b c :
  checked_mul max a b = Some c -> c = a * b /\ a * b <= max.
Proof. unfold checked_mul. case_match; bprop; naive_solver. Qed.

Lemma wrapping_add_small max a b :
  0 <= a + b <= max -> wrapping_add max a b = a + b.
Proof. intros. unfold wrapping_add. apply Z.mod_small. lia. Qed.
Lemma wrapping_sub_small max a b :
  0 <= a - b <= max -> wrapping_sub max a b = a - b.
Proof. intros. unfold wrapping_sub. apply Z.mod_small. lia. Qed.
Lemma wrapping_mul_small max a b :
  0 <= a * b <= max -> wrapping_mul max a b = a * b.
Proof. intros. unfold wrapping_mul. apply Z.mod_small. lia. Qed.

(** ** Inversion of a successful run

    [minv] breaks every hypothesis [run s = (Ok a, s')] (or [r = Ok a]) into
    the facts that each step of the run establishes. *)
Ltac msub H :=
  lazymatch type of H with
  | ?x = ?y => first [subst x | subst y | idtac]
  end.
Ltac msubr H :=
  lazymatch type of H with
  | ?x = ?y => first [subst y | subst x | idtac]
  end.
Ltac minv_step :=
  match goal with
  | H : mbind _ _ _ = (Ok _, _) |- _ =>
      let a := fresh "x" in let s1 := fresh "s" in
      let H1 := fresh "H" in let H2 := fresh "H" in
      apply mbind_ok in H as (a & s1 & H1 & H2)
  | H : gets _ _ = (Ok _, _) |- _ => minv_pair H gets_ok
  | H : mret _ _ = (Ok _, _) |- _ => minv_pair H mret_ok
  | H : lift _ _ = (Ok _, _) |- _ => minv_snd H lift_ok
  | H : reads _ _ = (Ok _, _) |- _ => minv_snd H reads_ok
  | H : require _ _ _ = (Ok _, _) |- _ => minv_snd H require_ok
  | H : modify _ _ = (Ok _, _) |- _ => apply modify_ok in H; msub H
  | H : mfail _ _ = (Ok _, _) |- _ => destruct (mfail_ok _ _ _ _ H)
  | H : mpanic _ = (Ok _, _) |- _ => destruct (mpanic_ok _ _ _ H)
  | H : with_checkpoint _ _ = (Ok _, _) |- _ => apply (proj1 (with_checkpoint_ok _ _ _ _)) in H
  | H : rbind _ _ = Ok _ |- _ =>
      let a := fresh "x" in let H1 := fresh "H" in let H2 := fresh "H" in
      apply rbind_ok in H as (a & H1 & H2)
  | H : ok_or _ _ = Ok _ |- _ => apply ok_or_ok in H
  | H : rrequire _ _ = Ok _ |- _ => apply rrequire_ok in H
  | H : checked_add _ _ _ = Some _ |- _ => minv_fst H checked_add_some
  | H : checked_sub _ _ = Some _ |- _ => minv_fst H checked_sub_some
  | H : checked_mul _ _ _ = Some _ |- _ => minv_fst H checked_mul_some
  | H : (_, _) = (_, _) |- _ =>
      let H1 := fresh "H" in let H2 := fresh "H" in apply pair_equal_spec in H as [H1 H2]; msubr H2; msubr H1
  | H : Ok _ = Ok _ |- _ => apply Ok_inj in H; msubr H
  | H : Err _ = Ok _ |- _ => discriminate H
  | H : Ok _ = Err _ |- _ => discriminate H
  | H : Panic = Ok _ |- _ => discriminate H
  | x : unit |- _ => destruct x
  end
with minv_pair H lem :=
  let H1 := fresh "H" in let H2 := fresh "H" in apply lem in H as [H1 H2]; msub H2; msub H1
with minv_snd H lem :=
  let H2 := fresh "H" in apply lem in H as [H H2]; msub H2
with minv_fst H lem :=
  let H1 := fresh "H" in apply lem in H as [H1 H]; msub H1.

Ltac minv := repeat minv_step.

(** [minv_all] also splits the conditionals and matches that head a run. *)
Ltac minv_case :=
  match goal with
  | H : (match ?b with _ => _ end) _ = (Ok _, _) |- _ => destruct b eqn:?
  | H : (match ?b with _ => _ end) = Ok _ |- _ => destruct b eqn:?
  end.
Ltac minv_all := repeat first [progress minv | minv_case; try discriminate].

(** * Lemmas on mappings *)

Section MappingLemmas.
Context `{Countable K} `{EqDecision V} `{Storable V}.
Implicit Types (m : gmap K V) (k : K) (v : V).

Lemma mread_mwrite_eq m k v : (mwrite k v m).[k] = v.
Proof.
  unfold mread, mwrite. case_decide; subst.
  - by rewrite lookup_delete_eq.
  - by rewrite lookup_insert_eq.
Qed.
Lemma mread_mwrite_ne m k k' v : k <> k' -> (mwrite k v m).[k'] = m.[k'].
Proof.
  intros Hne. unfold mread, mwrite. case_decide.
  - by rewrite lookup_delete_ne.
  - by rewrite lookup_insert_ne.
Qed.
Lemma mread_mwrite m k k' v :
  (mwrite k v m).[k'] = if decide (k = k') then v else m.[k'].
Proof. case_decide; subst; [apply mread_mwrite_eq|by apply mread_mwrite_ne]. Qed.
Lemma mread_empty k : (∅ : gmap K V).[k] = word0.
Proof. unfold mread. by rewrite lookup_empty. Qed.
End MappingLemmas.

(** Case analysis on the keys of a read after a write, in the goal or a
    hypothesis. *)
Ltac mcase :=
  repeat match goal with
  | |- context [mread (mwrite ?k ?v ?m) ?k] => rewrite (mread_mwrite_eq m k v)
  | H : context [mread (mwrite ?k ?v ?m) ?k] |- _ => rewrite (mread_mwrite_eq m k v) in H
  | Hne : ?k <> ?k' |- context [mread (mwrite ?k _ _) ?k'] =>
      rewrite mread_mwrite_ne by exact Hne
  | Hne : ?k <> ?k', H : context [mread (mwrite ?k _ _) ?k'] |- _ =>
      rewrite mread_mwrite_ne in H by exact Hne
  | Hne : ?k' <> ?k |- context [mread (mwrite ?k _ _) ?k'] =>
      rewrite mread_mwrite_ne by (intros ?; apply Hne; congruence)
  | Hne : ?k' <> ?k, H : context [mread (mwrite ?k _ _) ?k'] |- _ =>
      rewrite mread_mwrite_ne in H by (intros ?; apply Hne; congruence)
  | |- context [mread (mwrite ?k ?v ?m) ?k'] =>
      rewrite (mread_mwrite m k k' v); destruct (decide (k = k')); subst
  | H : context [mread (mwrite ?k ?v ?m) ?k'] |- _ =>
      rewrite (mread_mwrite m k k' v) in H; destruct (decide (k = k')); subst
  end.

Section MapSum.
Context `{Countable K}.
Implicit Types (m : gmap K Z) (k : K) (v : Z).

Lemma map_sum_empty : map_sum (∅ : gmap K Z) = 0.
Proof. apply map_fold_empty. Qed.

Lemma map_sum_insert m k v :
  m !! k = None -> map_sum (<[k := v]> m) = v + map_sum m.
Proof.
  intros Hk. unfold map_sum. rewrite map_fold_insert_L; [done| |done].
  intros; lia.
Qed.

Lemma map_sum_delete m k : map_sum (delete k m) = map_sum m - m.[k].
Proof.
  unfold mread. destruct (m !! k) as [v|] eqn:Hk; simpl.
  - rewrite <- (insert_delete_id m k v Hk) at 2.
    rewrite map_sum_insert by apply lookup_delete_eq. lia.
  - rewrite delete_id by done. unfold word0, Storable_Z. lia.
Qed.

Lemma map_sum_mwrite m k v : map_sum (mwrite k v m) = map_sum m - m.[k] + v.
Proof.
  unfold mwrite. case_decide as Hv.
  - rewrite map_sum_delete. unfold word0, Storable_Z in Hv. lia.
  - rewrite <- insert_delete_eq, map_sum_insert by apply lookup_delete_eq.
    rewrite map_sum_delete. lia.
Qed.

Lemma map_sum_nonneg m : (forall k, 0 <= m.[k]) -> 0 <= map_sum m.
Proof.
  induction m as [|k v m Hk IH] using map_ind; intros Hpos.
  - by rewrite map_sum_empty.
  - rewrite map_sum_insert by done.
    assert (0 <= v).
    { specialize (Hpos k). unfold mread in Hpos. by rewrite lookup_insert_eq in Hpos. }
    assert (0 <= map_sum m); [|lia]. apply IH. intros k'.
    destruct (decide (k = k')) as [->|Hne].
    + unfold mread. rewrite Hk. done.
    + specialize (Hpos k'). unfold mread in *. by rewrite lookup_insert_ne in Hpos.
Qed.

Lemma map_sum_le m k : (forall k, 0 <= m.[k]) -> m.[k] <= map_sum m.
Proof.
  intros Hpos. assert (0 <= map_sum (mwrite k 0 m)) as Hs.
  { apply map_sum_nonneg. intros k'. mcase; [lia|apply Hpos]. }
  rewrite map_sum_mwrite in Hs. lia.
Qed.

Lemma map_sum_le2 m k1 k2 :
  k1 <> k2 -> (forall k, 0 <= m.[k]) -> m.[k1] + m.[k2] <= map_sum m.
Proof.
  intros Hne Hpos. assert (0 <= map_sum (mwrite k2 0 (mwrite k1 0 m))) as Hs.
  { apply map_sum_nonneg. intros k'. mcase; try lia; apply Hpos. }
  rewrite !map_sum_mwrite in Hs. rewrite mread_mwrite_ne in Hs by done. lia.
Qed.
End MapSum.
