(* ===== verification/Bytes.v ===== *)
(** Byte strings and big-endian words, as the codecs and hash preimages of the
    runtime use them ([to_be_bytes], [from_be_bytes], [B256::from_slice]), and
    [keccak256] as a parameter. *)

From S2P Require Import Prelude.

Definition byte (b : Z) : Prop := 0 <= b < 256.

(** [to_be_bytes] at a width of [len] bytes. *)
Fixpoint be_bytes (len : nat) (n : Z) : list Z :=
  match len with
  | O => []
  | S len' => be_bytes len' (n / 256) ++ [n mod 256]
  end.

(** The big-endian value of a byte string. *)
Definition be_value (bytes : list Z) : Z := fold_left (fun acc b => acc * 256 + b) bytes 0.

(** A byte string literal. *)
Fixpoint string_bytes (s : string) : list Z :=
  match s with
  | EmptyString => []
  | String c rest => Z.of_N (Ascii.N_of_ascii c) :: string_bytes rest
  end.

(** [alloy_primitives::keccak256]. *)
Class Keccak := keccak256 : list Z -> B256.

(** * Lemmas *)

Lemma length_be_bytes len : forall n, length (be_bytes len n) = len.
Proof.
  induction len as [|len IH]; intros n; simpl; [done|]. rewrite length_app, IH. simpl. lia.
Qed.

Lemma be_bytes_byte len : forall n, Forall byte (be_bytes len n).
Proof.
  induction len as [|len IH]; intros n; simpl; [constructor|].
  apply Forall_app. split; [apply IH|]. constructor; [|constructor].
  unfold byte. apply Z.mod_pos_bound. lia.
Qed.

Lemma be_value_snoc l b : be_value (l ++ [b]) = be_value l * 256 + b.
Proof. unfold be_value. by rewrite fold_left_app. Qed.

Lemma be_value_bounds l : Forall byte l -> 0 <= be_value l < 256 ^ Z.of_nat (length l).
Proof.
  induction l as [|b l IH] using rev_ind; intros Hl; [done|].
  apply Forall_app in Hl as [Hl Hb]. apply Forall_cons in Hb as [Hb _]. unfold byte in Hb.
  specialize (IH Hl). rewrite be_value_snoc, length_app. simpl length.
  rewrite Nat2Z.inj_add, Z.pow_add_r by lia.
  change (256 ^ Z.of_nat 1) with 256. lia.
Qed.

Lemma be_value_bytes len : forall n,
  0 <= n < 256 ^ Z.of_nat len -> be_value (be_bytes len n) = n.
Proof.
  induction len as [|len IH]; intros n Hn.
  - simpl in Hn. change (0 = n). lia.
  - rewrite Nat2Z.inj_succ, Z.pow_succ_r in Hn by lia. cbn [be_bytes]. rewrite be_value_snoc, IH.
    + pose proof (Z.div_mod n 256 ltac:(lia)). lia.
    + split; [apply Z.div_pos; lia|]. apply Z.div_lt_upper_bound; lia.
Qed.

Lemma be_bytes_value l : Forall byte l -> be_bytes (length l) (be_value l) = l.
Proof.
  induction l as [|b l IH] using rev_ind; intros Hl; [done|].
  apply Forall_app in Hl as [Hl Hb]. apply Forall_cons in Hb as [Hb _]. unfold byte in Hb.
  rewrite length_app, Nat.add_comm, be_value_snoc. cbn [length Nat.add be_bytes].
  rewrite Z.div_add_l by lia. rewrite (Z.div_small b) by lia. rewrite Z.add_0_r, IH by done.
  rewrite Z.add_comm, Z.mod_add, Z.mod_small by lia. done.
Qed.

Lemma be_bytes_inj len a b :
  0 <= a < 256 ^ Z.of_nat len -> 0 <= b < 256 ^ Z.of_nat len ->
  be_bytes len a = be_bytes len b -> a = b.
Proof. intros Ha Hb Heq. rewrite <- (be_value_bytes len a), <- (be_value_bytes len b) by done. by rewrite Heq. Qed.

Lemma be_value_inj a b :
  Forall byte a -> Forall byte b -> length a = length b -> be_value a = be_value b -> a = b.
Proof.
  intros Ha Hb Hl Hv. rewrite <- (be_bytes_value a Ha), <- (be_bytes_value b Hb). by rewrite Hl, Hv.
Qed.

Lemma string_bytes_byte s : Forall byte (string_bytes s).
Proof.
  induction s as [|c s IH]; constructor; [|done].
  unfold byte. pose proof (Ascii.N_ascii_bounded c). lia.
Qed.

(** A byte string is the concatenation of its pieces of a width. *)
Lemma concat_pieces w n : forall bytes : list Z, (length bytes <= w * n)%nat ->
  concat ((fun i => take w (drop (w * i) bytes)) <$> seq 0 n) = bytes.
Proof.
  induction n as [|n IH]; intros bytes Hlen.
  - destruct bytes; [done|simpl in Hlen; lia].
  - cbn [seq fmap list_fmap concat]. rewrite <- fmap_S_seq, <- list_fmap_compose.
    rewrite Nat.mul_0_r, drop_0. transitivity (take w bytes ++ drop w bytes); [|apply take_drop]. f_equal.
    rewrite <- (IH (drop w bytes)) by (rewrite length_drop; lia).
    f_equal. apply list_fmap_ext. intros i j _. unfold compose. rewrite !drop_drop.
    do 2 f_equal. lia.
Qed.
Lemma length_concat_be w l : length (concat (be_bytes w <$> l)) = (w * length l)%nat.
Proof.
  induction l as [|a l IH]; [simpl; lia|].
  cbn [fmap list_fmap concat length]. rewrite length_app, length_be_bytes. fold (fmap (M := list) (be_bytes w) l).
  rewrite IH. lia.
Qed.

(** A concrete collision-free hash for examples: the value of the input behind a
    leading one. *)
Definition spelled_keccak : Keccak := fun l => be_value (1 :: l).

Lemma spelled_inj a b :
  Forall byte a -> Forall byte b -> length a = length b ->
  spelled_keccak a = spelled_keccak b -> a = b.
Proof.
  intros Ha Hb Hl Hv. unfold spelled_keccak in Hv. apply be_value_inj in Hv.
  - by injection Hv.
  - constructor; [unfold byte; lia|done].
  - constructor; [unfold byte; lia|done].
  - simpl. by f_equal.
Qed.
