(* ===== verification/Wire.v ===== *)
(** Wire formats of consensus evidence and of the certified-parent metadata.

    Sources: [crates/system/slashindicator/src/evidence.rs],
    [vrf_evidence.rs], [seed_partial_evidence.rs];
    [crates/blockchain/primitives/src/consensus_metadata.rs];
    [crates/blockchain/consensus/src/proof/constants.rs] (namespaces) and
    [seed_partial.rs] (attested message).

    A cursor into the input is the input that remains: [data.get(pos..pos + n)]
    splits [n] bytes off it. A read past the end is an error where the code
    returns one and a panic where it slices. *)

From S2P Require Import Prelude Bytes.

(** * Cursors *)

Definition reader (A : Type) : Type := list Z -> result (A * list Z).

(** [n] bytes, or the given failure. *)
Definition take_bytes (n : nat) (fail : result (list Z * list Z)) : reader (list Z) := fun input =>
  if (length input <? n)%nat then fail else Ok (take n input, drop n input).

(** A fixed-width big-endian value. *)
Definition read_be (n : nat) (fail : result (list Z * list Z)) : reader Z := fun input =>
  let? (bytes, rest) := take_bytes n fail input in Ok (be_value bytes, rest).

(** * LEB128 (evidence.rs) *)

(** The loop of [write_leb128]; ten iterations cover 64 bits. *)
Fixpoint leb128_bytes (fuel : nat) (value : Z) : list Z :=
  match fuel with
  | O => []
  | S fuel' =>
      let byte := Z.land value 0x7F in
      let value' := Z.shiftr value 7 in
      if value' =? 0 then [byte] else Z.lor byte 0x80 :: leb128_bytes fuel' value'
  end.
Definition write_leb128 (value : Z) : list Z := leb128_bytes 10 value.

(** The loop of [read_leb128]: the bits shifted past the 64th are dropped. *)
Fixpoint read_leb128_from (shift result : Z) (data : list Z) : Prelude.result (Z * list Z) :=
  match data with
  | [] => Err (Revert "unexpected end of data while reading varint")
  | byte :: rest =>
      let result' := Z.lor result (Z.shiftl (Z.land byte 0x7F) shift mod 2 ^ 64) in
      if Z.land byte 0x80 =? 0 then Ok (result', rest)
      else if 64 <=? shift + 7 then Err (Revert "varint overflow")
      else read_leb128_from (shift + 7) result' rest
  end.
Definition read_leb128 : reader Z := read_leb128_from 0 0.

(** * Evidence blocks (evidence.rs) *)

Record EvidenceBlock : Type := mkEvidenceBlock {
  pubkey : list Z;
  signature : list Z;
  proposal_bytes : list Z }.

Definition EvidenceBlock_parse (data : list Z) : result EvidenceBlock :=
  if (length data <? 48 + 96 + 1)%nat
  then Err (Revert "evidence block too short: need at least 145 bytes")
  else Ok (mkEvidenceBlock (take 48 data) (take 96 (drop 48 data)) (drop 144 data)).

(** The round (epoch, view) at the head of the encoded proposal. *)
Definition evidence_round (ev : EvidenceBlock) : result (Z * Z) :=
  let? (epoch, rest) := read_leb128 (proposal_bytes ev) in
  let? (view, _) := read_leb128 rest in
  Ok (epoch, view).

Definition build_signed_payload_with_ns (namespace payload_bytes : list Z) : list Z :=
  write_leb128 (Z.of_nat (length namespace)) ++ namespace ++ payload_bytes.

(** * Namespaces (constants.rs) *)

Section Namespaces.
Context {H : Keccak}.

Definition outbe_app_namespace (chain : Z) : list Z := string_bytes "outbe" ++ be_bytes 8 chain.

(** Over the committee's keys in [Set] order; [Encode] of a key is its 48 bytes. *)
Definition participant_set_commitment (committee : list Z) : list Z :=
  be_bytes 32 (keccak256 (string_bytes "OUTBE_COMMITTEE_V1"
    ++ be_bytes 4 (Z.of_nat (length committee)) ++ concat (be_bytes 48 <$> committee))).

Definition sub_namespace (chain : Z) (suffix : string) : list Z :=
  outbe_app_namespace chain ++ string_bytes suffix.
Definition vote_sub_namespace (chain : Z) (suffix : string) (committee : list Z) : list Z :=
  outbe_app_namespace chain ++ string_bytes suffix ++ participant_set_commitment committee.

Definition notarize_namespace (chain : Z) := vote_sub_namespace chain "_NOTARIZE".
Definition nullify_namespace (chain : Z) := vote_sub_namespace chain "_NULLIFY".
Definition finalize_namespace (chain : Z) := vote_sub_namespace chain "_FINALIZE".
Definition hybrid_seed_namespace (chain : Z) : list Z := sub_namespace chain "_SEED".
Definition seed_attest_namespace (chain : Z) : list Z := sub_namespace chain "_SEEDATTEST".
End Namespaces.

(** * Invalid-VRF evidence (vrf_evidence.rs) *)

Definition IVE2_MAGIC : list Z := string_bytes "IVE2".
Definition IVE2_VERSION : Z := 2.
Definition FIXED_PREFIX_LEN : nat := 4 + 1 + 8 + 32 + 8 + 8 + 32 + 2 + 4.

Record InvalidVrfProofEvidence : Type := mkInvalidVrf {
  child_block_number : Z;
  child_block_hash : B256;
  child_epoch : Z;
  parent_block_number : Z;
  parent_block_hash : B256;
  failure_code : Z;
  phase1_tx_bytes : list Z }.

Definition InvalidVrfProofEvidence_encode (ev : InvalidVrfProofEvidence) : list Z :=
  IVE2_MAGIC ++ [IVE2_VERSION]
  ++ be_bytes 8 (child_block_number ev) ++ be_bytes 32 (child_block_hash ev)
  ++ be_bytes 8 (child_epoch ev)
  ++ be_bytes 8 (parent_block_number ev) ++ be_bytes 32 (parent_block_hash ev)
  ++ be_bytes 2 (failure_code ev)
  ++ be_bytes 4 (Z.of_nat (length (phase1_tx_bytes ev))) ++ phase1_tx_bytes ev.

(** [read_length_prefixed]. *)
Definition read_length_prefixed : reader (list Z) := fun input =>
  let? (len, rest) := read_be 4 Panic input in
  take_bytes (Z.to_nat len)
    (Err (Revert "InvalidVrfProofEvidence: bytes length exceeds remaining input")) rest.

Definition InvalidVrfProofEvidence_decode (input : list Z) : result InvalidVrfProofEvidence :=
  let? _ := rrequire (negb (length input <? FIXED_PREFIX_LEN)%nat)
    (Revert "InvalidVrfProofEvidence: input too short") in
  let? (magic, cur) := take_bytes 4 Panic input in
  let? _ := rrequire (bool_decide (magic = IVE2_MAGIC))
    (Revert "InvalidVrfProofEvidence: bad magic") in
  let? (version, cur) := read_be 1 Panic cur in
  let? _ := rrequire (version =? IVE2_VERSION)
    (Revert "InvalidVrfProofEvidence: unsupported version") in
  let? (child_number, cur) := read_be 8 Panic cur in
  let? (child_hash, cur) := read_be 32 Panic cur in
  let? (epoch, cur) := read_be 8 Panic cur in
  let? (parent_number, cur) := read_be 8 Panic cur in
  let? (parent_hash, cur) := read_be 32 Panic cur in
  let? (code, cur) := read_be 2 Panic cur in
  let? (tx, cur) := read_length_prefixed cur in
  let? _ := rrequire (bool_decide (cur = []))
    (Revert "InvalidVrfProofEvidence: trailing bytes after phase1_tx") in
  Ok (mkInvalidVrf child_number child_hash epoch parent_number parent_hash code tx).

(** * Seed-partial evidence (seed_partial_evidence.rs) *)

Definition SPE1_MAGIC : list Z := string_bytes "SPE1".
Definition SPE1_VERSION : Z := 1.
Definition SPE1_LEN : nat := 365.

Record SeedPartialEquivocationEvidence : Type := mkSpe {
  spe_round_epoch : Z;
  spe_round_view : Z;
  spe_vrf_version : Z;
  spe_signer_pubkey : list Z;
  partial_1 : list Z;
  identity_sig_1 : list Z;
  partial_2 : list Z;
  identity_sig_2 : list Z }.

Definition SeedPartialEquivocationEvidence_decode (data : list Z) :
    result SeedPartialEquivocationEvidence :=
  let? _ := rrequire (length data =? SPE1_LEN)%nat
    (Revert "SPE1 evidence must be exactly 365 bytes") in
  let? (magic, pos) := take_bytes 4 Panic data in
  let? _ := rrequire (bool_decide (magic = SPE1_MAGIC)) (Revert "SPE1 evidence bad magic") in
  let? (version, pos) := read_be 1 Panic pos in
  let? _ := rrequire (version =? SPE1_VERSION) (Revert "SPE1 evidence bad version") in
  let? (round_epoch, pos) := read_be 8 Panic pos in
  let? (round_view, pos) := read_be 8 Panic pos in
  let? (vrf_version, pos) := read_be 8 Panic pos in
  let? (signer, pos) := take_bytes 48 Panic pos in
  let? (p1, pos) := take_bytes 48 Panic pos in
  let? (s1, pos) := take_bytes 96 Panic pos in
  let? (p2, pos) := take_bytes 48 Panic pos in
  let? (s2, pos) := take_bytes 96 Panic pos in
  Ok (mkSpe round_epoch round_view vrf_version signer p1 s1 p2 s2).

Definition IPE1_MAGIC : list Z := string_bytes "IPE1".
Definition IPE1_VERSION : Z := 1.
Definition IPE1_PREFIX_LEN : nat := 4 + 1 + 32 + 8 + 8 + 8 + 4 + 48 + 48 + 96 + 4.

Record InvalidSeedPartialEvidence : Type := mkIpe {
  ipe_committee_set_hash : B256;
  ipe_round_epoch : Z;
  ipe_round_view : Z;
  ipe_vrf_version : Z;
  signer_index : Z;
  ipe_signer_pubkey : list Z;
  ipe_partial : list Z;
  ipe_identity_sig : list Z;
  commitment : list Z }.

Definition InvalidSeedPartialEvidence_decode (data : list Z) : result InvalidSeedPartialEvidence :=
  let? _ := rrequire (negb (length data <? IPE1_PREFIX_LEN)%nat)
    (Revert "IPE1 evidence too short") in
  let? (magic, pos) := take_bytes 4 Panic data in
  let? _ := rrequire (bool_decide (magic = IPE1_MAGIC)) (Revert "IPE1 evidence bad magic") in
  let? (version, pos) := read_be 1 Panic pos in
  let? _ := rrequire (version =? IPE1_VERSION) (Revert "IPE1 evidence bad version") in
  let? (set_hash, pos) := read_be 32 Panic pos in
  let? (round_epoch, pos) := read_be 8 Panic pos in
  let? (round_view, pos) := read_be 8 Panic pos in
  let? (vrf_version, pos) := read_be 8 Panic pos in
  let? (index, pos) := read_be 4 Panic pos in
  let? (signer, pos) := take_bytes 48 Panic pos in
  let? (partial, pos) := take_bytes 48 Panic pos in
  let? (sig, pos) := take_bytes 96 Panic pos in
  let? (commitment_len, pos) := read_be 4 Panic pos in
  let? (commit, pos) := take_bytes (Z.to_nat commitment_len)
    (Err (Revert "IPE1 commitment length exceeds input")) pos in
  let? _ := rrequire (bool_decide (pos = [])) (Revert "IPE1 evidence has trailing bytes") in
  Ok (mkIpe set_hash round_epoch round_view vrf_version index signer partial sig commit).

(** Byte strings in lexicographic order ([<=] on slices and arrays). *)
Fixpoint bytes_leb (a b : list Z) : bool :=
  match a, b with
  | [], _ => true
  | _ :: _, [] => false
  | x :: a', y :: b' => if x <? y then true else if y <? x then false else bytes_leb a' b'
  end.

Section Dedup.
Context {H : Keccak}.

Definition SeedPartialEquivocationEvidence_dedup_hash (ev : SeedPartialEquivocationEvidence) : B256 :=
  let '(lo, hi) := if bytes_leb (partial_1 ev) (partial_2 ev)
                   then (partial_1 ev, partial_2 ev) else (partial_2 ev, partial_1 ev) in
  keccak256 (SPE1_MAGIC ++ be_bytes 8 (spe_round_epoch ev) ++ be_bytes 8 (spe_round_view ev)
             ++ be_bytes 8 (spe_vrf_version ev) ++ spe_signer_pubkey ev ++ lo ++ hi).

Definition InvalidSeedPartialEvidence_dedup_hash (ev : InvalidSeedPartialEvidence) : B256 :=
  keccak256 (IPE1_MAGIC ++ be_bytes 8 (ipe_round_epoch ev) ++ be_bytes 8 (ipe_round_view ev)
             ++ be_bytes 8 (ipe_vrf_version ev) ++ ipe_signer_pubkey ev ++ ipe_partial ev).

(** [canonical_evidence_hash] (runtime.rs): the order of the pair is normalised. *)
Definition canonical_evidence_hash (ev1 ev2 : list Z) : B256 :=
  let '(first, second) := if bytes_leb ev1 ev2 then (ev1, ev2) else (ev2, ev1) in
  keccak256 (first ++ second).

(** [invalid_vrf_evidence_hash_v2] (fingerprint.rs). *)
Definition invalid_vrf_evidence_hash_v2 (child_hash phase1_tx_hash : B256) : B256 :=
  keccak256 (be_bytes 32 child_hash ++ be_bytes 32 phase1_tx_hash).
End Dedup.

(** * Certified-parent accounting metadata (consensus_metadata.rs) *)

Inductive ParentParticipationProof : Type := Finalization | CertifiedNotarization.
#[global] Instance ParentParticipationProof_eq_dec : EqDecision ParentParticipationProof.
Proof. solve_decision. Defined.

Definition proof_tag (p : ParentParticipationProof) : Z :=
  match p with Finalization => 0 | CertifiedNotarization => 1 end.
Definition proof_from_tag (tag : Z) : result ParentParticipationProof :=
  if tag =? 0 then Ok Finalization
  else if tag =? 1 then Ok CertifiedNotarization
  else Err (Fatal "invalid ParentParticipationProof tag").

Record MissedProposerEvent : Type := mkMissed { missed_view : Z; missed_validator : Address }.

Record CertifiedParentAccountingMetadata : Type := mkMetadata {
  finalized_block_number : Z;
  finalized_block_hash : B256;
  finalized_epoch : Z;
  finalized_view : Z;
  parent_view : Z;
  ordered_committee : list Address;
  signer_bitmap : list Z;
  md_proof : list Z;
  committee_set_hash : B256;
  md_vrf_material_version : Z;
  vrf_group_public_key_hash : B256;
  proof_kind : ParentParticipationProof;
  missed_proposers : list MissedProposerEvent }.

Definition OAV3_MAGIC : list Z := string_bytes "OAV3".
Definition OAV3_VERSION : Z := 1.

Definition ensure_count_fits_u16 (count : nat) : result unit :=
  rrequire (Z.of_nat count <=? 2 ^ 16 - 1) (Fatal "list exceeds u16 count limit").
Definition ensure_len_fits_u32 (len : nat) : result unit :=
  rrequire (Z.of_nat len <=? u32_max) (Fatal "exceeds u32 length limit").

Definition encode_addresses (addrs : list Address) : list Z :=
  be_bytes 2 (Z.of_nat (length addrs)) ++ concat (be_bytes 20 <$> addrs).
Definition encode_missed (events : list MissedProposerEvent) : list Z :=
  be_bytes 2 (Z.of_nat (length events))
  ++ concat ((fun ev => be_bytes 8 (missed_view ev) ++ be_bytes 20 (missed_validator ev)) <$> events).

(** The bytes of a metadata whose lengths fit; [encode_bytes_u16] repeats the
    check on the bitmap. *)
Definition metadata_bytes (m : CertifiedParentAccountingMetadata) : list Z :=
  OAV3_MAGIC ++ [OAV3_VERSION]
  ++ be_bytes 8 (finalized_block_number m) ++ be_bytes 32 (finalized_block_hash m)
  ++ be_bytes 8 (finalized_epoch m) ++ be_bytes 8 (finalized_view m) ++ be_bytes 8 (parent_view m)
  ++ encode_addresses (ordered_committee m)
  ++ (be_bytes 2 (Z.of_nat (length (signer_bitmap m))) ++ signer_bitmap m)
  ++ (be_bytes 4 (Z.of_nat (length (md_proof m))) ++ md_proof m)
  ++ be_bytes 32 (committee_set_hash m) ++ be_bytes 8 (md_vrf_material_version m)
  ++ be_bytes 32 (vrf_group_public_key_hash m) ++ [proof_tag (proof_kind m)]
  ++ encode_missed (missed_proposers m).

Definition metadata_encode (m : CertifiedParentAccountingMetadata) : result (list Z) :=
  let? _ := ensure_count_fits_u16 (length (ordered_committee m)) in
  let? _ := ensure_count_fits_u16 (length (signer_bitmap m)) in
  let? _ := ensure_count_fits_u16 (length (missed_proposers m)) in
  let? _ := ensure_len_fits_u32 (length (md_proof m)) in
  let? _ := ensure_count_fits_u16 (length (signer_bitmap m)) in
  Ok (metadata_bytes m).

Definition eof (msg : string) : result (list Z * list Z) := Err (Fatal msg).
Definition read_u64 : reader Z := read_be 8 (eof "unexpected EOF reading u64").
Definition read_b256 : reader B256 := read_be 32 (eof "unexpected EOF reading B256").
Definition read_u8 : reader Z := read_be 1 (eof "unexpected EOF reading u8").

(** [chunks_exact(20)] over [count * 20] bytes. *)
Definition address_chunks (count : nat) (bytes : list Z) : list Address :=
  (fun i => be_value (take 20 (drop (20 * i) bytes))) <$> seq 0 count.
Definition read_addresses : reader (list Address) := fun data =>
  let? (count, data) := read_be 2 (eof "unexpected EOF reading address count") data in
  let? (bytes, data) := take_bytes (Z.to_nat count * 20)
    (eof "unexpected EOF reading address list") data in
  Ok (address_chunks (Z.to_nat count) bytes, data).

(** [read_bytes_u16] and [read_bytes_u32]: a length on 2 or 4 bytes. *)
Definition read_bytes_len (width : nat) : reader (list Z) := fun data =>
  let? (len, data) := read_be width (eof "unexpected EOF reading byte length") data in
  take_bytes (Z.to_nat len) (eof "unexpected EOF reading bytes") data.

Fixpoint read_missed_loop (count : nat) (data : list Z) :
    result (list MissedProposerEvent * list Z) :=
  match count with
  | O => Ok ([], data)
  | S count' =>
      let? (view, data) := read_u64 data in
      let? (validator, data) :=
        read_be 20 (eof "unexpected EOF reading missed-proposer validator") data in
      let? (events, data) := read_missed_loop count' data in
      Ok (mkMissed view validator :: events, data)
  end.
Definition read_missed_proposers : reader (list MissedProposerEvent) := fun data =>
  let? (count, data) := read_be 2 (eof "unexpected EOF reading missed-proposer count") data in
  read_missed_loop (Z.to_nat count) data.

Definition metadata_min_len : nat := 4 + 1 + 8 + 32 + 8 + 8 + 8 + 2 + 2 + 4 + 32 + 8 + 32 + 1 + 2.

Definition metadata_decode (data : list Z) : result CertifiedParentAccountingMetadata :=
  let? _ := rrequire (negb (length data <? metadata_min_len)%nat)
    (Fatal "certified-parent accounting metadata too short") in
  let? (magic, cur) := take_bytes 4 Panic data in
  let? _ := rrequire (bool_decide (magic = OAV3_MAGIC))
    (Fatal "invalid certified-parent accounting magic") in
  let? (version, cur) := read_be 1 Panic cur in
  let? _ := rrequire (version =? OAV3_VERSION)
    (Fatal "unsupported certified-parent accounting version") in
  let? (number, cur) := read_u64 cur in
  let? (hash, cur) := read_b256 cur in
  let? (epoch, cur) := read_u64 cur in
  let? (view, cur) := read_u64 cur in
  let? (parent, cur) := read_u64 cur in
  let? (committee, cur) := read_addresses cur in
  let? (bitmap, cur) := read_bytes_len 2 cur in
  let? (proof, cur) := read_bytes_len 4 cur in
  let? (set_hash, cur) := read_b256 cur in
  let? (vrf_version, cur) := read_u64 cur in
  let? (group_hash, cur) := read_b256 cur in
  let? (tag, cur) := read_u8 cur in
  let? kind := proof_from_tag tag in
  let? (missed, cur) := read_missed_proposers cur in
  let? _ := rrequire (bool_decide (cur = []))
    (Fatal "trailing bytes in certified-parent accounting metadata") in
  Ok (mkMetadata number hash epoch view parent committee bitmap proof set_hash vrf_version
        group_hash kind missed).
