(* ===== verification/WireProps.v ===== *)
(** Properties of the wire formats: what is encoded reads back, what decodes is
    the one encoding of its value, and payloads signed for different chains,
    vote kinds, committees or messages never coincide. *)

From S2P Require Import Prelude Bytes Wire.

(** * Lawful readers *)

(** [r] reads back what [enc] writes and accepts nothing else. *)
Record lawful {A} (r : reader A) (enc : A -> list Z) (wf : A -> Prop) : Prop := {
  law_read : forall a rest, wf a -> r (enc a ++ rest) = Ok (a, rest);
  law_canon : forall input a rest, Forall byte input -> r input = Ok (a, rest) ->
    input = enc a ++ rest /\ wf a /\ Forall byte rest }.

(** Values of a byte width, byte strings of a length. *)
Definition fits (n : nat) (z : Z) : Prop := 0 <= z < 256 ^ Z.of_nat n.
Definition bytes_of (n : nat) (l : list Z) : Prop := length l = n /\ Forall byte l.

Lemma take_bytes_app n fail (a rest : list Z) :
  length a = n -> take_bytes n fail (a ++ rest) = Ok (a, rest).
Proof.
  intros <-. unfold take_bytes. rewrite length_app.
  destruct (Nat.ltb_spec (length a + length rest) (length a)); [lia|].
  by rewrite take_app_length, drop_app_length.
Qed.

Lemma take_bytes_lawful n fail :
  (forall p, fail <> Ok p) -> lawful (take_bytes n fail) id (bytes_of n).
Proof.
  intros Hf. split.
  - intros a rest [Hl _]. by apply take_bytes_app.
  - intros input a rest Hb Hr. unfold take_bytes in Hr.
    destruct (Nat.ltb_spec (length input) n); [by apply Hf in Hr|]. simplify_eq.
    split_and!; [unfold id; by rewrite take_drop|split; [rewrite length_take; lia|by apply Forall_take]|by apply Forall_drop].
Qed.

Lemma read_be_lawful n fail :
  (forall p, fail <> Ok p) -> lawful (read_be n fail) (be_bytes n) (fits n).
Proof.
  intros Hf. destruct (take_bytes_lawful n fail Hf) as [Hread Hcanon]. split.
  - intros z rest Hz. unfold read_be. rewrite (Hread (be_bytes n z)).
    + simpl. by rewrite be_value_bytes.
    + split; [apply length_be_bytes|apply be_bytes_byte].
  - intros input z rest Hb Hr. unfold read_be in Hr. minv. destruct x as [bs r]. simplify_eq.
    match goal with Ht : take_bytes _ _ _ = _ |- _ => apply Hcanon in Ht as (-> & [Hl Hbs] & Hr); [|done] end.
    unfold id. rewrite <- Hl. rewrite be_bytes_value by done. split_and!; [done| |done].
    unfold fits. by apply be_value_bounds.
Qed.

Lemma read_be_app n fail z rest : fits n z -> read_be n fail (be_bytes n z ++ rest) = Ok (z, rest).
Proof.
  intros Hz. unfold read_be. rewrite take_bytes_app by apply length_be_bytes. simpl.
  by rewrite be_value_bytes.
Qed.

(** [read_step] reads the next field of an encoding; [canon_step] recovers the
    bytes of the next field of a successful decoding. *)
Ltac read_step :=
  first [ rewrite take_bytes_app by (first [done | apply length_be_bytes])
        | rewrite read_be_app by (first [assumption | (unfold fits; split; done)]) ];
  cbn [rbind].
Ltac canon_step :=
  match goal with
  | Hx : rbind _ _ = Ok _ |- _ =>
      let p := fresh "p" in let H1 := fresh "H" in
      apply rbind_ok in Hx as (p & H1 & Hx); try destruct p as [??]
  | Hx : rrequire _ _ = Ok _ |- _ => apply rrequire_ok in Hx; bprop
  | Hx : read_be ?n ?f ?i = Ok _, Hb : Forall byte ?i |- _ =>
      apply (law_canon _ _ _ (read_be_lawful n f ltac:(done))) in Hx as (-> & ? & ?); [|exact Hb]; clear Hb
  | Hx : take_bytes ?n ?f ?i = Ok _, Hb : Forall byte ?i |- _ =>
      apply (law_canon _ _ _ (take_bytes_lawful n f ltac:(done))) in Hx as (-> & [??] & ?);
        [|exact Hb]; clear Hb
  end; unfold id in *.

(** ** Evidence of an invalid VRF proof *)

Record wf_vrf_evidence (ev : InvalidVrfProofEvidence) : Prop := {
  we_child_number : fits 8 (child_block_number ev);
  we_child_hash : fits 32 (child_block_hash ev);
  we_epoch : fits 8 (child_epoch ev);
  we_parent_number : fits 8 (parent_block_number ev);
  we_parent_hash : fits 32 (parent_block_hash ev);
  we_code : fits 2 (failure_code ev);
  we_tx : Forall byte (phase1_tx_bytes ev);
  we_len : fits 4 (Z.of_nat (length (phase1_tx_bytes ev))) }.

Lemma vrf_decode_encode ev :
  wf_vrf_evidence ev -> InvalidVrfProofEvidence_decode (InvalidVrfProofEvidence_encode ev) = Ok ev.
Proof.
  intros [H1 H2 H3 H4 H5 H6 H7 H8]. destruct ev as [cn ch ce pn ph fc tx]. simpl in *.
  unfold InvalidVrfProofEvidence_decode, InvalidVrfProofEvidence_encode. cbn [child_block_number
    child_block_hash child_epoch parent_block_number parent_block_hash failure_code phase1_tx_bytes].
  assert (Hlen : (length (IVE2_MAGIC ++ [IVE2_VERSION] ++ be_bytes 8 cn ++ be_bytes 32 ch ++
    be_bytes 8 ce ++ be_bytes 8 pn ++ be_bytes 32 ph ++ be_bytes 2 fc
    ++ be_bytes 4 (Z.of_nat (length tx)) ++ tx) <? FIXED_PREFIX_LEN)%nat = false).
  { apply Nat.ltb_ge. rewrite !length_app, !length_be_bytes. simpl. unfold FIXED_PREFIX_LEN. lia. }
  rewrite Hlen. cbn [negb rrequire rbind]. read_step. rewrite bool_decide_eq_true_2 by done.
  cbn [rrequire rbind]. change [IVE2_VERSION] with (be_bytes 1 IVE2_VERSION).
  do 1 read_step. cbn [rrequire]. rewrite Z.eqb_refl. cbn [rrequire rbind]. do 6 read_step.
  unfold read_length_prefixed. read_step. rewrite Nat2Z.id. rewrite <- (app_nil_r tx) at 2.
  read_step. done.
Qed.

Lemma vrf_encode_decode input ev :
  Forall byte input -> InvalidVrfProofEvidence_decode input = Ok ev ->
  InvalidVrfProofEvidence_encode ev = input /\ wf_vrf_evidence ev.
Proof.
  intros Hb Hd. unfold InvalidVrfProofEvidence_decode, read_length_prefixed in Hd.
  repeat canon_step. simplify_eq.
  assert (Hlen : Z.of_nat (length l8) = z6) by (unfold fits in *; lia).
  split.
  - unfold InvalidVrfProofEvidence_encode. simpl. by rewrite Hlen, app_nil_r.
  - by constructor; simpl; rewrite ?Hlen.
Qed.

(** ** Decoders do not panic *)

Lemma take_bytes_ok n fail input :
  (n <= length input)%nat -> take_bytes n fail input = Ok (take n input, drop n input).
Proof. intros Hn. unfold take_bytes. by destruct (Nat.ltb_spec (length input) n); [lia|]. Qed.

(** Reads the next field of an input that is long enough and follows the length
    of what remains. *)
Ltac total_step :=
  match goal with
  | |- rbind (rrequire ?b _) _ <> Panic => destruct b eqn:?; cbn [rrequire rbind]; [|done]
  | |- rbind (take_bytes ?n ?f ?i) _ <> Panic =>
      rewrite (take_bytes_ok n f i) by lia; cbn [rbind];
      let cur := fresh "cur" in
      pose proof (length_drop i n); set (cur := drop n i) in *; clearbody cur
  | |- rbind (read_be ?n ?f ?i) _ <> Panic =>
      unfold read_be at 1; rewrite (take_bytes_ok n f i) by lia; cbn [rbind];
      let cur := fresh "cur" in
      pose proof (length_drop i n); set (cur := drop n i) in *; clearbody cur
  end.

Lemma spe_decode_total data : SeedPartialEquivocationEvidence_decode data <> Panic.
Proof.
  unfold SeedPartialEquivocationEvidence_decode, SPE1_LEN. total_step.
  match goal with Hl : (length data =? 365)%nat = true |- _ => apply Nat.eqb_eq in Hl end.
  by repeat total_step.
Qed.

Lemma take_bytes_no_panic n e input : take_bytes n (Err e) input <> Panic.
Proof. unfold take_bytes. by case_match. Qed.

Lemma ipe_decode_total data : InvalidSeedPartialEvidence_decode data <> Panic.
Proof.
  unfold InvalidSeedPartialEvidence_decode, IPE1_PREFIX_LEN. total_step.
  match goal with Hl : negb (length data <? _)%nat = true |- _ =>
    apply negb_true_iff, Nat.ltb_ge in Hl; cbn in Hl end.
  do 13 total_step.
  destruct (take_bytes _ (Err _) _) as [[c rest]| |] eqn:Ht; cbn [rbind]; [by repeat total_step|done|].
  by apply take_bytes_no_panic in Ht.
Qed.

Lemma vrf_decode_total input : InvalidVrfProofEvidence_decode input <> Panic.
Proof.
  unfold InvalidVrfProofEvidence_decode, FIXED_PREFIX_LEN, read_length_prefixed. total_step.
  match goal with Hl : negb (length input <? _)%nat = true |- _ =>
    apply negb_true_iff, Nat.ltb_ge in Hl; cbn in Hl end.
  do 10 total_step. unfold read_be. rewrite take_bytes_ok by lia. cbn [rbind].
  destruct (take_bytes _ (Err _) _) as [[c rest]| |] eqn:Ht; cbn [rbind]; [by repeat total_step|done|].
  by apply take_bytes_no_panic in Ht.
Qed.

(** ** Certified-parent metadata *)

Lemma bytes_len_lawful w :
  lawful (read_bytes_len w) (fun l => be_bytes w (Z.of_nat (length l)) ++ l)
    (fun l => Forall byte l /\ fits w (Z.of_nat (length l))).
Proof.
  split.
  - intros l rest [Hl Hf]. unfold read_bytes_len. rewrite <- app_assoc. read_step.
    rewrite Nat2Z.id. by rewrite take_bytes_app.
  - intros input l rest Hb Hr. unfold read_bytes_len in Hr. repeat canon_step.
    assert (Hlen : Z.of_nat (length l) = z) by (unfold fits in *; lia).
    rewrite Hlen, <- app_assoc. by split_and!.
Qed.

Lemma address_chunks_concat l : forall rest,
  Forall (fits 20) l -> address_chunks (length l) (concat (be_bytes 20 <$> l) ++ rest) = l.
Proof.
  intros rest Hl. unfold address_chunks. apply list_eq. intros i.
  rewrite list_lookup_fmap. destruct (decide (i < length l)%nat) as [Hi|Hi].
  2: { rewrite lookup_seq_ge by lia. symmetry. apply lookup_ge_None. lia. }
  rewrite lookup_seq_lt by done. cbn [fmap option_fmap option_map]. rewrite Nat.add_0_l. destruct (lookup_lt_is_Some_2 l i Hi) as [a Ha]. rewrite Ha.
  f_equal. rewrite <- (take_drop_middle l i a Ha), fmap_app, concat_app.
  cbn [fmap list_fmap concat].
  assert (Hlen : length (concat (be_bytes 20 <$> take i l)) = (20 * i)%nat).
  { rewrite length_concat_be, length_take_le by lia. done. }
  rewrite <- !app_assoc. rewrite (drop_app_length' (concat _)) by by rewrite Hlen.
  rewrite (take_app_length' (be_bytes 20 a)) by by rewrite length_be_bytes. apply be_value_bytes.
  by apply (proj1 (Forall_lookup _ _) Hl i).
Qed.

Lemma address_chunks_bytes n bytes :
  bytes_of (n * 20) bytes ->
  concat (be_bytes 20 <$> address_chunks n bytes) = bytes
  /\ length (address_chunks n bytes) = n /\ Forall (fits 20) (address_chunks n bytes).
Proof.
  intros [Hl Hb]. unfold address_chunks. split_and!.
  - rewrite <- list_fmap_compose.
    transitivity (concat ((fun i => take 20 (drop (20 * i) bytes)) <$> seq 0 n));
      [|apply concat_pieces; lia]. f_equal.
    apply list_fmap_ext. intros k i Hk. apply lookup_seq in Hk as [-> Hk]. unfold compose.
    rewrite Nat.add_0_l. assert (Hp : length (take 20 (drop (20 * k) bytes)) = 20%nat)
      by (rewrite length_take, length_drop; lia).
    pose proof (be_bytes_value (take 20 (drop (20 * k) bytes))) as Hv. rewrite Hp in Hv.
    by apply Hv, Forall_take, Forall_drop.
  - by rewrite length_fmap, length_seq.
  - apply Forall_fmap, Forall_forall. intros i Hi. apply elem_of_seq in Hi. unfold compose, fits.
    assert (Hp : length (take 20 (drop (20 * i) bytes)) = 20%nat)
      by (rewrite length_take, length_drop; lia).
    pose proof (be_value_bounds (take 20 (drop (20 * i) bytes))) as Hv. rewrite Hp in Hv.
    by apply Hv, Forall_take, Forall_drop.
Qed.

Lemma addresses_lawful :
  lawful read_addresses encode_addresses
    (fun l => Forall (fits 20) l /\ fits 2 (Z.of_nat (length l))).
Proof.
  split.
  - intros l rest [Hl Hf]. unfold read_addresses, encode_addresses. rewrite <- app_assoc. read_step.
    rewrite Nat2Z.id, take_bytes_app by (rewrite length_concat_be; lia). cbn [rbind].
    rewrite <- (app_nil_r (concat _)), address_chunks_concat; done.
  - intros input l rest Hb Hr. unfold read_addresses in Hr. repeat canon_step. simplify_eq.
    match goal with Hl : length ?l = (Z.to_nat z * 20)%nat |- _ =>
      destruct (address_chunks_bytes (Z.to_nat z) l) as (E1 & E2 & E3); [by split|] end.
    unfold encode_addresses. rewrite E1, E2, Z2Nat.id by (unfold fits in *; lia).
    rewrite <- app_assoc. by split_and!.
Qed.

Definition wf_missed (ev : MissedProposerEvent) : Prop :=
  fits 8 (missed_view ev) /\ fits 20 (missed_validator ev).

Lemma missed_loop_read events : forall rest,
  Forall wf_missed events ->
  read_missed_loop (length events) (concat ((fun ev => be_bytes 8 (missed_view ev)
    ++ be_bytes 20 (missed_validator ev)) <$> events) ++ rest) = Ok (events, rest).
Proof.
  induction events as [|ev events IH]; intros rest Hwf; [done|].
  apply Forall_cons in Hwf as [[H1 H2] Hwf]. cbn [length read_missed_loop fmap list_fmap concat].
  rewrite <- !app_assoc. unfold read_u64. do 2 read_step. rewrite IH by done. simpl. by destruct ev.
Qed.
Lemma missed_loop_canon n : forall input events rest,
  Forall byte input -> read_missed_loop n input = Ok (events, rest) ->
  input = concat ((fun ev => be_bytes 8 (missed_view ev) ++ be_bytes 20 (missed_validator ev)) <$> events)
    ++ rest /\ length events = n /\ Forall wf_missed events /\ Forall byte rest.
Proof.
  induction n as [|n IH]; intros input events rest Hb Hr; cbn [read_missed_loop] in Hr; [by simplify_eq|].
  unfold read_u64 in Hr. repeat canon_step. simplify_eq.
  match goal with Hx : read_missed_loop n ?i = _, Hi : Forall byte ?i |- _ =>
    apply IH in Hx as (-> & <- & Hev & Hrest); [|exact Hi] end.
  split_and!; [|done|by constructor|done]. cbn [fmap list_fmap concat missed_view missed_validator]. by rewrite <- !app_assoc.
Qed.

Lemma missed_lawful :
  lawful read_missed_proposers encode_missed
    (fun l => Forall wf_missed l /\ fits 2 (Z.of_nat (length l))).
Proof.
  split.
  - intros l rest [Hl Hf]. unfold read_missed_proposers, encode_missed. rewrite <- app_assoc. read_step.
    rewrite Nat2Z.id. by apply missed_loop_read.
  - intros input l rest Hb Hr. unfold read_missed_proposers in Hr. repeat canon_step.
    match goal with Hx : read_missed_loop _ ?i = _, Hi : Forall byte ?i |- _ =>
      apply missed_loop_canon in Hx as (-> & Hl & Hev & Hrest); [|exact Hi] end.
    assert (Hlen : Z.of_nat (length l) = z) by (unfold fits in *; lia).
    unfold encode_missed. rewrite Hlen, <- app_assoc. by split_and!.
Qed.

Record wf_metadata (m : CertifiedParentAccountingMetadata) : Prop := {
  wm_number : fits 8 (finalized_block_number m);
  wm_hash : fits 32 (finalized_block_hash m);
  wm_epoch : fits 8 (finalized_epoch m);
  wm_view : fits 8 (finalized_view m);
  wm_parent : fits 8 (parent_view m);
  wm_committee : Forall (fits 20) (ordered_committee m) /\ fits 2 (Z.of_nat (length (ordered_committee m)));
  wm_bitmap : Forall byte (signer_bitmap m) /\ fits 2 (Z.of_nat (length (signer_bitmap m)));
  wm_proof : Forall byte (md_proof m) /\ fits 4 (Z.of_nat (length (md_proof m)));
  wm_set_hash : fits 32 (committee_set_hash m);
  wm_version : fits 8 (md_vrf_material_version m);
  wm_group : fits 32 (vrf_group_public_key_hash m);
  wm_missed : Forall wf_missed (missed_proposers m) /\ fits 2 (Z.of_nat (length (missed_proposers m))) }.

Lemma metadata_encode_ok m : wf_metadata m -> metadata_encode m = Ok (metadata_bytes m).
Proof.
  intros [_ _ _ _ _ [_ H1] [_ H2] [_ H3] _ _ _ [_ H4]].
  unfold metadata_encode, ensure_count_fits_u16, ensure_len_fits_u32, fits, u32_max in *.
  change (256 ^ Z.of_nat 2) with (2 ^ 16) in *. change (256 ^ Z.of_nat 4) with (2 ^ 32) in *.
  rewrite !(proj2 (Z.leb_le _ _)) by lia. done.
Qed.

Lemma metadata_bytes_long m : (length (metadata_bytes m) <? metadata_min_len)%nat = false.
Proof.
  apply Nat.ltb_ge. unfold metadata_bytes, encode_addresses, encode_missed.
  rewrite !length_app, !length_be_bytes, !length_cons. unfold metadata_min_len. simpl length. lia.
Qed.

Lemma proof_tag_bytes p : [proof_tag p] = be_bytes 1 (proof_tag p) /\ fits 1 (proof_tag p).
Proof. by destruct p. Qed.
Lemma proof_from_tag_tag p : proof_from_tag (proof_tag p) = Ok p.
Proof. by destruct p. Qed.

Lemma metadata_decode_bytes m : wf_metadata m -> metadata_decode (metadata_bytes m) = Ok m.
Proof.
  intros Hwf. unfold metadata_decode. rewrite metadata_bytes_long. cbn [negb rrequire rbind].
  destruct Hwf as [H1 H2 H3 H4 H5 H6 H7 H8 H9 H10 H11 H12].
  unfold metadata_bytes. read_step. rewrite bool_decide_eq_true_2 by done. cbn [rrequire rbind].
  change [OAV3_VERSION] with (be_bytes 1 OAV3_VERSION). read_step. rewrite Z.eqb_refl.
  cbn [rrequire rbind]. unfold read_u64, read_b256, read_u8. do 5 read_step.
  rewrite (law_read _ _ _ addresses_lawful) by done. cbn [rbind].
  rewrite (law_read _ _ _ (bytes_len_lawful 2)) by done. cbn [rbind].
  rewrite (law_read _ _ _ (bytes_len_lawful 4)) by done. cbn [rbind]. do 3 read_step.
  destruct (proof_tag_bytes (proof_kind m)) as [-> Hk]. read_step.
  rewrite proof_from_tag_tag. cbn [rbind].
  rewrite <- (app_nil_r (encode_missed _)), (law_read _ _ _ missed_lawful) by done. cbn [rbind].
  by destruct m.
Qed.

Lemma metadata_bytes_decode input m :
  Forall byte input -> metadata_decode input = Ok m -> metadata_bytes m = input /\ wf_metadata m.
Proof.
  intros Hb Hd. unfold metadata_decode, read_u64, read_b256, read_u8 in Hd.
  repeat (canon_step || match goal with
    | Hx : read_addresses ?i = Ok _, Hb : Forall byte ?i |- _ =>
        apply (law_canon _ _ _ addresses_lawful) in Hx as (-> & ? & ?); [|exact Hb]; clear Hb
    | Hx : read_bytes_len ?n ?i = Ok _, Hb : Forall byte ?i |- _ =>
        apply (law_canon _ _ _ (bytes_len_lawful n)) in Hx as (-> & ? & ?); [|exact Hb]; clear Hb
    | Hx : read_missed_proposers ?i = Ok _, Hb : Forall byte ?i |- _ =>
        apply (law_canon _ _ _ missed_lawful) in Hx as (-> & ? & ?); [|exact Hb]; clear Hb
    end).
  match goal with Hx : proof_from_tag ?t = Ok ?k |- _ =>
    assert (Ht : t = proof_tag k) by
      (unfold proof_from_tag in Hx; repeat case_match; bprop; by simplify_eq); clear Hx end.
  simplify_eq. split; [|by constructor].
  unfold metadata_bytes. cbn -[be_bytes encode_addresses encode_missed string_bytes].
  by rewrite <- (proj1 (proof_tag_bytes p)), app_nil_r.
Qed.

Lemma rbind_no_panic {A B} (r : result A) (k : A -> result B) :
  r <> Panic -> (forall a, k a <> Panic) -> rbind r k <> Panic.
Proof. intros Hr Hk. destruct r; simpl; [apply Hk|done|done]. Qed.
Lemma read_be_no_panic n e input : read_be n (Err e) input <> Panic.
Proof.
  unfold read_be. apply rbind_no_panic; [apply take_bytes_no_panic|]. by intros [].
Qed.
Lemma missed_loop_no_panic n : forall input, read_missed_loop n input <> Panic.
Proof.
  induction n as [|n IH]; intros input; cbn [read_missed_loop]; [done|].
  apply rbind_no_panic; [apply read_be_no_panic|intros []].
  apply rbind_no_panic; [apply read_be_no_panic|intros []].
  apply rbind_no_panic; [apply IH|by intros []].
Qed.

Lemma metadata_decode_total data : metadata_decode data <> Panic.
Proof.
  unfold metadata_decode, metadata_min_len. total_step.
  match goal with Hl : negb (length data <? _)%nat = true |- _ =>
    apply negb_true_iff, Nat.ltb_ge in Hl; cbn in Hl end.
  do 4 total_step. unfold read_u64, read_b256, read_u8, read_addresses, read_bytes_len,
    read_missed_proposers, proof_from_tag, eof.
  repeat first
    [ done
    | apply rbind_no_panic; [|intros ?]
    | apply take_bytes_no_panic | apply read_be_no_panic | apply missed_loop_no_panic
    | unfold rrequire; case_match
    | case_match ].
Qed.

(** ** LEB128 *)

Lemma lor_shifted acc x shift :
  0 <= shift -> 0 <= acc < 2 ^ shift -> 0 <= x -> Z.lor acc (x * 2 ^ shift) = acc + x * 2 ^ shift.
Proof.
  intros Hs Ha Hx. symmetry. rewrite <- Z.shiftl_mul_pow2 by done.
  assert (Hd : Z.land acc (Z.shiftl x shift) = 0).
  { apply Z.bits_inj'. intros n Hn. rewrite Z.land_spec, Z.bits_0, Z.shiftl_spec by done.
    destruct (Z.lt_ge_cases n shift) as [Hlt|Hge].
    - rewrite (Z.testbit_neg_r x) by lia. apply andb_false_r.
    - rewrite <- (Z.mod_small acc (2 ^ shift)) by done. by rewrite Z.mod_pow2_bits_high by lia. }
  rewrite Z.add_nocarry_lxor by done. by apply Z.lxor_lor.
Qed.

(** The continuation bit of a group of seven bits. *)
Lemma group_bits d :
  0 <= d < 128 ->
  Z.land d 0x7F = d /\ Z.land d 0x80 = 0
  /\ Z.land (Z.lor d 0x80) 0x7F = d /\ Z.land (Z.lor d 0x80) 0x80 = 0x80.
Proof.
  intros Hd.
  assert (Hall : forallb (fun d => (Z.land d 0x7F =? d) && (Z.land d 0x80 =? 0)
    && (Z.land (Z.lor d 0x80) 0x7F =? d) && (Z.land (Z.lor d 0x80) 0x80 =? 0x80)) (seqZ 0 128) = true)
    by (vm_compute; reflexivity).
  rewrite forallb_forall in Hall. specialize (Hall d). rewrite <- list_elem_of_In, elem_of_seqZ in Hall.
  specialize (Hall ltac:(lia)). bprop. by split_and!.
Qed.

Lemma leb128_read fuel : forall shift acc value rest,
  0 <= shift -> 0 <= acc < 2 ^ shift -> 0 <= value -> value * 2 ^ shift < 2 ^ 64 ->
  value < 2 ^ (7 * Z.of_nat fuel) -> (0 < fuel)%nat ->
  read_leb128_from shift acc (leb128_bytes fuel value ++ rest) = Ok (acc + value * 2 ^ shift, rest).
Proof.
  induction fuel as [|fuel IH]; intros shift acc value rest Hs Ha Hv Hmax Hfuel Hpos; [lia|].
  assert (Hp : 0 < 2 ^ shift) by (apply Z.pow_pos_nonneg; lia).
  assert (Hsplit : 2 ^ (shift + 7) = 2 ^ shift * 128) by (rewrite Z.pow_add_r by lia; done).
  cbn [leb128_bytes]. rewrite Z.shiftr_div_pow2 by lia. change (2 ^ 7) with 128.
  assert (Hland : Z.land value 0x7F = value mod 128) by (by apply (Z.land_ones value 7)). rewrite Hland.
  pose proof (Z.div_mod value 128 ltac:(lia)) as Hdm. pose proof (Z.mod_pos_bound value 128 ltac:(lia)) as Hd.
  assert (Hq : 0 <= value / 128) by (apply Z.div_pos; lia).
  set (d := value mod 128) in *. set (q := value / 128) in *.
  destruct (group_bits d Hd) as (E1 & E2 & E3 & E4).
  assert (Hor : Z.lor acc (Z.shiftl d shift mod 2 ^ 64) = acc + d * 2 ^ shift).
  { rewrite Z.shiftl_mul_pow2 by done. rewrite Z.mod_small by nia. apply lor_shifted; lia. }
  destruct (Z.eqb_spec q 0) as [Hq0|Hq0]; cbn [app read_leb128_from].
  - rewrite E1, E2. simpl. rewrite Hor. do 2 f_equal. nia.
  - rewrite E3, E4, Hor. simpl.
    assert (Hshift : shift + 7 < 64).
    { apply (Z.pow_lt_mono_r_iff 2); [lia..|]. rewrite Hsplit. nia. }
    destruct (Z.leb_spec 64 (shift + 7)); [lia|]. rewrite IH.
    + do 2 f_equal. rewrite Hsplit. nia.
    + lia.
    + rewrite Hsplit. nia.
    + done.
    + rewrite Hsplit. nia.
    + replace (7 * Z.of_nat (S fuel)) with (7 * Z.of_nat fuel + 7) in Hfuel by lia.
      rewrite Z.pow_add_r in Hfuel by lia. change (2 ^ 7) with 128 in Hfuel. lia.
    + destruct fuel; [|lia]. simpl in Hfuel. change (2 ^ 7) with 128 in Hfuel. lia.
Qed.

Lemma read_write_leb128 v rest :
  0 <= v < 2 ^ 64 -> read_leb128 (write_leb128 v ++ rest) = Ok (v, rest).
Proof.
  intros Hv. unfold read_leb128, write_leb128. rewrite leb128_read; try lia.
  by rewrite Z.mul_1_r.
Qed.

(** ** Signed payloads *)

Section Payloads.
Context {H : Keccak}.

(** Everything that signs under the application namespace. *)
Inductive SignedDomain : Type :=
  | NotarizeVote (committee : list Z)
  | NullifyVote (committee : list Z)
  | FinalizeVote (committee : list Z)
  | SeedPartial
  | SeedAttest.

Definition domain_namespace (chain : Z) (d : SignedDomain) : list Z :=
  match d with
  | NotarizeVote c => notarize_namespace chain c
  | NullifyVote c => nullify_namespace chain c
  | FinalizeVote c => finalize_namespace chain c
  | SeedPartial => hybrid_seed_namespace chain
  | SeedAttest => seed_attest_namespace chain
  end.

(** Two domains agree: the same kind, bound to the same committee commitment. *)
Definition same_domain (d d' : SignedDomain) : Prop :=
  match d, d' with
  | NotarizeVote c, NotarizeVote c' | NullifyVote c, NullifyVote c' | FinalizeVote c, FinalizeVote c' =>
      participant_set_commitment c = participant_set_commitment c'
  | SeedPartial, SeedPartial | SeedAttest, SeedAttest => True
  | _, _ => False
  end.

Lemma payload_inj ns ns' p p' :
  Z.of_nat (length ns) < 2 ^ 64 -> Z.of_nat (length ns') < 2 ^ 64 ->
  build_signed_payload_with_ns ns p = build_signed_payload_with_ns ns' p' -> ns = ns' /\ p = p'.
Proof.
  intros Hl Hl' Heq. unfold build_signed_payload_with_ns in Heq.
  pose proof (f_equal read_leb128 Heq) as Hr. rewrite !read_write_leb128 in Hr by lia.
  injection Hr as Hlen Hrest. apply app_inj_1; [lia|done].
Qed.

Lemma length_namespace chain d :
  length (domain_namespace chain d) =
    (13 + match d with NotarizeVote _ | FinalizeVote _ => 41 | NullifyVote _ => 40
          | SeedPartial => 5 | SeedAttest => 11 end)%nat.
Proof.
  destruct d; cbn [domain_namespace]; unfold notarize_namespace, nullify_namespace, finalize_namespace,
    hybrid_seed_namespace, seed_attest_namespace, vote_sub_namespace, sub_namespace,
    outbe_app_namespace, participant_set_commitment; rewrite !length_app, !length_be_bytes; done.
Qed.

Lemma namespace_inj chain chain' d d' :
  0 <= chain < 2 ^ 64 -> 0 <= chain' < 2 ^ 64 ->
  domain_namespace chain d = domain_namespace chain' d' -> chain = chain' /\ same_domain d d'.
Proof.
  intros Hc Hc' Heq. pose proof (f_equal length Heq) as Hl. rewrite !length_namespace in Hl.
  destruct d, d'; try (exfalso; lia); cbn [domain_namespace] in Heq;
    unfold notarize_namespace, nullify_namespace, finalize_namespace, hybrid_seed_namespace,
      seed_attest_namespace, vote_sub_namespace, sub_namespace, outbe_app_namespace in Heq;
    rewrite <- ?app_assoc in Heq; apply app_inv_head in Heq;
    apply app_inj_1 in Heq as [E1 E2]; try (by rewrite !length_be_bytes);
    apply be_bytes_inj in E1; try done; split; try done;
    cbn [same_domain]; by apply app_inv_head in E2.
Qed.

(** C7. Signed payloads never cross domains: if the bytes signed under two
    namespaces coincide, the chain id, the kind of signature, the committee
    commitment of a vote and the message are all the same; so no signature can
    be replayed as evidence for another chain, vote kind or committee. *)
Theorem signed_payloads_separate chain chain' d d' p p' :
  0 <= chain < 2 ^ 64 -> 0 <= chain' < 2 ^ 64 ->
  build_signed_payload_with_ns (domain_namespace chain d) p
    = build_signed_payload_with_ns (domain_namespace chain' d') p' ->
  chain = chain' /\ same_domain d d' /\ p = p'.
Proof.
  intros Hc Hc' Heq.
  assert (Hn : forall c d, Z.of_nat (length (domain_namespace c d)) < 2 ^ 64)
    by (intros c d0; rewrite length_namespace; destruct d0; simpl; lia).
  apply payload_inj in Heq as [Heq ->]; [|apply Hn..].
  apply namespace_inj in Heq as [-> Hd]; [|done..]. by split_and!.
Qed.
End Payloads.

(** C8. The certified-parent metadata codec is exact: a byte string decodes to a
    metadata precisely when the metadata is well formed and the string is its
    encoding, and no byte string makes the decoder panic. *)
Theorem metadata_codec_exact input m :
  Forall byte input ->
  (metadata_decode input = Ok m <-> wf_metadata m /\ metadata_encode m = Ok input)
  /\ metadata_decode input <> Panic.
Proof.
  intros Hb. split; [split|apply metadata_decode_total].
  - intros Hd. destruct (metadata_bytes_decode _ _ Hb Hd) as [<- Hm].
    split; [done|by apply metadata_encode_ok].
  - intros [Hm He]. rewrite metadata_encode_ok in He by done. injection He as <-.
    by apply metadata_decode_bytes.
Qed.

(** Invalid-VRF evidence is read exactly: a byte string decodes to evidence
    precisely when the evidence is well formed and the string is its encoding.
    No byte string makes one of the three evidence decoders panic. *)
Theorem evidence_codecs_exact input ev :
  Forall byte input ->
  (InvalidVrfProofEvidence_decode input = Ok ev <->
     wf_vrf_evidence ev /\ InvalidVrfProofEvidence_encode ev = input)
  /\ InvalidVrfProofEvidence_decode input <> Panic
  /\ SeedPartialEquivocationEvidence_decode input <> Panic
  /\ InvalidSeedPartialEvidence_decode input <> Panic.
Proof.
  intros Hb. split_and!; [split|apply vrf_decode_total|apply spe_decode_total|apply ipe_decode_total].
  - intros [He Hev]%vrf_encode_decode; [|done]. done.
  - intros [Hev <-]. by apply vrf_decode_encode.
Qed.

(** * Witnesses *)

Lemma signed_payloads_separate_witness :
  let H : Keccak := fun l => be_value (1 :: l) in
  build_signed_payload_with_ns (domain_namespace 5 SeedAttest) [1; 2]
    = build_signed_payload_with_ns (domain_namespace 5 SeedAttest) [1; 2]
  /\ 5 = 5 /\ same_domain SeedAttest SeedAttest.
Proof.
  intros H. split; [reflexivity|].
  destruct (signed_payloads_separate 5 5 SeedAttest SeedAttest [1; 2] [1; 2]) as (E1 & E2 & _);
    [lia|lia|reflexivity|]. split; [exact E1|exact E2].
Defined.

Definition sample_metadata : CertifiedParentAccountingMetadata :=
  mkMetadata 41 1001 3 9 8 [10; 11] [1; 1] [7; 7; 7] 2002 1 3003 Finalization [mkMissed 4 11].

Lemma sample_metadata_wf : wf_metadata sample_metadata.
Proof.
  constructor; cbn; unfold wf_missed, fits, byte; cbn;
    repeat first [split | apply Forall_cons | apply Forall_nil]; try (cbn; lia); done.
Qed.

Lemma metadata_codec_exact_witness :
  metadata_decode (metadata_bytes sample_metadata) = Ok sample_metadata.
Proof.
  assert (Hb : Forall byte (metadata_bytes sample_metadata))
    by (vm_compute; repeat constructor; discriminate).
  apply (metadata_codec_exact _ sample_metadata Hb).
  split; [exact sample_metadata_wf|vm_compute; reflexivity].
Defined.

Definition sample_evidence : InvalidVrfProofEvidence := mkInvalidVrf 42 1002 3 41 1001 7 [9; 9].

Lemma sample_evidence_wf : wf_vrf_evidence sample_evidence.
Proof.
  constructor; cbn; unfold fits, byte; cbn;
    repeat first [split | apply Forall_cons | apply Forall_nil]; try (cbn; lia); done.
Qed.

Lemma evidence_codecs_exact_witness :
  InvalidVrfProofEvidence_decode (InvalidVrfProofEvidence_encode sample_evidence) = Ok sample_evidence.
Proof.
  assert (Hb : Forall byte (InvalidVrfProofEvidence_encode sample_evidence))
    by (vm_compute; repeat constructor; discriminate).
  apply (evidence_codecs_exact _ sample_evidence Hb). split; [exact sample_evidence_wf|reflexivity].
Defined.
