(* ===== verification/Artifacts.v ===== *)
(** Block artifacts: the records a block carries in [header.extra_data] and in the
    bodies of two system transactions.

    Sources: [crates/blockchain/primitives/src/reshare_artifact.rs], the types of
    [consensus.rs] and the exclusion cap of [validators.rs].

    As in [Wire], a cursor into the input is the input that remains, so a check
    [payload.len() < offset + n] compares [n] with its length; a read that slices
    panics past the end. Lengths are [usize] of 64 bits: the sums of [u16] and
    [u32] lengths the decoder checks for overflow stay below it. *)

From S2P Require Import Prelude Bytes Wire.

(** * Constants *)

Definition OART_MAGIC : list Z := string_bytes "OART".
Definition OART_VERSION : Z := 0x0B.
Definition TEE_EXPIRED_TARGET_EXCLUSIONS_DOMAIN : list Z :=
  string_bytes "outbe/tee-expired-target-exclusions/v1".
Definition EXECUTION_SUMMARY_TAG : Z := 0x01.
Definition BOUNDARY_TAG : Z := 0x02.
Definition DEALER_LOG_TAG : Z := 0x03.
Definition TIMESTAMP_MILLIS_PART_TAG : Z := 0x05.
Definition LATE_FINALIZE_CREDITS_TAG : Z := 0x06.
Definition COMMITTEE_PREANNOUNCE_TAG : Z := 0x07.
Definition COMPRESSED_ENTITIES_ROOT_TAG : Z := 0x08.
Definition EXECUTION_SUMMARY_LEN : nat := 32.
Definition TIMESTAMP_MILLIS_PART_LEN : nat := 8.
Definition COMPRESSED_ENTITIES_ROOT_PAYLOAD_LEN : nat := 4 + 32.
Definition COMPRESSED_ENTITIES_ROOT_RECORD_LEN : nat := 1 + 2 + COMPRESSED_ENTITIES_ROOT_PAYLOAD_LEN.
Definition OUTBE_MAX_EXTRA_DATA_SIZE : Z := 64 * 1024.
Definition OUTBE_MAX_NON_ROOT_ARTIFACT_SIZE : Z :=
  OUTBE_MAX_EXTRA_DATA_SIZE - Z.of_nat COMPRESSED_ENTITIES_ROOT_RECORD_LEN.
Definition LATE_FINALIZE_SIG_LEN : nat := 96.
Definition LATE_FINALIZE_MAX_BITMAP_LEN : nat := 32.
Definition LATE_FINALIZE_WINDOW_K : Z := 3.
Definition LATE_FINALIZE_MAX_BATCHES : nat := Z.to_nat LATE_FINALIZE_WINDOW_K.
Definition PER_BLOCK_CREDIT_FIXED_LEN : nat := 8 + 32 + 8 + 8 + 8 + 32.
Definition MAX_TEE_EXPIRED_TARGET_EXCLUSIONS : nat := 256.

(** * Data *)

Record ReshareResult : Type := mkReshare {
  new_active_set : list Address;
  active_set_hash : B256 }.

Record DkgBoundaryArtifact : Type := mkBoundary {
  ba_epoch : Z;
  dkg_cycle : Z;
  freeze_height : Z;
  planned_activation_height : Z;
  target_set_hash : B256;
  ba_vrf_material_version : Z;
  vrf_group_public_key : B256;
  vrf_group_public_key_bytes : list Z;
  ba_committee_set_hash : B256;
  is_validator_set_change : bool;
  outcome : list Z;
  is_full_dkg : bool;
  reshare : ReshareResult;
  tee_recipient_pubkeys : list (Address * B256);
  tee_expired_target_exclusions : list Address;
  ba_tee_expired_target_exclusions_hash : B256 }.

Record PerBlockCredit : Type := mkCredit {
  fb_number : Z;
  fb_hash : B256;
  credit_epoch : Z;
  credit_view : Z;
  credit_parent_view : Z;
  credit_committee_set_hash : B256;
  credit_signer_bitmap : list Z;
  aggregate_signature : list Z }.

(** [LateFinalizeCreditsArtifact] is its batches. *)
Definition LateFinalizeCreditsArtifact : Type := list PerBlockCredit.

Inductive ConsensusHeaderArtifact : Type :=
  | BoundaryOutcomeArtifact (result : DkgBoundaryArtifact)
  | DealerLog (log : list Z)
  | CommitteePreAnnounce (epoch : Z) (outcome : list Z).

Record CompressedEntitiesRootArtifact : Type := mkRoot {
  commitment_scheme_version : Z;
  r_sealed : B256 }.

(** [ExecutionSummaryArtifact] is its [validator_fee_sum]. *)
Record OutbeBlockArtifacts : Type := mkArtifacts {
  execution_summary : option Z;
  consensus_header_artifact : option ConsensusHeaderArtifact;
  timestamp_millis_part : Z;
  late_finalize_credits : option LateFinalizeCreditsArtifact;
  compressed_entities_root : option CompressedEntitiesRootArtifact }.
#[global] Instance OutbeBlockArtifacts_eta : Eta OutbeBlockArtifacts := fun a =>
  mkArtifacts (execution_summary a) (consensus_header_artifact a) (timestamp_millis_part a)
    (late_finalize_credits a) (compressed_entities_root a).

Definition no_artifacts : OutbeBlockArtifacts := mkArtifacts None None 0 None None.

(** * Checks *)

Definition ensure_payload_fits_u16 (len : nat) : result unit :=
  rrequire (Z.of_nat len <=? 2 ^ 16 - 1) (Fatal "payload exceeds u16 length limit").

(** The loop over the addresses; [unique] is the set of those seen. *)
Fixpoint validate_exclusions_from (unique : gset Z) (addresses : list Address) : result unit :=
  match addresses with
  | [] => Ok tt
  | address :: rest =>
      let? _ := rrequire (negb (address =? 0))
        (Fatal "TEE expiry exclusions contain zero validator address") in
      let? _ := rrequire (negb (bool_decide (address ∈ unique)))
        (Fatal "TEE expiry exclusions contain duplicate validator address") in
      validate_exclusions_from ({[address]} ∪ unique) rest
  end.
Definition validate_tee_expired_target_exclusions (addresses : list Address) : result unit :=
  let? _ := rrequire (length addresses <=? MAX_TEE_EXPIRED_TARGET_EXCLUSIONS)%nat
    (Fatal "TEE expiry exclusions exceed protocol cap") in
  validate_exclusions_from ∅ addresses.

Section Codec.
Context {H : Keccak}.

Definition tee_expired_target_exclusions_hash (addresses : list Address) : result B256 :=
  let? _ := validate_tee_expired_target_exclusions addresses in
  match addresses with
  | [] => Ok 0
  | _ => Ok (keccak256 (TEE_EXPIRED_TARGET_EXCLUSIONS_DOMAIN
                        ++ be_bytes 2 (Z.of_nat (length addresses)) ++ concat (be_bytes 20 <$> addresses)))
  end.

(** * Encoding *)

Definition bool_byte (b : bool) : Z := if b then 1 else 0.

Definition boundary_bytes (b : DkgBoundaryArtifact) : list Z :=
  be_bytes 8 (ba_epoch b) ++ be_bytes 8 (dkg_cycle b) ++ be_bytes 8 (freeze_height b)
  ++ be_bytes 8 (planned_activation_height b) ++ be_bytes 32 (target_set_hash b)
  ++ be_bytes 8 (ba_vrf_material_version b) ++ be_bytes 32 (vrf_group_public_key b)
  ++ be_bytes 32 (ba_committee_set_hash b)
  ++ [bool_byte (is_validator_set_change b)] ++ [bool_byte (is_full_dkg b)]
  ++ be_bytes 32 (active_set_hash (reshare b))
  ++ be_bytes 2 (Z.of_nat (length (new_active_set (reshare b))))
  ++ concat (be_bytes 20 <$> new_active_set (reshare b))
  ++ be_bytes 4 (Z.of_nat (length (outcome b))) ++ outcome b
  ++ be_bytes 4 (Z.of_nat (length (vrf_group_public_key_bytes b))) ++ vrf_group_public_key_bytes b
  ++ be_bytes 2 (Z.of_nat (length (tee_recipient_pubkeys b)))
  ++ concat ((fun r => be_bytes 20 r.1 ++ be_bytes 32 r.2) <$> tee_recipient_pubkeys b)
  ++ be_bytes 32 (ba_tee_expired_target_exclusions_hash b)
  ++ be_bytes 2 (Z.of_nat (length (tee_expired_target_exclusions b)))
  ++ concat (be_bytes 20 <$> tee_expired_target_exclusions b).

Definition encode_boundary_payload (b : DkgBoundaryArtifact) : result (list Z) :=
  let? _ := ensure_count_fits_u16 (length (new_active_set (reshare b))) in
  let? _ := ensure_len_fits_u32 (length (outcome b)) in
  let? _ := ensure_len_fits_u32 (length (vrf_group_public_key_bytes b)) in
  let? _ := ensure_count_fits_u16 (length (tee_recipient_pubkeys b)) in
  let? _ := validate_tee_expired_target_exclusions (tee_expired_target_exclusions b) in
  let? exclusions_hash := tee_expired_target_exclusions_hash (tee_expired_target_exclusions b) in
  let? _ := rrequire (exclusions_hash =? ba_tee_expired_target_exclusions_hash b)
    (Fatal "boundary TEE expiry exclusions commitment mismatch") in
  Ok (boundary_bytes b).

Definition header_record (artifact : ConsensusHeaderArtifact) : result (Z * list Z) :=
  match artifact with
  | BoundaryOutcomeArtifact result =>
      let? payload := encode_boundary_payload result in Ok (BOUNDARY_TAG, payload)
  | DealerLog log =>
      let? _ := ensure_payload_fits_u16 (length log) in Ok (DEALER_LOG_TAG, log)
  | CommitteePreAnnounce epoch outcome =>
      let payload := be_bytes 8 epoch ++ outcome in
      let? _ := ensure_payload_fits_u16 (length payload) in Ok (COMMITTEE_PREANNOUNCE_TAG, payload)
  end.

(** [key <= prev_key] on [(fb_number, fb_hash)]. *)
Definition credit_key (c : PerBlockCredit) : Z * B256 := (fb_number c, fb_hash c).
Definition key_leb (key prev_key : Z * B256) : bool :=
  (key.1 <? prev_key.1) || ((key.1 =? prev_key.1) && (key.2 <=? prev_key.2)).
Definition ensure_ascending (prev : option (Z * B256)) (key : Z * B256) : result unit :=
  match prev with
  | Some prev_key => rrequire (negb (key_leb key prev_key))
      (Fatal "late finalize batches not in strictly ascending canonical order")
  | None => Ok tt
  end.

Definition credit_bytes (c : PerBlockCredit) : list Z :=
  be_bytes 8 (fb_number c) ++ be_bytes 32 (fb_hash c) ++ be_bytes 8 (credit_epoch c)
  ++ be_bytes 8 (credit_view c) ++ be_bytes 8 (credit_parent_view c)
  ++ be_bytes 32 (credit_committee_set_hash c)
  ++ be_bytes 2 (Z.of_nat (length (credit_signer_bitmap c))) ++ credit_signer_bitmap c
  ++ aggregate_signature c.

Definition bitmap_too_long : PrecompileError := Fatal "late finalize bitmap too long".

Fixpoint encode_credits_loop (prev : option (Z * B256)) (batches : list PerBlockCredit) :
    result (list Z) :=
  match batches with
  | [] => Ok []
  | credit :: rest =>
      let key := credit_key credit in
      let? _ := ensure_ascending prev key in
      let? _ := rrequire (length (credit_signer_bitmap credit) <=? LATE_FINALIZE_MAX_BITMAP_LEN)%nat
        bitmap_too_long in
      let? payload := encode_credits_loop (Some key) rest in
      Ok (credit_bytes credit ++ payload)
  end.

Definition credits_records (credits : option LateFinalizeCreditsArtifact) :
    result (list (Z * list Z)) :=
  match credits with
  | None | Some [] => Ok []
  | Some batches =>
      let? _ := ensure_count_fits_u16 (length batches) in
      let? _ := rrequire (length batches <=? LATE_FINALIZE_MAX_BATCHES)%nat
        (Fatal "too many late finalize batches") in
      let? payload := encode_credits_loop None batches in
      Ok [(LATE_FINALIZE_CREDITS_TAG, be_bytes 2 (Z.of_nat (length batches)) ++ payload)]
  end.

(** The [try_fold] over the records. *)
Fixpoint records_len (acc : Z) (records : list (Z * list Z)) : result Z :=
  match records with
  | [] => Ok acc
  | (_, payload) :: rest =>
      let? _ := ensure_payload_fits_u16 (length payload) in
      let? acc := ok_or (checked_add u64_max acc (1 + 2 + Z.of_nat (length payload)))
        (Fatal "block artifact length overflow") in
      records_len acc rest
  end.

Definition record_bytes (record : Z * list Z) : list Z :=
  [record.1] ++ be_bytes 2 (Z.of_nat (length record.2)) ++ record.2.

Definition summary_records (artifacts : OutbeBlockArtifacts) : list (Z * list Z) :=
  match execution_summary artifacts with
  | Some validator_fee_sum => [(EXECUTION_SUMMARY_TAG, be_bytes 32 validator_fee_sum)]
  | None => []
  end.
Definition timestamp_records (artifacts : OutbeBlockArtifacts) : list (Z * list Z) :=
  if timestamp_millis_part artifacts =? 0 then []
  else [(TIMESTAMP_MILLIS_PART_TAG, be_bytes 8 (timestamp_millis_part artifacts))].
Definition root_records (artifacts : OutbeBlockArtifacts) : list (Z * list Z) :=
  match compressed_entities_root artifacts with
  | Some root => [(COMPRESSED_ENTITIES_ROOT_TAG,
                   be_bytes 4 (commitment_scheme_version root) ++ be_bytes 32 (r_sealed root))]
  | None => []
  end.
Definition header_records (artifacts : OutbeBlockArtifacts) : result (list (Z * list Z)) :=
  match consensus_header_artifact artifacts with
  | Some artifact => let? record := header_record artifact in Ok [record]
  | None => Ok []
  end.

Definition encode_outbe_block_artifacts (artifacts : OutbeBlockArtifacts) : result (list Z) :=
  let? header := header_records artifacts in
  let? credits := credits_records (late_finalize_credits artifacts) in
  let records := summary_records artifacts ++ header ++ credits ++ timestamp_records artifacts
                 ++ root_records artifacts in
  match records with
  | [] => Ok []
  | _ =>
      let? _ := rrequire (Z.of_nat (length records) <=? u8_max)
        (Fatal "too many block artifact records") in
      let? payload_len := records_len 0 records in
      let total_len := 4 + 1 + 1 + payload_len in
      let? _ := rrequire (total_len <=? OUTBE_MAX_EXTRA_DATA_SIZE)
        (Fatal "block artifacts exceed extra_data budget") in
      Ok (OART_MAGIC ++ [OART_VERSION] ++ [Z.of_nat (length records)]
          ++ concat (record_bytes <$> records))
  end.

(** * Decoding *)

(** [for _ in 0..count]. *)
Fixpoint read_n {A} (count : nat) (r : reader A) : reader (list A) := fun cur =>
  match count with
  | O => Ok ([], cur)
  | S count' =>
      let? (a, cur) := r cur in
      let? (rest, cur) := read_n count' r cur in
      Ok (a :: rest, cur)
  end.

Definition decode_execution_summary (payload : list Z) : result Z :=
  let? _ := rrequire (length payload =? EXECUTION_SUMMARY_LEN)%nat
    (Fatal "invalid execution summary artifact length") in
  let? (fee_sum, _) := read_be 32 Panic payload in
  Ok fee_sum.

Fixpoint decode_credits_loop (count : nat) (prev : option (Z * B256)) :
    reader (list PerBlockCredit) := fun cur =>
  match count with
  | O => Ok ([], cur)
  | S count' =>
      let? _ := rrequire (negb (length cur <? PER_BLOCK_CREDIT_FIXED_LEN + 2)%nat)
        (Fatal "truncated late finalize credit prefix") in
      let? (number, cur) := read_be 8 Panic cur in
      let? (hash, cur) := read_be 32 Panic cur in
      let? (epoch, cur) := read_be 8 Panic cur in
      let? (view, cur) := read_be 8 Panic cur in
      let? (parent, cur) := read_be 8 Panic cur in
      let? (set_hash, cur) := read_be 32 Panic cur in
      let? (bitmap_len, cur) := read_be 2 Panic cur in
      let? _ := rrequire (Z.to_nat bitmap_len <=? LATE_FINALIZE_MAX_BITMAP_LEN)%nat bitmap_too_long in
      let? _ := rrequire (negb (length cur <? Z.to_nat bitmap_len + LATE_FINALIZE_SIG_LEN)%nat)
        (Fatal "truncated late finalize credit body") in
      let? (bitmap, cur) := take_bytes (Z.to_nat bitmap_len) Panic cur in
      let? (sig, cur) := take_bytes LATE_FINALIZE_SIG_LEN Panic cur in
      let credit := mkCredit number hash epoch view parent set_hash bitmap sig in
      let? _ := ensure_ascending prev (credit_key credit) in
      let? (batches, cur) := decode_credits_loop count' (Some (credit_key credit)) cur in
      Ok (credit :: batches, cur)
  end.

Definition decode_late_finalize_credits (payload : list Z) : result LateFinalizeCreditsArtifact :=
  let? _ := rrequire (negb (length payload <? 2)%nat)
    (Fatal "late finalize credits payload too short") in
  let? (batch_count, cur) := read_be 2 Panic payload in
  let? _ := rrequire (Z.to_nat batch_count <=? LATE_FINALIZE_MAX_BATCHES)%nat
    (Fatal "too many late finalize batches") in
  let? (batches, cur) := decode_credits_loop (Z.to_nat batch_count) None cur in
  let? _ := rrequire (bool_decide (cur = []))
    (Fatal "trailing bytes in late finalize credits payload") in
  Ok batches.

Definition boundary_min_len : nat := 8 + 8 + 8 + 8 + 32 + 8 + 32 + 32 + 1 + 1 + 32 + 2 + 4 + 4.
Definition boundary_length : PrecompileError := Fatal "invalid boundary header artifact payload length".
(** [payload.len() < offset + n]. *)
Definition ensure_remaining (n : nat) (cur : list Z) : result unit :=
  rrequire (negb (length cur <? n)%nat) boundary_length.

Definition boundary_u64 : reader Z := read_be 8 (eof "unexpected EOF reading").
Definition read_flag (e : PrecompileError) : reader bool := fun cur =>
  let? (byte, cur) := read_be 1 Panic cur in
  let? flag := if byte =? 0 then Ok false else if byte =? 1 then Ok true else Err e in
  Ok (flag, cur).
Definition read_recipient : reader (Address * B256) := fun cur =>
  let? (address, cur) := read_be 20 Panic cur in
  let? (recipient, cur) := read_be 32 Panic cur in
  Ok ((address, recipient), cur).

Definition read_active_set : reader (list Address) := fun cur =>
  let? (count, cur) := read_be 2 Panic cur in
  let? _ := ensure_remaining (Z.to_nat count * 20 + 4) cur in
  read_n (Z.to_nat count) (read_be 20 Panic) cur.
(** The outcome and the VRF key: a [u32] length and the bytes, [tail] bytes of which
    must follow. *)
Definition read_bytes_u32 (tail : nat) : reader (list Z) := fun cur =>
  let? (len, cur) := read_be 4 Panic cur in
  let? _ := ensure_remaining (Z.to_nat len + tail) cur in
  take_bytes (Z.to_nat len) Panic cur.
Definition read_recipients : reader (list (Address * B256)) := fun cur =>
  let? _ := rrequire (negb (length cur <? 2)%nat)
    (Fatal "invalid boundary header artifact: missing tee recipient count") in
  let? (count, cur) := read_be 2 Panic cur in
  let? _ := ensure_remaining (Z.to_nat count * (20 + 32) + (32 + 2)) cur in
  read_n (Z.to_nat count) read_recipient cur.
Definition read_exclusions : reader (list Address) := fun cur =>
  let? (count, cur) := read_be 2 Panic cur in
  let? _ := rrequire (Z.to_nat count <=? MAX_TEE_EXPIRED_TARGET_EXCLUSIONS)%nat
    (Fatal "TEE expiry exclusions exceed protocol cap") in
  let? _ := ensure_remaining (Z.to_nat count * 20) cur in
  read_n (Z.to_nat count) (read_be 20 Panic) cur.

Definition decode_boundary_payload (payload : list Z) : result DkgBoundaryArtifact :=
  let? _ := rrequire (negb (length payload <? boundary_min_len)%nat)
    (Fatal "boundary header artifact payload too short") in
  let? (epoch, cur) := boundary_u64 payload in
  let? (cycle, cur) := boundary_u64 cur in
  let? (freeze, cur) := boundary_u64 cur in
  let? (planned, cur) := boundary_u64 cur in
  let? (target, cur) := read_be 32 Panic cur in
  let? (vrf_version, cur) := boundary_u64 cur in
  let? (group_key, cur) := read_be 32 Panic cur in
  let? (set_hash, cur) := read_be 32 Panic cur in
  let? (set_change, cur) := read_flag (Fatal "invalid boundary is_validator_set_change flag") cur in
  let? (full_dkg, cur) := read_flag (Fatal "invalid boundary is_full_dkg flag") cur in
  let? (active_hash, cur) := read_be 32 Panic cur in
  let? (active_set, cur) := read_active_set cur in
  let? (dkg_outcome, cur) := read_bytes_u32 4 cur in
  let? (group_key_bytes, cur) := read_bytes_u32 0 cur in
  let? (recipients, cur) := read_recipients cur in
  let? (carried_hash, cur) := read_be 32 Panic cur in
  let? (exclusions, cur) := read_exclusions cur in
  let? expected_hash := tee_expired_target_exclusions_hash exclusions in
  let? _ := rrequire (expected_hash =? carried_hash)
    (Fatal "boundary TEE expiry exclusions commitment mismatch") in
  let? _ := rrequire (bool_decide (cur = [])) boundary_length in
  Ok (mkBoundary epoch cycle freeze planned target vrf_version group_key group_key_bytes set_hash
        set_change dkg_outcome full_dkg (mkReshare active_set active_hash) recipients exclusions
        carried_hash).

Definition ensure_absent {A} (slot : option A) (what : string) : result unit :=
  rrequire (bool_decide (slot = None)) (Fatal what).

(** The arms of the [match tag]. *)
Definition decode_record (tag : Z) (payload : list Z) (artifacts : OutbeBlockArtifacts) :
    result OutbeBlockArtifacts :=
  let header artifact :=
    let? _ := ensure_absent (consensus_header_artifact artifacts) "duplicate consensus header artifact" in
    let? artifact := artifact in
    Ok (artifacts <| consensus_header_artifact := Some artifact |>) in
  if tag =? EXECUTION_SUMMARY_TAG then
    let? _ := ensure_absent (execution_summary artifacts) "duplicate execution summary artifact" in
    let? summary := decode_execution_summary payload in
    Ok (artifacts <| execution_summary := Some summary |>)
  else if tag =? BOUNDARY_TAG then
    header (let? boundary := decode_boundary_payload payload in Ok (BoundaryOutcomeArtifact boundary))
  else if tag =? DEALER_LOG_TAG then
    header (Ok (DealerLog payload))
  else if tag =? COMMITTEE_PREANNOUNCE_TAG then
    header (let? _ := rrequire (negb (length payload <? 8)%nat)
              (Fatal "committee pre-announce payload too short for epoch") in
            let? (epoch, rest) := read_be 8 Panic payload in
            Ok (CommitteePreAnnounce epoch rest))
  else if tag =? TIMESTAMP_MILLIS_PART_TAG then
    let? _ := rrequire (timestamp_millis_part artifacts =? 0) (Fatal "duplicate timestamp_millis_part") in
    let? _ := rrequire (length payload =? TIMESTAMP_MILLIS_PART_LEN)%nat
      (Fatal "timestamp_millis_part payload length") in
    let? (millis, _) := read_be 8 Panic payload in
    Ok (artifacts <| timestamp_millis_part := millis |>)
  else if tag =? LATE_FINALIZE_CREDITS_TAG then
    let? _ := ensure_absent (late_finalize_credits artifacts) "duplicate late finalize credits artifact" in
    let? credits := decode_late_finalize_credits payload in
    Ok (artifacts <| late_finalize_credits := Some credits |>)
  else if tag =? COMPRESSED_ENTITIES_ROOT_TAG then
    let? _ := ensure_absent (compressed_entities_root artifacts)
      "duplicate compressed-entities root artifact" in
    let? _ := rrequire (length payload =? COMPRESSED_ENTITIES_ROOT_PAYLOAD_LEN)%nat
      (Fatal "compressed-entities root payload length") in
    let? (scheme, cur) := read_be 4 Panic payload in
    let? (sealed, _) := read_be 32 Panic cur in
    Ok (artifacts <| compressed_entities_root := Some (mkRoot scheme sealed) |>)
  else Err (Fatal "unsupported block artifact tag").

Fixpoint decode_records (record_count : nat) (artifacts : OutbeBlockArtifacts) :
    reader OutbeBlockArtifacts := fun cur =>
  match record_count with
  | O => Ok (artifacts, cur)
  | S record_count' =>
      let? _ := rrequire (negb (length cur <? 3)%nat) (Fatal "truncated block artifact record header") in
      let? (tag, cur) := read_be 1 Panic cur in
      let? (payload_len, cur) := read_be 2 Panic cur in
      let? (payload, cur) := take_bytes (Z.to_nat payload_len)
        (Err (Fatal "truncated block artifact record payload")) cur in
      let? artifacts := decode_record tag payload artifacts in
      decode_records record_count' artifacts cur
  end.

Definition decode_outbe_block_artifacts (extra_data : list Z) : result OutbeBlockArtifacts :=
  match extra_data with
  | [] => Ok no_artifacts
  | _ =>
      let? _ := rrequire (negb (length extra_data <? 4 + 1 + 1)%nat) (Fatal "block artifacts too short") in
      let? (magic, cur) := take_bytes 4 Panic extra_data in
      let? _ := rrequire (bool_decide (magic = OART_MAGIC))
        (Fatal "unknown non-empty extra_data block artifact") in
      let? (version, cur) := read_be 1 Panic cur in
      let? _ := rrequire (version =? OART_VERSION) (Fatal "unsupported block artifact version") in
      let? (record_count, cur) := read_be 1 Panic cur in
      let? (artifacts, cur) := decode_records (Z.to_nat record_count) no_artifacts cur in
      let? _ := rrequire (bool_decide (cur = [])) (Fatal "trailing bytes in block artifacts") in
      Ok artifacts
  end.

(** * Entry points *)

Definition sanitize_prefinal_outbe_block_artifacts (extra_data : list Z) : result (list Z) :=
  let? artifacts := decode_outbe_block_artifacts extra_data in
  let? encoded := encode_outbe_block_artifacts
    (artifacts <| execution_summary := None |> <| timestamp_millis_part := 0 |>
               <| compressed_entities_root := None |>) in
  let? _ := rrequire (Z.of_nat (length encoded) <=? OUTBE_MAX_NON_ROOT_ARTIFACT_SIZE)
    (Fatal "pre-final block artifacts exceed reserved extra_data budget") in
  Ok encoded.

Definition encode_consensus_header_artifact (artifact : ConsensusHeaderArtifact) : result (list Z) :=
  let? encoded := encode_outbe_block_artifacts (mkArtifacts None (Some artifact) 0 None None) in
  sanitize_prefinal_outbe_block_artifacts encoded.
Definition decode_consensus_header_artifact (extra_data : list Z) :
    result (option ConsensusHeaderArtifact) :=
  let? artifacts := decode_outbe_block_artifacts extra_data in
  Ok (consensus_header_artifact artifacts).

Definition encode_boundary_artifact (b : DkgBoundaryArtifact) : result (list Z) :=
  encode_consensus_header_artifact (BoundaryOutcomeArtifact b).
Definition decode_boundary_artifact (extra_data : list Z) : result (option DkgBoundaryArtifact) :=
  let? found := decode_consensus_header_artifact extra_data in
  match found with
  | Some (BoundaryOutcomeArtifact b) => Ok (Some b)
  | None | Some (DealerLog _) | Some (CommitteePreAnnounce _ _) => Ok None
  end.

Definition encode_late_finalize_credits_artifact (credits : LateFinalizeCreditsArtifact) :
    result (list Z) :=
  encode_outbe_block_artifacts (mkArtifacts None None 0 (Some credits) None).
Definition decode_late_finalize_credits_artifact (extra_data : list Z) :
    result (option LateFinalizeCreditsArtifact) :=
  let? artifacts := decode_outbe_block_artifacts extra_data in
  Ok (late_finalize_credits artifacts).
End Codec.
