(* ===== verification/ArtifactsProps.v ===== *)
(** Properties of the block artifacts: what is encoded decodes to itself, what
    decodes is well formed, decoding never panics, and the sanitised form of
    proposer-supplied bytes is canonical. *)

From S2P Require Import Prelude Bytes Wire WireProps Artifacts.

#[local] Arguments be_bytes : simpl never.

(** * Readers *)

(** [r] reads back what [enc] writes when [k] bytes follow, and accepts nothing else. *)
Record lawful_before {A} (k : nat) (r : reader A) (enc : A -> list Z) (wf : A -> Prop) : Prop := {
  before_read : forall a rest, wf a -> (k <= length rest)%nat -> r (enc a ++ rest) = Ok (a, rest);
  before_canon : forall input a rest, Forall byte input -> r input = Ok (a, rest) ->
    input = enc a ++ rest /\ wf a /\ Forall byte rest }.

Lemma read_n_lawful {A} (r : reader A) enc wf n :
  lawful r enc wf ->
  lawful (read_n n r) (fun l => concat (enc <$> l)) (fun l => length l = n /\ Forall wf l).
Proof.
  intros [Hread Hcanon]. split.
  - intros l rest [<- Hl]. induction Hl as [|a l Ha Hl IH]; [done|].
    cbn [length read_n fmap list_fmap concat]. rewrite <- app_assoc, Hread by done.
    cbn [rbind]. fold (fmap (M := list) enc l). rewrite IH. done.
  - induction n as [|n IH]; intros input l rest Hb Hr; cbn [read_n] in Hr; [by simplify_eq|].
    apply rbind_ok in Hr as ([a cur] & Ha & Hr). apply rbind_ok in Hr as ([l' cur'] & Hl & Hr).
    simplify_eq. apply Hcanon in Ha as (-> & Hwa & Hb'); [|done].
    apply IH in Hl as (-> & (<- & Hwl) & Hb''); [|done].
    split_and!; [|done|by constructor|done]. cbn [fmap list_fmap concat]. by rewrite <- app_assoc.
Qed.

Lemma read_flag_lawful e : lawful (read_flag e) (fun b => [bool_byte b]) (fun _ => True).
Proof.
  split.
  - intros [] rest _; reflexivity.
  - intros input b rest Hb Hr. unfold read_flag in Hr. repeat canon_step. simplify_eq.
    split_and!; [|done|done]. rename H1 into Hz.
    destruct (Z.eqb_spec z 0) as [->|]; [by simplify_eq|].
    destruct (Z.eqb_spec z 1) as [->|]; by simplify_eq.
Qed.

Lemma read_recipient_lawful :
  lawful read_recipient (fun r => be_bytes 20 r.1 ++ be_bytes 32 r.2)
    (fun r => fits 20 r.1 /\ fits 32 r.2).
Proof.
  split.
  - intros [a k] rest [Ha Hk]. unfold read_recipient. rewrite <- app_assoc. cbn [fst snd] in *. by do 2 read_step.
  - intros input r rest Hb Hr. unfold read_recipient in Hr. repeat canon_step. simplify_eq.
    by rewrite <- app_assoc.
Qed.

(** A count on two bytes, then the elements. *)
Definition counted {A} (enc : A -> list Z) (l : list A) : list Z :=
  be_bytes 2 (Z.of_nat (length l)) ++ concat (enc <$> l).
Definition wf_counted {A} (wf : A -> Prop) (l : list A) : Prop :=
  fits 2 (Z.of_nat (length l)) /\ Forall wf l.

Lemma ensure_remaining_ok n cur : (n <= length cur)%nat -> ensure_remaining n cur = Ok tt.
Proof. intros. unfold ensure_remaining. by rewrite (proj2 (Nat.ltb_ge _ _)). Qed.

Lemma length_concat_const {A} (enc : A -> list Z) w l :
  (forall a, length (enc a) = w) -> length (concat (enc <$> l)) = (length l * w)%nat.
Proof.
  intros Hw. induction l as [|a l IH]; [done|]. cbn [fmap list_fmap concat length].
  fold (fmap (M := list) enc l). rewrite length_app, Hw, IH. lia.
Qed.

(** The common shape of the list readers of the boundary payload. *)
Lemma counted_lawful {A} (r : reader A) enc wf w k (guard : nat -> result unit) :
  lawful r enc wf -> (forall a, length (enc a) = w) ->
  lawful_before k (fun cur =>
      let? (count, cur) := read_be 2 Panic cur in
      let? _ := guard (Z.to_nat count) in
      let? _ := ensure_remaining (Z.to_nat count * w + k) cur in
      read_n (Z.to_nat count) r cur)
    (counted enc) (fun l => wf_counted wf l /\ guard (length l) = Ok tt).
Proof.
  intros Hr Hw. split.
  - intros l rest [[Hl Hwf] Hg] Hk. unfold counted. rewrite <- app_assoc. read_step.
    rewrite Nat2Z.id, Hg. cbn [rbind].
    rewrite ensure_remaining_ok by (rewrite length_app, (length_concat_const _ w) by done; lia).
    cbn [rbind]. by apply (law_read _ _ _ (read_n_lawful _ _ _ _ Hr)).
  - intros input l rest Hb Hd. repeat canon_step.
    match goal with Hx : read_n _ _ ?i = _, Hi : Forall byte ?i |- _ =>
      apply (law_canon _ _ _ (read_n_lawful _ _ _ _ Hr)) in Hx as (-> & [Hlen Hwf] & Hrest);
        [|exact Hi] end.
    assert (Hz : Z.of_nat (length l) = z) by (unfold fits in *; lia).
    unfold counted, wf_counted. rewrite Hz, <- app_assoc, Hlen. done.
Qed.

Lemma lawful_before_ext {A} k (r r' : reader A) enc enc' (wf wf' : A -> Prop) :
  lawful_before k r enc wf -> (forall cur, r' cur = r cur) -> (forall a, enc a = enc' a) ->
  (forall a, wf a <-> wf' a) -> lawful_before k r' enc' wf'.
Proof.
  intros [Hr Hc] Hrr He Hw. split.
  - intros a rest Ha%Hw Hk. rewrite Hrr, <- He. by apply Hr.
  - intros input a rest Hb. rewrite Hrr. intros (-> & ? & ?)%Hc; [|done].
    rewrite <- He, <- Hw. done.
Qed.

Lemma read_active_set_lawful :
  lawful_before 4 read_active_set (counted (be_bytes 20)) (wf_counted (fits 20)).
Proof.
  eapply lawful_before_ext;
    [apply (counted_lawful (read_be 20 Panic) (be_bytes 20) (fits 20) 20 4 (fun _ => Ok tt))
    |reflexivity|done|intros l; simpl; tauto].
  - by apply read_be_lawful.
  - apply length_be_bytes.
Qed.

Lemma read_recipients_lawful :
  lawful_before 34 read_recipients (counted (fun r => be_bytes 20 r.1 ++ be_bytes 32 r.2))
    (wf_counted (fun r => fits 20 r.1 /\ fits 32 r.2)).
Proof.
  destruct (counted_lawful read_recipient _ _ 52 34 (fun _ => Ok tt) read_recipient_lawful) as [Hr Hc].
  { intros. by rewrite length_app, !length_be_bytes. }
  split.
  - intros l rest Hl Hk. unfold read_recipients.
    rewrite (proj2 (Nat.ltb_ge _ _)) by (unfold counted; rewrite !length_app, length_be_bytes; lia).
    by apply Hr.
  - intros input l rest Hb Hd. unfold read_recipients in Hd.
    apply rbind_ok in Hd as ([] & _ & Hd). apply Hc in Hd as (-> & [? _] & ?); done.
Qed.

Lemma read_exclusions_lawful :
  lawful_before 0 read_exclusions (counted (be_bytes 20))
    (fun l => wf_counted (fits 20) l /\ (length l <= MAX_TEE_EXPIRED_TARGET_EXCLUSIONS)%nat).
Proof.
  eapply lawful_before_ext;
    [apply (counted_lawful (read_be 20 Panic) (be_bytes 20) (fits 20) 20 0 (fun n =>
       rrequire (n <=? MAX_TEE_EXPIRED_TARGET_EXCLUSIONS)%nat
         (Fatal "TEE expiry exclusions exceed protocol cap")))
    | |done|].
  - by apply read_be_lawful.
  - apply length_be_bytes.
  - intros cur. unfold read_exclusions. destruct (read_be 2 Panic cur) as [[count ?]| |]; [|done..].
    cbn [rbind]. by rewrite (Nat.add_0_r (Z.to_nat count * 20)).
  - intros l. simpl. rewrite rrequire_iff, Nat.leb_le. done.
Qed.

Definition sized_u32 (l : list Z) : list Z := be_bytes 4 (Z.of_nat (length l)) ++ l.
Definition wf_sized_u32 (l : list Z) : Prop := fits 4 (Z.of_nat (length l)) /\ Forall byte l.

Lemma read_bytes_u32_lawful k : lawful_before k (read_bytes_u32 k) sized_u32 wf_sized_u32.
Proof.
  split.
  - intros l rest [Hl Hb] Hk. unfold read_bytes_u32, sized_u32. rewrite <- app_assoc. read_step.
    rewrite Nat2Z.id, ensure_remaining_ok by (rewrite length_app; lia). cbn [rbind].
    by apply take_bytes_app.
  - intros input l rest Hb Hd. unfold read_bytes_u32 in Hd. repeat canon_step.
    assert (Hz : Z.of_nat (length l) = z) by (unfold fits in *; lia).
    unfold sized_u32, wf_sized_u32. rewrite Hz, <- app_assoc. done.
Qed.

(** * Boundary payloads *)

Section Codec.
Context {H : Keccak}.

(** The widths of the fields; the lengths are the encoder's checks. *)
Record wf_boundary (b : DkgBoundaryArtifact) : Prop := {
  wb_epoch : fits 8 (ba_epoch b);
  wb_cycle : fits 8 (dkg_cycle b);
  wb_freeze : fits 8 (freeze_height b);
  wb_planned : fits 8 (planned_activation_height b);
  wb_target : fits 32 (target_set_hash b);
  wb_version : fits 8 (ba_vrf_material_version b);
  wb_key : fits 32 (vrf_group_public_key b);
  wb_set_hash : fits 32 (ba_committee_set_hash b);
  wb_active_hash : fits 32 (active_set_hash (reshare b));
  wb_active : Forall (fits 20) (new_active_set (reshare b));
  wb_outcome : Forall byte (outcome b);
  wb_key_bytes : Forall byte (vrf_group_public_key_bytes b);
  wb_recipients : Forall (fun r => fits 20 r.1 /\ fits 32 r.2) (tee_recipient_pubkeys b);
  wb_excl_hash : fits 32 (ba_tee_expired_target_exclusions_hash b);
  wb_excl : Forall (fits 20) (tee_expired_target_exclusions b) }.

(** [boundary_bytes] in terms of the readers' encodings. *)
Lemma boundary_bytes_eq b :
  boundary_bytes b =
    be_bytes 8 (ba_epoch b) ++ be_bytes 8 (dkg_cycle b) ++ be_bytes 8 (freeze_height b)
    ++ be_bytes 8 (planned_activation_height b) ++ be_bytes 32 (target_set_hash b)
    ++ be_bytes 8 (ba_vrf_material_version b) ++ be_bytes 32 (vrf_group_public_key b)
    ++ be_bytes 32 (ba_committee_set_hash b)
    ++ [bool_byte (is_validator_set_change b)] ++ [bool_byte (is_full_dkg b)]
    ++ be_bytes 32 (active_set_hash (reshare b))
    ++ counted (be_bytes 20) (new_active_set (reshare b))
    ++ sized_u32 (outcome b) ++ sized_u32 (vrf_group_public_key_bytes b)
    ++ counted (fun r => be_bytes 20 r.1 ++ be_bytes 32 r.2) (tee_recipient_pubkeys b)
    ++ be_bytes 32 (ba_tee_expired_target_exclusions_hash b)
    ++ counted (be_bytes 20) (tee_expired_target_exclusions b).
Proof. unfold boundary_bytes, counted, sized_u32. by rewrite <- !app_assoc. Qed.

Lemma count_fits n : ensure_count_fits_u16 n = Ok tt <-> fits 2 (Z.of_nat n).
Proof. unfold ensure_count_fits_u16, fits. rewrite rrequire_iff, Z.leb_le. change (256 ^ Z.of_nat 2) with (2 ^ 16). lia. Qed.
Lemma payload_fits n : ensure_payload_fits_u16 n = Ok tt <-> fits 2 (Z.of_nat n).
Proof. unfold ensure_payload_fits_u16, fits. rewrite rrequire_iff, Z.leb_le. change (256 ^ Z.of_nat 2) with (2 ^ 16). lia. Qed.
Lemma len_fits n : ensure_len_fits_u32 n = Ok tt <-> fits 4 (Z.of_nat n).
Proof. unfold ensure_len_fits_u32, fits, u32_max. rewrite rrequire_iff, Z.leb_le. change (256 ^ Z.of_nat 4) with (2 ^ 32). lia. Qed.

(** What the encoder checks. *)
Lemma encode_boundary_ok b bytes :
  encode_boundary_payload b = Ok bytes <->
  bytes = boundary_bytes b
  /\ fits 2 (Z.of_nat (length (new_active_set (reshare b)))) /\ fits 4 (Z.of_nat (length (outcome b)))
  /\ fits 4 (Z.of_nat (length (vrf_group_public_key_bytes b)))
  /\ fits 2 (Z.of_nat (length (tee_recipient_pubkeys b)))
  /\ tee_expired_target_exclusions_hash (tee_expired_target_exclusions b)
     = Ok (ba_tee_expired_target_exclusions_hash b).
Proof.
  rewrite <- !count_fits, <- !len_fits. unfold encode_boundary_payload. split.
  - intros He. repeat canon_step. simplify_eq. by repeat match goal with u : unit |- _ => destruct u end.
  - intros (-> & -> & -> & -> & -> & Hh). cbn [rbind].
    assert (Hv : validate_tee_expired_target_exclusions (tee_expired_target_exclusions b) = Ok tt).
    { unfold tee_expired_target_exclusions_hash in Hh. by apply rbind_ok in Hh as ([] & ? & _). }
    rewrite Hv, Hh. cbn [rbind]. by rewrite Z.eqb_refl.
Qed.

Lemma exclusions_cap l h :
  tee_expired_target_exclusions_hash l = Ok h -> (length l <= MAX_TEE_EXPIRED_TARGET_EXCLUSIONS)%nat.
Proof.
  unfold tee_expired_target_exclusions_hash, validate_tee_expired_target_exclusions. intros Hh.
  repeat canon_step. by apply Nat.leb_le.
Qed.
Lemma cap_fits l : (length l <= MAX_TEE_EXPIRED_TARGET_EXCLUSIONS)%nat -> fits 2 (Z.of_nat (length (l : list Z))).
Proof. unfold MAX_TEE_EXPIRED_TARGET_EXCLUSIONS, fits. intros. change (256 ^ Z.of_nat 2) with 65536. lia. Qed.

Lemma boundary_decode_encode b bytes :
  wf_boundary b -> encode_boundary_payload b = Ok bytes -> decode_boundary_payload bytes = Ok b.
Proof.
  intros [] (-> & Hn & Ho & Hk & Hr & Hh)%encode_boundary_ok. rewrite boundary_bytes_eq.
  pose proof (exclusions_cap _ _ Hh) as Hcap. pose proof (cap_fits _ Hcap) as Hcf.
  unfold decode_boundary_payload, boundary_u64.
  rewrite (proj2 (Nat.ltb_ge _ _))
    by (unfold counted, sized_u32; rewrite !length_app, !length_be_bytes; cbn [length]; unfold boundary_min_len; lia).
  cbn [negb rrequire rbind]. do 8 read_step.
  rewrite (law_read _ _ _ (read_flag_lawful _)) by done. cbn [rbind].
  rewrite (law_read _ _ _ (read_flag_lawful _)) by done. cbn [rbind]. read_step.
  rewrite (before_read _ _ _ _ read_active_set_lawful);
    [|done|unfold sized_u32; rewrite !length_app, !length_be_bytes; lia]. cbn [rbind].
  rewrite (before_read _ _ _ _ (read_bytes_u32_lawful 4));
    [|done|unfold sized_u32; rewrite !length_app, !length_be_bytes; lia]. cbn [rbind].
  rewrite (before_read _ _ _ _ (read_bytes_u32_lawful 0)); [|done|lia]. cbn [rbind].
  rewrite (before_read _ _ _ _ read_recipients_lawful);
    [|done|unfold counted; rewrite !length_app, !length_be_bytes; lia]. cbn [rbind]. read_step.
  rewrite <- (app_nil_r (counted _ (tee_expired_target_exclusions b))).
  rewrite (before_read _ _ _ _ read_exclusions_lawful); [|done|lia]. cbn [rbind].
  rewrite Hh. cbn [rbind]. rewrite Z.eqb_refl. cbn [rrequire rbind bool_decide].
  by destruct b as [????????????[]].
Qed.

Ltac boundary_step :=
  let go L := match goal with
    | Hx : ?r ?i = Ok (_, _), Hb : Forall byte ?i |- _ =>
        apply L in Hx as (-> & ? & ?); [clear Hb|exact Hb] end in
  first [ canon_step
        | go constr:(law_canon _ _ _ (read_flag_lawful (Fatal "invalid boundary is_validator_set_change flag")))
        | go constr:(law_canon _ _ _ (read_flag_lawful (Fatal "invalid boundary is_full_dkg flag")))
        | go constr:(before_canon _ _ _ _ read_active_set_lawful)
        | go constr:(before_canon _ _ _ _ (read_bytes_u32_lawful 4))
        | go constr:(before_canon _ _ _ _ (read_bytes_u32_lawful 0))
        | go constr:(before_canon _ _ _ _ read_recipients_lawful)
        | go constr:(before_canon _ _ _ _ read_exclusions_lawful) ].

Lemma boundary_encode_decode bytes b :
  Forall byte bytes -> decode_boundary_payload bytes = Ok b ->
  encode_boundary_payload b = Ok bytes /\ wf_boundary b.
Proof.
  intros Hb Hd. unfold decode_boundary_payload, boundary_u64 in Hd. repeat boundary_step. simplify_eq.
  unfold wf_counted, wf_sized_u32 in *. destruct_and?. split.
  - apply encode_boundary_ok. rewrite boundary_bytes_eq, app_nil_r. simpl. by split_and!.
  - by constructor.
Qed.

(** * Decoding does not panic *)

(** A read that does not panic and leaves at least [j] bytes. *)
Definition safe_read {A} (j : nat) (x : result (A * list Z)) : Prop :=
  x <> Panic /\ forall a rest, x = Ok (a, rest) -> (j <= length rest)%nat.
Definition reader_safe {A} (k : nat) (r : reader A) (j : nat) : Prop :=
  forall cur, (k <= length cur)%nat -> safe_read j (r cur).

(** The reader takes exactly [w] bytes. *)
Definition reads_exactly {A} (w : nat) (r : reader A) : Prop :=
  forall cur, (w <= length cur)%nat -> exists a, r cur = Ok (a, drop w cur).

Lemma read_be_exactly n fail : reads_exactly n (read_be n fail).
Proof. intros cur Hc. unfold read_be. rewrite take_bytes_ok by done. by eexists. Qed.
Lemma read_recipient_exactly : reads_exactly 52 read_recipient.
Proof.
  intros cur Hc. unfold read_recipient.
  destruct (read_be_exactly 20 Panic cur) as [a ->]; [lia|]. cbn [rbind].
  destruct (read_be_exactly 32 Panic (drop 20 cur)) as [k ->]; [rewrite length_drop; lia|].
  rewrite drop_drop. by eexists.
Qed.
Lemma read_n_exactly {A} w (r : reader A) n : reads_exactly w r -> reads_exactly (n * w) (read_n n r).
Proof.
  intros Hr. induction n as [|n IH]; intros cur Hc; [by eexists|]. cbn [read_n].
  destruct (Hr cur) as [a ->]; [lia|]. cbn [rbind].
  destruct (IH (drop w cur)) as [l ->]; [rewrite length_drop; lia|]. rewrite drop_drop. by eexists.
Qed.
Lemma read_n_safe {A} w (r : reader A) n j :
  reads_exactly w r -> reader_safe (n * w + j) (read_n n r) j.
Proof.
  intros Hr cur Hc. destruct (read_n_exactly w r n Hr cur) as [l Hl]; [lia|]. rewrite Hl.
  split; [done|]. intros ? ? [= _ <-]. rewrite length_drop. lia.
Qed.
Lemma read_be_safe n j : reader_safe (n + j) (read_be n Panic) j.
Proof.
  intros cur Hc. destruct (read_be_exactly n Panic cur) as [a ->]; [lia|].
  split; [done|]. intros ? ? [= _ <-]. rewrite length_drop. lia.
Qed.
Lemma take_bytes_safe n j : reader_safe (n + j) (take_bytes n Panic) j.
Proof.
  intros cur Hc. rewrite take_bytes_ok by lia. split; [done|]. intros ? ? [= _ <-].
  rewrite length_drop. lia.
Qed.

Lemma safe_bind {A B} j i (x : result (A * list Z)) (f : A * list Z -> result (B * list Z)) :
  safe_read j x -> (forall a rest, (j <= length rest)%nat -> safe_read i (f (a, rest))) ->
  safe_read i (rbind x f).
Proof. intros [Hnp Hrest] Hf. destruct x as [[a rest]| |]; [|done..]. apply Hf. by eapply Hrest. Qed.
Lemma no_panic_bind {A B} j (x : result (A * list Z)) (f : A * list Z -> result B) :
  safe_read j x -> (forall a rest, (j <= length rest)%nat -> f (a, rest) <> Panic) ->
  rbind x f <> Panic.
Proof. intros [Hnp Hrest] Hf. destruct x as [[a rest]| |]; [|done..]. apply Hf. by eapply Hrest. Qed.
Lemma safe_require {A} j b e (f : unit -> result (A * list Z)) :
  (b = true -> safe_read j (f tt)) -> safe_read j (rbind (rrequire b e) f).
Proof. intros Hf. destruct b; [by apply Hf|done]. Qed.
Lemma no_panic_require {B} b e (f : unit -> result B) :
  (b = true -> f tt <> Panic) -> rbind (rrequire b e) f <> Panic.
Proof. intros Hf. destruct b; [by apply Hf|done]. Qed.
Lemma safe_remaining {A} j n cur (f : unit -> result (A * list Z)) :
  ((n <= length cur)%nat -> safe_read j (f tt)) -> safe_read j (rbind (ensure_remaining n cur) f).
Proof. intros Hf. apply safe_require. rewrite negb_true_iff, Nat.ltb_ge. done. Qed.

Lemma read_flag_safe e j : reader_safe (1 + j) (read_flag e) j.
Proof.
  intros cur Hc. eapply safe_bind; [by apply (read_be_safe 1 j)|]. intros byte rest Hr.
  unfold safe_read. repeat case_match; simpl; naive_solver.
Qed.
Lemma read_active_set_safe : reader_safe 2 read_active_set 4.
Proof.
  intros cur Hc. eapply safe_bind; [by apply (read_be_safe 2 0)|]. intros count rest _.
  apply safe_remaining. apply read_n_safe, read_be_exactly.
Qed.
Lemma read_bytes_u32_safe k : reader_safe 4 (read_bytes_u32 k) k.
Proof.
  intros cur Hc. eapply safe_bind; [by apply (read_be_safe 4 0)|]. intros len rest _.
  apply safe_remaining. apply take_bytes_safe.
Qed.
Lemma read_recipients_safe : reader_safe 0 read_recipients 34.
Proof.
  intros cur _. apply safe_require. rewrite negb_true_iff, Nat.ltb_ge. intros Hc.
  eapply safe_bind; [by apply (read_be_safe 2 0)|]. intros count rest _.
  apply safe_remaining. apply read_n_safe, read_recipient_exactly.
Qed.
Lemma read_exclusions_safe : reader_safe 2 read_exclusions 0.
Proof.
  intros cur Hc. eapply safe_bind; [by apply (read_be_safe 2 0)|]. intros count rest _.
  apply safe_require. intros _. apply safe_remaining. intros Hn.
  apply (read_n_safe 20 _ _ 0); [apply read_be_exactly|lia].
Qed.

Lemma validate_exclusions_no_panic l : forall seen, validate_exclusions_from seen l <> Panic.
Proof.
  induction l as [|a l IH]; intros seen; [done|]. cbn [validate_exclusions_from].
  do 2 (apply no_panic_require; intros _). apply IH.
Qed.
Lemma exclusions_hash_no_panic l : tee_expired_target_exclusions_hash l <> Panic.
Proof.
  unfold tee_expired_target_exclusions_hash, validate_tee_expired_target_exclusions, rrequire.
  case_match; [|done]. cbn [rbind]. pose proof (validate_exclusions_no_panic l ∅).
  destruct (validate_exclusions_from ∅ l); simpl; [by case_match|done|done].
Qed.

Lemma decode_boundary_no_panic payload : decode_boundary_payload payload <> Panic.
Proof.
  unfold decode_boundary_payload, boundary_u64. apply no_panic_require.
  rewrite negb_true_iff, Nat.ltb_ge. unfold boundary_min_len. intros Hlen.
  do 8 total_step.
  eapply no_panic_bind; [apply (read_flag_safe _ 43); lia|]. intros set_change ? ?. cbn beta iota.
  eapply no_panic_bind; [apply (read_flag_safe _ 42); lia|]. intros full_dkg ? ?. cbn beta iota. total_step.
  eapply no_panic_bind; [apply read_active_set_safe; lia|]. intros active ? ?. cbn beta iota.
  eapply no_panic_bind; [apply (read_bytes_u32_safe 4); lia|]. intros outcome ? ?. cbn beta iota.
  eapply no_panic_bind; [apply (read_bytes_u32_safe 0); lia|]. intros key ? ?. cbn beta iota.
  eapply no_panic_bind; [apply read_recipients_safe; lia|]. intros recipients ? ?. cbn beta iota. total_step.
  eapply no_panic_bind; [apply read_exclusions_safe; lia|]. intros exclusions ? ?. cbn beta iota.
  pose proof (exclusions_hash_no_panic exclusions).
  destruct (tee_expired_target_exclusions_hash exclusions); cbn [rbind]; [|done..].
  by do 2 (apply no_panic_require; intros _).
Qed.

(** * Late-finalize credits *)

Record wf_credit (c : PerBlockCredit) : Prop := {
  wc_number : fits 8 (fb_number c);
  wc_hash : fits 32 (fb_hash c);
  wc_epoch : fits 8 (credit_epoch c);
  wc_view : fits 8 (credit_view c);
  wc_parent : fits 8 (credit_parent_view c);
  wc_set_hash : fits 32 (credit_committee_set_hash c);
  wc_bitmap : Forall byte (credit_signer_bitmap c);
  wc_signature : bytes_of LATE_FINALIZE_SIG_LEN (aggregate_signature c) }.

Lemma credit_eta c :
  mkCredit (fb_number c) (fb_hash c) (credit_epoch c) (credit_view c) (credit_parent_view c)
    (credit_committee_set_hash c) (credit_signer_bitmap c) (aggregate_signature c) = c.
Proof. by destruct c. Qed.

Lemma credits_decode_encode l : forall prev bytes rest,
  encode_credits_loop prev l = Ok bytes -> Forall wf_credit l ->
  decode_credits_loop (length l) prev (bytes ++ rest) = Ok (l, rest).
Proof.
  induction l as [|c l IH]; intros prev bytes rest He Hwf; cbn [encode_credits_loop] in He; [by simplify_eq|].
  apply Forall_cons in Hwf as [[] Hwf].
  apply rbind_ok in He as ([] & Hasc & He). apply rbind_ok in He as ([] & Hmap & He).
  apply rbind_ok in He as (payload & Hrest & He).
  assert (bytes = credit_bytes c ++ payload) as -> by congruence. clear He.
  pose proof (rrequire_ok _ _ _ Hmap) as Hbits%Nat.leb_le. unfold LATE_FINALIZE_MAX_BITMAP_LEN in Hbits.
  destruct wc_signature0 as [Hsig _].
  assert (Hfit : fits 2 (Z.of_nat (length (credit_signer_bitmap c))))
    by (unfold fits; change (256 ^ Z.of_nat 2) with 65536; lia).
  cbn [length decode_credits_loop]. unfold credit_bytes. rewrite <- !app_assoc.
  rewrite (proj2 (Nat.ltb_ge _ _)) by (rewrite !length_app, !length_be_bytes;
    unfold PER_BLOCK_CREDIT_FIXED_LEN, LATE_FINALIZE_SIG_LEN in *; lia).
  cbn [negb rrequire rbind]. do 7 read_step. rewrite Nat2Z.id, Hmap. cbn [rbind].
  rewrite (proj2 (Nat.ltb_ge _ _)) by (rewrite !length_app; lia).
  cbn [negb rrequire rbind]. do 2 read_step. rewrite credit_eta, Hasc. cbn [rbind].
  rewrite (IH _ payload) by done. done.
Qed.

Lemma credits_encode_decode n : forall prev input l rest,
  Forall byte input -> decode_credits_loop n prev input = Ok (l, rest) ->
  exists bytes, encode_credits_loop prev l = Ok bytes /\ input = bytes ++ rest
  /\ length l = n /\ Forall wf_credit l /\ Forall byte rest.
Proof.
  induction n as [|n IH]; intros prev input l rest Hb Hd; cbn [decode_credits_loop] in Hd.
  { simplify_eq. by exists []. }
  repeat canon_step. simplify_eq.
  match goal with Hx : decode_credits_loop _ _ ?i = _, Hi : Forall byte ?i |- _ =>
    apply IH in Hx as (bytes & He & -> & <- & Hwf & Hrest); [|exact Hi] end.
  match goal with Hx : length ?bits = Z.to_nat ?z |- _ =>
    assert (Hz : Z.of_nat (length bits) = z) by (unfold fits in *; lia) end.
  eexists. cbn [encode_credits_loop]. unfold credit_key in *. cbn [fb_number fb_hash credit_signer_bitmap] in *.
  match goal with Hx : ensure_ascending _ _ = Ok _ |- _ => rewrite Hx end. cbn [rbind].
  rewrite (proj2 (rrequire_iff _ _)) by (congruence). cbn [rbind]. rewrite He.
  cbn [rbind]. split_and!; [done| |done| |done].
  - unfold credit_bytes. simpl. by rewrite Hz, <- !app_assoc.
  - constructor; [|done]. by constructor.
Qed.

Lemma credits_loop_no_panic n : forall prev cur, decode_credits_loop n prev cur <> Panic.
Proof.
  induction n as [|n IH]; intros prev cur; [done|]. cbn [decode_credits_loop].
  apply no_panic_require. rewrite negb_true_iff, Nat.ltb_ge. unfold PER_BLOCK_CREDIT_FIXED_LEN. intros Hlen.
  do 7 total_step. apply no_panic_require. intros _.
  apply no_panic_require. rewrite negb_true_iff, Nat.ltb_ge. intros Hbody. do 2 total_step.
  unfold ensure_ascending, rrequire. destruct prev; [case_match; [|done]|]; cbn [rbind];
    (match goal with |- rbind (decode_credits_loop n ?p ?c) _ <> Panic =>
       pose proof (IH p c); destruct (decode_credits_loop n p c) as [[]| |]; done end).
Qed.
Lemma decode_credits_no_panic payload : decode_late_finalize_credits payload <> Panic.
Proof.
  unfold decode_late_finalize_credits. apply no_panic_require. rewrite negb_true_iff, Nat.ltb_ge.
  intros Hlen. total_step. apply no_panic_require. intros _.
  match goal with |- rbind (decode_credits_loop ?n ?p ?c) _ <> Panic =>
    pose proof (credits_loop_no_panic n p c); destruct (decode_credits_loop n p c) as [[]| |] end;
    cbn [rbind]; [|done..]. by apply no_panic_require.
Qed.

(** The payload of a credits record is the one encoding of its batches. *)
Lemma credits_record_decode l bytes :
  Forall wf_credit l -> credits_records (Some l) = Ok [(LATE_FINALIZE_CREDITS_TAG, bytes)] ->
  decode_late_finalize_credits bytes = Ok l.
Proof.
  intros Hwf He. destruct l as [|c l']; [done|]. set (l := c :: l') in *.
  change (credits_records (Some l)) with
    (let? _ := ensure_count_fits_u16 (length l) in
     let? _ := rrequire (length l <=? LATE_FINALIZE_MAX_BATCHES)%nat (Fatal "too many late finalize batches") in
     let? payload := encode_credits_loop None l in
     Ok [(LATE_FINALIZE_CREDITS_TAG, be_bytes 2 (Z.of_nat (length l)) ++ payload)]) in He.
  clearbody l. apply rbind_ok in He as ([] & Hfit%count_fits & He).
  apply rbind_ok in He as ([] & Hmax & He). apply rbind_ok in He as (payload & Hp & He).
  assert (bytes = be_bytes 2 (Z.of_nat (length l)) ++ payload) as -> by congruence. clear He.
  unfold decode_late_finalize_credits.
  rewrite (proj2 (Nat.ltb_ge _ _)) by (rewrite length_app, length_be_bytes; lia).
  cbn [negb rrequire rbind]. read_step. rewrite Nat2Z.id, Hmax. cbn [rbind].
  rewrite <- (app_nil_r payload). by rewrite (credits_decode_encode l None payload []) by done.
Qed.

Lemma credits_record_encode payload l :
  Forall byte payload -> decode_late_finalize_credits payload = Ok l ->
  Forall wf_credit l
  /\ (l <> [] -> credits_records (Some l) = Ok [(LATE_FINALIZE_CREDITS_TAG, payload)]).
Proof.
  intros Hb Hd. unfold decode_late_finalize_credits in Hd. repeat canon_step. simplify_eq.
  match goal with Hx : decode_credits_loop _ _ ?i = _, Hi : Forall byte ?i |- _ =>
    apply credits_encode_decode in Hx as (bytes & He & -> & Hl & Hwf & _); [|exact Hi] end.
  split; [done|]. intros Hne. destruct l as [|c l']; [done|].
  assert (Hz : Z.of_nat (length (c :: l')) = z) by (unfold fits in *; lia).
  unfold credits_records. rewrite (proj2 (count_fits _)) by by rewrite Hz. cbn [rbind].
  rewrite (proj2 (rrequire_iff _ _)) by by rewrite Hl. cbn [rbind].
  rewrite He. cbn [rbind]. by rewrite Hz, app_nil_r.
Qed.

(** * Records *)

Definition wf_header (h : ConsensusHeaderArtifact) : Prop :=
  match h with
  | BoundaryOutcomeArtifact b => wf_boundary b
  | DealerLog log => Forall byte log
  | CommitteePreAnnounce epoch outcome => fits 8 epoch /\ Forall byte outcome
  end.
Record wf_artifacts (a : OutbeBlockArtifacts) : Prop := {
  wa_summary : forall fee, execution_summary a = Some fee -> fits 32 fee;
  wa_header : forall h, consensus_header_artifact a = Some h -> wf_header h;
  wa_millis : fits 8 (timestamp_millis_part a);
  wa_credits : forall l, late_finalize_credits a = Some l -> Forall wf_credit l;
  wa_root : forall r, compressed_entities_root a = Some r ->
    fits 4 (commitment_scheme_version r) /\ fits 32 (r_sealed r) }.

(** An empty batch is not encoded. *)
Definition normal_credits (c : option LateFinalizeCreditsArtifact) : option LateFinalizeCreditsArtifact :=
  match c with Some [] => None | c => c end.
Definition normal (a : OutbeBlockArtifacts) : OutbeBlockArtifacts :=
  a <| late_finalize_credits := normal_credits (late_finalize_credits a) |>.

(** The arms of [decode_records] in sequence. *)
Fixpoint apply_records (records : list (Z * list Z)) (a : OutbeBlockArtifacts) :
    result OutbeBlockArtifacts :=
  match records with
  | [] => Ok a
  | (tag, payload) :: rest => let? a := decode_record tag payload a in apply_records rest a
  end.
Lemma apply_records_app r1 r2 a :
  apply_records (r1 ++ r2) a = let? a' := apply_records r1 a in apply_records r2 a'.
Proof.
  revert a. induction r1 as [|[tag p] r1 IH]; intros a; [done|]. simpl.
  destruct (decode_record tag p a); simpl; [apply IH|done|done].
Qed.

Definition wf_record (r : Z * list Z) : Prop := fits 1 r.1 /\ fits 2 (Z.of_nat (length r.2)).
Lemma decode_records_apply records : forall a rest, Forall wf_record records ->
  decode_records (length records) a (concat (record_bytes <$> records) ++ rest) =
  let? a' := apply_records records a in Ok (a', rest).
Proof.
  induction records as [|[tag p] records IH]; intros a rest Hwf; [done|].
  apply Forall_cons in Hwf as [[Ht Hp] Hwf]. cbn [fst snd] in *.
  cbn [length decode_records fmap list_fmap concat]. fold (fmap (M := list) record_bytes records).
  unfold record_bytes at 1 3. cbn [fst snd]. rewrite <- !app_assoc.
  rewrite (proj2 (Nat.ltb_ge _ _)) by (rewrite !length_app, length_be_bytes; simpl; lia).
  cbn [negb rrequire rbind]. replace [tag] with (be_bytes 1 tag)
    by (unfold be_bytes; simpl; rewrite Z.mod_small by apply Ht; done).
  do 2 read_step. rewrite Nat2Z.id. read_step. simpl.
  destruct (decode_record tag p a) as [a'| |]; simpl; [by apply IH|done|done].
Qed.

Lemma length_record_bytes r : length (record_bytes r) = (3 + length r.2)%nat.
Proof. unfold record_bytes. by rewrite !length_app, length_be_bytes. Qed.
Lemma records_len_ok records : forall acc total, 0 <= acc ->
  records_len acc records = Ok total ->
  Forall (fun r => fits 2 (Z.of_nat (length r.2))) records
  /\ total = acc + Z.of_nat (length (concat (record_bytes <$> records))).
Proof.
  induction records as [|[tag p] records IH]; intros acc total Hacc Hr; cbn [records_len] in Hr.
  { simplify_eq. simpl. split; [constructor|lia]. }
  apply rbind_ok in Hr as ([] & Hfit%payload_fits & Hr). apply rbind_ok in Hr as (acc' & Ha & Hr).
  destruct (checked_add _ _ _) as [sum|] eqn:Hs; [|done]. injection Ha as <-. apply checked_add_some in Hs as [-> _].
  apply IH in Hr as [Hall ->]; [|lia]. split; [by constructor|].
  cbn [fmap list_fmap concat]. fold (fmap (M := list) record_bytes records).
  rewrite length_app, length_record_bytes. cbn [snd]. lia.
Qed.

Lemma decode_preannounce payload a :
  decode_record COMMITTEE_PREANNOUNCE_TAG payload a =
  let? _ := ensure_absent (consensus_header_artifact a) "duplicate consensus header artifact" in
  let? artifact :=
    let? _ := rrequire (negb (length payload <? 8)%nat)
      (Fatal "committee pre-announce payload too short for epoch") in
    let? (epoch, rest) := read_be 8 Panic payload in
    Ok (CommitteePreAnnounce epoch rest) in
  Ok (a <| consensus_header_artifact := Some artifact |>).
Proof. done. Qed.

Lemma decode_summary payload a :
  decode_record EXECUTION_SUMMARY_TAG payload a =
  let? _ := ensure_absent (execution_summary a) "duplicate execution summary artifact" in
  let? summary := decode_execution_summary payload in
  Ok (a <| execution_summary := Some summary |>).
Proof. done. Qed.
Lemma decode_millis payload a :
  decode_record TIMESTAMP_MILLIS_PART_TAG payload a =
  let? _ := rrequire (timestamp_millis_part a =? 0) (Fatal "duplicate timestamp_millis_part") in
  let? _ := rrequire (length payload =? TIMESTAMP_MILLIS_PART_LEN)%nat
    (Fatal "timestamp_millis_part payload length") in
  let? (millis, _) := read_be 8 Panic payload in
  Ok (a <| timestamp_millis_part := millis |>).
Proof. done. Qed.
Lemma decode_root payload a :
  decode_record COMPRESSED_ENTITIES_ROOT_TAG payload a =
  let? _ := ensure_absent (compressed_entities_root a) "duplicate compressed-entities root artifact" in
  let? _ := rrequire (length payload =? COMPRESSED_ENTITIES_ROOT_PAYLOAD_LEN)%nat
    (Fatal "compressed-entities root payload length") in
  let? (scheme, cur) := read_be 4 Panic payload in
  let? (sealed, _) := read_be 32 Panic cur in
  Ok (a <| compressed_entities_root := Some (mkRoot scheme sealed) |>).
Proof. done. Qed.

Lemma decode_header_record h tag payload a :
  wf_header h -> header_record h = Ok (tag, payload) -> consensus_header_artifact a = None ->
  decode_record tag payload a = Ok (a <| consensus_header_artifact := Some h |>) /\ fits 1 tag.
Proof.
  intros Hwf He Ha. destruct h as [b|log|epoch out]; cbn [header_record] in He.
  - apply rbind_ok in He as (p & Hp & He). assert (p = payload /\ BOUNDARY_TAG = tag) as [-> <-]
      by (split; congruence). split; [|done].
    unfold decode_record. simpl. by rewrite Ha, (boundary_decode_encode _ _ Hwf Hp).
  - canon_step. simplify_eq. split; [|done]. unfold decode_record. simpl. by rewrite Ha.
  - apply rbind_ok in He as (? & _ & He).
    assert (payload = be_bytes 8 epoch ++ out /\ COMMITTEE_PREANNOUNCE_TAG = tag) as [-> <-]
      by (split; congruence). split; [|done]. destruct Hwf as [Hep _].
    rewrite decode_preannounce, Ha. cbn [bool_decide rrequire rbind].
    rewrite (proj2 (Nat.ltb_ge _ _)) by (rewrite length_app, length_be_bytes; lia).
    cbn [negb rrequire rbind]. by read_step.
Qed.

Lemma credits_records_cases c records :
  credits_records c = Ok records ->
  (records = [] /\ normal_credits c = None)
  \/ exists l payload, c = Some l /\ l <> [] /\ records = [(LATE_FINALIZE_CREDITS_TAG, payload)].
Proof.
  destruct c as [[|x l]|]; [intros [= <-]; by left| |intros [= <-]; by left].
  intros Hc. right. unfold credits_records in Hc. apply rbind_ok in Hc as (? & _ & Hc).
  apply rbind_ok in Hc as (? & _ & Hc). apply rbind_ok in Hc as (p & _ & Hc).
  exists (x :: l), (be_bytes 2 (Z.of_nat (length (x :: l))) ++ p). split_and!; [done|done|congruence].
Qed.

(** The records of one field, applied where the field is still empty, set it. *)
Definition sets (records : list (Z * list Z)) (a a' : OutbeBlockArtifacts) : Prop :=
  apply_records records a = Ok a' /\ Forall (fun r => fits 1 r.1) records.
Lemma sets_nil a : sets [] a a.
Proof. by split. Qed.
Lemma sets_one tag payload a a' : fits 1 tag -> decode_record tag payload a = Ok a' ->
  sets [(tag, payload)] a a'.
Proof. intros Ht Hd. split; [|constructor; [done|constructor]]. simpl. by rewrite Hd. Qed.
Lemma sets_app r1 r2 a b c : sets r1 a b -> sets r2 b c -> sets (r1 ++ r2) a c.
Proof.
  intros [H1 F1] [H2 F2]. split; [|by apply Forall_app]. by rewrite apply_records_app, H1.
Qed.

Lemma sets_summary a : wf_artifacts a ->
  sets (summary_records a) no_artifacts (mkArtifacts (execution_summary a) None 0 None None).
Proof.
  intros [Hs _ _ _ _]. unfold summary_records. destruct (execution_summary a) as [fee|]; [|apply sets_nil].
  apply sets_one; [done|]. rewrite decode_summary. unfold decode_execution_summary.
  rewrite length_be_bytes. cbn [Nat.eqb EXECUTION_SUMMARY_LEN rrequire rbind].
  rewrite <- (app_nil_r (be_bytes 32 fee)). rewrite read_be_app by by apply Hs. done.
Qed.
Lemma sets_header a records sum : wf_artifacts a -> header_records a = Ok records ->
  sets records (mkArtifacts sum None 0 None None)
    (mkArtifacts sum (consensus_header_artifact a) 0 None None).
Proof.
  intros [_ Hh _ _ _] He. unfold header_records in He.
  destruct (consensus_header_artifact a) as [h|]; [|injection He as <-; apply sets_nil].
  apply rbind_ok in He as ([tag payload] & Hr & He). assert (records = [(tag, payload)]) as -> by congruence.
  destruct (decode_header_record h tag payload (mkArtifacts sum None 0 None None)) as [Hd Ht];
    [by apply Hh|done|done|]. by apply sets_one.
Qed.
Lemma sets_credits a records sum head : wf_artifacts a ->
  credits_records (late_finalize_credits a) = Ok records ->
  sets records (mkArtifacts sum head 0 None None)
    (mkArtifacts sum head 0 (late_finalize_credits (normal a)) None).
Proof.
  intros [_ _ _ Hc _] He. destruct (credits_records_cases _ _ He) as [[-> Hn]|(l & p & Hl & Hne & ->)].
  - change (late_finalize_credits (normal a)) with (normal_credits (late_finalize_credits a)).
    rewrite Hn. apply sets_nil.
  - change (late_finalize_credits (normal a)) with (normal_credits (late_finalize_credits a)).
    rewrite Hl in *. destruct l as [|c l]; [done|]. apply sets_one; [done|].
    unfold decode_record. simpl. by rewrite (credits_record_decode (c :: l) p) by (by apply Hc || done).
Qed.
Lemma sets_timestamp a sum head cred : wf_artifacts a ->
  sets (timestamp_records a) (mkArtifacts sum head 0 cred None)
    (mkArtifacts sum head (timestamp_millis_part a) cred None).
Proof.
  intros [_ _ Hm _ _]. unfold timestamp_records.
  destruct (Z.eqb_spec (timestamp_millis_part a) 0) as [->|]; [apply sets_nil|].
  apply sets_one; [done|]. rewrite decode_millis, length_be_bytes.
  rewrite <- (app_nil_r (be_bytes 8 _)). by rewrite read_be_app.
Qed.
Lemma sets_root a sum head ms cred : wf_artifacts a ->
  sets (root_records a) (mkArtifacts sum head ms cred None)
    (mkArtifacts sum head ms cred (compressed_entities_root a)).
Proof.
  intros [_ _ _ _ Hr]. unfold root_records.
  destruct (compressed_entities_root a) as [[v r]|]; [|apply sets_nil].
  destruct (Hr _ eq_refl) as [Hv Hs]. cbn [commitment_scheme_version r_sealed] in *. apply sets_one; [done|].
  rewrite decode_root, length_app, !length_be_bytes.
  change (4 + 32 =? COMPRESSED_ENTITIES_ROOT_PAYLOAD_LEN)%nat with true.
  cbn [compressed_entities_root rrequire]. rewrite <- (app_nil_r (be_bytes 32 _)).
  rewrite read_be_app by done. cbn [rbind]. by rewrite read_be_app.
Qed.

(** Decoding the encoder's records in order rebuilds the artifacts. *)
Lemma sets_encoded a header credits :
  wf_artifacts a -> header_records a = Ok header ->
  credits_records (late_finalize_credits a) = Ok credits ->
  sets (summary_records a ++ header ++ credits ++ timestamp_records a ++ root_records a)
    no_artifacts (normal a).
Proof.
  intros Hwf Hh Hc. eapply sets_app; [by apply sets_summary|]. eapply sets_app; [by apply sets_header|].
  eapply sets_app; [by apply sets_credits|]. eapply sets_app; [by apply sets_timestamp|].
  change (normal a) with (mkArtifacts (execution_summary a) (consensus_header_artifact a)
    (timestamp_millis_part a) (normal_credits (late_finalize_credits a)) (compressed_entities_root a)).
  by apply sets_root.
Qed.

Lemma decode_encode_artifacts a bytes :
  wf_artifacts a -> encode_outbe_block_artifacts a = Ok bytes ->
  decode_outbe_block_artifacts bytes = Ok (normal a)
  /\ Z.of_nat (length bytes) <= OUTBE_MAX_EXTRA_DATA_SIZE.
Proof.
  intros Hwf He. unfold encode_outbe_block_artifacts in He.
  apply rbind_ok in He as (header & Hh & He). apply rbind_ok in He as (credits & Hc & He).
  destruct (sets_encoded a header credits Hwf Hh Hc) as [Ha Ht].
  revert He Ha Ht. generalize (summary_records a ++ header ++ credits ++ timestamp_records a ++ root_records a).
  intros records He Ha Ht. destruct records as [|r records']; [by simplify_eq|].
  set (records := r :: records') in *. clearbody records. clear r records'.
  apply rbind_ok in He as ([] & Hn & He). apply rrequire_ok, Z.leb_le in Hn.
  apply rbind_ok in He as (total & Hlen & He). apply rbind_ok in He as ([] & Hmax & He).
  apply rrequire_ok, Z.leb_le in Hmax.
  apply records_len_ok in Hlen as [Hfit ->]; [|done].
  set (body := concat (record_bytes <$> records)) in *.
  assert (bytes = OART_MAGIC ++ [OART_VERSION] ++ [Z.of_nat (length records)] ++ body) as -> by congruence.
  split; [|rewrite !length_app; simpl in *; lia].
  replace [Z.of_nat (length records)] with (be_bytes 1 (Z.of_nat (length records)))
    by (unfold be_bytes; simpl; unfold u8_max in Hn; rewrite Z.mod_small by lia; done).
  change [OART_VERSION] with (be_bytes 1 OART_VERSION).
  change (decode_outbe_block_artifacts (OART_MAGIC ++ be_bytes 1 OART_VERSION
      ++ be_bytes 1 (Z.of_nat (length records)) ++ body) = Ok (normal a)).
  assert (Hdec : forall l, decode_outbe_block_artifacts (OART_MAGIC ++ be_bytes 1 OART_VERSION ++ l) =
    let? _ := rrequire (negb (5 + length l <? 6)%nat) (Fatal "block artifacts too short") in
    let? (record_count, cur) := read_be 1 Panic l in
    let? (artifacts, cur) := decode_records (Z.to_nat record_count) no_artifacts cur in
    let? _ := rrequire (bool_decide (cur = [])) (Fatal "trailing bytes in block artifacts") in
    Ok artifacts) by reflexivity.
  rewrite Hdec, (proj2 (Nat.ltb_ge _ _)) by (rewrite length_app, length_be_bytes; lia).
  cbn [negb rrequire rbind].
  rewrite read_be_app by (unfold fits, u8_max in *; simpl; lia). cbn [rbind]. rewrite Nat2Z.id.
  rewrite <- (app_nil_r body). unfold body. rewrite decode_records_apply, Ha; [done|].
  by apply Forall_and.
Qed.

(** * What decodes is well formed *)

Lemma decode_record_wf tag payload a a' :
  Forall byte payload -> wf_artifacts a -> decode_record tag payload a = Ok a' -> wf_artifacts a'.
Proof.
  intros Hb [Hs Hh Hm Hc Hr] Hd. destruct a as [sum head ms cred root]. simpl in *.
  unfold decode_record in Hd.
  repeat match type of Hd with (if ?b then _ else _) = _ => destruct b; [|] end; [..|done].
  - unfold decode_execution_summary in Hd. repeat canon_step. simplify_eq.
    constructor; [|done..]. simpl. naive_solver.
  - repeat canon_step. simplify_eq. constructor; [done| |done..]. simpl. intros h [= <-].
    by eapply boundary_encode_decode.
  - repeat canon_step. simplify_eq. constructor; [done| |done..]. simpl. by intros h [= <-].
  - repeat canon_step. simplify_eq. constructor; [done| |done..]. simpl. by intros h [= <-].
  - repeat canon_step. simplify_eq. by constructor.
  - repeat canon_step. simplify_eq. constructor; [done..| |done]. simpl. intros l [= <-].
    by eapply credits_record_encode.
  - repeat canon_step. simplify_eq. constructor; [done..|]. simpl. by intros r [= <-].
Qed.

Lemma decode_records_wf n : forall a cur a' rest,
  Forall byte cur -> wf_artifacts a -> decode_records n a cur = Ok (a', rest) -> wf_artifacts a'.
Proof.
  induction n as [|n IH]; intros a cur a' rest Hb Hwf Hd; cbn [decode_records] in Hd; [by simplify_eq|].
  repeat canon_step. eapply IH; [..|exact Hd]; [done|].
  match goal with Hx : decode_record _ _ _ = Ok _ |- _ => by eapply decode_record_wf in Hx end.
Qed.

Lemma no_artifacts_wf : wf_artifacts no_artifacts.
Proof. by constructor. Qed.

Lemma decode_nonempty extra_data : extra_data <> [] ->
  decode_outbe_block_artifacts extra_data =
  let? _ := rrequire (negb (length extra_data <? 4 + 1 + 1)%nat) (Fatal "block artifacts too short") in
  let? (magic, cur) := take_bytes 4 Panic extra_data in
  let? _ := rrequire (bool_decide (magic = OART_MAGIC))
    (Fatal "unknown non-empty extra_data block artifact") in
  let? (version, cur) := read_be 1 Panic cur in
  let? _ := rrequire (version =? OART_VERSION) (Fatal "unsupported block artifact version") in
  let? (record_count, cur) := read_be 1 Panic cur in
  let? (artifacts, cur) := decode_records (Z.to_nat record_count) no_artifacts cur in
  let? _ := rrequire (bool_decide (cur = [])) (Fatal "trailing bytes in block artifacts") in
  Ok artifacts.
Proof. by destruct extra_data. Qed.

Lemma decode_artifacts_wf input a :
  Forall byte input -> decode_outbe_block_artifacts input = Ok a -> wf_artifacts a.
Proof.
  intros Hb Hd. destruct (decide (input = [])) as [->|Hne]; [injection Hd as <-; apply no_artifacts_wf|].
  rewrite decode_nonempty in Hd by done. clear Hne. repeat canon_step. simplify_eq.
  match goal with Hx : decode_records _ _ _ = Ok _ |- _ =>
    by eapply decode_records_wf in Hx; [|done|apply no_artifacts_wf] end.
Qed.

(** ** Totality *)

Lemma decode_record_no_panic tag payload a : decode_record tag payload a <> Panic.
Proof.
  unfold decode_record, ensure_absent.
  repeat match goal with |- (if ?b then _ else _) <> Panic => destruct b; [|] end;
    [.. |done]; apply no_panic_require; intros _.
  - unfold decode_execution_summary, EXECUTION_SUMMARY_LEN.
    destruct (Nat.eqb_spec (length payload) 32); [|done]. cbn [rrequire rbind]. unfold read_be. by rewrite take_bytes_ok by lia.
  - pose proof (decode_boundary_no_panic payload). by destruct (decode_boundary_payload payload).
  - done.
  - destruct (Nat.ltb_spec (length payload) 8); [done|]. cbn [negb rrequire rbind].
    unfold read_be. rewrite take_bytes_ok by lia. done.
  - apply no_panic_require. rewrite Nat.eqb_eq. unfold TIMESTAMP_MILLIS_PART_LEN. intros. by total_step.
  - pose proof (decode_credits_no_panic payload). by destruct (decode_late_finalize_credits payload).
  - apply no_panic_require. rewrite Nat.eqb_eq. unfold COMPRESSED_ENTITIES_ROOT_PAYLOAD_LEN. intros.
    by do 2 total_step.
Qed.

Lemma decode_records_no_panic n : forall a cur, decode_records n a cur <> Panic.
Proof.
  induction n as [|n IH]; intros a cur; [done|]. cbn [decode_records].
  apply no_panic_require. rewrite negb_true_iff, Nat.ltb_ge. intros Hlen. do 2 total_step.
  match goal with |- rbind (take_bytes ?n ?f ?c) _ <> Panic =>
    destruct (take_bytes n f c) as [[payload rest]| |] eqn:Ht end; cbn [rbind]; [|done|].
  - match goal with |- rbind (decode_record ?t ?p ?a) _ <> Panic =>
      pose proof (decode_record_no_panic t p a); destruct (decode_record t p a) end; [|done..].
    apply IH.
  - by apply take_bytes_no_panic in Ht.
Qed.

Lemma decode_artifacts_no_panic input : decode_outbe_block_artifacts input <> Panic.
Proof.
  destruct (decide (input = [])) as [->|Hne]; [done|]. rewrite decode_nonempty by done. clear Hne.
  apply no_panic_require. rewrite negb_true_iff, Nat.ltb_ge. intros Hlen.
  do 4 total_step. total_step.
  match goal with |- rbind (decode_records ?n ?a ?c) _ <> Panic =>
    pose proof (decode_records_no_panic n a c); destruct (decode_records n a c) as [[]| |] end;
    cbn [rbind]; [|done..]. by apply no_panic_require.
Qed.

(** * Entry points *)

(** What a proposer may supply before execution. *)
Definition prefinal (a : OutbeBlockArtifacts) : OutbeBlockArtifacts :=
  mkArtifacts None (consensus_header_artifact a) 0 (late_finalize_credits a) None.

Lemma encode_normal a : encode_outbe_block_artifacts (normal a) = encode_outbe_block_artifacts a.
Proof. destruct a as [? ? ? [[|c l]|] ?]; reflexivity. Qed.
Lemma prefinal_wf a : wf_artifacts a -> wf_artifacts (prefinal a).
Proof. intros []. by constructor. Qed.
Lemma sanitize_unfold input :
  sanitize_prefinal_outbe_block_artifacts input =
  let? a := decode_outbe_block_artifacts input in
  let? encoded := encode_outbe_block_artifacts (prefinal a) in
  let? _ := rrequire (Z.of_nat (length encoded) <=? OUTBE_MAX_NON_ROOT_ARTIFACT_SIZE)
    (Fatal "pre-final block artifacts exceed reserved extra_data budget") in
  Ok encoded.
Proof. done. Qed.

Lemma sanitize_ok input out a :
  decode_outbe_block_artifacts input = Ok a ->
  sanitize_prefinal_outbe_block_artifacts input = Ok out <->
  encode_outbe_block_artifacts (prefinal a) = Ok out
  /\ Z.of_nat (length out) <= OUTBE_MAX_NON_ROOT_ARTIFACT_SIZE.
Proof.
  intros Hd. rewrite sanitize_unfold, Hd. cbn [rbind]. split.
  - intros He. apply rbind_ok in He as (x & Hx & He). apply rbind_ok in He as ([] & Hmax & [= ->]).
    split; [done|]. by apply rrequire_ok, Z.leb_le in Hmax.
  - intros [-> Hmax]. cbn [rbind]. by rewrite (proj2 (rrequire_iff _ _)) by by apply Z.leb_le.
Qed.

(** C10. Block artifacts survive the wire: what the encoder accepts fits the block's
    extra data and decodes to the same artifacts (an empty batch of credits is
    absent), and decoding arbitrary bytes never panics. *)
Theorem artifacts_roundtrip a bytes input :
  wf_artifacts a -> encode_outbe_block_artifacts a = Ok bytes ->
  decode_outbe_block_artifacts bytes = Ok (normal a)
  /\ Z.of_nat (length bytes) <= OUTBE_MAX_EXTRA_DATA_SIZE
  /\ decode_outbe_block_artifacts input <> Panic.
Proof.
  intros Hwf He. destruct (decode_encode_artifacts a bytes Hwf He).
  split_and!; [done|done|apply decode_artifacts_no_panic].
Qed.

(** Sanitising proposer-supplied bytes yields the canonical encoding of their
    header artifact and credits alone: execution-produced fields are dropped,
    the reserved root record still fits, and sanitising again changes nothing. *)
Theorem sanitize_canonical input out :
  Forall byte input -> sanitize_prefinal_outbe_block_artifacts input = Ok out ->
  exists a, decode_outbe_block_artifacts input = Ok a
  /\ decode_outbe_block_artifacts out = Ok (normal (prefinal a))
  /\ Z.of_nat (length out) + Z.of_nat COMPRESSED_ENTITIES_ROOT_RECORD_LEN <= OUTBE_MAX_EXTRA_DATA_SIZE
  /\ sanitize_prefinal_outbe_block_artifacts out = Ok out.
Proof.
  intros Hb Hs. destruct (decode_outbe_block_artifacts input) as [a| |] eqn:Hd;
    [|by rewrite sanitize_unfold, Hd in Hs..].
  exists a. destruct (proj1 (sanitize_ok _ out _ Hd) Hs) as [He Hmax].
  pose proof (decode_artifacts_wf _ _ Hb Hd) as Hwf.
  destruct (decode_encode_artifacts _ _ (prefinal_wf _ Hwf) He) as [Hd2 _].
  split_and!; [done|done|unfold OUTBE_MAX_NON_ROOT_ARTIFACT_SIZE in *; lia|].
  apply (sanitize_ok _ _ _ Hd2). split; [|done].
  change (prefinal (normal (prefinal a))) with (normal (prefinal a)). by rewrite encode_normal.
Qed.

(** The bodies of the two system transactions. *)
Lemma late_body_roundtrip l body :
  Forall wf_credit l -> encode_late_finalize_credits_artifact l = Ok body ->
  exists found, decode_late_finalize_credits_artifact body = Ok found /\ default [] found = l.
Proof.
  intros Hwf He. unfold encode_late_finalize_credits_artifact, decode_late_finalize_credits_artifact in *.
  apply decode_encode_artifacts in He as [-> _]; [|constructor; simpl; try done; naive_solver].
  eexists. split; [done|]. by destruct l.
Qed.
Lemma boundary_body_roundtrip b body :
  wf_boundary b -> encode_boundary_artifact b = Ok body ->
  decode_boundary_artifact body = Ok (Some b).
Proof.
  intros Hwf He. unfold encode_boundary_artifact, encode_consensus_header_artifact in He.
  apply rbind_ok in He as (first & Hf & Hs).
  set (a := mkArtifacts None (Some (BoundaryOutcomeArtifact b)) 0 None None) in *.
  assert (Ha : wf_artifacts a) by (constructor; simpl; try done; by intros h [= <-]).
  destruct (decode_encode_artifacts _ _ Ha Hf) as [Hd _].
  destruct (proj1 (sanitize_ok _ body _ Hd) Hs) as [He _].
  destruct (decode_encode_artifacts (prefinal (normal a)) body (prefinal_wf _ Ha) He) as [Hd2 _].
  unfold decode_boundary_artifact, decode_consensus_header_artifact. by rewrite Hd2.
Qed.
Lemma late_body_no_panic body : decode_late_finalize_credits_artifact body <> Panic.
Proof.
  unfold decode_late_finalize_credits_artifact. pose proof (decode_artifacts_no_panic body).
  by destruct (decode_outbe_block_artifacts body).
Qed.
Lemma boundary_body_no_panic body : decode_boundary_artifact body <> Panic.
Proof.
  unfold decode_boundary_artifact, decode_consensus_header_artifact.
  pose proof (decode_artifacts_no_panic body). destruct (decode_outbe_block_artifacts body); [|done..].
  simpl. by repeat case_match.
Qed.
End Codec.

(** * Witnesses *)

(** A block with every kind of record: a boundary outcome that excludes one
    validator, credits for two blocks, a fee sum, milliseconds and a root. *)
Section Example.

Definition sum_keccak : Keccak := fun bytes => be_value bytes mod 2 ^ 256.
#[local] Existing Instance sum_keccak.

Definition example_credit (number : Z) : PerBlockCredit :=
  mkCredit number 7 2 20 19 11 [5; 1] (repeat 9 96).
Definition example_boundary : DkgBoundaryArtifact :=
  mkBoundary 2 4 100 120 13 3 17 [1; 2; 3] 11 true [4; 5] false (mkReshare [0xaa; 0xbb] 19)
    [(0xaa, 23); (0xbb, 29)] [0xcc]
    (be_value (TEE_EXPIRED_TARGET_EXCLUSIONS_DOMAIN ++ be_bytes 2 1 ++ be_bytes 20 0xcc) mod 2 ^ 256).
Definition example_artifacts : OutbeBlockArtifacts :=
  mkArtifacts (Some 1000) (Some (BoundaryOutcomeArtifact example_boundary)) 250
    (Some [example_credit 118; example_credit 119]) (Some (mkRoot 1 31)).
Definition example_bytes : list Z :=
  match encode_outbe_block_artifacts example_artifacts with Ok bytes => bytes | _ => [] end.
Definition example_sanitized : list Z :=
  match sanitize_prefinal_outbe_block_artifacts example_bytes with Ok bytes => bytes | _ => [] end.

Lemma fits_check n z : (0 <=? z) && (z <? 256 ^ Z.of_nat n) = true -> fits n z.
Proof. unfold fits. intros. bprop. lia. Qed.
Lemma bytes_check l : forallb (fun b => (0 <=? b) && (b <? 256)) l = true -> Forall byte l.
Proof.
  induction l as [|b l IH]; simpl; [constructor|]. intros Hl. bprop. constructor; [unfold byte; lia|].
  by apply IH.
Qed.

Lemma example_credit_wf number : fits 8 number -> wf_credit (example_credit number).
Proof.
  intros Hn. constructor; try (apply fits_check; reflexivity); [done|by apply bytes_check|].
  split; [reflexivity|by apply bytes_check].
Qed.
Lemma example_wf : wf_artifacts example_artifacts.
Proof.
  constructor.
  - intros fee [= <-]. by apply fits_check.
  - intros h [= <-]. constructor; try (by apply fits_check); try (by apply bytes_check);
      repeat (constructor; [first [by apply fits_check|split; by apply fits_check]|]); constructor.
  - by apply fits_check.
  - intros l [= <-]. repeat (constructor; [by apply example_credit_wf, fits_check|]). constructor.
  - intros r [= <-]. by split; apply fits_check.
Qed.

Lemma artifacts_roundtrip_witness :
  decode_outbe_block_artifacts example_bytes = Ok example_artifacts
  /\ Z.of_nat (length example_bytes) = 876.
Proof.
  split; [|vm_compute; reflexivity].
  refine (proj1 (artifacts_roundtrip example_artifacts example_bytes [] example_wf _)).
  vm_compute. reflexivity.
Defined.

Lemma sanitize_canonical_witness :
  sanitize_prefinal_outbe_block_artifacts example_sanitized = Ok example_sanitized.
Proof.
  destruct (sanitize_canonical example_bytes example_sanitized) as (a & _ & _ & _ & Hs);
    [apply bytes_check; vm_compute; reflexivity|vm_compute; reflexivity|exact Hs].
Defined.
End Example.
