(* ===== verification/TeeAttestation.v ===== *)
(** The TEE attestation protocol: the canonical messages of
    [crates/blockchain/primitives/src/tee_attestation_v1.rs] (network binding,
    trusted descriptor, node identity, validator binding, host authorization,
    initialization manifest, registration intent, DCAP and development evidence,
    policies and their schedule, gas and resource schedules) with their
    validation, domain-separated hashes and gas charges, and the signature
    recovery of [tee_signatures.rs].

    A 32-byte key or hash is its big-endian value; signatures and the compressed
    node key stay byte strings. Curve operations are the class [TeeCrypto]. *)

From stdpp Require Import sorting.
From S2P Require Import Prelude Bytes Wire.

(** * Errors and the decoder *)

Inductive CodecError : Type :=
  | UnexpectedEof
  | UnsupportedVersion (field : string) (value : Z)
  | UnknownDiscriminant (field : string) (value : Z)
  | LimitExceeded (field : string) (limit actual : Z)
  | NonCanonical (msg : string)
  | TrailingBytes (n : Z)
  | ArithmeticOverflow
  | ChainIdentityMismatch.
#[global] Instance CodecError_eq_dec : EqDecision CodecError.
Proof. solve_decision. Defined.

Abbreviation codec A := (CodecError + A)%type (only parsing).
(** A decoder runs on the input from its position on. *)
Definition tee_decoder (A : Type) : Type := list Z -> codec (A * list Z).

Definition zlen (l : list Z) : Z := Z.of_nat (length l).

Definition PROTOCOL_VERSION_V1 : Z := 1.

Definition enforce_limit (field : string) (limit actual : Z) : codec unit :=
  erequire (actual <=? limit) (LimitExceeded field limit actual).

Definition d_take (len : nat) : tee_decoder (list Z) := fun cur =>
  if (length cur <? len)%nat then inl UnexpectedEof else inr (take len cur, drop len cur).
(** An integer or 32-byte word of [len] bytes. *)
Definition d_word (len : nat) : tee_decoder Z := fun cur =>
  let+ (bytes, cur) := d_take len cur in inr (be_value bytes, cur).
Definition d_u8 : tee_decoder Z := d_word 1.
Definition d_version (field : string) : tee_decoder unit := fun cur =>
  let+ (value, cur) := d_u8 cur in
  let+ _ := erequire (value =? PROTOCOL_VERSION_V1) (UnsupportedVersion field value) in
  inr (tt, cur).
Definition d_declared_len (field : string) (limit : Z) : tee_decoder nat := fun cur =>
  let+ (actual, cur) := d_word 4 cur in
  let+ _ := enforce_limit field limit actual in
  let+ _ := erequire (actual <=? zlen cur) UnexpectedEof in
  inr (Z.to_nat actual, cur).
Definition d_finish (cur : list Z) : codec unit :=
  erequire (bool_decide (cur = [])) (TrailingBytes (zlen cur)).

(** * Arithmetic and writing *)

Definition checked_add_usize (l r : Z) : codec Z := eok_or (checked_add u64_max l r) ArithmeticOverflow.
Definition tee_checked_mul (l r : Z) : codec Z := eok_or (checked_mul u64_max l r) ArithmeticOverflow.
Definition checked_sum (values : list Z) : codec Z :=
  foldl (fun acc v => let+ sum := acc in eok_or (checked_add u64_max sum v) ArithmeticOverflow)
    (inr 0) values.
(** [u16::try_from] and [u32::try_from] of a length. *)
Definition put_len_u16 (n : Z) : codec (list Z) :=
  let+ _ := erequire (n <=? 2 ^ 16 - 1) ArithmeticOverflow in inr (be_bytes 2 n).
Definition put_len_u32 (n : Z) : codec (list Z) :=
  let+ _ := erequire (n <=? u32_max) ArithmeticOverflow in inr (be_bytes 4 n).

(** * Constants *)

Definition MAX_NODE_HOST_AUTHORIZATION_WITNESS_BYTES : Z := 136.
Definition MAX_QUOTE_BYTES : Z := 16 * 1024.
Definition MAX_COLLATERAL_COMPONENT_BYTES : Z := 896 * 1024.
Definition MAX_ATTESTATION_EVIDENCE_BYTES : Z := 896 * 1024.
Definition MAX_EVIDENCE_CALL_FRAMING_BYTES : Z := 16 * 1024.
Definition MAX_ACTIVE_MEASUREMENT_RULES : Z := 64.
Definition MAX_TEE_POLICY_BYTES : Z := 32 * 1024.
Definition MAX_TEE_POLICY_SCHEDULE_ENTRIES : Z := 64.
Definition MAX_TEE_BOOTSTRAP_BYTES : Z := 1310720.
Definition MAX_TEE_POLICY_SCHEDULE_BYTES : Z :=
  1 + 32 + 32 + 2 + MAX_TEE_POLICY_SCHEDULE_ENTRIES * (8 + 4 + MAX_TEE_POLICY_BYTES + 32).
(** Of system_tx.rs. *)
Definition BOOTSTRAP_BLOCK_GAS_LIMIT : Z := 500000000.
Definition STEADY_BLOCK_GAS_LIMIT : Z := 30000000.
Definition SYSTEM_TX_VISIBLE_GAS_FLOOR : Z := 21000.
Definition SYSTEM_TX_NON_ZERO_BYTE_GAS : Z := 16.

(** Domains of the hashes. *)
Definition POLICY_DOMAIN_V1 : list Z := string_bytes "outbe/tee/policy/v1".
Definition POLICY_SCHEDULE_DOMAIN_V1 : list Z := string_bytes "outbe/tee/policy-schedule/v1".
Definition TEE_REGISTRY_GAS_SCHEDULE_DOMAIN_V1 : list Z := string_bytes "outbe/tee-registry-gas-schedule/v1".
Definition SYSTEM_GAS_SCHEDULE_DOMAIN_V1 : list Z := string_bytes "outbe/system-gas-schedule/v1".
Definition RESOURCE_SCHEDULE_DOMAIN_V1 : list Z := string_bytes "outbe/resource-schedule/v1".
Definition NODE_ID_DOMAIN_V1 : list Z := string_bytes "outbe/tee/node-id/v1".
Definition VALIDATOR_NODE_BINDING_DOMAIN_V1 : list Z := string_bytes "outbe/tee/validator-node-binding/v1".
Definition REGISTRATION_INTENT_DOMAIN_V1 : list Z := string_bytes "outbe/tee/registration-intent/v1".
Definition ATTESTATION_EVIDENCE_DOMAIN_V1 : list Z := string_bytes "outbe/tee/attestation-evidence/v1".
Definition ENCLAVE_ID_DOMAIN_V1 : list Z := string_bytes "outbe/tee/enclave-id/v1".
Definition INITIALIZATION_MANIFEST_DOMAIN_V1 : list Z := string_bytes "outbe/tee/initialization-manifest/v1".
Definition NODE_HOST_AUTHORIZATION_DOMAIN_V1 : list Z := string_bytes "outbe/tee/node-host-authorization/v1".
Definition NETWORK_BINDING_DOMAIN_V1 : list Z := string_bytes "outbe/tee/network-binding/v1".
Definition TRUSTED_NETWORK_DESCRIPTOR_DOMAIN_V1 : list Z :=
  string_bytes "outbe/tee/trusted-network-descriptor/v1".
Definition DKG_PARTICIPANT_SET_DOMAIN_V1 : list Z := string_bytes "outbe/tee/dkg-participant-set/v1".
Definition DKG_CEREMONY_DOMAIN_V1 : list Z := string_bytes "outbe/tee/dkg-ceremony/v1".
Definition DKG_PARTICIPANT_ANNOUNCE_DOMAIN_V1 : list Z :=
  string_bytes "outbe/tee/dkg-participant-announce/v1".
Definition TRANSITION_KEY_READY_PROOF_DOMAIN_V1 : list Z :=
  string_bytes "outbe/tee/transition-key-ready-proof/v1".
Definition REPORT_POLICY_DOMAIN_V1 : list Z := string_bytes "outbe/tee/report-policy/v1".

(** * External cryptography *)

Class TeeCrypto := {
  (** [k256::PublicKey::from_sec1_bytes(..).is_ok()]. *)
  public_key_from_sec1 : list Z -> bool;
  (** [RecoveryId::from_byte(..).is_some()] and [Signature::from_slice(..).is_ok()]. *)
  recovery_id_from_byte : Z -> bool;
  ecdsa_signature_from_slice : list Z -> bool;
  (** [VerifyingKey::recover_from_prehash], as the compressed encoding of the key. *)
  recover_from_prehash : B256 -> list Z -> Z -> option (list Z);
  (** [VerifyingKey::from_sec1_bytes], as the uncompressed encoding of the key. *)
  uncompressed_point : list Z -> option (list Z);
  (** [ring] ED25519. *)
  ed25519_verify : B256 -> list Z -> list Z -> bool }.

Section Tee.
Context {H : Keccak} {E : TeeCrypto}.

Definition domain_hash (domain canonical : list Z) : B256 := keccak256 (domain ++ canonical).

(** ** Signature recovery (tee_signatures.rs) *)

(** The last byte of a 65-byte signature is the recovery id. *)
Definition recover_signer_public_key (prehash : B256) (signature : list Z) : result (list Z) :=
  let recid_byte := default 0 (signature !! 64%nat) in
  let normalized := if (recid_byte =? 27) || (recid_byte =? 28) then recid_byte - 27 else recid_byte in
  let? _ := rrequire (recovery_id_from_byte normalized)
    (Revert "recoverable signature has invalid recovery id") in
  let? _ := rrequire (ecdsa_signature_from_slice (take 64 signature))
    (Revert "recoverable signature is malformed") in
  let? encoded := ok_or (recover_from_prehash prehash (take 64 signature) normalized)
    (Revert "signature recovery failed") in
  let? _ := rrequire (length encoded =? 33)%nat
    (Revert "recovered compressed public key is not 33 bytes") in
  Ok encoded.

Definition recover_signer (prehash : B256) (signature : list Z) : result Address :=
  let? compressed := recover_signer_public_key prehash signature in
  let? encoded := ok_or (uncompressed_point compressed) (Revert "recovered key decode failed") in
  Ok (keccak256 (drop 1 encoded) mod 2 ^ 160).

(** ** Attestation mode and operation *)

Inductive AttestationMode : Type := DcapRequired | GramineDirectDev.
#[global] Instance AttestationMode_eq_dec : EqDecision AttestationMode.
Proof. solve_decision. Defined.
Definition mode_id (m : AttestationMode) : Z := match m with DcapRequired => 1 | GramineDirectDev => 2 end.
Definition AttestationMode_decode (value : Z) : codec AttestationMode :=
  if value =? 1 then inr DcapRequired
  else if value =? 2 then inr GramineDirectDev
  else inl (UnknownDiscriminant "attestation mode" value).

Inductive AttestationOperationV1 : Type :=
  | RegisterEnclave | RenewEnclave | TransitionEnclaveMeasurement | ReplaceEnclaveBinding.
#[global] Instance AttestationOperationV1_eq_dec : EqDecision AttestationOperationV1.
Proof. solve_decision. Defined.
Definition operation_id (o : AttestationOperationV1) : Z :=
  match o with
  | RegisterEnclave => 1 | RenewEnclave => 2
  | TransitionEnclaveMeasurement => 3 | ReplaceEnclaveBinding => 4
  end.
Definition AttestationOperationV1_decode (value : Z) : codec AttestationOperationV1 :=
  if value =? 1 then inr RegisterEnclave
  else if value =? 2 then inr RenewEnclave
  else if value =? 3 then inr TransitionEnclaveMeasurement
  else if value =? 4 then inr ReplaceEnclaveBinding
  else inl (UnknownDiscriminant "attestation operation" value).

(** ** Network binding *)

Record NetworkBindingV1 : Type := mkNetworkBinding {
  nb_chain_id : B256;
  nb_genesis_hash : B256;
  nb_mode : AttestationMode }.
Definition NetworkBindingV1_CANONICAL_LEN : nat := 1 + 32 + 32 + 1.

Definition NetworkBindingV1_validate (b : NetworkBindingV1) : codec unit :=
  erequire (negb ((nb_chain_id b =? 0) || (nb_genesis_hash b =? 0)))
    (NonCanonical "network binding contains a zero chain identity").
Definition NetworkBindingV1_encode (b : NetworkBindingV1) : codec (list Z) :=
  let+ _ := NetworkBindingV1_validate b in
  inr ([PROTOCOL_VERSION_V1] ++ be_bytes 32 (nb_chain_id b) ++ be_bytes 32 (nb_genesis_hash b)
       ++ [mode_id (nb_mode b)]).
Definition NetworkBindingV1_decode (input : list Z) : codec NetworkBindingV1 :=
  let+ (_, cur) := d_version "NetworkBindingV1" input in
  let+ (chain_id, cur) := d_word 32 cur in
  let+ (genesis_hash, cur) := d_word 32 cur in
  let+ (mode, cur) := d_u8 cur in
  let+ mode := AttestationMode_decode mode in
  let value := mkNetworkBinding chain_id genesis_hash mode in
  let+ _ := d_finish cur in
  let+ _ := NetworkBindingV1_validate value in
  inr value.
Definition NetworkBindingV1_hash (b : NetworkBindingV1) : codec B256 :=
  let+ bytes := NetworkBindingV1_encode b in inr (domain_hash NETWORK_BINDING_DOMAIN_V1 bytes).

(** ** Trusted network descriptor *)

Record TrustedNetworkDescriptorV1 : Type := mkDescriptor {
  network_binding : NetworkBindingV1;
  genesis_consensus_keys : list Z }.
Definition FIXED_CANONICAL_LEN : nat := NetworkBindingV1_CANONICAL_LEN + 2.
Definition MAX_GENESIS_CONSENSUS_KEYS : Z := 256.

(** [windows(2).any(|pair| pair[0] >= pair[1])]. *)
Fixpoint keys_ascending (l : list Z) : bool :=
  match l with
  | a :: (b :: _) as rest => negb (b <=? a) && keys_ascending rest
  | _ => true
  end.

Definition TrustedNetworkDescriptorV1_validate (d : TrustedNetworkDescriptorV1) : codec unit :=
  let+ _ := NetworkBindingV1_validate (network_binding d) in
  let+ _ := erequire (bool_decide (nb_mode (network_binding d) = DcapRequired))
    (NonCanonical "trusted production network descriptor is not DCAP-required") in
  let count := zlen (genesis_consensus_keys d) in
  let+ _ := erequire (negb ((count =? 0) || (MAX_GENESIS_CONSENSUS_KEYS <? count)))
    (NonCanonical "trusted network descriptor genesis committee size") in
  erequire (keys_ascending (genesis_consensus_keys d))
    (NonCanonical "trusted network descriptor genesis committee order").

(** The length is cast to [u16]. *)
Definition TrustedNetworkDescriptorV1_encode (d : TrustedNetworkDescriptorV1) : codec (list Z) :=
  let+ _ := TrustedNetworkDescriptorV1_validate d in
  let+ out := NetworkBindingV1_encode (network_binding d) in
  inr (out ++ be_bytes 2 (zlen (genesis_consensus_keys d) mod 2 ^ 16)
       ++ concat (be_bytes 48 <$> genesis_consensus_keys d)).

(** [count] reads of one decoder. *)
Fixpoint d_repeat {A} (count : nat) (d : tee_decoder A) : tee_decoder (list A) := fun cur =>
  match count with
  | O => inr ([], cur)
  | S count' =>
      let+ (a, cur) := d cur in
      let+ (rest, cur) := d_repeat count' d cur in
      inr (a :: rest, cur)
  end.

Definition TrustedNetworkDescriptorV1_decode (input : list Z) : codec TrustedNetworkDescriptorV1 :=
  let+ _ := erequire (negb (length input <? FIXED_CANONICAL_LEN)%nat)
    (NonCanonical "trusted network descriptor length") in
  let cur := drop NetworkBindingV1_CANONICAL_LEN input in
  let+ binding := NetworkBindingV1_decode (take NetworkBindingV1_CANONICAL_LEN input) in
  let+ (key_count, cur) := d_word 2 cur in
  let+ _ := erequire (negb ((key_count =? 0) || (MAX_GENESIS_CONSENSUS_KEYS <? key_count)))
    (NonCanonical "trusted network descriptor genesis committee size") in
  let+ (keys, cur) := d_repeat (Z.to_nat key_count) (d_word 48) cur in
  let+ _ := d_finish cur in
  let value := mkDescriptor binding keys in
  let+ _ := TrustedNetworkDescriptorV1_validate value in
  inr value.
Definition TrustedNetworkDescriptorV1_hash (d : TrustedNetworkDescriptorV1) : codec B256 :=
  let+ bytes := TrustedNetworkDescriptorV1_encode d in
  inr (domain_hash TRUSTED_NETWORK_DESCRIPTOR_DOMAIN_V1 bytes).

(** ** DKG hashes *)

Definition bytes_le (a b : list Z) : Prop := bytes_leb a b = true.
#[global] Instance bytes_le_dec : RelDecision bytes_le.
Proof. intros a b. unfold bytes_le. apply _. Defined.

Fixpoint has_adjacent_equal (l : list (list Z)) : bool :=
  match l with
  | a :: (b :: _) as rest => bool_decide (a = b) || has_adjacent_equal rest
  | _ => false
  end.
Definition dkg_key_bytes (key : list Z) : codec (list Z) :=
  let+ len := put_len_u32 (zlen key) in inr (len ++ key).

Definition dkg_participant_set_hash_v1 (participant_bls : list (list Z)) : codec B256 :=
  let+ _ := erequire (negb (bool_decide (participant_bls = []))) (NonCanonical "empty DKG participant set") in
  let ordered := merge_sort bytes_le participant_bls in
  let+ _ := erequire (negb (has_adjacent_equal ordered)) (NonCanonical "duplicate DKG participant identity") in
  let+ count := put_len_u32 (Z.of_nat (length ordered)) in
  let+ keys := emap ordered dkg_key_bytes in
  inr (domain_hash DKG_PARTICIPANT_SET_DOMAIN_V1 (count ++ concat keys)).

Definition dkg_ceremony_id_v1 (binding : NetworkBindingV1) (round : Z) (participant_set_hash : B256) :
    codec B256 :=
  let+ _ := erequire (negb (participant_set_hash =? 0)) (NonCanonical "zero DKG participant set hash") in
  let+ encoded := NetworkBindingV1_encode binding in
  inr (domain_hash DKG_CEREMONY_DOMAIN_V1
         (encoded ++ be_bytes 8 round ++ be_bytes 32 participant_set_hash)).

Definition dkg_participant_announce_hash_v1 (binding : NetworkBindingV1) (ceremony_id : B256) (round : Z)
    (participant_set_hash dkg_enc_pub : B256) : codec B256 :=
  let+ expected_ceremony := dkg_ceremony_id_v1 binding round participant_set_hash in
  let+ _ := erequire (ceremony_id =? expected_ceremony) (NonCanonical "non-canonical DKG ceremony id") in
  let+ encoded := NetworkBindingV1_encode binding in
  inr (domain_hash DKG_PARTICIPANT_ANNOUNCE_DOMAIN_V1
         (encoded ++ be_bytes 32 ceremony_id ++ be_bytes 8 round ++ be_bytes 32 participant_set_hash
          ++ be_bytes 32 dkg_enc_pub)).

(** ** Node identity *)

Record NodeIdV1 : Type := mkNodeId { reth_p2p_public : list Z }.
#[global] Instance NodeIdV1_eq_dec : EqDecision NodeIdV1.
Proof. solve_decision. Defined.

Definition NodeIdV1_validate (n : NodeIdV1) : codec unit :=
  let key := reth_p2p_public n in
  let head := default 0 (key !! 0%nat) in
  erequire (((head =? 2) || (head =? 3)) && negb (bool_decide (drop 1 key = replicate 32 0))
            && public_key_from_sec1 key)
    (NonCanonical "node id is not canonical compressed secp256k1").
Definition NodeIdV1_bytes (n : NodeIdV1) : list Z :=
  [PROTOCOL_VERSION_V1] ++ be_bytes 4 33 ++ reth_p2p_public n.
Definition NodeIdV1_encode (n : NodeIdV1) : codec (list Z) :=
  let+ _ := NodeIdV1_validate n in inr (NodeIdV1_bytes n).
Definition NodeIdV1_decode_from : tee_decoder NodeIdV1 := fun cur =>
  let+ (_, cur) := d_version "NodeIdV1" cur in
  let+ (payload_len, cur) := d_declared_len "node id payload" 33 cur in
  let+ _ := erequire (payload_len =? 33)%nat (NonCanonical "node id length") in
  let+ (key, cur) := d_take 33 cur in
  let value := mkNodeId key in
  let+ _ := NodeIdV1_validate value in
  inr (value, cur).
Definition NodeIdV1_decode (input : list Z) : codec NodeIdV1 :=
  let+ (value, cur) := NodeIdV1_decode_from input in
  let+ _ := d_finish cur in
  inr value.
Definition node_id_hash (n : NodeIdV1) : codec B256 :=
  let+ bytes := NodeIdV1_encode n in inr (domain_hash NODE_ID_DOMAIN_V1 bytes).

(** ** Validator binding *)

Record ValidatorNodeBindingV1 : Type := mkBinding {
  vb_chain_id : B256;
  vb_genesis_hash : B256;
  vb_validator : Address;
  vb_node_id_hash : B256 }.
Definition ValidatorNodeBindingV1_CANONICAL_LEN : nat := 1 + 32 + 32 + 20 + 32.

Definition ValidatorNodeBindingV1_validate (b : ValidatorNodeBindingV1) : codec unit :=
  erequire (negb ((vb_chain_id b =? 0) || (vb_genesis_hash b =? 0) || (vb_validator b =? 0)
                  || (vb_node_id_hash b =? 0)))
    (NonCanonical "validator NodeHost binding contains a zero identity or commitment").
Definition ValidatorNodeBindingV1_encode (b : ValidatorNodeBindingV1) : codec (list Z) :=
  let+ _ := ValidatorNodeBindingV1_validate b in
  inr ([PROTOCOL_VERSION_V1] ++ be_bytes 32 (vb_chain_id b) ++ be_bytes 32 (vb_genesis_hash b)
       ++ be_bytes 20 (vb_validator b) ++ be_bytes 32 (vb_node_id_hash b)).
Definition ValidatorNodeBindingV1_decode (input : list Z) : codec ValidatorNodeBindingV1 :=
  let+ _ := erequire (length input =? ValidatorNodeBindingV1_CANONICAL_LEN)%nat
    (NonCanonical "validator NodeHost binding length") in
  let+ (_, cur) := d_version "ValidatorNodeBindingV1" input in
  let+ (chain_id, cur) := d_word 32 cur in
  let+ (genesis_hash, cur) := d_word 32 cur in
  let+ (validator, cur) := d_word 20 cur in
  let+ (node_id_hash, cur) := d_word 32 cur in
  let value := mkBinding chain_id genesis_hash validator node_id_hash in
  let+ _ := d_finish cur in
  let+ _ := ValidatorNodeBindingV1_validate value in
  inr value.
Definition ValidatorNodeBindingV1_hash (b : ValidatorNodeBindingV1) : codec B256 :=
  let+ bytes := ValidatorNodeBindingV1_encode b in
  inr (domain_hash VALIDATOR_NODE_BINDING_DOMAIN_V1 bytes).
Definition ValidatorNodeBindingV1_validate_chain_identity (b : ValidatorNodeBindingV1)
    (chain_id genesis_hash : B256) : codec unit :=
  erequire ((vb_chain_id b =? chain_id) && (vb_genesis_hash b =? genesis_hash)) ChainIdentityMismatch.
Definition verify_validator_signature (b : ValidatorNodeBindingV1) (signature : list Z) : bool :=
  match ValidatorNodeBindingV1_hash b with
  | inl _ => false
  | inr hash => match recover_signer hash signature with
                | Ok recovered => recovered =? vb_validator b
                | _ => false
                end
  end.
Definition binding_verify_node_signature (b : ValidatorNodeBindingV1) (signature : list Z) : bool :=
  match ValidatorNodeBindingV1_hash b with
  | inl _ => false
  | inr hash => match recover_signer_public_key hash signature with
                | Ok key => match node_id_hash (mkNodeId key) with
                            | inr recovered => recovered =? vb_node_id_hash b
                            | inl _ => false
                            end
                | _ => false
                end
  end.

(** ** Initialization manifest and host authorization *)

Record NodeHostAuthorizationWitnessV1 : Type := mkWitness {
  nw_chain_id : B256;
  nw_genesis_hash : B256;
  nw_mode : AttestationMode;
  nw_node_id : NodeIdV1;
  nw_node_host_noise_x25519 : B256 }.

Definition NodeHostAuthorizationWitnessV1_validate (w : NodeHostAuthorizationWitnessV1) : codec unit :=
  let+ _ := NodeIdV1_validate (nw_node_id w) in
  erequire (negb ((nw_chain_id w =? 0) || (nw_genesis_hash w =? 0) || (nw_node_host_noise_x25519 w =? 0)))
    (NonCanonical "NodeHost authorization witness contains a zero identity or commitment").
Definition NodeHostAuthorizationWitnessV1_encode (w : NodeHostAuthorizationWitnessV1) : codec (list Z) :=
  let+ _ := NodeHostAuthorizationWitnessV1_validate w in
  let out := [PROTOCOL_VERSION_V1] ++ be_bytes 32 (nw_chain_id w) ++ be_bytes 32 (nw_genesis_hash w)
    ++ [mode_id (nw_mode w)] ++ NodeIdV1_bytes (nw_node_id w)
    ++ be_bytes 32 (nw_node_host_noise_x25519 w) in
  let+ _ := enforce_limit "NodeHost authorization witness" MAX_NODE_HOST_AUTHORIZATION_WITNESS_BYTES
    (zlen out) in
  inr out.
Definition NodeHostAuthorizationWitnessV1_decode (input : list Z) : codec NodeHostAuthorizationWitnessV1 :=
  let+ _ := enforce_limit "NodeHost authorization witness" MAX_NODE_HOST_AUTHORIZATION_WITNESS_BYTES
    (zlen input) in
  let+ (_, cur) := d_version "NodeHostAuthorizationWitnessV1" input in
  let+ (chain_id, cur) := d_word 32 cur in
  let+ (genesis_hash, cur) := d_word 32 cur in
  let+ (mode, cur) := d_u8 cur in
  let+ mode := AttestationMode_decode mode in
  let+ (node_id, cur) := NodeIdV1_decode_from cur in
  let+ (noise, cur) := d_word 32 cur in
  let value := mkWitness chain_id genesis_hash mode node_id noise in
  let+ _ := d_finish cur in
  let+ _ := NodeHostAuthorizationWitnessV1_validate value in
  inr value.
Definition NodeHostAuthorizationWitnessV1_hash (w : NodeHostAuthorizationWitnessV1) : codec B256 :=
  let+ bytes := NodeHostAuthorizationWitnessV1_encode w in
  inr (domain_hash NODE_HOST_AUTHORIZATION_DOMAIN_V1 bytes).

Record EnclaveInitializationManifestV1 : Type := mkManifest {
  im_chain_id : B256;
  im_genesis_hash : B256;
  im_mode : AttestationMode;
  im_node_id : NodeIdV1;
  initialization_challenge : B256;
  im_node_host_noise_x25519 : B256;
  im_recipient_x25519 : B256;
  im_attestation_ed25519 : B256;
  im_noise_responder_x25519 : B256 }.

Definition manifest_network_binding (m : EnclaveInitializationManifestV1) : NetworkBindingV1 :=
  mkNetworkBinding (im_chain_id m) (im_genesis_hash m) (im_mode m).
Definition EnclaveInitializationManifestV1_validate (m : EnclaveInitializationManifestV1) : codec unit :=
  let+ _ := NodeIdV1_validate (im_node_id m) in
  erequire (negb ((im_chain_id m =? 0) || (im_genesis_hash m =? 0) || (initialization_challenge m =? 0)
                  || (im_node_host_noise_x25519 m =? 0) || (im_recipient_x25519 m =? 0)
                  || (im_attestation_ed25519 m =? 0) || (im_noise_responder_x25519 m =? 0)))
    (NonCanonical "initialization manifest contains a zero identity or commitment").
Definition EnclaveInitializationManifestV1_encode (m : EnclaveInitializationManifestV1) : codec (list Z) :=
  let+ _ := EnclaveInitializationManifestV1_validate m in
  inr ([PROTOCOL_VERSION_V1] ++ be_bytes 32 (im_chain_id m) ++ be_bytes 32 (im_genesis_hash m)
       ++ [mode_id (im_mode m)] ++ NodeIdV1_bytes (im_node_id m)
       ++ be_bytes 32 (initialization_challenge m) ++ be_bytes 32 (im_node_host_noise_x25519 m)
       ++ be_bytes 32 (im_recipient_x25519 m) ++ be_bytes 32 (im_attestation_ed25519 m)
       ++ be_bytes 32 (im_noise_responder_x25519 m)).
Definition EnclaveInitializationManifestV1_decode (input : list Z) : codec EnclaveInitializationManifestV1 :=
  let+ (_, cur) := d_version "EnclaveInitializationManifestV1" input in
  let+ (chain_id, cur) := d_word 32 cur in
  let+ (genesis_hash, cur) := d_word 32 cur in
  let+ (mode, cur) := d_u8 cur in
  let+ mode := AttestationMode_decode mode in
  let+ (node_id, cur) := NodeIdV1_decode_from cur in
  let+ (challenge, cur) := d_word 32 cur in
  let+ (host_noise, cur) := d_word 32 cur in
  let+ (recipient, cur) := d_word 32 cur in
  let+ (attestation, cur) := d_word 32 cur in
  let+ (responder, cur) := d_word 32 cur in
  let value := mkManifest chain_id genesis_hash mode node_id challenge host_noise recipient attestation
    responder in
  let+ _ := d_finish cur in
  let+ _ := EnclaveInitializationManifestV1_validate value in
  inr value.
Definition manifest_authorization_hash (m : EnclaveInitializationManifestV1) : codec B256 :=
  let+ bytes := EnclaveInitializationManifestV1_encode m in
  inr (domain_hash INITIALIZATION_MANIFEST_DOMAIN_V1 bytes).
Definition witness_from_manifest (m : EnclaveInitializationManifestV1) : codec NodeHostAuthorizationWitnessV1 :=
  let+ _ := EnclaveInitializationManifestV1_validate m in
  inr (mkWitness (im_chain_id m) (im_genesis_hash m) (im_mode m) (im_node_id m)
         (im_node_host_noise_x25519 m)).
Definition node_host_authorization_hash_of (m : EnclaveInitializationManifestV1) : codec B256 :=
  let+ w := witness_from_manifest m in NodeHostAuthorizationWitnessV1_hash w.

(** The identity of the three persistent keys. *)
Definition enclave_id_of_keys (recipient attestation responder : B256) : B256 :=
  domain_hash ENCLAVE_ID_DOMAIN_V1 (be_bytes 32 recipient ++ be_bytes 32 attestation ++ be_bytes 32 responder).
Definition manifest_enclave_id (m : EnclaveInitializationManifestV1) : codec B256 :=
  let+ _ := EnclaveInitializationManifestV1_validate m in
  inr (enclave_id_of_keys (im_recipient_x25519 m) (im_attestation_ed25519 m) (im_noise_responder_x25519 m)).

(** The node key signed a hash. *)
Definition signed_by_node (hash : codec B256) (node : NodeIdV1) (signature : list Z) : bool :=
  match hash with
  | inl _ => false
  | inr hash => match recover_signer_public_key hash signature with
                | Ok recovered => bool_decide (recovered = reth_p2p_public node)
                | _ => false
                end
  end.
Definition manifest_verify_node_signature (m : EnclaveInitializationManifestV1) (signature : list Z) : bool :=
  signed_by_node (manifest_authorization_hash m) (im_node_id m) signature.

(** ** Registration intent *)

Record RegistrationIntentV1 : Type := mkIntent {
  ri_chain_id : B256;
  ri_genesis_hash : B256;
  operation : AttestationOperationV1;
  ri_mode : AttestationMode;
  ri_policy_hash : B256;
  ri_node_id : NodeIdV1;
  enclave_id : B256;
  binding_id : B256;
  binding_version : Z;
  registration_version : Z;
  renewal_nonce : Z;
  transition_nonce : Z;
  requested_valid_until : Z;
  recipient_x25519 : B256;
  attestation_ed25519 : B256;
  noise_responder_x25519 : B256;
  node_host_authorization_hash : B256 }.

Definition intent_network_binding (i : RegistrationIntentV1) : NetworkBindingV1 :=
  mkNetworkBinding (ri_chain_id i) (ri_genesis_hash i) (ri_mode i).
Definition RegistrationIntentV1_validate (i : RegistrationIntentV1) : codec unit :=
  let+ _ := NodeIdV1_validate (ri_node_id i) in
  let+ _ := erequire (negb ((ri_genesis_hash i =? 0) || (ri_policy_hash i =? 0) || (enclave_id i =? 0)
                            || (binding_id i =? 0) || (node_host_authorization_hash i =? 0)))
    (NonCanonical "registration intent contains a zero commitment") in
  let+ _ := erequire (negb ((recipient_x25519 i =? 0) || (attestation_ed25519 i =? 0)
                            || (noise_responder_x25519 i =? 0)))
    (NonCanonical "registration intent contains a zero public key") in
  erequire (negb ((binding_version i =? 0) || (requested_valid_until i =? 0)))
    (NonCanonical "registration intent contains a zero version or lease").
Definition RegistrationIntentV1_encode (i : RegistrationIntentV1) : codec (list Z) :=
  let+ _ := RegistrationIntentV1_validate i in
  inr ([PROTOCOL_VERSION_V1] ++ be_bytes 32 (ri_chain_id i) ++ be_bytes 32 (ri_genesis_hash i)
       ++ [operation_id (operation i)] ++ [mode_id (ri_mode i)] ++ be_bytes 32 (ri_policy_hash i)
       ++ NodeIdV1_bytes (ri_node_id i) ++ be_bytes 32 (enclave_id i) ++ be_bytes 32 (binding_id i)
       ++ be_bytes 8 (binding_version i) ++ be_bytes 8 (registration_version i)
       ++ be_bytes 8 (renewal_nonce i) ++ be_bytes 8 (transition_nonce i)
       ++ be_bytes 8 (requested_valid_until i) ++ be_bytes 32 (recipient_x25519 i)
       ++ be_bytes 32 (attestation_ed25519 i) ++ be_bytes 32 (noise_responder_x25519 i)
       ++ be_bytes 32 (node_host_authorization_hash i)).
Definition RegistrationIntentV1_decode (input : list Z) : codec RegistrationIntentV1 :=
  let+ (_, cur) := d_version "RegistrationIntentV1" input in
  let+ (chain_id, cur) := d_word 32 cur in
  let+ (genesis_hash, cur) := d_word 32 cur in
  let+ (op, cur) := d_u8 cur in
  let+ op := AttestationOperationV1_decode op in
  let+ (mode, cur) := d_u8 cur in
  let+ mode := AttestationMode_decode mode in
  let+ (policy, cur) := d_word 32 cur in
  let+ (node_id, cur) := NodeIdV1_decode_from cur in
  let+ (enclave, cur) := d_word 32 cur in
  let+ (binding, cur) := d_word 32 cur in
  let+ (bversion, cur) := d_word 8 cur in
  let+ (rversion, cur) := d_word 8 cur in
  let+ (rnonce, cur) := d_word 8 cur in
  let+ (tnonce, cur) := d_word 8 cur in
  let+ (until, cur) := d_word 8 cur in
  let+ (recipient, cur) := d_word 32 cur in
  let+ (attestation, cur) := d_word 32 cur in
  let+ (responder, cur) := d_word 32 cur in
  let+ (authorization, cur) := d_word 32 cur in
  let value := mkIntent chain_id genesis_hash op mode policy node_id enclave binding bversion rversion
    rnonce tnonce until recipient attestation responder authorization in
  let+ _ := d_finish cur in
  let+ _ := RegistrationIntentV1_validate value in
  inr value.
Definition intent_hash (i : RegistrationIntentV1) : codec B256 :=
  let+ bytes := RegistrationIntentV1_encode i in inr (domain_hash REGISTRATION_INTENT_DOMAIN_V1 bytes).
Definition intent_verify_node_signature (i : RegistrationIntentV1) (signature : list Z) : bool :=
  signed_by_node (intent_hash i) (ri_node_id i) signature.
Definition verify_enclave_signature (i : RegistrationIntentV1) (signature : list Z) : bool :=
  match intent_hash i with
  | inl _ => false
  | inr hash => ed25519_verify (attestation_ed25519 i) (be_bytes 32 hash) signature
  end.
Definition derived_enclave_id (i : RegistrationIntentV1) : codec B256 :=
  let+ _ := RegistrationIntentV1_validate i in
  inr (enclave_id_of_keys (recipient_x25519 i) (attestation_ed25519 i) (noise_responder_x25519 i)).
Definition report_policy_hash (i : RegistrationIntentV1) : B256 :=
  domain_hash REPORT_POLICY_DOMAIN_V1
    (be_bytes 32 (ri_genesis_hash i) ++ be_bytes 32 (ri_policy_hash i)
     ++ be_bytes 32 (node_host_authorization_hash i)).
Definition report_data (i : RegistrationIntentV1) : codec (list Z) :=
  let+ hash := intent_hash i in inr (be_bytes 32 hash ++ be_bytes 32 (report_policy_hash i)).
Definition RegistrationIntentV1_validate_chain_identity (i : RegistrationIntentV1)
    (chain_id genesis_hash : B256) : codec unit :=
  erequire ((ri_chain_id i =? chain_id) && (ri_genesis_hash i =? genesis_hash)) ChainIdentityMismatch.

(** The disjuncts are evaluated in order; the hashes are computed only when the
    fields before them agree. *)
Definition validate_intent_binding (m : EnclaveInitializationManifestV1) (i : RegistrationIntentV1) :
    codec unit :=
  let mismatch := NonCanonical "registration intent does not match initialized enclave" in
  let+ _ := EnclaveInitializationManifestV1_validate m in
  let+ _ := RegistrationIntentV1_validate i in
  let+ _ := erequire ((ri_chain_id i =? im_chain_id m) && (ri_genesis_hash i =? im_genesis_hash m)
                      && bool_decide (ri_mode i = im_mode m) && bool_decide (ri_node_id i = im_node_id m))
    mismatch in
  let+ id := manifest_enclave_id m in
  let+ _ := erequire ((enclave_id i =? id) && (recipient_x25519 i =? im_recipient_x25519 m)
                      && (attestation_ed25519 i =? im_attestation_ed25519 m)
                      && (noise_responder_x25519 i =? im_noise_responder_x25519 m)) mismatch in
  let+ authorization := node_host_authorization_hash_of m in
  erequire (node_host_authorization_hash i =? authorization) mismatch.

(** ** Transition key-ready proof *)

Record TransitionKeyReadyProofV1 : Type := mkReadyProof {
  kp_chain_id : B256;
  kp_genesis_hash : B256;
  transition_intent_hash : B256;
  candidate_manifest_hash : B256;
  kp_transition_nonce : Z;
  resident_offer_public : B256;
  candidate_attestation_signature : list Z }.
Definition TransitionKeyReadyProofV1_CANONICAL_LEN : nat := 1 + 32 + 32 + 32 + 32 + 8 + 32 + 64.

Definition validate_shape (p : TransitionKeyReadyProofV1) : codec unit :=
  erequire (negb ((kp_chain_id p =? 0) || (kp_genesis_hash p =? 0) || (transition_intent_hash p =? 0)
                  || (candidate_manifest_hash p =? 0) || (kp_transition_nonce p =? 0)
                  || (resident_offer_public p =? 0)))
    (NonCanonical "transition key-ready proof contains a zero commitment").
Definition key_ready_signed_bytes (p : TransitionKeyReadyProofV1) : list Z :=
  [PROTOCOL_VERSION_V1] ++ be_bytes 32 (kp_chain_id p) ++ be_bytes 32 (kp_genesis_hash p)
  ++ be_bytes 32 (transition_intent_hash p) ++ be_bytes 32 (candidate_manifest_hash p)
  ++ be_bytes 8 (kp_transition_nonce p) ++ be_bytes 32 (resident_offer_public p).
Definition TransitionKeyReadyProofV1_encode (p : TransitionKeyReadyProofV1) : codec (list Z) :=
  let+ _ := validate_shape p in
  inr (key_ready_signed_bytes p ++ candidate_attestation_signature p).
Definition TransitionKeyReadyProofV1_decode (input : list Z) : codec TransitionKeyReadyProofV1 :=
  let+ _ := erequire (length input =? TransitionKeyReadyProofV1_CANONICAL_LEN)%nat
    (NonCanonical "transition key-ready proof length") in
  let+ (_, cur) := d_version "TransitionKeyReadyProofV1" input in
  let+ (chain_id, cur) := d_word 32 cur in
  let+ (genesis_hash, cur) := d_word 32 cur in
  let+ (intent, cur) := d_word 32 cur in
  let+ (manifest, cur) := d_word 32 cur in
  let+ (nonce, cur) := d_word 8 cur in
  let+ (offer, cur) := d_word 32 cur in
  let+ (signature, cur) := d_take 64 cur in
  let value := mkReadyProof chain_id genesis_hash intent manifest nonce offer signature in
  let+ _ := d_finish cur in
  let+ _ := validate_shape value in
  inr value.
Definition key_ready_signing_hash (p : TransitionKeyReadyProofV1) : codec B256 :=
  let+ _ := validate_shape p in
  inr (domain_hash TRANSITION_KEY_READY_PROOF_DOMAIN_V1 (key_ready_signed_bytes p)).

Definition verify_for_transition (p : TransitionKeyReadyProofV1) (intent : RegistrationIntentV1)
    (expected_offer_public : B256) : codec unit :=
  let mismatch := NonCanonical "transition key-ready proof binding mismatch" in
  let+ _ := validate_shape p in
  let+ _ := erequire (bool_decide (operation intent = TransitionEnclaveMeasurement)
                      && (kp_chain_id p =? ri_chain_id intent)
                      && (kp_genesis_hash p =? ri_genesis_hash intent)) mismatch in
  let+ hash := intent_hash intent in
  let+ _ := erequire ((transition_intent_hash p =? hash)
                      && (kp_transition_nonce p =? transition_nonce intent)
                      && (resident_offer_public p =? expected_offer_public)) mismatch in
  let+ signing := key_ready_signing_hash p in
  erequire (ed25519_verify (attestation_ed25519 intent) (be_bytes 32 signing)
              (candidate_attestation_signature p))
    (NonCanonical "transition key-ready proof signature").

(** ** DCAP evidence *)

Inductive DcapCollateralKind : Type :=
  | PckCertificateChain | PckCrl | PckCrlIssuerChain | RootCaCrl
  | TcbInfo | TcbInfoIssuerChain | QeIdentity | QeIdentityIssuerChain.
#[global] Instance DcapCollateralKind_eq_dec : EqDecision DcapCollateralKind.
Proof. solve_decision. Defined.
Definition collateral_kind_id (k : DcapCollateralKind) : Z :=
  match k with
  | PckCertificateChain => 1 | PckCrl => 2 | PckCrlIssuerChain => 3 | RootCaCrl => 4
  | TcbInfo => 5 | TcbInfoIssuerChain => 6 | QeIdentity => 7 | QeIdentityIssuerChain => 8
  end.
Definition DcapCollateralKind_try_from (value : Z) : codec DcapCollateralKind :=
  if value =? 1 then inr PckCertificateChain
  else if value =? 2 then inr PckCrl
  else if value =? 3 then inr PckCrlIssuerChain
  else if value =? 4 then inr RootCaCrl
  else if value =? 5 then inr TcbInfo
  else if value =? 6 then inr TcbInfoIssuerChain
  else if value =? 7 then inr QeIdentity
  else if value =? 8 then inr QeIdentityIssuerChain
  else inl (UnknownDiscriminant "DCAP collateral component" value).

Record DcapCollateralComponentV1 : Type := mkComponent {
  kind : DcapCollateralKind;
  cc_bytes : list Z }.
Record DcapEvidenceV1 : Type := mkDcap {
  dc_intent : RegistrationIntentV1;
  quote : list Z;
  components : list DcapCollateralComponentV1;
  transition_key_ready_proof : option TransitionKeyReadyProofV1 }.

Definition validate_component (expected : Z) (c : DcapCollateralComponentV1) : codec unit :=
  let+ _ := enforce_limit "DCAP collateral component" MAX_COLLATERAL_COMPONENT_BYTES
    (zlen (cc_bytes c)) in
  let+ _ := erequire (negb (bool_decide (cc_bytes c = []))) (NonCanonical "empty DCAP collateral component") in
  erequire (collateral_kind_id (kind c) =? expected)
    (NonCanonical "DCAP component kinds must be exactly 0x01..=0x08").
(** The loop over the components, [expected] counting from the first. *)
Fixpoint validate_component_list (expected : Z) (cs : list DcapCollateralComponentV1) : codec unit :=
  match cs with
  | [] => inr tt
  | c :: rest =>
      let+ _ := validate_component expected c in validate_component_list (expected + 1) rest
  end.
Definition validate_components (e : DcapEvidenceV1) : codec unit :=
  let+ _ := erequire (length (components e) =? 8)%nat
    (NonCanonical "DCAP component count must be exactly eight") in
  validate_component_list 1 (components e).
Definition validate_transition_proof_presence (e : DcapEvidenceV1) : codec unit :=
  erequire (Bool.eqb (bool_decide (operation (dc_intent e) = TransitionEnclaveMeasurement))
                     (bool_decide (is_Some (transition_key_ready_proof e))))
    (NonCanonical "transition key-ready proof presence does not match operation").

(** The running [checked_add_usize] total of the parts of a payload. *)
Fixpoint checked_total (acc : Z) (parts : list Z) : codec Z :=
  match parts with
  | [] => inr acc
  | p :: rest => let+ acc := checked_add_usize acc p in checked_total acc rest
  end.
Definition component_bytes (c : DcapCollateralComponentV1) : codec (list Z) :=
  let+ len := put_len_u32 (zlen (cc_bytes c)) in
  inr ([collateral_kind_id (kind c)] ++ len ++ cc_bytes c).
Definition encode_proof_opt (p : option TransitionKeyReadyProofV1) : codec (option (list Z)) :=
  match p with
  | None => inr None
  | Some p => let+ bytes := TransitionKeyReadyProofV1_encode p in inr (Some bytes)
  end.
Definition proof_parts (p : option (list Z)) : list Z :=
  match p with None => [] | Some bytes => [2; zlen bytes] end.
Definition proof_tail (p : option (list Z)) : codec (list Z) :=
  match p with
  | None => inr [0]
  | Some bytes => let+ len := put_len_u16 (zlen bytes) in inr ([1] ++ len ++ bytes)
  end.

Definition DcapEvidenceV1_encode_payload (e : DcapEvidenceV1) : codec (list Z) :=
  let+ _ := erequire (bool_decide (ri_mode (dc_intent e) = DcapRequired))
    (NonCanonical "DCAP evidence intent mode mismatch") in
  let+ _ := enforce_limit "SGX quote" MAX_QUOTE_BYTES (zlen (quote e)) in
  let+ _ := erequire (negb (bool_decide (quote e = []))) (NonCanonical "empty SGX quote") in
  let+ _ := validate_components e in
  let+ _ := validate_transition_proof_presence e in
  let+ intent := RegistrationIntentV1_encode (dc_intent e) in
  let+ payload_len := checked_total 1 ([4; zlen intent; 4; zlen (quote e); 2]
    ++ concat ((fun c => [5; zlen (cc_bytes c)]) <$> components e) ++ [1]) in
  let+ proof := encode_proof_opt (transition_key_ready_proof e) in
  let+ payload_len := checked_total payload_len (proof_parts proof) in
  let+ complete_len := checked_add_usize 6 payload_len in
  let+ _ := enforce_limit "attestation evidence" MAX_ATTESTATION_EVIDENCE_BYTES complete_len in
  let+ ilen := put_len_u32 (zlen intent) in
  let+ qlen := put_len_u32 (zlen (quote e)) in
  let+ comps := emap (components e) component_bytes in
  let+ tail := proof_tail proof in
  inr ([PROTOCOL_VERSION_V1] ++ ilen ++ intent ++ qlen ++ quote e ++ be_bytes 2 8 ++ concat comps ++ tail).

Definition d_component (expected : Z) : tee_decoder DcapCollateralComponentV1 := fun cur =>
  let+ (k, cur) := d_u8 cur in
  let+ k := DcapCollateralKind_try_from k in
  let+ _ := erequire (collateral_kind_id k =? expected)
    (NonCanonical "DCAP component kinds must be exactly 0x01..=0x08") in
  let+ (len, cur) := d_declared_len "DCAP collateral component" MAX_COLLATERAL_COMPONENT_BYTES cur in
  let+ _ := erequire (negb (len =? 0)%nat) (NonCanonical "empty DCAP collateral component") in
  let+ (bytes, cur) := d_take len cur in
  inr (mkComponent k bytes, cur).
(** [for expected_kind in expected ..], [count] times. *)
Fixpoint d_components (count : nat) (expected : Z) : tee_decoder (list DcapCollateralComponentV1) := fun cur =>
  match count with
  | O => inr ([], cur)
  | S count' =>
      let+ (c, cur) := d_component expected cur in
      let+ (rest, cur) := d_components count' (expected + 1) cur in
      inr (c :: rest, cur)
  end.
Definition d_proof_tail : tee_decoder (option TransitionKeyReadyProofV1) := fun cur =>
  let+ (flag, cur) := d_u8 cur in
  if flag =? 0 then inr (None, cur)
  else if flag =? 1 then
    let+ (len, cur) := d_word 2 cur in
    let+ _ := erequire (Z.to_nat len =? TransitionKeyReadyProofV1_CANONICAL_LEN)%nat
      (NonCanonical "transition key-ready proof length") in
    let+ (bytes, cur) := d_take (Z.to_nat len) cur in
    let+ proof := TransitionKeyReadyProofV1_decode bytes in
    inr (Some proof, cur)
  else inl (NonCanonical "transition key-ready proof presence flag").
(** The declared intent at the head of both kinds of evidence. *)
Definition d_intent : tee_decoder RegistrationIntentV1 := fun cur =>
  let+ (len, cur) := d_declared_len "registration intent" MAX_EVIDENCE_CALL_FRAMING_BYTES cur in
  let+ (bytes, cur) := d_take len cur in
  let+ intent := RegistrationIntentV1_decode bytes in
  inr (intent, cur).

Definition DcapEvidenceV1_decode_payload (input : list Z) : codec DcapEvidenceV1 :=
  let+ _ := enforce_limit "attestation evidence payload" MAX_ATTESTATION_EVIDENCE_BYTES (zlen input) in
  let+ (_, cur) := d_version "DcapEvidenceV1" input in
  let+ (intent, cur) := d_intent cur in
  let+ _ := erequire (bool_decide (ri_mode intent = DcapRequired))
    (NonCanonical "DCAP evidence intent mode mismatch") in
  let+ (quote_len, cur) := d_declared_len "SGX quote" MAX_QUOTE_BYTES cur in
  let+ _ := erequire (negb (quote_len =? 0)%nat) (NonCanonical "empty SGX quote") in
  let+ (q, cur) := d_take quote_len cur in
  let+ (count, cur) := d_word 2 cur in
  let+ _ := erequire (count =? 8) (NonCanonical "DCAP component count must be exactly eight") in
  let+ (comps, cur) := d_components 8 1 cur in
  let+ (proof, cur) := d_proof_tail cur in
  let+ _ := d_finish cur in
  let value := mkDcap intent q comps proof in
  let+ _ := validate_transition_proof_presence value in
  inr value.

(** ** Development evidence *)

Record GramineDirectEvidenceV1 : Type := mkGramine {
  ge_intent : RegistrationIntentV1;
  dev_attestation_public : B256;
  dev_signature : list Z }.

Definition gramine_mode_check (i : RegistrationIntentV1) : codec unit :=
  erequire (bool_decide (ri_mode i = GramineDirectDev)) (NonCanonical "Gramine evidence intent mode mismatch").
Definition gramine_key_check (key : B256) : codec unit :=
  erequire (negb (key =? 0)) (NonCanonical "zero Gramine development attestation key").
Definition GramineDirectEvidenceV1_encode_payload (e : GramineDirectEvidenceV1) : codec (list Z) :=
  let+ _ := gramine_mode_check (ge_intent e) in
  let+ _ := gramine_key_check (dev_attestation_public e) in
  let+ intent := RegistrationIntentV1_encode (ge_intent e) in
  let+ ilen := put_len_u32 (zlen intent) in
  inr ([PROTOCOL_VERSION_V1] ++ ilen ++ intent ++ be_bytes 32 (dev_attestation_public e) ++ dev_signature e).
Definition GramineDirectEvidenceV1_decode_payload (input : list Z) : codec GramineDirectEvidenceV1 :=
  let+ (_, cur) := d_version "GramineDirectEvidenceV1" input in
  let+ (intent, cur) := d_intent cur in
  let+ (key, cur) := d_word 32 cur in
  let+ (signature, cur) := d_take 64 cur in
  let value := mkGramine intent key signature in
  let+ _ := d_finish cur in
  let+ _ := gramine_mode_check (ge_intent value) in
  let+ _ := gramine_key_check (dev_attestation_public value) in
  inr value.

(** ** Attestation evidence *)

Inductive AttestationEvidenceV1 : Type :=
  | Dcap (e : DcapEvidenceV1)
  | GramineDirectEvidence (e : GramineDirectEvidenceV1).
Definition evidence_mode (e : AttestationEvidenceV1) : AttestationMode :=
  match e with Dcap _ => DcapRequired | GramineDirectEvidence _ => GramineDirectDev end.
Definition evidence_payload (e : AttestationEvidenceV1) : codec (list Z) :=
  match e with
  | Dcap v => DcapEvidenceV1_encode_payload v
  | GramineDirectEvidence v => GramineDirectEvidenceV1_encode_payload v
  end.
Definition AttestationEvidenceV1_encode (e : AttestationEvidenceV1) : codec (list Z) :=
  let+ payload := evidence_payload e in
  let+ len := put_len_u32 (zlen payload) in
  let out := [PROTOCOL_VERSION_V1] ++ [mode_id (evidence_mode e)] ++ len ++ payload in
  let+ _ := enforce_limit "attestation evidence" MAX_ATTESTATION_EVIDENCE_BYTES (zlen out) in
  inr out.
Definition AttestationEvidenceV1_decode (input : list Z) : codec AttestationEvidenceV1 :=
  let+ _ := enforce_limit "attestation evidence" MAX_ATTESTATION_EVIDENCE_BYTES (zlen input) in
  let+ (_, cur) := d_version "AttestationEvidenceV1" input in
  let+ (mode, cur) := d_u8 cur in
  let+ mode := AttestationMode_decode mode in
  let+ (payload_len, cur) := d_declared_len "attestation evidence payload" MAX_ATTESTATION_EVIDENCE_BYTES cur in
  let+ (payload, cur) := d_take payload_len cur in
  let+ value := match mode with
    | DcapRequired => let+ v := DcapEvidenceV1_decode_payload payload in inr (Dcap v)
    | GramineDirectDev => let+ v := GramineDirectEvidenceV1_decode_payload payload in
                          inr (GramineDirectEvidence v)
    end in
  let+ _ := d_finish cur in
  inr value.
Definition evidence_hash (e : AttestationEvidenceV1) : codec B256 :=
  let+ bytes := AttestationEvidenceV1_encode e in inr (domain_hash ATTESTATION_EVIDENCE_DOMAIN_V1 bytes).

(** ** Measurement rules and policies *)

Inductive QvlTcbStatusV1 : Type := UpToDate.
Inductive PlatformTcbStatusSetV1 : Type := UpToDateOnly | UpToDateOrHardeningNeeded.
Definition qvl_status_id (s : QvlTcbStatusV1) : Z := match s with UpToDate => 1 end.
Definition QvlTcbStatusV1_decode (value : Z) : codec QvlTcbStatusV1 :=
  if value =? 1 then inr UpToDate else inl (UnknownDiscriminant "accepted QVL TCB status" value).
Definition platform_status_id (s : PlatformTcbStatusSetV1) : Z :=
  match s with UpToDateOnly => 1 | UpToDateOrHardeningNeeded => 2 end.
Definition PlatformTcbStatusSetV1_decode (value : Z) : codec PlatformTcbStatusSetV1 :=
  if value =? 1 then inr UpToDateOnly
  else if value =? 2 then inr UpToDateOrHardeningNeeded
  else inl (UnknownDiscriminant "accepted Platform TCB status set" value).

Record TeeMeasurementRuleV1 : Type := mkRule {
  mrenclave : B256;
  mrsigner : B256;
  isv_prod_id : Z;
  minimum_isv_svn : Z;
  admit_from_height : Z;
  admit_until_height_exclusive : Z }.

Definition TeeMeasurementRuleV1_validate (r : TeeMeasurementRuleV1) : codec unit :=
  let+ _ := erequire (negb ((mrenclave r =? 0) || (mrsigner r =? 0)))
    (NonCanonical "measurement rule contains a zero measurement") in
  erequire (negb (admit_until_height_exclusive r <=? admit_from_height r))
    (NonCanonical "measurement admission interval is empty").
(** [encode_into], and [canonical_bytes] on an empty buffer. *)
Definition TeeMeasurementRuleV1_encode (r : TeeMeasurementRuleV1) : codec (list Z) :=
  let+ _ := TeeMeasurementRuleV1_validate r in
  inr ([PROTOCOL_VERSION_V1] ++ be_bytes 32 (mrenclave r) ++ be_bytes 32 (mrsigner r)
       ++ be_bytes 2 (isv_prod_id r) ++ be_bytes 2 (minimum_isv_svn r)
       ++ be_bytes 8 (admit_from_height r) ++ be_bytes 8 (admit_until_height_exclusive r)).
Definition TeeMeasurementRuleV1_decode_from : tee_decoder TeeMeasurementRuleV1 := fun cur =>
  let+ (_, cur) := d_version "TeeMeasurementRuleV1" cur in
  let+ (enclave, cur) := d_word 32 cur in
  let+ (signer, cur) := d_word 32 cur in
  let+ (prod, cur) := d_word 2 cur in
  let+ (svn, cur) := d_word 2 cur in
  let+ (from, cur) := d_word 8 cur in
  let+ (until, cur) := d_word 8 cur in
  let value := mkRule enclave signer prod svn from until in
  let+ _ := TeeMeasurementRuleV1_validate value in
  inr (value, cur).

Record TeePolicyV1 : Type := mkPolicy {
  policy_version : Z;
  tp_chain_id : B256;
  tp_genesis_hash : B256;
  activation_height : Z;
  predecessor_policy_hash : B256;
  tp_mode : AttestationMode;
  intel_root_der_hash : B256;
  quote_version : Z;
  tee_type : Z;
  attestation_key_type : Z;
  qe_vendor_id : list Z;
  certification_data_type : Z;
  tcb_info_schema_version : Z;
  qe_identity_schema_version : Z;
  minimum_tcb_evaluation_data_number : Z;
  accepted_platform_tcb_statuses : PlatformTcbStatusSetV1;
  accepted_qe_tcb_status : QvlTcbStatusV1;
  minimum_lease : Z;
  maximum_lease : Z;
  collateral_margin : Z;
  resource_schedule_hash : B256;
  measurement_rules : list TeeMeasurementRuleV1 }.

Definition INTEL_QE_VENDOR_ID : list Z :=
  [0x93; 0x9a; 0x72; 0x33; 0xf7; 0x9c; 0x4c; 0xa9; 0x94; 0x0a; 0x0d; 0xb3; 0x95; 0x7f; 0x06; 0x07].

Definition policy_network_binding (p : TeePolicyV1) : NetworkBindingV1 :=
  mkNetworkBinding (tp_chain_id p) (tp_genesis_hash p) (tp_mode p).

Definition rule_admits (enclave signer : B256) (prod svn height : Z) (r : TeeMeasurementRuleV1) : bool :=
  (mrenclave r =? enclave) && (mrsigner r =? signer) && (isv_prod_id r =? prod)
  && (minimum_isv_svn r <=? svn) && (admit_from_height r <=? height)
  && (height <? admit_until_height_exclusive r).
Definition measurement_rule_match_count (p : TeePolicyV1) (enclave signer : B256) (prod svn height : Z) : nat :=
  length (List.filter (rule_admits enclave signer prod svn height) (measurement_rules p)).

(** The loop that checks the rules, [previous] the bytes of the rule before. *)
Fixpoint validate_rules (previous : option (list Z)) (rules : list TeeMeasurementRuleV1) : codec unit :=
  match rules with
  | [] => inr tt
  | r :: rest =>
      let+ bytes := TeeMeasurementRuleV1_encode r in
      let+ _ := erequire (negb (match previous with Some p => bytes_leb bytes p | None => false end))
        (NonCanonical "measurement rules must be strictly sorted and unique") in
      validate_rules (Some bytes) rest
  end.

Definition TeePolicyV1_validate (p : TeePolicyV1) : codec unit :=
  let+ _ := erequire (negb ((policy_version p =? 0) || (activation_height p =? 0)))
    (NonCanonical "policy version and activation height must be nonzero") in
  let+ _ := erequire (negb ((tp_genesis_hash p =? 0) || (intel_root_der_hash p =? 0)
                            || (resource_schedule_hash p =? 0)))
    (NonCanonical "TEE policy contains a zero commitment") in
  let+ _ := erequire ((quote_version p =? 3) && (tee_type p =? 0) && (attestation_key_type p =? 2)
                      && bool_decide (qe_vendor_id p = INTEL_QE_VENDOR_ID)
                      && (certification_data_type p =? 5) && (tcb_info_schema_version p =? 3)
                      && (qe_identity_schema_version p =? 2))
    (NonCanonical "unsupported SGX DCAP policy profile") in
  let+ _ := erequire (negb (minimum_tcb_evaluation_data_number p =? 0))
    (NonCanonical "minimum TCB evaluation data number must be nonzero") in
  let+ _ := erequire (negb ((minimum_lease p <? 3600) || (2592000 <? maximum_lease p)
                            || (maximum_lease p <? minimum_lease p)
                            || negb (maximum_lease p mod 2 =? 0)
                            || negb (collateral_margin p =? 3600)))
    (NonCanonical "invalid TEE lease policy") in
  let+ _ := erequire (negb (length (measurement_rules p) =? 0)%nat)
    (NonCanonical "TEE policy has no measurement rules") in
  let+ _ := enforce_limit "active measurement rules" MAX_ACTIVE_MEASUREMENT_RULES
    (Z.of_nat (length (measurement_rules p))) in
  validate_rules None (measurement_rules p).

Definition TeePolicyV1_encode (p : TeePolicyV1) : codec (list Z) :=
  let+ _ := TeePolicyV1_validate p in
  let+ count := put_len_u16 (Z.of_nat (length (measurement_rules p))) in
  let+ rules := emap (measurement_rules p) TeeMeasurementRuleV1_encode in
  let out := [PROTOCOL_VERSION_V1] ++ be_bytes 8 (policy_version p) ++ be_bytes 32 (tp_chain_id p)
    ++ be_bytes 32 (tp_genesis_hash p) ++ be_bytes 8 (activation_height p)
    ++ be_bytes 32 (predecessor_policy_hash p) ++ [mode_id (tp_mode p)]
    ++ be_bytes 32 (intel_root_der_hash p) ++ be_bytes 2 (quote_version p) ++ be_bytes 4 (tee_type p)
    ++ be_bytes 2 (attestation_key_type p) ++ qe_vendor_id p ++ be_bytes 2 (certification_data_type p)
    ++ [tcb_info_schema_version p] ++ [qe_identity_schema_version p]
    ++ be_bytes 4 (minimum_tcb_evaluation_data_number p)
    ++ [platform_status_id (accepted_platform_tcb_statuses p)]
    ++ [qvl_status_id (accepted_qe_tcb_status p)] ++ be_bytes 8 (minimum_lease p)
    ++ be_bytes 8 (maximum_lease p) ++ be_bytes 8 (collateral_margin p)
    ++ be_bytes 32 (resource_schedule_hash p) ++ count ++ concat rules in
  let+ _ := enforce_limit "TEE policy" MAX_TEE_POLICY_BYTES (zlen out) in
  inr out.

Definition TeePolicyV1_decode (input : list Z) : codec TeePolicyV1 :=
  let+ _ := enforce_limit "TEE policy" MAX_TEE_POLICY_BYTES (zlen input) in
  let+ (_, cur) := d_version "TeePolicyV1" input in
  let+ (version, cur) := d_word 8 cur in
  let+ (chain_id, cur) := d_word 32 cur in
  let+ (genesis_hash, cur) := d_word 32 cur in
  let+ (activation, cur) := d_word 8 cur in
  let+ (predecessor, cur) := d_word 32 cur in
  let+ (mode, cur) := d_u8 cur in
  let+ mode := AttestationMode_decode mode in
  let+ (root, cur) := d_word 32 cur in
  let+ (qversion, cur) := d_word 2 cur in
  let+ (tee, cur) := d_word 4 cur in
  let+ (key_type, cur) := d_word 2 cur in
  let+ (vendor, cur) := d_take 16 cur in
  let+ (cert_type, cur) := d_word 2 cur in
  let+ (tcb_schema, cur) := d_u8 cur in
  let+ (qe_schema, cur) := d_u8 cur in
  let+ (min_tcb, cur) := d_word 4 cur in
  let+ (platform, cur) := d_u8 cur in
  let+ platform := PlatformTcbStatusSetV1_decode platform in
  let+ (qe_status, cur) := d_u8 cur in
  let+ qe_status := QvlTcbStatusV1_decode qe_status in
  let+ (min_lease, cur) := d_word 8 cur in
  let+ (max_lease, cur) := d_word 8 cur in
  let+ (margin, cur) := d_word 8 cur in
  let+ (resource, cur) := d_word 32 cur in
  let+ (rule_count, cur) := d_word 2 cur in
  let+ _ := enforce_limit "active measurement rules" MAX_ACTIVE_MEASUREMENT_RULES rule_count in
  let+ _ := erequire (negb (rule_count =? 0)) (NonCanonical "TEE policy has no measurement rules") in
  let+ (rules, cur) := d_repeat (Z.to_nat rule_count) TeeMeasurementRuleV1_decode_from cur in
  let+ _ := d_finish cur in
  let value := mkPolicy version chain_id genesis_hash activation predecessor mode root qversion tee
    key_type vendor cert_type tcb_schema qe_schema min_tcb platform qe_status min_lease max_lease
    margin resource rules in
  let+ _ := TeePolicyV1_validate value in
  inr value.
Definition policy_hash (p : TeePolicyV1) : codec B256 :=
  let+ bytes := TeePolicyV1_encode p in inr (domain_hash POLICY_DOMAIN_V1 bytes).

(** ** Policy schedule *)

Record TeePolicyScheduleEntryV1 : Type := mkPolicyEntry {
  en_activation_height : Z;
  en_policy : TeePolicyV1 }.
Record TeePolicyScheduleV1 : Type := mkPolicySchedule {
  ps_chain_id : B256;
  ps_genesis_hash : B256;
  policy_entries : list TeePolicyScheduleEntryV1 }.

Definition validate_entry_identity (s : TeePolicyScheduleV1) (e : TeePolicyScheduleEntryV1) : codec unit :=
  erequire ((tp_chain_id (en_policy e) =? ps_chain_id s)
            && (tp_genesis_hash (en_policy e) =? ps_genesis_hash s)) ChainIdentityMismatch.
(** The loop over the entries after the first. *)
Fixpoint validate_successors (s : TeePolicyScheduleV1) (previous_hash : B256)
    (previous_version previous_height : Z) (rest : list TeePolicyScheduleEntryV1) : codec unit :=
  match rest with
  | [] => inr tt
  | e :: rest =>
      let+ _ := validate_entry_identity s e in
      let+ _ := erequire (negb (en_activation_height e <=? previous_height)
                          && (activation_height (en_policy e) =? en_activation_height e))
        (NonCanonical "policy activations must be strictly increasing") in
      let+ expected_version := eok_or (checked_add u64_max previous_version 1) ArithmeticOverflow in
      let+ _ := erequire (policy_version (en_policy e) =? expected_version)
        (NonCanonical "policy versions must increase by one") in
      let+ _ := erequire (predecessor_policy_hash (en_policy e) =? previous_hash)
        (NonCanonical "policy predecessor hash mismatch") in
      let+ hash := policy_hash (en_policy e) in
      validate_successors s hash (policy_version (en_policy e)) (en_activation_height e) rest
  end.
Definition TeePolicyScheduleV1_validate (s : TeePolicyScheduleV1) : codec unit :=
  let+ _ := erequire (negb (ps_genesis_hash s =? 0))
    (NonCanonical "TEE policy schedule has zero genesis hash") in
  match policy_entries s with
  | [] => inl (NonCanonical "TEE policy schedule is empty")
  | first :: rest =>
      let+ _ := enforce_limit "TEE policy schedule entries" MAX_TEE_POLICY_SCHEDULE_ENTRIES
        (Z.of_nat (length (policy_entries s))) in
      let+ _ := erequire ((en_activation_height first =? 1) && (activation_height (en_policy first) =? 1)
                          && (policy_version (en_policy first) =? 1)
                          && (predecessor_policy_hash (en_policy first) =? 0))
        (NonCanonical "first TEE policy must be version one at block one") in
      let+ hash := policy_hash (en_policy first) in
      let+ _ := validate_entry_identity s first in
      validate_successors s hash (policy_version (en_policy first)) (en_activation_height first) rest
  end.
Definition schedule_entry_bytes (e : TeePolicyScheduleEntryV1) : codec (list Z) :=
  let+ policy := TeePolicyV1_encode (en_policy e) in
  let+ len := put_len_u32 (zlen policy) in
  let+ hash := policy_hash (en_policy e) in
  inr (be_bytes 8 (en_activation_height e) ++ len ++ policy ++ be_bytes 32 hash).
Definition TeePolicyScheduleV1_encode (s : TeePolicyScheduleV1) : codec (list Z) :=
  let+ _ := TeePolicyScheduleV1_validate s in
  let+ count := put_len_u16 (Z.of_nat (length (policy_entries s))) in
  let+ body := emap (policy_entries s) schedule_entry_bytes in
  let out := [PROTOCOL_VERSION_V1] ++ be_bytes 32 (ps_chain_id s) ++ be_bytes 32 (ps_genesis_hash s)
    ++ count ++ concat body in
  let+ _ := enforce_limit "TEE policy schedule" MAX_TEE_POLICY_SCHEDULE_BYTES (zlen out) in
  inr out.
Definition d_schedule_entry : tee_decoder TeePolicyScheduleEntryV1 := fun cur =>
  let+ (height, cur) := d_word 8 cur in
  let+ (len, cur) := d_declared_len "TEE policy" MAX_TEE_POLICY_BYTES cur in
  let+ (bytes, cur) := d_take len cur in
  let+ policy := TeePolicyV1_decode bytes in
  let+ (cached_hash, cur) := d_word 32 cur in
  let+ hash := policy_hash policy in
  let+ _ := erequire (cached_hash =? hash) (NonCanonical "cached policy hash mismatch") in
  inr (mkPolicyEntry height policy, cur).
Definition TeePolicyScheduleV1_decode (input : list Z) : codec TeePolicyScheduleV1 :=
  let+ _ := enforce_limit "TEE policy schedule" MAX_TEE_POLICY_SCHEDULE_BYTES (zlen input) in
  let+ (_, cur) := d_version "TeePolicyScheduleV1" input in
  let+ (chain_id, cur) := d_word 32 cur in
  let+ (genesis_hash, cur) := d_word 32 cur in
  let+ (entry_count, cur) := d_word 2 cur in
  let+ _ := enforce_limit "TEE policy schedule entries" MAX_TEE_POLICY_SCHEDULE_ENTRIES entry_count in
  let+ _ := erequire (negb (entry_count =? 0)) (NonCanonical "TEE policy schedule is empty") in
  let+ (es, cur) := d_repeat (Z.to_nat entry_count) d_schedule_entry cur in
  let+ _ := d_finish cur in
  let value := mkPolicySchedule chain_id genesis_hash es in
  let+ _ := TeePolicyScheduleV1_validate value in
  inr value.
Definition policy_schedule_hash (s : TeePolicyScheduleV1) : codec B256 :=
  let+ bytes := TeePolicyScheduleV1_encode s in inr (domain_hash POLICY_SCHEDULE_DOMAIN_V1 bytes).
Definition active_policy (s : TeePolicyScheduleV1) (height : Z) : codec TeePolicyV1 :=
  let+ _ := TeePolicyScheduleV1_validate s in
  eok_or (en_policy <$> List.find (fun e => en_activation_height e <=? height) (rev (policy_entries s)))
    (NonCanonical "no active TEE policy at requested height").

(** ** Gas schedules *)

Inductive RegistryMutatorV1 : Type :=
  | MutRegisterEnclave | MutRenewEnclave | MutTransitionEnclaveMeasurement | MutReplaceEnclaveBinding.

Record TeeBootstrapGasInputV1 : Type := mkGasInput {
  full_calldata_len : Z;
  logical_evidence_lengths : list Z;
  active_rule_count : Z;
  collateral_component_count : Z;
  committee_signature_count : Z }.

Record SystemGasScheduleV1 : Type := mkSystemGas {
  tee_bootstrap_fixed : Z;
  tee_bootstrap_input_byte : Z;
  tee_bootstrap_participant : Z;
  tee_bootstrap_collateral_component : Z;
  tee_bootstrap_committee_signature : Z }.
#[global] Instance SystemGasScheduleV1_eq_dec : EqDecision SystemGasScheduleV1.
Proof. solve_decision. Defined.
Definition SystemGasScheduleV1_normative : SystemGasScheduleV1 :=
  mkSystemGas 300000 1 100000 15000 10000.
Definition SystemGasScheduleV1_values (s : SystemGasScheduleV1) : list Z :=
  [tee_bootstrap_fixed s; tee_bootstrap_input_byte s; tee_bootstrap_participant s;
   tee_bootstrap_collateral_component s; tee_bootstrap_committee_signature s].
Definition SystemGasScheduleV1_validate (s : SystemGasScheduleV1) : codec unit :=
  erequire (bool_decide (s = SystemGasScheduleV1_normative))
    (NonCanonical "non-normative system gas schedule").
Definition SystemGasScheduleV1_encode (s : SystemGasScheduleV1) : codec (list Z) :=
  let+ _ := SystemGasScheduleV1_validate s in
  inr ([PROTOCOL_VERSION_V1] ++ concat (be_bytes 8 <$> SystemGasScheduleV1_values s)).
Definition SystemGasScheduleV1_decode (input : list Z) : codec SystemGasScheduleV1 :=
  let+ (_, cur) := d_version "SystemGasScheduleV1" input in
  let+ (fixed, cur) := d_word 8 cur in
  let+ (input_byte, cur) := d_word 8 cur in
  let+ (participant, cur) := d_word 8 cur in
  let+ (component, cur) := d_word 8 cur in
  let+ (signature, cur) := d_word 8 cur in
  let schedule := mkSystemGas fixed input_byte participant component signature in
  let+ _ := d_finish cur in
  let+ _ := SystemGasScheduleV1_validate schedule in
  inr schedule.
Definition system_gas_schedule_hash_of (s : SystemGasScheduleV1) : codec B256 :=
  let+ bytes := SystemGasScheduleV1_encode s in inr (domain_hash SYSTEM_GAS_SCHEDULE_DOMAIN_V1 bytes).

Record TeeRegistryGasScheduleV1 : Type := mkRegistryGas {
  input_byte : Z;
  qvl_dcap_fixed : Z;
  qvl_dev_fixed : Z;
  qvl_component_byte : Z;
  qvl_certificate : Z;
  qvl_crl : Z;
  qvl_signed_json : Z;
  qvl_measurement_rule : Z;
  secp256k1_verify_gas : Z;
  ed25519_verify_gas : Z;
  register_fixed : Z;
  renew_fixed : Z;
  measurement_transition_fixed : Z;
  profile_replacement_fixed : Z;
  delivery_fixed : Z;
  view_fixed : Z;
  view_output_byte : Z }.
#[global] Instance TeeRegistryGasScheduleV1_eq_dec : EqDecision TeeRegistryGasScheduleV1.
Proof. solve_decision. Defined.
Definition TeeRegistryGasScheduleV1_normative : TeeRegistryGasScheduleV1 :=
  mkRegistryGas 4 1500000 200000 6 120000 180000 160000 10000 40000 25000 600000 500000 700000 900000
    400000 100000 4.
Definition TeeRegistryGasScheduleV1_values (s : TeeRegistryGasScheduleV1) : list Z :=
  [input_byte s; qvl_dcap_fixed s; qvl_dev_fixed s; qvl_component_byte s; qvl_certificate s; qvl_crl s;
   qvl_signed_json s; qvl_measurement_rule s; secp256k1_verify_gas s; ed25519_verify_gas s;
   register_fixed s; renew_fixed s; measurement_transition_fixed s; profile_replacement_fixed s;
   delivery_fixed s; view_fixed s; view_output_byte s].
Definition registry_gas_check (s : TeeRegistryGasScheduleV1) : codec unit :=
  erequire (bool_decide (s = TeeRegistryGasScheduleV1_normative))
    (NonCanonical "non-normative TeeRegistry gas schedule").
Definition TeeRegistryGasScheduleV1_encode (s : TeeRegistryGasScheduleV1) : codec (list Z) :=
  let+ _ := registry_gas_check s in
  inr ([PROTOCOL_VERSION_V1] ++ concat (be_bytes 8 <$> TeeRegistryGasScheduleV1_values s)).
Definition TeeRegistryGasScheduleV1_decode (input : list Z) : codec TeeRegistryGasScheduleV1 :=
  let+ (_, cur) := d_version "TeeRegistryGasScheduleV1" input in
  let+ (a1, cur) := d_word 8 cur in
  let+ (a2, cur) := d_word 8 cur in
  let+ (a3, cur) := d_word 8 cur in
  let+ (a4, cur) := d_word 8 cur in
  let+ (a5, cur) := d_word 8 cur in
  let+ (a6, cur) := d_word 8 cur in
  let+ (a7, cur) := d_word 8 cur in
  let+ (a8, cur) := d_word 8 cur in
  let+ (a9, cur) := d_word 8 cur in
  let+ (a10, cur) := d_word 8 cur in
  let+ (a11, cur) := d_word 8 cur in
  let+ (a12, cur) := d_word 8 cur in
  let+ (a13, cur) := d_word 8 cur in
  let+ (a14, cur) := d_word 8 cur in
  let+ (a15, cur) := d_word 8 cur in
  let+ (a16, cur) := d_word 8 cur in
  let+ (a17, cur) := d_word 8 cur in
  let schedule := mkRegistryGas a1 a2 a3 a4 a5 a6 a7 a8 a9 a10 a11 a12 a13 a14 a15 a16 a17 in
  let+ _ := d_finish cur in
  let+ _ := registry_gas_check schedule in
  inr schedule.
Definition registry_gas_schedule_hash_of (s : TeeRegistryGasScheduleV1) : codec B256 :=
  let+ bytes := TeeRegistryGasScheduleV1_encode s in
  inr (domain_hash TEE_REGISTRY_GAS_SCHEDULE_DOMAIN_V1 bytes).

Definition register_storage_gas_allowance (s : TeeRegistryGasScheduleV1) : Z := register_fixed s / 2.
Definition mutator_fixed (s : TeeRegistryGasScheduleV1) (k : RegistryMutatorV1) : Z :=
  match k with
  | MutRegisterEnclave => register_fixed s
  | MutRenewEnclave => renew_fixed s
  | MutTransitionEnclaveMeasurement => measurement_transition_fixed s
  | MutReplaceEnclaveBinding => profile_replacement_fixed s
  end.
Definition mutator_storage_gas_allowance (s : TeeRegistryGasScheduleV1) (k : RegistryMutatorV1) : Z :=
  mutator_fixed s k / 2.

Definition validate_qvl_dimensions (evidence_len rule_count : Z) : codec unit :=
  let+ _ := enforce_limit "attestation evidence" MAX_ATTESTATION_EVIDENCE_BYTES evidence_len in
  enforce_limit "active measurement rules" MAX_ACTIVE_MEASUREMENT_RULES rule_count.
Definition qvl_dcap (s : TeeRegistryGasScheduleV1) (evidence_len rule_count : Z) : codec Z :=
  let+ _ := validate_qvl_dimensions evidence_len rule_count in
  let+ bytes := tee_checked_mul (qvl_component_byte s) evidence_len in
  let+ certs := tee_checked_mul (qvl_certificate s) 9 in
  let+ crls := tee_checked_mul (qvl_crl s) 2 in
  let+ json := tee_checked_mul (qvl_signed_json s) 2 in
  let+ rules := tee_checked_mul (qvl_measurement_rule s) rule_count in
  checked_sum [qvl_dcap_fixed s; bytes; certs; crls; json; rules].
Definition qvl_dev (s : TeeRegistryGasScheduleV1) (evidence_len rule_count : Z) : codec Z :=
  let+ _ := validate_qvl_dimensions evidence_len rule_count in
  let+ bytes := tee_checked_mul (qvl_component_byte s) evidence_len in
  let+ rules := tee_checked_mul (qvl_measurement_rule s) rule_count in
  checked_sum [qvl_dev_fixed s; bytes; ed25519_verify_gas s; rules].
Definition maximum_calldata_intrinsic_gas (input_len : Z) : codec Z :=
  let+ bytes := tee_checked_mul 16 input_len in
  eok_or (checked_add u64_max bytes 21000) ArithmeticOverflow.
Definition maximum_transaction_gas (s : TeeRegistryGasScheduleV1) (k : RegistryMutatorV1)
    (input_len evidence_len rule_count : Z) (mode : AttestationMode) : codec Z :=
  let+ _ := erequire (negb (input_len <? evidence_len))
    (NonCanonical "registry input shorter than evidence") in
  let+ _ := enforce_limit "evidence call framing" MAX_EVIDENCE_CALL_FRAMING_BYTES
    (input_len - evidence_len) in
  let+ qvl := match mode with
    | DcapRequired => qvl_dcap s evidence_len rule_count
    | GramineDirectDev => qvl_dev s evidence_len rule_count
    end in
  let+ input_charge := tee_checked_mul (input_byte s) input_len in
  let+ protocol_precharge := match k with
    | MutRegisterEnclave =>
        let+ secp := tee_checked_mul (secp256k1_verify_gas s) 3 in
        checked_sum [register_fixed s; input_charge; qvl; secp; ed25519_verify_gas s]
    | MutRenewEnclave =>
        checked_sum [renew_fixed s; input_charge; qvl; secp256k1_verify_gas s; ed25519_verify_gas s]
    | MutTransitionEnclaveMeasurement =>
        let+ ed := tee_checked_mul (ed25519_verify_gas s) 2 in
        checked_sum [measurement_transition_fixed s; input_charge; qvl; secp256k1_verify_gas s; ed]
    | MutReplaceEnclaveBinding =>
        let+ secp := tee_checked_mul (secp256k1_verify_gas s) 2 in
        let+ ed := tee_checked_mul (ed25519_verify_gas s) 2 in
        checked_sum [profile_replacement_fixed s; input_charge; qvl; secp; ed]
    end in
  let+ intrinsic := maximum_calldata_intrinsic_gas input_len in
  eok_or (checked_add u64_max intrinsic protocol_precharge) ArithmeticOverflow.

(** The [try_fold] of the QVL charges. *)
Fixpoint qvl_total (t : TeeRegistryGasScheduleV1) (rule_count total : Z) (lens : list Z) : codec Z :=
  match lens with
  | [] => inr total
  | len :: rest =>
      let+ charge := qvl_dcap t len rule_count in
      let+ total := eok_or (checked_add u64_max total charge) ArithmeticOverflow in
      qvl_total t rule_count total rest
  end.
Definition tee_bootstrap_precharge (s : SystemGasScheduleV1) (t : TeeRegistryGasScheduleV1)
    (input : TeeBootstrapGasInputV1) : codec Z :=
  let+ _ := enforce_limit "TeeBootstrapV2 full calldata" MAX_TEE_BOOTSTRAP_BYTES
    (full_calldata_len input) in
  let+ qvl := qvl_total t (active_rule_count input) 0 (logical_evidence_lengths input) in
  let+ bytes := tee_checked_mul (tee_bootstrap_input_byte s) (full_calldata_len input) in
  let+ participants := tee_checked_mul (tee_bootstrap_participant s)
    (zlen (logical_evidence_lengths input)) in
  let+ comps := tee_checked_mul (tee_bootstrap_collateral_component s)
    (collateral_component_count input) in
  let+ sigs := tee_checked_mul (tee_bootstrap_committee_signature s) (committee_signature_count input) in
  checked_sum [tee_bootstrap_fixed s; bytes; participants; qvl; comps; sigs].

(** ** Resource schedule *)

Record ResourceScheduleV1 : Type := mkResources {
  system_gas_schedule_hash : B256;
  tee_registry_gas_schedule_hash : B256;
  bootstrap_block_gas_limit : Z;
  steady_block_gas_limit : Z }.
Definition ResourceScheduleV1_normative : codec ResourceScheduleV1 :=
  let+ system := system_gas_schedule_hash_of SystemGasScheduleV1_normative in
  let+ registry := registry_gas_schedule_hash_of TeeRegistryGasScheduleV1_normative in
  inr (mkResources system registry BOOTSTRAP_BLOCK_GAS_LIMIT STEADY_BLOCK_GAS_LIMIT).
Definition ResourceScheduleV1_validate (r : ResourceScheduleV1) : codec unit :=
  let+ normative := ResourceScheduleV1_normative in
  let+ _ := erequire ((system_gas_schedule_hash r =? system_gas_schedule_hash normative)
                      && (tee_registry_gas_schedule_hash r =? tee_registry_gas_schedule_hash normative))
    (NonCanonical "non-normative resource schedule hashes") in
  erequire ((bootstrap_block_gas_limit r =? BOOTSTRAP_BLOCK_GAS_LIMIT)
            && (steady_block_gas_limit r =? STEADY_BLOCK_GAS_LIMIT))
    (NonCanonical "non-normative block gas limits").
Definition ResourceScheduleV1_encode (r : ResourceScheduleV1) : codec (list Z) :=
  let+ _ := ResourceScheduleV1_validate r in
  inr ([PROTOCOL_VERSION_V1] ++ be_bytes 32 (system_gas_schedule_hash r)
       ++ be_bytes 32 (tee_registry_gas_schedule_hash r) ++ be_bytes 8 (bootstrap_block_gas_limit r)
       ++ be_bytes 8 (steady_block_gas_limit r)).
Definition ResourceScheduleV1_decode (input : list Z) : codec ResourceScheduleV1 :=
  let+ (_, cur) := d_version "ResourceScheduleV1" input in
  let+ (system, cur) := d_word 32 cur in
  let+ (registry, cur) := d_word 32 cur in
  let+ (boot, cur) := d_word 8 cur in
  let+ (steady, cur) := d_word 8 cur in
  let value := mkResources system registry boot steady in
  let+ _ := d_finish cur in
  let+ _ := ResourceScheduleV1_validate value in
  inr value.
Definition resource_schedule_hash_of (r : ResourceScheduleV1) : codec B256 :=
  let+ _ := ResourceScheduleV1_validate r in
  let+ bytes := ResourceScheduleV1_encode r in inr (domain_hash RESOURCE_SCHEDULE_DOMAIN_V1 bytes).

End Tee.
