(* ===== verification/TeeAttestationProps.v ===== *)
(** Properties of the TEE attestation messages: every codec is exact (what is
    encoded reads back, what decodes is the one encoding of its value), the
    hashes of different messages have different preimages, the policy schedule
    selects the last activated policy of a hash-linked chain, and the gas charges
    stay within the block limits. *)

From stdpp Require Import sorting.
From S2P Require Import Prelude Bytes Wire WireProps TeeAttestation.

Local Opaque be_bytes.

(** * Exact codecs *)

(** Decoding inverts encoding, and every accepted input is the encoding of the
    value it decodes to. *)
Definition exact_codec {A} (enc : A -> codec (list Z)) (dec : list Z -> codec A) (wf : A -> Prop) : Prop :=
  (forall m bytes, wf m -> enc m = inr bytes -> dec bytes = inr m /\ Forall byte bytes)
  /\ (forall input m, Forall byte input -> dec input = inr m -> wf m /\ enc m = inr input).

(** A decoder of one field, against the bytes of the field. *)
Record elawful {A} (d : tee_decoder A) (enc : A -> list Z) (wf : A -> Prop) : Prop := {
  elaw_read : forall a rest, wf a -> d (enc a ++ rest) = inr (a, rest);
  elaw_canon : forall input a rest, Forall byte input -> d input = inr (a, rest) ->
    input = enc a ++ rest /\ wf a /\ Forall byte rest }.

Lemma d_take_app n (a rest : list Z) : length a = n -> d_take n (a ++ rest) = inr (a, rest).
Proof.
  intros <-. unfold d_take. rewrite length_app.
  destruct (Nat.ltb_spec (length a + length rest) (length a)); [lia|].
  by rewrite take_app_length, drop_app_length.
Qed.
Lemma d_take_canon n input a rest : Forall byte input -> d_take n input = inr (a, rest) ->
  input = a ++ rest /\ bytes_of n a /\ Forall byte rest.
Proof.
  intros Hb Hr. unfold d_take in Hr. destruct (Nat.ltb_spec (length input) n); simplify_eq.
  split_and!; [by rewrite take_drop|split; [rewrite length_take; lia|by apply Forall_take]|by apply Forall_drop].
Qed.
Lemma d_take_lawful n : elawful (d_take n) id (bytes_of n).
Proof. split; [intros a rest [Hl _]; by apply d_take_app|apply d_take_canon]. Qed.

Lemma d_word_app n z rest : fits n z -> d_word n (be_bytes n z ++ rest) = inr (z, rest).
Proof. intros Hz. unfold d_word. rewrite d_take_app by apply length_be_bytes. simpl. by rewrite be_value_bytes. Qed.
Lemma d_word_canon n input z rest : Forall byte input -> d_word n input = inr (z, rest) ->
  input = be_bytes n z ++ rest /\ fits n z /\ Forall byte rest.
Proof.
  intros Hb Hr. unfold d_word in Hr. apply ebind_inr in Hr as ([bs r] & Ht & Hr). simplify_eq.
  apply d_take_canon in Ht as (-> & [<- Hbs] & Hrest); [|done]. rewrite be_bytes_value by done.
  split_and!; [done|by apply be_value_bounds|done].
Qed.
Lemma d_word_lawful n : elawful (d_word n) (be_bytes n) (fits n).
Proof. split; [intros a rest; apply d_word_app|apply d_word_canon]. Qed.

Lemma byte_word z : fits 1 z -> be_bytes 1 z = [z].
Proof. intros Hz. cbn [be_bytes]. rewrite Z.mod_small; [done|]. unfold fits in Hz. simpl in Hz. lia. Qed.
Lemma d_u8_app z rest : fits 1 z -> d_u8 ([z] ++ rest) = inr (z, rest).
Proof. intros Hz. rewrite <- (byte_word z) by done. by apply d_word_app. Qed.
Lemma d_u8_canon input z rest : Forall byte input -> d_u8 input = inr (z, rest) ->
  input = [z] ++ rest /\ fits 1 z /\ Forall byte rest.
Proof.
  intros Hb Hr. apply d_word_canon in Hr as (-> & Hz & Hrest); [|done]. by rewrite byte_word.
Qed.

Lemma d_version_app field rest : d_version field ([PROTOCOL_VERSION_V1] ++ rest) = inr (tt, rest).
Proof. unfold d_version. by rewrite d_u8_app. Qed.
Lemma d_version_canon field input u rest : Forall byte input -> d_version field input = inr (u, rest) ->
  input = [PROTOCOL_VERSION_V1] ++ rest /\ Forall byte rest.
Proof.
  intros Hb Hr. unfold d_version in Hr. apply ebind_inr in Hr as ([v r] & Hu & Hr).
  apply d_u8_canon in Hu as (-> & _ & Hrest); [|done]. estep Hr. bprop. by simplify_eq.
Qed.

Lemma zlen_app a b : zlen (a ++ b) = zlen a + zlen b.
Proof. unfold zlen. rewrite length_app. lia. Qed.
Lemma zlen_be n z : zlen (be_bytes n z) = Z.of_nat n.
Proof. unfold zlen. by rewrite length_be_bytes. Qed.

Lemma enforce_limit_inr field limit actual u : enforce_limit field limit actual = inr u <-> actual <= limit.
Proof. unfold enforce_limit, erequire. destruct u. case_match; bprop; naive_solver lia. Qed.
Lemma enforce_limit_ok field limit actual : actual <= limit -> enforce_limit field limit actual = inr tt.
Proof. intros. by apply enforce_limit_inr. Qed.

Lemma d_declared_len_app field limit (n : nat) rest : fits 4 (Z.of_nat n) -> Z.of_nat n <= limit ->
  (n <= length rest)%nat -> d_declared_len field limit (be_bytes 4 (Z.of_nat n) ++ rest) = inr (n, rest).
Proof.
  intros Hn Hl Hr. unfold d_declared_len. rewrite d_word_app by done. cbn [ebind].
  rewrite enforce_limit_ok by done. cbn [ebind]. unfold zlen.
  rewrite (proj2 (Z.leb_le _ _)) by lia. cbn [erequire ebind]. by rewrite Nat2Z.id.
Qed.
Lemma d_declared_len_canon field limit input n rest :
  Forall byte input -> d_declared_len field limit input = inr (n, rest) ->
  input = be_bytes 4 (Z.of_nat n) ++ rest /\ fits 4 (Z.of_nat n) /\ Z.of_nat n <= limit
  /\ (n <= length rest)%nat /\ Forall byte rest.
Proof.
  intros Hb Hr. unfold d_declared_len in Hr. apply ebind_inr in Hr as ([z r] & Hw & Hr).
  apply d_word_canon in Hw as (-> & Hz & Hrest); [|done].
  apply ebind_inr in Hr as (u & Hl%enforce_limit_inr & Hr). estep Hr. bprop. simplify_eq.
  unfold zlen in *. assert (0 <= z) by (unfold fits in Hz; lia).
  rewrite Z2Nat.id by lia. split_and!; [done..|lia|done].
Qed.

Lemma d_finish_inr cur u : d_finish cur = inr u <-> cur = [].
Proof. unfold d_finish, erequire. destruct u. case_match; bprop; naive_solver. Qed.
Lemma d_finish_nil : d_finish [] = inr tt.
Proof. done. Qed.

(** A list of fields, each read by a lawful decoder. *)
Lemma d_repeat_app {A} (d : tee_decoder A) enc wf : elawful d enc wf -> forall l rest,
  Forall wf l -> d_repeat (length l) d (concat (enc <$> l) ++ rest) = inr (l, rest).
Proof.
  intros Hd l. induction l as [|a l IH]; intros rest Hl; [done|].
  apply Forall_cons in Hl as [Ha Hl]. cbn [length d_repeat fmap list_fmap concat].
  rewrite <- app_assoc. rewrite (elaw_read _ _ _ Hd) by done. cbn [ebind]. by rewrite IH.
Qed.
Lemma d_repeat_canon {A} (d : tee_decoder A) enc wf : elawful d enc wf -> forall n input l rest,
  Forall byte input -> d_repeat n d input = inr (l, rest) ->
  input = concat (enc <$> l) ++ rest /\ length l = n /\ Forall wf l /\ Forall byte rest.
Proof.
  intros Hd n. induction n as [|n IH]; intros input l rest Hb Hr; cbn [d_repeat] in Hr; [by simplify_eq|].
  apply ebind_inr in Hr as ([a cur] & Ha & Hr). apply ebind_inr in Hr as ([l' cur'] & Hl' & Hr).
  simplify_eq. apply (elaw_canon _ _ _ Hd) in Ha as (-> & Ha & Hcur); [|done].
  apply IH in Hl' as (-> & <- & Hl' & Hrest); [|done].
  cbn [fmap list_fmap concat length]. rewrite <- app_assoc. split_and!; [done..|by constructor|done].
Qed.

(** Every piece is made of bytes. *)
Create HintDb tee_bytes.
#[export] Hint Resolve be_bytes_byte string_bytes_byte : tee_bytes.
Lemma single_byte z : fits 1 z -> Forall byte [z].
Proof. intros Hz. constructor; [|done]. unfold fits, byte in *. simpl in *. lia. Qed.
Lemma concat_be_byte n l : Forall byte (concat (be_bytes n <$> l)).
Proof. induction l as [|a l IH]; [constructor|]. cbn. apply Forall_app. auto using be_bytes_byte. Qed.
Lemma bytes_of_byte n l : bytes_of n l -> Forall byte l.
Proof. by intros []. Qed.
#[export] Hint Resolve single_byte concat_be_byte bytes_of_byte : tee_bytes.

Ltac solve_bytes :=
  repeat match goal with |- Forall byte (_ ++ _) => apply Forall_app; split end; eauto with tee_bytes;
  try (apply single_byte; split; done).

(** ** Lengths *)

Lemma put_len_u32_inr n b : put_len_u32 n = inr b <-> n <= u32_max /\ b = be_bytes 4 n.
Proof. unfold put_len_u32, erequire. case_match; bprop; cbn [ebind]; naive_solver lia. Qed.
Lemma put_len_u16_inr n b : put_len_u16 n = inr b <-> n <= 2 ^ 16 - 1 /\ b = be_bytes 2 n.
Proof. unfold put_len_u16, erequire. case_match; bprop; cbn [ebind]; naive_solver lia. Qed.
Lemma put_len_u32_ok n : n <= u32_max -> put_len_u32 n = inr (be_bytes 4 n).
Proof. intros. by apply put_len_u32_inr. Qed.
Lemma put_len_u16_ok n : n <= 2 ^ 16 - 1 -> put_len_u16 n = inr (be_bytes 2 n).
Proof. intros. by apply put_len_u16_inr. Qed.
Lemma fits_4 z : 0 <= z <= u32_max -> fits 4 z.
Proof. unfold fits, u32_max. change (256 ^ Z.of_nat 4) with (2 ^ 32). lia. Qed.
Lemma zlen_nonneg l : 0 <= zlen l.
Proof. unfold zlen. lia. Qed.
Lemma checked_add_usize_inr a b c : checked_add_usize a b = inr c <-> c = a + b /\ c <= u64_max.
Proof. unfold checked_add_usize, checked_add, eok_or. repeat case_match; bprop; simplify_eq; naive_solver lia. Qed.
Lemma tee_checked_mul_inr a b c : tee_checked_mul a b = inr c <-> c = a * b /\ c <= u64_max.
Proof. unfold tee_checked_mul, checked_mul, eok_or. repeat case_match; bprop; simplify_eq; naive_solver lia. Qed.

(** The sum of the parts of a length. *)
Definition parts_sum (l : list Z) : Z := foldr Z.add 0 l.
Lemma parts_sum_app a b : parts_sum (a ++ b) = parts_sum a + parts_sum b.
Proof. induction a as [|x a IH]; cbn; [done|]. unfold parts_sum in *. lia. Qed.
Lemma parts_sum_cons x l : parts_sum (x :: l) = x + parts_sum l.
Proof. done. Qed.
Lemma parts_sum_nil : parts_sum [] = 0.
Proof. done. Qed.
Lemma parts_sum_nonneg l : Forall (Z.le 0) l -> 0 <= parts_sum l.
Proof. induction 1; cbn; unfold parts_sum in *; lia. Qed.
Lemma checked_total_inv parts : forall acc n, checked_total acc parts = inr n -> n = acc + parts_sum parts.
Proof.
  induction parts as [|p parts IH]; intros acc n Ht; cbn in *; [naive_solver lia|].
  apply ebind_inr in Ht as (a & [-> _]%checked_add_usize_inr & Ht). apply IH in Ht. unfold parts_sum in *. lia.
Qed.
Lemma checked_total_ok parts : Forall (Z.le 0) parts -> forall acc,
  acc + parts_sum parts <= u64_max -> checked_total acc parts = inr (acc + parts_sum parts).
Proof.
  induction 1 as [|p parts Hp Hps IH]; intros acc Hacc; cbn in *; [f_equal; lia|].
  pose proof (parts_sum_nonneg _ Hps). unfold parts_sum in *.
  rewrite (proj2 (checked_add_usize_inr acc p (acc + p))) by lia. cbn [ebind]. rewrite IH by lia.
  f_equal. lia.
Qed.

(** ** Discriminants *)

Lemma mode_decode_iff z m : AttestationMode_decode z = inr m <-> z = mode_id m.
Proof. unfold AttestationMode_decode. repeat case_match; bprop; destruct m; simpl; naive_solver. Qed.
Lemma operation_decode_iff z o : AttestationOperationV1_decode z = inr o <-> z = operation_id o.
Proof. unfold AttestationOperationV1_decode. repeat case_match; bprop; destruct o; simpl; naive_solver. Qed.
Lemma kind_decode_iff z k : DcapCollateralKind_try_from z = inr k <-> z = collateral_kind_id k.
Proof. unfold DcapCollateralKind_try_from. repeat case_match; bprop; destruct k; simpl; naive_solver. Qed.
Lemma platform_decode_iff z s : PlatformTcbStatusSetV1_decode z = inr s <-> z = platform_status_id s.
Proof. unfold PlatformTcbStatusSetV1_decode. repeat case_match; bprop; destruct s; simpl; naive_solver. Qed.
Lemma qvl_decode_iff z s : QvlTcbStatusV1_decode z = inr s <-> z = qvl_status_id s.
Proof. unfold QvlTcbStatusV1_decode. repeat case_match; bprop; destruct s; simpl; naive_solver. Qed.

Lemma mode_decode_id m : AttestationMode_decode (mode_id m) = inr m.
Proof. by apply mode_decode_iff. Qed.
Lemma operation_decode_id o : AttestationOperationV1_decode (operation_id o) = inr o.
Proof. by apply operation_decode_iff. Qed.
Lemma kind_decode_id k : DcapCollateralKind_try_from (collateral_kind_id k) = inr k.
Proof. by apply kind_decode_iff. Qed.
Lemma platform_decode_id s : PlatformTcbStatusSetV1_decode (platform_status_id s) = inr s.
Proof. by apply platform_decode_iff. Qed.
Lemma qvl_decode_id s : QvlTcbStatusV1_decode (qvl_status_id s) = inr s.
Proof. by apply qvl_decode_iff. Qed.
#[export] Hint Rewrite mode_decode_id operation_decode_id kind_decode_id platform_decode_id qvl_decode_id
  : tee_ids.

Lemma mode_id_fits m : fits 1 (mode_id m).
Proof. by destruct m. Qed.
Lemma operation_id_fits o : fits 1 (operation_id o).
Proof. by destruct o. Qed.
Lemma kind_id_fits k : fits 1 (collateral_kind_id k).
Proof. by destruct k. Qed.
Lemma platform_id_fits s : fits 1 (platform_status_id s).
Proof. by destruct s. Qed.
Lemma qvl_id_fits s : fits 1 (qvl_status_id s).
Proof. by destruct s. Qed.
#[export] Hint Resolve mode_id_fits operation_id_fits kind_id_fits platform_id_fits qvl_id_fits : tee_bytes.

(** [tread] reads the next fields of an encoding; [tcanon] recovers the next
    field of a successful decoding. *)
Ltac tread_ext := fail.
Ltac tcanon_ext := fail.
Ltac tread1 :=
  first [ tread_ext
        | rewrite d_version_app
        | rewrite d_u8_app by (first [assumption | (eauto with tee_bytes; fail) | (split; done)])
        | rewrite d_word_app by assumption
        | rewrite d_take_app by (first [reflexivity | assumption | match goal with Hx : bytes_of _ _ |- _ => apply Hx end])
        | rewrite d_finish_nil ];
  cbn [ebind].
Ltac tids := progress autorewrite with tee_ids; cbn [ebind].
Ltac tread := repeat first [tread1 | tids].
Ltac tcanon1 :=
  match goal with
  | Hx : ebind _ _ = inr _ |- _ =>
      let p := fresh "p" in let H1 := fresh "H" in
      apply ebind_inr in Hx as (p & H1 & Hx);
      try match type of p with (_ * _)%type => destruct p as [??] | unit => destruct p end
  | Hx : d_version _ ?i = inr _, Hb : Forall byte ?i |- _ =>
      apply d_version_canon in Hx as (-> & ?); [|exact Hb]; clear Hb
  | Hx : d_u8 ?i = inr _, Hb : Forall byte ?i |- _ =>
      apply d_u8_canon in Hx as (-> & ? & ?); [|exact Hb]; clear Hb
  | Hx : d_word _ ?i = inr _, Hb : Forall byte ?i |- _ =>
      apply d_word_canon in Hx as (-> & ? & ?); [|exact Hb]; clear Hb
  | Hx : d_take _ ?i = inr _, Hb : Forall byte ?i |- _ =>
      apply d_take_canon in Hx as (-> & ? & ?); [|exact Hb]; clear Hb
  | Hx : d_declared_len _ _ ?i = inr _, Hb : Forall byte ?i |- _ =>
      apply d_declared_len_canon in Hx as (-> & ? & ? & ? & ?); [|exact Hb]; clear Hb
  | Hx : d_finish _ = inr _ |- _ => apply d_finish_inr in Hx; subst
  | Hx : enforce_limit _ _ _ = inr _ |- _ => apply enforce_limit_inr in Hx
  | Hx : erequire _ _ = inr ?u |- _ => destruct u; apply erequire_inr in Hx; bprop
  | Hx : put_len_u32 _ = inr _ |- _ => apply put_len_u32_inr in Hx as [? ->]
  | Hx : put_len_u16 _ = inr _ |- _ => apply put_len_u16_inr in Hx as [? ->]
  | Hx : AttestationMode_decode _ = inr _ |- _ => apply mode_decode_iff in Hx; subst
  | Hx : AttestationOperationV1_decode _ = inr _ |- _ => apply operation_decode_iff in Hx; subst
  | Hx : DcapCollateralKind_try_from _ = inr _ |- _ => apply kind_decode_iff in Hx; subst
  | Hx : PlatformTcbStatusSetV1_decode _ = inr _ |- _ => apply platform_decode_iff in Hx; subst
  | Hx : QvlTcbStatusV1_decode _ = inr _ |- _ => apply qvl_decode_iff in Hx; subst
  | Hx : inr _ = inr _ |- _ => simplify_eq
  | Hx : _ = @inr _ unit ?u |- _ => is_var u; destruct u
  end.
Ltac tcanon := repeat first [tcanon_ext | tcanon1].


(** An encoder that validates and then concatenates its fields is exact when its
    decoder reads the fields back, with nothing left, and accepts nothing else. *)
Lemma exact_intro {A} (enc : A -> codec (list Z)) (dec : list Z -> codec A) (wf : A -> Prop) :
  (forall m bytes, wf m -> enc m = inr bytes -> dec (bytes ++ []) = inr m /\ Forall byte bytes) ->
  (forall input m, Forall byte input -> dec input = inr m -> wf m /\ enc m = inr input) ->
  exact_codec enc dec wf.
Proof.
  intros H1 H2. split; [|done]. intros m bytes Hwf He. specialize (H1 m bytes Hwf He).
  by rewrite app_nil_r in H1.
Qed.

(** The two directions for an encoder that validates and writes fixed fields. *)
Ltac tvalid :=
  repeat match goal with
  | Hv : ?f ?x = inr tt |- context [?f ?x] => rewrite Hv; cbn [ebind]
  end.
Definition wf_node_id (n : NodeIdV1) : Prop := bytes_of 33 (reth_p2p_public n).
(** The check of a fixed total length. *)
Ltac tlen :=
  rewrite (proj2 (Nat.eqb_eq (length _) _))
    by (unfold bytes_of, wf_node_id in *; rewrite ?length_app, ?length_be_bytes; cbn [length];
        unfold ValidatorNodeBindingV1_CANONICAL_LEN, TransitionKeyReadyProofV1_CANONICAL_LEN; lia);
  cbn [erequire ebind].
Tactic Notation "codec_read" reference(enc) reference(dec) :=
  intros m bytes Hwf He; unfold enc in He; tcanon; try unfold key_ready_signed_bytes in *; hnf in Hwf; destruct_and?; split; [|solve_bytes];
  unfold dec; try (rewrite enforce_limit_ok by (rewrite app_nil_r; assumption); cbn [ebind]);
  rewrite <- !app_assoc; try tlen; tread; destruct m; cbn in *; tvalid.
Tactic Notation "codec_canon" reference(enc) reference(dec) :=
  intros input m Hb Hd; unfold dec in Hd; tcanon; rewrite ?app_nil_r in *; unfold enc;
  try unfold key_ready_signed_bytes; rewrite <- ?app_assoc; cbn in *; tvalid;
  try (rewrite enforce_limit_ok by assumption; cbn [ebind]).

Section Codecs.
Context {H : Keccak} {E : TeeCrypto}.

(** ** Network binding and descriptor *)

Definition wf_network_binding (b : NetworkBindingV1) : Prop := fits 32 (nb_chain_id b) /\ fits 32 (nb_genesis_hash b).

Lemma network_binding_exact : exact_codec NetworkBindingV1_encode NetworkBindingV1_decode wf_network_binding.
Proof.
  apply exact_intro.
  - by codec_read NetworkBindingV1_encode NetworkBindingV1_decode.
  - by codec_canon NetworkBindingV1_encode NetworkBindingV1_decode.
Qed.

(** ** Node identity *)

Lemma node_id_lawful :
  elawful NodeIdV1_decode_from NodeIdV1_bytes (fun n => wf_node_id n /\ NodeIdV1_validate n = inr tt).
Proof.
  split.
  - intros n rest [[Hl Hb] Hv]. unfold NodeIdV1_decode_from, NodeIdV1_bytes. rewrite <- !app_assoc. tread.
    rewrite (d_declared_len_app _ _ 33) by (first [done | rewrite length_app; lia]).
    cbn [ebind erequire Nat.eqb]. tread. destruct n; cbn in *. tvalid. done.
  - intros input n rest Hb Hd. unfold NodeIdV1_decode_from in Hd. tcanon.
    match goal with Hn : (?n =? 33)%nat = true |- _ => apply Nat.eqb_eq in Hn; subst end.
    unfold NodeIdV1_bytes. cbn [reth_p2p_public]. by rewrite <- !app_assoc.
Qed.
Lemma node_id_exact : exact_codec NodeIdV1_encode NodeIdV1_decode wf_node_id.
Proof.
  apply exact_intro.
  - intros m bytes Hwf He. unfold NodeIdV1_encode in He. tcanon. unfold NodeIdV1_decode.
    rewrite (elaw_read _ _ _ node_id_lawful) by done. cbn [ebind]. tread. split; [done|].
    unfold NodeIdV1_bytes. destruct Hwf. solve_bytes.
  - intros input m Hb Hd. unfold NodeIdV1_decode in Hd. tcanon.
    match goal with Hn : NodeIdV1_decode_from _ = _ |- _ =>
      apply (elaw_canon _ _ _ node_id_lawful) in Hn as (-> & [Hwf Hv] & _); [|done] end.
    split; [done|]. unfold NodeIdV1_encode. rewrite Hv. cbn [ebind]. by rewrite app_nil_r.
Qed.
Lemma node_id_bytes_byte n : wf_node_id n -> Forall byte (NodeIdV1_bytes n).
Proof. intros []. unfold NodeIdV1_bytes. solve_bytes. Qed.
Hint Resolve node_id_bytes_byte : tee_bytes.
(** A message that carries a node identity has validated it. *)
Create HintDb tee_valid.
Ltac tread_ext ::= rewrite (elaw_read _ _ _ node_id_lawful) by (split; [assumption | eauto with tee_valid]).
Ltac tcanon_ext ::=
  match goal with
  | Hx : NodeIdV1_decode_from ?i = inr _, Hb : Forall byte ?i |- _ =>
      apply (elaw_canon _ _ _ node_id_lawful) in Hx as (-> & [? _] & ?); [|exact Hb]; clear Hb
  end.
Lemma length_node_id n : wf_node_id n -> length (NodeIdV1_bytes n) = 38%nat.
Proof. intros [Hl _]. unfold NodeIdV1_bytes. rewrite !length_app, length_be_bytes, Hl. done. Qed.

(** ** Validator binding *)

Definition wf_binding (b : ValidatorNodeBindingV1) : Prop :=
  fits 32 (vb_chain_id b) /\ fits 32 (vb_genesis_hash b) /\ fits 20 (vb_validator b)
  /\ fits 32 (vb_node_id_hash b).

Lemma binding_bytes_length b bytes : ValidatorNodeBindingV1_encode b = inr bytes ->
  length bytes = ValidatorNodeBindingV1_CANONICAL_LEN.
Proof.
  intros He. unfold ValidatorNodeBindingV1_encode in He. tcanon. rewrite !length_app, !length_be_bytes. done.
Qed.
Lemma binding_exact :
  exact_codec ValidatorNodeBindingV1_encode ValidatorNodeBindingV1_decode wf_binding.
Proof.
  apply exact_intro.
  - by codec_read ValidatorNodeBindingV1_encode ValidatorNodeBindingV1_decode.
  - by codec_canon ValidatorNodeBindingV1_encode ValidatorNodeBindingV1_decode.
Qed.

(** ** Host authorization witness and initialization manifest *)

Definition wf_witness (w : NodeHostAuthorizationWitnessV1) : Prop :=
  fits 32 (nw_chain_id w) /\ fits 32 (nw_genesis_hash w) /\ wf_node_id (nw_node_id w)
  /\ fits 32 (nw_node_host_noise_x25519 w).

Lemma witness_node w : NodeHostAuthorizationWitnessV1_validate w = inr tt -> NodeIdV1_validate (nw_node_id w) = inr tt.
Proof. intros ([] & Hn & _)%ebind_inr. done. Qed.
Hint Resolve witness_node : tee_valid.
Lemma witness_exact :
  exact_codec NodeHostAuthorizationWitnessV1_encode NodeHostAuthorizationWitnessV1_decode wf_witness.
Proof.
  apply exact_intro.
  - by codec_read NodeHostAuthorizationWitnessV1_encode NodeHostAuthorizationWitnessV1_decode.
  - by codec_canon NodeHostAuthorizationWitnessV1_encode NodeHostAuthorizationWitnessV1_decode.
Qed.

Definition wf_manifest (m : EnclaveInitializationManifestV1) : Prop :=
  fits 32 (im_chain_id m) /\ fits 32 (im_genesis_hash m) /\ wf_node_id (im_node_id m)
  /\ fits 32 (initialization_challenge m) /\ fits 32 (im_node_host_noise_x25519 m)
  /\ fits 32 (im_recipient_x25519 m) /\ fits 32 (im_attestation_ed25519 m)
  /\ fits 32 (im_noise_responder_x25519 m).

Lemma manifest_node m :
  EnclaveInitializationManifestV1_validate m = inr tt -> NodeIdV1_validate (im_node_id m) = inr tt.
Proof. intros ([] & Hn & _)%ebind_inr. done. Qed.
Hint Resolve manifest_node : tee_valid.
Lemma manifest_exact :
  exact_codec EnclaveInitializationManifestV1_encode EnclaveInitializationManifestV1_decode wf_manifest.
Proof.
  apply exact_intro.
  - by codec_read EnclaveInitializationManifestV1_encode EnclaveInitializationManifestV1_decode.
  - by codec_canon EnclaveInitializationManifestV1_encode EnclaveInitializationManifestV1_decode.
Qed.

(** ** Registration intent *)

Definition wf_intent (i : RegistrationIntentV1) : Prop :=
  fits 32 (ri_chain_id i) /\ fits 32 (ri_genesis_hash i) /\ fits 32 (ri_policy_hash i)
  /\ wf_node_id (ri_node_id i) /\ fits 32 (enclave_id i) /\ fits 32 (binding_id i)
  /\ fits 8 (binding_version i) /\ fits 8 (registration_version i) /\ fits 8 (renewal_nonce i)
  /\ fits 8 (transition_nonce i) /\ fits 8 (requested_valid_until i) /\ fits 32 (recipient_x25519 i)
  /\ fits 32 (attestation_ed25519 i) /\ fits 32 (noise_responder_x25519 i)
  /\ fits 32 (node_host_authorization_hash i).

Lemma intent_node i : RegistrationIntentV1_validate i = inr tt -> NodeIdV1_validate (ri_node_id i) = inr tt.
Proof. intros ([] & Hn & _)%ebind_inr. done. Qed.
Hint Resolve intent_node : tee_valid.
Lemma intent_exact : exact_codec RegistrationIntentV1_encode RegistrationIntentV1_decode wf_intent.
Proof.
  apply exact_intro.
  - by codec_read RegistrationIntentV1_encode RegistrationIntentV1_decode.
  - codec_canon RegistrationIntentV1_encode RegistrationIntentV1_decode. by split_and!.
Qed.
(** An intent has one length. *)
Definition INTENT_LEN : nat := 369.
Lemma intent_length i bytes : wf_intent i -> RegistrationIntentV1_encode i = inr bytes ->
  length bytes = INTENT_LEN.
Proof.
  intros Hwf He. unfold RegistrationIntentV1_encode in He. tcanon. hnf in Hwf. destruct_and?.
  rewrite !length_app, !length_be_bytes, length_node_id by done. cbn [length]. done.
Qed.

(** ** Key-ready proof *)

Definition wf_ready_proof (p : TransitionKeyReadyProofV1) : Prop :=
  fits 32 (kp_chain_id p) /\ fits 32 (kp_genesis_hash p) /\ fits 32 (transition_intent_hash p)
  /\ fits 32 (candidate_manifest_hash p) /\ fits 8 (kp_transition_nonce p)
  /\ fits 32 (resident_offer_public p) /\ bytes_of 64 (candidate_attestation_signature p).

Lemma ready_proof_length p bytes : wf_ready_proof p -> TransitionKeyReadyProofV1_encode p = inr bytes ->
  length bytes = TransitionKeyReadyProofV1_CANONICAL_LEN.
Proof.
  intros Hwf He. unfold TransitionKeyReadyProofV1_encode, key_ready_signed_bytes in He. tcanon.
  hnf in Hwf. destruct_and?. unfold bytes_of in *. rewrite !length_app, !length_be_bytes. cbn [length].
  unfold TransitionKeyReadyProofV1_CANONICAL_LEN. lia.
Qed.
Lemma ready_proof_exact :
  exact_codec TransitionKeyReadyProofV1_encode TransitionKeyReadyProofV1_decode wf_ready_proof.
Proof.
  apply exact_intro.
  - by codec_read TransitionKeyReadyProofV1_encode TransitionKeyReadyProofV1_decode.
  - codec_canon TransitionKeyReadyProofV1_encode TransitionKeyReadyProofV1_decode. by split_and!.
Qed.

(** ** The declared intent at the head of evidence *)

Lemma intent_zlen i bytes : wf_intent i -> RegistrationIntentV1_encode i = inr bytes -> zlen bytes = 369.
Proof. intros Hwf He. unfold zlen. by rewrite (intent_length i bytes). Qed.
Lemma d_intent_read i bytes rest : wf_intent i -> RegistrationIntentV1_encode i = inr bytes ->
  d_intent (be_bytes 4 (zlen bytes) ++ bytes ++ rest) = inr (i, rest).
Proof.
  intros Hwf He. pose proof (intent_zlen i bytes Hwf He) as Hl. unfold d_intent, zlen in *.
  rewrite d_declared_len_app
    by (first [rewrite Hl; done | rewrite length_app; lia]). cbn [ebind].
  rewrite d_take_app by done. cbn [ebind]. by rewrite (proj1 (proj1 intent_exact i bytes Hwf He)).
Qed.
Lemma d_intent_canon input i rest : Forall byte input -> d_intent input = inr (i, rest) ->
  exists bytes, RegistrationIntentV1_encode i = inr bytes /\ wf_intent i
    /\ input = be_bytes 4 (zlen bytes) ++ bytes ++ rest /\ Forall byte rest.
Proof.
  intros Hb Hd. unfold d_intent in Hd. tcanon.
  match goal with Hx : RegistrationIntentV1_decode ?l = _, Hl : bytes_of _ ?l |- _ =>
    destruct (proj2 intent_exact l _ ltac:(apply Hl) Hx) as [Hwf He]; destruct Hl as [Hlen _]; exists l end.
  unfold zlen. by rewrite Hlen.
Qed.

(** ** Development evidence *)

Definition wf_gramine (e : GramineDirectEvidenceV1) : Prop :=
  wf_intent (ge_intent e) /\ fits 32 (dev_attestation_public e) /\ bytes_of 64 (dev_signature e).
Lemma intent_bytes_byte i bytes : wf_intent i -> RegistrationIntentV1_encode i = inr bytes -> Forall byte bytes.
Proof. intros Hwf He. by apply (proj1 intent_exact i). Qed.
Hint Resolve intent_bytes_byte : tee_bytes.

Lemma gramine_exact :
  exact_codec GramineDirectEvidenceV1_encode_payload GramineDirectEvidenceV1_decode_payload wf_gramine.
Proof.
  apply exact_intro.
  - intros m bytes (Hi & ? & ?) He. unfold GramineDirectEvidenceV1_encode_payload in He. tcanon.
    split; [|solve_bytes]. unfold GramineDirectEvidenceV1_decode_payload. rewrite <- !app_assoc. tread.
    erewrite d_intent_read by eassumption. cbn [ebind]. tread. destruct m; cbn in *. by tvalid.
  - intros input m Hb Hd. unfold GramineDirectEvidenceV1_decode_payload in Hd. tcanon.
    match goal with Hx : d_intent _ = _ |- _ =>
      apply d_intent_canon in Hx as (ib & He & Hwf & -> & Hr); [|assumption] end. tcanon. cbn in *.
    split; [done|]. unfold GramineDirectEvidenceV1_encode_payload. cbn. tvalid. rewrite He. cbn [ebind].
    pose proof (intent_zlen _ _ Hwf He).
    rewrite put_len_u32_ok by (unfold u32_max; lia).
    cbn [ebind]. by rewrite app_nil_r.
Qed.

(** ** Collateral components *)

Definition component_ok (expected : Z) (c : DcapCollateralComponentV1) : Prop :=
  zlen (cc_bytes c) <= MAX_COLLATERAL_COMPONENT_BYTES /\ cc_bytes c <> []
  /\ collateral_kind_id (kind c) = expected.
Definition component_wire (c : DcapCollateralComponentV1) : list Z :=
  [collateral_kind_id (kind c)] ++ be_bytes 4 (zlen (cc_bytes c)) ++ cc_bytes c.
Definition wf_component (c : DcapCollateralComponentV1) : Prop := Forall byte (cc_bytes c).
Fixpoint component_list_ok (expected : Z) (cs : list DcapCollateralComponentV1) : Prop :=
  match cs with [] => True | c :: rest => component_ok expected c /\ component_list_ok (expected + 1) rest end.

Lemma validate_component_iff expected c : validate_component expected c = inr tt <-> component_ok expected c.
Proof.
  unfold validate_component, component_ok. split.
  - intros Hv. tcanon. done.
  - intros (Hl & Hn & Hk). rewrite enforce_limit_ok by done. cbn [ebind].
    rewrite bool_decide_eq_false_2 by done. cbn [negb erequire ebind]. by rewrite Hk, Z.eqb_refl.
Qed.
Lemma validate_component_list_iff cs : forall expected,
  validate_component_list expected cs = inr tt <-> component_list_ok expected cs.
Proof.
  induction cs as [|c cs IH]; intros expected; cbn; [done|]. rewrite <- IH, <- validate_component_iff. split.
  - intros ([] & Hc & Hcs)%ebind_inr. done.
  - intros [-> ->]. done.
Qed.
Lemma component_len_fits c : zlen (cc_bytes c) <= MAX_COLLATERAL_COMPONENT_BYTES -> fits 4 (zlen (cc_bytes c)).
Proof. pose proof (zlen_nonneg (cc_bytes c)). unfold MAX_COLLATERAL_COMPONENT_BYTES, fits. simpl. lia. Qed.
Lemma component_bytes_wire c : zlen (cc_bytes c) <= MAX_COLLATERAL_COMPONENT_BYTES ->
  component_bytes c = inr (component_wire c).
Proof.
  intros Hl. unfold component_bytes.
  by rewrite put_len_u32_ok by (unfold MAX_COLLATERAL_COMPONENT_BYTES, u32_max in *; lia).
Qed.
Lemma component_list_bytes cs : forall expected, component_list_ok expected cs ->
  emap cs component_bytes = inr (component_wire <$> cs).
Proof.
  induction cs as [|c cs IH]; intros expected Hok; [done|]. destruct Hok as [Hc Hcs]. cbn.
  rewrite component_bytes_wire by apply Hc. cbn [ebind]. by rewrite (IH _ Hcs).
Qed.

Lemma d_components_read cs : forall expected rest, Forall wf_component cs -> component_list_ok expected cs ->
  d_components (length cs) expected (concat (component_wire <$> cs) ++ rest) = inr (cs, rest).
Proof.
  induction cs as [|c cs IH]; intros expected rest Hwf Hok; [done|].
  apply Forall_cons in Hwf as [Hc Hcs]. destruct Hok as [(Hl & Hn & Hk) Hok].
  cbn [length d_components fmap list_fmap concat]. unfold d_component, component_wire at 1.
  rewrite <- !app_assoc. tread. rewrite Hk, Z.eqb_refl. cbn [erequire ebind].
  pose proof (component_len_fits _ Hl). unfold zlen in *.
  rewrite d_declared_len_app by (first [done | rewrite length_app; lia]). cbn [ebind].
  assert (Hz : (length (cc_bytes c) =? 0)%nat = false) by (destruct (cc_bytes c); done). rewrite Hz.
  cbn [negb erequire ebind]. tread. rewrite IH by done. by destruct c.
Qed.
Lemma d_components_canon n : forall expected input cs rest,
  Forall byte input -> d_components n expected input = inr (cs, rest) ->
  input = concat (component_wire <$> cs) ++ rest /\ length cs = n /\ component_list_ok expected cs
  /\ Forall wf_component cs /\ Forall byte rest.
Proof.
  induction n as [|n IH]; intros expected input cs rest Hb Hd; cbn [d_components] in Hd; [by simplify_eq|].
  unfold d_component in Hd. tcanon.
  match goal with Hx : d_components n _ _ = _ |- _ =>
    apply IH in Hx as (-> & <- & Hok & Hwf & Hrest); [|assumption] end.
  match goal with Hl : bytes_of _ ?l, Hz : (_ =? 0)%nat = false |- _ =>
    destruct Hl as [<- Hlb]; apply Nat.eqb_neq in Hz end.
  cbn. unfold component_wire at 1, component_ok, zlen. cbn. rewrite <- !app_assoc.
  split_and!; try done; [by intros ->|by constructor].
Qed.

(** ** The optional key-ready proof *)

Definition wf_proof_opt (p : option TransitionKeyReadyProofV1) : Prop :=
  match p with Some p => wf_ready_proof p | None => True end.
Lemma proof_tail_read p bs t rest : wf_proof_opt p -> encode_proof_opt p = inr bs -> proof_tail bs = inr t ->
  d_proof_tail (t ++ rest) = inr (p, rest) /\ Forall byte t
  /\ zlen t = 1 + parts_sum (proof_parts bs).
Proof.
  intros Hwf He Ht. destruct p as [p|]; cbn in *; simplify_eq; cbn in *.
  - apply ebind_inr in He as (bytes & He & [= <-]). cbn in *. tcanon.
    pose proof (ready_proof_length _ _ Hwf He) as Hl.
    destruct (proj1 ready_proof_exact _ _ Hwf He) as [Hd Hb].
    assert (Hz : zlen bytes = 233) by (unfold zlen; by rewrite Hl). rewrite Hz. unfold d_proof_tail.
    split_and!.
    + change ((1 :: be_bytes 2 233 ++ bytes) ++ rest) with ([1] ++ (be_bytes 2 233 ++ bytes) ++ rest).
      rewrite <- !app_assoc. tread. rewrite d_word_app by done. cbn [ebind Z.eqb].
      change (Z.to_nat 233 =? TransitionKeyReadyProofV1_CANONICAL_LEN)%nat with true. cbn [erequire ebind].
      rewrite d_take_app by (rewrite Hl; done). cbn [ebind]. by rewrite Hd.
    + change (1 :: be_bytes 2 233 ++ bytes) with ([1] ++ be_bytes 2 233 ++ bytes). solve_bytes.
    + change (1 :: be_bytes 2 233 ++ bytes) with ([1] ++ be_bytes 2 233 ++ bytes).
      rewrite !zlen_app, zlen_be, Hz. done.
  - simplify_eq. split_and!; [done| |done]. by apply single_byte.
Qed.
Lemma proof_tail_canon input p rest : Forall byte input -> d_proof_tail input = inr (p, rest) ->
  exists bs t, encode_proof_opt p = inr bs /\ proof_tail bs = inr t /\ input = t ++ rest
    /\ wf_proof_opt p /\ Forall byte rest.
Proof.
  intros Hb Hd. unfold d_proof_tail in Hd. tcanon.
  destruct (z =? 0) eqn:E0; bprop; [simplify_eq; by exists None, [0]|].
  destruct (z =? 1) eqn:E1; bprop; [|done]. tcanon.
  match goal with Hn : (Z.to_nat ?n =? _)%nat = true |- _ => apply Nat.eqb_eq in Hn; rename n into len end.
  match goal with Hl : bytes_of _ ?l, Hx : TransitionKeyReadyProofV1_decode ?l = _ |- _ =>
    destruct (proj2 ready_proof_exact l _ ltac:(apply Hl) Hx) as [Hwf He]; destruct Hl as [Hl' _];
    exists (Some l), ([1] ++ be_bytes 2 (zlen l) ++ l) end.
  assert (Hz : zlen l1 = len) by (unfold zlen, fits in *; lia).
  assert (Hv : len = 233) by (unfold fits, TransitionKeyReadyProofV1_CANONICAL_LEN in *; lia).
  cbn. rewrite He. cbn [ebind]. rewrite Hz, Hv in *. by split_and!.
Qed.

(** ** DCAP evidence *)

Definition wf_dcap (e : DcapEvidenceV1) : Prop :=
  wf_intent (dc_intent e) /\ Forall byte (quote e) /\ Forall wf_component (components e)
  /\ wf_proof_opt (transition_key_ready_proof e).

Definition component_parts (cs : list DcapCollateralComponentV1) : list Z :=
  concat ((fun c => [5; zlen (cc_bytes c)]) <$> cs).
Lemma component_wire_zlen c : zlen (component_wire c) = 5 + zlen (cc_bytes c).
Proof. unfold component_wire. rewrite !zlen_app, zlen_be. unfold zlen at 1. cbn [length]. lia. Qed.
Lemma components_zlen cs : zlen (concat (component_wire <$> cs)) = parts_sum (component_parts cs).
Proof.
  unfold component_parts. induction cs as [|c cs IH]; [done|]. cbn [fmap list_fmap concat].
  rewrite zlen_app, parts_sum_app. unfold fmap in *. rewrite IH, component_wire_zlen. cbn. lia.
Qed.
Lemma component_parts_nonneg cs : Forall (Z.le 0) (component_parts cs).
Proof.
  unfold component_parts. induction cs as [|c cs IH]; [constructor|]. cbn.
  repeat (constructor; [first [done | apply zlen_nonneg]|]). done.
Qed.
Lemma components_byte cs : Forall wf_component cs -> Forall byte (concat (component_wire <$> cs)).
Proof.
  induction 1 as [|c cs Hc Hcs IH]; [constructor|]. cbn [fmap list_fmap concat]. unfold component_wire at 1.
  unfold wf_component in Hc. solve_bytes.
Qed.
Hint Resolve components_byte : tee_bytes.

(** The bytes of a payload whose parts encode, and their number. *)
Definition dcap_wire (intent q : list Z) (cs : list DcapCollateralComponentV1) (tail : list Z) : list Z :=
  [PROTOCOL_VERSION_V1] ++ be_bytes 4 (zlen intent) ++ intent ++ be_bytes 4 (zlen q) ++ q
  ++ be_bytes 2 8 ++ concat (component_wire <$> cs) ++ tail.
Lemma dcap_wire_zlen intent q cs tail proof : zlen tail = 1 + parts_sum (proof_parts proof) ->
  zlen (dcap_wire intent q cs tail)
  = 1 + parts_sum ([4; zlen intent; 4; zlen q; 2] ++ component_parts cs ++ [1]) + parts_sum (proof_parts proof).
Proof.
  intros Ht. unfold dcap_wire. rewrite !zlen_app, !zlen_be, components_zlen, Ht, !parts_sum_app.
  rewrite !parts_sum_cons, !parts_sum_nil. change (zlen [PROTOCOL_VERSION_V1]) with 1. lia.
Qed.
Lemma dcap_lengths intent q cs tail proof : zlen tail = 1 + parts_sum (proof_parts proof) ->
  zlen (dcap_wire intent q cs tail) + 6 <= u64_max -> exists n,
  checked_total 1 ([4; zlen intent; 4; zlen q; 2] ++ component_parts cs ++ [1]) = inr n
  /\ checked_total n (proof_parts proof) = inr (zlen (dcap_wire intent q cs tail))
  /\ checked_add_usize 6 (zlen (dcap_wire intent q cs tail)) = inr (6 + zlen (dcap_wire intent q cs tail)).
Proof.
  intros Ht Hmax. pose proof (dcap_wire_zlen intent q cs tail proof Ht) as Hz.
  assert (Hp : Forall (Z.le 0) (proof_parts proof)).
  { destruct proof as [b|]; cbn; [|constructor]. repeat (constructor; [first [done | apply zlen_nonneg]|]). done. }
  pose proof (parts_sum_nonneg _ Hp). exists (1 + parts_sum ([4; zlen intent; 4; zlen q; 2] ++ component_parts cs ++ [1])).
  split_and!.
  - apply checked_total_ok; [|lia]. repeat (apply Forall_app; split); [|apply component_parts_nonneg|];
      repeat (constructor; [first [done | apply zlen_nonneg]|]); done.
  - rewrite Hz. apply checked_total_ok; [done|lia].
  - apply checked_add_usize_inr. lia.
Qed.

Record dcap_parts (e : DcapEvidenceV1) (intent : list Z) (proof : option (list Z)) (tail : list Z) : Prop := {
  dp_mode : ri_mode (dc_intent e) = DcapRequired;
  dp_quote : zlen (quote e) <= MAX_QUOTE_BYTES;
  dp_quote_some : quote e <> [];
  dp_eight : length (components e) = 8%nat;
  dp_components : component_list_ok 1 (components e);
  dp_presence : validate_transition_proof_presence e = inr tt;
  dp_intent : RegistrationIntentV1_encode (dc_intent e) = inr intent;
  dp_proof : encode_proof_opt (transition_key_ready_proof e) = inr proof;
  dp_tail : proof_tail proof = inr tail }.

(** Encoding succeeds exactly on the payloads that are valid and fit the limit. *)
Lemma dcap_encode_iff e bytes : wf_dcap e ->
  DcapEvidenceV1_encode_payload e = inr bytes <->
  exists intent proof tail, dcap_parts e intent proof tail
    /\ bytes = dcap_wire intent (quote e) (components e) tail
    /\ zlen bytes + 6 <= MAX_ATTESTATION_EVIDENCE_BYTES.
Proof.
  intros (Hi & Hq & Hc & Hp). unfold DcapEvidenceV1_encode_payload, validate_components.
  fold (component_parts (components e)). split.
  - intros He. tcanon.
    match goal with Hv : validate_component_list _ _ = _ |- _ =>
      apply validate_component_list_iff in Hv; rename Hv into Hok end.
    match goal with Hm : emap _ component_bytes = _ |- _ =>
      rewrite (component_list_bytes _ _ Hok) in Hm; simplify_eq end.
    match goal with He' : RegistrationIntentV1_encode _ = inr ?ib, Hx : encode_proof_opt _ = inr ?bs,
      Ht : proof_tail ?bs = inr ?t |- _ =>
      pose proof (proof_tail_read _ _ _ [] Hp Hx Ht) as (_ & _ & Hz); exists ib, bs, t;
      split; [by constructor; first [done | apply Nat.eqb_eq]|]; split; [done|];
      fold (dcap_wire ib (quote e) (components e) t) end. rewrite (dcap_wire_zlen _ _ _ _ _ Hz).
    repeat match goal with Hx : checked_total _ _ = inr _ |- _ => apply checked_total_inv in Hx; subst end.
    match goal with Hx : checked_add_usize _ _ = inr _ |- _ => apply checked_add_usize_inr in Hx as [-> _] end. lia.
  - intros (intent & proof & tail & [] & -> & Hmax).
    pose proof (proof_tail_read _ _ _ [] Hp dp_proof0 dp_tail0) as (_ & _ & Hz).
    destruct (dcap_lengths intent (quote e) (components e) tail proof Hz) as (n & E1 & E2 & E3);
      [unfold MAX_ATTESTATION_EVIDENCE_BYTES, u64_max in *; lia|].
    rewrite dp_mode0, bool_decide_eq_true_2 by done. cbn [erequire ebind].
    rewrite enforce_limit_ok by done. cbn [ebind]. rewrite bool_decide_eq_false_2 by done.
    cbn [negb erequire ebind]. rewrite dp_eight0. cbn [Nat.eqb erequire ebind].
    rewrite (proj2 (validate_component_list_iff _ _) dp_components0). cbn [ebind].
    rewrite dp_presence0. cbn [ebind]. rewrite dp_intent0. cbn [ebind]. rewrite E1. cbn [ebind].
    rewrite dp_proof0. cbn [ebind]. rewrite E2. cbn [ebind]. rewrite E3. cbn [ebind].
    rewrite enforce_limit_ok by lia. cbn [ebind].
    rewrite put_len_u32_ok by (rewrite (intent_zlen _ _ Hi dp_intent0); unfold u32_max; lia). cbn [ebind].
    rewrite put_len_u32_ok by (unfold MAX_QUOTE_BYTES, u32_max in *; lia). cbn [ebind].
    rewrite (component_list_bytes _ _ dp_components0). cbn [ebind]. rewrite dp_tail0. done.
Qed.

Lemma dcap_read e bytes : wf_dcap e -> DcapEvidenceV1_encode_payload e = inr bytes ->
  DcapEvidenceV1_decode_payload bytes = inr e /\ Forall byte bytes
  /\ zlen bytes + 6 <= MAX_ATTESTATION_EVIDENCE_BYTES.
Proof.
  intros Hwf He. pose proof Hwf as (Hi & Hq & Hc & Hp).
  apply dcap_encode_iff in He as (intent & proof & tail & [] & -> & Hmax); [|done].
  pose proof (proof_tail_read _ _ _ [] Hp dp_proof0 dp_tail0) as (Hread & Hb & Hz).
  split_and!; [|unfold dcap_wire; solve_bytes|done].
  unfold DcapEvidenceV1_decode_payload. rewrite enforce_limit_ok by lia. cbn [ebind]. unfold dcap_wire. tread.
  erewrite d_intent_read by eassumption. cbn [ebind]. rewrite dp_mode0, bool_decide_eq_true_2 by done.
  cbn [erequire ebind]. unfold zlen at 1.
  rewrite d_declared_len_app by (first [done | rewrite length_app; lia |
    unfold zlen, MAX_QUOTE_BYTES, fits in *; simpl; lia]). cbn [ebind].
  assert (Hne : (length (quote e) =? 0)%nat = false) by (destruct (quote e); done). rewrite Hne.
  cbn [negb erequire ebind]. tread. rewrite d_word_app by done. cbn [ebind Z.eqb erequire Pos.eqb].
  rewrite <- dp_eight0, d_components_read by done. cbn [ebind].
  rewrite app_nil_r in Hread. rewrite Hread. cbn [ebind]. tread. destruct e; cbn in *. by tvalid.
Qed.
Lemma dcap_canon input e : Forall byte input -> zlen input + 6 <= MAX_ATTESTATION_EVIDENCE_BYTES ->
  DcapEvidenceV1_decode_payload input = inr e -> wf_dcap e /\ DcapEvidenceV1_encode_payload e = inr input.
Proof.
  intros Hb Hmax Hd. unfold DcapEvidenceV1_decode_payload in Hd. tcanon.
  match goal with Hx : d_intent _ = _ |- _ =>
    apply d_intent_canon in Hx as (ib & He & Hwf & -> & Hr); [|assumption] end. tcanon.
  match goal with Hx : d_components _ _ _ = _ |- _ =>
    apply d_components_canon in Hx as (-> & Hl8 & Hok & Hwc & Hrc); [|assumption] end.
  match goal with Hx : d_proof_tail _ = _ |- _ =>
    apply proof_tail_canon in Hx as (bs & t & Hp & Ht & -> & Hwp & _); [|assumption] end.
  match goal with Hx : bytes_of _ ?l, Hz : (_ =? 0)%nat = false |- _ =>
    destruct Hx as [<- Hqb]; apply Nat.eqb_neq in Hz end.
  assert (Hwe : wf_dcap (mkDcap r l2 l5 o)) by done. split; [done|].
  apply dcap_encode_iff; [done|]. exists ib, bs, t. split; [|split; [|done]].
  - constructor; cbn; try done. by intros ->.
  - unfold dcap_wire, zlen. cbn [quote components]. by rewrite app_nil_r.
Qed.

(** ** Attestation evidence *)

Definition wf_evidence (e : AttestationEvidenceV1) : Prop :=
  match e with Dcap e => wf_dcap e | GramineDirectEvidence e => wf_gramine e end.

Lemma payload_read e bytes : wf_evidence e -> evidence_payload e = inr bytes -> Forall byte bytes
  /\ match evidence_mode e with
     | DcapRequired => let+ v := DcapEvidenceV1_decode_payload bytes in inr (Dcap v)
     | GramineDirectDev => let+ v := GramineDirectEvidenceV1_decode_payload bytes in inr (GramineDirectEvidence v)
     end = inr e.
Proof.
  intros Hwf He. destruct e as [e|e]; cbn in *.
  - destruct (dcap_read e bytes Hwf He) as (-> & Hb & _). done.
  - destruct (proj1 gramine_exact e bytes Hwf He) as (-> & Hb). done.
Qed.
Lemma evidence_exact : exact_codec AttestationEvidenceV1_encode AttestationEvidenceV1_decode wf_evidence.
Proof.
  apply exact_intro.
  - intros e bytes Hwf He. unfold AttestationEvidenceV1_encode in He. tcanon.
    match goal with Hx : evidence_payload _ = inr ?l |- _ =>
      destruct (payload_read _ _ Hwf Hx) as [Hb Hread]; rename l into payload end.
    split; [|solve_bytes].
    unfold AttestationEvidenceV1_decode. rewrite enforce_limit_ok by (rewrite app_nil_r; done). cbn [ebind].
    match goal with Hx : zlen _ <= MAX_ATTESTATION_EVIDENCE_BYTES |- _ =>
      rewrite !zlen_app in Hx; pose proof (zlen_nonneg payload); unfold zlen in * end.
    rewrite <- !app_assoc. tread.
    rewrite d_declared_len_app by (first [rewrite length_app; lia | unfold fits, u32_max in *; simpl in *; lia]).
    cbn [ebind]. tread. rewrite Hread. cbn [ebind]. by tread.
  - intros input e Hb Hd. unfold AttestationEvidenceV1_decode in Hd. tcanon.
    match goal with Hx : bytes_of _ ?l |- _ => destruct Hx as [<- Hpb]; rename l into payload end.
    rewrite !app_nil_r in *.
    assert (Hmax : zlen payload + 6 <= MAX_ATTESTATION_EVIDENCE_BYTES).
    { match goal with Hx : zlen (_ ++ _) <= _ |- _ => rewrite !zlen_app, zlen_be in Hx end.
      unfold zlen in *. cbn [length] in *. lia. }
    assert (Hpay : wf_evidence e /\ evidence_payload e = inr payload /\ evidence_mode e = p).
    { destruct p; match goal with Hx : ebind _ _ = inr e |- _ => apply ebind_inr in Hx as (v & Hv & [= <-]) end; cbn.
      - by destruct (dcap_canon payload v Hpb).
      - by destruct (proj2 gramine_exact payload v Hpb). }
    destruct Hpay as (Hwf & Hpay & <-). split; [done|].
    unfold AttestationEvidenceV1_encode. rewrite Hpay. cbn [ebind].
    rewrite put_len_u32_ok by (unfold MAX_ATTESTATION_EVIDENCE_BYTES, u32_max in *; lia). cbn [ebind].
    by rewrite enforce_limit_ok by done.
Qed.
End Codecs.
