(* ===== verification/TeePolicyProps.v ===== *)
(** Properties of the TEE policies: exact codecs of the measurement rules,
    policies, their schedule, the gas and resource schedules and the trusted
    descriptor; the policy in force at a height; bounds of the gas charges. *)

From stdpp Require Import sorting.
From S2P Require Import Prelude Bytes Wire WireProps TeeAttestation TeeAttestationProps.

Local Opaque be_bytes.

Section Policies.
Context {H : Keccak} {E : TeeCrypto}.

(** * Measurement rules *)

Definition wf_rule (r : TeeMeasurementRuleV1) : Prop :=
  fits 32 (mrenclave r) /\ fits 32 (mrsigner r) /\ fits 2 (isv_prod_id r) /\ fits 2 (minimum_isv_svn r)
  /\ fits 8 (admit_from_height r) /\ fits 8 (admit_until_height_exclusive r).
Definition rule_wire (r : TeeMeasurementRuleV1) : list Z :=
  [PROTOCOL_VERSION_V1] ++ be_bytes 32 (mrenclave r) ++ be_bytes 32 (mrsigner r)
  ++ be_bytes 2 (isv_prod_id r) ++ be_bytes 2 (minimum_isv_svn r)
  ++ be_bytes 8 (admit_from_height r) ++ be_bytes 8 (admit_until_height_exclusive r).

Lemma rule_encode_iff r b :
  TeeMeasurementRuleV1_encode r = inr b <-> TeeMeasurementRuleV1_validate r = inr tt /\ b = rule_wire r.
Proof.
  unfold TeeMeasurementRuleV1_encode. split.
  - intros ([] & Hv & [= <-])%ebind_inr. done.
  - intros [-> ->]. done.
Qed.
Lemma rule_wire_byte r : Forall byte (rule_wire r).
Proof. unfold rule_wire. solve_bytes. Qed.
Lemma rule_wire_zlen r : zlen (rule_wire r) = 85.
Proof. unfold rule_wire. rewrite !zlen_app, !zlen_be. done. Qed.
Lemma rules_wire_byte rs : Forall byte (concat (rule_wire <$> rs)).
Proof. induction rs; [constructor|]. cbn [fmap list_fmap concat]. apply Forall_app. split; [apply rule_wire_byte|done]. Qed.
Lemma rules_wire_zlen rs : zlen (concat (rule_wire <$> rs)) = 85 * Z.of_nat (length rs).
Proof.
  induction rs as [|r rs IH]; [done|]. cbn [fmap list_fmap concat]. rewrite zlen_app, rule_wire_zlen.
  rewrite IH. cbn [length]. lia.
Qed.
Hint Resolve rules_wire_byte : tee_bytes.

Lemma rule_lawful : elawful TeeMeasurementRuleV1_decode_from rule_wire
  (fun r => wf_rule r /\ TeeMeasurementRuleV1_validate r = inr tt).
Proof.
  split.
  - intros r rest [Hwf Hv]. hnf in Hwf. destruct_and?.
    unfold TeeMeasurementRuleV1_decode_from, rule_wire. rewrite <- !app_assoc. tread.
    destruct r; cbn in *. by tvalid.
  - intros input r rest Hb Hd. unfold TeeMeasurementRuleV1_decode_from in Hd. tcanon.
    unfold rule_wire. cbn [mrenclave mrsigner isv_prod_id minimum_isv_svn admit_from_height
      admit_until_height_exclusive]. by rewrite <- !app_assoc.
Qed.

(** Accepted rules are valid and listed in increasing order of their bytes. *)
Fixpoint rules_ok (previous : option (list Z)) (rs : list TeeMeasurementRuleV1) : Prop :=
  match rs with
  | [] => True
  | r :: rest =>
      TeeMeasurementRuleV1_validate r = inr tt
      /\ match previous with Some p => bytes_leb (rule_wire r) p = false | None => True end
      /\ rules_ok (Some (rule_wire r)) rest
  end.
Lemma validate_rules_iff rs : forall previous, validate_rules previous rs = inr tt <-> rules_ok previous rs.
Proof.
  induction rs as [|r rs IH]; intros previous; cbn; [done|]. split.
  - intros (b & [Hv ->]%rule_encode_iff & Hrest)%ebind_inr. estep Hrest. bprop.
    apply IH in Hrest. split_and!; [done| |done]. by destruct previous.
  - intros (Hv & Hp & Hrest). rewrite (proj2 (rule_encode_iff r _) (conj Hv eq_refl)). cbn [ebind].
    replace (match previous with Some p => bytes_leb (rule_wire r) p | None => false end) with false
      by (by destruct previous). cbn [negb erequire ebind]. by apply IH.
Qed.
Lemma rules_ok_valid rs : forall previous, rules_ok previous rs ->
  Forall (fun r => TeeMeasurementRuleV1_validate r = inr tt) rs.
Proof. induction rs as [|r rs IH]; intros previous; cbn; [done|]. intros (Hv & _ & Hr). constructor; eauto. Qed.
Lemma rules_encode rs : Forall (fun r => TeeMeasurementRuleV1_validate r = inr tt) rs ->
  emap rs TeeMeasurementRuleV1_encode = inr (rule_wire <$> rs).
Proof.
  intros Hrs. apply emap_inr. induction Hrs; cbn; constructor; [|done]. by apply rule_encode_iff.
Qed.

(** * Policies *)

Definition wf_policy (p : TeePolicyV1) : Prop :=
  fits 8 (policy_version p) /\ fits 32 (tp_chain_id p) /\ fits 32 (tp_genesis_hash p)
  /\ fits 8 (activation_height p) /\ fits 32 (predecessor_policy_hash p) /\ fits 32 (intel_root_der_hash p)
  /\ fits 2 (quote_version p) /\ fits 4 (tee_type p) /\ fits 2 (attestation_key_type p)
  /\ bytes_of 16 (qe_vendor_id p) /\ fits 2 (certification_data_type p)
  /\ fits 1 (tcb_info_schema_version p) /\ fits 1 (qe_identity_schema_version p)
  /\ fits 4 (minimum_tcb_evaluation_data_number p) /\ fits 8 (minimum_lease p)
  /\ fits 8 (maximum_lease p) /\ fits 8 (collateral_margin p) /\ fits 32 (resource_schedule_hash p)
  /\ Forall wf_rule (measurement_rules p).

(** The fields before the rules. *)
Definition policy_head (p : TeePolicyV1) : list Z :=
  [PROTOCOL_VERSION_V1] ++ be_bytes 8 (policy_version p) ++ be_bytes 32 (tp_chain_id p)
  ++ be_bytes 32 (tp_genesis_hash p) ++ be_bytes 8 (activation_height p)
  ++ be_bytes 32 (predecessor_policy_hash p) ++ [mode_id (tp_mode p)]
  ++ be_bytes 32 (intel_root_der_hash p) ++ be_bytes 2 (quote_version p) ++ be_bytes 4 (tee_type p)
  ++ be_bytes 2 (attestation_key_type p) ++ qe_vendor_id p ++ be_bytes 2 (certification_data_type p)
  ++ [tcb_info_schema_version p] ++ [qe_identity_schema_version p]
  ++ be_bytes 4 (minimum_tcb_evaluation_data_number p)
  ++ [platform_status_id (accepted_platform_tcb_statuses p)]
  ++ [qvl_status_id (accepted_qe_tcb_status p)] ++ be_bytes 8 (minimum_lease p)
  ++ be_bytes 8 (maximum_lease p) ++ be_bytes 8 (collateral_margin p)
  ++ be_bytes 32 (resource_schedule_hash p).
Definition policy_wire (p : TeePolicyV1) : list Z :=
  policy_head p ++ be_bytes 2 (Z.of_nat (length (measurement_rules p)))
  ++ concat (rule_wire <$> measurement_rules p).

Record policy_valid (p : TeePolicyV1) : Prop := {
  pv_version : policy_version p <> 0;
  pv_some : measurement_rules p <> [];
  pv_count : Z.of_nat (length (measurement_rules p)) <= MAX_ACTIVE_MEASUREMENT_RULES;
  pv_rules : Forall (fun r => TeeMeasurementRuleV1_validate r = inr tt) (measurement_rules p) }.
Lemma policy_validate_inv p : TeePolicyV1_validate p = inr tt -> policy_valid p.
Proof.
  intros Hv. unfold TeePolicyV1_validate in Hv. tcanon. constructor; try done.
  - intros Hn. rewrite Hn in *. done.
  - match goal with Hr : validate_rules _ _ = _ |- _ => apply validate_rules_iff in Hr; by eapply rules_ok_valid end.
Qed.

(** A policy with at most 64 rules takes at most 5,678 bytes: neither the
    policy's own limit nor the one of the bootstrap payload refuses it. *)
Lemma policy_wire_zlen p : wf_policy p ->
  zlen (policy_wire p) = 238 + 85 * Z.of_nat (length (measurement_rules p)).
Proof.
  intros Hwf. assert (Hq : zlen (qe_vendor_id p) = 16) by (hnf in Hwf; destruct_and?; unfold zlen, bytes_of in *; lia).
  unfold policy_wire, policy_head. rewrite !zlen_app, !zlen_be, rules_wire_zlen, Hq.
  change (zlen [PROTOCOL_VERSION_V1]) with 1. change (zlen [mode_id (tp_mode p)]) with 1.
  change (zlen [platform_status_id (accepted_platform_tcb_statuses p)]) with 1.
  change (zlen [tcb_info_schema_version p]) with 1. change (zlen [qe_identity_schema_version p]) with 1.
  change (zlen [qvl_status_id (accepted_qe_tcb_status p)]) with 1. lia.
Qed.
Lemma policy_encode_ok p : wf_policy p -> TeePolicyV1_validate p = inr tt ->
  TeePolicyV1_encode p = inr (policy_wire p) /\ zlen (policy_wire p) <= 5678.
Proof.
  intros Hwf Hv. destruct (policy_validate_inv p Hv) as [_ _ Hc Hr].
  pose proof (policy_wire_zlen p Hwf) as Hz. unfold MAX_ACTIVE_MEASUREMENT_RULES in Hc. split; [|lia].
  unfold TeePolicyV1_encode. rewrite Hv. cbn [ebind]. rewrite put_len_u16_ok by lia. cbn [ebind].
  rewrite rules_encode by done. cbn [ebind]. rewrite enforce_limit_ok; [|].
  - cbn [ebind]. f_equal. unfold policy_wire, policy_head. by rewrite <- !app_assoc.
  - unfold policy_wire, policy_head in Hz. rewrite <- !app_assoc in Hz. rewrite Hz. unfold MAX_TEE_POLICY_BYTES. lia.
Qed.
Lemma policy_encode_inv p bytes : TeePolicyV1_encode p = inr bytes -> TeePolicyV1_validate p = inr tt.
Proof. intros ([] & Hv & _)%ebind_inr. done. Qed.

Lemma policy_head_byte p : wf_policy p -> Forall byte (policy_head p).
Proof. intros Hwf. hnf in Hwf. destruct_and?. unfold policy_head. solve_bytes. Qed.
Lemma policy_wire_byte p : wf_policy p -> Forall byte (policy_wire p).
Proof. intros Hwf. pose proof (policy_head_byte p Hwf). unfold policy_wire. solve_bytes. Qed.

Lemma policy_exact : exact_codec TeePolicyV1_encode TeePolicyV1_decode wf_policy.
Proof.
  apply exact_intro.
  - intros p bytes Hwf He. pose proof (policy_encode_inv _ _ He) as Hv.
    destruct (policy_encode_ok p Hwf Hv) as [He' Hmax]. rewrite He' in He. simplify_eq.
    split; [|by apply policy_wire_byte]. destruct (policy_validate_inv p Hv) as [_ Hs Hc Hr].
    unfold TeePolicyV1_decode.
    rewrite enforce_limit_ok by (rewrite app_nil_r; unfold MAX_TEE_POLICY_BYTES; lia). cbn [ebind].
    unfold policy_wire, policy_head. rewrite <- !app_assoc. hnf in Hwf. destruct_and?. tread.
    rewrite d_word_app by (unfold MAX_ACTIVE_MEASUREMENT_RULES, fits in *; simpl; lia). cbn [ebind].
    rewrite enforce_limit_ok by done. cbn [ebind].
    rewrite (proj2 (Z.eqb_neq _ _)) by (destruct (measurement_rules p); [done|cbn [length]; lia]).
    cbn [negb erequire ebind]. rewrite Nat2Z.id.
    rewrite (d_repeat_app _ _ _ rule_lawful) by (by apply Forall_and). cbn [ebind]. tread.
    destruct p; cbn in *. by tvalid.
  - intros input p Hb Hd. unfold TeePolicyV1_decode in Hd. tcanon.
    match goal with Hx : d_repeat _ _ _ = _ |- _ =>
      apply (d_repeat_canon _ _ _ rule_lawful) in Hx as (-> & Hl & Hrs & _); [|assumption] end.
    match goal with Hv : TeePolicyV1_validate ?p = _ |- _ => assert (Hwf : wf_policy p) end.
    { apply Forall_and in Hrs as [Hrs _]. unfold wf_policy. cbn. by split_and!. }
    split; [done|]. match goal with Hv : TeePolicyV1_validate ?p = _ |- _ =>
      destruct (policy_encode_ok p Hwf Hv) as [-> _] end.
    f_equal. unfold policy_wire, policy_head. cbn [policy_version tp_chain_id tp_genesis_hash activation_height
      predecessor_policy_hash tp_mode intel_root_der_hash quote_version tee_type attestation_key_type
      qe_vendor_id certification_data_type tcb_info_schema_version qe_identity_schema_version
      minimum_tcb_evaluation_data_number accepted_platform_tcb_statuses accepted_qe_tcb_status minimum_lease
      maximum_lease collateral_margin resource_schedule_hash measurement_rules].
    rewrite <- !app_assoc, app_nil_r, Hl, Z2Nat.id by (unfold fits in *; lia). done.
Qed.

(** * Policy schedule *)

Definition wf_entry (e : TeePolicyScheduleEntryV1) : Prop :=
  fits 8 (en_activation_height e) /\ wf_policy (en_policy e).
Definition wf_schedule (s : TeePolicyScheduleV1) : Prop :=
  fits 32 (ps_chain_id s) /\ fits 32 (ps_genesis_hash s) /\ Forall wf_entry (policy_entries s).
(** Hashes are 32 bytes. *)
Hypothesis keccak_fits : forall b, fits 32 (keccak256 b).

Definition policy_digest (p : TeePolicyV1) : B256 := domain_hash POLICY_DOMAIN_V1 (policy_wire p).
Lemma policy_hash_ok p : wf_policy p -> TeePolicyV1_validate p = inr tt -> policy_hash p = inr (policy_digest p).
Proof. intros Hwf Hv. unfold policy_hash. by rewrite (proj1 (policy_encode_ok p Hwf Hv)). Qed.
Lemma policy_hash_inv p h : wf_policy p -> policy_hash p = inr h ->
  TeePolicyV1_validate p = inr tt /\ h = policy_digest p.
Proof.
  intros Hwf Hh. pose proof Hh as (bytes & He & _)%ebind_inr. pose proof (policy_encode_inv _ _ He) as Hv.
  rewrite (policy_hash_ok p Hwf Hv) in Hh. by simplify_eq.
Qed.

Definition entry_wire (e : TeePolicyScheduleEntryV1) : list Z :=
  be_bytes 8 (en_activation_height e) ++ be_bytes 4 (zlen (policy_wire (en_policy e)))
  ++ policy_wire (en_policy e) ++ be_bytes 32 (policy_digest (en_policy e)).
Definition entry_valid (e : TeePolicyScheduleEntryV1) : Prop := TeePolicyV1_validate (en_policy e) = inr tt.

Lemma entry_encode e : wf_entry e -> entry_valid e -> schedule_entry_bytes e = inr (entry_wire e).
Proof.
  intros [_ Hwf] Hv. destruct (policy_encode_ok _ Hwf Hv) as [He Hmax]. unfold schedule_entry_bytes.
  rewrite He. cbn [ebind]. rewrite put_len_u32_ok by (unfold u32_max; lia). cbn [ebind].
  by rewrite policy_hash_ok.
Qed.
Lemma entry_wire_byte e : wf_entry e -> Forall byte (entry_wire e).
Proof. intros [_ Hwf]. pose proof (policy_wire_byte _ Hwf). unfold entry_wire. solve_bytes. Qed.
Lemma entry_wire_zlen e : wf_entry e -> entry_valid e -> zlen (entry_wire e) <= 8 + 4 + 5678 + 32.
Proof.
  intros [_ Hwf] Hv. destruct (policy_encode_ok _ Hwf Hv) as [_ Hmax]. unfold entry_wire.
  rewrite !zlen_app, !zlen_be. lia.
Qed.
Lemma entry_lawful : elawful d_schedule_entry entry_wire (fun e => wf_entry e /\ entry_valid e).
Proof.
  split.
  - intros e rest [[Hh Hwf] Hv]. unfold d_schedule_entry, entry_wire. rewrite <- !app_assoc. tread.
    destruct (policy_encode_ok _ Hwf Hv) as [He Hmax]. unfold zlen in *.
    rewrite d_declared_len_app by (first [apply fits_4; unfold u32_max; lia | rewrite length_app; lia |
      unfold MAX_TEE_POLICY_BYTES; lia]). cbn [ebind]. tread.
    rewrite (proj1 (proj1 policy_exact _ _ Hwf He)). cbn [ebind].
    rewrite d_word_app by apply keccak_fits. cbn [ebind].
    rewrite policy_hash_ok by done. cbn [ebind]. rewrite Z.eqb_refl. cbn [erequire ebind]. by destruct e.
  - intros input e rest Hb Hd. unfold d_schedule_entry in Hd. tcanon.
    match goal with Hx : TeePolicyV1_decode ?l = inr ?p, Hl : bytes_of _ ?l |- _ =>
      destruct (proj2 policy_exact l p ltac:(apply Hl) Hx) as [Hwf He]; destruct Hl as [<- _];
      pose proof (policy_encode_inv _ _ He) as Hv;
      destruct (policy_encode_ok _ Hwf Hv) as [He' _]; rewrite He' in He; simplify_eq end.
    match goal with Hx : policy_hash _ = _ |- _ => apply policy_hash_inv in Hx as [_ ->]; [|done] end.
    unfold entry_wire, zlen. cbn [en_activation_height en_policy]. by rewrite <- !app_assoc.
Qed.

(** What validation establishes of an entry after its predecessor. *)
Definition identity_ok (s : TeePolicyScheduleV1) (e : TeePolicyScheduleEntryV1) : Prop :=
  tp_chain_id (en_policy e) = ps_chain_id s /\ tp_genesis_hash (en_policy e) = ps_genesis_hash s.
Definition follows (s : TeePolicyScheduleV1) (prev e : TeePolicyScheduleEntryV1) : Prop :=
  identity_ok s e /\ en_activation_height prev < en_activation_height e
  /\ activation_height (en_policy e) = en_activation_height e
  /\ policy_version (en_policy e) = policy_version (en_policy prev) + 1
  /\ policy_version (en_policy e) <= u64_max
  /\ predecessor_policy_hash (en_policy e) = policy_digest (en_policy prev)
  /\ entry_valid e.
Fixpoint chain_ok (s : TeePolicyScheduleV1) (prev : TeePolicyScheduleEntryV1)
    (rest : list TeePolicyScheduleEntryV1) : Prop :=
  match rest with [] => True | e :: rest => follows s prev e /\ chain_ok s e rest end.
Definition first_ok (s : TeePolicyScheduleV1) (e : TeePolicyScheduleEntryV1) : Prop :=
  en_activation_height e = 1 /\ activation_height (en_policy e) = 1 /\ policy_version (en_policy e) = 1
  /\ predecessor_policy_hash (en_policy e) = 0 /\ entry_valid e /\ identity_ok s e.
Definition schedule_ok (s : TeePolicyScheduleV1) : Prop :=
  ps_genesis_hash s <> 0 /\ Z.of_nat (length (policy_entries s)) <= MAX_TEE_POLICY_SCHEDULE_ENTRIES
  /\ match policy_entries s with [] => False | e :: rest => first_ok s e /\ chain_ok s e rest end.

Lemma identity_iff s e : validate_entry_identity s e = inr tt <-> identity_ok s e.
Proof.
  unfold validate_entry_identity, identity_ok, erequire. case_match; bprop; [done|].
  split; [done|]. intros [? ?]. destruct_or?; bprop; lia.
Qed.
Lemma successors_iff s rest : forall prev, Forall wf_entry rest ->
  validate_successors s (policy_digest (en_policy prev)) (policy_version (en_policy prev))
    (en_activation_height prev) rest = inr tt <-> chain_ok s prev rest.
Proof.
  induction rest as [|e rest IH]; intros prev Hwf; cbn; [done|].
  apply Forall_cons in Hwf as [[Hh Hwp] Hwf]. rewrite <- (IH e) by done. split.
  - intros Hv. tcanon. match goal with Hx : validate_entry_identity _ _ = _ |- _ => apply identity_iff in Hx end.
    match goal with Hx : eok_or _ _ = _ |- _ => apply eok_or_inr, checked_add_some in Hx as [-> Hc] end.
    match goal with Hx : policy_hash _ = _ |- _ => apply policy_hash_inv in Hx as [Hpv ->]; [|done] end.
    split; [|done]. unfold follows. split_and!; try done; lia.
  - intros [(Hi & Hlt & Ha & Hver & Hmax & Hp & Hev) Hrest].
    rewrite (proj2 (identity_iff s e) Hi). cbn [ebind]. rewrite (proj2 (Z.leb_gt _ _)) by lia.
    rewrite Ha, Z.eqb_refl. cbn [negb andb erequire ebind]. unfold checked_add.
    rewrite (proj2 (Z.leb_le _ _)) by lia. cbn [eok_or ebind]. rewrite Hver, Z.eqb_refl. cbn [erequire ebind].
    rewrite Hp, Z.eqb_refl. cbn [erequire ebind]. rewrite policy_hash_ok by done. cbn [ebind].
    by rewrite <- Hver.
Qed.
Lemma schedule_validate_iff s : wf_schedule s ->
  TeePolicyScheduleV1_validate s = inr tt <-> schedule_ok s.
Proof.
  intros (_ & _ & Hwf). unfold TeePolicyScheduleV1_validate, schedule_ok.
  destruct (policy_entries s) as [|e rest]; [split; [intros Hv; by tcanon|naive_solver]|].
  apply Forall_cons in Hwf as [[Hh Hwp] Hwf]. split.
  - intros Hv. tcanon. match goal with Hx : validate_entry_identity _ _ = _ |- _ => apply identity_iff in Hx end.
    match goal with Hx : policy_hash _ = _ |- _ => apply policy_hash_inv in Hx as [Hpv ->]; [|done] end.
    match goal with Hx : validate_successors _ _ _ _ _ = _ |- _ => apply successors_iff in Hx; [|done] end.
    by split_and!.
  - intros (Hg & Hl & (H1 & H2 & H3 & H4 & Hev & Hi) & Hchain). rewrite (proj2 (Z.eqb_neq _ _) Hg).
    cbn [negb erequire ebind]. rewrite enforce_limit_ok by done. cbn [ebind].
    rewrite H1, H2, H3, H4. cbn [Z.eqb Pos.eqb andb erequire ebind]. rewrite policy_hash_ok by done. cbn [ebind].
    rewrite (proj2 (identity_iff s e) Hi). cbn [ebind].
    apply (successors_iff s rest e Hwf) in Hchain. by rewrite H1, H3 in Hchain.
Qed.

Lemma chain_valid s rest : forall prev, chain_ok s prev rest -> Forall entry_valid rest.
Proof.
  induction rest as [|e rest IH]; intros prev; cbn; [done|]. intros [Hf Hc].
  constructor; [by apply Hf|by eapply IH].
Qed.
Lemma schedule_entries_valid s : schedule_ok s -> Forall entry_valid (policy_entries s).
Proof.
  intros (_ & _ & Hm). destruct (policy_entries s) as [|e rest]; [done|]. destruct Hm as [Hf Hc].
  constructor; [by apply Hf|by eapply chain_valid].
Qed.

Definition schedule_wire (s : TeePolicyScheduleV1) : list Z :=
  [PROTOCOL_VERSION_V1] ++ be_bytes 32 (ps_chain_id s) ++ be_bytes 32 (ps_genesis_hash s)
  ++ be_bytes 2 (Z.of_nat (length (policy_entries s))) ++ concat (entry_wire <$> policy_entries s).
Lemma entries_wire es : Forall wf_entry es -> Forall entry_valid es ->
  emap es schedule_entry_bytes = inr (entry_wire <$> es)
  /\ Forall byte (concat (entry_wire <$> es))
  /\ zlen (concat (entry_wire <$> es)) <= 5722 * Z.of_nat (length es).
Proof.
  intros Hwf Hv. induction Hwf as [|e es He Hwf IH]; [done|]. apply Forall_cons in Hv as [Hev Hv].
  destruct (IH Hv) as (E1 & E2 & E3). cbn [emap fmap list_fmap concat length].
  rewrite entry_encode by done. cbn [ebind]. rewrite E1. split_and!; [done| |].
  - apply Forall_app. split; [by apply entry_wire_byte|done].
  - rewrite zlen_app. pose proof (entry_wire_zlen e He Hev). lia.
Qed.
Lemma schedule_encode_ok s : wf_schedule s -> TeePolicyScheduleV1_validate s = inr tt ->
  TeePolicyScheduleV1_encode s = inr (schedule_wire s) /\ Forall byte (schedule_wire s)
  /\ zlen (schedule_wire s) <= MAX_TEE_POLICY_SCHEDULE_BYTES.
Proof.
  intros Hwf Hv. pose proof (proj1 (schedule_validate_iff s Hwf) Hv) as Hok.
  pose proof Hwf as (Hc & Hg & Hwe). pose proof Hok as (_ & Hl & _).
  destruct (entries_wire _ Hwe (schedule_entries_valid s Hok)) as (E1 & E2 & E3).
  assert (Hz : zlen (schedule_wire s) <= MAX_TEE_POLICY_SCHEDULE_BYTES).
  { unfold schedule_wire. rewrite !zlen_app, !zlen_be. change (zlen [PROTOCOL_VERSION_V1]) with 1.
    unfold MAX_TEE_POLICY_SCHEDULE_BYTES, MAX_TEE_POLICY_SCHEDULE_ENTRIES, MAX_TEE_POLICY_BYTES in *. lia. }
  split_and!; [|unfold schedule_wire; solve_bytes|done]. unfold TeePolicyScheduleV1_encode. rewrite Hv. cbn [ebind].
  rewrite put_len_u16_ok by (unfold MAX_TEE_POLICY_SCHEDULE_ENTRIES in *; lia). cbn [ebind].
  rewrite E1. cbn [ebind]. unfold schedule_wire in *. by rewrite enforce_limit_ok by done.
Qed.

Lemma schedule_exact : exact_codec TeePolicyScheduleV1_encode TeePolicyScheduleV1_decode wf_schedule.
Proof.
  apply exact_intro.
  - intros s bytes Hwf He. pose proof He as ([] & Hv & _)%ebind_inr.
    destruct (schedule_encode_ok s Hwf Hv) as (He' & Hb & Hz). rewrite He' in He. simplify_eq.
    split; [|done]. pose proof (proj1 (schedule_validate_iff s Hwf) Hv) as Hok.
    pose proof (schedule_entries_valid s Hok) as Hev. destruct Hok as (_ & Hl & Hne). destruct Hwf as (? & ? & Hwe).
    unfold TeePolicyScheduleV1_decode. rewrite enforce_limit_ok by (by rewrite app_nil_r). cbn [ebind].
    unfold schedule_wire. rewrite <- !app_assoc. tread.
    rewrite d_word_app by (unfold fits, MAX_TEE_POLICY_SCHEDULE_ENTRIES in *; simpl; lia). cbn [ebind].
    rewrite enforce_limit_ok by done. cbn [ebind].
    rewrite (proj2 (Z.eqb_neq _ _)) by (destruct (policy_entries s); [done|cbn [length]; lia]).
    cbn [negb erequire ebind]. rewrite Nat2Z.id.
    rewrite (d_repeat_app _ _ _ entry_lawful) by (by apply Forall_and). cbn [ebind]. tread.
    destruct s; cbn in *. by tvalid.
  - intros input s Hb Hd. unfold TeePolicyScheduleV1_decode in Hd. tcanon.
    match goal with Hx : d_repeat _ _ _ = _ |- _ =>
      apply (d_repeat_canon _ _ _ entry_lawful) in Hx as (-> & Hl & Hes & _); [|assumption] end.
    apply Forall_and in Hes as [Hes _].
    match goal with Hv : TeePolicyScheduleV1_validate ?s = _ |- _ =>
      assert (Hwf : wf_schedule s) by done; split; [done|];
      destruct (schedule_encode_ok s Hwf Hv) as (-> & _ & _) end.
    unfold schedule_wire. cbn [ps_chain_id ps_genesis_hash policy_entries].
    rewrite app_nil_r, Hl, Z2Nat.id by (unfold fits in *; lia). done.
Qed.

(** * The policy in force *)

(** Searching from the back finds the last match. *)
Lemma find_rev_last {A} (f : A -> bool) (l : list A) : forall a, List.find f (rev l) = Some a ->
  exists i, l !! i = Some a /\ f a = true /\ forall j b, (i < j)%nat -> l !! j = Some b -> f b = false.
Proof.
  induction l as [|x l IH] using rev_ind; intros a Hf; [done|]. rewrite rev_app_distr in Hf. cbn in Hf.
  destruct (f x) eqn:Hx; simplify_eq.
  - exists (length l). rewrite lookup_app_r, Nat.sub_diag by lia. split_and!; [done..|].
    intros j b Hj Hb. rewrite lookup_app_r in Hb by lia. apply lookup_lt_Some in Hb as Hlt. simpl in Hlt. lia.
  - destruct (IH a Hf) as (i & Hi & Ha & Hlast). exists i. apply lookup_lt_Some in Hi as Hlt.
    rewrite lookup_app_l by lia. split_and!; [done..|]. intros j b Hj Hb.
    apply lookup_app_Some in Hb as [Hb|[Hge Hb]]; [by eapply Hlast|].
    apply list_lookup_singleton_Some in Hb as [_ <-]. done.
Qed.
Lemma find_rev_none {A} (f : A -> bool) (l : list A) : List.find f (rev l) = None -> Forall (fun a => f a = false) l.
Proof.
  intros Hf. apply Forall_forall. intros a Ha. apply (List.find_none _ _ Hf a).
  rewrite <- List.in_rev. by apply list_elem_of_In.
Qed.

(** Every entry's position determines its version and its link. *)
Lemma chain_lookup s rest : forall prev i e, chain_ok s prev rest -> (prev :: rest) !! S i = Some e ->
  exists before, (prev :: rest) !! i = Some before /\ follows s before e.
Proof.
  induction rest as [|x rest IH]; intros prev i e Hc Hi; [by destruct i|]. destruct Hc as [Hf Hc].
  destruct i as [|i]; [exists prev; by simplify_eq/=|]. by apply (IH x i e).
Qed.
Lemma schedule_lookup s i e : schedule_ok s -> policy_entries s !! S i = Some e ->
  exists before, policy_entries s !! i = Some before /\ follows s before e.
Proof.
  intros (_ & _ & Hm) Hi. destruct (policy_entries s) as [|f rest]; [done|]. eapply chain_lookup; [apply Hm|done].
Qed.
Lemma schedule_first s e : schedule_ok s -> policy_entries s !! 0%nat = Some e -> first_ok s e.
Proof. intros (_ & _ & Hm) Hi. destruct (policy_entries s); [done|]. simplify_eq/=. apply Hm. Qed.
Lemma schedule_entry_facts s i : forall e, schedule_ok s -> policy_entries s !! i = Some e ->
  policy_version (en_policy e) = Z.of_nat i + 1 /\ activation_height (en_policy e) = en_activation_height e
  /\ identity_ok s e /\ 1 <= en_activation_height e.
Proof.
  induction i as [|i IH]; intros e Hok Hi.
  - destruct (schedule_first s e Hok Hi) as (? & ? & ? & ? & ? & ?). split_and!; [lia..|done|lia].
  - destruct (schedule_lookup s i e Hok Hi) as (b & Hb & (? & ? & ? & ? & ? & ? & ?)).
    destruct (IH b Hok Hb) as (? & ? & ? & ?). split_and!; [lia|done..|lia].
Qed.

Lemma active_exact s height : wf_schedule s -> TeePolicyScheduleV1_validate s = inr tt ->
  (height < 1 -> active_policy s height = inl (NonCanonical "no active TEE policy at requested height"))
  /\ (1 <= height -> exists i e, policy_entries s !! i = Some e
      /\ active_policy s height = inr (en_policy e)
      /\ policy_version (en_policy e) = Z.of_nat i + 1
      /\ activation_height (en_policy e) <= height
      /\ (forall j e', (i < j)%nat -> policy_entries s !! j = Some e' -> height < en_activation_height e')
      /\ tp_chain_id (en_policy e) = ps_chain_id s /\ tp_genesis_hash (en_policy e) = ps_genesis_hash s
      /\ (forall before, i = S before -> exists e', policy_entries s !! before = Some e'
            /\ policy_hash (en_policy e') = inr (predecessor_policy_hash (en_policy e)))).
Proof.
  intros Hwf Hv. pose proof (proj1 (schedule_validate_iff s Hwf) Hv) as Hok.
  unfold active_policy. rewrite Hv. cbn [ebind]. split.
  - intros Hh. destruct (List.find _ _) as [e|] eqn:Hf; [|done]. exfalso.
    apply find_rev_last in Hf as (i & Hi & Ha & _). bprop.
    destruct (schedule_entry_facts s i e Hok Hi) as (_ & _ & _ & ?). lia.
  - intros Hh. destruct (List.find _ _) as [e|] eqn:Hf; cbn.
    + apply find_rev_last in Hf as (i & Hi & Ha & Hlast). bprop. exists i, e.
      destruct (schedule_entry_facts s i e Hok Hi) as (? & ? & [??] & ?). split_and!; try done; [lia| |].
      * intros j e' Hj He'. specialize (Hlast j e' Hj He'). by bprop.
      * intros b ->. destruct (schedule_lookup s b e Hok Hi) as (e' & He' & Hfol). exists e'. split; [done|].
        assert (wf_entry e') as [_ Hwp] by (destruct Hwf as (_ & _ & Hwf); by eapply Forall_lookup_1).
        assert (entry_valid e') by (by eapply Forall_lookup_1; [apply schedule_entries_valid|]).
        destruct Hfol as (_ & _ & _ & _ & _ & -> & _). by apply policy_hash_ok.
    + exfalso. apply find_rev_none in Hf. pose proof Hok as (_ & _ & Hm).
      destruct (policy_entries s) as [|e rest]; [done|]. apply Forall_cons in Hf as [Hf _]. bprop.
      destruct Hm as [(He & _) _]. lia.
Qed.

(** ** Policies commit to their history *)

Lemma policy_wire_inj p q : wf_policy p -> wf_policy q -> TeePolicyV1_validate p = inr tt ->
  TeePolicyV1_validate q = inr tt -> policy_wire p = policy_wire q -> p = q.
Proof.
  intros Hp Hq Hvp Hvq Heq. destruct (policy_encode_ok p Hp Hvp) as [Ep _].
  destruct (policy_encode_ok q Hq Hvq) as [Eq _].
  destruct (proj1 policy_exact p _ Hp Ep) as [Dp _]. destruct (proj1 policy_exact q _ Hq Eq) as [Dq _].
  rewrite Heq in Dp. congruence.
Qed.
Lemma active_entry s height p : active_policy s height = inr p ->
  TeePolicyScheduleV1_validate s = inr tt /\ exists i e, policy_entries s !! i = Some e /\ en_policy e = p.
Proof.
  intros Ha. unfold active_policy in Ha. apply ebind_inr in Ha as ([] & Hv & Hf%eok_or_inr). split; [done|].
  destruct (List.find _ _) as [e|] eqn:He; cbn in Hf; [|done]. injection Hf as <-.
  apply find_rev_last in He as (i & Hi & _). by exists i, e.
Qed.
(** Two schedules have different policies of one hash at a position. *)
Definition policy_collision_at (s t : TeePolicyScheduleV1) (j : nat) : Prop :=
  exists b c h, policy_entries s !! j = Some b /\ policy_entries t !! j = Some c
    /\ policy_hash (en_policy b) = inr h /\ policy_hash (en_policy c) = inr h
    /\ TeePolicyV1_encode (en_policy b) <> TeePolicyV1_encode (en_policy c).

Lemma entry_policy_inj s t i j e f : schedule_ok s -> schedule_ok t -> policy_entries s !! i = Some e ->
  policy_entries t !! j = Some f -> en_policy e = en_policy f -> e = f /\ i = j.
Proof.
  intros Hs Ht He Hf Heq. destruct (schedule_entry_facts s i e Hs He) as (V1 & A1 & _).
  destruct (schedule_entry_facts t j f Ht Hf) as (V2 & A2 & _). rewrite Heq in *.
  split; [destruct e, f; cbn in *; congruence|lia].
Qed.
Lemma history_agrees s t i : forall e f, wf_schedule s -> wf_schedule t -> schedule_ok s -> schedule_ok t ->
  policy_entries s !! i = Some e -> policy_entries t !! i = Some f -> en_policy e = en_policy f ->
  take (S i) (policy_entries s) = take (S i) (policy_entries t)
  \/ exists j, (j < i)%nat /\ policy_collision_at s t j.
Proof.
  induction i as [|i IH]; intros e f Hws Hwt Hs Ht He Hf Heq;
    destruct (entry_policy_inj s t _ _ e f Hs Ht He Hf Heq) as [-> _].
  - left. rewrite (take_S_r _ _ _ He), (take_S_r _ _ _ Hf). done.
  - destruct (schedule_lookup s i f Hs He) as (b & Hb & (_ & _ & _ & _ & _ & Hpb & _)).
    destruct (schedule_lookup t i f Ht Hf) as (c & Hc & (_ & _ & _ & _ & _ & Hpc & _)).
    pose proof (Forall_lookup_1 _ _ _ _ (schedule_entries_valid s Hs) Hb) as Hvb.
    pose proof (Forall_lookup_1 _ _ _ _ (schedule_entries_valid t Ht) Hc) as Hvc.
    pose proof (Forall_lookup_1 _ _ i _ (proj2 (proj2 Hws)) Hb) as [_ Hwb].
    pose proof (Forall_lookup_1 _ _ i _ (proj2 (proj2 Hwt)) Hc) as [_ Hwc].
    destruct (policy_encode_ok _ Hwb Hvb) as [Eb _]. destruct (policy_encode_ok _ Hwc Hvc) as [Ec _].
    destruct (decide (policy_wire (en_policy b) = policy_wire (en_policy c))) as [Hw|Hw].
    + destruct (IH b c Hws Hwt Hs Ht Hb Hc) as [Ht'|(j & Hj & Hcol)];
        [by apply policy_wire_inj|left|right; exists j; split; [lia|done]].
      rewrite (take_S_r _ _ _ He), (take_S_r _ _ _ Hf). by rewrite Ht'.
    + right. exists i. split; [lia|]. exists b, c, (policy_digest (en_policy b)).
      rewrite !policy_hash_ok, Eb, Ec by done. split_and!; [done..|congruence|congruence].
Qed.

(** * Gas and resource schedules *)

Definition wf_system_gas (s : SystemGasScheduleV1) : Prop := Forall (fits 8) (SystemGasScheduleV1_values s).
Lemma system_gas_exact : exact_codec SystemGasScheduleV1_encode SystemGasScheduleV1_decode wf_system_gas.
Proof.
  split.
  - intros s bytes _ He. unfold SystemGasScheduleV1_encode, SystemGasScheduleV1_validate in He. tcanon.
    split; [by vm_compute|]. solve_bytes.
  - intros input s Hb Hd. unfold SystemGasScheduleV1_decode in Hd. tcanon.
    split; [unfold wf_system_gas; cbn; repeat (apply Forall_cons_2; [assumption|]); apply Forall_nil_2|].
    unfold SystemGasScheduleV1_encode. tvalid. cbn. by rewrite app_nil_r.
Qed.
Definition wf_registry_gas (s : TeeRegistryGasScheduleV1) : Prop :=
  Forall (fits 8) (TeeRegistryGasScheduleV1_values s).
Lemma registry_gas_exact :
  exact_codec TeeRegistryGasScheduleV1_encode TeeRegistryGasScheduleV1_decode wf_registry_gas.
Proof.
  split.
  - intros s bytes _ He. unfold TeeRegistryGasScheduleV1_encode, registry_gas_check in He. tcanon.
    split; [by vm_compute|]. solve_bytes.
  - intros input s Hb Hd. unfold TeeRegistryGasScheduleV1_decode in Hd. tcanon.
    split; [unfold wf_registry_gas; cbn; repeat (apply Forall_cons_2; [assumption|]); apply Forall_nil_2|].
    unfold TeeRegistryGasScheduleV1_encode. tvalid. cbn. by rewrite app_nil_r.
Qed.
Definition wf_resources (r : ResourceScheduleV1) : Prop :=
  fits 32 (system_gas_schedule_hash r) /\ fits 32 (tee_registry_gas_schedule_hash r)
  /\ fits 8 (bootstrap_block_gas_limit r) /\ fits 8 (steady_block_gas_limit r).
Lemma resources_exact : exact_codec ResourceScheduleV1_encode ResourceScheduleV1_decode wf_resources.
Proof.
  apply exact_intro.
  - by codec_read ResourceScheduleV1_encode ResourceScheduleV1_decode.
  - codec_canon ResourceScheduleV1_encode ResourceScheduleV1_decode. by split_and!.
Qed.

(** * Trusted network descriptor *)

Definition wf_descriptor (d : TrustedNetworkDescriptorV1) : Prop :=
  wf_network_binding (network_binding d) /\ Forall (fits 48) (genesis_consensus_keys d).
Lemma network_binding_length b bytes : NetworkBindingV1_encode b = inr bytes ->
  length bytes = NetworkBindingV1_CANONICAL_LEN.
Proof.
  intros He. unfold NetworkBindingV1_encode in He. tcanon. rewrite !length_app, !length_be_bytes. done.
Qed.
Lemma descriptor_validate_inv d : TrustedNetworkDescriptorV1_validate d = inr tt ->
  NetworkBindingV1_validate (network_binding d) = inr tt
  /\ 1 <= zlen (genesis_consensus_keys d) <= MAX_GENESIS_CONSENSUS_KEYS.
Proof.
  intros Hv. unfold TrustedNetworkDescriptorV1_validate in Hv. tcanon. split; [done|].
  pose proof (zlen_nonneg (genesis_consensus_keys d)). lia.
Qed.
Lemma descriptor_exact :
  exact_codec TrustedNetworkDescriptorV1_encode TrustedNetworkDescriptorV1_decode wf_descriptor.
Proof.
  apply exact_intro.
  - intros d bytes [Hwb Hwk] He. unfold TrustedNetworkDescriptorV1_encode in He. tcanon.
    match goal with Hx : NetworkBindingV1_encode _ = inr ?b |- _ =>
      pose proof (network_binding_length _ _ Hx) as Hlen; destruct (proj1 network_binding_exact _ _ Hwb Hx) as [Hdec Hbb];
      rename b into nb end.
    split; [|solve_bytes].
    match goal with Hv : TrustedNetworkDescriptorV1_validate _ = _ |- _ =>
      pose proof (descriptor_validate_inv d Hv) as [_ Hcount] end.
    unfold MAX_GENESIS_CONSENSUS_KEYS in Hcount. rewrite Z.mod_small, <- !app_assoc by lia.
    unfold TrustedNetworkDescriptorV1_decode, FIXED_CANONICAL_LEN.
    rewrite (proj2 (Nat.ltb_ge _ _)) by (rewrite !length_app, length_be_bytes, Hlen; lia).
    cbn [negb erequire ebind]. rewrite <- Hlen, take_app_length, drop_app_length, Hdec. cbn [ebind].
    rewrite d_word_app by (unfold fits; simpl; lia). cbn [ebind].
    unfold MAX_GENESIS_CONSENSUS_KEYS. rewrite (proj2 (Z.eqb_neq _ _)), (proj2 (Z.ltb_ge _ _)) by lia.
    cbn [orb negb erequire ebind]. unfold zlen. rewrite Nat2Z.id.
    rewrite (d_repeat_app _ _ _ (d_word_lawful 48)) by done. cbn [ebind]. tread. destruct d; cbn in *. by tvalid.
  - intros input d Hb Hd. unfold TrustedNetworkDescriptorV1_decode in Hd. tcanon.
    match goal with Hx : (length input <? _)%nat = false |- _ => apply Nat.ltb_ge in Hx; unfold FIXED_CANONICAL_LEN in Hx end.
    assert (Hb1 : Forall byte (take NetworkBindingV1_CANONICAL_LEN input)) by (by apply Forall_take).
    assert (Hb2 : Forall byte (drop NetworkBindingV1_CANONICAL_LEN input)) by (by apply Forall_drop).
    rewrite <- (take_drop NetworkBindingV1_CANONICAL_LEN input).
    set (nb := take _ input) in *. set (tail := drop _ input) in *. clearbody nb tail.
    match goal with Hx : NetworkBindingV1_decode _ = _ |- _ =>
      destruct (proj2 network_binding_exact _ _ Hb1 Hx) as [Hwb He] end. tcanon.
    match goal with Hx : d_repeat _ _ _ = _ |- _ =>
      apply (d_repeat_canon _ _ _ (d_word_lawful 48)) in Hx as (-> & Hl & Hks & _); [|assumption] end.
    split; [done|]. unfold TrustedNetworkDescriptorV1_encode. tvalid. cbn [network_binding genesis_consensus_keys].
    rewrite He. cbn [ebind]. unfold zlen, fits, MAX_GENESIS_CONSENSUS_KEYS in *.
    rewrite Hl, Z2Nat.id, Z.mod_small, app_nil_r by lia. done.
Qed.
End Policies.

(** * Gas charges *)

Lemma checked_sum_from l : forall acc,
  foldl (fun acc v => let+ sum := acc in eok_or (checked_add u64_max sum v) ArithmeticOverflow) (inr acc) l
  = checked_total acc l.
Proof.
  induction l as [|v l IH]; intros acc; [done|]. cbn [foldl checked_total ebind]. unfold checked_add_usize.
  destruct (checked_add u64_max acc v) as [a|] eqn:Ha; cbn [eok_or ebind]; [apply IH|].
  clear. by induction l.
Qed.
Lemma checked_sum_total l : checked_sum l = checked_total 0 l.
Proof. apply checked_sum_from. Qed.
Lemma checked_sum_ok l : Forall (Z.le 0) l -> parts_sum l <= u64_max -> checked_sum l = inr (parts_sum l).
Proof. intros Hl Hs. rewrite checked_sum_total, checked_total_ok by (done || lia). done. Qed.
Lemma tee_checked_mul_ok a b : a * b <= u64_max -> tee_checked_mul a b = inr (a * b).
Proof. intros. by apply tee_checked_mul_inr. Qed.

(** Evaluates a charge whose factors are bounded. *)
Ltac gas_step :=
  first [ rewrite enforce_limit_ok by lia
        | rewrite tee_checked_mul_ok by (unfold u64_max; lia)
        | rewrite checked_sum_ok by
            (first [ repeat (apply Forall_cons_2; [lia|]); apply Forall_nil_2
                   | rewrite ?parts_sum_cons, ?parts_sum_nil; unfold u64_max; lia ]) ];
  cbn [ebind].

Definition evidence_dims (evidence_len rule_count : Z) : Prop :=
  0 <= evidence_len <= MAX_ATTESTATION_EVIDENCE_BYTES /\ 0 <= rule_count <= MAX_ACTIVE_MEASUREMENT_RULES.
Definition qvl_gas (mode : AttestationMode) (evidence_len rule_count : Z) : Z :=
  match mode with
  | DcapRequired => 3260000 + 6 * evidence_len + 10000 * rule_count
  | GramineDirectDev => 225000 + 6 * evidence_len + 10000 * rule_count
  end.
Lemma qvl_dcap_ok evidence_len rule_count : evidence_dims evidence_len rule_count ->
  qvl_dcap TeeRegistryGasScheduleV1_normative evidence_len rule_count
  = inr (qvl_gas DcapRequired evidence_len rule_count).
Proof.
  intros [He Hr]. unfold qvl_dcap, validate_qvl_dimensions, TeeRegistryGasScheduleV1_normative,
    MAX_ATTESTATION_EVIDENCE_BYTES, MAX_ACTIVE_MEASUREMENT_RULES in *.
  cbn [qvl_dcap_fixed qvl_component_byte qvl_certificate qvl_crl qvl_signed_json qvl_measurement_rule].
  repeat gas_step. f_equal. rewrite !parts_sum_cons, parts_sum_nil. unfold qvl_gas. lia.
Qed.
Lemma qvl_dev_ok evidence_len rule_count : evidence_dims evidence_len rule_count ->
  qvl_dev TeeRegistryGasScheduleV1_normative evidence_len rule_count
  = inr (qvl_gas GramineDirectDev evidence_len rule_count).
Proof.
  intros [He Hr]. unfold qvl_dev, validate_qvl_dimensions, TeeRegistryGasScheduleV1_normative,
    MAX_ATTESTATION_EVIDENCE_BYTES, MAX_ACTIVE_MEASUREMENT_RULES in *.
  cbn [qvl_dev_fixed qvl_component_byte ed25519_verify_gas qvl_measurement_rule].
  repeat gas_step. f_equal. rewrite !parts_sum_cons, parts_sum_nil. unfold qvl_gas. lia.
Qed.

(** The fixed part of a registry call: mutation and signatures. *)
Definition mutator_gas (k : RegistryMutatorV1) : Z :=
  match k with
  | MutRegisterEnclave => 600000 + 3 * 40000 + 25000
  | MutRenewEnclave => 500000 + 40000 + 25000
  | MutTransitionEnclaveMeasurement => 700000 + 40000 + 2 * 25000
  | MutReplaceEnclaveBinding => 900000 + 2 * 40000 + 2 * 25000
  end.
Definition registry_gas (k : RegistryMutatorV1) (mode : AttestationMode) (input_len evidence_len rule_count : Z) : Z :=
  21000 + 20 * input_len + mutator_gas k + qvl_gas mode evidence_len rule_count.

Lemma registry_gas_ok k mode input_len evidence_len rule_count :
  evidence_dims evidence_len rule_count -> evidence_len <= input_len ->
  input_len - evidence_len <= MAX_EVIDENCE_CALL_FRAMING_BYTES ->
  maximum_transaction_gas TeeRegistryGasScheduleV1_normative k input_len evidence_len rule_count mode
  = inr (registry_gas k mode input_len evidence_len rule_count)
  /\ registry_gas k mode input_len evidence_len rule_count <= STEADY_BLOCK_GAS_LIMIT.
Proof.
  intros Hd Hle Hf. pose proof Hd as [He Hr].
  unfold MAX_ATTESTATION_EVIDENCE_BYTES, MAX_ACTIVE_MEASUREMENT_RULES, MAX_EVIDENCE_CALL_FRAMING_BYTES in *.
  assert (Hq : 0 <= qvl_gas mode evidence_len rule_count <= 9405024) by (destruct mode; unfold qvl_gas; lia).
  split; [|unfold registry_gas, STEADY_BLOCK_GAS_LIMIT; destruct k; cbn [mutator_gas]; lia].
  unfold maximum_transaction_gas. rewrite (proj2 (Z.ltb_ge _ _)) by lia. cbn [negb erequire ebind].
  rewrite enforce_limit_ok by (unfold MAX_EVIDENCE_CALL_FRAMING_BYTES; lia). cbn [ebind].
  replace (match mode with
           | DcapRequired => qvl_dcap TeeRegistryGasScheduleV1_normative evidence_len rule_count
           | GramineDirectDev => qvl_dev TeeRegistryGasScheduleV1_normative evidence_len rule_count
           end) with (inr (qvl_gas mode evidence_len rule_count) : codec Z)
    by (destruct mode; [by rewrite qvl_dcap_ok|by rewrite qvl_dev_ok]).
  cbn [ebind]. unfold registry_gas. set (qvl := qvl_gas mode evidence_len rule_count) in *. clearbody qvl.
  unfold TeeRegistryGasScheduleV1_normative, maximum_calldata_intrinsic_gas, checked_add.
  destruct k; cbn [input_byte register_fixed renew_fixed measurement_transition_fixed profile_replacement_fixed
    secp256k1_verify_gas ed25519_verify_gas mutator_gas]; repeat gas_step;
    rewrite ?parts_sum_cons, ?parts_sum_nil;
    repeat (rewrite (proj2 (Z.leb_le _ _)) by (unfold u64_max; lia); cbn [eok_or ebind]);
    f_equal; lia.
Qed.

(** The charge of a bootstrap call. *)
Definition evidence_gas (rule_count : Z) (lens : list Z) : Z :=
  parts_sum ((fun len => qvl_gas DcapRequired len rule_count) <$> lens).
Lemma qvl_gas_nonneg mode len rule_count : evidence_dims len rule_count -> 0 <= qvl_gas mode len rule_count <= 9405024.
Proof.
  unfold evidence_dims, MAX_ATTESTATION_EVIDENCE_BYTES, MAX_ACTIVE_MEASUREMENT_RULES.
  destruct mode; unfold qvl_gas; lia.
Qed.
Lemma evidence_gas_bounds rule_count lens : Forall (fun len => evidence_dims len rule_count) lens ->
  0 <= evidence_gas rule_count lens <= 9405024 * Z.of_nat (length lens).
Proof.
  unfold evidence_gas. induction 1 as [|len lens Hl Hls IH]; [cbn; lia|].
  pose proof (qvl_gas_nonneg DcapRequired len rule_count Hl). cbn [fmap list_fmap length].
  rewrite parts_sum_cons. lia.
Qed.
Lemma qvl_total_ok rule_count lens : forall total, Forall (fun len => evidence_dims len rule_count) lens ->
  0 <= total -> total + evidence_gas rule_count lens <= u64_max ->
  qvl_total TeeRegistryGasScheduleV1_normative rule_count total lens = inr (total + evidence_gas rule_count lens).
Proof.
  induction lens as [|len lens IH]; intros total Hd Ht Hmax; [cbn; f_equal; cbn; lia|].
  apply Forall_cons in Hd as [Hl Hd]. cbn [qvl_total]. rewrite qvl_dcap_ok by done. cbn [ebind].
  pose proof (qvl_gas_nonneg DcapRequired len rule_count Hl). pose proof (evidence_gas_bounds _ _ Hd).
  assert (Hs : evidence_gas rule_count (len :: lens) = qvl_gas DcapRequired len rule_count + evidence_gas rule_count lens)
    by done.
  unfold checked_add. rewrite (proj2 (Z.leb_le _ _)) by lia. cbn [eok_or ebind]. rewrite IH by (done || lia).
  f_equal. lia.
Qed.
Lemma qvl_total_inv rule_count lens : forall total gas,
  qvl_total TeeRegistryGasScheduleV1_normative rule_count total lens = inr gas ->
  Forall (fun len => len <= MAX_ATTESTATION_EVIDENCE_BYTES) lens
  /\ (lens <> [] -> rule_count <= MAX_ACTIVE_MEASUREMENT_RULES).
Proof.
  induction lens as [|len lens IH]; intros total gas Hq; [done|]. cbn [qvl_total] in Hq.
  apply ebind_inr in Hq as (c & Hc & Hq). apply ebind_inr in Hq as (t & _ & Hq). apply IH in Hq as [Hl _].
  unfold qvl_dcap, validate_qvl_dimensions in Hc. tcanon. split; [by constructor|done].
Qed.

Lemma bootstrap_precharge_ok input :
  0 <= full_calldata_len input <= MAX_TEE_BOOTSTRAP_BYTES ->
  Forall (fun len => evidence_dims len (active_rule_count input)) (logical_evidence_lengths input) ->
  zlen (logical_evidence_lengths input) <= 256 -> 0 <= collateral_component_count input <= 2048 ->
  0 <= committee_signature_count input <= 256 ->
  tee_bootstrap_precharge SystemGasScheduleV1_normative TeeRegistryGasScheduleV1_normative input
  = inr (300000 + full_calldata_len input + 100000 * zlen (logical_evidence_lengths input)
         + evidence_gas (active_rule_count input) (logical_evidence_lengths input)
         + 15000 * collateral_component_count input + 10000 * committee_signature_count input).
Proof.
  intros Hlen Hd Hn Hc Hs. pose proof (evidence_gas_bounds _ _ Hd) as Hg. fold (zlen (logical_evidence_lengths input)) in Hg.
  pose proof (zlen_nonneg (logical_evidence_lengths input)). unfold MAX_TEE_BOOTSTRAP_BYTES in *.
  unfold tee_bootstrap_precharge, MAX_TEE_BOOTSTRAP_BYTES. rewrite enforce_limit_ok by lia. cbn [ebind].
  rewrite qvl_total_ok by (done || unfold u64_max; lia). cbn [ebind].
  set (g := evidence_gas _ _) in *. clearbody g. unfold SystemGasScheduleV1_normative.
  cbn [tee_bootstrap_fixed tee_bootstrap_input_byte tee_bootstrap_participant tee_bootstrap_collateral_component
    tee_bootstrap_committee_signature]. repeat gas_step. f_equal. rewrite !parts_sum_cons, parts_sum_nil. lia.
Qed.

(** A charge that is computed is not negative, whatever the dimensions. *)
Lemma checked_sum_inv l n : checked_sum l = inr n -> n = parts_sum l.
Proof. rewrite checked_sum_total. intros ->%checked_total_inv. done. Qed.
Ltac charges Hc :=
  repeat first [apply ebind_inr in Hc as (? & [-> _]%tee_checked_mul_inr & Hc) | apply ebind_inr in Hc as (_ & _ & Hc)];
  apply checked_sum_inv in Hc as ->; rewrite !parts_sum_cons, parts_sum_nil;
  unfold SystemGasScheduleV1_normative, TeeRegistryGasScheduleV1_normative; cbn; lia.
Lemma qvl_total_nonneg rule_count lens : forall total gas, Forall (Z.le 0) lens -> 0 <= rule_count -> 0 <= total ->
  qvl_total TeeRegistryGasScheduleV1_normative rule_count total lens = inr gas -> 0 <= gas.
Proof.
  induction lens as [|len lens IH]; intros total gas Hl Hr Ht Hq; [by simplify_eq/=|].
  apply Forall_cons in Hl as [Hlen Hl]. cbn [qvl_total] in Hq.
  apply ebind_inr in Hq as (c & Hc & Hq). apply ebind_inr in Hq as (t & [-> _]%eok_or_inr%checked_add_some & Hq).
  refine (IH _ _ Hl Hr _ Hq). unfold qvl_dcap in Hc. charges Hc.
Qed.
Lemma bootstrap_precharge_nonneg input gas :
  0 <= full_calldata_len input -> Forall (Z.le 0) (logical_evidence_lengths input) -> 0 <= active_rule_count input ->
  0 <= collateral_component_count input -> 0 <= committee_signature_count input ->
  tee_bootstrap_precharge SystemGasScheduleV1_normative TeeRegistryGasScheduleV1_normative input = inr gas -> 0 <= gas.
Proof.
  intros Hlen Hl Hr Hc Hs Hg. unfold tee_bootstrap_precharge in Hg. apply ebind_inr in Hg as (_ & _ & Hg).
  apply ebind_inr in Hg as (qvl & Hq & Hg). apply qvl_total_nonneg in Hq; [|done..].
  pose proof (zlen_nonneg (logical_evidence_lengths input)). charges Hg.
Qed.
