(* ===== verification/TeeBootstrap.v ===== *)
(** The block-1 TEE bootstrap payload: its assembly from the validators'
    submissions with deduplicated collateral, validation, canonical encoding,
    signing hash and gas.

    Source: [crates/blockchain/primitives/src/tee_bootstrap_v2.rs]. The
    [BTreeMap] of collateral is the list of its entries in key order; a
    [[u16; 8]] is a list. *)

From stdpp Require Import sorting.
From S2P Require Import Prelude Bytes Wire TeeAttestation.

(** * Constants *)

Definition BOOTSTRAP_MAGIC : list Z := string_bytes "TTB2".
Definition SIGNING_DOMAIN : list Z := string_bytes "outbe/tee/bootstrap/v2".
Definition SYSTEM_CALLDATA_FRAMING_BYTES : Z := 5.
Definition MAX_BOOTSTRAP_PARTICIPANTS : Z := 256.
Definition MAX_COLLATERAL_POOL_COMPONENTS : Z := MAX_BOOTSTRAP_PARTICIPANTS * 8.
Definition MAX_GROUP_PUBLIC_KEY_BYTES : Z := 32 * 1024.

(** * Data *)

Inductive TeeBootstrapParticipantEvidenceV2 : Type :=
  | ParticipantDcap (pe_quote : list Z) (collateral_component_indices : list Z)
  | ParticipantGramine (pe_public : B256) (pe_signature : list Z).

Record TeeBootstrapParticipantV2 : Type := mkParticipant {
  pt_intent : RegistrationIntentV1;
  validator_binding : ValidatorNodeBindingV1;
  validator_signature : list Z;
  node_binding_signature : list Z;
  pt_evidence : TeeBootstrapParticipantEvidenceV2;
  node_signature : list Z;
  enclave_signature : list Z }.

Record TeeBootstrapCommitteeSignatureV2 : Type := mkCommitteeSignature {
  cs_validator : Address;
  cs_signature : list Z }.

Record TeeBootstrapParticipantSubmissionV2 : Type := mkSubmission {
  sb_evidence : AttestationEvidenceV1;
  sb_validator_binding : ValidatorNodeBindingV1;
  sb_validator_signature : list Z;
  sb_node_binding_signature : list Z;
  sb_node_signature : list Z;
  sb_enclave_signature : list Z }.

(** The fields that [TeeBootstrapAuthorityV2] and [TeeBootstrapV2] share. *)
Record TeeBootstrapAuthorityV2 : Type := mkAuthority {
  bs_policy : TeePolicyV1;
  committee_snapshot_hash : B256;
  committee_snapshot_block : Z;
  key_epoch : Z;
  tribute_offer_epoch : Z;
  dkg_transcript_hash : B256;
  tribute_offer_public_key : B256;
  tribute_offer_group_public_key : list Z }.
Record TeeBootstrapV2 : Type := mkBootstrap {
  authority : TeeBootstrapAuthorityV2;
  collateral_pool : list DcapCollateralComponentV1;
  participants : list TeeBootstrapParticipantV2;
  committee_signatures : list TeeBootstrapCommitteeSignatureV2 }.

(** * Ordering of components *)

(** [Ord] of byte slices. *)
Fixpoint bytes_compare (a b : list Z) : comparison :=
  match a, b with
  | [], [] => Eq
  | [], _ :: _ => Lt
  | _ :: _, [] => Gt
  | x :: a', y :: b' => match x ?= y with Eq => bytes_compare a' b' | c => c end
  end.
(** [Ord] of the keys [(u8, Vec<u8>)], the order of [compare_components]. *)
Definition component_key : Type := Z * list Z.
Definition key_compare (a b : component_key) : comparison :=
  match a.1 ?= b.1 with Eq => bytes_compare a.2 b.2 | c => c end.
Definition key_of (c : DcapCollateralComponentV1) : component_key := (collateral_kind_id (kind c), cc_bytes c).
Definition compare_components (l r : DcapCollateralComponentV1) : comparison := key_compare (key_of l) (key_of r).

(** * Lengths *)

Definition enforce_full_calldata_cap (body_len : Z) : codec unit :=
  let+ full_len := checked_add_usize body_len SYSTEM_CALLDATA_FRAMING_BYTES in
  enforce_limit "TeeBootstrapV2 full calldata" MAX_TEE_BOOTSTRAP_BYTES full_len.
Definition put_bytes_u32 (value : list Z) : codec (list Z) :=
  let+ len := put_len_u32 (zlen value) in inr (len ++ value).

(** * The decoder *)

Definition bounded_count_u16 (field : string) (limit : Z) : tee_decoder Z := fun cur =>
  let+ (actual, cur) := d_word 2 cur in
  let+ _ := enforce_limit field limit actual in
  inr (actual, cur).
Definition bounded_bytes (field : string) (limit : Z) : tee_decoder (list Z) := fun cur =>
  let+ (actual, cur) := d_word 4 cur in
  let+ _ := enforce_limit field limit actual in
  d_take (Z.to_nat actual) cur.

Section Bootstrap.
Context {H : Keccak} {E : TeeCrypto}.

Definition bs_mode (t : TeeBootstrapV2) : AttestationMode := tp_mode (bs_policy (authority t)).
Definition pt_validator (p : TeeBootstrapParticipantV2) : Address := vb_validator (validator_binding p).

(** ** Encoding *)

Definition pool_entry_bytes (c : DcapCollateralComponentV1) : codec (list Z) :=
  let+ bytes := put_bytes_u32 (cc_bytes c) in inr ([collateral_kind_id (kind c)] ++ bytes).
Definition participant_evidence_bytes (e : TeeBootstrapParticipantEvidenceV2) : codec (list Z) :=
  match e with
  | ParticipantDcap q indices =>
      let+ qbytes := put_bytes_u32 q in inr (qbytes ++ concat (be_bytes 2 <$> indices))
  | ParticipantGramine public signature => inr (be_bytes 32 public ++ signature)
  end.
Definition participant_bytes (p : TeeBootstrapParticipantV2) : codec (list Z) :=
  let+ intent := RegistrationIntentV1_encode (pt_intent p) in
  let+ intent := put_bytes_u32 intent in
  let+ binding := ValidatorNodeBindingV1_encode (validator_binding p) in
  let+ ev := participant_evidence_bytes (pt_evidence p) in
  inr (intent ++ binding ++ validator_signature p ++ node_binding_signature p
       ++ [mode_id (ri_mode (pt_intent p))] ++ ev ++ node_signature p ++ enclave_signature p).

Definition evidence_parts (e : TeeBootstrapParticipantEvidenceV2) : list Z :=
  match e with
  | ParticipantDcap q _ => [4; zlen q; 8 * 2]
  | ParticipantGramine _ _ => [32 + 64]
  end.
(** The additions of one iteration over the participants. *)
Definition participant_parts (p : TeeBootstrapParticipantV2) : codec (list Z) :=
  let+ intent := RegistrationIntentV1_encode (pt_intent p) in
  inr ([4; zlen intent; Z.of_nat ValidatorNodeBindingV1_CANONICAL_LEN + 65 + 65; 1]
       ++ evidence_parts (pt_evidence p) ++ [65 + 64]).
Fixpoint participants_len (acc : Z) (ps : list TeeBootstrapParticipantV2) : codec Z :=
  match ps with
  | [] => inr acc
  | p :: rest =>
      let+ parts := participant_parts p in
      let+ acc := checked_total acc parts in
      participants_len acc rest
  end.
Definition encoded_body_len (t : TeeBootstrapV2) : codec Z :=
  let a := authority t in
  let+ policy := TeePolicyV1_encode (bs_policy a) in
  let+ len := checked_total 4 ([4; zlen policy; 32 + 8 * 3 + 32 + 32; 4;
      zlen (tribute_offer_group_public_key a); 2]
    ++ concat ((fun c => [1 + 4; zlen (cc_bytes c)]) <$> collateral_pool t) ++ [2]) in
  participants_len len (participants t).
Definition canonical_encoded_len (t : TeeBootstrapV2) : codec Z :=
  let+ signature_bytes := tee_checked_mul (Z.of_nat (length (committee_signatures t))) (20 + 65) in
  let+ len := encoded_body_len t in
  let+ len := checked_add_usize len 2 in
  checked_add_usize len signature_bytes.

Definition encode_body (t : TeeBootstrapV2) : codec (list Z) :=
  let a := authority t in
  let+ policy := TeePolicyV1_encode (bs_policy a) in
  let+ _ := encoded_body_len t in
  let+ policy := put_bytes_u32 policy in
  let+ group := put_bytes_u32 (tribute_offer_group_public_key a) in
  let+ pool_count := put_len_u16 (Z.of_nat (length (collateral_pool t))) in
  let+ pool := emap (collateral_pool t) pool_entry_bytes in
  let+ count := put_len_u16 (Z.of_nat (length (participants t))) in
  let+ ps := emap (participants t) participant_bytes in
  inr (BOOTSTRAP_MAGIC ++ policy ++ be_bytes 32 (committee_snapshot_hash a)
       ++ be_bytes 8 (committee_snapshot_block a) ++ be_bytes 8 (key_epoch a)
       ++ be_bytes 8 (tribute_offer_epoch a) ++ be_bytes 32 (dkg_transcript_hash a)
       ++ be_bytes 32 (tribute_offer_public_key a) ++ group
       ++ pool_count ++ concat pool ++ count ++ concat ps).

(** ** Logical evidence *)

(** The loop over the collateral references, [expected] counting from the first. *)
Fixpoint resolve_components (pool : list DcapCollateralComponentV1) (expected : Z) (indices : list Z) :
    codec (list DcapCollateralComponentV1) :=
  match indices with
  | [] => inr []
  | index :: rest =>
      let+ c := eok_or (pool !! Z.to_nat index)
        (NonCanonical "TEE bootstrap collateral reference is out of range") in
      let+ _ := erequire (collateral_kind_id (kind c) =? expected)
        (NonCanonical "TEE bootstrap collateral reference kind mismatch") in
      let+ cs := resolve_components pool (expected + 1) rest in
      inr (c :: cs)
  end.
Definition rebuild_evidence (pool : list DcapCollateralComponentV1) (p : TeeBootstrapParticipantV2) :
    codec AttestationEvidenceV1 :=
  match pt_evidence p with
  | ParticipantDcap q indices =>
      let+ cs := resolve_components pool 1 indices in
      inr (Dcap (mkDcap (pt_intent p) q cs None))
  | ParticipantGramine public signature =>
      inr (GramineDirectEvidence (mkGramine (pt_intent p) public signature))
  end.
(** [logical_evidence] of a participant of the payload. *)
Definition participant_evidence (pool : list DcapCollateralComponentV1) (p : TeeBootstrapParticipantV2) :
    codec AttestationEvidenceV1 :=
  let+ ev := rebuild_evidence pool p in
  let+ _ := AttestationEvidenceV1_encode ev in
  inr ev.
Definition logical_evidence (t : TeeBootstrapV2) (participant_index : nat) : codec AttestationEvidenceV1 :=
  let+ p := eok_or (participants t !! participant_index)
    (NonCanonical "TEE bootstrap participant index is out of range") in
  participant_evidence (collateral_pool t) p.

(** ** Validation *)

Definition validate_pool_entry (c : DcapCollateralComponentV1) : codec unit :=
  let+ _ := erequire (negb (bool_decide (cc_bytes c = [])))
    (NonCanonical "TEE bootstrap collateral component is empty") in
  enforce_limit "DCAP collateral component" MAX_COLLATERAL_COMPONENT_BYTES (zlen (cc_bytes c)).
(** [windows(2)]. *)
Fixpoint pool_sorted (pool : list DcapCollateralComponentV1) : bool :=
  match pool with
  | a :: (b :: _) as rest =>
      match compare_components a b with Lt => pool_sorted rest | _ => false end
  | _ => true
  end.

Definition validate_participant_intent (mode : AttestationMode) (hash : B256)
    (p : TeeBootstrapParticipantV2) : codec unit :=
  let i := pt_intent p in
  erequire (bool_decide (operation i = RegisterEnclave) && bool_decide (ri_mode i = mode)
            && (ri_policy_hash i =? hash))
    (NonCanonical "TEE bootstrap participant intent is not a policy-bound NodeHost registration").
Definition validate_participant_binding (p : TeeBootstrapParticipantV2) : codec unit :=
  let i := pt_intent p in
  let b := validator_binding p in
  let invalid := NonCanonical "TEE bootstrap validator NodeHost binding is invalid" in
  let+ _ := erequire ((vb_chain_id b =? ri_chain_id i) && (vb_genesis_hash b =? ri_genesis_hash i)) invalid in
  let+ id := node_id_hash (ri_node_id i) in
  erequire ((vb_node_id_hash b =? id) && verify_validator_signature b (validator_signature p)
            && binding_verify_node_signature b (node_binding_signature p)) invalid.

(** The loop over a participant's references marks the components it uses. *)
Fixpoint mark_components (pool : list DcapCollateralComponentV1) (expected : Z) (used : list bool)
    (indices : list Z) : codec (list bool) :=
  match indices with
  | [] => inr used
  | index :: rest =>
      let+ c := eok_or (pool !! Z.to_nat index)
        (NonCanonical "TEE bootstrap collateral reference is out of range") in
      let+ _ := erequire (collateral_kind_id (kind c) =? expected)
        (NonCanonical "TEE bootstrap collateral reference kind mismatch") in
      mark_components pool (expected + 1) (<[Z.to_nat index := true]> used) rest
  end.
Definition validate_participant_evidence (mode : AttestationMode) (pool : list DcapCollateralComponentV1)
    (used : list bool) (p : TeeBootstrapParticipantV2) : codec (list bool) :=
  match pt_evidence p, mode with
  | ParticipantDcap q indices, DcapRequired =>
      let+ _ := erequire (negb (bool_decide (q = []))) (NonCanonical "TEE bootstrap quote is empty") in
      let+ _ := enforce_limit "SGX quote" MAX_QUOTE_BYTES (zlen q) in
      mark_components pool 1 used indices
  | ParticipantGramine public signature, GramineDirectDev =>
      let+ _ := erequire ((public =? attestation_ed25519 (pt_intent p))
                          && bool_decide (signature = enclave_signature p)
                          && verify_enclave_signature (pt_intent p) signature)
        (NonCanonical "GramineDirectDev evidence does not prove the intent attestation key") in
      inr used
  | _, _ => inl (NonCanonical "TEE bootstrap participant evidence mode does not match policy")
  end.

(** The loop over the participants, each with its committee signature (as many
    as participants). *)
Fixpoint validate_participants (mode : AttestationMode) (hash : B256)
    (pool : list DcapCollateralComponentV1) (used : list bool) (previous_validator : option Address)
    (rest : list (TeeBootstrapParticipantV2 * TeeBootstrapCommitteeSignatureV2)) : codec (list bool) :=
  match rest with
  | [] => inr used
  | (p, sig) :: rest =>
      let+ _ := validate_participant_intent mode hash p in
      let+ _ := validate_participant_binding p in
      let validator := pt_validator p in
      let+ _ := erequire (negb (match previous_validator with
                                | Some previous => validator <=? previous
                                | None => false
                                end))
        (NonCanonical "TEE bootstrap participants are not strictly sorted and unique") in
      let+ _ := erequire (cs_validator sig =? validator)
        (NonCanonical "TEE bootstrap committee signatures do not match participants") in
      let+ used := validate_participant_evidence mode pool used p in
      let+ ev := participant_evidence pool p in
      let+ bytes := AttestationEvidenceV1_encode ev in
      let+ _ := enforce_limit "attestation evidence" MAX_ATTESTATION_EVIDENCE_BYTES (zlen bytes) in
      validate_participants mode hash pool used (Some validator) rest
  end.

Definition validate_authority (a : TeeBootstrapAuthorityV2) : codec unit :=
  let+ _ := erequire (negb ((committee_snapshot_hash a =? 0) || (committee_snapshot_block a =? 0)
                            || (tribute_offer_public_key a =? 0)
                            || bool_decide (tribute_offer_group_public_key a = [])))
    (NonCanonical "TEE bootstrap contains a zero required authority") in
  enforce_limit "TEE bootstrap group public key" MAX_GROUP_PUBLIC_KEY_BYTES
    (zlen (tribute_offer_group_public_key a)).
Definition validate_pool_mode (t : TeeBootstrapV2) : codec unit :=
  let empty := bool_decide (length (collateral_pool t) = 0%nat) in
  match bs_mode t with
  | DcapRequired => erequire (negb empty) (NonCanonical "DCAP TEE bootstrap collateral pool is empty")
  | GramineDirectDev =>
      erequire empty (NonCanonical "GramineDirectDev TEE bootstrap must not carry DCAP collateral")
  end.
Definition validate_bootstrap (t : TeeBootstrapV2) : codec unit :=
  let+ hash := policy_hash (bs_policy (authority t)) in
  let+ _ := validate_authority (authority t) in
  let+ _ := enforce_limit "TEE bootstrap collateral pool" MAX_COLLATERAL_POOL_COMPONENTS
    (Z.of_nat (length (collateral_pool t))) in
  let count := Z.of_nat (length (participants t)) in
  let+ _ := enforce_limit "TEE bootstrap participants" MAX_BOOTSTRAP_PARTICIPANTS count in
  let+ _ := erequire (negb (count =? 0)) (NonCanonical "TEE bootstrap participant set is empty") in
  let+ _ := erequire (length (committee_signatures t) =? length (participants t))%nat
    (NonCanonical "TEE bootstrap signatures do not cover every participant") in
  let+ _ := validate_pool_mode t in
  let+ _ := emap (collateral_pool t) validate_pool_entry in
  let+ _ := erequire (pool_sorted (collateral_pool t))
    (NonCanonical "TEE bootstrap collateral pool is not strictly sorted and unique") in
  let+ len := canonical_encoded_len t in
  let+ _ := enforce_full_calldata_cap len in
  let+ used := validate_participants (bs_mode t) hash (collateral_pool t)
    (replicate (length (collateral_pool t)) false) None
    (zip (participants t) (committee_signatures t)) in
  erequire (forallb id used) (NonCanonical "TEE bootstrap collateral pool contains an unused component").

(** ** The payload's operations *)

Definition committee_signature_bytes (s : TeeBootstrapCommitteeSignatureV2) : list Z :=
  be_bytes 20 (cs_validator s) ++ cs_signature s.
Definition TeeBootstrapV2_encode (t : TeeBootstrapV2) : codec (list Z) :=
  let+ _ := validate_bootstrap t in
  let+ body := encode_body t in
  let+ count := put_len_u16 (Z.of_nat (length (committee_signatures t))) in
  let out := body ++ count ++ concat (committee_signature_bytes <$> committee_signatures t) in
  let+ _ := enforce_full_calldata_cap (zlen out) in
  inr out.
Definition bootstrap_signing_hash (t : TeeBootstrapV2) : codec B256 :=
  let+ _ := validate_bootstrap t in
  let+ body := encode_body t in
  let+ _ := checked_add_usize (zlen SIGNING_DOMAIN) (zlen body) in
  inr (keccak256 (SIGNING_DOMAIN ++ body)).

(** The encoded length of each participant's logical evidence. *)
Definition evidence_len (t : TeeBootstrapV2) (i : nat) : codec Z :=
  let+ ev := logical_evidence t i in
  let+ bytes := AttestationEvidenceV1_encode ev in
  inr (zlen bytes).
Definition protocol_precharge (t : TeeBootstrapV2) (s : SystemGasScheduleV1)
    (r : TeeRegistryGasScheduleV1) : codec Z :=
  let+ _ := validate_bootstrap t in
  let+ len := canonical_encoded_len t in
  let+ full_len := checked_add_usize len SYSTEM_CALLDATA_FRAMING_BYTES in
  let count := Z.of_nat (length (participants t)) in
  let+ lens := emap (seq 0 (length (participants t))) (evidence_len t) in
  let+ components := match bs_mode t with
    | DcapRequired => tee_checked_mul count 8
    | GramineDirectDev => inr 0
    end in
  tee_bootstrap_precharge s r
    (mkGasInput full_len lens (Z.of_nat (length (measurement_rules (bs_policy (authority t)))))
       components (Z.of_nat (length (committee_signatures t)))).
Definition preflight (t : TeeBootstrapV2) : codec unit :=
  let+ _ := validate_bootstrap t in
  let+ len := canonical_encoded_len t in
  let+ full_len := checked_add_usize len SYSTEM_CALLDATA_FRAMING_BYTES in
  let+ bytes_gas := tee_checked_mul full_len SYSTEM_TX_NON_ZERO_BYTE_GAS in
  let+ intrinsic := checked_add_usize bytes_gas SYSTEM_TX_VISIBLE_GAS_FLOOR in
  let+ precharge := protocol_precharge t SystemGasScheduleV1_normative TeeRegistryGasScheduleV1_normative in
  let+ required_gas := checked_add_usize intrinsic precharge in
  enforce_limit "TeeBootstrapV2 worst-case visible gas" BOOTSTRAP_BLOCK_GAS_LIMIT required_gas.

(** ** Decoding *)

Definition d_pool_entry : tee_decoder DcapCollateralComponentV1 := fun cur =>
  let+ (k, cur) := d_u8 cur in
  let+ k := DcapCollateralKind_try_from k in
  let+ (bytes, cur) := bounded_bytes "DCAP collateral component" MAX_COLLATERAL_COMPONENT_BYTES cur in
  inr (mkComponent k bytes, cur).
Definition d_participant_evidence (mode : AttestationMode) : tee_decoder TeeBootstrapParticipantEvidenceV2 :=
  fun cur =>
  match mode with
  | DcapRequired =>
      let+ (q, cur) := bounded_bytes "SGX quote" MAX_QUOTE_BYTES cur in
      let+ (indices, cur) := d_repeat 8 (d_word 2) cur in
      inr (ParticipantDcap q indices, cur)
  | GramineDirectDev =>
      let+ (public, cur) := d_word 32 cur in
      let+ (signature, cur) := d_take 64 cur in
      inr (ParticipantGramine public signature, cur)
  end.
Definition d_participant : tee_decoder TeeBootstrapParticipantV2 := fun cur =>
  let+ (bytes, cur) := bounded_bytes "registration intent" MAX_EVIDENCE_CALL_FRAMING_BYTES cur in
  let+ intent := RegistrationIntentV1_decode bytes in
  let+ (bytes, cur) := d_take ValidatorNodeBindingV1_CANONICAL_LEN cur in
  let+ binding := ValidatorNodeBindingV1_decode bytes in
  let+ (vsig, cur) := d_take 65 cur in
  let+ (bsig, cur) := d_take 65 cur in
  let+ (mode, cur) := d_u8 cur in
  let+ mode := AttestationMode_decode mode in
  let+ (ev, cur) := d_participant_evidence mode cur in
  let+ (nsig, cur) := d_take 65 cur in
  let+ (esig, cur) := d_take 64 cur in
  inr (mkParticipant intent binding vsig bsig ev nsig esig, cur).
Definition d_committee_signature : tee_decoder TeeBootstrapCommitteeSignatureV2 := fun cur =>
  let+ (validator, cur) := d_word 20 cur in
  let+ (signature, cur) := d_take 65 cur in
  inr (mkCommitteeSignature validator signature, cur).

Definition TeeBootstrapV2_decode (input : list Z) : codec TeeBootstrapV2 :=
  let+ _ := enforce_full_calldata_cap (zlen input) in
  let+ (magic, cur) := d_take 4 input in
  let+ _ := erequire (bool_decide (magic = BOOTSTRAP_MAGIC)) (NonCanonical "invalid TeeBootstrapV2 magic") in
  let+ (bytes, cur) := bounded_bytes "TEE policy" MAX_EVIDENCE_CALL_FRAMING_BYTES cur in
  let+ policy := TeePolicyV1_decode bytes in
  let+ (snapshot_hash, cur) := d_word 32 cur in
  let+ (snapshot_block, cur) := d_word 8 cur in
  let+ (epoch, cur) := d_word 8 cur in
  let+ (offer_epoch, cur) := d_word 8 cur in
  let+ (transcript, cur) := d_word 32 cur in
  let+ (offer_key, cur) := d_word 32 cur in
  let+ (group, cur) := bounded_bytes "TEE bootstrap group public key" MAX_GROUP_PUBLIC_KEY_BYTES cur in
  let+ (pool_count, cur) := bounded_count_u16 "TEE bootstrap collateral pool"
    MAX_COLLATERAL_POOL_COMPONENTS cur in
  let+ (pool, cur) := d_repeat (Z.to_nat pool_count) d_pool_entry cur in
  let+ (count, cur) := bounded_count_u16 "TEE bootstrap participants" MAX_BOOTSTRAP_PARTICIPANTS cur in
  let+ (ps, cur) := d_repeat (Z.to_nat count) d_participant cur in
  let+ (sig_count, cur) := bounded_count_u16 "TEE bootstrap committee signatures"
    MAX_BOOTSTRAP_PARTICIPANTS cur in
  let+ (sigs, cur) := d_repeat (Z.to_nat sig_count) d_committee_signature cur in
  let+ _ := d_finish cur in
  let value := mkBootstrap (mkAuthority policy snapshot_hash snapshot_block epoch offer_epoch transcript
                              offer_key group) pool ps sigs in
  let+ _ := validate_bootstrap value in
  inr value.

(** ** Assembly *)

Definition component_map : Type := list (component_key * Z).
(** [entry(key).or_insert(next)]: the value of the key and the map. *)
Fixpoint entry_or_insert (key : component_key) (next : Z) (m : component_map) : Z * component_map :=
  match m with
  | [] => (next, [(key, next)])
  | (k, v) :: rest =>
      match key_compare key k with
      | Lt => (next, (key, next) :: m)
      | Eq => (v, m)
      | Gt => let '(r, rest) := entry_or_insert key next rest in (r, (k, v) :: rest)
      end
  end.
Definition to_u16 (n : nat) : codec Z :=
  let n := Z.of_nat n in
  let+ _ := erequire (n <=? 2 ^ 16 - 1) ArithmeticOverflow in inr n.

(** The loop over one participant's components: their temporary indices. *)
Fixpoint index_components (expected : Z) (m : component_map) (cs : list DcapCollateralComponentV1) :
    codec (list Z * component_map) :=
  match cs with
  | [] => inr ([], m)
  | c :: rest =>
      let+ _ := erequire (collateral_kind_id (kind c) =? expected)
        (NonCanonical "TEE bootstrap collateral component kind mismatch") in
      let+ next_index := to_u16 (length m) in
      let '(index, m) := entry_or_insert (key_of c) next_index m in
      let+ (indices, m) := index_components (expected + 1) m rest in
      inr (index :: indices, m)
  end.
Definition assemble_participant (m : component_map) (s : TeeBootstrapParticipantSubmissionV2) :
    codec (TeeBootstrapParticipantV2 * component_map) :=
  let+ (intent_ev, m) := match sb_evidence s with
    | Dcap e =>
        let+ _ := erequire (length (components e) =? 8)%nat
          (NonCanonical "TEE bootstrap evidence does not contain exactly eight components") in
        let+ (indices, m) := index_components 1 m (components e) in
        inr ((dc_intent e, ParticipantDcap (quote e) indices), m)
    | GramineDirectEvidence e =>
        inr ((ge_intent e, ParticipantGramine (dev_attestation_public e) (dev_signature e)), m)
    end in
  let '(intent, ev) := intent_ev in
  inr (mkParticipant intent (sb_validator_binding s) (sb_validator_signature s)
         (sb_node_binding_signature s) ev (sb_node_signature s) (sb_enclave_signature s), m).
Fixpoint assemble_participants (m : component_map) (ordered : list TeeBootstrapParticipantSubmissionV2) :
    codec (list TeeBootstrapParticipantV2 * component_map) :=
  match ordered with
  | [] => inr ([], m)
  | s :: rest =>
      let+ (p, m) := assemble_participant m s in
      let+ (ps, m) := assemble_participants m rest in
      inr (p :: ps, m)
  end.

(** The pool in key order; [canonical_index_by_temporary] is written at every
    temporary index, each below the size of the map. *)
Fixpoint canonical_pool (canonical_index : nat) (by_temporary : list Z) (m : component_map) :
    codec (list DcapCollateralComponentV1 * list Z) :=
  match m with
  | [] => inr ([], by_temporary)
  | ((k, bytes), temporary) :: rest =>
      let+ index := to_u16 canonical_index in
      let by_temporary := <[Z.to_nat temporary := index]> by_temporary in
      let+ k := DcapCollateralKind_try_from k in
      let+ (pool, by_temporary) := canonical_pool (S canonical_index) by_temporary rest in
      inr (mkComponent k bytes :: pool, by_temporary)
  end.
Definition remap_index (by_temporary : list Z) (index : Z) : codec Z :=
  eok_or (by_temporary !! Z.to_nat index) ArithmeticOverflow.
Definition remap_participant (by_temporary : list Z) (p : TeeBootstrapParticipantV2) :
    codec TeeBootstrapParticipantV2 :=
  match pt_evidence p with
  | ParticipantDcap q indices =>
      let+ indices := emap indices (remap_index by_temporary) in
      inr (mkParticipant (pt_intent p) (validator_binding p) (validator_signature p)
             (node_binding_signature p) (ParticipantDcap q indices) (node_signature p)
             (enclave_signature p))
  | ParticipantGramine _ _ => inr p
  end.

Definition sb_validator (s : TeeBootstrapParticipantSubmissionV2) : Address :=
  vb_validator (sb_validator_binding s).
Definition submission_le (a b : TeeBootstrapParticipantSubmissionV2) : Prop := sb_validator a <= sb_validator b.
#[global] Instance submission_le_dec : RelDecision submission_le.
Proof. intros a b. unfold submission_le. apply _. Defined.

Definition assemble_unsigned (a : TeeBootstrapAuthorityV2)
    (submissions : list TeeBootstrapParticipantSubmissionV2) : codec TeeBootstrapV2 :=
  let+ _ := enforce_limit "TEE bootstrap participants" MAX_BOOTSTRAP_PARTICIPANTS
    (Z.of_nat (length submissions)) in
  let+ _ := erequire (negb (length submissions =? 0)%nat) (NonCanonical "TEE bootstrap participant set is empty") in
  let+ _ := emap submissions (fun s =>
    erequire (bool_decide (evidence_mode (sb_evidence s) = tp_mode (bs_policy a)))
      (NonCanonical "TEE bootstrap submission mode does not match policy")) in
  let ordered := merge_sort submission_le submissions in
  let+ (ps, m) := assemble_participants [] ordered in
  let+ (pool, by_temporary) := canonical_pool 0 (replicate (length m) 0) m in
  let+ ps := emap ps (remap_participant by_temporary) in
  let sigs := (fun p => mkCommitteeSignature (pt_validator p) (replicate 65 0)) <$> ps in
  let payload := mkBootstrap a pool ps sigs in
  let+ _ := preflight payload in
  inr payload.

End Bootstrap.
