(* ===== verification/TeeBootstrapProps.v ===== *)
(** Properties of the TEE bootstrap payload: its codec is exact and its length
    prediction correct, and its block-1 precharge is a [u64] value. *)

From stdpp Require Import sorting.
From S2P Require Import Prelude Bytes Wire WireProps TeeAttestation TeeAttestationProps TeePolicyProps TeeBootstrap.

Local Opaque be_bytes.

(** * Well-formed payloads *)

Definition wire_of (r : codec (list Z)) : list Z := match r with inr b => b | inl _ => [] end.

Definition wf_participant_evidence (e : TeeBootstrapParticipantEvidenceV2) : Prop :=
  match e with
  | ParticipantDcap q indices => Forall byte q /\ length indices = 8%nat /\ Forall (fits 2) indices
  | ParticipantGramine public signature => fits 32 public /\ bytes_of 64 signature
  end.
Definition wf_participant (p : TeeBootstrapParticipantV2) : Prop :=
  wf_intent (pt_intent p) /\ wf_binding (validator_binding p) /\ bytes_of 65 (validator_signature p)
  /\ bytes_of 65 (node_binding_signature p) /\ wf_participant_evidence (pt_evidence p)
  /\ bytes_of 65 (node_signature p) /\ bytes_of 64 (enclave_signature p).
Definition wf_committee_signature (s : TeeBootstrapCommitteeSignatureV2) : Prop :=
  fits 20 (cs_validator s) /\ bytes_of 65 (cs_signature s).
Definition wf_authority (a : TeeBootstrapAuthorityV2) : Prop :=
  wf_policy (bs_policy a) /\ fits 32 (committee_snapshot_hash a) /\ fits 8 (committee_snapshot_block a)
  /\ fits 8 (key_epoch a) /\ fits 8 (tribute_offer_epoch a) /\ fits 32 (dkg_transcript_hash a)
  /\ fits 32 (tribute_offer_public_key a) /\ Forall byte (tribute_offer_group_public_key a).
Definition wf_bootstrap (t : TeeBootstrapV2) : Prop :=
  wf_authority (authority t) /\ Forall wf_component (collateral_pool t)
  /\ Forall wf_participant (participants t) /\ Forall wf_committee_signature (committee_signatures t).

(** * The decoder's fields *)

Lemma bounded_bytes_app field limit (l rest : list Z) : limit <= u32_max -> zlen l <= limit ->
  bounded_bytes field limit (be_bytes 4 (zlen l) ++ l ++ rest) = inr (l, rest).
Proof.
  intros Hm Hl. pose proof (zlen_nonneg l). unfold bounded_bytes.
  rewrite d_word_app by (apply fits_4; lia). cbn [ebind]. rewrite enforce_limit_ok by done. cbn [ebind].
  unfold zlen. rewrite Nat2Z.id. by rewrite d_take_app.
Qed.
Lemma bounded_bytes_canon field limit input l rest :
  Forall byte input -> bounded_bytes field limit input = inr (l, rest) ->
  input = be_bytes 4 (zlen l) ++ l ++ rest /\ zlen l <= limit /\ Forall byte l /\ Forall byte rest.
Proof.
  intros Hb Hd. unfold bounded_bytes in Hd. tcanon.
  match goal with Hl : bytes_of _ _ |- _ => destruct Hl as [Hl Hlb] end.
  assert (Hz : zlen l = z) by (unfold zlen, fits in *; lia). by rewrite Hz.
Qed.
Lemma bounded_count_app field limit n rest : 0 <= n <= limit -> limit < 2 ^ 16 ->
  bounded_count_u16 field limit (be_bytes 2 n ++ rest) = inr (n, rest).
Proof.
  intros Hn Hm. unfold bounded_count_u16.
  rewrite d_word_app by (unfold fits; change (256 ^ Z.of_nat 2) with (2 ^ 16); lia). cbn [ebind].
  by rewrite enforce_limit_ok by lia.
Qed.
Lemma bounded_count_canon field limit input n rest :
  Forall byte input -> bounded_count_u16 field limit input = inr (n, rest) ->
  input = be_bytes 2 n ++ rest /\ 0 <= n <= limit /\ Forall byte rest.
Proof.
  intros Hb Hd. unfold bounded_count_u16 in Hd. tcanon. unfold fits in *. by split_and!; [|lia|..].
Qed.
Ltac tcanon_ext ::=
  match goal with
  | Hx : bounded_bytes _ _ ?i = inr _, Hb : Forall byte ?i |- _ =>
      apply bounded_bytes_canon in Hx as (-> & ? & ? & ?); [|exact Hb]; clear Hb
  | Hx : bounded_count_u16 _ _ ?i = inr _, Hb : Forall byte ?i |- _ =>
      apply bounded_count_canon in Hx as (-> & ? & ?); [|exact Hb]; clear Hb
  end.

Lemma bytes_of_zlen n l : bytes_of n l -> zlen l = Z.of_nat n.
Proof. intros [<- _]. done. Qed.

Section BootstrapCodec.
Context {H : Keccak} {E : TeeCrypto}.

Lemma pool_entry_lawful : elawful d_pool_entry component_wire
  (fun c => wf_component c /\ zlen (cc_bytes c) <= MAX_COLLATERAL_COMPONENT_BYTES).
Proof.
  split.
  - intros c rest [Hwf Hl]. unfold d_pool_entry, component_wire. rewrite <- !app_assoc. tread.
    rewrite bounded_bytes_app by (done || unfold u32_max, MAX_COLLATERAL_COMPONENT_BYTES; lia). cbn [ebind].
    by destruct c.
  - intros input c rest Hb Hd. unfold d_pool_entry in Hd. tcanon.
    unfold component_wire. cbn [kind cc_bytes]. by rewrite <- !app_assoc.
Qed.
Lemma committee_signature_lawful :
  elawful d_committee_signature committee_signature_bytes wf_committee_signature.
Proof.
  split.
  - intros s rest [H1 H2]. unfold d_committee_signature, committee_signature_bytes. rewrite <- !app_assoc.
    tread. by destruct s.
  - intros input s rest Hb Hd. unfold d_committee_signature in Hd. tcanon.
    unfold committee_signature_bytes. cbn [cs_validator cs_signature]. by rewrite <- !app_assoc.
Qed.
Lemma committee_signature_byte s : wf_committee_signature s -> Forall byte (committee_signature_bytes s).
Proof. intros [??]. unfold committee_signature_bytes. solve_bytes. Qed.
Lemma committee_signature_zlen s : wf_committee_signature s -> zlen (committee_signature_bytes s) = 85.
Proof. intros [_ [Hl _]]. unfold committee_signature_bytes. rewrite zlen_app, zlen_be. unfold zlen. lia. Qed.

(** ** Participants *)

Definition ev_mode (e : TeeBootstrapParticipantEvidenceV2) : AttestationMode :=
  match e with ParticipantDcap _ _ => DcapRequired | ParticipantGramine _ _ => GramineDirectDev end.
Definition ev_wire (e : TeeBootstrapParticipantEvidenceV2) : list Z :=
  match e with
  | ParticipantDcap q indices => be_bytes 4 (zlen q) ++ q ++ concat (be_bytes 2 <$> indices)
  | ParticipantGramine public signature => be_bytes 32 public ++ signature
  end.
Definition intent_wire (i : RegistrationIntentV1) : list Z := wire_of (RegistrationIntentV1_encode i).
Definition binding_wire (b : ValidatorNodeBindingV1) : list Z := wire_of (ValidatorNodeBindingV1_encode b).
Definition participant_wire (p : TeeBootstrapParticipantV2) : list Z :=
  (be_bytes 4 (zlen (intent_wire (pt_intent p))) ++ intent_wire (pt_intent p))
  ++ binding_wire (validator_binding p) ++ validator_signature p ++ node_binding_signature p
  ++ [mode_id (ev_mode (pt_evidence p))] ++ ev_wire (pt_evidence p) ++ node_signature p ++ enclave_signature p.

(** The parts of a participant encode. *)
Definition quote_fits (e : TeeBootstrapParticipantEvidenceV2) : Prop :=
  match e with ParticipantDcap q _ => zlen q <= MAX_QUOTE_BYTES | ParticipantGramine _ _ => True end.
Record participant_encodes (p : TeeBootstrapParticipantV2) : Prop := {
  pe_intent : RegistrationIntentV1_encode (pt_intent p) = inr (intent_wire (pt_intent p));
  pe_binding : ValidatorNodeBindingV1_encode (validator_binding p) = inr (binding_wire (validator_binding p));
  pe_quote_fits : quote_fits (pt_evidence p) }.

Lemma ev_lawful mode : elawful (d_participant_evidence mode) ev_wire
  (fun e => ev_mode e = mode /\ wf_participant_evidence e /\ quote_fits e).
Proof.
  split.
  - intros e rest (<- & Hwf & Hq). destruct e as [q indices|public signature];
      cbn [ev_wire ev_mode wf_participant_evidence quote_fits d_participant_evidence] in *.
    + destruct Hwf as (Hqb & Hl8 & Hi). rewrite <- !app_assoc.
      rewrite bounded_bytes_app by (done || unfold u32_max, MAX_QUOTE_BYTES; lia). cbn [ebind].
      rewrite <- Hl8, (d_repeat_app _ _ _ (d_word_lawful 2)) by done. done.
    + destruct Hwf as [??]. rewrite <- !app_assoc. by tread.
  - intros input e rest Hb Hd. unfold d_participant_evidence in Hd. destruct mode; tcanon.
    + match goal with Hx : d_repeat _ _ _ = _ |- _ =>
        apply (d_repeat_canon _ _ _ (d_word_lawful 2)) in Hx as (-> & Hl & Hi & Hr); [|assumption] end.
      cbn. rewrite <- !app_assoc. by split_and!.
    + cbn. rewrite <- !app_assoc. done.
Qed.
Lemma ev_wire_byte e : wf_participant_evidence e -> Forall byte (ev_wire e).
Proof. destruct e; cbn; intros; destruct_and?; solve_bytes. Qed.

Lemma participant_lawful : elawful d_participant participant_wire
  (fun p => wf_participant p /\ participant_encodes p).
Proof.
  split.
  - intros p rest [Hwf [Hi Hb Hq]]. destruct Hwf as (Hwi & Hwb & ? & ? & Hwe & ? & ?).
    unfold d_participant, participant_wire. rewrite <- !app_assoc.
    pose proof (intent_zlen _ _ Hwi Hi) as Hz.
    rewrite bounded_bytes_app by (rewrite ?Hz; unfold MAX_EVIDENCE_CALL_FRAMING_BYTES, u32_max; lia). cbn [ebind].
    rewrite (proj1 (proj1 intent_exact _ _ Hwi Hi)). cbn [ebind].
    rewrite d_take_app by (by eapply binding_bytes_length). cbn [ebind].
    rewrite (proj1 (proj1 binding_exact _ _ Hwb Hb)). cbn [ebind]. tread.
    rewrite (elaw_read _ _ _ (ev_lawful _)) by done. cbn [ebind]. tread. by destruct p.
  - intros input p rest Hb Hd. unfold d_participant in Hd. tcanon.
    match goal with Hx : RegistrationIntentV1_decode ?l = inr ?i |- _ =>
      destruct (proj2 intent_exact l i ltac:(done) Hx) as [Hwi Hi]; rename l into ib end.
    match goal with Hx : ValidatorNodeBindingV1_decode ?l = inr ?b, Hl : bytes_of _ ?l |- _ =>
      destruct (proj2 binding_exact l b ltac:(apply Hl) Hx) as [Hwb Hbe]; rename l into bb end.
    match goal with Hx : d_participant_evidence _ _ = _ |- _ =>
      apply (elaw_canon _ _ _ (ev_lawful _)) in Hx as (-> & (<- & Hwe & Hq) & Hr); [|assumption] end. tcanon.
    split_and!; [|done| |done].
    + unfold participant_wire, intent_wire, binding_wire. cbn [pt_intent validator_binding validator_signature
        node_binding_signature pt_evidence node_signature enclave_signature]. rewrite Hi, Hbe. cbn [wire_of].
      by rewrite <- !app_assoc.
    + constructor; cbn; unfold intent_wire, binding_wire; [by rewrite Hi|by rewrite Hbe|done].
Qed.
Lemma participant_wire_byte p : wf_participant p -> participant_encodes p -> Forall byte (participant_wire p).
Proof.
  intros (Hwi & Hwb & ? & ? & Hwe & ? & ?) [Hi Hb Hq]. unfold participant_wire.
  pose proof (intent_bytes_byte _ _ Hwi Hi). destruct (proj1 binding_exact _ _ Hwb Hb) as [_ Hbb].
  pose proof (ev_wire_byte _ Hwe). solve_bytes.
Qed.
Lemma put_bytes_u32_ok l : zlen l <= u32_max -> put_bytes_u32 l = inr (be_bytes 4 (zlen l) ++ l).
Proof. intros Hl. unfold put_bytes_u32. by rewrite put_len_u32_ok. Qed.
Lemma participant_bytes_ok p : wf_participant p -> participant_encodes p ->
  ri_mode (pt_intent p) = ev_mode (pt_evidence p) -> participant_bytes p = inr (participant_wire p).
Proof.
  intros (Hwi & Hwb & ? & ? & Hwe & ? & ?) [Hi Hb Hq] Hm. unfold participant_bytes, participant_wire. rewrite Hi.
  pose proof (intent_zlen _ _ Hwi Hi) as Hz. cbn [ebind].
  rewrite put_bytes_u32_ok by (unfold u32_max; lia). cbn [ebind]. rewrite Hb, Hm. cbn [ebind].
  destruct (pt_evidence p) as [q indices|public signature]; cbn [participant_evidence_bytes ev_wire quote_fits] in *.
  - rewrite put_bytes_u32_ok by (unfold MAX_QUOTE_BYTES, u32_max in *; lia). cbn [ebind]. by rewrite <- !app_assoc.
  - by cbn [ebind].
Qed.
Lemma participant_parts_sum p parts : wf_participant p -> participant_encodes p ->
  participant_parts p = inr parts -> parts_sum parts = zlen (participant_wire p).
Proof.
  intros (Hwi & Hwb & Hv & Hn & Hwe & Hns & Hes) [Hi Hb Hq] Hp. unfold participant_parts in Hp. rewrite Hi in Hp.
  cbn [ebind] in Hp. simplify_eq. pose proof (binding_bytes_length _ _ Hb) as Hbl.
  unfold participant_wire. rewrite !parts_sum_app, !zlen_app, zlen_be.
  assert (Hev : parts_sum (evidence_parts (pt_evidence p)) = zlen (ev_wire (pt_evidence p))).
  { destruct (pt_evidence p) as [q indices|public signature]; cbn [evidence_parts ev_wire wf_participant_evidence] in *.
    - destruct Hwe as (_ & Hl8 & _). rewrite !zlen_app, zlen_be, !parts_sum_cons, parts_sum_nil.
      unfold zlen at 3. rewrite length_concat_be, Hl8. lia.
    - destruct Hwe as [_ [Hl _]]. rewrite zlen_app, zlen_be, parts_sum_cons, parts_sum_nil. unfold zlen. lia. }
  rewrite Hev, !parts_sum_cons, !parts_sum_nil.
  assert (Hbz : zlen (binding_wire (validator_binding p)) = Z.of_nat ValidatorNodeBindingV1_CANONICAL_LEN)
    by (unfold zlen; lia).
  rewrite Hbz, (bytes_of_zlen _ _ Hv), (bytes_of_zlen _ _ Hn), (bytes_of_zlen _ _ Hns), (bytes_of_zlen _ _ Hes).
  change (zlen [mode_id (ev_mode (pt_evidence p))]) with 1. lia.
Qed.

(** ** What validation establishes *)

Record participant_valid (mode : AttestationMode) (hash : B256) (pool : list DcapCollateralComponentV1)
    (p : TeeBootstrapParticipantV2) : Prop := {
  vp_operation : operation (pt_intent p) = RegisterEnclave;
  vp_mode : ri_mode (pt_intent p) = mode;
  vp_policy : ri_policy_hash (pt_intent p) = hash;
  vp_chain : vb_chain_id (validator_binding p) = ri_chain_id (pt_intent p);
  vp_genesis : vb_genesis_hash (validator_binding p) = ri_genesis_hash (pt_intent p);
  vp_node : node_id_hash (ri_node_id (pt_intent p)) = inr (vb_node_id_hash (validator_binding p));
  vp_validator_signed : verify_validator_signature (validator_binding p) (validator_signature p) = true;
  vp_node_signed : binding_verify_node_signature (validator_binding p) (node_binding_signature p) = true;
  vp_evidence_mode : ev_mode (pt_evidence p) = mode;
  vp_quote : quote_fits (pt_evidence p);
  vp_logical : exists ev bytes, participant_evidence pool p = inr ev
    /\ AttestationEvidenceV1_encode ev = inr bytes /\ zlen bytes <= MAX_ATTESTATION_EVIDENCE_BYTES }.

(** The components a participant refers to. *)
Definition references (p : TeeBootstrapParticipantV2) : list nat :=
  match pt_evidence p with ParticipantDcap _ indices => Z.to_nat <$> indices | _ => [] end.

Lemma mark_components_inv pool indices : forall expected used used',
  mark_components pool expected used indices = inr used' ->
  used' = foldl (fun u i => <[i := true]> u) used (Z.to_nat <$> indices).
Proof.
  induction indices as [|i indices IH]; intros expected used used' Hm; cbn in *; [by simplify_eq|].
  tcanon. by eapply IH.
Qed.
Lemma participant_evidence_inv mode pool used p used' :
  validate_participant_evidence mode pool used p = inr used' ->
  ev_mode (pt_evidence p) = mode /\ quote_fits (pt_evidence p)
  /\ used' = foldl (fun u i => <[i := true]> u) used (references p).
Proof.
  unfold validate_participant_evidence, references. intros Hv.
  destruct (pt_evidence p) as [q indices|public signature], mode; try done; tcanon; [|done].
  split_and!; [done..|by eapply mark_components_inv].
Qed.

(** Validators in strictly increasing order from a bound. *)
Fixpoint validators_from (prev : option Address) (ps : list TeeBootstrapParticipantV2) : Prop :=
  match ps with
  | [] => True
  | p :: ps => match prev with Some v => v < pt_validator p | None => True end
               /\ validators_from (Some (pt_validator p)) ps
  end.
Lemma validate_participants_inv mode hash pool rest : forall used prev used',
  validate_participants mode hash pool used prev rest = inr used' ->
  Forall (participant_valid mode hash pool) rest.*1
  /\ (cs_validator <$> rest.*2) = (pt_validator <$> rest.*1)
  /\ validators_from prev rest.*1
  /\ used' = foldl (fun u i => <[i := true]> u) used (concat (references <$> rest.*1)).
Proof.
  induction rest as [|[p sig] rest IH]; intros used prev used' Hv; cbn [validate_participants] in Hv; [by simplify_eq|].
  unfold validate_participant_intent, validate_participant_binding in Hv. tcanon.
  match goal with Hx : validate_participant_evidence _ _ _ _ = _ |- _ =>
    apply participant_evidence_inv in Hx as (He & Hq & ->) end.
  match goal with Hx : validate_participants _ _ _ _ _ _ = _ |- _ => apply IH in Hx as (Hps & Hsig & Hsort & ->) end.
  cbn [fmap list_fmap fst snd]. split_and!.
  - constructor; [|done]. constructor; try done; [congruence|eauto].
  - cbn. congruence.
  - cbn. split; [|done]. destruct prev as [v|]; [|done]. by bprop.
  - cbn [concat]. by rewrite foldl_app.
Qed.

Record bootstrap_valid (t : TeeBootstrapV2) : Prop := {
  bv_policy : TeePolicyV1_validate (bs_policy (authority t)) = inr tt;
  bv_group : zlen (tribute_offer_group_public_key (authority t)) <= MAX_GROUP_PUBLIC_KEY_BYTES;
  bv_pool_count : Z.of_nat (length (collateral_pool t)) <= MAX_COLLATERAL_POOL_COMPONENTS;
  bv_count : 1 <= Z.of_nat (length (participants t)) <= MAX_BOOTSTRAP_PARTICIPANTS;
  bv_signature_count : length (committee_signatures t) = length (participants t);
  bv_pool : Forall (fun c => cc_bytes c <> [] /\ zlen (cc_bytes c) <= MAX_COLLATERAL_COMPONENT_BYTES)
              (collateral_pool t);
  bv_sorted : pool_sorted (collateral_pool t) = true;
  bv_len : exists len, canonical_encoded_len t = inr len /\ len + 5 <= MAX_TEE_BOOTSTRAP_BYTES;
  bv_participants : exists hash, policy_hash (bs_policy (authority t)) = inr hash
    /\ Forall (participant_valid (bs_mode t) hash (collateral_pool t)) (participants t);
  bv_validators : validators_from None (participants t);
  bv_signers : cs_validator <$> committee_signatures t = pt_validator <$> participants t;
  bv_used : forall i, (i < length (collateral_pool t))%nat -> i ∈ concat (references <$> participants t) }.

Lemma foldl_mark_lookup l : forall (used : list bool) i,
  foldl (fun u i => <[i := true]> u) used l !! i = Some true -> i ∈ l \/ used !! i = Some true.
Proof.
  induction l as [|j l IH]; intros used i Hi; cbn in *; [by right|].
  apply IH in Hi as [Hi|Hi]; [left; by constructor|]. destruct (decide (j = i)) as [->|Hne]; [left; constructor|].
  rewrite list_lookup_insert_ne in Hi by done. by right.
Qed.
Lemma foldl_mark_length l : forall (used : list bool),
  length (foldl (fun u i => <[i := true]> u) used l) = length used.
Proof. induction l as [|j l IH]; intros used; cbn; [done|]. by rewrite IH, length_insert. Qed.

Lemma bootstrap_validate_inv t : validate_bootstrap t = inr tt -> bootstrap_valid t.
Proof.
  intros Hv. unfold validate_bootstrap, validate_authority, enforce_full_calldata_cap in Hv. tcanon.
  match goal with Hx : (length _ =? length _)%nat = true |- _ => apply Nat.eqb_eq in Hx; rename Hx into Hlen end.
  match goal with Hx : validate_participants _ _ _ _ _ _ = _ |- _ => apply validate_participants_inv in Hx as (Hps & Hsig & Hsort & Hused) end.
  rewrite fst_zip in * by lia. rewrite snd_zip in * by lia.
  match goal with Hx : emap _ validate_pool_entry = _ |- _ => apply emap_inr in Hx; rename Hx into Hpool end.
  match goal with Hx : policy_hash _ = inr ?h |- _ => pose proof Hx as (pb & Hpe & _)%ebind_inr; rename Hx into Hhash end.
  match goal with Hx : checked_add_usize _ _ = inr _ |- _ => apply checked_add_usize_inr in Hx as [-> _] end.
  constructor; try done; try eauto.
  - by eapply policy_encode_inv.
  - lia.
  - clear -Hpool. induction Hpool as [|c [] cs us Hc Hcs IH]; constructor; [|done].
    unfold validate_pool_entry in Hc. tcanon. done.
  - intros i Hi. match goal with Hx : forallb id _ = true |- _ => rename Hx into Hall end.
    rewrite forallb_forall in Hall. subst.
    assert (Hin : exists u, foldl (fun u i => <[i := true]> u) (replicate (length (collateral_pool t)) false)
        (concat (references <$> participants t)) !! i = Some u).
    { apply lookup_lt_is_Some_2. by rewrite foldl_mark_length, length_replicate. }
    destruct Hin as [u Hu]. assert (u = true) as -> by (apply (Hall u), list_elem_of_In; by eapply list_elem_of_lookup_2).
    apply foldl_mark_lookup in Hu as [Hu|Hu]; [done|]. apply lookup_replicate in Hu as [? _]. done.
Qed.

(** ** Encoding *)

Definition body_wire (t : TeeBootstrapV2) : list Z :=
  let a := authority t in
  BOOTSTRAP_MAGIC ++ (be_bytes 4 (zlen (policy_wire (bs_policy a))) ++ policy_wire (bs_policy a))
  ++ be_bytes 32 (committee_snapshot_hash a) ++ be_bytes 8 (committee_snapshot_block a)
  ++ be_bytes 8 (key_epoch a) ++ be_bytes 8 (tribute_offer_epoch a) ++ be_bytes 32 (dkg_transcript_hash a)
  ++ be_bytes 32 (tribute_offer_public_key a)
  ++ (be_bytes 4 (zlen (tribute_offer_group_public_key a)) ++ tribute_offer_group_public_key a)
  ++ be_bytes 2 (Z.of_nat (length (collateral_pool t))) ++ concat (component_wire <$> collateral_pool t)
  ++ be_bytes 2 (Z.of_nat (length (participants t))) ++ concat (participant_wire <$> participants t).
Definition bootstrap_wire (t : TeeBootstrapV2) : list Z :=
  body_wire t ++ be_bytes 2 (Z.of_nat (length (committee_signatures t)))
  ++ concat (committee_signature_bytes <$> committee_signatures t).

Lemma participant_valid_encodes mode hash pool p parts :
  participant_valid mode hash pool p -> participant_parts p = inr parts -> participant_encodes p.
Proof.
  intros Hv Hp. constructor; [| |by apply Hv].
  - unfold participant_parts in Hp. apply ebind_inr in Hp as (b & Hb & _). unfold intent_wire. by rewrite Hb.
  - pose proof (vp_validator_signed _ _ _ _ Hv) as Hs. unfold verify_validator_signature, ValidatorNodeBindingV1_hash in Hs.
    unfold binding_wire. by destruct (ValidatorNodeBindingV1_encode _).
Qed.
Lemma participants_len_inv ps : forall acc n, participants_len acc ps = inr n ->
  Forall (fun p => exists parts, participant_parts p = inr parts) ps
  /\ (Forall (fun p => wf_participant p /\ participant_encodes p) ps ->
      n = acc + zlen (concat (participant_wire <$> ps))).
Proof.
  induction ps as [|p ps IH]; intros acc n Hn; cbn [participants_len] in Hn; [simplify_eq; split; [done|unfold zlen; cbn; lia]|].
  apply ebind_inr in Hn as (parts & Hp & Hn). apply ebind_inr in Hn as (acc' & Ha & Hn).
  apply IH in Hn as [Hps Hn]. apply checked_total_inv in Ha. split; [constructor; eauto|].
  intros [[Hw He] Hwf]%Forall_cons. specialize (Hn Hwf). cbn [fmap list_fmap concat]. rewrite zlen_app.
  rewrite <- (participant_parts_sum p parts Hw He Hp). lia.
Qed.
Lemma zlen_concat {A} (f : A -> list Z) (w : Z) l : Forall (fun a => zlen (f a) = w) l ->
  zlen (concat (f <$> l)) = w * Z.of_nat (length l).
Proof. induction 1; [unfold zlen; cbn; lia|]. cbn [fmap list_fmap concat length]. rewrite zlen_app, Nat2Z.inj_succ, Z.mul_succ_r. lia. Qed.
Lemma concat_byte {A} (f : A -> list Z) l : Forall (fun a => Forall byte (f a)) l -> Forall byte (concat (f <$> l)).
Proof. induction 1; [constructor|]. cbn [fmap list_fmap concat]. by apply Forall_app. Qed.

Section Valid.
Context (t : TeeBootstrapV2) (Hwf : wf_bootstrap t) (Hvalid : bootstrap_valid t).

Lemma valid_participants : Forall (fun p => wf_participant p /\ participant_encodes p) (participants t)
  /\ Forall (fun p => ri_mode (pt_intent p) = ev_mode (pt_evidence p)) (participants t).
Proof.
  destruct Hwf as (_ & _ & Hwp & _). destruct (bv_len t Hvalid) as (len & Hlen & _).
  destruct (bv_participants t Hvalid) as (hash & _ & Hps). unfold canonical_encoded_len, encoded_body_len in Hlen. tcanon.
  match goal with Hx : participants_len _ _ = _ |- _ => apply participants_len_inv in Hx as [Hparts _] end.
  rewrite Forall_forall in Hwp, Hparts, Hps. split; apply Forall_forall; intros pt Hp.
  - split; [by apply Hwp|]. destruct (Hparts pt Hp) as [parts Hpp].
    by eapply participant_valid_encodes; [apply Hps|].
  - destruct (Hps pt Hp). congruence.
Qed.

Lemma body_len_exact n : encoded_body_len t = inr n -> n = zlen (body_wire t).
Proof.
  intros Hn. destruct Hwf as ((Hp & _) & _). destruct (policy_encode_ok _ Hp (bv_policy t Hvalid)) as [He _].
  unfold encoded_body_len in Hn. rewrite He in Hn. cbn [ebind] in Hn. apply ebind_inr in Hn as (len & Hlen & Hn).
  apply participants_len_inv in Hn as [_ Hn]. specialize (Hn (proj1 valid_participants)).
  apply checked_total_inv in Hlen. subst. change (1 + 4) with 5. fold (component_parts (collateral_pool t)).
  unfold body_wire. rewrite !zlen_app, !zlen_be, !parts_sum_app, components_zlen, !parts_sum_cons, !parts_sum_nil.
  change (zlen BOOTSTRAP_MAGIC) with 4. lia.
Qed.
Lemma canonical_len_exact n : canonical_encoded_len t = inr n -> n = zlen (bootstrap_wire t).
Proof.
  intros Hn. unfold canonical_encoded_len in Hn. tcanon.
  repeat match goal with Hx : checked_add_usize _ _ = inr _ |- _ => apply checked_add_usize_inr in Hx as [-> _] end.
  match goal with Hx : tee_checked_mul _ _ = inr _ |- _ => apply tee_checked_mul_inr in Hx as [-> _] end.
  match goal with Hx : encoded_body_len t = inr _ |- _ => apply body_len_exact in Hx as -> end.
  unfold bootstrap_wire. rewrite !zlen_app, zlen_be, (zlen_concat _ 85); [lia|].
  destruct Hwf as (_ & _ & _ & Hs). eapply Forall_impl; [exact Hs|]. apply committee_signature_zlen.
Qed.

Lemma pool_bytes_ok : emap (collateral_pool t) pool_entry_bytes = inr (component_wire <$> collateral_pool t).
Proof.
  apply emap_inr. pose proof (bv_pool t Hvalid) as Hp. induction Hp as [|c cs [_ Hc] Hcs IH]; cbn; constructor; [|done].
  unfold pool_entry_bytes. rewrite put_bytes_u32_ok by (unfold MAX_COLLATERAL_COMPONENT_BYTES, u32_max in *; lia). done.
Qed.
Lemma participants_bytes_ok : emap (participants t) participant_bytes = inr (participant_wire <$> participants t).
Proof.
  apply emap_inr. destruct valid_participants as [Hp Hm]. revert Hm. induction Hp as [|p ps [Hw He] Hps IH]; intros Hm; cbn; constructor.
  - apply Forall_cons in Hm as [Hm _]. by apply participant_bytes_ok.
  - apply IH. by apply Forall_cons in Hm as [_ Hm].
Qed.
Lemma encode_body_ok : encode_body t = inr (body_wire t).
Proof.
  destruct Hwf as ((Hp & _) & _). destruct (policy_encode_ok _ Hp (bv_policy t Hvalid)) as [He Hz].
  destruct (bv_len t Hvalid) as (len & Hlen & _). unfold canonical_encoded_len in Hlen.
  apply ebind_inr in Hlen as (sb & _ & Hlen). apply ebind_inr in Hlen as (n & Hn & _).
  pose proof (bv_group t Hvalid). pose proof (bv_pool_count t Hvalid). pose proof (bv_count t Hvalid).
  unfold MAX_COLLATERAL_POOL_COMPONENTS, MAX_BOOTSTRAP_PARTICIPANTS, MAX_GROUP_PUBLIC_KEY_BYTES in *.
  unfold encode_body. rewrite He. cbn [ebind]. rewrite Hn. cbn [ebind].
  rewrite put_bytes_u32_ok by (unfold u32_max; lia). cbn [ebind].
  rewrite put_bytes_u32_ok by (unfold u32_max; lia). cbn [ebind].
  rewrite put_len_u16_ok by lia. cbn [ebind]. rewrite pool_bytes_ok. cbn [ebind].
  rewrite put_len_u16_ok by lia. cbn [ebind]. rewrite participants_bytes_ok. done.
Qed.
Lemma body_wire_byte : Forall byte (body_wire t).
Proof.
  destruct Hwf as ((Hp & ? & ? & ? & ? & ? & ? & ?) & Hc & _ & _). pose proof (policy_wire_byte _ Hp).
  assert (Forall byte (concat (participant_wire <$> participants t))).
  { apply concat_byte. eapply Forall_impl; [exact (proj1 valid_participants)|]. intros p [??]. by apply participant_wire_byte. }
  pose proof (components_byte _ Hc). unfold body_wire. solve_bytes.
Qed.
End Valid.

Lemma bootstrap_encode_ok t : wf_bootstrap t -> validate_bootstrap t = inr tt ->
  TeeBootstrapV2_encode t = inr (bootstrap_wire t) /\ canonical_encoded_len t = inr (zlen (bootstrap_wire t))
  /\ Forall byte (bootstrap_wire t) /\ zlen (bootstrap_wire t) + 5 <= MAX_TEE_BOOTSTRAP_BYTES.
Proof.
  intros Hwf Hv. pose proof (bootstrap_validate_inv t Hv) as Hvalid. destruct (bv_len t Hvalid) as (len & Hlen & Hcap).
  pose proof (canonical_len_exact t Hwf Hvalid len Hlen) as ->. split_and!; [|done| |done].
  - unfold TeeBootstrapV2_encode. rewrite Hv. cbn [ebind]. rewrite encode_body_ok by done. cbn [ebind].
    rewrite (bv_signature_count t Hvalid). pose proof (bv_count t Hvalid).
    rewrite put_len_u16_ok by (unfold MAX_BOOTSTRAP_PARTICIPANTS in *; lia). cbn [ebind].
    rewrite <- (bv_signature_count t Hvalid). fold (bootstrap_wire t). unfold enforce_full_calldata_cap.
    rewrite (proj2 (checked_add_usize_inr _ _ (zlen (bootstrap_wire t) + 5)))
      by (unfold MAX_TEE_BOOTSTRAP_BYTES, u64_max, SYSTEM_CALLDATA_FRAMING_BYTES in *; lia). cbn [ebind].
    by rewrite enforce_limit_ok by done.
  - unfold bootstrap_wire. pose proof (body_wire_byte t Hwf Hvalid).
    assert (Forall byte (concat (committee_signature_bytes <$> committee_signatures t))).
    { apply concat_byte. eapply Forall_impl; [apply Hwf|]. apply committee_signature_byte. }
    solve_bytes.
Qed.

(** The payload with other committee signatures. *)
Definition with_signatures (t : TeeBootstrapV2) (sigs : list TeeBootstrapCommitteeSignatureV2) : TeeBootstrapV2 :=
  mkBootstrap (authority t) (collateral_pool t) (participants t) sigs.

(** Reading the body of a valid payload before any signatures. *)
Lemma bootstrap_read_body t sigs : wf_bootstrap t -> bootstrap_valid t ->
  Forall wf_committee_signature sigs -> Z.of_nat (length sigs) <= MAX_BOOTSTRAP_PARTICIPANTS ->
  zlen (bootstrap_wire (with_signatures t sigs)) + 5 <= MAX_TEE_BOOTSTRAP_BYTES ->
  TeeBootstrapV2_decode (bootstrap_wire (with_signatures t sigs))
  = let+ _ := validate_bootstrap (with_signatures t sigs) in inr (with_signatures t sigs).
Proof.
  intros Hwf Hvalid Hs Hn Hcap.
  pose proof Hwf as ((Hp & ? & ? & ? & ? & ? & ? & ?) & Hc & Hps & _).
  destruct (policy_encode_ok _ Hp (bv_policy t Hvalid)) as [He Hz].
  pose proof (bv_group t Hvalid). pose proof (bv_pool_count t Hvalid) as Hpc. pose proof (bv_count t Hvalid) as Hcnt.
  unfold TeeBootstrapV2_decode, enforce_full_calldata_cap.
  rewrite (proj2 (checked_add_usize_inr _ _ (zlen (bootstrap_wire (with_signatures t sigs)) + 5)))
    by (unfold MAX_TEE_BOOTSTRAP_BYTES, u64_max, SYSTEM_CALLDATA_FRAMING_BYTES in *; lia). cbn [ebind].
  rewrite enforce_limit_ok by done. cbn [ebind]. unfold bootstrap_wire, body_wire.
  cbn [with_signatures authority collateral_pool participants committee_signatures]. rewrite <- !app_assoc.
  rewrite d_take_app by done. cbn [ebind]. rewrite bool_decide_eq_true_2 by done. cbn [erequire ebind].
  rewrite bounded_bytes_app by (unfold MAX_EVIDENCE_CALL_FRAMING_BYTES, u32_max; lia). cbn [ebind].
  rewrite (proj1 (proj1 policy_exact _ _ Hp He)). cbn [ebind]. tread.
  rewrite bounded_bytes_app by (done || unfold MAX_GROUP_PUBLIC_KEY_BYTES, u32_max; lia). cbn [ebind].
  unfold MAX_COLLATERAL_POOL_COMPONENTS, MAX_BOOTSTRAP_PARTICIPANTS in *.
  rewrite bounded_count_app by lia. cbn [ebind]. rewrite Nat2Z.id.
  rewrite (d_repeat_app _ _ _ pool_entry_lawful)
    by (apply Forall_and; split; [done|]; eapply Forall_impl; [apply Hvalid|]; by intros ? []). cbn [ebind].
  rewrite bounded_count_app by lia. cbn [ebind]. rewrite Nat2Z.id.
  rewrite (d_repeat_app _ _ _ participant_lawful) by (by apply valid_participants). cbn [ebind].
  rewrite bounded_count_app by lia. cbn [ebind]. rewrite Nat2Z.id.
  rewrite <- (app_nil_r (concat (committee_signature_bytes <$> _))).
  rewrite (d_repeat_app _ _ _ committee_signature_lawful) by done. cbn [ebind]. tread.
  by destruct t as [[] ? ? ?].
Qed.
Lemma bootstrap_read t : wf_bootstrap t -> validate_bootstrap t = inr tt ->
  TeeBootstrapV2_decode (bootstrap_wire t) = inr t.
Proof.
  intros Hwf Hv. pose proof (bootstrap_validate_inv t Hv) as Hvalid.
  destruct (bootstrap_encode_ok t Hwf Hv) as (_ & _ & _ & Hcap).
  assert (Ht : with_signatures t (committee_signatures t) = t) by (by destruct t).
  pose proof (bootstrap_read_body t (committee_signatures t) Hwf Hvalid) as Hr. rewrite Ht, Hv in Hr.
  apply Hr; [apply Hwf| |done]. rewrite (bv_signature_count t Hvalid). apply (bv_count t Hvalid).
Qed.
Lemma bootstrap_exact : exact_codec TeeBootstrapV2_encode TeeBootstrapV2_decode wf_bootstrap.
Proof.
  split.
  - intros t bytes Hwf He. pose proof He as ([] & Hv & _)%ebind_inr.
    destruct (bootstrap_encode_ok t Hwf Hv) as (He' & _ & Hb & _). rewrite He' in He. simplify_eq.
    split; [by apply bootstrap_read|done].
  - intros input t Hb Hd. unfold TeeBootstrapV2_decode in Hd. tcanon.
    match goal with Hx : TeePolicyV1_decode ?l = inr ?p |- _ =>
      destruct (proj2 policy_exact l p ltac:(done) Hx) as [Hwp Hpe] end.
    match goal with Hx : d_repeat _ d_pool_entry _ = _ |- _ =>
      apply (d_repeat_canon _ _ _ pool_entry_lawful) in Hx as (-> & Hlc & Hcs & ?); [|assumption] end. tcanon.
    match goal with Hx : d_repeat _ d_participant _ = _ |- _ =>
      apply (d_repeat_canon _ _ _ participant_lawful) in Hx as (-> & Hlp & Hps & ?); [|assumption] end. tcanon.
    match goal with Hx : d_repeat _ d_committee_signature _ = _ |- _ =>
      apply (d_repeat_canon _ _ _ committee_signature_lawful) in Hx as (-> & Hls & Hss & _); [|assumption] end.
    apply Forall_and in Hcs as [Hcs _]. apply Forall_and in Hps as [Hps _].
    match goal with Hv : validate_bootstrap ?t = inr tt |- _ =>
      assert (Hwf : wf_bootstrap t) by (unfold wf_bootstrap, wf_authority; cbn; by split_and!); split; [done|];
      destruct (bootstrap_encode_ok t Hwf Hv) as [-> _] end.
    destruct (policy_encode_ok _ Hwp (policy_encode_inv _ _ Hpe)) as [Hpe' _]. rewrite Hpe' in Hpe. simplify_eq.
    unfold bootstrap_wire, body_wire. cbn [authority bs_policy committee_snapshot_hash committee_snapshot_block
      key_epoch tribute_offer_epoch dkg_transcript_hash tribute_offer_public_key tribute_offer_group_public_key
      collateral_pool participants committee_signatures].
    rewrite <- !app_assoc, app_nil_r, Hlc, Hlp, Hls, !Z2Nat.id by lia. done.
Qed.
End BootstrapCodec.

(** * Gas *)

Section Gas.
Context {H : Keccak} {E : TeeCrypto}.

Lemma checked_total_nonneg parts acc n : 0 <= acc -> Forall (Z.le 0) parts -> checked_total acc parts = inr n -> 0 <= n.
Proof. intros Ha Hp ->%checked_total_inv. pose proof (parts_sum_nonneg parts Hp). lia. Qed.
Lemma evidence_parts_nonneg ev : Forall (Z.le 0) (evidence_parts ev).
Proof. destruct ev; cbn; repeat constructor; try apply zlen_nonneg; lia. Qed.
Lemma participants_len_nonneg ps : forall acc n, 0 <= acc -> participants_len acc ps = inr n -> 0 <= n.
Proof.
  induction ps as [|p ps IH]; intros acc n Ha Hn; cbn [participants_len] in Hn; [by simplify_eq|].
  apply ebind_inr in Hn as (parts & (b & _ & [= <-])%ebind_inr & Hn). apply ebind_inr in Hn as (acc' & Hacc & Hn).
  refine (IH _ _ _ Hn). refine (checked_total_nonneg _ _ _ Ha _ Hacc). pose proof (zlen_nonneg b).
  do 4 (constructor; [lia|]). apply Forall_app. split; [apply evidence_parts_nonneg|].
  repeat constructor; lia.
Qed.
Lemma canonical_len_nonneg t n : canonical_encoded_len t = inr n -> 0 <= n.
Proof.
  intros Hn. unfold canonical_encoded_len, encoded_body_len in Hn. tcanon.
  repeat match goal with Hx : checked_add_usize _ _ = inr _ |- _ => apply checked_add_usize_inr in Hx as [-> _] end.
  match goal with Hx : tee_checked_mul _ _ = inr _ |- _ => apply tee_checked_mul_inr in Hx as [-> _] end.
  match goal with Hx : participants_len _ _ = inr ?n |- _ => assert (0 <= n); [|lia]; refine (participants_len_nonneg _ _ _ _ Hx) end.
  match goal with Hx : checked_total _ _ = inr _ |- _ => refine (checked_total_nonneg _ _ _ _ _ Hx); [lia|] end.
  repeat (apply Forall_app; split); [repeat constructor; try apply zlen_nonneg; lia| |repeat constructor; lia].
  apply Forall_concat, Forall_fmap, Forall_true. intros c. repeat constructor; [lia|apply zlen_nonneg].
Qed.

(** The block-1 precharge of any payload that has one is a [u64] value. *)
Lemma protocol_precharge_nonneg t gas :
  protocol_precharge t SystemGasScheduleV1_normative TeeRegistryGasScheduleV1_normative = inr gas -> 0 <= gas.
Proof.
  intros Hg. unfold protocol_precharge in Hg.
  apply ebind_inr in Hg as (_ & _ & Hg). apply ebind_inr in Hg as (len & Hlen & Hg).
  apply ebind_inr in Hg as (full & [-> _]%checked_add_usize_inr & Hg). apply ebind_inr in Hg as (lens & Hlens & Hg).
  apply ebind_inr in Hg as (comps & Hc & Hg). apply canonical_len_nonneg in Hlen.
  refine (bootstrap_precharge_nonneg _ _ _ _ _ _ _ Hg); cbn; [unfold SYSTEM_CALLDATA_FRAMING_BYTES; lia| |lia| |lia].
  - apply emap_inr in Hlens. clear -Hlens. induction Hlens as [|i l is' ls Hl Hls IH]; constructor; [|done].
    apply ebind_inr in Hl as (ev & _ & Hl). apply ebind_inr in Hl as (b & _ & [= <-]). apply zlen_nonneg.
  - destruct (bs_mode t); [apply tee_checked_mul_inr in Hc as [-> _]|simplify_eq]; lia.
Qed.

(** ** The exact charge *)

Definition payload_rules (t : TeeBootstrapV2) : Z := Z.of_nat (length (measurement_rules (bs_policy (authority t)))).
(** The length of each participant's logical evidence. *)
Definition evidence_lens (t : TeeBootstrapV2) : list Z :=
  (fun i => match evidence_len t i with inr len => len | inl _ => 0 end) <$> seq 0 (length (participants t)).
Definition charged_components (t : TeeBootstrapV2) : Z :=
  match bs_mode t with DcapRequired => 8 * Z.of_nat (length (participants t)) | GramineDirectDev => 0 end.
Definition payload_precharge (t : TeeBootstrapV2) : Z :=
  300000 + (zlen (bootstrap_wire t) + 5) + 110000 * Z.of_nat (length (participants t))
  + evidence_gas (payload_rules t) (evidence_lens t) + 15000 * charged_components t.

Lemma payload_rules_bounds t : bootstrap_valid t -> 1 <= payload_rules t <= MAX_ACTIVE_MEASUREMENT_RULES.
Proof.
  intros Hv. pose proof (bv_policy t Hv) as Hp. unfold TeePolicyV1_validate in Hp. tcanon. unfold payload_rules.
  match goal with Hx : (length _ =? 0)%nat = false |- _ => apply Nat.eqb_neq in Hx end. lia.
Qed.
Lemma evidence_lens_ok t : bootstrap_valid t ->
  emap (seq 0 (length (participants t))) (evidence_len t) = inr (evidence_lens t)
  /\ Forall (fun len => evidence_dims len (payload_rules t)) (evidence_lens t).
Proof.
  intros Hv. pose proof (payload_rules_bounds t Hv) as Hr. destruct (bv_participants t Hv) as (hash & _ & Hps).
  assert (Hi : forall i, i ∈ seq 0 (length (participants t)) ->
    exists len, evidence_len t i = inr len /\ 0 <= len <= MAX_ATTESTATION_EVIDENCE_BYTES).
  { intros i [_ Hi]%elem_of_seq. destruct (lookup_lt_is_Some_2 (participants t) i ltac:(lia)) as [p Hp].
    pose proof (proj1 (Forall_lookup _ _) Hps i p Hp) as Hpv. destruct (vp_logical _ _ _ _ Hpv) as (ev & b & He & Hb & Hl).
    exists (zlen b). unfold evidence_len, logical_evidence. rewrite Hp. cbn [eok_or ebind]. rewrite He. cbn [ebind].
    rewrite Hb. pose proof (zlen_nonneg b). split; [done|lia]. }
  unfold evidence_lens. split.
  - apply emap_inr. apply Forall2_fmap_r, Forall_Forall2_diag, Forall_forall. intros i (len & He & _)%Hi. unfold compose. by rewrite He.
  - apply Forall_fmap, Forall_forall. intros i (len & He & Hl)%Hi. unfold compose. rewrite He. split; [done|lia].
Qed.
Lemma precharge_exact t : wf_bootstrap t -> validate_bootstrap t = inr tt ->
  protocol_precharge t SystemGasScheduleV1_normative TeeRegistryGasScheduleV1_normative = inr (payload_precharge t).
Proof.
  intros Hwf Hval. pose proof (bootstrap_validate_inv t Hval) as Hv. destruct (bootstrap_encode_ok t Hwf Hval) as (_ & Hlen & _ & Hcap).
  destruct (evidence_lens_ok t Hv) as [Hlens Hdims]. pose proof (bv_count t Hv). pose proof (zlen_nonneg (bootstrap_wire t)).
  assert (Hn : zlen (evidence_lens t) = Z.of_nat (length (participants t))).
  { unfold zlen, evidence_lens. by rewrite length_fmap, length_seq. }
  unfold MAX_TEE_BOOTSTRAP_BYTES, MAX_BOOTSTRAP_PARTICIPANTS in *.
  unfold protocol_precharge. rewrite Hval. cbn [ebind]. rewrite Hlen. cbn [ebind].
  rewrite (proj2 (checked_add_usize_inr _ _ (zlen (bootstrap_wire t) + 5)))
    by (unfold SYSTEM_CALLDATA_FRAMING_BYTES, u64_max; lia). cbn [ebind]. rewrite Hlens. cbn [ebind].
  assert (Hc : match bs_mode t with DcapRequired => tee_checked_mul (Z.of_nat (length (participants t))) 8
                                  | GramineDirectDev => inr 0 end = inr (charged_components t)).
  { unfold charged_components. destruct (bs_mode t); [|done]. apply tee_checked_mul_inr. unfold u64_max. lia. }
  rewrite Hc. cbn [ebind]. clear Hc. rewrite (bv_signature_count t Hv).
  assert (0 <= charged_components t <= 2048) by (unfold charged_components; destruct (bs_mode t); lia).
  rewrite bootstrap_precharge_ok; cbn [full_calldata_len logical_evidence_lengths active_rule_count
    collateral_component_count committee_signature_count]; try done; unfold MAX_TEE_BOOTSTRAP_BYTES; try lia.
  fold (payload_rules t). unfold payload_precharge. rewrite Hn. f_equal. lia.
Qed.

(** The gas the preflight check compares with the limit of the bootstrap block. *)
Definition visible_gas (t : TeeBootstrapV2) : Z := 21000 + 16 * (zlen (bootstrap_wire t) + 5) + payload_precharge t.
Lemma payload_precharge_bounds t : wf_bootstrap t -> validate_bootstrap t = inr tt ->
  320000 + 3380000 * Z.of_nat (length (participants t)) <= visible_gas t
  <= 22603240 + 9635024 * Z.of_nat (length (participants t)).
Proof.
  intros Hwf Hval. pose proof (bootstrap_validate_inv t Hval) as Hv. destruct (bootstrap_encode_ok t Hwf Hval) as (_ & _ & _ & Hcap).
  destruct (evidence_lens_ok t Hv) as [_ Hdims]. pose proof (zlen_nonneg (bootstrap_wire t)).
  pose proof (payload_rules_bounds t Hv). pose proof (evidence_gas_bounds _ _ Hdims) as [_ Hup].
  assert (Hn : length (evidence_lens t) = length (participants t)) by (unfold evidence_lens; by rewrite length_fmap, length_seq).
  assert (Hlow : 3270000 * Z.of_nat (length (evidence_lens t)) <= evidence_gas (payload_rules t) (evidence_lens t)).
  { clear Hup Hn. induction Hdims as [|len lens [Hl _] Hd IH]; [done|].
    change (evidence_gas ?r (len :: lens)) with (qvl_gas DcapRequired len r + evidence_gas r lens).
    cbn [length qvl_gas]. lia. }
  rewrite Hn in *. unfold MAX_TEE_BOOTSTRAP_BYTES in *. unfold visible_gas, payload_precharge, charged_components.
  destruct (bs_mode t); lia.
Qed.
Lemma preflight_iff t : wf_bootstrap t -> validate_bootstrap t = inr tt ->
  preflight t = inr tt <-> visible_gas t <= BOOTSTRAP_BLOCK_GAS_LIMIT.
Proof.
  intros Hwf Hval. pose proof (payload_precharge_bounds t Hwf Hval) as [Hlo Hup]. pose proof (bootstrap_validate_inv t Hval) as Hv.
  pose proof (bv_count t Hv). destruct (bootstrap_encode_ok t Hwf Hval) as (_ & Hlen & _ & Hcap). pose proof (zlen_nonneg (bootstrap_wire t)).
  unfold MAX_TEE_BOOTSTRAP_BYTES, MAX_BOOTSTRAP_PARTICIPANTS in *. unfold preflight. rewrite Hval. cbn [ebind]. rewrite Hlen. cbn [ebind].
  unfold visible_gas in *. assert (0 <= payload_precharge t) by (eapply protocol_precharge_nonneg; by apply precharge_exact).
  rewrite (proj2 (checked_add_usize_inr _ _ (zlen (bootstrap_wire t) + 5)))
    by (unfold SYSTEM_CALLDATA_FRAMING_BYTES, u64_max; lia). cbn [ebind].
  rewrite (proj2 (tee_checked_mul_inr _ _ (16 * (zlen (bootstrap_wire t) + 5))))
    by (unfold SYSTEM_TX_NON_ZERO_BYTE_GAS, u64_max; lia). cbn [ebind].
  rewrite (proj2 (checked_add_usize_inr _ _ (21000 + 16 * (zlen (bootstrap_wire t) + 5))))
    by (unfold SYSTEM_TX_VISIBLE_GAS_FLOOR, u64_max; lia). cbn [ebind]. rewrite precharge_exact by done. cbn [ebind].
  rewrite (proj2 (checked_add_usize_inr _ _ (21000 + 16 * (zlen (bootstrap_wire t) + 5) + payload_precharge t)))
    by (unfold u64_max; lia). cbn [ebind]. unfold enforce_limit, erequire. case_match; bprop; naive_solver lia.
Qed.
End Gas.
