(* ===== verification/TeeAssemblyProps.v ===== *)
(** Assembly of the bootstrap payload: deduplicating the collateral loses
    nothing, the result does not depend on the order of the submissions, and a
    valid payload is the only one with its content. *)

From stdpp Require Import sorting.
From S2P Require Import Prelude Bytes Wire WireProps TeeAttestation TeeAttestationProps TeePolicyProps TeeBootstrap TeeBootstrapProps.

Local Opaque be_bytes.

(** * The order of component keys *)

Definition key_lt (a b : component_key) : Prop := key_compare a b = Lt.

Lemma bytes_compare_eq a : forall b, bytes_compare a b = Eq <-> a = b.
Proof.
  induction a as [|x a IH]; intros [|y b]; cbn; try done.
  destruct (Z.compare_spec x y) as [->|Hlt|Hgt]; [rewrite IH|..]; split; try done; [by intros ->|by intros [= ?]|..];
    intros [= -> ->]; lia.
Qed.
Lemma bytes_compare_opp a : forall b, bytes_compare b a = CompOpp (bytes_compare a b).
Proof.
  induction a as [|x a IH]; intros [|y b]; cbn; try done.
  rewrite (Z.compare_antisym x y). destruct (x ?= y); cbn; [apply IH|done|done].
Qed.
Lemma bytes_compare_trans a : forall b c, bytes_compare a b = Lt -> bytes_compare b c = Lt -> bytes_compare a c = Lt.
Proof.
  induction a as [|x a IH]; intros [|y b] [|z c]; cbn; try done.
  destruct (Z.compare_spec x y), (Z.compare_spec y z), (Z.compare_spec x z); try done; try lia; subst; eauto.
Qed.
Lemma key_compare_eq a b : key_compare a b = Eq <-> a = b.
Proof.
  unfold key_compare. destruct a as [x a], b as [y b]; cbn.
  destruct (Z.compare_spec x y) as [->|Hlt|Hgt]; [rewrite bytes_compare_eq; naive_solver|..];
    (split; [done|]; intros [= -> ->]; lia).
Qed.
Lemma key_compare_opp a b : key_compare b a = CompOpp (key_compare a b).
Proof.
  unfold key_compare. rewrite (Z.compare_antisym a.1 b.1). destruct (a.1 ?= b.1); cbn; [apply bytes_compare_opp|done|done].
Qed.
#[global] Instance key_lt_trans : Transitive key_lt.
Proof.
  intros [x a] [y b] [z c]. unfold key_lt, key_compare. cbn.
  destruct (Z.compare_spec x y), (Z.compare_spec y z), (Z.compare_spec x z); try done; try lia.
  apply bytes_compare_trans.
Qed.
#[global] Instance key_lt_irrefl : Irreflexive key_lt.
Proof. intros k Hk. unfold key_lt in Hk. rewrite (proj2 (key_compare_eq k k) eq_refl) in Hk. done. Qed.
#[global] Instance key_lt_antisymm : AntiSymm (=) key_lt.
Proof. intros a b Hab Hba. destruct (irreflexivity key_lt a). by transitivity b. Qed.

Lemma kind_id_inj a b : collateral_kind_id a = collateral_kind_id b -> a = b.
Proof. by destruct a, b. Qed.
#[global] Instance key_of_inj : Inj (=) (=) key_of.
Proof. intros [ka ba] [kb bb] [= Hk ->]. by apply kind_id_inj in Hk as ->. Qed.

(** Two strictly sorted lists with the same elements are equal. *)
Lemma strictly_sorted_nodup {A} (R : relation A) `{!Irreflexive R} (l : list A) : StronglySorted R l -> NoDup l.
Proof.
  induction 1 as [|a m Hm IH Ha]; constructor; [|done]. intros Hin. rewrite Forall_forall in Ha.
  destruct (irreflexivity R a). by apply Ha.
Qed.
Lemma sorted_ext {A} (R : relation A) `{!Irreflexive R, !Transitive R, !AntiSymm (=) R} (l k : list A) :
  StronglySorted R l -> StronglySorted R k -> (forall a, a ∈ l <-> a ∈ k) -> l = k.
Proof.
  intros Hl Hk Heq. apply (StronglySorted_unique R); [done|done|].
  apply NoDup_Permutation; [by eapply strictly_sorted_nodup..|done].
Qed.

Lemma pool_sorted_strong pool : pool_sorted pool = true -> StronglySorted key_lt (key_of <$> pool).
Proof.
  intros Hp. apply Sorted_StronglySorted; [apply _|]. induction pool as [|a pool IH]; [constructor|].
  cbn. destruct pool as [|b pool]; [by repeat constructor|]. cbn [pool_sorted] in Hp.
  destruct (compare_components a b) eqn:Hc; try done. constructor; [by apply IH|]. by constructor.
Qed.
Lemma pool_nodup pool : pool_sorted pool = true -> NoDup pool.
Proof. intros Hp. eapply NoDup_fmap_1. by apply (strictly_sorted_nodup key_lt), pool_sorted_strong. Qed.
Lemma pool_ext l k : pool_sorted l = true -> pool_sorted k = true -> (forall c, c ∈ l <-> c ∈ k) -> l = k.
Proof.
  intros Hl Hk Heq. apply (inj (fmap key_of)). apply (sorted_ext key_lt); [by apply pool_sorted_strong..|].
  intros a. rewrite !list_elem_of_fmap. split; intros (c & -> & Hc); exists c; (split; [done|by apply Heq]).
Qed.

Lemma cons_eq {A} (a b : A) l k : a :: l = b :: k -> a = b /\ l = k.
Proof. by intros [= -> ->]. Qed.
Lemma elem_of_concat {A} (x : A) (ls : list (list A)) : x ∈ concat ls <-> exists l, x ∈ l /\ l ∈ ls.
Proof. rewrite !list_elem_of_In, in_concat. setoid_rewrite list_elem_of_In. naive_solver. Qed.

Section Assembly.
Context {H : Keccak} {E : TeeCrypto}.

(** * Canonical payloads *)

Lemma resolve_inv pool indices : forall expected cs, resolve_components pool expected indices = inr cs ->
  Forall2 (fun i c => pool !! Z.to_nat i = Some c) indices cs.
Proof.
  induction indices as [|i indices IH]; intros expected cs Hr; cbn in Hr; [simplify_eq; constructor|].
  tcanon. constructor; [by eapply eok_or_inr|by eapply IH].
Qed.
Definition evidence_components (ev : AttestationEvidenceV1) : list DcapCollateralComponentV1 :=
  match ev with Dcap e => components e | GramineDirectEvidence _ => [] end.
Lemma rebuild_refs pool p ev : rebuild_evidence pool p = inr ev ->
  Forall2 (fun i c => pool !! i = Some c) (references p) (evidence_components ev).
Proof.
  unfold rebuild_evidence, references. intros Hr. destruct (pt_evidence p) as [q indices|public signature]; tcanon; cbn; [|constructor].
  match goal with Hx : resolve_components _ _ _ = _ |- _ => apply resolve_inv in Hx end. by apply Forall2_fmap_l.
Qed.

(** The content of a participant, with its evidence in full. *)
Definition participant_content (pool : list DcapCollateralComponentV1) (p : TeeBootstrapParticipantV2) :
    codec AttestationEvidenceV1 * ValidatorNodeBindingV1 * list (list Z) :=
  (participant_evidence pool p, validator_binding p,
   [validator_signature p; node_binding_signature p; node_signature p; enclave_signature p]).

Lemma participant_evidence_rebuild pool p ev : participant_evidence pool p = inr ev -> rebuild_evidence pool p = inr ev.
Proof. unfold participant_evidence. intros He. by tcanon. Qed.
Lemma valid_evidence t p : bootstrap_valid t -> p ∈ participants t ->
  exists ev, participant_evidence (collateral_pool t) p = inr ev /\ rebuild_evidence (collateral_pool t) p = inr ev.
Proof.
  intros Hv Hp. destruct (bv_participants t Hv) as (hash & _ & Hps). rewrite Forall_forall in Hps.
  destruct (vp_logical _ _ _ _ (Hps p Hp)) as (ev & _ & He & _). exists ev. split; [done|]. by apply participant_evidence_rebuild.
Qed.

(** The pool is exactly the components of the participants' evidence. *)
Lemma pool_elements t c : bootstrap_valid t ->
  c ∈ collateral_pool t <-> exists ev, inr ev ∈ (participant_evidence (collateral_pool t) <$> participants t)
    /\ c ∈ evidence_components ev.
Proof.
  intros Hv. split.
  - intros (i & Hi)%list_elem_of_lookup. pose proof (lookup_lt_Some _ _ _ Hi) as Hlt.
    apply (bv_used t Hv) in Hlt. apply elem_of_concat in Hlt as (refs & Hin & Hrefs). apply list_elem_of_fmap in Hrefs as (p & -> & Hp).
    destruct (valid_evidence t p Hv Hp) as (ev & He & Hr). exists ev. split; [rewrite <- He; by apply list_elem_of_fmap_2|].
    apply rebuild_refs in Hr. apply list_elem_of_lookup in Hin as (k & Hk).
    destruct (Forall2_lookup_l _ _ _ _ _ Hr Hk) as (c' & Hc' & Heq). simplify_eq. by eapply list_elem_of_lookup_2.
  - intros (ev & (p & He & Hp)%list_elem_of_fmap & Hc). symmetry in He. apply participant_evidence_rebuild, rebuild_refs in He.
    apply list_elem_of_lookup in Hc as (k & Hk). destruct (Forall2_lookup_r _ _ _ _ _ He Hk) as (i & _ & Hi).
    by eapply list_elem_of_lookup_2.
Qed.

Lemma indices_unique (pool : list DcapCollateralComponentV1) (l k : list Z) cs : NoDup pool -> Forall (fits 2) l -> Forall (fits 2) k ->
  Forall2 (fun i c => pool !! Z.to_nat i = Some c) l cs -> Forall2 (fun i c => pool !! Z.to_nat i = Some c) k cs -> l = k.
Proof.
  intros Hnd Hl Hk H1. revert k Hk. induction H1 as [|i c l cs Hi H1 IH]; intros k Hk H2; inversion H2 as [|j ? k' ? Hj H2']; subst; [done|].
  apply Forall_cons in Hl as [Hfi Hl]. apply Forall_cons in Hk as [Hfj Hk]. f_equal; [|by apply IH].
  pose proof (NoDup_lookup _ _ _ _ Hnd Hi Hj). unfold fits in *. lia.
Qed.
Lemma participant_determined pool p q : NoDup pool -> wf_participant p -> wf_participant q ->
  (exists ev, participant_evidence pool p = inr ev) ->
  participant_content pool p = participant_content pool q -> p = q.
Proof.
  intros Hnd (_ & _ & _ & _ & Hp & _) (_ & _ & _ & _ & Hq & _) [ev Hev] Heq. unfold participant_content in Heq.
  injection Heq as He Hb ? ? ? ?. rewrite Hev in He. symmetry in He.
  apply participant_evidence_rebuild in Hev, He. unfold rebuild_evidence in *.
  destruct p as [pi pb pv pn pe ps px], q as [qi qb qv qn qe qs qx]; cbn in *. subst.
  destruct pe as [q1 i1|a1 s1], qe as [q2 i2|a2 s2]; tcanon; try done.
  repeat match goal with Hx : resolve_components _ _ _ = _ |- _ => apply resolve_inv in Hx end.
  cbn in *. destruct Hp as (_ & _ & Hp), Hq as (_ & _ & Hq). by rewrite (indices_unique pool i1 i2 _ Hnd Hp Hq ltac:(done) ltac:(done)).
Qed.

Lemma contents_determined pool l : forall k, NoDup pool -> Forall wf_participant l -> Forall wf_participant k ->
  Forall (fun p => exists ev, participant_evidence pool p = inr ev) l ->
  participant_content pool <$> l = participant_content pool <$> k -> l = k.
Proof.
  induction l as [|p l IH]; intros [|q k] Hnd Hl Hk He Heq; try done. cbn [fmap list_fmap] in Heq.
  apply cons_eq in Heq as [Hc Hrest].
  apply Forall_cons in Hl as [Hp Hl], Hk as [Hq Hk], He as [Hev He].
  rewrite (participant_determined pool p q) by done. f_equal. by apply IH.
Qed.
Lemma payload_determined t t' : wf_bootstrap t -> wf_bootstrap t' -> bootstrap_valid t -> bootstrap_valid t' ->
  authority t = authority t' -> committee_signatures t = committee_signatures t' ->
  participant_content (collateral_pool t) <$> participants t
  = participant_content (collateral_pool t') <$> participants t' -> t = t'.
Proof.
  intros Hwf Hwf' Hv Hv' Ha Hs Hc.
  assert (Hpool : collateral_pool t = collateral_pool t').
  { apply pool_ext; [apply Hv|apply Hv'|]. intros c. rewrite (pool_elements t c Hv), (pool_elements t' c Hv').
    assert (He : participant_evidence (collateral_pool t) <$> participants t
      = participant_evidence (collateral_pool t') <$> participants t').
    { apply (f_equal (fmap (fun x => x.1.1))) in Hc. by rewrite <- !list_fmap_compose in Hc. }
    by rewrite He. }
  assert (Hps : participants t = participants t').
  { rewrite <- Hpool in Hc. apply (contents_determined (collateral_pool t)); [|apply Hwf|apply Hwf'| |done].
    - by apply pool_nodup, Hv.
    - apply Forall_forall. intros p Hp. destruct (valid_evidence t p Hv Hp) as (ev & He & _). by exists ev. }
  destruct t, t'; cbn in *; congruence.
Qed.

(** * The signing hash *)

Lemma validate_participants_signers mode hash pool rest : forall rest' used prev,
  rest.*1 = rest'.*1 -> cs_validator <$> rest.*2 = cs_validator <$> rest'.*2 ->
  validate_participants mode hash pool used prev rest = validate_participants mode hash pool used prev rest'.
Proof.
  induction rest as [|[p s] rest IH]; intros [|[p' s'] rest'] used prev H1 H2; try done.
  cbn in H1, H2. simplify_eq. cbn [validate_participants].
  match goal with Hs : cs_validator s = cs_validator s' |- _ => rewrite Hs end.
  do 5 (match goal with |- ebind ?r _ = ebind ?r _ => destruct r; [done|cbn [ebind]] end).
  do 3 (match goal with |- ebind ?r _ = ebind ?r _ => destruct r; [done|cbn [ebind]] end). by apply IH.
Qed.
Lemma validate_signers t sigs : cs_validator <$> sigs = cs_validator <$> committee_signatures t ->
  validate_bootstrap (with_signatures t sigs) = validate_bootstrap t.
Proof.
  intros Hs. assert (Hl : length sigs = length (committee_signatures t)).
  { apply (f_equal length) in Hs. by rewrite !length_fmap in Hs. }
  unfold validate_bootstrap, validate_pool_mode, canonical_encoded_len, encoded_body_len, bs_mode.
  cbn [with_signatures authority collateral_pool participants committee_signatures]. rewrite Hl.
  do 5 (match goal with |- ebind ?r _ = ebind ?r _ => destruct r; [done|cbn [ebind]] end).
  match goal with |- ebind (erequire ?b _) _ = _ => destruct b eqn:Hb; [|done]; apply Nat.eqb_eq in Hb end.
  cbn [erequire ebind].
  do 5 (match goal with |- ebind ?r _ = ebind ?r _ => destruct r; [done|cbn [ebind]] end).
  erewrite validate_participants_signers; [done| |].
  - rewrite !fst_zip by lia. done.
  - rewrite !snd_zip by lia. done.
Qed.
Lemma encode_body_signers t sigs : encode_body (with_signatures t sigs) = encode_body t.
Proof. done. Qed.

Lemma body_determines t t' : wf_bootstrap t -> wf_bootstrap t' -> validate_bootstrap t = inr tt ->
  validate_bootstrap t' = inr tt -> body_wire t = body_wire t' ->
  authority t = authority t' /\ collateral_pool t = collateral_pool t' /\ participants t = participants t'.
Proof.
  intros Hwf Hwf' Hv Hv' Hb. pose proof (bootstrap_validate_inv t Hv) as Hvalid.
  destruct (bootstrap_encode_ok t' Hwf' Hv') as (_ & _ & _ & Hcap).
  pose proof (bootstrap_validate_inv t' Hv') as Hvalid'. pose proof (bootstrap_read t' Hwf' Hv') as Hr'.
  assert (Hw : bootstrap_wire t' = bootstrap_wire (with_signatures t (committee_signatures t'))).
  { unfold bootstrap_wire. rewrite <- Hb. done. }
  rewrite Hw in Hr', Hcap. rewrite bootstrap_read_body in Hr'; try done; [|apply Hwf'|].
  - apply ebind_inr in Hr' as ([] & _ & [= <-]). done.
  - rewrite (bv_signature_count t' Hvalid'). apply (bv_count t' Hvalid').
Qed.

(** * Deduplication *)

(** The temporary indices number the entries, which are in key order. *)
Record map_ok (m : component_map) : Prop := {
  mo_sorted : StronglySorted key_lt m.*1;
  mo_indices : m.*2 ≡ₚ Z.of_nat <$> seq 0 (length m) }.

Lemma entry_cases key next m v m' : entry_or_insert key next m = (v, m') ->
  (m' = m /\ (key, v) ∈ m) \/ (v = next /\ m' ≡ₚ (key, next) :: m).
Proof.
  revert v m'. induction m as [|[k w] m IH]; intros v m' Hm; cbn in Hm; [simplify_eq; by right|].
  destruct (key_compare key k) eqn:Hk.
  - apply key_compare_eq in Hk as ->. simplify_eq. left. split; [done|constructor].
  - simplify_eq. by right.
  - destruct (entry_or_insert key next m) as [r rest] eqn:Hr. simplify_eq.
    destruct (IH _ _ eq_refl) as [[-> Hin]|[-> Hp]]; [left; split; [done|by constructor]|right; split; [done|]].
    rewrite Hp. by rewrite perm_swap.
Qed.
Lemma entry_sorted key next m : StronglySorted key_lt m.*1 ->
  StronglySorted key_lt (entry_or_insert key next m).2.*1.
Proof.
  induction m as [|[k w] m IH]; intros Hs; cbn; [by repeat constructor|].
  cbn in Hs. apply StronglySorted_inv in Hs as [Hs Hk]. destruct (key_compare key k) eqn:Hc; cbn.
  - by constructor.
  - constructor; [by constructor|]. constructor; [done|]. eapply Forall_impl; [exact Hk|]. intros a Ha. by transitivity k.
  - destruct (entry_or_insert key next m) as [r rest] eqn:Hr. cbn in *. constructor; [by apply IH|].
    assert (Hlt : key_lt k key) by (unfold key_lt; by rewrite key_compare_opp, Hc).
    destruct (entry_cases _ _ _ _ _ Hr) as [[-> _]|[_ Hp]]; [done|].
    rewrite Hp. by constructor.
Qed.
Lemma entry_ok key m v m' : map_ok m -> entry_or_insert key (Z.of_nat (length m)) m = (v, m') ->
  map_ok m' /\ (key, v) ∈ m' /\ m ⊆ m'.
Proof.
  intros [Hs Hi] He. pose proof (entry_sorted key (Z.of_nat (length m)) m Hs) as Hs'. rewrite He in Hs'. cbn in Hs'.
  destruct (entry_cases _ _ _ _ _ He) as [[-> Hin]|[-> Hp]]; [done|]. split_and!.
  - constructor; [done|]. rewrite Hp. cbn [length fmap list_fmap snd]. rewrite seq_S, fmap_app, Hi. cbn.
    by rewrite Permutation_app_comm.
  - rewrite Hp. constructor.
  - rewrite Hp. set_solver.
Qed.

Fixpoint kinds_from (expected : Z) (cs : list DcapCollateralComponentV1) : Prop :=
  match cs with [] => True | c :: cs => collateral_kind_id (kind c) = expected /\ kinds_from (expected + 1) cs end.
Definition indexed (m : component_map) (i : Z) (c : DcapCollateralComponentV1) : Prop := (key_of c, i) ∈ m.

Lemma index_components_ok cs : forall expected m indices m', map_ok m ->
  index_components expected m cs = inr (indices, m') ->
  map_ok m' /\ m ⊆ m' /\ Forall2 (indexed m') indices cs /\ kinds_from expected cs.
Proof.
  induction cs as [|c cs IH]; intros expected m indices m' Hok Hi; cbn [index_components] in Hi; [simplify_eq; done|].
  unfold to_u16 in Hi. tcanon.
  destruct (entry_or_insert (key_of c) (Z.of_nat (length m)) m) as [v m1] eqn:He. tcanon.
  destruct (entry_ok _ _ _ _ Hok He) as (Hok1 & Hin & Hsub).
  match goal with Hx : index_components _ _ _ = _ |- _ => apply IH in Hx as (Hok' & Hsub' & Hall & Hk); [|done] end.
  split_and!; [done|set_solver|constructor; [by apply Hsub'|done]|done].
Qed.

(** A participant against its submission, its components indexed by [m]. *)
Definition assembled (m : component_map) (s : TeeBootstrapParticipantSubmissionV2) (p : TeeBootstrapParticipantV2) : Prop :=
  validator_binding p = sb_validator_binding s /\ validator_signature p = sb_validator_signature s
  /\ node_binding_signature p = sb_node_binding_signature s /\ node_signature p = sb_node_signature s
  /\ enclave_signature p = sb_enclave_signature s
  /\ match sb_evidence s with
     | Dcap e => pt_intent p = dc_intent e /\ kinds_from 1 (components e)
         /\ exists indices, pt_evidence p = ParticipantDcap (quote e) indices
              /\ Forall2 (indexed m) indices (components e)
     | GramineDirectEvidence e => pt_intent p = ge_intent e
         /\ pt_evidence p = ParticipantGramine (dev_attestation_public e) (dev_signature e)
     end.
Lemma assembled_mono m m' s p : m ⊆ m' -> assembled m s p -> assembled m' s p.
Proof.
  intros Hsub (? & ? & ? & ? & ? & He). unfold assembled. split_and!; try done.
  destruct (sb_evidence s); [|done]. destruct He as (? & ? & indices & ? & Hall). split_and!; try done.
  exists indices. split; [done|]. eapply Forall2_impl; [exact Hall|]. intros i c Hi. by apply Hsub.
Qed.
Lemma assemble_participant_ok m s p m' : map_ok m -> assemble_participant m s = inr (p, m') ->
  map_ok m' /\ m ⊆ m' /\ assembled m' s p.
Proof.
  intros Hok Ha. unfold assemble_participant, assembled in *.
  destruct (sb_evidence s) as [e|e]; tcanon; cbn [ebind] in *; simplify_eq; cbn.
  - match goal with Hx : index_components _ _ _ = _ |- _ => apply index_components_ok in Hx as (? & ? & ? & ?); [|done] end.
    split_and!; eauto.
  - done.
Qed.
Lemma assemble_participants_ok ordered : forall m ps m', map_ok m -> assemble_participants m ordered = inr (ps, m') ->
  map_ok m' /\ m ⊆ m' /\ Forall2 (assembled m') ordered ps.
Proof.
  induction ordered as [|s ordered IH]; intros m ps m' Hok Ha; cbn [assemble_participants] in Ha; [simplify_eq; done|]. tcanon.
  match goal with Hx : assemble_participant _ _ = _ |- _ => apply assemble_participant_ok in Hx as (Hok1 & Hs1 & Hp); [|done] end.
  match goal with Hx : assemble_participants _ _ = _ |- _ => apply IH in Hx as (Hok2 & Hs2 & Hps); [|done] end.
  split_and!; [done|set_solver|]. constructor; [by eapply assembled_mono|done].
Qed.

(** The pool lists the components in key order, and every temporary index is
    mapped to the position of its component; every write is in range. *)
Lemma canonical_pool_ok m : forall first by_t pool by_t',
  canonical_pool first by_t m = inr (pool, by_t') ->
  NoDup m.*2 -> Forall (fun i => 0 <= i < Z.of_nat (length by_t)) m.*2 ->
  key_of <$> pool = m.*1 /\ length by_t' = length by_t
  /\ (forall i kv, m !! i = Some kv -> by_t' !! Z.to_nat kv.2 = Some (Z.of_nat (first + i)))
  /\ (forall j, (forall i, i ∈ m.*2 -> Z.to_nat i <> j) -> by_t' !! j = by_t !! j).
Proof.
  induction m as [|[[k b] temp] m IH]; intros first by_t pool by_t' Hc Hnd Hr; cbn [canonical_pool] in Hc;
    [simplify_eq; split_and!; done|].
  cbn in Hnd, Hr. apply NoDup_cons in Hnd as [Hnin Hnd]. apply Forall_cons in Hr as [Ht Hr].
  unfold to_u16 in Hc. tcanon.
  match goal with Hx : canonical_pool _ _ _ = _ |- _ => apply IH in Hx as (Hkeys & Hlen & Hpos & Hrest); [|done|] end.
  2: { by rewrite length_insert. }
  assert (Hout : forall i, i ∈ m.*2 -> Z.to_nat i <> Z.to_nat temp).
  { intros i Hi Heq. rewrite Forall_forall in Hr. specialize (Hr i Hi).
    assert (i = temp) as -> by lia. done. }
  split_and!.
  - cbn. rewrite Hkeys. done.
  - by rewrite Hlen, length_insert.
  - intros [|i] kv Hi; cbn in Hi.
    + simplify_eq. cbn. rewrite Hrest by done. rewrite list_lookup_insert_eq by lia. f_equal. lia.
    + rewrite (Hpos i kv Hi). f_equal. lia.
  - intros j Hj. rewrite Hrest by (intros i Hi; apply Hj; by constructor).
    apply list_lookup_insert_ne. apply Hj. constructor.
Qed.

Lemma map_ok_indices m : map_ok m -> NoDup m.*2 /\ Forall (fun i => 0 <= i < Z.of_nat (length m)) m.*2.
Proof.
  intros [_ Hi]. rewrite Hi. split.
  - apply NoDup_fmap_2; [apply _|apply NoDup_seq].
  - apply Forall_fmap, Forall_forall. intros i Hin. apply elem_of_seq in Hin. cbn. lia.
Qed.
(** The evidence of a submission without the key-ready proof, which a
    registration does not carry. *)
Definition registration_evidence (ev : AttestationEvidenceV1) : AttestationEvidenceV1 :=
  match ev with
  | Dcap e => Dcap (mkDcap (dc_intent e) (quote e) (components e) None)
  | GramineDirectEvidence e => GramineDirectEvidence e
  end.
Definition carries (pool : list DcapCollateralComponentV1) (s : TeeBootstrapParticipantSubmissionV2)
    (p : TeeBootstrapParticipantV2) : Prop :=
  validator_binding p = sb_validator_binding s /\ validator_signature p = sb_validator_signature s
  /\ node_binding_signature p = sb_node_binding_signature s /\ node_signature p = sb_node_signature s
  /\ enclave_signature p = sb_enclave_signature s
  /\ rebuild_evidence pool p = inr (registration_evidence (sb_evidence s)).

Lemma resolve_ok pool cs : forall expected indices, kinds_from expected cs ->
  Forall2 (fun i c => pool !! Z.to_nat i = Some c) indices cs -> resolve_components pool expected indices = inr cs.
Proof.
  induction cs as [|c cs IH]; intros expected indices Hk Hall; inversion Hall as [|i ? ids ? Hi Hr]; subst; [done|].
  destruct Hk as [Hk Hks]. cbn. rewrite Hi. cbn [eok_or ebind]. rewrite Hk, Z.eqb_refl. cbn [erequire ebind].
  by rewrite (IH (expected + 1) ids).
Qed.
Lemma remap_ok m pool by_t s p p' : map_ok m -> canonical_pool 0 (replicate (length m) 0) m = inr (pool, by_t) ->
  assembled m s p -> remap_participant by_t p = inr p' -> carries pool s p'.
Proof.
  intros Hok Hc Ha Hr. destruct (map_ok_indices m Hok) as [Hnd Hrange].
  apply canonical_pool_ok in Hc as (Hkeys & _ & Hpos & _); [|done|by rewrite length_replicate].
  assert (Hone : forall i c j, indexed m i c -> remap_index by_t i = inr j -> pool !! Z.to_nat j = Some c).
  { intros i c j Hin Hj. apply list_elem_of_lookup in Hin as (n & Hn). pose proof (Hpos n _ Hn) as Hb. cbn in Hb.
    unfold remap_index in Hj. rewrite Hb in Hj. cbn in Hj. simplify_eq. rewrite Nat2Z.id.
    assert (Hk : (key_of <$> pool) !! n = Some (key_of c)) by (rewrite Hkeys, list_lookup_fmap, Hn; done).
    rewrite list_lookup_fmap in Hk. destruct (pool !! n) as [c'|]; [|done]. cbn in Hk.
    injection Hk as Hk1 Hk2. f_equal. apply (inj key_of). unfold key_of. congruence. }
  destruct Ha as (? & ? & ? & ? & ? & He). unfold remap_participant, carries in *.
  destruct (sb_evidence s) as [e|e].
  - destruct He as (Hint & Hk & indices & Hev & Hall). rewrite Hev in Hr. tcanon. cbn. split_and!; try done.
    unfold rebuild_evidence. cbn [pt_evidence pt_intent].
    rewrite (resolve_ok pool (components e)); [by rewrite Hint|done|].
    match goal with Hx : emap _ _ = inr ?js |- _ => apply emap_inr in Hx; rename Hx into Hmap, js into js0 end.
    clear -Hone Hall Hmap. revert js0 Hmap. induction Hall as [|i c ids cs Hi Hall IH]; intros js Hmap;
      inversion Hmap as [|? j ? js' Hj Hmap']; subst; constructor; eauto.
  - destruct He as [Hint Hev]. rewrite Hev in Hr. simplify_eq. split_and!; try done.
    unfold rebuild_evidence. rewrite Hev, Hint. by destruct e.
Qed.

(** Assembly keeps every submission, in the order of the validators. *)
Lemma assemble_carries a subs t : assemble_unsigned a subs = inr t ->
  preflight t = inr tt /\ authority t = a
  /\ Forall2 (carries (collateral_pool t)) (merge_sort submission_le subs) (participants t)
  /\ committee_signatures t = (fun p => mkCommitteeSignature (pt_validator p) (replicate 65 0)) <$> participants t.
Proof.
  intros Ha. unfold assemble_unsigned in Ha. tcanon. cbn. split_and!; try done.
  match goal with Hx : assemble_participants _ _ = _ |- _ => apply assemble_participants_ok in Hx as (Hok & _ & Hps) end.
  2: { constructor; [constructor|done]. }
  match goal with Hx : emap _ (remap_participant _) = _ |- _ => apply emap_inr in Hx; rename Hx into Hmap end.
  revert Hmap Hps. generalize (merge_sort submission_le subs). intros ordered Hmap Hps.
  match goal with Hx : emap _ _ = _ |- _ => clear Hx end.
  match goal with Hx : preflight _ = _ |- _ => clear Hx end.
  revert ordered Hps. induction Hmap as [|pt pt' ps ps' Hpt Hmap IH]; intros ordered Hps; inversion Hps; subst; constructor; eauto.
  by eapply remap_ok.
Qed.

(** * Order of the submissions *)

#[global] Instance submission_le_total : Total submission_le.
Proof. intros a b. unfold submission_le. lia. Qed.
#[global] Instance submission_le_trans : Transitive submission_le.
Proof. intros a b c. unfold submission_le. lia. Qed.

Lemma preflight_valid t : preflight t = inr tt -> validate_bootstrap t = inr tt.
Proof. intros ([] & Hv & _)%ebind_inr. done. Qed.
Lemma validators_sorted ps : forall prev, validators_from prev ps ->
  StronglySorted Z.lt (pt_validator <$> ps)
  /\ match prev with Some v => Forall (Z.lt v) (pt_validator <$> ps) | None => True end.
Proof.
  induction ps as [|p ps IH]; intros prev Hv; [by destruct prev; repeat constructor|]. destruct Hv as [Hp Hv].
  destruct (IH (Some (pt_validator p)) Hv) as [Hs Hf]. split; [by constructor|].
  destruct prev as [v|]; [|done]. constructor; [done|]. eapply Forall_impl; [exact Hf|]. cbn. intros; lia.
Qed.
Lemma carried_validators pool ordered ps : Forall2 (carries pool) ordered ps ->
  sb_validator <$> ordered = pt_validator <$> ps.
Proof.
  induction 1 as [|s p ordered ps (Hb & _) Hps IH]; [done|].
  cbn [fmap list_fmap]. rewrite IH. f_equal. unfold sb_validator, pt_validator. by rewrite Hb.
Qed.
Lemma distinct_validators (l : list TeeBootstrapParticipantSubmissionV2) s s' : NoDup (sb_validator <$> l) ->
  s ∈ l -> s' ∈ l -> sb_validator s = sb_validator s' -> s = s'.
Proof.
  intros Hnd (i & Hi)%list_elem_of_lookup (j & Hj)%list_elem_of_lookup Heq.
  assert (i = j) as -> by (eapply (NoDup_lookup _ i j (sb_validator s) Hnd); rewrite list_lookup_fmap; [by rewrite Hi|by rewrite Hj, Heq]).
  congruence.
Qed.

Lemma assemble_order a subs subs' t : subs ≡ₚ subs' -> assemble_unsigned a subs = inr t ->
  assemble_unsigned a subs' = inr t.
Proof.
  intros Hp Ha. destruct (assemble_carries a subs t Ha) as (Hpre & _ & Hc & _).
  pose proof (bootstrap_validate_inv t (preflight_valid t Hpre)) as Hv.
  assert (Hnd : NoDup (sb_validator <$> merge_sort submission_le subs)).
  { rewrite (carried_validators _ _ _ Hc). apply (strictly_sorted_nodup Z.lt).
    by apply (validators_sorted _ None), Hv. }
  assert (Hsort : merge_sort submission_le subs = merge_sort submission_le subs').
  { apply (StronglySorted_unique_strong submission_le); [|by apply StronglySorted_merge_sort; apply _..|].
    - intros x y Hx Hy Hxy Hyx. rewrite merge_sort_Permutation, <- Hp, <- (merge_sort_Permutation submission_le subs) in Hy.
      apply (distinct_validators _ x y Hnd Hx Hy). unfold submission_le in *. lia.
    - by rewrite !merge_sort_Permutation. }
  unfold assemble_unsigned in *. rewrite <- Hsort, <- (Permutation_length Hp).
  do 2 (apply ebind_inr in Ha as ([] & -> & Ha); cbn [ebind]).
  apply ebind_inr in Ha as (us & Hmode & Ha).
  assert (Hmode' : exists us', emap subs' (fun s => erequire (bool_decide (evidence_mode (sb_evidence s) = tp_mode (bs_policy a)))
      (NonCanonical "TEE bootstrap submission mode does not match policy")) = inr us').
  { exists (replicate (length subs') tt). apply emap_inr. apply emap_inr in Hmode.
    assert (Hall : Forall (fun s => erequire (bool_decide (evidence_mode (sb_evidence s) = tp_mode (bs_policy a)))
      (NonCanonical "TEE bootstrap submission mode does not match policy") = inr tt) subs').
    { rewrite <- Hp. clear -Hmode. induction Hmode as [|s [] subs us Hs]; by constructor. }
    clear -Hall. induction Hall; cbn; by constructor. }
  destruct Hmode' as [us' ->]. done.
Qed.

(** Each participant's logical evidence is its submission's. *)
Lemma carried_evidence t i s : bootstrap_valid t ->
  Forall2 (carries (collateral_pool t)) s (participants t) -> forall x, s !! i = Some x ->
  logical_evidence t i = inr (registration_evidence (sb_evidence x)).
Proof.
  intros Hv Hc x Hx. destruct (Forall2_lookup_l _ _ _ _ _ Hc Hx) as (p & Hp & _ & _ & _ & _ & _ & Hr).
  destruct (valid_evidence t p Hv) as (ev & He & Hr'); [by eapply list_elem_of_lookup_2|].
  unfold logical_evidence. rewrite Hp. cbn [eok_or ebind]. congruence.
Qed.
(** The pool is the components of the submissions. *)
Lemma carried_pool t s c : bootstrap_valid t -> Forall2 (carries (collateral_pool t)) s (participants t) ->
  c ∈ collateral_pool t <-> exists x, x ∈ s /\ c ∈ evidence_components (sb_evidence x).
Proof.
  intros Hv Hc. rewrite (pool_elements t c Hv).
  assert (Hev : participant_evidence (collateral_pool t) <$> participants t
    = (fun x => inr (registration_evidence (sb_evidence x))) <$> s).
  { assert (Hin : Forall (fun p => p ∈ participants t) (participants t)) by by apply Forall_forall.
    revert Hc Hin. generalize (participants t) at 1 3 4. induction 1 as [|x p s ps (_ & _ & _ & _ & _ & Hr) Hc IH]; [done|].
    intros [Hp Hin]%Forall_cons. cbn [fmap list_fmap]. rewrite IH by done. f_equal.
    destruct (valid_evidence t p Hv Hp) as (ev & He & Hr'). congruence. }
  rewrite Hev. split.
  - intros (ev & (x & Heq & Hx)%list_elem_of_fmap & Hin). simplify_eq. exists x. split; [done|].
    by destruct (sb_evidence x) as [[]|].
  - intros (x & Hx & Hin). exists (registration_evidence (sb_evidence x)). split.
    + apply (list_elem_of_fmap_2 (fun x => inr (registration_evidence (sb_evidence x))) s x Hx).
    + by destruct (sb_evidence x) as [[]|].
Qed.
End Assembly.
