(* ===== verification/TeeHashes.v ===== *)
(** The hashes of the TEE protocol commit to what they hash: every hashed message
    of the protocol with the domain and body of its preimage, and that two
    messages with one hash are the same message or a collision of keccak. *)

From stdpp Require Import sorting.
From S2P Require Import Prelude Bytes Wire WireProps TeeAttestation TeeAttestationProps TeePolicyProps TeeBootstrap TeeBootstrapProps TeeAssemblyProps.

Local Opaque be_bytes.

(** * Splitting preimages *)

Lemma be_split n a b x y : fits n a -> fits n b -> be_bytes n a ++ x = be_bytes n b ++ y -> a = b /\ x = y.
Proof.
  intros Ha Hb Heq. pose proof (d_word_app n a x Ha) as Hr. rewrite Heq, d_word_app in Hr by done. by simplify_eq.
Qed.
Lemma be_inj n a b : fits n a -> fits n b -> be_bytes n a = be_bytes n b -> a = b.
Proof.
  intros Ha Hb Heq. apply (be_split n a b [] []); [done..|]. by rewrite Heq.
Qed.
Lemma exact_inj {A} enc dec (wf : A -> Prop) m m' bytes : exact_codec enc dec wf -> wf m -> wf m' ->
  enc m = inr bytes -> enc m' = inr bytes -> m = m'.
Proof. intros [Hr _] Hm Hm' [He _]%Hr [He' _]%Hr; [|done..]. rewrite He in He'. by simplify_eq. Qed.

(** Two byte strings that differ at some position of both. *)
Fixpoint diverge (a b : list Z) : bool :=
  match a, b with
  | x :: a', y :: b' => negb (x =? y) || diverge a' b'
  | _, _ => false
  end.
Lemma diverge_app a : forall b x y, diverge a b = true -> a ++ x <> b ++ y.
Proof.
  induction a as [|u a IH]; intros [|v b] x y Hd Heq; cbn in Hd; try done. cbn in Heq. injection Heq as -> Heq.
  rewrite Z.eqb_refl in Hd. by apply (IH b x y Hd).
Qed.

(** * The hashed messages *)

Section Hashes.
Context {H : Keccak} {E : TeeCrypto}.

Inductive tee_message : Type :=
  | MNetwork (b : NetworkBindingV1)
  | MDescriptor (d : TrustedNetworkDescriptorV1)
  | MDkgSet (participant_bls : list (list Z))
  | MCeremony (b : NetworkBindingV1) (round : Z) (set_hash : B256)
  | MAnnounce (b : NetworkBindingV1) (ceremony : B256) (round : Z) (set_hash dkg_enc_pub : B256)
  | MNodeId (n : NodeIdV1)
  | MBinding (b : ValidatorNodeBindingV1)
  | MWitness (w : NodeHostAuthorizationWitnessV1)
  | MManifest (m : EnclaveInitializationManifestV1)
  | MEnclaveId (recipient attestation responder : B256)
  | MIntent (i : RegistrationIntentV1)
  | MReportPolicy (i : RegistrationIntentV1)
  | MReadyProof (p : TransitionKeyReadyProofV1)
  | MEvidence (e : AttestationEvidenceV1)
  | MPolicy (p : TeePolicyV1)
  | MSchedule (s : TeePolicyScheduleV1)
  | MSystemGas (s : SystemGasScheduleV1)
  | MRegistryGas (s : TeeRegistryGasScheduleV1)
  | MResources (r : ResourceScheduleV1)
  | MBootstrap (t : TeeBootstrapV2).

(** The hash of the code. *)
Definition message_hash (m : tee_message) : codec B256 :=
  match m with
  | MNetwork b => NetworkBindingV1_hash b
  | MDescriptor d => TrustedNetworkDescriptorV1_hash d
  | MDkgSet l => dkg_participant_set_hash_v1 l
  | MCeremony b round set_hash => dkg_ceremony_id_v1 b round set_hash
  | MAnnounce b ceremony round set_hash pub => dkg_participant_announce_hash_v1 b ceremony round set_hash pub
  | MNodeId n => node_id_hash n
  | MBinding b => ValidatorNodeBindingV1_hash b
  | MWitness w => NodeHostAuthorizationWitnessV1_hash w
  | MManifest m => manifest_authorization_hash m
  | MEnclaveId r a n => inr (enclave_id_of_keys r a n)
  | MIntent i => intent_hash i
  | MReportPolicy i => inr (report_policy_hash i)
  | MReadyProof p => key_ready_signing_hash p
  | MEvidence e => evidence_hash e
  | MPolicy p => policy_hash p
  | MSchedule s => policy_schedule_hash s
  | MSystemGas s => system_gas_schedule_hash_of s
  | MRegistryGas s => registry_gas_schedule_hash_of s
  | MResources r => resource_schedule_hash_of r
  | MBootstrap t => bootstrap_signing_hash t
  end.

Definition message_domains : list (list Z) :=
  [NETWORK_BINDING_DOMAIN_V1; TRUSTED_NETWORK_DESCRIPTOR_DOMAIN_V1; DKG_PARTICIPANT_SET_DOMAIN_V1;
   DKG_CEREMONY_DOMAIN_V1; DKG_PARTICIPANT_ANNOUNCE_DOMAIN_V1; NODE_ID_DOMAIN_V1;
   VALIDATOR_NODE_BINDING_DOMAIN_V1; NODE_HOST_AUTHORIZATION_DOMAIN_V1; INITIALIZATION_MANIFEST_DOMAIN_V1;
   ENCLAVE_ID_DOMAIN_V1; REGISTRATION_INTENT_DOMAIN_V1; REPORT_POLICY_DOMAIN_V1;
   TRANSITION_KEY_READY_PROOF_DOMAIN_V1; ATTESTATION_EVIDENCE_DOMAIN_V1; POLICY_DOMAIN_V1;
   POLICY_SCHEDULE_DOMAIN_V1; SYSTEM_GAS_SCHEDULE_DOMAIN_V1; TEE_REGISTRY_GAS_SCHEDULE_DOMAIN_V1;
   RESOURCE_SCHEDULE_DOMAIN_V1; SIGNING_DOMAIN].
Definition message_kind (m : tee_message) : nat :=
  match m with
  | MNetwork _ => 0 | MDescriptor _ => 1 | MDkgSet _ => 2 | MCeremony _ _ _ => 3 | MAnnounce _ _ _ _ _ => 4
  | MNodeId _ => 5 | MBinding _ => 6 | MWitness _ => 7 | MManifest _ => 8 | MEnclaveId _ _ _ => 9
  | MIntent _ => 10 | MReportPolicy _ => 11 | MReadyProof _ => 12 | MEvidence _ => 13 | MPolicy _ => 14
  | MSchedule _ => 15 | MSystemGas _ => 16 | MRegistryGas _ => 17 | MResources _ => 18 | MBootstrap _ => 19
  end.
Definition domain_of (m : tee_message) : list Z := nth (message_kind m) message_domains [].

(** The bytes after the domain. *)
Definition dkg_set_body (l : list (list Z)) : codec (list Z) :=
  let+ _ := erequire (negb (bool_decide (l = []))) (NonCanonical "empty DKG participant set") in
  let ordered := merge_sort bytes_le l in
  let+ _ := erequire (negb (has_adjacent_equal ordered)) (NonCanonical "duplicate DKG participant identity") in
  let+ count := put_len_u32 (Z.of_nat (length ordered)) in
  let+ keys := emap ordered dkg_key_bytes in
  inr (count ++ concat keys).
Definition ceremony_body (b : NetworkBindingV1) (round : Z) (set_hash : B256) : codec (list Z) :=
  let+ _ := erequire (negb (set_hash =? 0)) (NonCanonical "zero DKG participant set hash") in
  let+ encoded := NetworkBindingV1_encode b in
  inr (encoded ++ be_bytes 8 round ++ be_bytes 32 set_hash).
Definition announce_body (b : NetworkBindingV1) (ceremony : B256) (round : Z) (set_hash pub : B256) :
    codec (list Z) :=
  let+ expected := dkg_ceremony_id_v1 b round set_hash in
  let+ _ := erequire (ceremony =? expected) (NonCanonical "non-canonical DKG ceremony id") in
  let+ encoded := NetworkBindingV1_encode b in
  inr (encoded ++ be_bytes 32 ceremony ++ be_bytes 8 round ++ be_bytes 32 set_hash ++ be_bytes 32 pub).
Definition bootstrap_body (t : TeeBootstrapV2) : codec (list Z) :=
  let+ _ := validate_bootstrap t in
  let+ body := encode_body t in
  let+ _ := checked_add_usize (zlen SIGNING_DOMAIN) (zlen body) in
  inr body.
Definition message_body (m : tee_message) : codec (list Z) :=
  match m with
  | MNetwork b => NetworkBindingV1_encode b
  | MDescriptor d => TrustedNetworkDescriptorV1_encode d
  | MDkgSet l => dkg_set_body l
  | MCeremony b round set_hash => ceremony_body b round set_hash
  | MAnnounce b ceremony round set_hash pub => announce_body b ceremony round set_hash pub
  | MNodeId n => NodeIdV1_encode n
  | MBinding b => ValidatorNodeBindingV1_encode b
  | MWitness w => NodeHostAuthorizationWitnessV1_encode w
  | MManifest m => EnclaveInitializationManifestV1_encode m
  | MEnclaveId r a n => inr (be_bytes 32 r ++ be_bytes 32 a ++ be_bytes 32 n)
  | MIntent i => RegistrationIntentV1_encode i
  | MReportPolicy i => inr (be_bytes 32 (ri_genesis_hash i) ++ be_bytes 32 (ri_policy_hash i)
                            ++ be_bytes 32 (node_host_authorization_hash i))
  | MReadyProof p => let+ _ := validate_shape p in inr (key_ready_signed_bytes p)
  | MEvidence e => AttestationEvidenceV1_encode e
  | MPolicy p => TeePolicyV1_encode p
  | MSchedule s => TeePolicyScheduleV1_encode s
  | MSystemGas s => SystemGasScheduleV1_encode s
  | MRegistryGas s => TeeRegistryGasScheduleV1_encode s
  | MResources r => ResourceScheduleV1_encode r
  | MBootstrap t => bootstrap_body t
  end.
(** The bytes the code hashes. *)
Definition preimage (m : tee_message) : codec (list Z) :=
  let+ body := message_body m in inr (domain_of m ++ body).

Lemma message_hash_preimage m : message_hash m = let+ p := preimage m in inr (keccak256 p).
Proof.
  unfold preimage. destruct m; cbn [message_hash message_body]; try done;
    unfold NetworkBindingV1_hash, TrustedNetworkDescriptorV1_hash, dkg_participant_set_hash_v1, dkg_ceremony_id_v1,
      dkg_set_body, ceremony_body, announce_body, node_id_hash, ValidatorNodeBindingV1_hash,
      NodeHostAuthorizationWitnessV1_hash, manifest_authorization_hash, intent_hash, key_ready_signing_hash,
      evidence_hash, policy_hash, policy_schedule_hash, system_gas_schedule_hash_of, registry_gas_schedule_hash_of,
      resource_schedule_hash_of, ResourceScheduleV1_encode, bootstrap_signing_hash, bootstrap_body, dkg_participant_announce_hash_v1;
    repeat match goal with
           | |- context [ebind ?r _] =>
               lazymatch r with context [ebind _ _] => fail | _ => destruct r end; cbn [ebind]
           end; done.
Qed.

(** * Messages that are the same *)

Definition wf_message (m : tee_message) : Prop :=
  match m with
  | MNetwork b => wf_network_binding b
  | MDescriptor d => wf_descriptor d
  | MDkgSet _ => True
  | MCeremony b round set_hash => wf_network_binding b /\ fits 8 round /\ fits 32 set_hash
  | MAnnounce b ceremony round set_hash pub =>
      wf_network_binding b /\ fits 32 ceremony /\ fits 8 round /\ fits 32 set_hash /\ fits 32 pub
  | MNodeId n => wf_node_id n
  | MBinding b => wf_binding b
  | MWitness w => wf_witness w
  | MManifest m => wf_manifest m
  | MEnclaveId r a n => fits 32 r /\ fits 32 a /\ fits 32 n
  | MIntent i | MReportPolicy i => wf_intent i
  | MReadyProof p => wf_ready_proof p
  | MEvidence e => wf_evidence e
  | MPolicy p => wf_policy p
  | MSchedule s => wf_schedule s
  | MSystemGas s => wf_system_gas s
  | MRegistryGas s => wf_registry_gas s
  | MResources r => wf_resources r
  | MBootstrap t => wf_bootstrap t
  end.

(** Equal but for what a signing hash leaves out: the signatures over it, the
    order of a participant set, and the fields of an intent that the report policy
    does not name. *)
Definition same_message (m m' : tee_message) : Prop :=
  match m, m' with
  | MDkgSet l, MDkgSet l' => l ≡ₚ l'
  | MReportPolicy i, MReportPolicy i' =>
      ri_genesis_hash i = ri_genesis_hash i' /\ ri_policy_hash i = ri_policy_hash i'
      /\ node_host_authorization_hash i = node_host_authorization_hash i'
  | MReadyProof p, MReadyProof p' =>
      exists signature, p' = mkReadyProof (kp_chain_id p) (kp_genesis_hash p) (transition_intent_hash p)
        (candidate_manifest_hash p) (kp_transition_nonce p) (resident_offer_public p) signature
  | MBootstrap t, MBootstrap t' => exists signatures, t' = with_signatures t signatures
  | _, _ => m = m'
  end.

Lemma domains_diverge i j : (i < 20)%nat -> (j < 20)%nat -> i <> j ->
  diverge (nth i message_domains []) (nth j message_domains []) = true.
Proof.
  intros Hi Hj Hne.
  assert (Hall : forallb (fun i => forallb (fun j => (i =? j)%nat
    || diverge (nth i message_domains []) (nth j message_domains [])) (seq 0 20)) (seq 0 20) = true)
    by (vm_compute; reflexivity).
  rewrite forallb_forall in Hall. specialize (Hall i ltac:(apply in_seq; lia)).
  rewrite forallb_forall in Hall. specialize (Hall j ltac:(apply in_seq; lia)).
  apply orb_true_iff in Hall as [Heq|Hd]; [by apply Nat.eqb_eq in Heq|done].
Qed.

Lemma network_length b bytes : NetworkBindingV1_encode b = inr bytes -> length bytes = 66%nat.
Proof.
  intros He. unfold NetworkBindingV1_encode in He. apply ebind_inr in He as (_ & _ & [= <-]).
  cbn [length app]. by rewrite !length_app, !length_be_bytes.
Qed.
Lemma network_split b b' e e' x y : wf_network_binding b -> wf_network_binding b' ->
  NetworkBindingV1_encode b = inr e -> NetworkBindingV1_encode b' = inr e' -> e ++ x = e' ++ y -> b = b' /\ x = y.
Proof.
  intros Hb Hb' He He' Heq. apply app_inj_1 in Heq as [-> ->]; [|by rewrite (network_length b), (network_length b')].
  split; [|done]. by eapply (exact_inj _ _ _ _ _ _ network_binding_exact).
Qed.

Lemma dkg_keys_inj l : forall l' ks ks', emap l dkg_key_bytes = inr ks -> emap l' dkg_key_bytes = inr ks' ->
  length l = length l' -> concat ks = concat ks' -> l = l'.
Proof.
  induction l as [|k l IH]; intros [|k' l'] ks ks' Hk Hk' Hlen Hc; try done.
  apply emap_inr in Hk, Hk'. inversion Hk as [|? b ? bs Hb Hbs]; subst. inversion Hk' as [|? b' ? bs' Hb' Hbs']; subst.
  unfold dkg_key_bytes in Hb, Hb'. apply ebind_inr in Hb as (n & Hn & [= <-]). apply ebind_inr in Hb' as (n' & Hn' & [= <-]).
  apply put_len_u32_inr in Hn as [? ->]. apply put_len_u32_inr in Hn' as [? ->].
  cbn [concat] in Hc. rewrite <- !app_assoc in Hc. pose proof (zlen_nonneg k). pose proof (zlen_nonneg k').
  apply be_split in Hc as [Hz Hc]; [|apply fits_4; lia..].
  apply app_inj_1 in Hc as [-> Hc]; [|unfold zlen in Hz; lia]. f_equal.
  apply (IH l' bs bs'); [by apply emap_inr|by apply emap_inr|by injection Hlen|done].
Qed.

(** Hashes are 32 bytes. *)
Hypothesis keccak_fits : forall b, fits 32 (keccak256 b).

Lemma dkg_set_binds l l' b : dkg_set_body l = inr b -> dkg_set_body l' = inr b -> l ≡ₚ l'.
Proof.
  unfold dkg_set_body. intros Hb Hb'.
  apply ebind_inr in Hb as (_ & _ & Hb). apply ebind_inr in Hb as (_ & _ & Hb).
  apply ebind_inr in Hb as (n & [? ->]%put_len_u32_inr & Hb). apply ebind_inr in Hb as (ks & Hk & Hb).
  apply ebind_inr in Hb' as (_ & _ & Hb'). apply ebind_inr in Hb' as (_ & _ & Hb').
  apply ebind_inr in Hb' as (n' & [? ->]%put_len_u32_inr & Hb'). apply ebind_inr in Hb' as (ks' & Hk' & Heq).
  rewrite <- Hb in Heq. apply (inj inr) in Heq. apply be_split in Heq as [Hn Heq]; [|apply fits_4; lia..]. symmetry in Heq.
  rewrite <- (merge_sort_Permutation bytes_le l), <- (merge_sort_Permutation bytes_le l').
  by rewrite (dkg_keys_inj _ _ _ _ Hk Hk' ltac:(lia) Heq).
Qed.
Lemma ceremony_binds b round set_hash b' round' set_hash' bytes :
  wf_message (MCeremony b round set_hash) -> wf_message (MCeremony b' round' set_hash') ->
  ceremony_body b round set_hash = inr bytes -> ceremony_body b' round' set_hash' = inr bytes ->
  MCeremony b round set_hash = MCeremony b' round' set_hash'.
Proof.
  intros (?&?&?) (?&?&?) Hb Hb'. unfold ceremony_body in *.
  apply ebind_inr in Hb as (_ & _ & Hb). apply ebind_inr in Hb as (e & He & Hb).
  apply ebind_inr in Hb' as (_ & _ & Hb'). apply ebind_inr in Hb' as (e' & He' & Hb').
  rewrite <- Hb in Hb'. apply (inj inr) in Hb'. apply (network_split b' b e' e) in Hb' as [-> Hb']; [|done..].
  apply be_split in Hb' as [-> Hb']; [|done..]. by apply be_inj in Hb' as ->.
Qed.
Lemma announce_binds b ceremony round set_hash pub b' ceremony' round' set_hash' pub' bytes :
  wf_message (MAnnounce b ceremony round set_hash pub) -> wf_message (MAnnounce b' ceremony' round' set_hash' pub') ->
  announce_body b ceremony round set_hash pub = inr bytes ->
  announce_body b' ceremony' round' set_hash' pub' = inr bytes ->
  MAnnounce b ceremony round set_hash pub = MAnnounce b' ceremony' round' set_hash' pub'.
Proof.
  intros (?&?&?&?&?) (?&?&?&?&?) Hb Hb'. unfold announce_body in *.
  do 2 apply ebind_inr in Hb as (? & _ & Hb). apply ebind_inr in Hb as (e & He & Hb).
  do 2 apply ebind_inr in Hb' as (? & _ & Hb'). apply ebind_inr in Hb' as (e' & He' & Hb').
  rewrite <- Hb in Hb'. apply (inj inr) in Hb'. apply (network_split b' b e' e) in Hb' as [-> Hb']; [|done..].
  do 3 (apply be_split in Hb' as [-> Hb']; [|done..]). by apply be_inj in Hb' as ->.
Qed.
Lemma ready_proof_binds p p' : wf_ready_proof p -> wf_ready_proof p' ->
  key_ready_signed_bytes p = key_ready_signed_bytes p' -> same_message (MReadyProof p) (MReadyProof p').
Proof.
  intros (?&?&?&?&?&?&_) (?&?&?&?&?&?&_) Heq. exists (candidate_attestation_signature p').
  unfold key_ready_signed_bytes in Heq. apply (app_inv_head [_]) in Heq.
  do 5 (apply be_split in Heq as [? Heq]; [|done..]). apply be_inj in Heq; [|done..].
  destruct p, p'; cbn in *; congruence.
Qed.
Lemma bootstrap_binds t t' b : wf_bootstrap t -> wf_bootstrap t' -> bootstrap_body t = inr b ->
  bootstrap_body t' = inr b -> same_message (MBootstrap t) (MBootstrap t').
Proof.
  intros Hwf Hwf' Hb Hb'. exists (committee_signatures t'). unfold bootstrap_body in *.
  apply ebind_inr in Hb as ([] & Hv & Hb). apply ebind_inr in Hb' as ([] & Hv' & Hb').
  rewrite encode_body_ok in Hb, Hb' by (done || by apply bootstrap_validate_inv).
  cbn [ebind] in Hb, Hb'. apply ebind_inr in Hb as (_ & _ & Hb). apply ebind_inr in Hb' as (_ & _ & Hb').
  destruct (body_determines t t') as (Ha & Hp & Hps); [done..|congruence|].
  unfold with_signatures. rewrite Ha, Hp, Hps. by destruct t'.
Qed.
Lemma body_binds m m' b : wf_message m -> wf_message m' -> message_kind m = message_kind m' ->
  message_body m = inr b -> message_body m' = inr b -> same_message m m'.
Proof.
  intros Hwf Hwf' Hk Hb Hb'. destruct m, m'; try done; cbn [wf_message message_body] in *; cbn [same_message];
    try (f_equal; by eapply exact_inj; [eauto using network_binding_exact, node_id_exact, binding_exact, witness_exact,
      manifest_exact, intent_exact, evidence_exact, policy_exact, schedule_exact, system_gas_exact, registry_gas_exact,
      resources_exact, descriptor_exact|..]).
  - by eapply dkg_set_binds.
  - by eapply ceremony_binds.
  - by eapply announce_binds.
  - destruct Hwf as (?&?&?), Hwf' as (?&?&?). rewrite <- Hb in Hb'. apply (inj inr) in Hb'.
    do 2 (apply be_split in Hb' as [-> Hb']; [|done..]). by apply be_inj in Hb' as ->.
  - unfold wf_intent in *. rewrite <- Hb in Hb'. apply (inj inr) in Hb'.
    do 2 (apply be_split in Hb' as [-> Hb']; [|tauto..]). apply be_inj in Hb' as ->; tauto.
  - apply ebind_inr in Hb as (_ & _ & Hb). apply ebind_inr in Hb' as (_ & _ & Hb').
    apply ready_proof_binds; [done..|congruence].
  - by eapply bootstrap_binds.
Qed.

Lemma message_kind_bound m : (message_kind m < 20)%nat.
Proof. destruct m; cbn; lia. Qed.
Lemma preimage_binds m m' p : wf_message m -> wf_message m' -> preimage m = inr p -> preimage m' = inr p ->
  same_message m m'.
Proof.
  intros Hwf Hwf' Hp Hp'. apply ebind_inr in Hp as (b & Hb & Hp). apply ebind_inr in Hp' as (b' & Hb' & Hp').
  rewrite <- Hp in Hp'. apply (inj inr) in Hp'. destruct (decide (message_kind m = message_kind m')) as [Hk|Hk].
  - unfold domain_of in Hp'. rewrite Hk in Hp'. apply app_inv_head in Hp' as ->. by eapply body_binds.
  - exfalso. refine (diverge_app _ _ _ _ _ Hp'). apply domains_diverge; [apply message_kind_bound..|done].
Qed.
End Hashes.
