(* ===== verification/TeeExample.v ===== *)
(** A concrete two-validator DCAP deployment: a hash, a signature scheme whose
    signatures carry their key, a policy with its successor, two registrations
    that share seven of their eight collateral components, and the payload
    assembled from them. The theorems about the TEE messages are instantiated
    here. *)

From S2P Require Import Prelude Bytes Wire WireProps Artifacts ArtifactsProps TeeAttestation TeePolicyProps TeeBootstrap TeeBootstrapProps.

(** A signature starts with the compressed key it recovers to. *)
Definition carried_key : TeeCrypto := {|
  public_key_from_sec1 := fun key => (length key =? 33)%nat;
  recovery_id_from_byte := fun id => (0 <=? id) && (id <=? 3);
  ecdsa_signature_from_slice := fun _ => true;
  recover_from_prehash := fun _ signature _ => Some (take 33 signature);
  uncompressed_point := fun key => Some (4 :: drop 1 key ++ drop 1 key);
  ed25519_verify := fun _ _ signature => (length signature =? 64)%nat |}.

Section Example.
#[local] Existing Instance sum_keccak.
#[local] Existing Instance carried_key.

Definition example_rule : TeeMeasurementRuleV1 := mkRule 11 12 1 2 1 1000000.
(** The policy of version [version], from [height], after the policy of hash [predecessor]. *)
Definition example_policy (version height : Z) (predecessor : B256) : TeePolicyV1 :=
  mkPolicy version 7 8 height predecessor DcapRequired 9 3 0 2 INTEL_QE_VENDOR_ID 5 3 2 17
    UpToDateOnly UpToDate 3600 86400 3600 10 [example_rule].
Definition genesis_policy : TeePolicyV1 := example_policy 1 1 0.
Definition hash_or_zero (r : codec B256) : B256 := match r with inr h => h | inl _ => 0 end.
Definition next_policy : TeePolicyV1 := example_policy 2 500 (hash_or_zero (policy_hash genesis_policy)).
Definition example_schedule : TeePolicyScheduleV1 :=
  mkPolicySchedule 7 8 [mkPolicyEntry 1 genesis_policy; mkPolicyEntry 500 next_policy].

Definition example_key (validator : Z) : list Z := 2 :: be_bytes 32 validator.
Definition example_signature (validator : Z) : list Z := example_key validator ++ replicate 32 1.
Definition example_intent (validator : Z) : RegistrationIntentV1 :=
  mkIntent 7 8 RegisterEnclave DcapRequired (hash_or_zero (policy_hash genesis_policy))
    (mkNodeId (example_key validator)) 21 22 1 1 0 0 90000 (validator + 100) (validator + 200)
    (validator + 300) 23.
Definition example_components (quote : Z) : list DcapCollateralComponentV1 :=
  [mkComponent PckCertificateChain [quote]; mkComponent PckCrl [2]; mkComponent PckCrlIssuerChain [3];
   mkComponent RootCaCrl [4]; mkComponent TcbInfo [5; 1]; mkComponent TcbInfoIssuerChain [6];
   mkComponent QeIdentity [7]; mkComponent QeIdentityIssuerChain [8]].
Definition example_evidence (validator : Z) : AttestationEvidenceV1 :=
  Dcap (mkDcap (example_intent validator) [3; 0; validator] (example_components validator) None).
Definition example_binding (validator : Z) : ValidatorNodeBindingV1 :=
  mkBinding 7 8 validator (hash_or_zero (node_id_hash (mkNodeId (example_key validator)))).
Definition example_submission (validator : Z) : TeeBootstrapParticipantSubmissionV2 :=
  mkSubmission (example_evidence validator) (example_binding validator) (example_signature validator)
    (example_signature validator) (example_signature validator) (replicate 64 6).
Definition example_authority : TeeBootstrapAuthorityV2 :=
  mkAuthority genesis_policy 31 1 1 1 32 33 [34; 35].
Definition example_submissions : list TeeBootstrapParticipantSubmissionV2 :=
  example_submission <$> [42; 41].
Definition empty_bootstrap : TeeBootstrapV2 := mkBootstrap example_authority [] [] [].
(** The payload of the registrations of a list of validators. *)
Definition payload_of (validators : list Z) : TeeBootstrapV2 :=
  match assemble_unsigned example_authority (example_submission <$> validators) with
  | inr t => t
  | inl _ => empty_bootstrap
  end.
Definition payload_bytes (t : TeeBootstrapV2) : list Z := wire_of (TeeBootstrapV2_encode t).

(** ** Widths *)

Lemma sum_keccak_fits b : fits 32 (sum_keccak b).
Proof. unfold sum_keccak, fits. apply Z.mod_pos_bound. done. Qed.
Definition is_byte (b : Z) : bool := (0 <=? b) && (b <? 256).
Lemma all_bytes l : forallb is_byte l = true -> Forall byte l.
Proof.
  intros Hl. apply Forall_forall. intros b Hb. rewrite forallb_forall in Hl. apply list_elem_of_In, Hl in Hb.
  unfold is_byte in Hb. unfold byte. bprop. lia.
Qed.
Lemma example_schedule_wf : wf_schedule example_schedule.
Proof.
  apply (proj2 (schedule_exact sum_keccak_fits) (wire_of (TeePolicyScheduleV1_encode example_schedule)));
    [apply all_bytes; vm_compute; reflexivity|vm_compute; reflexivity].
Qed.
Definition first_schedule : TeePolicyScheduleV1 := mkPolicySchedule 7 8 [mkPolicyEntry 1 genesis_policy].
Lemma first_schedule_wf : wf_schedule first_schedule.
Proof.
  apply (proj2 (schedule_exact sum_keccak_fits) (wire_of (TeePolicyScheduleV1_encode first_schedule)));
    [apply all_bytes; vm_compute; reflexivity|vm_compute; reflexivity].
Qed.
Lemma example_payload_wf : wf_bootstrap (payload_of [42; 41]).
Proof.
  apply (proj2 bootstrap_exact (payload_bytes (payload_of [42; 41])));
    [apply all_bytes; vm_compute; reflexivity|vm_compute; reflexivity].
Qed.
(** The same payload, signed. *)
Definition signed_payload : TeeBootstrapV2 :=
  with_signatures (payload_of [42; 41])
    ((fun s => mkCommitteeSignature (cs_validator s) (example_signature (cs_validator s)))
       <$> committee_signatures (payload_of [42; 41])).
Lemma signed_payload_wf : wf_bootstrap signed_payload.
Proof.
  apply (proj2 bootstrap_exact (payload_bytes signed_payload));
    [apply all_bytes; vm_compute; reflexivity|vm_compute; reflexivity].
Qed.
End Example.
