(* ===== verification/TeeTheorems.v ===== *)
(** The guarantees of the TEE messages: exact codecs, binding hashes, the policy
    in force, the gas of registry calls, and the bootstrap payload. *)

From stdpp Require Import sorting.
From S2P Require Import Prelude Bytes Wire WireProps ArtifactsProps TeeAttestation TeeAttestationProps TeePolicyProps TeeBootstrap TeeBootstrapProps TeeAssemblyProps TeeHashes TeeExample.

Local Opaque be_bytes.

Section Theorems.
Context {H : Keccak} {E : TeeCrypto}.

(** Keccak digests are 32 bytes. *)
Definition digest_width : Prop := forall b, fits 32 (keccak256 b).

(** C17. Every TEE message has one encoding: for the network binding and descriptor,
    node id, validator binding, host authorization, initialization manifest,
    registration intent, key-ready proof, attestation evidence, policy, policy
    schedule and the gas and resource schedules, what the encoder produces decodes
    to the same message, and bytes that decode are exactly the encoding of a message
    with fields of their widths. *)
Theorem tee_codecs_exact (keccak_fits : digest_width) :
  exact_codec NetworkBindingV1_encode NetworkBindingV1_decode wf_network_binding
  /\ exact_codec TrustedNetworkDescriptorV1_encode TrustedNetworkDescriptorV1_decode wf_descriptor
  /\ exact_codec NodeIdV1_encode NodeIdV1_decode wf_node_id
  /\ exact_codec ValidatorNodeBindingV1_encode ValidatorNodeBindingV1_decode wf_binding
  /\ exact_codec NodeHostAuthorizationWitnessV1_encode NodeHostAuthorizationWitnessV1_decode wf_witness
  /\ exact_codec EnclaveInitializationManifestV1_encode EnclaveInitializationManifestV1_decode wf_manifest
  /\ exact_codec RegistrationIntentV1_encode RegistrationIntentV1_decode wf_intent
  /\ exact_codec TransitionKeyReadyProofV1_encode TransitionKeyReadyProofV1_decode wf_ready_proof
  /\ exact_codec AttestationEvidenceV1_encode AttestationEvidenceV1_decode wf_evidence
  /\ exact_codec TeePolicyV1_encode TeePolicyV1_decode wf_policy
  /\ exact_codec TeePolicyScheduleV1_encode TeePolicyScheduleV1_decode wf_schedule
  /\ exact_codec SystemGasScheduleV1_encode SystemGasScheduleV1_decode wf_system_gas
  /\ exact_codec TeeRegistryGasScheduleV1_encode TeeRegistryGasScheduleV1_decode wf_registry_gas
  /\ exact_codec ResourceScheduleV1_encode ResourceScheduleV1_decode wf_resources.
Proof.
  split_and!; auto using network_binding_exact, descriptor_exact, node_id_exact, binding_exact, witness_exact,
    manifest_exact, intent_exact, ready_proof_exact, evidence_exact, policy_exact, schedule_exact, system_gas_exact,
    registry_gas_exact, resources_exact.
Qed.

(** C15. The hashes of the TEE protocol bind their messages: two messages of any of
    the twenty hashed kinds with the same hash are the same message, up to the
    signatures a signing hash leaves out and the order of a participant set, or their
    preimages are a collision of keccak. No hash of one kind stands for another. *)
Theorem tee_hash_binding (keccak_fits : digest_width) m m' h :
  wf_message m -> wf_message m' -> message_hash m = inr h -> message_hash m' = inr h ->
  same_message m m'
  \/ exists p p', preimage m = inr p /\ preimage m' = inr p' /\ p <> p' /\ keccak256 p = keccak256 p'.
Proof.
  intros Hwf Hwf' Hh Hh'. rewrite message_hash_preimage in Hh, Hh'.
  apply ebind_inr in Hh as (p & Hp & Hh). apply ebind_inr in Hh' as (p' & Hp' & Hh').
  destruct (decide (p = p')) as [<-|Hne]; [left; by eapply preimage_binds|right]. exists p, p'. split_and!; try done. congruence.
Qed.

(** The policy in force at a height: a valid schedule has none below height 1
    and exactly one from there on, the last entry activated by then; it belongs to the
    schedule's chain, its version is its position, and it names the hash of the policy
    before it. *)
Theorem active_policy_exact (keccak_fits : digest_width) s height :
  wf_schedule s -> TeePolicyScheduleV1_validate s = inr tt ->
  (height < 1 -> active_policy s height = inl (NonCanonical "no active TEE policy at requested height"))
  /\ (1 <= height -> exists i e, policy_entries s !! i = Some e
      /\ active_policy s height = inr (en_policy e)
      /\ policy_version (en_policy e) = Z.of_nat i + 1
      /\ activation_height (en_policy e) <= height
      /\ (forall j e', (i < j)%nat -> policy_entries s !! j = Some e' -> height < en_activation_height e')
      /\ tp_chain_id (en_policy e) = ps_chain_id s /\ tp_genesis_hash (en_policy e) = ps_genesis_hash s
      /\ (forall before, i = S before -> exists e', policy_entries s !! before = Some e'
            /\ policy_hash (en_policy e') = inr (predecessor_policy_hash (en_policy e)))).
Proof. by apply active_exact. Qed.

(** C16. A policy hash commits to the whole policy history: when two valid schedules
    have active policies with the same hash, the schedules agree on every entry up to
    that policy, or two of their policies are a collision of the policy hash. *)
Theorem policy_history_committed (keccak_fits : digest_width) s t height height' p q h :
  wf_schedule s -> wf_schedule t -> active_policy s height = inr p -> active_policy t height' = inr q ->
  policy_hash p = inr h -> policy_hash q = inr h ->
  (exists i e, policy_entries s !! i = Some e /\ en_policy e = p
     /\ take (S i) (policy_entries s) = take (S i) (policy_entries t))
  \/ exists b c d, b ∈ policy_entries s /\ c ∈ policy_entries t
     /\ policy_hash (en_policy b) = inr d /\ policy_hash (en_policy c) = inr d
     /\ TeePolicyV1_encode (en_policy b) <> TeePolicyV1_encode (en_policy c).
Proof.
  intros Hs Ht Hp Hq Hhp Hhq. apply active_entry in Hp as (Hvs & i & e & He & <-). apply active_entry in Hq as (Hvt & j & f & Hf & <-).
  pose proof (proj1 (schedule_validate_iff s Hs) Hvs) as Hoks. pose proof (proj1 (schedule_validate_iff t Ht) Hvt) as Hokt.
  pose proof Hhp as (be & Hbe & _)%ebind_inr. pose proof Hhq as (bf & Hbf & _)%ebind_inr.
  destruct (decide (be = bf)) as [<-|Hne].
  - pose proof (Forall_lookup_1 _ _ i _ (proj2 (proj2 Hs)) He) as [_ Hwe].
    pose proof (Forall_lookup_1 _ _ j _ (proj2 (proj2 Ht)) Hf) as [_ Hwf].
    pose proof (exact_inj _ _ _ _ _ _ policy_exact Hwe Hwf Hbe Hbf) as Heq.
    destruct (entry_policy_inj s t i j e f) as [<- <-]; [done..|].
    destruct (history_agrees s t i e e) as [Hpre|(k & Hk & b & c & d & Hb & Hc & Hhb & Hhc & Hn)]; [done..| |].
    + left. by exists i, e.
    + right. exists b, c, d. split_and!; try done; by eapply list_elem_of_lookup_2.
  - right. exists e, f, h. split_and!; try done; [by eapply list_elem_of_lookup_2..|]. rewrite Hbe, Hbf. congruence.
Qed.

(** The outcome of the gas computation: the first failing check, or the charge. *)
Definition registry_gas_outcome (k : RegistryMutatorV1) (mode : AttestationMode)
    (input_len evidence_len rule_count : Z) : codec Z :=
  if input_len <? evidence_len then inl (NonCanonical "registry input shorter than evidence")
  else if MAX_EVIDENCE_CALL_FRAMING_BYTES <? input_len - evidence_len
  then inl (LimitExceeded "evidence call framing" MAX_EVIDENCE_CALL_FRAMING_BYTES (input_len - evidence_len))
  else if MAX_ATTESTATION_EVIDENCE_BYTES <? evidence_len
  then inl (LimitExceeded "attestation evidence" MAX_ATTESTATION_EVIDENCE_BYTES evidence_len)
  else if MAX_ACTIVE_MEASUREMENT_RULES <? rule_count
  then inl (LimitExceeded "active measurement rules" MAX_ACTIVE_MEASUREMENT_RULES rule_count)
  else inr (registry_gas k mode input_len evidence_len rule_count).

(** C18. The gas of a registry transaction is defined on every input: the checks
    fail in their order, an input shorter than its evidence, too much framing, too
    much evidence or too many rules each with its own error, and otherwise the charge is
    the schedule's sum, which never overflows and fits a steady block. *)
Theorem registry_gas_defined k mode input_len evidence_len rule_count :
  0 <= evidence_len -> 0 <= rule_count ->
  maximum_transaction_gas TeeRegistryGasScheduleV1_normative k input_len evidence_len rule_count mode
  = registry_gas_outcome k mode input_len evidence_len rule_count
  /\ (evidence_len <= input_len -> input_len - evidence_len <= MAX_EVIDENCE_CALL_FRAMING_BYTES ->
      evidence_len <= MAX_ATTESTATION_EVIDENCE_BYTES -> rule_count <= MAX_ACTIVE_MEASUREMENT_RULES ->
      registry_gas k mode input_len evidence_len rule_count <= STEADY_BLOCK_GAS_LIMIT).
Proof.
  intros He Hr. split; [unfold registry_gas_outcome|intros; by apply registry_gas_ok].
  destruct (Z.ltb_spec input_len evidence_len) as [Hs|Hs].
  { unfold maximum_transaction_gas. by rewrite (proj2 (Z.ltb_lt _ _) Hs). }
  destruct (Z.ltb_spec MAX_EVIDENCE_CALL_FRAMING_BYTES (input_len - evidence_len)) as [Hf|Hf].
  { unfold maximum_transaction_gas, enforce_limit. rewrite (proj2 (Z.ltb_ge _ _) Hs). cbn [negb erequire ebind].
    by rewrite (proj2 (Z.leb_gt _ _) Hf). }
  destruct (Z.ltb_spec MAX_ATTESTATION_EVIDENCE_BYTES evidence_len) as [Hl|Hl].
  { unfold maximum_transaction_gas. rewrite (proj2 (Z.ltb_ge _ _) Hs). cbn [negb erequire ebind].
    rewrite enforce_limit_ok by done. cbn [ebind]. unfold qvl_dcap, qvl_dev, validate_qvl_dimensions, enforce_limit.
    rewrite (proj2 (Z.leb_gt _ _) Hl). by destruct mode. }
  destruct (Z.ltb_spec MAX_ACTIVE_MEASUREMENT_RULES rule_count) as [Hm|Hm]; [|by apply registry_gas_ok].
  unfold maximum_transaction_gas. rewrite (proj2 (Z.ltb_ge _ _) Hs). cbn [negb erequire ebind].
  rewrite enforce_limit_ok by done. cbn [ebind]. unfold qvl_dcap, qvl_dev, validate_qvl_dimensions.
  rewrite enforce_limit_ok by done. cbn [ebind]. unfold enforce_limit. rewrite (proj2 (Z.leb_gt _ _) Hm). by destruct mode.
Qed.

(** The length computed in advance, within the cap on system calldata. *)
Definition length_predicted (t : TeeBootstrapV2) (bytes : list Z) : Prop :=
  canonical_encoded_len t = inr (zlen bytes)
  /\ zlen bytes + SYSTEM_CALLDATA_FRAMING_BYTES <= MAX_TEE_BOOTSTRAP_BYTES.

(** The bootstrap payload has one encoding of the predicted length: the
    encoder's bytes decode to the payload, bytes that decode are the encoding of the
    payload, the length computed in advance is the length of the bytes and stays
    within the calldata cap; and the hash the committee signs does not depend on the
    signature bytes. *)
Theorem bootstrap_payload_exact :
  exact_codec TeeBootstrapV2_encode TeeBootstrapV2_decode wf_bootstrap
  /\ (forall t bytes, wf_bootstrap t -> TeeBootstrapV2_encode t = inr bytes ->
      length_predicted t bytes)
  /\ (forall t sigs, cs_validator <$> sigs = cs_validator <$> committee_signatures t ->
      bootstrap_signing_hash (with_signatures t sigs) = bootstrap_signing_hash t).
Proof.
  split_and!; [apply bootstrap_exact| |].
  - intros t bytes Hwf He. pose proof He as ([] & Hv & _)%ebind_inr.
    destruct (bootstrap_encode_ok t Hwf Hv) as (He' & Hl & _ & Hcap). rewrite He' in He. by simplify_eq.
  - intros t sigs Hs. unfold bootstrap_signing_hash. by rewrite validate_signers, encode_body_signers.
Qed.

(** A payload carries submissions: by strictly increasing validator, each with its
    binding, its signatures and, through the pool, its evidence. *)
Definition carries_all (t : TeeBootstrapV2) (subs : list TeeBootstrapParticipantSubmissionV2) : Prop :=
  exists ordered, ordered ≡ₚ subs /\ StronglySorted Z.lt (sb_validator <$> ordered)
    /\ Forall2 (carries (collateral_pool t)) ordered (participants t)
    /\ (forall i s, ordered !! i = Some s ->
        logical_evidence t i = inr (registration_evidence (sb_evidence s))).

(** C14. Assembly loses nothing and is canonical: a payload assembled from
    submissions passes the preflight check, lists the submissions by strictly
    increasing validator with their bindings, signatures and, through the collateral
    pool, their evidence; the pool holds exactly the submitted components, each once;
    the order of the submissions does not matter; and no other valid payload with the
    same authority and signatures has the same participants. *)
Theorem bootstrap_assembly_lossless a subs t : assemble_unsigned a subs = inr t ->
  preflight t = inr tt /\ authority t = a
  /\ (forall subs', subs ≡ₚ subs' -> assemble_unsigned a subs' = inr t)
  /\ carries_all t subs
  /\ NoDup (collateral_pool t)
  /\ (forall c, c ∈ collateral_pool t <-> exists s, s ∈ subs /\ c ∈ evidence_components (sb_evidence s))
  /\ (forall t', wf_bootstrap t -> wf_bootstrap t' -> validate_bootstrap t' = inr tt -> authority t' = a ->
      committee_signatures t' = committee_signatures t ->
      participant_content (collateral_pool t') <$> participants t'
      = participant_content (collateral_pool t) <$> participants t -> t' = t).
Proof.
  intros Ha. destruct (assemble_carries a subs t Ha) as (Hpre & Haut & Hc & _).
  pose proof (bootstrap_validate_inv t (preflight_valid t Hpre)) as Hv.
  assert (Hperm := merge_sort_Permutation submission_le subs). split_and!; try done.
  - intros subs' Hp. by eapply assemble_order.
  - exists (merge_sort submission_le subs). split_and!; [done| |done|intros i s; by apply carried_evidence].
    rewrite (carried_validators _ _ _ Hc). by apply (validators_sorted _ None), Hv.
  - by apply pool_nodup, Hv.
  - intros c. rewrite (carried_pool t _ c Hv Hc). by setoid_rewrite Hperm.
  - intros t' Hwf Hwf' Hv' Ha' Hs Hcont. apply payload_determined; try done; [by apply bootstrap_validate_inv|congruence].
Qed.
End Theorems.

(** * Witnesses *)

Section Example.
#[local] Existing Instance sum_keccak.
#[local] Existing Instance carried_key.

Lemma tee_codecs_exact_witness :
  TeePolicyScheduleV1_decode (wire_of (TeePolicyScheduleV1_encode example_schedule)) = inr example_schedule.
Proof.
  destruct (tee_codecs_exact sum_keccak_fits) as (_ & _ & _ & _ & _ & _ & _ & _ & _ & _ & [Hs _] & _).
  refine (proj1 (Hs example_schedule _ example_schedule_wf _)). vm_compute. reflexivity.
Defined.

Lemma tee_hash_binding_witness :
  same_message (MBootstrap (payload_of [42; 41])) (MBootstrap signed_payload)
  \/ exists p p', preimage (MBootstrap (payload_of [42; 41])) = inr p
       /\ preimage (MBootstrap signed_payload) = inr p' /\ p <> p' /\ sum_keccak p = sum_keccak p'.
Proof.
  refine (tee_hash_binding sum_keccak_fits (MBootstrap (payload_of [42; 41])) (MBootstrap signed_payload)
    (hash_or_zero (message_hash (MBootstrap signed_payload))) example_payload_wf signed_payload_wf _ _);
    vm_compute; reflexivity.
Defined.

Lemma active_policy_exact_witness :
  active_policy example_schedule 0 = inl (NonCanonical "no active TEE policy at requested height")
  /\ exists i e, policy_entries example_schedule !! i = Some e /\ active_policy example_schedule 600 = inr (en_policy e)
     /\ policy_version (en_policy e) = Z.of_nat i + 1.
Proof.
  split.
  - refine (proj1 (active_policy_exact sum_keccak_fits example_schedule 0 example_schedule_wf _) _);
      [vm_compute; reflexivity|lia].
  - destruct (proj2 (active_policy_exact sum_keccak_fits example_schedule 600 example_schedule_wf
      ltac:(vm_compute; reflexivity)) ltac:(lia)) as (i & e & Hi & Ha & Hv & _).
    exists i, e. split; [exact Hi|]. split; [exact Ha|exact Hv].
Defined.

Lemma policy_history_committed_witness :
  (exists i e, policy_entries example_schedule !! i = Some e /\ en_policy e = genesis_policy
     /\ take (S i) (policy_entries example_schedule) = take (S i) (policy_entries first_schedule))
  \/ exists b c d, b ∈ policy_entries example_schedule /\ c ∈ policy_entries first_schedule
     /\ policy_hash (en_policy b) = inr d /\ policy_hash (en_policy c) = inr d
     /\ TeePolicyV1_encode (en_policy b) <> TeePolicyV1_encode (en_policy c).
Proof.
  refine (policy_history_committed sum_keccak_fits example_schedule first_schedule 400 9000 genesis_policy
    genesis_policy (hash_or_zero (policy_hash genesis_policy)) example_schedule_wf first_schedule_wf _ _ _ _);
    vm_compute; reflexivity.
Defined.

Lemma registry_gas_defined_witness :
  maximum_transaction_gas TeeRegistryGasScheduleV1_normative MutRegisterEnclave 9000 8000 1 DcapRequired
  = inr (registry_gas MutRegisterEnclave DcapRequired 9000 8000 1).
Proof. refine (proj1 (registry_gas_defined _ _ 9000 8000 1 _ _)); lia. Defined.

Lemma bootstrap_assembly_lossless_witness :
  preflight (payload_of [42; 41]) = inr tt /\ NoDup (collateral_pool (payload_of [42; 41])).
Proof.
  destruct (bootstrap_assembly_lossless example_authority example_submissions (payload_of [42; 41]))
    as (Hpre & _ & _ & _ & Hnd & _); [vm_compute; reflexivity|]. split; [exact Hpre|exact Hnd].
Defined.
End Example.
