(* ===== verification/SystemTx.v ===== *)
(** System transactions: their kinds and calldata, the layout of a block, the
    executor's phase cursor, the visible gas plan and the signed Phase 1
    transaction.

    Source: [crates/blockchain/primitives/src/system_tx.rs] (selectors of the
    OCOMP kinds: [crates/system/ocomp-protocol/src/abi.rs]). Transaction decoding,
    signature hashes and recovery are alloy's: the class [Alloy]. The body of the
    block-1 TEE bootstrap is the payload of [TeeBootstrap]. [from_precompile]
    gives a panic the value of an error; [SystemTxProps] shows that the body codecs do not panic. *)

From S2P Require Import Prelude Bytes Wire Artifacts TeeAttestation TeeBootstrap.

(** * Constants *)

Definition SYSTEM_TX_INPUT_VERSION : Z := 2.
Definition MAX_SYSTEM_TXS_PER_BLOCK : Z := 16.
Definition GENESIS_BOOTSTRAP_BLOCK_NUMBER : Z := 1.
Definition OCOMP_LIFECYCLE_CE_GAS_RESERVE : Z := 20000.
Definition SYSTEM_TX_ZERO_BYTE_GAS : Z := 4.
Definition OUTBE_SYSTEM_TX_ADDRESS : Address := 0xff00000000000000000000000000000000000001.

Definition protocol_block_gas_limit (block_number : Z) : Z :=
  if block_number =? GENESIS_BOOTSTRAP_BLOCK_NUMBER then BOOTSTRAP_BLOCK_GAS_LIMIT else STEADY_BLOCK_GAS_LIMIT.

(** * Kinds *)

Inductive BodyZone : Type := BeginBlock | EndBlock.

Inductive OcompLifecycleActivation : Type := Disabled | AtBlock (height : Z).
Definition is_active_at (activation : OcompLifecycleActivation) (block_number : Z) : bool :=
  match activation with
  | Disabled => false
  | AtBlock height => height <=? block_number
  end.

Inductive SystemTxKind : Type :=
  | CertifiedParentAccounting
  | LateFinalizeCredits
  | OcompLifecycleBegin
  | CycleTick
  | RewardsGemDelivery
  | BoundaryOutcome
  | TeeBootstrap
  | OracleSlashWindow
  | HookEvents
  | OcompTerminalRequest.

#[global] Instance BodyZone_eq_dec : EqDecision BodyZone.
Proof. solve_decision. Defined.
#[global] Instance SystemTxKind_eq_dec : EqDecision SystemTxKind.
Proof. solve_decision. Defined.

Definition selector (kind : SystemTxKind) : list Z :=
  string_bytes match kind with
               | CertifiedParentAccounting => "OSA3"
               | LateFinalizeCredits => "OSL2"
               | OcompLifecycleBegin => "OSE2"
               | CycleTick => "OSC2"
               | RewardsGemDelivery => "OSG2"
               | BoundaryOutcome => "OSB2"
               | TeeBootstrap => "OST3"
               | OracleSlashWindow => "OSO2"
               | HookEvents => "OSH2"
               | OcompTerminalRequest => "OSR2"
               end.

Definition body_zone (kind : SystemTxKind) : BodyZone :=
  match kind with OcompTerminalRequest => EndBlock | _ => BeginBlock end.

Definition revert_fails_block (kind : SystemTxKind) : bool :=
  match kind with RewardsGemDelivery | OracleSlashWindow | HookEvents => false | _ => true end.

Definition begin_order (kind : SystemTxKind) : option Z :=
  match kind with
  | CertifiedParentAccounting => Some 0
  | LateFinalizeCredits => Some 1
  | OcompLifecycleBegin => Some 2
  | CycleTick => Some 3
  | RewardsGemDelivery => Some 4
  | BoundaryOutcome => Some 5
  | TeeBootstrap => Some 6
  | OracleSlashWindow => Some 7
  | HookEvents => Some 8
  | OcompTerminalRequest => None
  end.
Definition end_order (kind : SystemTxKind) : option Z :=
  match kind with OcompTerminalRequest => Some 0 | _ => None end.
Definition order_in (kind : SystemTxKind) (zone : BodyZone) : option Z :=
  match zone with BeginBlock => begin_order kind | EndBlock => end_order kind end.

(** * Errors *)

Inductive SystemTxError : Type :=
  | InputTooShort (len : nat)
  | UnknownSelector (bytes : list Z)
  | UnsupportedVersion (version : Z)
  | UnexpectedBody (kind : SystemTxKind) (len : nat)
  | MissingBoundaryOutcomeBody
  | Codec
  | CalldataKindMismatch (expected actual : SystemTxKind)
  | OrdinalTooLarge (ordinal max : Z)
  | NonceOverflow (block_number ordinal : Z)
  | VisibleGasOverflow (len : nat)
  | GasLimitBelowIntrinsic (gas_limit intrinsic_gas : Z)
  | VisibleGasPlanExceedsBlock (required_gas block_gas_limit : Z)
  | DuplicateCycleTickGasBudget
  | SystemTxInWrongZone (kind : SystemTxKind) (expected actual : BodyZone)
  | OutOfOrder (zone : BodyZone) (previous current : SystemTxKind)
  | MidBlockSystemTx (index : nat)
  | TooManySystemTxs (actual : nat) (max : Z)
  | ActiveSystemTxSetMismatch (expected_begin expected_end actual_begin actual_end : list SystemTxKind)
  | V2Block1MissingBoundaryOutcome
  | V2Block1MissingTeeBootstrap
  | TeeBootstrapWrongHeight (block_number : Z)
  | V2Block1ContainsUserTransactions (actual : nat)
  | Phase1TxDecode
  | Phase1SignatureRecovery
  | Phase1WrongRecipient
  | Phase1NonZeroValue
  | Phase1ChainIdMismatch (expected : Z) (actual : option Z)
  | Phase1NonceMismatch (expected actual : Z)
  | Phase1GasLimitMismatch (expected actual : Z)
  | Phase1CalldataMismatch
  | Phase1SignatureHashMismatch
  | Phase1SignerMismatch (expected actual : Address).

Definition stx (A : Type) : Type := SystemTxError + A.

(** [map_err(SystemTxError::from_precompile)]. *)
Definition from_precompile {A} (r : result A) : stx A :=
  match r with Ok a => inr a | _ => inl Codec end.

(** [map_err(|error| SystemTxError::Codec(error.to_string()))]. *)
Definition from_codec {A} (r : CodecError + A) : stx A :=
  match r with inr a => inr a | inl _ => inl Codec end.

(** * Parameters *)

Record TxLegacy : Type := mkTxLegacy {
  legacy_chain_id : option Z;
  legacy_nonce : Z;
  legacy_gas_price : Z;
  legacy_gas_limit : Z;
  legacy_to : option Address;
  legacy_value : Z;
  legacy_input : list Z }.

(** A decoded transaction through alloy's accessors. *)
Record TransactionSigned : Type := mkTx {
  tx_chain_id : option Z;
  tx_nonce : Z;
  tx_gas_limit : Z;
  tx_to : option Address;
  tx_value : Z;
  tx_input : list Z;
  tx_signature_hash : B256;
  tx_try_recover : option Address }.

Class Alloy := {
  decode_2718 : list Z -> option (TransactionSigned * list Z);
  legacy_signature_hash : TxLegacy -> B256 }.

(** * Calldata *)

Definition selector_from_input (input : list Z) : stx (list Z) :=
  if (length input <? 4)%nat then inl (InputTooShort (length input)) else inr (take 4 input).

Definition ALL_KINDS : list SystemTxKind :=
  [CertifiedParentAccounting; LateFinalizeCredits; OcompLifecycleBegin; CycleTick;
   RewardsGemDelivery; BoundaryOutcome; TeeBootstrap; OracleSlashWindow; HookEvents;
   OcompTerminalRequest].

(** The arms of the match are tried in order. *)
Definition system_tx_kind_from_selector (bytes : list Z) : stx SystemTxKind :=
  match filter (fun kind => selector kind = bytes) ALL_KINDS with
  | kind :: _ => inr kind
  | [] => inl (UnknownSelector bytes)
  end.

Section Inputs.
Context {H : Keccak} {E : TeeCrypto}.

Inductive SystemTxInputV2 : Type :=
  | CertifiedParentAccountingInput (metadata : CertifiedParentAccountingMetadata)
  | LateFinalizeCreditsInput (artifact : LateFinalizeCreditsArtifact)
  | OcompLifecycleBeginInput
  | CycleTickInput
  | RewardsGemDeliveryInput
  | BoundaryOutcomeInput (artifact : DkgBoundaryArtifact)
  | TeeBootstrapInput (payload : TeeBootstrapV2)
  | OracleSlashWindowInput
  | HookEventsInput
  | OcompTerminalRequestInput.

Definition input_kind (input : SystemTxInputV2) : SystemTxKind :=
  match input with
  | CertifiedParentAccountingInput _ => CertifiedParentAccounting
  | LateFinalizeCreditsInput _ => LateFinalizeCredits
  | OcompLifecycleBeginInput => OcompLifecycleBegin
  | CycleTickInput => CycleTick
  | RewardsGemDeliveryInput => RewardsGemDelivery
  | BoundaryOutcomeInput _ => BoundaryOutcome
  | TeeBootstrapInput _ => TeeBootstrap
  | OracleSlashWindowInput => OracleSlashWindow
  | HookEventsInput => HookEvents
  | OcompTerminalRequestInput => OcompTerminalRequest
  end.

Definition input_encode (input : SystemTxInputV2) : stx (list Z) :=
  let+ body := match input with
               | CertifiedParentAccountingInput metadata => from_precompile (metadata_encode metadata)
               | LateFinalizeCreditsInput artifact =>
                   from_precompile (encode_late_finalize_credits_artifact artifact)
               | BoundaryOutcomeInput artifact => from_precompile (encode_boundary_artifact artifact)
               | TeeBootstrapInput payload => from_codec (TeeBootstrapV2_encode payload)
               | _ => inr []
               end in
  inr (selector (input_kind input) ++ [SYSTEM_TX_INPUT_VERSION] ++ body).

(** The kinds without a body. *)
Definition no_body (kind : SystemTxKind) (body : list Z) (input : SystemTxInputV2) :
    stx SystemTxInputV2 :=
  let+ _ := erequire (bool_decide (body = [])) (UnexpectedBody kind (length body)) in
  inr input.

Definition input_decode (data : list Z) : stx SystemTxInputV2 :=
  if (length data <? 5)%nat then inl (InputTooShort (length data))
  else
    let+ bytes := selector_from_input data in
    let+ kind := system_tx_kind_from_selector bytes in
    let version := nth 4 data 0 in
    let+ _ := erequire (version =? SYSTEM_TX_INPUT_VERSION) (UnsupportedVersion version) in
    let body := drop 5 data in
    match kind with
    | CertifiedParentAccounting =>
        let+ metadata := from_precompile (metadata_decode body) in
        inr (CertifiedParentAccountingInput metadata)
    | LateFinalizeCredits =>
        let+ found := from_precompile (decode_late_finalize_credits_artifact body) in
        inr (LateFinalizeCreditsInput (default [] found))
    | OcompLifecycleBegin => no_body kind body OcompLifecycleBeginInput
    | CycleTick => no_body kind body CycleTickInput
    | RewardsGemDelivery => no_body kind body RewardsGemDeliveryInput
    | OracleSlashWindow => no_body kind body OracleSlashWindowInput
    | HookEvents => no_body kind body HookEventsInput
    | OcompTerminalRequest => no_body kind body OcompTerminalRequestInput
    | BoundaryOutcome =>
        let+ found := from_precompile (decode_boundary_artifact body) in
        let+ artifact := eok_or found MissingBoundaryOutcomeBody in
        inr (BoundaryOutcomeInput artifact)
    | TeeBootstrap =>
        let+ payload := from_codec (TeeBootstrapV2_decode body) in
        inr (TeeBootstrapInput payload)
    end.

(** * Transactions *)

Definition is_reserved_system_tx (tx : TransactionSigned) : bool :=
  bool_decide (tx_to tx = Some OUTBE_SYSTEM_TX_ADDRESS).

Definition decode_system_tx_kind (tx : TransactionSigned) : stx SystemTxKind :=
  let+ input := input_decode (tx_input tx) in inr (input_kind input).

Definition system_tx_nonce (block_number ordinal : Z) : stx Z :=
  if MAX_SYSTEM_TXS_PER_BLOCK <=? ordinal
  then inl (OrdinalTooLarge ordinal MAX_SYSTEM_TXS_PER_BLOCK)
  else eok_or (match checked_mul u64_max block_number MAX_SYSTEM_TXS_PER_BLOCK with
               | Some base => checked_add u64_max base ordinal
               | None => None
               end) (NonceOverflow block_number ordinal).

Definition byte_gas (byte : Z) : Z :=
  if byte =? 0 then SYSTEM_TX_ZERO_BYTE_GAS else SYSTEM_TX_NON_ZERO_BYTE_GAS.
Definition system_tx_intrinsic_gas (calldata : list Z) : stx Z :=
  eok_or (fold_left (fun gas byte => match gas with
                                     | Some gas => checked_add u64_max gas (byte_gas byte)
                                     | None => None
                                     end) calldata (Some SYSTEM_TX_VISIBLE_GAS_FLOOR))
    (VisibleGasOverflow (length calldata)).
Definition system_tx_visible_gas_limit (calldata : list Z) : stx Z := system_tx_intrinsic_gas calldata.

Definition build_unsigned_system_tx_with_gas_limit (kind : SystemTxKind)
    (ordinal block_number chain_id : Z) (calldata : list Z) (gas_limit : Z) : stx TxLegacy :=
  let+ input := input_decode calldata in
  let actual := input_kind input in
  let+ _ := erequire (bool_decide (actual = kind)) (CalldataKindMismatch kind actual) in
  let+ intrinsic_gas := system_tx_intrinsic_gas calldata in
  let+ _ := erequire (negb (gas_limit <? intrinsic_gas)) (GasLimitBelowIntrinsic gas_limit intrinsic_gas) in
  let+ nonce := system_tx_nonce block_number ordinal in
  inr (mkTxLegacy (Some chain_id) nonce 0 gas_limit (Some OUTBE_SYSTEM_TX_ADDRESS) 0 calldata).

Definition build_unsigned_system_tx (kind : SystemTxKind) (ordinal block_number chain_id : Z)
    (calldata : list Z) : stx TxLegacy :=
  let+ gas_limit := system_tx_intrinsic_gas calldata in
  build_unsigned_system_tx_with_gas_limit kind ordinal block_number chain_id calldata gas_limit.

(** * The signed Phase 1 transaction *)

Section Phase1.
Context {T : Alloy}.

Definition validate_phase1_envelope_shape (tx : TransactionSigned) (calldata : list Z)
    (chain_id block_number : Z) : stx B256 :=
  let+ _ := erequire (is_reserved_system_tx tx) Phase1WrongRecipient in
  let+ _ := erequire (tx_value tx =? 0) Phase1NonZeroValue in
  let+ _ := erequire (bool_decide (tx_chain_id tx = Some chain_id))
    (Phase1ChainIdMismatch chain_id (tx_chain_id tx)) in
  let+ expected_nonce := system_tx_nonce block_number 0 in
  let+ _ := erequire (tx_nonce tx =? expected_nonce) (Phase1NonceMismatch expected_nonce (tx_nonce tx)) in
  let+ expected_gas_limit := system_tx_visible_gas_limit calldata in
  let+ _ := erequire (tx_gas_limit tx =? expected_gas_limit)
    (Phase1GasLimitMismatch expected_gas_limit (tx_gas_limit tx)) in
  let+ _ := erequire (bool_decide (tx_input tx = calldata)) Phase1CalldataMismatch in
  let+ input := input_decode calldata in
  let actual := input_kind input in
  let+ _ := erequire (bool_decide (actual = CertifiedParentAccounting))
    (CalldataKindMismatch CertifiedParentAccounting actual) in
  let+ expected_unsigned :=
    build_unsigned_system_tx CertifiedParentAccounting 0 block_number chain_id calldata in
  let+ _ := erequire (tx_signature_hash tx =? legacy_signature_hash expected_unsigned)
    Phase1SignatureHashMismatch in
  inr (tx_signature_hash tx).

Definition validate_phase1_witness_against (tx : TransactionSigned) (expected_calldata : list Z)
    (expected_proposer : Address) (chain_id block_number : Z) : stx B256 :=
  let+ tx_hash := validate_phase1_envelope_shape tx expected_calldata chain_id block_number in
  let+ signer := eok_or (tx_try_recover tx) Phase1SignatureRecovery in
  let+ _ := erequire (signer =? expected_proposer) (Phase1SignerMismatch expected_proposer signer) in
  inr tx_hash.

Definition recover_phase1_proposer (tx_bytes : list Z) (chain_id block_number : Z) :
    stx (Address * list Z) :=
  let+ decoded := eok_or (decode_2718 tx_bytes) Phase1TxDecode in
  let '(tx, rest) := decoded in
  let+ _ := erequire (bool_decide (rest = [])) Phase1TxDecode in
  let calldata := tx_input tx in
  let+ _ := validate_phase1_envelope_shape tx calldata chain_id block_number in
  let+ proposer := eok_or (tx_try_recover tx) Phase1SignatureRecovery in
  inr (proposer, calldata).
End Phase1.

(** * Block layout *)

Record SystemTxLayout : Type := mkLayout {
  begin : list TransactionSigned;
  user : list TransactionSigned;
  finish : list TransactionSigned }.

Definition system_tx_count (layout : SystemTxLayout) : nat :=
  length (begin layout) + length (finish layout).
Definition begin_block_kinds (layout : SystemTxLayout) : stx (list SystemTxKind) :=
  emap (begin layout) decode_system_tx_kind.
Definition end_block_kinds (layout : SystemTxLayout) : stx (list SystemTxKind) :=
  emap (finish layout) decode_system_tx_kind.
Definition has_begin_kind (layout : SystemTxLayout) (kind : SystemTxKind) : bool :=
  match begin_block_kinds layout with
  | inr kinds => bool_decide (kind ∈ kinds)
  | inl _ => false
  end.

Definition ensure_system_tx_in_zone (kind : SystemTxKind) (actual : BodyZone) : stx unit :=
  erequire (bool_decide (body_zone kind = actual)) (SystemTxInWrongZone kind (body_zone kind) actual).

Definition ensure_monotonic (zone : BodyZone) (previous : option SystemTxKind)
    (current : SystemTxKind) : stx unit :=
  match previous with
  | None => inr tt
  | Some previous =>
      let+ previous_order := eok_or (order_in previous zone)
        (SystemTxInWrongZone previous (body_zone previous) zone) in
      let+ current_order := eok_or (order_in current zone)
        (SystemTxInWrongZone current (body_zone current) zone) in
      erequire (negb (current_order <=? previous_order)) (OutOfOrder zone previous current)
  end.

(** The prefix loop: the begin zone and the remaining transactions. *)
Fixpoint split_prefix (previous : option SystemTxKind) (txs : list TransactionSigned) :
    stx (list TransactionSigned * list TransactionSigned) :=
  match txs with
  | [] => inr ([], [])
  | tx :: rest =>
      if negb (is_reserved_system_tx tx) then inr ([], txs)
      else
        let+ kind := decode_system_tx_kind tx in
        if bool_decide (body_zone kind = EndBlock) then inr ([], txs)
        else
          let+ _ := ensure_system_tx_in_zone kind BeginBlock in
          let+ _ := ensure_monotonic BeginBlock previous kind in
          let+ split := split_prefix (Some kind) rest in
          inr (tx :: split.1, split.2)
  end.

(** The suffix loop, on the remaining transactions from the last one on: the
    entries in the order they are pushed, and the transactions before them. *)
Fixpoint split_suffix (reversed : list TransactionSigned) :
    stx (list (TransactionSigned * SystemTxKind) * list TransactionSigned) :=
  match reversed with
  | [] => inr ([], [])
  | tx :: rest =>
      if negb (is_reserved_system_tx tx) then inr ([], reversed)
      else
        let+ kind := decode_system_tx_kind tx in
        let+ _ := ensure_system_tx_in_zone kind EndBlock in
        let+ split := split_suffix rest in
        inr ((tx, kind) :: split.1, split.2)
  end.

Fixpoint check_suffix (previous : option SystemTxKind)
    (entries : list (TransactionSigned * SystemTxKind)) : stx (list TransactionSigned) :=
  match entries with
  | [] => inr []
  | (tx, kind) :: rest =>
      let+ _ := ensure_monotonic EndBlock previous kind in
      let+ txs := check_suffix (Some kind) rest in
      inr (tx :: txs)
  end.

Fixpoint check_user (index : nat) (txs : list TransactionSigned) : stx unit :=
  match txs with
  | [] => inr tt
  | tx :: rest =>
      let+ _ := erequire (negb (is_reserved_system_tx tx)) (MidBlockSystemTx index) in
      check_user (S index) rest
  end.

Definition split_system_layout (txs : list TransactionSigned) : stx SystemTxLayout :=
  let+ prefix := split_prefix None txs in
  let+ suffix := split_suffix (reverse prefix.2) in
  let+ finish_txs := check_suffix None (reverse suffix.1) in
  let user_txs := reverse suffix.2 in
  let+ _ := check_user (length prefix.1) user_txs in
  inr (mkLayout prefix.1 user_txs finish_txs).

Definition expected_begin_block_kinds_for_activation (block_number : Z)
    (has_boundary_outcome has_tee_bootstrap : bool)
    (ocomp_activation : OcompLifecycleActivation) : list SystemTxKind :=
  (if (block_number =? 0) || (block_number =? 1) then []
   else [CertifiedParentAccounting; LateFinalizeCredits])
  ++ (if (0 <? block_number) && is_active_at ocomp_activation block_number
      then [OcompLifecycleBegin] else [])
  ++ (if 0 <? block_number then [CycleTick; RewardsGemDelivery] else [])
  ++ (if (0 <? block_number) && has_boundary_outcome then [BoundaryOutcome] else [])
  ++ (if (0 <? block_number) && has_tee_bootstrap then [TeeBootstrap] else [])
  ++ (if 0 <? block_number then [OracleSlashWindow; HookEvents] else []).

Definition expected_end_block_kinds (block_number : Z) (ocomp_activation : OcompLifecycleActivation) :
    list SystemTxKind :=
  if (0 <? block_number) && is_active_at ocomp_activation block_number
  then [OcompTerminalRequest] else [].

Definition validate_system_tx_set_for_activation (layout : SystemTxLayout) (block_number : Z)
    (has_boundary_outcome has_tee_bootstrap : bool)
    (ocomp_activation : OcompLifecycleActivation) : stx unit :=
  let actual := system_tx_count layout in
  let+ _ := erequire (Z.of_nat actual <=? MAX_SYSTEM_TXS_PER_BLOCK)
    (TooManySystemTxs actual MAX_SYSTEM_TXS_PER_BLOCK) in
  let+ _ := erequire (negb ((block_number =? 1) && negb has_boundary_outcome))
    V2Block1MissingBoundaryOutcome in
  let+ _ := erequire (negb ((block_number =? 1) && negb has_tee_bootstrap))
    V2Block1MissingTeeBootstrap in
  let+ _ := erequire (negb (negb (block_number =? 1) && has_tee_bootstrap))
    (TeeBootstrapWrongHeight block_number) in
  let+ _ := erequire (negb ((block_number =? 1) && negb (bool_decide (user layout = []))))
    (V2Block1ContainsUserTransactions (length (user layout))) in
  let expected_begin := expected_begin_block_kinds_for_activation block_number
                          has_boundary_outcome has_tee_bootstrap ocomp_activation in
  let expected_end := expected_end_block_kinds block_number ocomp_activation in
  let+ actual_begin := begin_block_kinds layout in
  let+ actual_end := end_block_kinds layout in
  erequire (bool_decide (actual_begin = expected_begin) && bool_decide (actual_end = expected_end))
    (ActiveSystemTxSetMismatch expected_begin expected_end actual_begin actual_end).

Definition validate_active_system_tx_set (layout : SystemTxLayout) (block_number : Z)
    (has_boundary_outcome has_tee_bootstrap : bool) : stx unit :=
  validate_system_tx_set_for_activation layout block_number has_boundary_outcome
    has_tee_bootstrap Disabled.

(** * The visible gas plan *)

Record SystemTxVisibleGasEntry : Type := mkGasEntry {
  intrinsic_gas : Z;
  entry_protocol_precharge : Z;
  gas_limit : Z }.
Record SystemTxVisibleGasPlan : Type := mkGasPlan {
  entries : list SystemTxVisibleGasEntry;
  total_envelope_gas : Z }.

Definition system_tx_ce_gas_reserve (kind : SystemTxKind) : Z :=
  match kind with OcompLifecycleBegin => OCOMP_LIFECYCLE_CE_GAS_RESERVE | _ => 0 end.
Definition system_tx_protocol_precharge (input : SystemTxInputV2) : stx Z :=
  match input with
  | TeeBootstrapInput payload =>
      from_codec (protocol_precharge payload SystemGasScheduleV1_normative TeeRegistryGasScheduleV1_normative)
  | _ => inr 0
  end.

Definition plan_entry (block_gas_limit : Z) (kind : SystemTxKind) (calldata : list Z)
    (decoded : SystemTxInputV2) : stx SystemTxVisibleGasEntry :=
  let+ intrinsic := system_tx_intrinsic_gas calldata in
  let+ precharge := system_tx_protocol_precharge decoded in
  let reserve := system_tx_ce_gas_reserve kind in
  let+ limit := eok_or (match checked_add u64_max intrinsic precharge with
                        | Some gas => checked_add u64_max gas reserve
                        | None => None
                        end) (VisibleGasPlanExceedsBlock u64_max block_gas_limit) in
  inr (mkGasEntry intrinsic precharge limit).

(** The loop of [new]: the position, the entries so far, their total and the
    position of [CycleTick]. *)
Fixpoint plan_loop (block_gas_limit : Z) (ordinal : nat) (acc : list SystemTxVisibleGasEntry)
    (required_total : Z) (cycle_ordinal : option nat) (txs : list (SystemTxKind * list Z)) :
    stx (list SystemTxVisibleGasEntry * Z * option nat) :=
  match txs with
  | [] => inr (acc, required_total, cycle_ordinal)
  | (kind, calldata) :: rest =>
      let+ decoded := input_decode calldata in
      let actual := input_kind decoded in
      let+ _ := erequire (bool_decide (actual = kind)) (CalldataKindMismatch kind actual) in
      let is_cycle := bool_decide (kind = CycleTick) in
      let+ _ := erequire (negb (is_cycle && bool_decide (is_Some cycle_ordinal)))
        DuplicateCycleTickGasBudget in
      let+ entry := plan_entry block_gas_limit kind calldata decoded in
      let+ total := eok_or (checked_add u64_max required_total (gas_limit entry))
        (VisibleGasPlanExceedsBlock u64_max block_gas_limit) in
      plan_loop block_gas_limit (S ordinal) (acc ++ [entry]) total
        (if is_cycle then Some ordinal else cycle_ordinal) rest
  end.

Definition gas_plan_new (block_gas_limit : Z) (system_txs : list (SystemTxKind * list Z)) :
    stx SystemTxVisibleGasPlan :=
  let+ loop := plan_loop block_gas_limit 0 [] 0 None system_txs in
  let '(planned, required_total, cycle_ordinal) := loop in
  let+ remainder := eok_or (checked_sub block_gas_limit required_total)
    (VisibleGasPlanExceedsBlock required_total block_gas_limit) in
  match cycle_ordinal with
  | Some ordinal =>
      let+ entry := eok_or (planned !! ordinal) DuplicateCycleTickGasBudget in
      let+ limit := eok_or (checked_add u64_max (gas_limit entry) remainder)
        (VisibleGasPlanExceedsBlock required_total block_gas_limit) in
      inr (mkGasPlan (<[ordinal := mkGasEntry (intrinsic_gas entry)
                                     (entry_protocol_precharge entry) limit]> planned)
             block_gas_limit)
  | None => inr (mkGasPlan planned required_total)
  end.

Definition plan_gas_limit (plan : SystemTxVisibleGasPlan) (ordinal : nat) : option Z :=
  gas_limit <$> entries plan !! ordinal.
Definition plan_ce_gas_limit (plan : SystemTxVisibleGasPlan) (ordinal : nat) : option Z :=
  (fun entry => wrapping_sub u64_max (wrapping_sub u64_max (gas_limit entry) (intrinsic_gas entry))
                  (entry_protocol_precharge entry)) <$> entries plan !! ordinal.
End Inputs.

(** * The executor's cursor *)

Inductive SystemTxPhase : Type :=
  | AtPhase1Preexecuted (body_index : Z) (tx_hash : B256) (receipt_index : Z)
  | AtLateFinalizeCredits (body_index : Z)
  | AtOcompLifecycleBegin (body_index : Z)
  | AtCycleTick (body_index : Z)
  | AtRewardsGemDelivery (body_index : Z)
  | AtBoundaryOutcomeOptional (body_index : Z)
  | AtTeeBootstrapOptional (body_index : Z)
  | AtOracleSlashWindow (body_index : Z)
  | AtHookEvents (body_index : Z)
  | UserTxs.

Definition initial_for_block_with_ocomp (block_number genesis_bootstrap_block_number : Z)
    (ocomp_lifecycle_active : bool) : SystemTxPhase :=
  if (genesis_bootstrap_block_number <? block_number)
     && (GENESIS_BOOTSTRAP_BLOCK_NUMBER <? block_number)
  then AtPhase1Preexecuted 0 0 0
  else if (0 <? block_number) && ocomp_lifecycle_active then AtOcompLifecycleBegin 0
  else AtCycleTick 0.

Definition expected_kind (phase : SystemTxPhase) : option SystemTxKind :=
  match phase with
  | AtPhase1Preexecuted _ _ _ => Some CertifiedParentAccounting
  | AtLateFinalizeCredits _ => Some LateFinalizeCredits
  | AtOcompLifecycleBegin _ => Some OcompLifecycleBegin
  | AtCycleTick _ => Some CycleTick
  | AtRewardsGemDelivery _ => Some RewardsGemDelivery
  | AtBoundaryOutcomeOptional _ => Some BoundaryOutcome
  | AtTeeBootstrapOptional _ => Some TeeBootstrap
  | AtOracleSlashWindow _ => Some OracleSlashWindow
  | AtHookEvents _ => Some HookEvents
  | UserTxs => None
  end.

Definition body_index (phase : SystemTxPhase) : option Z :=
  match phase with
  | AtPhase1Preexecuted i _ _ | AtLateFinalizeCredits i | AtOcompLifecycleBegin i | AtCycleTick i
  | AtRewardsGemDelivery i | AtBoundaryOutcomeOptional i | AtTeeBootstrapOptional i
  | AtOracleSlashWindow i | AtHookEvents i => Some i
  | UserTxs => None
  end.

Definition advance_after_commit_with_ocomp (phase : SystemTxPhase)
    (has_boundary_outcome has_tee_bootstrap ocomp_lifecycle_active : bool) : SystemTxPhase :=
  let next i := wrapping_add u8_max i 1 in
  match phase with
  | AtPhase1Preexecuted i _ _ => AtLateFinalizeCredits (next i)
  | AtLateFinalizeCredits i =>
      if ocomp_lifecycle_active then AtOcompLifecycleBegin (next i) else AtCycleTick (next i)
  | AtOcompLifecycleBegin i => AtCycleTick (next i)
  | AtCycleTick i => AtRewardsGemDelivery (next i)
  | AtRewardsGemDelivery i =>
      if has_boundary_outcome then AtBoundaryOutcomeOptional (next i)
      else if has_tee_bootstrap then AtTeeBootstrapOptional (next i)
      else AtOracleSlashWindow (next i)
  | AtBoundaryOutcomeOptional i =>
      if has_tee_bootstrap then AtTeeBootstrapOptional (next i) else AtOracleSlashWindow (next i)
  | AtTeeBootstrapOptional i => AtOracleSlashWindow (next i)
  | AtOracleSlashWindow i => AtHookEvents (next i)
  | AtHookEvents _ | UserTxs => UserTxs
  end.
