(* ===== verification/SystemTxProps.v ===== *)
(** What the system-transaction rules guarantee: the accepted block layouts are
    exactly the scheduled ones, the executor's cursor walks that schedule, the
    gas plan spends exactly its budget, and nonces never repeat. *)

From S2P Require Import Prelude Bytes Wire WireProps Artifacts ArtifactsProps TeeAttestation TeeAttestationProps TeeBootstrap TeeBootstrapProps TeeExample SystemTx.

(** * The schedule *)

(** Each kind of a list may follow the one before it. *)
Fixpoint scheduled (zone : BodyZone) (previous : option SystemTxKind) (kinds : list SystemTxKind) :
    Prop :=
  match kinds with
  | [] => True
  | kind :: rest =>
      body_zone kind = zone /\ ensure_monotonic zone previous kind = inr tt
      /\ scheduled zone (Some kind) rest
  end.

Lemma expected_begin_scheduled n hb ht act :
  scheduled BeginBlock None (expected_begin_block_kinds_for_activation n hb ht act).
Proof.
  unfold expected_begin_block_kinds_for_activation.
  destruct (_ || _), (0 <? n), (is_active_at _ _), hb, ht; simpl; repeat split.
Qed.

Lemma expected_lengths n hb ht act :
  (length (expected_begin_block_kinds_for_activation n hb ht act)
   + length (expected_end_block_kinds n act) <= 10)%nat.
Proof.
  unfold expected_begin_block_kinds_for_activation, expected_end_block_kinds.
  destruct (_ || _), (0 <? n), (is_active_at _ _), hb, ht; simpl; lia.
Qed.

(** * Splitting a block *)

Section Layout.
Context {H : Keccak} {E : TeeCrypto}.

Abbreviation reserved tx := (is_reserved_system_tx tx = true).
Abbreviation ordinary tx := (is_reserved_system_tx tx = false).
Abbreviation kinds_of txs kinds := (Forall2 (fun tx kind => decode_system_tx_kind tx = inr kind) txs kinds).

Lemma split_prefix_ok txs : forall previous b r,
  split_prefix previous txs = inr (b, r) -> txs = b ++ r /\ Forall (fun tx => reserved tx) b.
Proof.
  induction txs as [|tx txs IH]; intros previous b r Hs; simpl in Hs; [by simplify_eq|].
  destruct (is_reserved_system_tx tx) eqn:Hr; simpl in Hs; [|by simplify_eq].
  apply ebind_inr in Hs as (kind & _ & Hs). case_bool_decide; [by simplify_eq|].
  do 2 estep Hs. apply ebind_inr in Hs as ([b' r'] & Hrec & [= <- <-]).
  apply IH in Hrec as [-> Hb]. split; [done|by constructor].
Qed.

Lemma split_suffix_ok txs : forall es r,
  split_suffix txs = inr (es, r) -> txs = es.*1 ++ r /\ Forall (fun e => reserved e.1) es.
Proof.
  induction txs as [|tx txs IH]; intros es r Hs; simpl in Hs; [by simplify_eq|].
  destruct (is_reserved_system_tx tx) eqn:Hr; simpl in Hs; [|by simplify_eq].
  apply ebind_inr in Hs as (kind & _ & Hs). estep Hs.
  apply ebind_inr in Hs as ([es' r'] & Hrec & [= <- <-]).
  apply IH in Hrec as [-> Hb]. split; [done|by constructor].
Qed.

Lemma check_suffix_ok es : forall previous txs, check_suffix previous es = inr txs -> txs = es.*1.
Proof.
  induction es as [|[tx kind] es IH]; intros previous txs Hc; simpl in Hc; [by simplify_eq|].
  estep Hc. apply ebind_inr in Hc as (rest & Hrec & [= <-]). apply IH in Hrec as ->. done.
Qed.

Lemma check_user_ok txs : forall i, check_user i txs = inr tt <-> Forall (fun tx => ordinary tx) txs.
Proof.
  induction txs as [|tx txs IH]; intros i; simpl; [by split; [constructor|]|].
  destruct (is_reserved_system_tx tx) eqn:Hr; simpl.
  - split; [done|]. inversion 1. congruence.
  - rewrite (IH (S i)). split; [by constructor|by inversion 1].
Qed.

Lemma split_layout_ok txs layout :
  split_system_layout txs = inr layout ->
  txs = begin layout ++ user layout ++ finish layout
  /\ Forall (fun tx => reserved tx) (begin layout ++ finish layout)
  /\ Forall (fun tx => ordinary tx) (user layout).
Proof.
  unfold split_system_layout. intros Hs.
  apply ebind_inr in Hs as ([b r] & [-> Hb]%split_prefix_ok & Hs).
  apply ebind_inr in Hs as ([es u] & [Hr Hes]%split_suffix_ok & Hs).
  apply ebind_inr in Hs as (f & ->%check_suffix_ok & Hs).
  apply ebind_inr in Hs as ([] & Hu%check_user_ok & [= <-]). simpl in *.
  rewrite fmap_reverse. split_and!; [|apply Forall_app; split; [done|]|done].
  - rewrite <- (reverse_involutive r), Hr, reverse_app. done.
  - apply Forall_reverse. by apply Forall_fmap.
Qed.

(** The prefix loop takes a scheduled begin zone and stops where it ends. *)
Lemma split_prefix_run b : forall previous kinds r,
  kinds_of b kinds -> Forall (fun tx => reserved tx) b -> scheduled BeginBlock previous kinds ->
  match r with
  | [] => True
  | tx :: _ => ordinary tx
      \/ exists kind, decode_system_tx_kind tx = inr kind /\ body_zone kind = EndBlock
  end -> split_prefix previous (b ++ r) = inr (b, r).
Proof.
  induction b as [|tx b IH]; intros previous kinds r Hk Hres Hs Hr.
  - simpl. destruct r as [|tx r]; [done|]. simpl. destruct Hr as [->|(kind & Hd & Hz)]; [done|].
    destruct (is_reserved_system_tx tx); simpl; [|done]. rewrite Hd. simpl.
    by rewrite bool_decide_true.
  - inversion Hk as [|? kind ? kinds' Hd Hk']; subst. apply Forall_cons in Hres as [Ht Hres].
    destruct Hs as (Hz & Hm & Hs). simpl. rewrite Ht. simpl. rewrite Hd. simpl.
    rewrite Hz. simpl. unfold ensure_system_tx_in_zone. rewrite bool_decide_true by done. simpl.
    rewrite Hm. simpl. by rewrite (IH _ kinds' r).
Qed.

Lemma split_suffix_stop u : Forall (fun tx => ordinary tx) u -> split_suffix u = inr ([], u).
Proof. destruct u as [|tx u]; [done|]. intros [Ht _]%Forall_cons. simpl. by rewrite Ht. Qed.

(** The end zone holds at most the terminal request. *)
Lemma split_suffix_run n act f u :
  kinds_of f (expected_end_block_kinds n act) -> Forall (fun tx => reserved tx) f ->
  Forall (fun tx => ordinary tx) u ->
  exists es, split_suffix (reverse f ++ u) = inr (es, u) /\ check_suffix None (reverse es) = inr f.
Proof.
  unfold expected_end_block_kinds. intros Hk Hf Hu. destruct (_ && _).
  - inversion Hk as [|tx ? ? ? Hd Hn]; subst. inversion Hn; subst.
    apply Forall_cons in Hf as [Ht _]. exists [(tx, OcompTerminalRequest)]. split; [|done].
    simpl. rewrite Ht. simpl. rewrite Hd. simpl. by rewrite split_suffix_stop.
  - inversion Hk; subst. exists []. split; [|done]. by apply split_suffix_stop.
Qed.

Lemma split_layout_run n hb ht act b u f :
  kinds_of b (expected_begin_block_kinds_for_activation n hb ht act) ->
  kinds_of f (expected_end_block_kinds n act) ->
  Forall (fun tx => reserved tx) (b ++ f) -> Forall (fun tx => ordinary tx) u ->
  split_system_layout (b ++ u ++ f) = inr (mkLayout b u f).
Proof.
  intros Hb Hf [Hrb Hrf]%Forall_app Hu. unfold split_system_layout.
  rewrite (split_prefix_run b None _ (u ++ f) Hb Hrb); [|apply expected_begin_scheduled|].
  - destruct (split_suffix_run n act f (reverse u) Hf Hrf) as (es & Hs & Hc);
      [by apply Forall_reverse|].
    simpl. rewrite reverse_app, Hs. simpl. rewrite Hc. simpl. rewrite reverse_involutive.
    by rewrite (proj2 (check_user_ok u _) Hu).
  - destruct u as [|tx u]; simpl; [|left; by apply Forall_cons in Hu as [? _]].
    unfold expected_end_block_kinds in Hf. destruct (_ && _); inversion Hf; subst; [|done].
    right. by exists OcompTerminalRequest.
Qed.

(** What a block must look like. *)
Record well_laid_out (n : Z) (hb ht : bool) (act : OcompLifecycleActivation)
    (txs : list TransactionSigned) (layout : SystemTxLayout) : Prop := {
  wl_parts : txs = begin layout ++ user layout ++ finish layout;
  wl_begin : kinds_of (begin layout) (expected_begin_block_kinds_for_activation n hb ht act);
  wl_end : kinds_of (finish layout) (expected_end_block_kinds n act);
  wl_system : Forall (fun tx => reserved tx) (begin layout ++ finish layout);
  wl_user : Forall (fun tx => ordinary tx) (user layout);
  wl_genesis : n = 1 -> hb = true /\ user layout = [];
  wl_bootstrap : ht = bool_decide (n = 1) }.

Definition accept_layout (n : Z) (hb ht : bool) (act : OcompLifecycleActivation)
    (txs : list TransactionSigned) : stx SystemTxLayout :=
  let+ layout := split_system_layout txs in
  let+ _ := validate_system_tx_set_for_activation layout n hb ht act in
  inr layout.

Lemma validate_set_iff layout n hb ht act :
  validate_system_tx_set_for_activation layout n hb ht act = inr tt <->
  kinds_of (begin layout) (expected_begin_block_kinds_for_activation n hb ht act)
  /\ kinds_of (finish layout) (expected_end_block_kinds n act)
  /\ (n = 1 -> hb = true /\ user layout = []) /\ ht = bool_decide (n = 1).
Proof.
  unfold validate_system_tx_set_for_activation, begin_block_kinds, end_block_kinds. split.
  - intros Hv. do 5 estep Hv.
    apply ebind_inr in Hv as (ab & Hab%emap_inr & Hv).
    apply ebind_inr in Hv as (ae & Hae%emap_inr & Hv). apply erequire_inr in Hv. bprop. subst.
    split_and!; try done.
    + intros ->. destruct He0 as [?|He0], He3 as [?|He3]; try done. by bprop.
    + destruct (Z.eqb_spec n 1) as [->|Hn]; simpl in *.
      * destruct He1 as [?|He1]; [done|]. by bprop.
      * rewrite bool_decide_false by done. by destruct He2.
  - intros (Hb & He & Hg & ->). pose proof (expected_lengths n hb (bool_decide (n = 1)) act) as Hlen.
    rewrite <- (Forall2_length _ _ _ Hb), <- (Forall2_length _ _ _ He) in Hlen.
    unfold system_tx_count, MAX_SYSTEM_TXS_PER_BLOCK.
    rewrite (proj2 (Z.leb_le _ _)) by lia. simpl.
    apply emap_inr in Hb, He. destruct (Z.eqb_spec n 1) as [->|Hn]; simpl.
    + destruct (Hg eq_refl) as [-> Hu]. simpl in *. rewrite Hu. simpl. rewrite Hb. simpl.
      rewrite He. simpl. by rewrite !bool_decide_true.
    + rewrite (bool_decide_false _ Hn) in *. simpl. rewrite Hb. simpl. rewrite He. simpl.
      by rewrite !bool_decide_true.
Qed.

(** C11. A block body is accepted with a layout exactly when it is that layout laid
    out on the schedule of its height: the begin zone has precisely the expected
    kinds in their order, the end zone the terminal request where the lifecycle
    is active, no user transaction is a system transaction, and the bootstrap
    block carries the boundary, the TEE bootstrap and no user transaction. *)
Theorem block_layout_exact n hb ht act txs layout :
  accept_layout n hb ht act txs = inr layout <-> well_laid_out n hb ht act txs layout.
Proof.
  unfold accept_layout. split.
  - intros Ha. apply ebind_inr in Ha as (l & (Hp & Hs & Hu)%split_layout_ok & Ha).
    apply ebind_inr in Ha as ([] & (Hb & He & Hg & Ht)%validate_set_iff & [= <-]).
    by constructor.
  - intros [-> Hb He Hs Hu Hg Ht]. destruct layout as [b u f]. simpl in *.
    rewrite (split_layout_run n hb ht act) by done. simpl.
    by rewrite (proj2 (validate_set_iff (mkLayout b u f) n hb ht act)).
Qed.
End Layout.

(** * The cursor *)

Definition cursor_at (n : Z) (hb ht : bool) (act : OcompLifecycleActivation) (k : nat) :
    SystemTxPhase :=
  let ocomp := is_active_at act n in
  Nat.iter k (fun phase => advance_after_commit_with_ocomp phase hb ht ocomp)
    (initial_for_block_with_ocomp n GENESIS_BOOTSTRAP_BLOCK_NUMBER ocomp).

Lemma cursor_stays n hb ht act k j :
  cursor_at n hb ht act k = UserTxs -> (k <= j)%nat -> cursor_at n hb ht act j = UserTxs.
Proof.
  unfold cursor_at. intros Hk Hj. replace j with (j - k + k)%nat by lia.
  rewrite Nat.iter_add, Hk. generalize (j - k)%nat as m. induction m as [|m IH]; [done|].
  simpl. by rewrite IH.
Qed.

(** The executor's cursor walks the schedule: from the start of any block above
    genesis, after [k] commits it expects exactly the [k]-th kind of the block's
    begin zone at body index [k], and once the zone is consumed it is at the user
    transactions and stays there. *)
Theorem cursor_follows_schedule n hb ht act k :
  0 < n ->
  match expected_begin_block_kinds_for_activation n hb ht act !! k with
  | Some kind => expected_kind (cursor_at n hb ht act k) = Some kind
                 /\ body_index (cursor_at n hb ht act k) = Some (Z.of_nat k)
  | None => cursor_at n hb ht act k = UserTxs
  end.
Proof.
  intros Hn. destruct (le_lt_dec 10 k) as [Hk|Hk].
  - rewrite lookup_ge_None_2.
    + apply (cursor_stays _ _ _ _ 10); [|done].
      unfold cursor_at, initial_for_block_with_ocomp, GENESIS_BOOTSTRAP_BLOCK_NUMBER.
      destruct (1 <? n), (0 <? n), (is_active_at act n), hb, ht; done.
    + pose proof (expected_lengths n hb ht act). lia.
  - unfold expected_begin_block_kinds_for_activation, cursor_at, initial_for_block_with_ocomp,
      GENESIS_BOOTSTRAP_BLOCK_NUMBER.
    rewrite (proj2 (Z.ltb_lt 0 n) Hn), (proj2 (Z.eqb_neq n 0)) by lia.
    destruct (Z.eqb_spec n 1) as [->|H1].
    + destruct (is_active_at act 1), hb, ht; do 10 (destruct k as [|k]; [by vm_compute|]); lia.
    + rewrite (proj2 (Z.ltb_lt 1 n)) by lia.
      destruct (is_active_at act n), hb, ht; do 10 (destruct k as [|k]; [by vm_compute|]); lia.
Qed.

Lemma cursor_follows_schedule_witness :
  expected_kind (cursor_at 2 true false Disabled 3) = Some RewardsGemDelivery.
Proof. exact (proj1 (cursor_follows_schedule 2 true false Disabled 3 eq_refl)). Defined.

(** * Nonces *)

Lemma system_tx_nonce_inr n i nonce :
  system_tx_nonce n i = inr nonce -> i < 16 /\ nonce = n * 16 + i /\ nonce <= u64_max.
Proof.
  unfold system_tx_nonce, MAX_SYSTEM_TXS_PER_BLOCK. case_match; [done|]. intros Hn%eok_or_inr.
  destruct (checked_mul _ _ _) as [base|] eqn:Hb; [|done].
  apply checked_mul_some in Hb as [-> _]. apply checked_add_some in Hn as [-> ?]. bprop. lia.
Qed.

(** No two system transactions of the chain share a nonce. *)
Lemma system_tx_nonce_inj n i n' i' nonce :
  0 <= i -> 0 <= i' -> system_tx_nonce n i = inr nonce -> system_tx_nonce n' i' = inr nonce ->
  n = n' /\ i = i'.
Proof.
  intros Hi Hi' (? & -> & _)%system_tx_nonce_inr (? & Heq & _)%system_tx_nonce_inr. lia.
Qed.

(** * The gas plan *)

Section GasPlan.
Context {H : Keccak} {E : TeeCrypto}.

Lemma from_codec_inr {A} (r : CodecError + A) a : from_codec r = inr a <-> r = inr a.
Proof. destruct r; simpl; naive_solver. Qed.

Definition gas_sum (l : list SystemTxVisibleGasEntry) : Z := foldr (fun e acc => gas_limit e + acc) 0 l.

(** An entry as planned for one transaction, before the remainder is placed. *)
Definition planned_for (tx : SystemTxKind * list Z) (e : SystemTxVisibleGasEntry) : Prop :=
  system_tx_intrinsic_gas tx.2 = inr (intrinsic_gas e)
  /\ 0 <= intrinsic_gas e /\ 0 <= entry_protocol_precharge e
  /\ gas_limit e = intrinsic_gas e + entry_protocol_precharge e + system_tx_ce_gas_reserve tx.1.

Lemma gas_sum_app l l' : gas_sum (l ++ l') = gas_sum l + gas_sum l'.
Proof. induction l as [|e l IH]; simpl; [done|]. rewrite IH. lia. Qed.

Lemma intrinsic_fold calldata : forall acc gas, 0 <= acc ->
  fold_left (fun gas byte => match gas with
                             | Some gas => checked_add u64_max gas (byte_gas byte)
                             | None => None
                             end) calldata (Some acc) = Some gas -> acc <= gas.
Proof.
  induction calldata as [|b calldata IH]; intros acc gas Hacc Hf; simpl in Hf; [by simplify_eq|].
  destruct (checked_add u64_max acc (byte_gas b)) as [acc'|] eqn:Ha.
  - apply checked_add_some in Ha as [-> _].
    assert (0 <= byte_gas b) by (unfold byte_gas; case_match; done).
    apply IH in Hf; lia.
  - clear -Hf. induction calldata as [|? ? IHc]; simpl in Hf; [done|by apply IHc].
Qed.
Lemma intrinsic_floor calldata gas :
  system_tx_intrinsic_gas calldata = inr gas -> SYSTEM_TX_VISIBLE_GAS_FLOOR <= gas.
Proof. intros Hg%eok_or_inr. by eapply intrinsic_fold. Qed.

Lemma plan_entry_ok limit kind calldata decoded e :
  plan_entry limit kind calldata decoded = inr e -> planned_for (kind, calldata) e.
Proof.
  unfold plan_entry. intros He.
  apply ebind_inr in He as (gas & Hg & He). apply ebind_inr in He as (pre & Hp & He).
  apply ebind_inr in He as (total & Ht%eok_or_inr & [= <-]).
  destruct (checked_add u64_max gas pre) as [sub|] eqn:Hs; [|done].
  apply checked_add_some in Hs as [-> _], Ht as [-> _].
  pose proof (intrinsic_floor _ _ Hg). unfold SYSTEM_TX_VISIBLE_GAS_FLOOR in *.
  unfold planned_for. simpl. split_and!; try done; [lia|].
  unfold system_tx_protocol_precharge in Hp. case_match; simplify_eq; try done.
  apply from_codec_inr, protocol_precharge_nonneg in Hp. lia.
Qed.

(** The recorded position is that of the one [CycleTick], if any. *)
Definition cycle_at (txs : list (SystemTxKind * list Z)) (cycle : option nat) : Prop :=
  (forall i tx, txs !! i = Some tx -> tx.1 = CycleTick <-> cycle = Some i)
  /\ (forall i, cycle = Some i -> (i < length txs)%nat).

Lemma cycle_snoc txs kind calldata cycle :
  cycle_at txs cycle -> negb (bool_decide (kind = CycleTick) && bool_decide (is_Some cycle)) = true ->
  cycle_at (txs ++ [(kind, calldata)])
    (if bool_decide (kind = CycleTick) then Some (length txs) else cycle).
Proof.
  intros [Hc Hb] Hone. split.
  - intros i tx [[Hi Ht]|[-> <-]]%lookup_snoc_Some; simpl.
    + rewrite (Hc _ _ Ht). case_bool_decide; [|done]. destruct cycle; [done|].
      split; [done|]. intros [=]. lia.
    + case_bool_decide as Hk; [done|]. split; [done|]. intros ->. specialize (Hb _ eq_refl). lia.
  - intros i. rewrite length_app. simpl. case_bool_decide; [intros [=]; lia|].
    intros Hi%Hb. lia.
Qed.

Lemma plan_loop_ok limit txs : forall acc total cycle acc' total' cycle' before,
  plan_loop limit (length before) acc total cycle txs = inr (acc', total', cycle') ->
  total = gas_sum acc -> Forall2 planned_for before acc -> cycle_at before cycle ->
  total' = gas_sum acc' /\ Forall2 planned_for (before ++ txs) acc'
  /\ cycle_at (before ++ txs) cycle'.
Proof.
  induction txs as [|[kind calldata] txs IH];
    intros acc total cycle acc' total' cycle' before Hl Ht Hf Hc; simpl in Hl.
  { simplify_eq. by rewrite app_nil_r. }
  apply ebind_inr in Hl as (decoded & _ & Hl). do 2 estep Hl.
  apply ebind_inr in Hl as (e & Hplan%plan_entry_ok & Hl).
  apply ebind_inr in Hl as (total2 & Hsum%eok_or_inr & Hl). apply checked_add_some in Hsum as [-> _].
  rewrite (cons_middle (kind, calldata) before txs), app_assoc. eapply IH.
  - rewrite length_app, Nat.add_1_r. exact Hl.
  - rewrite gas_sum_app. simpl. lia.
  - apply Forall2_app; [done|]. constructor; [done|constructor].
  - by apply cycle_snoc.
Qed.

Lemma gas_sum_insert l i e e' :
  l !! i = Some e -> gas_sum (<[i := e']> l) = gas_sum l - gas_limit e + gas_limit e'.
Proof.
  revert i. induction l as [|x l IH]; intros [|i] Hi; simpl in *; simplify_eq; [lia|].
  rewrite IH by done. lia.
Qed.

Lemma planned_nonneg txs es : Forall2 planned_for txs es -> Forall (fun e => 0 <= gas_limit e) es.
Proof.
  induction 1 as [|tx e txs es (_ & ? & ? & Hg) _ IH]; constructor; [|done].
  rewrite Hg. unfold system_tx_ce_gas_reserve. case_match; unfold OCOMP_LIFECYCLE_CE_GAS_RESERVE; lia.
Qed.
Lemma gas_sum_elem es i e :
  Forall (fun e => 0 <= gas_limit e) es -> es !! i = Some e -> gas_limit e <= gas_sum es.
Proof.
  intros Hes. revert i. induction Hes as [|x es Hx Hes IH]; intros i Hi; [done|].
  assert (0 <= gas_sum es) by (clear -Hes; induction Hes; simpl in *; lia).
  destruct i as [|i]; simpl in *; simplify_eq; [lia|]. specialize (IH _ Hi). lia.
Qed.

(** Nothing wraps in the budget of an entry that covers its charges. *)
Lemma ce_gas_limit_exact plan i e :
  entries plan !! i = Some e -> 0 <= intrinsic_gas e -> 0 <= entry_protocol_precharge e ->
  intrinsic_gas e + entry_protocol_precharge e <= gas_limit e <= u64_max ->
  plan_ce_gas_limit plan i = Some (gas_limit e - intrinsic_gas e - entry_protocol_precharge e).
Proof.
  intros Hi ???. unfold plan_ce_gas_limit. rewrite Hi. simpl.
  by rewrite !wrapping_sub_small by (rewrite ?wrapping_sub_small; lia).
Qed.

(** What the plan promises of the entry of one transaction. *)
Definition entry_budget (limit : Z) (plan : SystemTxVisibleGasPlan) (i : nat)
    (tx : SystemTxKind * list Z) : Prop :=
  exists e, entries plan !! i = Some e /\ system_tx_intrinsic_gas tx.2 = inr (intrinsic_gas e)
  /\ intrinsic_gas e + entry_protocol_precharge e <= gas_limit e
  /\ plan_ce_gas_limit plan i = Some (gas_limit e - intrinsic_gas e - entry_protocol_precharge e)
  /\ if decide (tx.1 = CycleTick) then total_envelope_gas plan = limit
     else plan_ce_gas_limit plan i = Some (system_tx_ce_gas_reserve tx.1).

Lemma planned_budget limit plan i tx e :
  entries plan !! i = Some e -> planned_for tx e -> gas_limit e <= u64_max -> tx.1 <> CycleTick ->
  entry_budget limit plan i tx.
Proof.
  intros Hi (Hg & ? & ? & Hl) Hmax Hk.
  assert (0 <= system_tx_ce_gas_reserve tx.1)
    by (unfold system_tx_ce_gas_reserve; case_match; done).
  assert (Hce := ce_gas_limit_exact plan i e Hi). exists e. rewrite decide_False by done.
  rewrite Hce by lia. split_and!; try done; [lia|]. f_equal. lia.
Qed.

(** C12. The visible gas plan spends exactly its budget: the gas limits of the
    entries add up to the plan's total, which fits the block; each entry covers
    its intrinsic gas and precharge, and what is left for compressed entities is
    the phase's reserve, except for [CycleTick], which gets the whole remainder of
    the block. *)
Theorem gas_plan_exact limit txs plan :
  limit <= u64_max -> gas_plan_new limit txs = inr plan ->
  length (entries plan) = length txs
  /\ gas_sum (entries plan) = total_envelope_gas plan /\ total_envelope_gas plan <= limit
  /\ (forall i tx, txs !! i = Some tx -> entry_budget limit plan i tx).
Proof.
  intros Hlim Hp. unfold gas_plan_new in Hp.
  apply ebind_inr in Hp as ([[planned total] cycle] & Hl & Hp).
  apply (plan_loop_ok limit txs [] 0 None planned total cycle []) in Hl
    as (-> & Hf & Hc & Hcb); [|done|constructor|split; done]. simpl in *.
  apply ebind_inr in Hp as (rest & Hrest%eok_or_inr & Hp). apply checked_sub_some in Hrest as [-> Hle].
  pose proof (planned_nonneg _ _ Hf) as Hnn. pose proof (Forall2_length _ _ _ Hf) as Hlen.
  destruct cycle as [o|].
  - apply ebind_inr in Hp as (e & He%eok_or_inr & Hp).
    apply ebind_inr in Hp as (l & Hsum%eok_or_inr & [= <-]). apply checked_add_some in Hsum as [-> Hmax].
    simpl. rewrite length_insert, (gas_sum_insert _ _ _ _ He). simpl. split_and!; [done|lia|lia|].
    intros i tx Hi. destruct (Forall2_lookup_l _ _ _ _ _ Hf Hi) as (e' & He' & Hpl).
    destruct (decide (i = o)) as [->|Hne].
    + simplify_eq. destruct Hpl as (Hg & ? & ? & Hgl).
      assert (Hk : tx.1 = CycleTick) by by apply (Hc _ _ Hi).
      assert (0 <= system_tx_ce_gas_reserve tx.1) by by rewrite Hk.
      set (e2 := mkGasEntry _ _ _). set (plan := mkGasPlan _ limit).
      assert (Hi2 : entries plan !! o = Some e2)
        by by apply list_lookup_insert_eq; eapply lookup_lt_Some.
      exists e2. rewrite decide_True by done.
      rewrite (ce_gas_limit_exact _ _ _ Hi2) by (simpl; lia). split_and!; try done. simpl. lia.
    + eapply planned_budget; [simpl; by rewrite list_lookup_insert_ne|done| |].
      * pose proof (gas_sum_elem _ _ _ Hnn He'). lia.
      * intros Hk%(Hc _ _ Hi). congruence.
  - injection Hp as <-. simpl. split_and!; [done|done|lia|].
    intros i tx Hi. destruct (Forall2_lookup_l _ _ _ _ _ Hf Hi) as (e' & He' & Hpl).
    eapply planned_budget; [done|done| |].
    + pose proof (gas_sum_elem _ _ _ Hnn He'). lia.
    + by intros Hk%(Hc _ _ Hi).
Qed.
End GasPlan.

(** * Calldata *)

Section Inputs.
Context {H : Keccak} {E : TeeCrypto}.

(** The widths of the fields of a body. *)
Definition wf_input (input : SystemTxInputV2) : Prop :=
  match input with
  | CertifiedParentAccountingInput metadata => wf_metadata metadata
  | LateFinalizeCreditsInput artifact => Forall wf_credit artifact
  | BoundaryOutcomeInput artifact => wf_boundary artifact
  | TeeBootstrapInput payload => wf_bootstrap payload
  | _ => True
  end.

Lemma kind_of_selector kind : system_tx_kind_from_selector (selector kind) = inr kind.
Proof. destruct kind; vm_compute; reflexivity. Qed.
Lemma length_selector kind : length (selector kind) = 4%nat.
Proof. by destruct kind. Qed.

(** The decoder after the header of the calldata. *)
Lemma input_decode_body kind body :
  input_decode (selector kind ++ [SYSTEM_TX_INPUT_VERSION] ++ body) =
  match kind with
  | CertifiedParentAccounting =>
      let+ metadata := from_precompile (metadata_decode body) in
      inr (CertifiedParentAccountingInput metadata)
  | LateFinalizeCredits =>
      let+ found := from_precompile (decode_late_finalize_credits_artifact body) in
      inr (LateFinalizeCreditsInput (default [] found))
  | OcompLifecycleBegin => no_body kind body OcompLifecycleBeginInput
  | CycleTick => no_body kind body CycleTickInput
  | RewardsGemDelivery => no_body kind body RewardsGemDeliveryInput
  | OracleSlashWindow => no_body kind body OracleSlashWindowInput
  | HookEvents => no_body kind body HookEventsInput
  | OcompTerminalRequest => no_body kind body OcompTerminalRequestInput
  | BoundaryOutcome =>
      let+ found := from_precompile (decode_boundary_artifact body) in
      let+ artifact := eok_or found MissingBoundaryOutcomeBody in
      inr (BoundaryOutcomeInput artifact)
  | TeeBootstrap =>
      let+ payload := from_codec (TeeBootstrapV2_decode body) in
      inr (TeeBootstrapInput payload)
  end.
Proof.
  unfold input_decode. rewrite (proj2 (Nat.ltb_ge _ _))
    by (rewrite !length_app, length_selector; simpl; lia).
  unfold selector_from_input. rewrite (proj2 (Nat.ltb_ge _ _))
    by (rewrite !length_app, length_selector; simpl; lia).
  rewrite <- (length_selector kind) at 1. rewrite take_app_length. cbn [ebind].
  rewrite kind_of_selector. cbn [ebind].
  rewrite app_nth2 by (rewrite length_selector; lia). rewrite length_selector.
  replace (drop 5 (selector kind ++ [SYSTEM_TX_INPUT_VERSION] ++ body)) with body; [done|].
  rewrite app_assoc. rewrite drop_app_length'; [done|]. by rewrite length_app, length_selector.
Qed.

Lemma from_precompile_inr {A} (r : result A) a : from_precompile r = inr a <-> r = Ok a.
Proof. destruct r; simpl; naive_solver. Qed.

(** System-transaction calldata is unambiguous: what [encode] produces for a
    kind starts with the kind's selector and decodes to the same input, and no body
    decoder panics. *)
Theorem system_input_roundtrip input data body :
  wf_input input -> input_encode input = inr data ->
  input_decode data = inr input
  /\ selector_from_input data = inr (selector (input_kind input))
  /\ metadata_decode body <> Panic /\ decode_late_finalize_credits_artifact body <> Panic
  /\ decode_boundary_artifact body <> Panic.
Proof.
  intros Hwf He.
  split_and!; [| |apply metadata_decode_total|apply late_body_no_panic|apply boundary_body_no_panic].
  - unfold input_encode in He. apply ebind_inr in He as (b & Hb & He).
    assert (data = selector (input_kind input) ++ [SYSTEM_TX_INPUT_VERSION] ++ b) as -> by congruence.
    rewrite input_decode_body.
    destruct input; cbn [input_kind] in *; try (injection Hb as <-; done).
    + apply from_precompile_inr in Hb. rewrite metadata_encode_ok in Hb by done.
      assert (b = metadata_bytes metadata) as -> by congruence. by rewrite metadata_decode_bytes.
    + apply from_precompile_inr, late_body_roundtrip in Hb as (found & -> & Hf); [|done].
      simpl. by rewrite Hf.
    + apply from_precompile_inr in Hb. by rewrite (boundary_body_roundtrip _ _ Hwf Hb).
    + apply from_codec_inr in Hb. destruct (proj1 bootstrap_exact _ _ Hwf Hb) as [Hd _]. by rewrite Hd.
  - unfold input_encode in He. apply ebind_inr in He as (b & _ & He).
    assert (data = selector (input_kind input) ++ [SYSTEM_TX_INPUT_VERSION] ++ b) as -> by congruence.
    unfold selector_from_input. rewrite (proj2 (Nat.ltb_ge _ _))
      by (rewrite !length_app, length_selector; simpl; lia).
    rewrite <- (length_selector (input_kind input)) at 1. by rewrite take_app_length.
Qed.
End Inputs.

(** * Witnesses *)

Section Example.

#[local] Existing Instance carried_key.
#[local] Existing Instance sum_keccak.

Definition calldata_of (input : SystemTxInputV2) : list Z :=
  match input_encode input with inr data => data | inl _ => [] end.
Definition example_txs : list (SystemTxKind * list Z) :=
  (fun input => (input_kind input, calldata_of input)) <$>
    [OcompLifecycleBeginInput; CycleTickInput; TeeBootstrapInput (payload_of [42; 41])].
Definition example_plan : SystemTxVisibleGasPlan :=
  match gas_plan_new BOOTSTRAP_BLOCK_GAS_LIMIT example_txs with inr plan => plan | inl _ => mkGasPlan [] 0 end.

Lemma gas_plan_exact_witness :
  gas_sum (entries example_plan) = BOOTSTRAP_BLOCK_GAS_LIMIT
  /\ entry_budget BOOTSTRAP_BLOCK_GAS_LIMIT example_plan 0 (OcompLifecycleBegin, calldata_of OcompLifecycleBeginInput).
Proof.
  destruct (gas_plan_exact BOOTSTRAP_BLOCK_GAS_LIMIT example_txs example_plan)
    as (_ & Hsum & _ & Hbudget).
  - vm_compute. discriminate.
  - vm_compute. reflexivity.
  - split; [rewrite Hsum; vm_compute; reflexivity|]. apply Hbudget. reflexivity.
Defined.

Lemma system_input_roundtrip_witness :
  input_decode (calldata_of (BoundaryOutcomeInput example_boundary))
    = inr (BoundaryOutcomeInput example_boundary).
Proof.
  refine (proj1 (system_input_roundtrip (BoundaryOutcomeInput example_boundary) _ [] _ _)).
  - exact (wa_header _ example_wf _ eq_refl).
  - vm_compute. reflexivity.
Defined.
End Example.
