(* ===== verification/BootstrapBlock.v ===== *)
(** The block that carries the TEE bootstrap: a gas plan exists exactly when the
    gas of the system transactions fits the block, and how many validators the
    gas limit of block 1 leaves room for. Composes [SystemTx] with [TeeBootstrap]. *)

From S2P Require Import Prelude Bytes Wire WireProps Artifacts ArtifactsProps TeeAttestation TeeAttestationProps TeeBootstrap TeeBootstrapProps TeeExample SystemTx SystemTxProps.

Section Block.
Context {H : Keccak} {E : TeeCrypto}.

(** A transaction whose calldata decodes to its kind, with its planned entry. *)
Definition plannable (limit : Z) (tx : SystemTxKind * list Z) (e : SystemTxVisibleGasEntry) : Prop :=
  exists decoded, input_decode tx.2 = inr decoded /\ input_kind decoded = tx.1
  /\ plan_entry limit tx.1 tx.2 decoded = inr e.
Definition cycle_ticks (txs : list (SystemTxKind * list Z)) : nat :=
  length (filter (fun tx => tx.1 = CycleTick) txs).

Lemma gas_sum_nonneg limit txs es : Forall2 (plannable limit) txs es -> 0 <= gas_sum es.
Proof.
  intros Hp. assert (Hn : Forall (fun e => 0 <= gas_limit e) es).
  { apply (planned_nonneg txs). eapply Forall2_impl; [exact Hp|]. intros [k c] e (d & _ & _ & He). by eapply plan_entry_ok. }
  clear Hp. induction Hn; simpl in *; lia.
Qed.

Lemma plan_loop_complete limit txs es : Forall2 (plannable limit) txs es ->
  forall acc total cycle, total + gas_sum es <= u64_max ->
  (cycle_ticks txs + (if cycle is Some _ then 1 else 0) <= 1)%nat ->
  (forall i, cycle = Some i -> (i < length acc)%nat) ->
  exists cycle', plan_loop limit (length acc) acc total cycle txs = inr (acc ++ es, total + gas_sum es, cycle')
    /\ (forall i, cycle' = Some i -> (i < length (acc ++ es))%nat).
Proof.
  intros Hp. induction Hp as [|[kind calldata] e txs es (d & Hd & Hk & He) Hp IH]; intros acc total cycle Hmax Hone Hc.
  { exists cycle. cbn. rewrite app_nil_r, Z.add_0_r. done. }
  pose proof (gas_sum_nonneg _ _ _ Hp). cbn [plan_loop gas_sum foldr fst snd] in *. fold (gas_sum es) in *.
  rewrite Hd. cbn [ebind]. rewrite Hk, bool_decide_eq_true_2 by done. cbn [erequire ebind].
  unfold cycle_ticks in Hone. rewrite filter_cons in Hone.
  assert (Hreq : negb (bool_decide (kind = CycleTick) && bool_decide (is_Some cycle)) = true).
  { case_bool_decide; [|done]. rewrite decide_True in Hone by done. destruct cycle; [cbn in Hone; lia|done]. }
  rewrite Hreq. cbn [erequire ebind]. rewrite He. cbn [ebind].
  unfold checked_add at 1. rewrite (proj2 (Z.leb_le _ _)) by lia. cbn [eok_or ebind].
  destruct (IH (acc ++ [e]) (total + gas_limit e) (if bool_decide (kind = CycleTick) then Some (length acc) else cycle))
    as (c & Hl & Hb).
  - lia.
  - case_bool_decide; [rewrite decide_True in Hone by done; cbn in Hone; unfold cycle_ticks; lia|].
    rewrite decide_False in Hone by done. done.
  - intros i. rewrite length_app. case_bool_decide; [intros [= <-]; cbn; lia|intros Hi%Hc; cbn; lia].
  - exists c. rewrite length_app, Nat.add_1_r in Hl. rewrite Hl. rewrite <- app_assoc in *. split; [do 2 f_equal; f_equal; lia|done].
Qed.

(** A plan exists when the transactions fit the block. *)
Lemma gas_plan_complete limit txs es : limit <= u64_max -> Forall2 (plannable limit) txs es ->
  (cycle_ticks txs <= 1)%nat -> gas_sum es <= limit ->
  exists plan, gas_plan_new limit txs = inr plan.
Proof.
  intros Hlim Hp Hone Hsum. pose proof (gas_sum_nonneg _ _ _ Hp).
  destruct (plan_loop_complete limit txs es Hp [] 0 None) as (c & Hl & Hc); [lia|lia|done|].
  cbn [length app] in *. unfold gas_plan_new. rewrite Hl. cbn [ebind]. rewrite Z.add_0_l.
  unfold checked_sub. rewrite (proj2 (Z.leb_le _ _)) by done. cbn [eok_or ebind].
  destruct c as [i|]; [|by eexists]. destruct (lookup_lt_is_Some_2 es i (Hc i eq_refl)) as [e He]. rewrite He. cbn [eok_or ebind].
  assert (gas_limit e <= gas_sum es).
  { apply (gas_sum_elem es i); [|done]. apply (planned_nonneg txs). eapply Forall2_impl; [exact Hp|].
    intros [k cd] e' (d & _ & _ & He'). by eapply plan_entry_ok. }
  unfold checked_add. rewrite (proj2 (Z.leb_le _ _)) by lia. cbn [eok_or ebind]. by eexists.
Qed.

Lemma intrinsic_fold_ok calldata : forall acc, acc + 16 * zlen calldata <= u64_max ->
  exists gas, fold_left (fun gas byte => match gas with
                                         | Some gas => checked_add u64_max gas (byte_gas byte)
                                         | None => None
                                         end) calldata (Some acc) = Some gas /\ gas <= acc + 16 * zlen calldata.
Proof.
  induction calldata as [|b calldata IH]; intros acc Hmax; [exists acc; split; [done|unfold zlen; cbn; lia]|].
  assert (Hl : zlen (b :: calldata) = 1 + zlen calldata) by (unfold zlen; cbn [length]; lia).
  pose proof (zlen_nonneg calldata). assert (0 <= byte_gas b <= 16) by (unfold byte_gas; case_match; done).
  cbn [fold_left]. unfold checked_add at 2. rewrite (proj2 (Z.leb_le _ _)) by lia.
  destruct (IH (acc + byte_gas b)) as (gas & Hg & Hle); [lia|]. exists gas. split; [done|lia].
Qed.

(** The system transaction of a valid payload. *)
Lemma bootstrap_tx limit t : wf_bootstrap t -> validate_bootstrap t = inr tt ->
  exists data e, input_encode (TeeBootstrapInput t) = inr data /\ input_decode data = inr (TeeBootstrapInput t)
    /\ zlen data <= MAX_TEE_BOOTSTRAP_BYTES
    /\ plannable limit (TeeBootstrap, data) e /\ entry_protocol_precharge e = payload_precharge t
    /\ gas_limit e <= visible_gas t.
Proof.
  intros Hwf Hv. destruct (bootstrap_encode_ok t Hwf Hv) as (He & _ & _ & Hcap).
  set (data := selector TeeBootstrap ++ [SYSTEM_TX_INPUT_VERSION] ++ bootstrap_wire t).
  assert (Hd : input_decode data = inr (TeeBootstrapInput t)).
  { unfold data. rewrite input_decode_body. by rewrite (proj1 (proj1 bootstrap_exact _ _ Hwf He)). }
  assert (Hlen : zlen data = zlen (bootstrap_wire t) + 5).
  { unfold data. rewrite !zlen_app. change (zlen (selector TeeBootstrap)) with 4. change (zlen [SYSTEM_TX_INPUT_VERSION]) with 1. lia. }
  unfold MAX_TEE_BOOTSTRAP_BYTES in *. destruct (intrinsic_fold_ok data 21000) as (gas & Hg & Hgas); [unfold u64_max; lia|].
  pose proof (payload_precharge_bounds t Hwf Hv) as [_ Hup]. pose proof (bv_count t (bootstrap_validate_inv t Hv)).
  unfold MAX_BOOTSTRAP_PARTICIPANTS in *. unfold visible_gas in *.
  assert (Hp : 0 <= payload_precharge t) by (eapply protocol_precharge_nonneg; by apply precharge_exact).
  exists data, (mkGasEntry gas (payload_precharge t) (gas + payload_precharge t)). split_and!; try done; [|lia| |cbn [gas_limit]; lia].
  - unfold input_encode. by rewrite He.
  - exists (TeeBootstrapInput t). split_and!; [done|done|]. cbn [fst snd]. unfold plan_entry, system_tx_intrinsic_gas.
    unfold SYSTEM_TX_VISIBLE_GAS_FLOOR. rewrite Hg. cbn [eok_or ebind system_tx_protocol_precharge].
    rewrite precharge_exact by done. cbn [from_codec ebind system_tx_ce_gas_reserve].
    unfold checked_add. rewrite (proj2 (Z.leb_le _ _)) by (unfold u64_max; lia).
    rewrite Z.add_0_r, (proj2 (Z.leb_le _ _)) by (unfold u64_max; lia). done.
Qed.

(** C13. The bootstrap of up to 49 validators always fits block 1: a valid payload
    encodes to system calldata that decodes to it and is within the calldata cap;
    the preflight check accepts exactly the payloads whose worst-case gas is within
    the limit of the bootstrap block; it accepts every valid payload of at most 49
    participants, and the plan of block 1 then succeeds with any other system
    transactions of at most 5,280,584 gas; no payload of more than 147 participants
    passes, although the format admits 256. *)
Theorem bootstrap_block_fits t : wf_bootstrap t -> validate_bootstrap t = inr tt ->
  (preflight t = inr tt <-> visible_gas t <= protocol_block_gas_limit 1)
  /\ (preflight t = inr tt -> (length (participants t) <= 147)%nat)
  /\ exists data, input_encode (TeeBootstrapInput t) = inr data /\ input_decode data = inr (TeeBootstrapInput t)
    /\ zlen data <= MAX_TEE_BOOTSTRAP_BYTES
    /\ ((length (participants t) <= 49)%nat -> preflight t = inr tt
        /\ forall before after es es', Forall2 (plannable (protocol_block_gas_limit 1)) before es ->
             Forall2 (plannable (protocol_block_gas_limit 1)) after es' ->
             (cycle_ticks (before ++ after) <= 1)%nat -> gas_sum es + gas_sum es' <= 5280584 ->
             exists plan, gas_plan_new (protocol_block_gas_limit 1) (before ++ (TeeBootstrap, data) :: after) = inr plan).
Proof.
  intros Hwf Hv. pose proof (preflight_iff t Hwf Hv) as Hpre. pose proof (payload_precharge_bounds t Hwf Hv) as [Hlo Hup].
  change (protocol_block_gas_limit 1) with BOOTSTRAP_BLOCK_GAS_LIMIT.
  destruct (bootstrap_tx BOOTSTRAP_BLOCK_GAS_LIMIT t Hwf Hv) as (data & e & He & Hd & Hl & Hp & _ & Hg).
  unfold BOOTSTRAP_BLOCK_GAS_LIMIT in Hpre. split_and!; [done|rewrite Hpre; lia|].
  exists data. split_and!; try done. intros Hn. split; [rewrite Hpre; lia|].
  intros before after es es' Hb Ha Hc Hs. apply (gas_plan_complete _ _ (es ++ e :: es')).
  - done.
  - apply Forall2_app; [done|]. by constructor.
  - unfold cycle_ticks in *. rewrite filter_app, length_app in *. by rewrite filter_cons_False.
  - rewrite gas_sum_app. simpl. fold (gas_sum es'). unfold BOOTSTRAP_BLOCK_GAS_LIMIT. lia.
Qed.
End Block.

(** * Witness *)

Section Example.
#[local] Existing Instance carried_key.
#[local] Existing Instance sum_keccak.

Definition cycle_entry : SystemTxVisibleGasEntry :=
  match plan_entry BOOTSTRAP_BLOCK_GAS_LIMIT CycleTick (calldata_of CycleTickInput) CycleTickInput with
  | inr e => e
  | inl _ => mkGasEntry 0 0 0
  end.
Lemma bootstrap_block_fits_witness :
  exists data plan, input_encode (TeeBootstrapInput (payload_of [42; 41])) = inr data
  /\ gas_plan_new (protocol_block_gas_limit 1)
       ([(CycleTick, calldata_of CycleTickInput)] ++ [(TeeBootstrap, data)]) = inr plan.
Proof.
  destruct (bootstrap_block_fits (payload_of [42; 41]) example_payload_wf) as (_ & _ & data & He & _ & _ & Hfit);
    [vm_compute; reflexivity|].
  destruct (Hfit ltac:(vm_compute; lia)) as [_ Hplan].
  destruct (Hplan [(CycleTick, calldata_of CycleTickInput)] [] [cycle_entry] []) as [plan Hp].
  - constructor; [|constructor]. exists CycleTickInput. vm_compute. auto.
  - constructor.
  - vm_compute. lia.
  - vm_compute. discriminate.
  - exists data, plan. split; [exact He|exact Hp].
Defined.
End Example.
