(* ===== verification/BitMath.v ===== *)
(** Bit search over 256-bit words, with the shifts of [U256].

    Source: [crates/blockchain/primitives/src/math/bit_math.rs]. *)

From S2P Require Import Prelude.

(** * Words *)

Definition B64 : Z := 2 ^ 64.
Definition W256 : Z := 2 ^ 256.

(** [U256 << n] drops the bits above 255. *)
Definition shl256 (x n : Z) : Z := Z.shiftl x n mod W256.

(** [as_limbs]: four little-endian 64-bit limbs. *)
Definition limb (x i : Z) : Z := Z.shiftr x (64 * i) mod B64.
Definition as_limbs (x : Z) : list Z := [limb x 0; limb x 1; limb x 2; limb x 3].

(** [u64::trailing_zeros], 64 for zero. *)
Fixpoint trailing_zeros (width : nat) (x : Z) : Z :=
  match width with
  | O => 0
  | S width' => if Z.odd x then 0 else 1 + trailing_zeros width' (Z.div2 x)
  end.

(** * Bit search (bit_math.rs) *)

(** One [if x > 2^bits - 1] of [most_significant_bit]. *)
Definition msb_step (bits : Z) (v : Z * Z) : Z * Z :=
  let '(x, msb) := v in
  if 2 ^ bits - 1 <? x then (Z.shiftr x bits, msb + bits) else (x, msb).

Definition most_significant_bit (x : Z) : Z :=
  snd (fold_left (fun v bits => msb_step bits v) [128; 64; 32; 16; 8; 4; 2; 1] (x, 0)).

Fixpoint lsb_limbs (limbs : list Z) (i : Z) : Z :=
  match limbs with
  | [] => 255
  | l :: rest => if negb (l =? 0) then trailing_zeros 64 l + i * 64 else lsb_limbs rest (i + 1)
  end.

Definition least_significant_bit (word : Z) : Z := lsb_limbs (as_limbs word) 0.

Definition mask_from (word from_bit : Z) : Z :=
  if from_bit =? 0 then word else Z.land word (shl256 u256_max from_bit).

(** * Lemmas *)

Lemma W256_pos : 0 < W256.
Proof. done. Qed.
Lemma u256_W256 : u256_max + 1 = W256.
Proof. done. Qed.

Lemma log2_shiftr x n : 0 < x -> 0 <= n <= Z.log2 x -> Z.log2 (Z.shiftr x n) = Z.log2 x - n.
Proof. intros Hx Hn. rewrite Z.log2_shiftr by done. lia. Qed.

(** One step keeps [msb + log2 x] and halves the width of [x]. *)
Lemma msb_step_ok bits x msb :
  0 < bits -> 0 < x < 2 ^ (2 * bits) ->
  let v := msb_step bits (x, msb) in
  0 < v.1 < 2 ^ bits /\ v.2 + Z.log2 v.1 = msb + Z.log2 x.
Proof.
  intros Hb Hx v. subst v. unfold msb_step.
  destruct (Z.ltb_spec (2 ^ bits - 1) x) as [Hlt|Hge]; simpl; [|split; [lia|done]].
  assert (Hlog : bits <= Z.log2 x) by (apply Z.log2_le_pow2; lia).
  rewrite log2_shiftr by lia. rewrite Z.shiftr_div_pow2 by lia.
  replace (2 * bits) with (bits + bits) in Hx by lia. rewrite Z.pow_add_r in Hx by lia.
  split; [split|lia].
  - apply Z.div_str_pos. lia.
  - apply Z.div_lt_upper_bound; nia.
Qed.

Lemma msb_log2 x : 0 < x <= u256_max -> most_significant_bit x = Z.log2 x.
Proof.
  intros Hx. unfold most_significant_bit. cbn [fold_left].
  assert (H0 : 0 < (x, 0).1 < 2 ^ (2 * 128) /\ (x, 0).2 + Z.log2 (x, 0).1 = Z.log2 x)
    by (unfold u256_max in *; simpl fst; simpl snd; split; [change (2 * 128) with 256|]; lia).
  revert H0. generalize (x, 0). intros v H0.
  assert (Hstep : forall bits w, 0 < bits ->
    (0 < w.1 < 2 ^ (2 * bits) /\ w.2 + Z.log2 w.1 = Z.log2 x) ->
    0 < (msb_step bits w).1 < 2 ^ bits /\ (msb_step bits w).2 + Z.log2 (msb_step bits w).1 = Z.log2 x).
  { intros bits [y m] Hb [Hy Hm]. destruct (msb_step_ok bits y m Hb Hy) as [H1 H2].
    split; [done|]. rewrite H2. exact Hm. }
  apply (Hstep 128) in H0; [|done]. apply (Hstep 64) in H0; [|done]. apply (Hstep 32) in H0; [|done].
  apply (Hstep 16) in H0; [|done]. apply (Hstep 8) in H0; [|done]. apply (Hstep 4) in H0; [|done].
  apply (Hstep 2) in H0; [|done]. apply (Hstep 1) in H0 as [H1 H2]; [|done].
  rewrite <- H2. assert (Hone : (msb_step 1 (msb_step 2 (msb_step 4 (msb_step 8 (msb_step 16
    (msb_step 32 (msb_step 64 (msb_step 128 v)))))))).1 = 1) by lia.
  rewrite Hone. simpl (Z.log2 1). lia.
Qed.

(** [b] is the lowest set bit of [x]. *)
Definition lowest_bit (x b : Z) : Prop :=
  0 <= b /\ Z.testbit x b = true /\ forall i, 0 <= i < b -> Z.testbit x i = false.

Lemma trailing_zeros_ok width : forall x, 0 < x < 2 ^ Z.of_nat width -> lowest_bit x (trailing_zeros width x).
Proof.
  induction width as [|width IH]; intros x Hx; [simpl in Hx; lia|].
  rewrite Nat2Z.inj_succ, Z.pow_succ_r in Hx by lia. cbn [trailing_zeros].
  destruct (Z.odd x) eqn:Hodd; [split_and!; [lia|by rewrite Z.bit0_odd|lia]|].
  assert (Hdiv : x = 2 * Z.div2 x) by (pose proof (Z.div2_odd x) as Hd; rewrite Hodd in Hd; simpl in Hd; lia).
  destruct (IH (Z.div2 x)) as (Hb & Ht & Hlow); [lia|].
  split_and!; [lia| |].
  - rewrite Hdiv at 1. replace (1 + _) with (Z.succ (trailing_zeros width (Z.div2 x))) by lia.
    by rewrite Z.double_bits_succ.
  - intros i Hi. destruct (Z.eq_dec i 0) as [->|Hi0]; [by rewrite Z.bit0_odd|].
    rewrite Hdiv at 1. replace i with (Z.succ (i - 1)) by lia. rewrite Z.double_bits_succ. apply Hlow. lia.
Qed.

Lemma limb_bit x i j : 0 <= i -> 0 <= j < 64 -> Z.testbit (limb x i) j = Z.testbit x (64 * i + j).
Proof.
  intros Hi Hj. unfold limb, B64. rewrite Z.mod_pow2_bits_low by lia.
  rewrite Z.shiftr_spec by lia. f_equal. lia.
Qed.
Lemma limb_range x i : 0 <= limb x i < B64.
Proof. apply Z.mod_pos_bound. done. Qed.
Lemma limb_zero x i j : 0 <= i -> limb x i = 0 -> 64 * i <= j < 64 * (i + 1) -> Z.testbit x j = false.
Proof.
  intros Hi Hz Hj. replace j with (64 * i + (j - 64 * i)) by lia.
  rewrite <- limb_bit by lia. rewrite Hz. apply Z.bits_0.
Qed.

Lemma lsb_limbs_ok x n : forall i,
  0 <= i -> (forall j, 0 <= j < 64 * i -> Z.testbit x j = false) ->
  (exists j, 64 * i <= j < 64 * (i + Z.of_nat n) /\ Z.testbit x j = true) ->
  lowest_bit x (lsb_limbs (map (limb x) (seqZ i (Z.of_nat n))) i)
  /\ lsb_limbs (map (limb x) (seqZ i (Z.of_nat n))) i < 64 * (i + Z.of_nat n).
Proof.
  induction n as [|n IH]; intros i Hi Hlow (j & Hj & Hbit); [lia|].
  rewrite seqZ_cons by lia. replace (Z.pred (Z.of_nat (S n))) with (Z.of_nat n) by lia. simpl map.
  cbn [lsb_limbs]. destruct (Z.eqb_spec (limb x i) 0) as [Hz|Hnz]; simpl negb; cbv iota.
  - replace (i + Z.of_nat (S n)) with (i + 1 + Z.of_nat n) in * by lia.
    replace (Z.succ i) with (i + 1) by lia. apply IH; [lia| |].
    + intros k Hk. destruct (Z.lt_ge_cases k (64 * i)) as [|Hge]; [apply Hlow; lia|].
      eapply limb_zero; [exact Hi|exact Hz|lia].
    + exists j. split; [|done]. split; [|lia]. destruct (Z.lt_ge_cases j (64 * (i + 1))) as [Hlt|]; [|done].
      rewrite (limb_zero x i j) in Hbit by (done || lia). done.
  - pose proof (limb_range x i) as Hr.
    destruct (trailing_zeros_ok 64 (limb x i)) as (Hb & Ht & Hl); [change (2 ^ Z.of_nat 64) with B64; lia|].
    set (t := trailing_zeros 64 (limb x i)) in *.
    assert (Ht64 : t < 64).
    { destruct (Z.lt_ge_cases t 64) as [|Hge]; [done|]. unfold limb, B64 in Ht.
      by rewrite Z.mod_pow2_bits_high in Ht by lia. }
    split; [split_and!; [lia| |]|lia].
    + rewrite limb_bit in Ht by lia. by replace (t + i * 64) with (64 * i + t) by lia.
    + intros k Hk. destruct (Z.lt_ge_cases k (64 * i)) as [|Hge]; [apply Hlow; lia|].
      replace k with (64 * i + (k - 64 * i)) by lia. rewrite <- limb_bit by lia. apply Hl. lia.
Qed.

Lemma nonzero_bit x n : 0 <= n -> 0 < x < 2 ^ n -> exists j, 0 <= j < n /\ Z.testbit x j = true.
Proof.
  intros Hn Hx. exists (Z.log2 x). rewrite Z.bit_log2 by lia. split; [|done].
  split; [apply Z.log2_nonneg|]. apply Z.log2_lt_pow2; lia.
Qed.

Lemma lsb_lowest x :
  0 < x <= u256_max -> lowest_bit x (least_significant_bit x) /\ least_significant_bit x < 256.
Proof.
  intros Hx. destruct (nonzero_bit x 256) as (j & Hj & Hbit); [lia|unfold u256_max in *; lia|].
  apply (lsb_limbs_ok x 4 0); [done|lia|]. exists j. split; [lia|done].
Qed.

Lemma u256_testbit i : 0 <= i -> Z.testbit u256_max i = (i <? 256).
Proof. intros Hi. change u256_max with (Z.ones 256). rewrite Z.testbit_ones by lia. by rewrite (proj2 (Z.leb_le 0 i)). Qed.

Lemma mask_from_bit word from i :
  0 <= word <= u256_max -> 0 <= from < 256 -> 0 <= i ->
  Z.testbit (mask_from word from) i = Z.testbit word i && (from <=? i).
Proof.
  intros Hw Hf Hi. unfold mask_from. destruct (Z.eqb_spec from 0) as [->|Hf0].
  { rewrite (proj2 (Z.leb_le 0 i)) by lia. by rewrite andb_true_r. }
  rewrite Z.land_spec. unfold shl256, W256.
  destruct (Z.lt_ge_cases i 256) as [Hi256|Hi256].
  - rewrite Z.mod_pow2_bits_low, Z.shiftl_spec by lia. destruct (Z.leb_spec from i).
    + rewrite u256_testbit by lia. by rewrite (proj2 (Z.ltb_lt _ _)) by lia.
    + rewrite (Z.testbit_neg_r u256_max) by lia. done.
  - assert (Z.testbit word i = false) as ->; [|done].
    destruct (Z.eq_dec word 0) as [->|]; [apply Z.bits_0|].
    apply Z.bits_above_log2; [lia|]. apply Z.log2_lt_pow2; [lia|]. unfold u256_max in *.
    apply Z.lt_le_trans with (2 ^ 256); [lia|]. apply Z.pow_le_mono_r; lia.
Qed.

Lemma land_le x y : 0 <= x -> 0 <= y -> Z.land x y <= x.
Proof.
  intros Hx Hy. rewrite <- (Z2N.id x), <- (Z2N.id y) by lia. rewrite <- N2Z.inj_land.
  apply N2Z.inj_le, N.land_le_l.
Qed.
Lemma shl256_range x n : 0 <= shl256 x n <= u256_max.
Proof. unfold shl256. pose proof (Z.mod_pos_bound (Z.shiftl x n) W256 W256_pos). unfold u256_max, W256 in *. lia. Qed.

Lemma mask_from_range word from : 0 <= word <= u256_max -> 0 <= mask_from word from <= u256_max.
Proof.
  intros Hw. unfold mask_from. destruct (from =? 0); [done|].
  split; [apply Z.land_nonneg; left; lia|].
  pose proof (land_le word (shl256 u256_max from) ltac:(lia) (proj1 (shl256_range _ _))). lia.
Qed.

(** * Single bits *)

Lemma shl256_bit b : 0 <= b < 256 -> shl256 1 b = 2 ^ b.
Proof.
  intros Hb. unfold shl256, W256. rewrite Z.shiftl_1_l. apply Z.mod_small.
  split; [apply Z.pow_nonneg; lia|apply Z.pow_lt_mono_r; lia].
Qed.

Lemma land_bit w b : 0 <= b < 256 -> Z.land w (shl256 1 b) = if Z.testbit w b then 2 ^ b else 0.
Proof.
  intros Hb. rewrite shl256_bit by done. apply Z.bits_inj'. intros i Hi. rewrite Z.land_spec.
  destruct (Z.eq_dec i b) as [->|Hne].
  - rewrite Z.pow2_bits_true by lia. rewrite andb_true_r. destruct (Z.testbit w b).
    + by rewrite Z.pow2_bits_true by lia.
    + by rewrite Z.bits_0.
  - rewrite (Z.pow2_bits_false b) by lia. rewrite andb_false_r. destruct (Z.testbit w b).
    + by rewrite Z.pow2_bits_false by lia.
    + by rewrite Z.bits_0.
Qed.

(** [!(w & (1 << b)).is_zero()] reads bit [b]. *)
Lemma test_bit w b : 0 <= b < 256 -> negb (Z.land w (shl256 1 b) =? 0) = Z.testbit w b.
Proof.
  intros Hb. rewrite land_bit by done. destruct (Z.testbit w b); [|done].
  assert (0 < 2 ^ b) by (apply Z.pow_pos_nonneg; lia). by rewrite (proj2 (Z.eqb_neq _ _)) by lia.
Qed.
