(* ===== verification/MulDiv.v ===== *)
(** Full-precision multiplication and division on 256-bit words: the schoolbook
    512-bit product, the bitwise remainder, the modular-inverse division and the
    checked scaling helpers.

    Sources: [crates/blockchain/primitives/src/math/uint256x256_math.rs] and
    [scaled_math.rs]. *)

From S2P Require Import Prelude BitMath.

(** * The 512-bit product (uint256x256_math.rs) *)

(** [from_limbs]: the value of little-endian limbs. *)
Fixpoint from_limbs (l : list Z) : Z :=
  match l with [] => 0 | d :: rest => d + B64 * from_limbs rest end.

(** One step of the inner loop: the [u128] accumulation of a partial product. *)
Definition mul_inner (xi : Z) (ys : list Z) (i : nat) (st : list Z * Z) (j : nat) : list Z * Z :=
  let '(product, carry) := st in
  let cur := product !!! (i + j)%nat in
  let p := wrapping_add u128_max
             (wrapping_add u128_max (wrapping_mul u128_max xi (ys !!! j)) cur) carry in
  (<[(i + j)%nat := p mod B64]> product, Z.shiftr p 64).

Definition mul_row (xs ys : list Z) (product : list Z) (i : nat) : list Z :=
  let '(product', carry) := fold_left (mul_inner (xs !!! i) ys i) (seq 0 4) (product, 0) in
  <[(i + 4)%nat := carry mod B64]> product'.

Definition get_mul_prods (x y : Z) : Z * Z :=
  let product := fold_left (mul_row (as_limbs x) (as_limbs y)) (seq 0 4) (replicate 8 0) in
  (from_limbs (take 4 product), from_limbs (drop 4 product)).

(** * Remainder and division *)

Definition mod_bit (word denom rem bit : Z) : Z :=
  let rem := shl256 rem 1 in
  let rem := if negb (Z.land word (shl256 1 bit) =? 0) then Z.lor rem 1 else rem in
  if denom <=? rem then wrapping_sub u256_max rem denom else rem.

Definition mul_mod_512 (x y denom : Z) : Z :=
  let '(prod0, prod1) := get_mul_prods x y in
  fold_left (fun rem word => fold_left (mod_bit word denom) (reverse (seqZ 0 256)) rem)
    [prod1; prod0] 0.

(** One Newton-Raphson step towards the inverse of [denom_odd] modulo 2^256. *)
Definition newton (denom_odd inverse : Z) : Z :=
  let term := wrapping_sub u256_max 2 (wrapping_mul u256_max denom_odd inverse) in
  wrapping_mul u256_max inverse term.

Definition get_end_of_div_round_down (x y denom prod0_in prod1 : Z) : result Z :=
  if prod1 =? 0 then
    if denom =? 0 then Err (Revert "lb_math: mul_div by zero") else Ok (prod0_in / denom)
  else if denom <=? prod1 then Err (Revert "lb_math: mul_div overflow")
  else
    let remainder := mul_mod_512 x y denom in
    let prod1_adj := if prod0_in <? remainder then wrapping_sub u256_max prod1 1 else prod1 in
    let prod0_adj := wrapping_sub u256_max prod0_in remainder in
    let lpotdod := Z.land denom (wrapping_sub u256_max 0 denom) in
    let denom_odd := denom / lpotdod in
    let prod0_shifted := prod0_adj / lpotdod in
    let lpotdod_inv :=
      if lpotdod =? 0 then 1
      else wrapping_add u256_max (wrapping_sub u256_max 0 lpotdod / lpotdod) 1 in
    let combined := Z.lor prod0_shifted (wrapping_mul u256_max prod1_adj lpotdod_inv) in
    let inverse := Nat.iter 6 (newton denom_odd) (Z.lxor (wrapping_mul u256_max 3 denom_odd) 2) in
    Ok (wrapping_mul u256_max combined inverse).

Definition mul_shift_round_down (x y offset : Z) : result Z :=
  let '(prod0, prod1) := get_mul_prods x y in
  let result := if prod0 =? 0 then 0 else Z.shiftr prod0 offset in
  if prod1 =? 0 then Ok result
  else if shl256 1 offset <=? prod1 then Err (Revert "lb_math: mul_shift overflow")
  else if 0 <? offset then Ok (wrapping_add u256_max result (shl256 prod1 (256 - offset)))
  else Ok result.

Definition shift_div_round_down (x offset denom : Z) : result Z :=
  let prod0 := shl256 x offset in
  let prod1 := if offset =? 0 then 0 else Z.shiftr x (256 - offset) in
  let y := if 256 <=? offset then 0 else shl256 1 offset in
  get_end_of_div_round_down x y denom prod0 prod1.

(** * Checked scaling (scaled_math.rs) *)

Definition checked_product (numerator multiplier : Z) : result Z :=
  ok_or (checked_mul u256_max numerator multiplier) (Revert "scaled_math: multiplication overflow").

Definition require_denominator (denominator : Z) : result unit :=
  rrequire (negb (denominator =? 0)) (Revert "scaled_math: division by zero").

Definition checked_mul_div_floor (numerator multiplier denominator : Z) : result Z :=
  let? _ := require_denominator denominator in
  let? product := checked_product numerator multiplier in
  Ok (product / denominator).

Definition checked_mul_div_ceil (numerator multiplier denominator : Z) : result Z :=
  let? _ := require_denominator denominator in
  let? product := checked_product numerator multiplier in
  let quotient := product / denominator in
  if product mod denominator =? 0 then Ok quotient
  else ok_or (checked_add u256_max quotient 1) (Revert "scaled_math: ceiling overflow").

(** * Limbs *)

Definition limbs_ok (l : list Z) : Prop := Forall (fun d => 0 <= d < B64) l.

Lemma limbs_lookup l k : limbs_ok l -> 0 <= l !!! k < B64.
Proof.
  intros Hl. destruct (l !! k) as [d|] eqn:Hk.
  - rewrite (list_lookup_total_correct _ _ _ Hk). by apply (Forall_lookup_1 _ _ _ _ Hl Hk).
  - rewrite list_lookup_total_alt, Hk. simpl. unfold B64. lia.
Qed.

Lemma from_limbs_insert l : forall k v, (k < length l)%nat ->
  from_limbs (<[k := v]> l) = from_limbs l + (v - l !!! k) * B64 ^ Z.of_nat k.
Proof.
  induction l as [|d l IH]; intros [|k] v Hk; simpl in Hk; try lia.
  - cbn. lia.
  - change (<[S k := v]> (d :: l)) with (d :: <[k := v]> l). change ((d :: l) !!! S k) with (l !!! k).
    cbn [from_limbs]. rewrite IH by lia. rewrite Nat2Z.inj_succ, Z.pow_succ_r by lia. ring.
Qed.

Lemma from_limbs_app l1 l2 :
  from_limbs (l1 ++ l2) = from_limbs l1 + B64 ^ Z.of_nat (length l1) * from_limbs l2.
Proof.
  induction l1 as [|d l1 IH]; cbn [app from_limbs length]; [rewrite Z.pow_0_r; lia|].
  rewrite IH, Nat2Z.inj_succ, Z.pow_succ_r by lia. ring.
Qed.

Lemma from_limbs_range l : limbs_ok l -> 0 <= from_limbs l < B64 ^ Z.of_nat (length l).
Proof.
  induction 1 as [|d l Hd _ IH]; cbn [from_limbs length]; [rewrite Z.pow_0_r; lia|].
  rewrite Nat2Z.inj_succ, Z.pow_succ_r by lia. nia.
Qed.

Lemma from_limbs_take_S l j : (j < length l)%nat ->
  from_limbs (take (S j) l) = from_limbs (take j l) + l !!! j * B64 ^ Z.of_nat j.
Proof.
  intros Hj. destruct (lookup_lt_is_Some_2 l j Hj) as [d Hd].
  rewrite (take_S_r _ _ _ Hd), from_limbs_app, (list_lookup_total_correct _ _ _ Hd).
  rewrite length_take_le by lia. cbn. ring.
Qed.

Lemma as_limbs_ok x : limbs_ok (as_limbs x).
Proof. repeat constructor; apply limb_range. Qed.

Lemma from_as_limbs x : 0 <= x <= u256_max -> from_limbs (as_limbs x) = x.
Proof.
  intros Hx. unfold as_limbs, limb. cbn [from_limbs]. rewrite !Z.shiftr_div_pow2 by lia.
  change (2 ^ (64 * 0)) with 1. change (2 ^ (64 * 1)) with B64.
  change (2 ^ (64 * 2)) with (B64 * B64). change (2 ^ (64 * 3)) with (B64 * (B64 * B64)).
  assert (HB : 0 < B64) by done. rewrite Z.div_1_r, <- !Z.div_div by nia.
  assert (Hx4 : x / B64 / B64 / B64 < B64).
  { rewrite !Z.div_div by nia. apply Z.div_lt_upper_bound; [nia|]. unfold u256_max, B64 in *. lia. }
  assert (H0 : 0 <= x / B64 / B64 / B64) by (repeat apply Z.div_pos; lia).
  rewrite (Z.mod_small (x / B64 / B64 / B64)) by lia.
  pose proof (Z.div_mod x B64 ltac:(lia)). pose proof (Z.div_mod (x / B64) B64 ltac:(lia)).
  pose proof (Z.div_mod (x / B64 / B64) B64 ltac:(lia)). lia.
Qed.

(** * The schoolbook product is exact *)

Lemma limbs_insert l k v : limbs_ok l -> 0 <= v < B64 -> limbs_ok (<[k := v]> l).
Proof. intros Hl Hv. by apply Forall_insert. Qed.

(** The state of the inner loop over row [i] after [j] steps. *)
Record row_state (xi : Z) (ys : list Z) (i : nat) (start product : list Z) (j : nat) (carry : Z) : Prop := {
  rs_length : length product = 8%nat;
  rs_limbs : limbs_ok product;
  rs_carry : 0 <= carry < B64;
  rs_value : from_limbs product + carry * B64 ^ Z.of_nat (i + j)
             = from_limbs start + xi * B64 ^ Z.of_nat i * from_limbs (take j ys);
  rs_above : forall k, (i + j <= k)%nat -> product !!! k = start !!! k }.

Lemma mul_inner_ok xi ys i start product j carry :
  0 <= xi < B64 -> limbs_ok ys -> (j < length ys)%nat -> (i + j < 8)%nat ->
  row_state xi ys i start product j carry ->
  let st := mul_inner xi ys i (product, carry) j in
  row_state xi ys i start st.1 (S j) st.2.
Proof.
  intros Hxi Hys Hj Hij [Hlen Hlimbs Hcarry Hval Habove]. unfold mul_inner. cbn [fst snd].
  pose proof (limbs_lookup ys j Hys) as Hyj. pose proof (limbs_lookup product (i + j) Hlimbs) as Hcur.
  set (cur := product !!! (i + j)%nat) in *. set (yj := ys !!! j) in *.
  assert (Hp : wrapping_add u128_max (wrapping_add u128_max (wrapping_mul u128_max xi yj) cur) carry
               = xi * yj + cur + carry).
  { assert (Hmax : u128_max = (B64 - 1) * (B64 - 1) + 2 * (B64 - 1)) by done.
    assert (Hxy : 0 <= xi * yj <= (B64 - 1) * (B64 - 1)) by (split; [|apply Z.mul_le_mono_nonneg]; lia).
    rewrite (wrapping_mul_small u128_max xi yj) by lia.
    rewrite (wrapping_add_small u128_max (xi * yj)), wrapping_add_small by lia. done. }
  rewrite Hp. set (p := xi * yj + cur + carry) in *.
  assert (HB : 0 < B64) by done.
  rewrite Z.shiftr_div_pow2 by lia. change (2 ^ 64) with B64.
  pose proof (Z.div_mod p B64 ltac:(lia)) as Hdm. pose proof (Z.mod_pos_bound p B64 HB) as Hmod.
  constructor.
  - by rewrite length_insert.
  - by apply limbs_insert.
  - assert (Hxy : 0 <= xi * yj <= (B64 - 1) * (B64 - 1)) by (split; [|apply Z.mul_le_mono_nonneg]; lia).
    split; [apply Z.div_pos; lia|apply Z.div_lt_upper_bound; lia].
  - rewrite from_limbs_insert by lia. fold cur. rewrite from_limbs_take_S by done. fold yj.
    replace (i + S j)%nat with (S (i + j)) by lia. rewrite Nat2Z.inj_succ, Z.pow_succ_r by lia.
    replace (B64 ^ Z.of_nat (i + j)) with (B64 ^ Z.of_nat i * B64 ^ Z.of_nat j) in *
      by (rewrite <- Z.pow_add_r by lia; f_equal; lia).
    replace (p mod B64) with (p - B64 * (p / B64)) by lia.
    generalize (p / B64). intros q. unfold p.
    match type of Hval with ?a = ?b + ?c => replace b with (a - c) by lia end. ring.
  - intros k Hk. rewrite list_lookup_total_insert_ne by lia. apply Habove. lia.
Qed.

Lemma mul_inner_loop xi ys i start : forall n j product carry,
  0 <= xi < B64 -> limbs_ok ys -> (j + n <= length ys)%nat -> (i + j + n <= 8)%nat ->
  row_state xi ys i start product j carry ->
  let st := fold_left (mul_inner xi ys i) (seq j n) (product, carry) in
  row_state xi ys i start st.1 (j + n) st.2.
Proof.
  induction n as [|n IH]; intros j product carry Hxi Hys Hj Hij Hst.
  - rewrite Nat.add_0_r. exact Hst.
  - cbn [seq fold_left]. pose proof (mul_inner_ok xi ys i start product j carry Hxi Hys ltac:(lia) ltac:(lia) Hst) as Hn.
    destruct (mul_inner xi ys i (product, carry) j) as [product' carry'].
    replace (j + S n)%nat with (S j + n)%nat by lia. apply IH; (done || lia).
Qed.

(** The product after [i] rows. *)
Record rows_state (xs ys product : list Z) (i : nat) : Prop := {
  rows_length : length product = 8%nat;
  rows_limbs : limbs_ok product;
  rows_value : from_limbs product = from_limbs (take i xs) * from_limbs ys;
  rows_above : forall k, (i + 4 <= k < 8)%nat -> product !!! k = 0 }.

Lemma mul_row_ok xs ys product i :
  limbs_ok xs -> limbs_ok ys -> length ys = 4%nat -> (i < length xs)%nat -> (i < 4)%nat ->
  rows_state xs ys product i -> rows_state xs ys (mul_row xs ys product i) (S i).
Proof.
  intros Hxs Hys Hly Hi Hi4 [Hlen Hlimbs Hval Habove]. unfold mul_row.
  pose proof (mul_inner_loop (xs !!! i) ys i product 4 0 product 0 (limbs_lookup xs i Hxs) Hys
    ltac:(lia) ltac:(lia)) as Hloop.
  destruct (fold_left _ (seq 0 4) (product, 0)) as [product' carry].
  destruct Hloop as [Hlen' Hlimbs' Hc Hv Ha].
  { constructor; try done. rewrite take_0. cbn [from_limbs]. lia. }
  cbn [fst snd] in *. rewrite Z.mod_small by done. constructor.
  - by rewrite length_insert.
  - by apply limbs_insert.
  - rewrite from_limbs_insert by lia. rewrite Ha, Habove by lia.
    rewrite from_limbs_take_S by done. rewrite take_ge in Hv by lia.
    simpl (0 + 4)%nat in Hv. rewrite Hval in Hv. lia.
  - intros k Hk. rewrite list_lookup_total_insert_ne by lia. rewrite Ha by lia. apply Habove. lia.
Qed.

Lemma mul_prods x y :
  0 <= x <= u256_max -> 0 <= y <= u256_max ->
  let '(prod0, prod1) := get_mul_prods x y in
  0 <= prod0 <= u256_max /\ 0 <= prod1 <= u256_max /\ x * y = prod1 * W256 + prod0.
Proof.
  intros Hx Hy. unfold get_mul_prods.
  assert (Hrows : rows_state (as_limbs x) (as_limbs y) (replicate 8 0) 0).
  { constructor; [done|by apply Forall_replicate|done|]. intros. apply lookup_total_replicate_2. lia. }
  assert (Hend : rows_state (as_limbs x) (as_limbs y)
    (fold_left (mul_row (as_limbs x) (as_limbs y)) (seq 0 4) (replicate 8 0)) 4).
  { cbn [seq fold_left]. repeat apply mul_row_ok; try apply as_limbs_ok; try done; simpl; lia. }
  destruct Hend as [Hlen Hlimbs Hval _].
  set (product := fold_left _ _ _) in *. cbv zeta.
  rewrite (take_ge (as_limbs x)), !from_as_limbs in Hval by (done || simpl; lia).
  rewrite <- (take_drop 4 product) in Hval, Hlimbs.
  apply Forall_app in Hlimbs as [Hl0 Hl1].
  pose proof (from_limbs_range _ Hl0) as H0. pose proof (from_limbs_range _ Hl1) as H1.
  rewrite length_take in H0. rewrite length_drop in H1. rewrite Hlen in H0, H1.
  rewrite from_limbs_app, length_take, Hlen in Hval.
  change (B64 ^ Z.of_nat (4 `min` 8)) with W256 in *. change (B64 ^ Z.of_nat (8 - 4)) with W256 in *.
  unfold u256_max, W256 in *. lia.
Qed.

(** * The bitwise remainder

    Shifting the remainder left drops its top bit when the remainder reaches
    2^255, so the loop is exact for denominators up to 2^255 only. *)

Lemma lor_one r : Z.lor (2 * r) 1 = 2 * r + 1.
Proof. destruct r as [|p|[]]; done. Qed.

Lemma mod_bit_ok word denom rem bit :
  0 < denom <= 2 ^ 255 -> 0 <= rem < denom -> 0 <= bit < 256 ->
  mod_bit word denom rem bit = (2 * rem + Z.b2z (Z.testbit word bit)) mod denom.
Proof.
  intros Hd Hr Hb. unfold mod_bit. rewrite test_bit by done.
  assert (Hshl : shl256 rem 1 = 2 * rem).
  { unfold shl256, W256. rewrite Z.shiftl_mul_pow2, Z.mod_small by lia. lia. }
  rewrite Hshl, lor_one. set (v := if Z.testbit word bit then 2 * rem + 1 else 2 * rem).
  assert (Hv : v = 2 * rem + Z.b2z (Z.testbit word bit)) by (unfold v; destruct (Z.testbit word bit); simpl; lia).
  rewrite <- Hv. assert (0 <= v < 2 * denom) by (unfold v; destruct (Z.testbit word bit); lia).
  destruct (Z.leb_spec denom v).
  - rewrite wrapping_sub_small by (unfold u256_max; lia).
    replace v with (v - denom + 1 * denom) at 2 by lia. by rewrite Z.mod_add, Z.mod_small by lia.
  - by rewrite Z.mod_small by lia.
Qed.

Lemma mod_pow2_succ word n :
  word mod 2 ^ Z.of_nat (S n) = Z.b2z (Z.testbit word (Z.of_nat n)) * 2 ^ Z.of_nat n + word mod 2 ^ Z.of_nat n.
Proof.
  assert (H0 : 0 < 2 ^ Z.of_nat n) by (apply Z.pow_pos_nonneg; lia).
  rewrite Nat2Z.inj_succ, Z.pow_succ_r by lia. rewrite (Z.mul_comm 2), Z.rem_mul_r by lia.
  rewrite Z.testbit_spec' by lia. lia.
Qed.

Lemma mod_bits_ok word denom n : forall rem,
  0 < denom <= 2 ^ 255 -> 0 <= rem < denom -> (n <= 256)%nat ->
  fold_left (mod_bit word denom) (reverse (seqZ 0 (Z.of_nat n))) rem
  = (rem * 2 ^ Z.of_nat n + word mod 2 ^ Z.of_nat n) mod denom.
Proof.
  induction n as [|n IH]; intros rem Hd Hr Hn.
  { simpl fold_left. change (2 ^ Z.of_nat 0) with 1. rewrite Z.mod_1_r, Z.mod_small; lia. }
  replace (Z.of_nat (S n)) with (Z.of_nat n + 1) at 1 by lia.
  rewrite seqZ_app, reverse_app by lia. rewrite Z.add_0_l.
  assert (Hone : seqZ (Z.of_nat n) 1 = [Z.of_nat n]) by (rewrite seqZ_cons by lia; done).
  rewrite Hone, reverse_singleton. cbn [app fold_left]. rewrite mod_bit_ok by lia.
  rewrite IH; [|done|by apply Z.mod_pos_bound; lia|lia].
  rewrite mod_pow2_succ. rewrite Nat2Z.inj_succ, Z.pow_succ_r by lia.
  set (b := Z.b2z _). rewrite Z.add_mod, Z.mul_mod_idemp_l, <- Z.add_mod by lia. f_equal. lia.
Qed.

Lemma mod_word_ok word denom rem :
  0 < denom <= 2 ^ 255 -> 0 <= rem < denom -> 0 <= word <= u256_max ->
  fold_left (mod_bit word denom) (reverse (seqZ 0 256)) rem = (rem * W256 + word) mod denom.
Proof.
  intros Hd Hr Hw. pose proof (mod_bits_ok word denom (Z.to_nat 256) rem Hd Hr ltac:(lia)) as H.
  rewrite Z2Nat.id in H by lia. rewrite H. fold W256.
  rewrite (Z.mod_small word); [done|]. unfold u256_max, W256 in *. lia.
Qed.

Lemma fold_left_pair {A B} (f : A -> B -> A) a b x : fold_left f [a; b] x = f (f x a) b.
Proof. done. Qed.

Lemma mul_mod_ok x y denom :
  0 <= x <= u256_max -> 0 <= y <= u256_max -> 0 < denom <= 2 ^ 255 ->
  mul_mod_512 x y denom = (x * y) mod denom.
Proof.
  intros Hx Hy Hd. unfold mul_mod_512. pose proof (mul_prods x y Hx Hy) as Hp.
  destruct (get_mul_prods x y) as [p0 p1]. destruct Hp as (H0 & H1 & Hxy).
  rewrite fold_left_pair. rewrite (mod_word_ok p1) by lia. rewrite Z.mul_0_l, Z.add_0_l.
  rewrite mod_word_ok; [|done|apply Z.mod_pos_bound; lia|done].
  rewrite Z.add_mod, Z.mul_mod_idemp_l, <- Z.add_mod by lia. by rewrite Hxy.
Qed.

(** * Division by the modular inverse *)

Lemma split_odd d : 0 < d -> exists t o, 0 <= t /\ 0 < o /\ Z.odd o = true /\ d = 2 ^ t * o.
Proof.
  intros Hd. destruct d as [|p|p]; try lia. clear Hd. induction p as [p _|p IH|].
  - exists 0, (Z.pos p~1). split_and!; done.
  - destruct IH as (t & o & Ht & Ho & Hodd & Hp). exists (t + 1), o. split_and!; try (done || lia).
    rewrite Z.pow_add_r by lia. change (Z.pos p~0) with (2 * Z.pos p). lia.
  - by exists 0, 1.
Qed.

Lemma land_neg_odd o : Z.odd o = true -> Z.land o (- o) = 1.
Proof.
  intros Hodd. pose proof (Z.div2_odd o) as Ho. rewrite Hodd in Ho. simpl in Ho. set (m := Z.div2 o) in *.
  apply Z.bits_inj'. intros i Hi. rewrite Z.land_spec.
  replace (- o) with (2 * Z.lnot m + 1) by (rewrite Ho; unfold Z.lnot; lia). rewrite Ho.
  destruct (Z.eq_dec i 0) as [->|Hi0]; [by rewrite !Z.testbit_odd_0|].
  replace i with (Z.succ (i - 1)) by lia. rewrite !Z.testbit_odd_succ by lia.
  rewrite Z.lnot_spec by lia. rewrite andb_negb_r. symmetry.
  etransitivity; [apply (Z.testbit_odd_succ 0 (i - 1)); lia|apply Z.bits_0].
Qed.

Lemma lowest_power t o :
  0 <= t -> 0 < o -> Z.odd o = true -> 2 ^ t * o < W256 ->
  Z.land (2 ^ t * o) (wrapping_sub u256_max 0 (2 ^ t * o)) = 2 ^ t.
Proof.
  intros Ht Ho Hodd Hd. unfold wrapping_sub. rewrite u256_W256, Z.sub_0_l.
  unfold W256. rewrite <- Z.land_ones by lia. rewrite Z.land_assoc.
  rewrite (Z.mul_comm (2 ^ t)), <- Z.mul_opp_l, <- !Z.shiftl_mul_pow2 by lia.
  rewrite <- Z.shiftl_land, land_neg_odd by done. rewrite Z.shiftl_1_l, Z.land_ones by lia.
  apply Z.mod_small. assert (0 < 2 ^ t) by (apply Z.pow_pos_nonneg; lia). unfold W256 in Hd. nia.
Qed.

(** [inverse] inverts [o] modulo 2^k. *)
Definition inverts (o inverse k : Z) : Prop := (o * inverse) mod 2 ^ k = 1.

Lemma inverts_dvd o i k : 0 < k -> inverts o i k <-> (2 ^ k | o * i - 1).
Proof.
  intros Hk. assert (1 < 2 ^ k) by (apply Z.pow_gt_1; lia). unfold inverts.
  rewrite <- Z.mod_divide by lia. split; intros H1.
  - rewrite Zminus_mod, H1, (Z.mod_small 1) by lia. rewrite Z.sub_diag. apply Z.mod_0_l. lia.
  - replace (o * i) with (o * i - 1 + 1) by lia. rewrite Z.add_mod, H1 by lia.
    rewrite Z.add_0_l, Z.mod_mod by lia. apply Z.mod_small. lia.
Qed.

Lemma mod_W256_eq a k : 0 < k <= 256 -> (2 ^ k | a mod W256 - a).
Proof.
  intros Hk. exists (- (a / W256) * 2 ^ (256 - k)). rewrite <- Z.mul_assoc, <- Z.pow_add_r by lia.
  replace (256 - k + k) with 256 by lia. fold W256.
  pose proof (Z.div_mod a W256 ltac:(done)). lia.
Qed.

(** The error of a Newton step is the square of the error before it. *)
Lemma newton_ok o i k : 0 < k -> 2 * k <= 256 -> inverts o i k -> inverts o (newton o i) (2 * k).
Proof.
  intros Hk H2k Hi. apply inverts_dvd in Hi as [e He]; [|done]. apply inverts_dvd; [lia|].
  unfold newton, wrapping_sub, wrapping_mul. rewrite u256_W256.
  destruct (mod_W256_eq (o * i) (2 * k) ltac:(lia)) as [c1 Hc1].
  destruct (mod_W256_eq (2 - (o * i) mod W256) (2 * k) ltac:(lia)) as [c2 Hc2].
  set (term := (2 - (o * i) mod W256) mod W256) in *.
  destruct (mod_W256_eq (i * term) (2 * k) ltac:(lia)) as [c3 Hc3].
  assert (Hsq : 2 ^ (2 * k) = 2 ^ k * 2 ^ k) by (rewrite <- Z.pow_add_r by lia; f_equal; lia).
  replace ((i * term) mod W256) with (i * term + c3 * 2 ^ (2 * k)) by lia.
  replace term with (2 - (o * i + c1 * 2 ^ (2 * k)) + c2 * 2 ^ (2 * k)) by lia.
  exists (o * i * (c2 - c1) + o * c3 - e * e). rewrite Hsq.
  replace (o * i) with (1 + e * 2 ^ k) by lia.
  match goal with |- o * (i * ?t + ?c) - 1 = _ =>
    replace (o * (i * t + c) - 1) with (o * i * t + o * c - 1) by ring end.
  replace (o * i) with (1 + e * 2 ^ k) by lia. ring.
Qed.

Lemma lxor_two_mod a : Z.lxor a 2 mod 2 ^ 4 = Z.lxor (a mod 2 ^ 4) 2.
Proof.
  apply Z.bits_inj'. intros i Hi. rewrite Z.lxor_spec. destruct (Z.lt_ge_cases i 4) as [Hlt|Hge].
  - by rewrite !Z.mod_pow2_bits_low, Z.lxor_spec by lia.
  - rewrite !Z.mod_pow2_bits_high by lia. rewrite (Z.bits_above_log2 2) by (simpl; lia). done.
Qed.

(** The seed is exact for four bits: checked on the odd residues modulo 16. *)
Lemma seed_ok o : Z.odd o = true -> inverts o (Z.lxor (wrapping_mul u256_max 3 o) 2) 4.
Proof.
  intros Hodd. unfold inverts, wrapping_mul. rewrite u256_W256.
  assert (Hx : Z.lxor ((3 * o) mod W256) 2 mod 2 ^ 4 = Z.lxor ((3 * (o mod 16)) mod 16) 2).
  { rewrite lxor_two_mod. change (2 ^ 4) with 16. f_equal.
    unfold W256. change (2 ^ 256) with (16 * 2 ^ 252). rewrite Z.rem_mul_r by lia.
    rewrite Z.add_mod, (Z.mul_comm 16), Z.mod_mul, Z.add_0_r, !Z.mod_mod by lia.
    by rewrite Z.mul_mod_idemp_r. }
  rewrite Z.mul_mod, Hx by lia. change (2 ^ 4) with 16.
  assert (Ho : Z.odd (o mod 16) = true).
  { rewrite <- Z.bit0_odd. change 16 with (2 ^ 4). rewrite Z.mod_pow2_bits_low by lia. by rewrite Z.bit0_odd. }
  pose proof (Z.mod_pos_bound o 16 ltac:(lia)) as Hr. generalize dependent (o mod 16). intros r _ Ho Hr.
  assert (Hall : forallb (fun r => negb (Z.odd r) || ((r * Z.lxor ((3 * r) mod 16) 2) mod 16 =? 1))
                   (seqZ 0 16) = true) by (vm_compute; reflexivity).
  rewrite forallb_forall in Hall. specialize (Hall r).
  rewrite <- list_elem_of_In, elem_of_seqZ, Ho in Hall. specialize (Hall ltac:(lia)).
  by apply Z.eqb_eq in Hall.
Qed.

Lemma inverse_ok o : Z.odd o = true ->
  inverts o (Nat.iter 6 (newton o) (Z.lxor (wrapping_mul u256_max 3 o) 2)) 256.
Proof.
  intros Hodd. change 256 with (2 * (2 * (2 * (2 * (2 * (2 * 4)))))). cbn [Nat.iter].
  do 6 (apply newton_ok; [lia|lia|]). by apply seed_ok.
Qed.

(** Dividing an exact multiple: with [n = q * 2^t * o], the words of [n], the
    power of two and the inverse of [o] give back [q]. *)
Lemma exact_division q t o inverse p0 p1 :
  0 <= t < 256 -> 0 < o -> Z.odd o = true -> inverts o inverse 256 ->
  0 <= q <= u256_max -> 0 <= p0 <= u256_max -> q * (2 ^ t * o) = p1 * W256 + p0 ->
  let inv := wrapping_add u256_max (wrapping_sub u256_max 0 (2 ^ t) / 2 ^ t) 1 in
  wrapping_mul u256_max (Z.lor (p0 / 2 ^ t) (wrapping_mul u256_max p1 inv)) inverse = q.
Proof.
  intros Ht Ho Hodd Hinv Hq Hp0 Hn inv.
  assert (H2t : 0 < 2 ^ t) by (apply Z.pow_pos_nonneg; lia).
  set (c := 2 ^ (256 - t)). assert (Hc : 0 < c) by (apply Z.pow_pos_nonneg; lia).
  assert (HW : W256 = c * 2 ^ t) by (unfold c, W256; rewrite <- Z.pow_add_r by lia; f_equal; lia).
  assert (Hinv' : inv = c mod W256).
  { unfold inv, wrapping_add, wrapping_sub. rewrite u256_W256.
    replace (0 - 2 ^ t) with (- 2 ^ t) by lia.
    assert ((- 2 ^ t) mod W256 = (c - 1) * 2 ^ t) as ->.
    { symmetry. apply Z.mod_unique with (-1); [left|]; nia. }
    rewrite Z.div_mul by lia. f_equal. lia. }
  assert (Hd0 : exists r, p0 = r * 2 ^ t).
  { exists (q * o - p1 * c). rewrite HW in Hn. nia. }
  destruct Hd0 as [r ->]. rewrite Z.div_mul by lia.
  assert (Hqo : q * o = p1 * c + r) by (rewrite HW in Hn; nia).
  assert (Hr : 0 <= r < c) by (unfold u256_max in Hp0; fold W256 in Hp0; nia).
  assert (Hor : Z.lor r (wrapping_mul u256_max p1 inv) = r + wrapping_mul u256_max p1 inv).
  { unfold wrapping_mul. rewrite u256_W256, Hinv', Z.mul_mod_idemp_r by done.
    rewrite HW, (Z.mul_comm p1), Z.mul_mod_distr_l by lia.
    assert (0 <= p1 mod 2 ^ t) by (apply Z.mod_pos_bound; lia).
    rewrite <- Z.lxor_lor, Z.add_nocarry_lxor; [done|..].
    all: unfold c; rewrite (Z.mul_comm (2 ^ _)), <- Z.shiftl_mul_pow2 by lia.
    all: apply Z.bits_inj'; intros i Hi; rewrite Z.land_spec, Z.bits_0.
    all: destruct (Z.lt_ge_cases i (256 - t)) as [Hlt|Hge].
    all: try (rewrite Z.shiftl_spec_low by lia; apply andb_false_r).
    all: apply andb_false_intro1.
    all: destruct (Z.eq_dec r 0) as [->|]; [apply Z.bits_0|].
    all: apply Z.bits_above_log2; [lia|]; apply Z.log2_lt_pow2; [lia|].
    all: apply Z.lt_le_trans with c; [lia|]; apply Z.pow_le_mono_r; lia. }
  rewrite Hor. unfold wrapping_mul. rewrite u256_W256, Hinv', Z.mul_mod_idemp_r by done.
  rewrite Z.mul_mod, Z.add_mod_idemp_r, <- Z.mul_mod by done.
  replace (r + p1 * c) with (q * o) by lia. rewrite <- Z.mul_assoc, Z.mul_mod by done.
  unfold inverts in Hinv. fold W256 in Hinv. rewrite Hinv, Z.mul_1_r, Z.mod_mod by done.
  apply Z.mod_small. unfold u256_max in Hq. fold W256 in Hq. lia.
Qed.

(** The floor of a quotient when it fits a word. *)
Definition floor_or (n d : Z) (msg : string) : result Z :=
  if n / d <=? u256_max then Ok (n / d) else Err (Revert msg).

Lemma end_of_div_ok x y denom p0 p1 :
  0 <= x <= u256_max -> 0 <= y <= u256_max -> 0 < denom <= 2 ^ 255 ->
  0 <= p0 <= u256_max -> 0 <= p1 <= u256_max -> x * y = p1 * W256 + p0 ->
  get_end_of_div_round_down x y denom p0 p1 = floor_or (x * y) denom "lb_math: mul_div overflow".
Proof.
  intros Hx Hy Hd Hp0 Hp1 Hxy. unfold get_end_of_div_round_down, floor_or.
  assert (Hmax : u256_max = W256 - 1) by done. pose proof W256_pos as HW.
  destruct (Z.eqb_spec p1 0) as [->|Hp1nz].
  { rewrite (proj2 (Z.eqb_neq denom 0)) by lia. rewrite Hxy, Z.mul_0_l, Z.add_0_l.
    rewrite (proj2 (Z.leb_le _ _)); [done|]. apply Z.div_le_upper_bound; nia. }
  pose proof (Z.div_mod (x * y) denom ltac:(lia)) as Hdm.
  pose proof (Z.mod_pos_bound (x * y) denom ltac:(lia)) as Hrem.
  set (q := x * y / denom) in *.
  destruct (Z.leb_spec denom p1) as [Hov|Hfit].
  { rewrite (proj2 (Z.leb_gt _ _)); [done|].
    enough (W256 <= q) by lia. apply Z.div_le_lower_bound; nia. }
  assert (Hq : 0 <= q <= u256_max).
  { split; [apply Z.div_pos; nia|]. enough (q < W256) by lia. apply Z.div_lt_upper_bound; nia. }
  rewrite (proj2 (Z.leb_le q _)) by lia.
  destruct (split_odd denom ltac:(lia)) as (t & o & Ht & Ho & Hodd & Heq).
  assert (Ht256 : t < 256).
  { apply (Z.pow_lt_mono_r_iff 2); [lia|lia|]. assert (0 < 2 ^ t) by (apply Z.pow_pos_nonneg; lia).
    assert (2 ^ 255 < 2 ^ 256) by (apply Z.pow_lt_mono_r; lia). nia. }
  assert (H2t : 0 < 2 ^ t) by (apply Z.pow_pos_nonneg; lia).
  assert (Hlow : Z.land denom (wrapping_sub u256_max 0 denom) = 2 ^ t).
  { rewrite Heq. apply lowest_power; try done. rewrite <- Heq.
    assert (2 ^ 255 < W256) by done. lia. }
  rewrite mul_mod_ok by done. rewrite Hlow. rewrite (proj2 (Z.eqb_neq (2 ^ t) 0)) by lia.
  assert (Ho' : denom / 2 ^ t = o) by (rewrite Heq, (Z.mul_comm (2 ^ t)); apply Z.div_mul; lia).
  rewrite Ho'. f_equal. set (rem := (x * y) mod denom) in *.
  apply (exact_division q t o); try done; [by apply inverse_ok| |].
  - unfold wrapping_sub. pose proof (Z.mod_pos_bound (p0 - rem) (u256_max + 1) ltac:(done)). lia.
  - rewrite <- Heq. unfold wrapping_sub. rewrite u256_W256. assert (2 ^ 255 < W256) by done.
    destruct (Z.ltb_spec p0 rem) as [Hb|Hb].
    + rewrite (Z.mod_small (p1 - 1)) by lia.
      replace ((p0 - rem) mod W256) with (p0 - rem + W256); [lia|].
      apply Z.mod_unique with (-1); [left|]; lia.
    + rewrite (Z.mod_small (p0 - rem)) by lia. lia.
Qed.

Lemma mul_shift_ok x y offset :
  0 <= x <= u256_max -> 0 <= y <= u256_max -> 0 <= offset < 256 ->
  mul_shift_round_down x y offset = floor_or (x * y) (2 ^ offset) "lb_math: mul_shift overflow".
Proof.
  intros Hx Hy Ho. unfold mul_shift_round_down, floor_or. pose proof (mul_prods x y Hx Hy) as Hp.
  destruct (get_mul_prods x y) as [p0 p1]. destruct Hp as (H0 & H1 & Hxy).
  assert (H2o : 0 < 2 ^ offset) by (apply Z.pow_pos_nonneg; lia).
  assert (Hres : (if p0 =? 0 then 0 else Z.shiftr p0 offset) = p0 / 2 ^ offset).
  { rewrite Z.shiftr_div_pow2 by lia. destruct (Z.eqb_spec p0 0) as [->|]; [|done].
    by rewrite Z.div_0_l by lia. }
  rewrite Hres, shl256_bit by done.
  assert (Hmax : u256_max = W256 - 1) by done. pose proof W256_pos as HW.
  set (c := 2 ^ (256 - offset)). assert (Hc : 0 < c) by (apply Z.pow_pos_nonneg; lia).
  assert (HWc : W256 = c * 2 ^ offset) by (unfold c, W256; rewrite <- Z.pow_add_r by lia; f_equal; lia).
  assert (Hdiv : x * y / 2 ^ offset = p1 * c + p0 / 2 ^ offset).
  { rewrite Hxy, HWc, Z.mul_assoc, Z.add_comm, Z.div_add by lia. lia. }
  assert (Hlo : 0 <= p0 / 2 ^ offset < c)
    by (split; [apply Z.div_pos; lia|apply Z.div_lt_upper_bound; nia]).
  rewrite Hdiv. destruct (Z.eqb_spec p1 0) as [->|Hp1].
  { rewrite Z.mul_0_l, Z.add_0_l, (proj2 (Z.leb_le _ _)); [done|]. nia. }
  destruct (Z.leb_spec (2 ^ offset) p1) as [Hov|Hfit].
  { rewrite (proj2 (Z.leb_gt _ _)); [done|]. nia. }
  assert (Hlt : p1 * c + p0 / 2 ^ offset <= u256_max) by nia.
  rewrite (proj2 (Z.leb_le _ _) Hlt). destruct (Z.ltb_spec 0 offset) as [Hpos|Hz].
  - unfold shl256. rewrite Z.shiftl_mul_pow2 by lia. fold c. rewrite (Z.mod_small (p1 * c)) by nia.
    rewrite wrapping_add_small by nia. f_equal. lia.
  - replace offset with 0 in Hfit by lia. change (2 ^ 0) with 1 in Hfit. lia.
Qed.

Lemma shift_div_ok x offset denom :
  0 <= x <= u256_max -> 0 <= offset < 256 -> 0 < denom <= 2 ^ 255 ->
  shift_div_round_down x offset denom = floor_or (x * 2 ^ offset) denom "lb_math: mul_div overflow".
Proof.
  intros Hx Ho Hd. unfold shift_div_round_down. rewrite (proj2 (Z.leb_gt 256 offset)) by lia.
  rewrite shl256_bit by done.
  assert (Hmax : u256_max = W256 - 1) by done. pose proof W256_pos as HW.
  assert (H2o : 0 < 2 ^ offset < W256)
    by (split; [apply Z.pow_pos_nonneg; lia|apply Z.pow_lt_mono_r; lia]).
  assert (Hp1 : (if offset =? 0 then 0 else Z.shiftr x (256 - offset)) = x * 2 ^ offset / W256).
  { set (c := 2 ^ (256 - offset)). assert (Hc : 0 < c) by (apply Z.pow_pos_nonneg; lia).
    assert (HWc : W256 = c * 2 ^ offset) by (unfold c, W256; rewrite <- Z.pow_add_r by lia; f_equal; lia).
    rewrite HWc, Z.div_mul_cancel_r by lia. rewrite Z.shiftr_div_pow2 by lia. fold c.
    destruct (Z.eqb_spec offset 0) as [->|]; [|done]. symmetry. apply Z.div_small.
    change c with W256. lia. }
  unfold shl256. rewrite Z.shiftl_mul_pow2 by lia.
  apply end_of_div_ok; try lia.
  - pose proof (Z.mod_pos_bound (x * 2 ^ offset) W256 HW). lia.
  - rewrite Hp1. split; [apply Z.div_pos; nia|]. apply Z.lt_succ_r. rewrite Hmax.
    apply Z.div_lt_upper_bound; nia.
  - rewrite Hp1. pose proof (Z.div_mod (x * 2 ^ offset) W256 ltac:(lia)). lia.
Qed.

Lemma mul_div_floor_ok n m d :
  0 <= n -> 0 <= m -> 0 < d -> n * m <= u256_max -> checked_mul_div_floor n m d = Ok (n * m / d).
Proof.
  intros Hn Hm Hd Hp. unfold checked_mul_div_floor, checked_product, require_denominator, checked_mul.
  rewrite (proj2 (Z.eqb_neq d 0)), (proj2 (Z.leb_le _ _)) by lia. done.
Qed.

(** The ceiling never overflows: a quotient at the maximum is exact. *)
Lemma mul_div_ceil_ok n m d :
  0 <= n -> 0 <= m -> 0 < d -> n * m <= u256_max ->
  checked_mul_div_ceil n m d = Ok ((n * m + d - 1) / d).
Proof.
  intros Hn Hm Hd Hp. unfold checked_mul_div_ceil, checked_product, require_denominator, checked_mul.
  rewrite (proj2 (Z.eqb_neq d 0)), (proj2 (Z.leb_le (n * m) _)) by lia. simpl.
  set (p := n * m) in *. assert (0 <= p) by (unfold p; nia).
  pose proof (Z.div_mod p d ltac:(lia)) as Hdm. pose proof (Z.mod_pos_bound p d Hd) as Hr.
  destruct (Z.eqb_spec (p mod d) 0) as [Hz|Hnz].
  - f_equal. apply Z.div_unique with (d - 1); lia.
  - assert (Hq : p / d + 1 <= u256_max).
    { assert (2 <= d) by (destruct (Z.eq_dec d 1) as [->|]; [by rewrite Z.mod_1_r in Hnz|lia]).
      assert (p / d <= p / 2) by (apply Z.div_le_compat_l; lia).
      assert (p / 2 <= u256_max / 2) by (apply Z.div_le_mono; lia).
      assert (u256_max / 2 + 1 <= u256_max) by done. lia. }
    unfold checked_add. rewrite (proj2 (Z.leb_le _ _) Hq). simpl. f_equal.
    apply Z.div_unique with (p mod d - 1); lia.
Qed.

(** * Property *)

(** C35. The Liquidity Book divisions are exact: [mul_shift_round_down] is the
    floor of the full 512-bit product shifted, [shift_div_round_down] the floor
    of the full quotient for denominators up to 2^255, and both refuse exactly
    the results that do not fit a word. The bound on the denominator cannot be
    raised: at 2^255 + 1 the bitwise remainder loses its top bit and a division
    returns 0 for a quotient of 1. *)
Theorem lb_division_exact x y offset denom :
  0 <= x <= u256_max -> 0 <= y <= u256_max -> 0 <= offset < 256 -> 0 < denom <= 2 ^ 255 ->
  mul_shift_round_down x y offset
    = (if x * y / 2 ^ offset <=? u256_max then Ok (x * y / 2 ^ offset)
       else Err (Revert "lb_math: mul_shift overflow"))
  /\ shift_div_round_down x offset denom
    = (if x * 2 ^ offset / denom <=? u256_max then Ok (x * 2 ^ offset / denom)
       else Err (Revert "lb_math: mul_div overflow"))
  /\ shift_div_round_down (2 ^ 255) 1 (2 ^ 255 + 1) = Ok 0
  /\ 2 ^ 255 * 2 ^ 1 / (2 ^ 255 + 1) = 1.
Proof.
  intros Hx Hy Ho Hd. split; [by apply mul_shift_ok|]. split; [by apply shift_div_ok|].
  split; vm_compute; reflexivity.
Qed.

Lemma lb_division_exact_witness :
  shift_div_round_down (10 ^ 40) 128 (10 ^ 18) = Ok (10 ^ 22 * 2 ^ 128)
  /\ mul_shift_round_down (2 ^ 255) (2 ^ 255) 128 = Err (Revert "lb_math: mul_shift overflow").
Proof.
  destruct (lb_division_exact (10 ^ 40) 0 128 (10 ^ 18)) as (_ & H1 & _);
    [vm_compute; by split..|].
  destruct (lb_division_exact (2 ^ 255) (2 ^ 255) 128 1) as (H2 & _);
    [vm_compute; by split..|].
  rewrite H1, H2. split; vm_compute; reflexivity.
Defined.
