(* ===== verification/PriceMath.v ===== *)
(** The price ladder of the Liquidity Book: 128.128 fixed-point logarithm and
    power, bin ids of prices, and the COEN/ISO adapter over them.

    Sources: [crates/blockchain/primitives/src/math/constants.rs],
    [uint128x128_math.rs], [price_helper.rs] and [reference_price.rs]. *)

From S2P Require Import Prelude BitMath MulDiv.

(** * Constants (constants.rs) *)

Definition SCALE_OFFSET : Z := 128.
Definition SCALE_1_128_128 : Z := 2 ^ 128.
Definition PRECISION : Z := 1000000000000000000.
Definition BASIS_POINT_MAX : Z := 10000.
Definition REAL_ID_SHIFT : Z := 2 ^ 23.
Definition MAX_BIN_ID : Z := 2 ^ 24 - 1.

(** * Signed words

    [I256] operators wrap in release builds; [saturating_add] clamps. *)

Definition i256 (z : Z) : Z := (z + 2 ^ 255) mod 2 ^ 256 - 2 ^ 255.
Definition i256_saturating_add (a b : Z) : Z := Z.max (- 2 ^ 255) (Z.min (2 ^ 255 - 1) (a + b)).
Definition i32 (z : Z) : Z := (z + 2 ^ 31) mod 2 ^ 32 - 2 ^ 31.

(** * Logarithm and power (uint128x128_math.rs) *)

Definition LOG_SCALE_OFFSET : Z := 127.
Definition LOG_SCALE : Z := 2 ^ 127.
Definition LOG_SCALE_SQUARED : Z := 2 ^ 254.

(** The [while delta > 0] loop: one bit of the fraction per round. *)
Fixpoint log2_bits (fuel : nat) (y res delta : Z) : result Z :=
  match fuel with
  | O => Panic
  | S fuel' =>
      if delta <=? 0 then Ok res
      else
        let y := Z.shiftr (wrapping_mul u256_max y y) LOG_SCALE_OFFSET in
        if shl256 1 (LOG_SCALE_OFFSET + 1) <=? y
        then log2_bits fuel' (Z.shiftr y 1) (i256_saturating_add res delta) (Z.shiftr delta 1)
        else log2_bits fuel' y res (Z.shiftr delta 1)
  end.

Definition log2 (x : Z) : result Z :=
  if x =? 1 then Ok (-128)
  else if x =? 0 then Err (Revert "lb_math: log2 underflow (x == 0)")
  else
    let x_half := Z.shiftr x 1 in
    let '(sign, x_inner) :=
      if LOG_SCALE <=? x_half then (1, x_half) else (-1, LOG_SCALE_SQUARED / x_half) in
    let n := most_significant_bit (Z.shiftr x_inner LOG_SCALE_OFFSET) in
    let res := i256 (Z.shiftl n LOG_SCALE_OFFSET) in
    let y := Z.shiftr x_inner n in
    let? res := (if y =? LOG_SCALE then Ok res
                 else log2_bits 128 y res (Z.shiftl 1 (LOG_SCALE_OFFSET - 1))) in
    Ok (i256 (Z.shiftl (i256 (res * sign)) 1)).

(** One round of the square-and-multiply loop of [pow]. *)
Definition pow_step (abs_y : Z) (v : Z * Z) (bit : Z) : Z * Z :=
  let '(res, squared) := v in
  let res := if Z.land (Z.shiftr abs_y bit) 1 =? 1
             then Z.shiftr (wrapping_mul u256_max res squared) 128 else res in
  (res, Z.shiftr (wrapping_mul u256_max squared squared) 128).

Definition pow (x y : Z) : result Z :=
  if y =? 0 then Ok SCALE_1_128_128
  else
    let abs_y := Z.abs y in
    if 2 ^ 20 <=? abs_y then Err (Revert "lb_math: pow exponent out of LB range")
    else
      let '(squared, invert) :=
        if u128_max <? x then (u256_max / x, negb (y <? 0)) else (x, y <? 0) in
      let '(res, _) := fold_left (pow_step abs_y) (seqZ 0 20) (SCALE_1_128_128, squared) in
      if res =? 0 then Err (Revert "lb_math: pow underflow")
      else Ok (if invert : bool then u256_max / res else res).

(** * Bin ids (price_helper.rs) *)

Definition get_base (bin_step : Z) : Z :=
  wrapping_add u256_max SCALE_1_128_128 (shl256 bin_step SCALE_OFFSET / BASIS_POINT_MAX).

Definition get_exponent (id : Z) : Z := i32 (i32 id - REAL_ID_SHIFT).

Definition get_price_from_id (id bin_step : Z) : result Z :=
  pow (get_base bin_step) (get_exponent id).

Definition get_id_from_price (price_128x128 bin_step : Z) : result Z :=
  let base := get_base bin_step in
  let? log2_price := log2 price_128x128 in
  let? log2_base := log2 base in
  if log2_base =? 0 then Err (Revert "lb_math: log2(base) == 0")
  else
    let real_id := Z.quot log2_price log2_base in
    let id_signed := i256_saturating_add real_id REAL_ID_SHIFT in
    if id_signed <? 0 then Ok 0
    else Ok (if MAX_BIN_ID <? id_signed then MAX_BIN_ID else id_signed).

Definition convert_decimal_price_to_128x128 (price_18dec : Z) : result Z :=
  shift_div_round_down price_18dec SCALE_OFFSET PRECISION.

Definition convert_128x128_price_to_decimal (price_128x128 : Z) : result Z :=
  mul_shift_round_down price_128x128 PRECISION SCALE_OFFSET.

(** * COEN/ISO prices (reference_price.rs) *)

Definition SCALE_1E6 : Z := 1000000.
Definition PRICE_BINARY_OFFSET : Z := 128.

Definition coen_iso_price_to_128x128 (price : Z) : result Z :=
  shift_div_round_down price PRICE_BINARY_OFFSET SCALE_1E6.

Definition price_128x128_to_coen_iso (price : Z) : result Z :=
  mul_shift_round_down price SCALE_1E6 PRICE_BINARY_OFFSET.

Definition coen_iso_price_to_bin_id (price bin_step : Z) : result Z :=
  let? p := coen_iso_price_to_128x128 price in get_id_from_price p bin_step.

Definition bin_id_to_coen_iso_price (bin_id bin_step : Z) : result Z :=
  let? p := get_price_from_id bin_id bin_step in price_128x128_to_coen_iso p.

(** * The fraction of the logarithm

    [frac n y] reads [n] bits of the binary logarithm of [y / 2^127] for [y] in
    [2^127, 2^128). *)
Fixpoint frac (n : nat) (y : Z) : Z :=
  match n with
  | O => 0
  | S n' =>
      let y2 := y * y / 2 ^ 127 in
      if 2 ^ 128 <=? y2 then 2 ^ Z.of_nat n' + frac n' (y2 / 2) else frac n' y2
  end.

Definition mantissa (y : Z) : Prop := 2 ^ 127 <= y < 2 ^ 128.

Lemma square_range y : mantissa y -> 2 ^ 127 <= y * y / 2 ^ 127 < 2 ^ 129.
Proof.
  unfold mantissa. intros Hy. assert (0 < 2 ^ 127) by done.
  split; [apply Z.div_le_lower_bound; [done|]|apply Z.div_lt_upper_bound; [done|]].
  - apply Z.mul_le_mono_nonneg; lia.
  - change (2 ^ 127 * 2 ^ 129) with (2 ^ 128 * 2 ^ 128). apply Z.mul_lt_mono_nonneg; lia.
Qed.

Lemma halved_mantissa z : 2 ^ 128 <= z < 2 ^ 129 -> mantissa (z / 2).
Proof.
  intros Hz. unfold mantissa. change (2 ^ 128) with (2 ^ 127 * 2) in *. change (2 ^ 129) with (2 ^ 128 * 2) in *.
  split; [apply Z.div_le_lower_bound; lia|apply Z.div_lt_upper_bound; lia].
Qed.

Lemma frac_range n : forall y, mantissa y -> 0 <= frac n y < 2 ^ Z.of_nat n.
Proof.
  induction n as [|n IH]; intros y Hy; [cbn; lia|]. cbn [frac].
  rewrite Nat2Z.inj_succ, Z.pow_succ_r by lia. pose proof (square_range y Hy) as Hsq.
  assert (0 < 2 ^ Z.of_nat n) by (apply Z.pow_pos_nonneg; lia).
  destruct (Z.leb_spec (2 ^ 128) (y * y / 2 ^ 127)) as [Hge|Hlt].
  - pose proof (IH _ (halved_mantissa _ (conj Hge (proj2 Hsq)))). lia.
  - pose proof (IH (y * y / 2 ^ 127) (conj (proj1 Hsq) Hlt)). lia.
Qed.

Lemma frac_mono n : forall y1 y2, mantissa y1 -> mantissa y2 -> y1 <= y2 -> frac n y1 <= frac n y2.
Proof.
  induction n as [|n IH]; intros y1 y2 H1 H2 Hle; [done|]. cbn [frac].
  pose proof (square_range y1 H1) as Hs1. pose proof (square_range y2 H2) as Hs2.
  assert (Hsq : y1 * y1 / 2 ^ 127 <= y2 * y2 / 2 ^ 127).
  { apply Z.div_le_mono; [done|]. unfold mantissa in *. apply Z.mul_le_mono_nonneg; lia. }
  set (s1 := y1 * y1 / 2 ^ 127) in *. set (s2 := y2 * y2 / 2 ^ 127) in *.
  destruct (Z.leb_spec (2 ^ 128) s1) as [Hg1|Hl1]; destruct (Z.leb_spec (2 ^ 128) s2) as [Hg2|Hl2]; try lia.
  - assert (s1 / 2 <= s2 / 2) by (apply Z.div_le_mono; lia).
    pose proof (IH (s1 / 2) (s2 / 2) (halved_mantissa _ (conj Hg1 (proj2 Hs1)))
      (halved_mantissa _ (conj Hg2 (proj2 Hs2))) ltac:(done)). lia.
  - pose proof (frac_range n s1 (conj (proj1 Hs1) Hl1)).
    pose proof (frac_range n (s2 / 2) (halved_mantissa _ (conj Hg2 (proj2 Hs2)))). lia.
  - apply IH; [exact (conj (proj1 Hs1) Hl1)|exact (conj (proj1 Hs2) Hl2)|exact Hsq].
Qed.

(** The loop computes the fraction and never runs out of rounds. *)
Lemma log2_bits_ok n : forall fuel y res,
  mantissa y -> 0 <= res -> res + 2 ^ Z.of_nat n < 2 ^ 255 -> (n < fuel)%nat ->
  log2_bits fuel y res (2 ^ Z.of_nat n / 2) = Ok (res + frac n y).
Proof.
  induction n as [|n IH]; intros [|fuel] y res Hy Hres Hcap Hf; try lia; cbn [log2_bits frac].
  { rewrite Z.add_0_r. done. }
  rewrite Nat2Z.inj_succ, Z.pow_succ_r in Hcap |- * by lia.
  assert (Hn : 0 < 2 ^ Z.of_nat n) by (apply Z.pow_pos_nonneg; lia).
  rewrite (Z.mul_comm 2), Z.div_mul by lia. rewrite (proj2 (Z.leb_gt (2 ^ Z.of_nat n) 0)) by done.
  unfold LOG_SCALE_OFFSET. rewrite shl256_bit by lia.
  rewrite !Z.shiftr_div_pow2 by lia. change (2 ^ 1) with 2. change (127 + 1) with 128.
  rewrite wrapping_mul_small.
  2: { unfold mantissa in Hy. split; [nia|]. assert (y * y < 2 ^ 128 * 2 ^ 128) by (apply Z.mul_lt_mono_nonneg; lia).
       unfold u256_max. change (2 ^ 256) with (2 ^ 128 * 2 ^ 128). lia. }
  pose proof (square_range y Hy) as Hsq.
  destruct (Z.leb_spec (2 ^ 128) (y * y / 2 ^ 127)) as [Hge|Hlt].
  - assert (Hsat : i256_saturating_add res (2 ^ Z.of_nat n) = res + 2 ^ Z.of_nat n)
      by (unfold i256_saturating_add; lia).
    rewrite Hsat, IH; [f_equal; lia|apply halved_mantissa; lia|lia|lia|lia].
  - rewrite IH; [done|exact (conj (proj1 Hsq) Hlt)|lia|lia|lia].
Qed.

(** * The logarithm of a 129.127 number at least one *)

Definition log127 (x : Z) : Z :=
  let n := Z.log2 x - 127 in n * 2 ^ 127 + frac 127 (x / 2 ^ n).

Lemma log2_exp x : 2 ^ 127 <= x < 2 ^ 255 -> 0 <= Z.log2 x - 127 <= 127.
Proof.
  intros Hx. assert (127 <= Z.log2 x) by (apply Z.log2_le_pow2; lia).
  assert (Z.log2 x < 255) by (apply Z.log2_lt_pow2; lia). lia.
Qed.

Lemma normalised x : 2 ^ 127 <= x < 2 ^ 255 -> mantissa (x / 2 ^ (Z.log2 x - 127)).
Proof.
  intros Hx. pose proof (log2_exp x Hx) as He. pose proof (Z.log2_spec x ltac:(lia)) as [Hlo Hhi].
  assert (H2 : 0 < 2 ^ (Z.log2 x - 127)) by (apply Z.pow_pos_nonneg; lia).
  split; [apply Z.div_le_lower_bound; [done|]|apply Z.div_lt_upper_bound; [done|]];
    rewrite <- Z.pow_add_r by lia.
  - by replace (Z.log2 x - 127 + 127) with (Z.log2 x) by lia.
  - by replace (Z.log2 x - 127 + 128) with (Z.succ (Z.log2 x)) by lia.
Qed.

Lemma log127_range x : 2 ^ 127 <= x < 2 ^ 255 ->
  (Z.log2 x - 127) * 2 ^ 127 <= log127 x < (Z.log2 x - 126) * 2 ^ 127.
Proof.
  intros Hx. unfold log127. pose proof (frac_range 127 _ (normalised x Hx)) as Hf.
  change (2 ^ Z.of_nat 127) with (2 ^ 127) in Hf. lia.
Qed.

Lemma log127_mono x y : 2 ^ 127 <= x -> x <= y -> y < 2 ^ 255 -> log127 x <= log127 y.
Proof.
  intros Hx Hle Hy. pose proof (Z.log2_le_mono x y Hle) as Hlog.
  destruct (Z.eq_dec (Z.log2 x) (Z.log2 y)) as [Heq|Hne].
  - pose proof (normalised x ltac:(lia)) as Nx. pose proof (normalised y ltac:(lia)) as Ny.
    unfold log127. rewrite Heq in *. pose proof (log2_exp y ltac:(lia)).
    apply Z.add_le_mono_l, frac_mono; [done..|]. apply Z.div_le_mono; [apply Z.pow_pos_nonneg; lia|done].
  - pose proof (log127_range x ltac:(lia)). pose proof (log127_range y ltac:(lia)).
    assert ((Z.log2 x - 126) * 2 ^ 127 <= (Z.log2 y - 127) * 2 ^ 127) by (apply Z.mul_le_mono_nonneg_r; lia).
    lia.
Qed.

(** The value [log2] returns for every price above one unit of the last place. *)
Definition log2_value (x : Z) : Z :=
  if 2 ^ 128 <=? x then 2 * log127 (x / 2) else - (2 * log127 (2 ^ 254 / (x / 2))).

Lemma half_range x : 2 <= x <= u256_max -> 1 <= x / 2 < 2 ^ 255.
Proof.
  intros Hx. split; [apply Z.div_le_lower_bound; lia|]. apply Z.div_lt_upper_bound; [lia|].
  unfold u256_max in Hx. change (2 * 2 ^ 255) with (2 ^ 256). lia.
Qed.
Lemma half_below x : (2 ^ 128 <=? x) = (2 ^ 127 <=? x / 2).
Proof.
  destruct (Z.leb_spec (2 ^ 128) x) as [H|H]; symmetry; [apply Z.leb_le|apply Z.leb_gt].
  - apply Z.div_le_lower_bound; lia.
  - apply Z.div_lt_upper_bound; lia.
Qed.
Lemma inverse_range h : 1 <= h < 2 ^ 127 -> 2 ^ 127 <= 2 ^ 254 / h < 2 ^ 255.
Proof.
  intros Hh. split; [apply Z.div_le_lower_bound; [lia|]|apply Z.div_lt_upper_bound; [lia|]].
  - change (2 ^ 254) with (2 ^ 127 * 2 ^ 127). apply Z.mul_le_mono_nonneg_r; lia.
  - assert (1 * 2 ^ 255 <= h * 2 ^ 255) by (apply Z.mul_le_mono_nonneg_r; lia).
    assert (2 ^ 254 < 2 ^ 255) by done. lia.
Qed.

Lemma frac_one n : frac n (2 ^ 127) = 0.
Proof. induction n as [|n IH]; [done|]. cbn [frac]. by change (2 ^ 127 * 2 ^ 127 / 2 ^ 127) with (2 ^ 127). Qed.

Lemma i256_small z : - 2 ^ 255 <= z < 2 ^ 255 -> i256 z = z.
Proof. intros Hz. unfold i256. rewrite Z.mod_small; lia. Qed.

Lemma log2_ok x : 2 <= x <= u256_max -> log2 x = Ok (log2_value x).
Proof.
  intros Hx. unfold log2. rewrite (proj2 (Z.eqb_neq x 1)), (proj2 (Z.eqb_neq x 0)) by lia.
  rewrite (Z.shiftr_div_pow2 x 1) by lia. change (2 ^ 1) with 2. unfold log2_value.
  pose proof (half_range x Hx) as Hh. rewrite half_below. unfold LOG_SCALE.
  set (h := x / 2) in *.
  set (p := if 2 ^ 127 <=? h then (1, h) else (-1, LOG_SCALE_SQUARED / h)).
  assert (Hp : exists s v, p = (s, v) /\ 2 ^ 127 <= v < 2 ^ 255 /\ (s = 1 \/ s = -1)
    /\ (if 2 ^ 127 <=? h then 2 * log127 h else - (2 * log127 (2 ^ 254 / h))) = 2 * (log127 v * s)).
  { unfold p. destruct (Z.leb_spec (2 ^ 127) h); eexists _, _; (split; [done|]).
    - split_and!; [lia|lia|by left|lia].
    - pose proof (inverse_range h ltac:(lia)). unfold LOG_SCALE_SQUARED. split_and!; [lia|lia|by right|lia]. }
  destruct Hp as (s & v & -> & Hv & Hs & ->).
  pose proof (log2_exp v Hv) as He. pose proof (normalised v Hv) as Hn.
  pose proof (log127_range v Hv) as Hr.
  assert (Hmsb : most_significant_bit (Z.shiftr v LOG_SCALE_OFFSET) = Z.log2 v - 127).
  { unfold LOG_SCALE_OFFSET. rewrite msb_log2; [apply log2_shiftr; lia|].
    rewrite Z.shiftr_div_pow2 by lia. split; [apply Z.div_str_pos; lia|].
    apply Z.div_le_upper_bound; [done|]. unfold u256_max. lia. }
  rewrite Hmsb. rewrite Z.shiftr_div_pow2, Z.shiftl_mul_pow2 by (unfold LOG_SCALE_OFFSET; lia).
  change (2 ^ LOG_SCALE_OFFSET) with (2 ^ 127).
  assert (Hbig : (Z.log2 v - 127) * 2 ^ 127 <= 127 * 2 ^ 127) by (apply Z.mul_le_mono_nonneg_r; lia).
  assert (Hbig2 : (Z.log2 v - 126) * 2 ^ 127 <= 128 * 2 ^ 127) by (apply Z.mul_le_mono_nonneg_r; lia).
  assert (Hpos : 0 <= (Z.log2 v - 127) * 2 ^ 127) by (apply Z.mul_nonneg_nonneg; lia).
  rewrite (i256_small ((Z.log2 v - 127) * 2 ^ 127)) by lia.
  assert (Hloop : (if v / 2 ^ (Z.log2 v - 127) =? 2 ^ 127 then Ok ((Z.log2 v - 127) * 2 ^ 127)
    else log2_bits 128 (v / 2 ^ (Z.log2 v - 127)) ((Z.log2 v - 127) * 2 ^ 127)
           (Z.shiftl 1 (LOG_SCALE_OFFSET - 1))) = Ok (log127 v)).
  { unfold log127. destruct (Z.eqb_spec (v / 2 ^ (Z.log2 v - 127)) (2 ^ 127)) as [->|_].
    - rewrite frac_one. f_equal. lia.
    - change (Z.shiftl 1 (LOG_SCALE_OFFSET - 1)) with (2 ^ Z.of_nat 127 / 2).
      apply log2_bits_ok; [done|lia|change (2 ^ Z.of_nat 127) with (2 ^ 127); lia|lia]. }
  rewrite Hloop. simpl rbind. rewrite (i256_small (log127 v * s)) by lia.
  rewrite Z.shiftl_mul_pow2 by lia. change (2 ^ 1) with 2.
  rewrite i256_small by lia. f_equal. lia.
Qed.

Lemma log127_nonneg x : 2 ^ 127 <= x < 2 ^ 255 -> 0 <= log127 x.
Proof.
  intros Hx. pose proof (log127_range x Hx). pose proof (log2_exp x Hx).
  assert (0 <= (Z.log2 x - 127) * 2 ^ 127) by (apply Z.mul_nonneg_nonneg; lia). lia.
Qed.

Lemma log2_value_mono x y : 2 <= x -> x <= y -> y <= u256_max -> log2_value x <= log2_value y.
Proof.
  intros Hx Hle Hy. pose proof (half_range x ltac:(lia)) as Hhx. pose proof (half_range y ltac:(lia)) as Hhy.
  assert (Hh : x / 2 <= y / 2) by (apply Z.div_le_mono; lia).
  unfold log2_value. rewrite !half_below.
  destruct (Z.leb_spec (2 ^ 127) (x / 2)) as [H1|H1]; destruct (Z.leb_spec (2 ^ 127) (y / 2)) as [H2|H2]; try lia.
  - pose proof (log127_mono (x / 2) (y / 2) H1 Hh ltac:(lia)). lia.
  - pose proof (log127_nonneg _ (inverse_range (x / 2) ltac:(lia))).
    pose proof (log127_nonneg (y / 2) ltac:(lia)). lia.
  - pose proof (inverse_range (x / 2) ltac:(lia)). pose proof (inverse_range (y / 2) ltac:(lia)).
    assert (2 ^ 254 / (y / 2) <= 2 ^ 254 / (x / 2)) by (apply Z.div_le_compat_l; lia).
    pose proof (log127_mono (2 ^ 254 / (y / 2)) (2 ^ 254 / (x / 2)) ltac:(lia) ltac:(done) ltac:(lia)). lia.
Qed.

Lemma log127_bound x : 2 ^ 127 <= x < 2 ^ 255 -> log127 x < 2 ^ 134.
Proof.
  intros Hx. pose proof (log127_range x Hx). pose proof (log2_exp x Hx).
  assert ((Z.log2 x - 126) * 2 ^ 127 <= 128 * 2 ^ 127) by (apply Z.mul_le_mono_nonneg_r; lia).
  change (128 * 2 ^ 127) with (2 ^ 134) in *. lia.
Qed.
Lemma log2_value_bound x : 2 <= x <= u256_max -> Z.abs (log2_value x) < 2 ^ 135.
Proof.
  intros Hx. pose proof (half_range x Hx) as Hh. unfold log2_value. rewrite half_below.
  change (2 ^ 135) with (2 * 2 ^ 134). destruct (Z.leb_spec (2 ^ 127) (x / 2)).
  - pose proof (log127_nonneg (x / 2) ltac:(lia)). pose proof (log127_bound (x / 2) ltac:(lia)). lia.
  - pose proof (log127_nonneg _ (inverse_range (x / 2) ltac:(lia))).
    pose proof (log127_bound _ (inverse_range (x / 2) ltac:(lia))). lia.
Qed.

(** * Bases *)

Lemma base_value step :
  0 <= step < 2 ^ 16 -> get_base step = 2 ^ 128 + step * 2 ^ 128 / 10000.
Proof.
  intros Hs. unfold get_base, shl256, SCALE_OFFSET, SCALE_1_128_128, BASIS_POINT_MAX.
  rewrite Z.shiftl_mul_pow2 by lia.
  assert (Hm : 0 <= step * 2 ^ 128 < 2 ^ 16 * 2 ^ 128) by (split; [|apply Z.mul_lt_mono_pos_r]; lia).
  rewrite Z.mod_small by (change (2 ^ 16 * 2 ^ 128) with (2 ^ 144) in Hm; assert (2 ^ 144 < W256) by done; lia).
  assert (0 <= step * 2 ^ 128 / 10000 < 2 ^ 144).
  { split; [apply Z.div_pos; lia|]. apply Z.div_lt_upper_bound; [lia|].
    change (2 ^ 16 * 2 ^ 128) with (2 ^ 144) in Hm. lia. }
  apply wrapping_add_small. unfold u256_max. lia.
Qed.

Lemma base_range step : 0 <= step < 2 ^ 16 -> 2 <= get_base step <= u256_max.
Proof.
  intros Hs. rewrite base_value by done.
  assert (0 <= step * 2 ^ 128 / 10000 < 2 ^ 144).
  { split; [apply Z.div_pos; lia|]. apply Z.div_lt_upper_bound; [lia|].
    assert (step * 2 ^ 128 < 2 ^ 16 * 2 ^ 128) by (apply Z.mul_lt_mono_pos_r; lia).
    change (2 ^ 16 * 2 ^ 128) with (2 ^ 144) in *. lia. }
  unfold u256_max. lia.
Qed.

(** A step of one basis point already has a positive logarithm. *)
Lemma log2_base_pos step : 1 <= step < 2 ^ 16 -> 0 < log2_value (get_base step).
Proof.
  intros Hs. apply Z.lt_le_trans with (log2_value (get_base 1)); [vm_compute; reflexivity|].
  apply log2_value_mono; [vm_compute; discriminate| |apply base_range; lia].
  rewrite !base_value by lia. apply Z.add_le_mono_l, Z.div_le_mono; [done|].
  apply Z.mul_le_mono_nonneg_r; lia.
Qed.

(** The bin of a price, as a function. *)
Definition bin_of (price step : Z) : Z :=
  Z.max 0 (Z.min MAX_BIN_ID
    (Z.quot (log2_value price) (log2_value (get_base step)) + REAL_ID_SHIFT)).

Lemma get_id_ok price step :
  2 <= price <= u256_max -> 1 <= step < 2 ^ 16 -> get_id_from_price price step = Ok (bin_of price step).
Proof.
  intros Hp Hs. unfold get_id_from_price, bin_of. rewrite !log2_ok by (done || apply base_range; lia).
  simpl rbind. pose proof (log2_base_pos step Hs) as Hb. rewrite (proj2 (Z.eqb_neq _ 0)) by lia.
  set (q := Z.quot _ _).
  assert (Hq : Z.abs q < 2 ^ 135).
  { unfold q. rewrite <- Z.quot_abs by lia. apply Z.le_lt_trans with (Z.abs (log2_value price)).
    - apply Z.quot_le_upper_bound; nia.
    - by apply log2_value_bound. }
  assert (Hsat : i256_saturating_add q REAL_ID_SHIFT = q + REAL_ID_SHIFT)
    by (unfold i256_saturating_add, REAL_ID_SHIFT; lia).
  rewrite Hsat. destruct (Z.ltb_spec (q + REAL_ID_SHIFT) 0); [f_equal; unfold MAX_BIN_ID; lia|].
  destruct (Z.ltb_spec MAX_BIN_ID (q + REAL_ID_SHIFT)); f_equal; unfold MAX_BIN_ID in *; lia.
Qed.

Lemma bin_of_mono p q step :
  2 <= p -> p <= q -> q <= u256_max -> 1 <= step < 2 ^ 16 -> bin_of p step <= bin_of q step.
Proof.
  intros Hp Hle Hq Hs. unfold bin_of. pose proof (log2_base_pos step Hs).
  pose proof (log2_value_mono p q Hp Hle Hq).
  pose proof (Z.quot_le_mono (log2_value p) (log2_value q) (log2_value (get_base step)) ltac:(lia) ltac:(lia)).
  lia.
Qed.

(** The 128.128 price of a six-decimal price. *)
Lemma coen_price_ok p :
  0 <= p < 10 ^ 6 * 2 ^ 128 -> coen_iso_price_to_128x128 p = Ok (p * 2 ^ 128 / 10 ^ 6)
    /\ p * 2 ^ 128 / 10 ^ 6 <= u256_max.
Proof.
  intros Hp. unfold coen_iso_price_to_128x128, PRICE_BINARY_OFFSET, SCALE_1E6.
  assert (Hfit : p * 2 ^ 128 / 10 ^ 6 <= u256_max).
  { enough (p * 2 ^ 128 / 10 ^ 6 < 2 ^ 256) by (unfold u256_max; lia).
    apply Z.div_lt_upper_bound; [done|]. change (10 ^ 6 * 2 ^ 256) with (10 ^ 6 * 2 ^ 128 * 2 ^ 128).
    apply Z.mul_lt_mono_pos_r; lia. }
  rewrite shift_div_ok; [|unfold u256_max; split; [lia|]|lia|done].
  - unfold floor_or. change 1000000 with (10 ^ 6). by rewrite (proj2 (Z.leb_le _ _) Hfit).
  - assert (10 ^ 6 * 2 ^ 128 < 2 ^ 256) by done. lia.
Qed.

(** * Property *)

(** C36. Every positive six-decimal price below 10^6 * 2^128 has a bin on every
    ladder with a positive step; bins are monotone in the price, and the price
    1.0 lies in the centre bin. The order starts at the second representable
    128.128 price: the logarithm of the first is returned unscaled, which puts
    it above its successors. *)
Theorem bin_ids_monotone p q step :
  1 <= p -> p <= q -> q < 10 ^ 6 * 2 ^ 128 -> 1 <= step < 2 ^ 16 ->
  (exists a b, coen_iso_price_to_bin_id p step = Ok a /\ coen_iso_price_to_bin_id q step = Ok b
     /\ 0 <= a /\ a <= b /\ b <= MAX_BIN_ID)
  /\ coen_iso_price_to_bin_id SCALE_1E6 step = Ok REAL_ID_SHIFT
  /\ get_id_from_price 2 1 = Ok 7508268 /\ get_id_from_price 1 1 = Ok REAL_ID_SHIFT.
Proof.
  intros Hp Hle Hq Hs. split.
  - destruct (coen_price_ok p ltac:(lia)) as [Ep Rp]. destruct (coen_price_ok q ltac:(lia)) as [Eq Rq].
    assert (Hlow : 2 <= p * 2 ^ 128 / 10 ^ 6) by (apply Z.div_le_lower_bound; lia).
    assert (Hmono : p * 2 ^ 128 / 10 ^ 6 <= q * 2 ^ 128 / 10 ^ 6) by (apply Z.div_le_mono; lia).
    unfold coen_iso_price_to_bin_id. rewrite Ep, Eq. simpl rbind.
    rewrite !get_id_ok by lia. eexists _, _. split_and!; [done|done|unfold bin_of; lia| |unfold bin_of, MAX_BIN_ID; lia].
    apply bin_of_mono; lia.
  - split; [|split; vm_compute; reflexivity]. unfold coen_iso_price_to_bin_id.
    destruct (coen_price_ok SCALE_1E6) as [-> _]; [by split|]. simpl rbind.
    rewrite get_id_ok by (done || vm_compute; split; discriminate). unfold bin_of.
    change (log2_value (SCALE_1E6 * 2 ^ 128 / 10 ^ 6)) with 0. by rewrite Z.quot_0_l by (pose proof (log2_base_pos step Hs); lia).
Qed.

Lemma bin_ids_monotone_witness :
  exists a b, coen_iso_price_to_bin_id 999999 25 = Ok a /\ coen_iso_price_to_bin_id 2000000 25 = Ok b
    /\ a <= b.
Proof.
  destruct (bin_ids_monotone 999999 2000000 25) as [(a & b & Ha & Hb & _ & Hle & _) _];
    [lia|lia|vm_compute; reflexivity|lia|].
  exact (ex_intro _ a (ex_intro _ b (conj Ha (conj Hb Hle)))).
Defined.
