(* ===== verification/BinTree.v ===== *)
(** The three-level bitmap trie over 24-bit bin ids, the storage interface its
    users implement, and the per-currency implementation.

    Sources: [crates/blockchain/primitives/src/math/tree_math.rs] (the trie and
    the [BinTreeStorage] trait); [crates/core/nod/src/state.rs] ([scoped] and
    the [CurrencyBins] implementation). *)

From stdpp Require Import functions.
From S2P Require Import Prelude BitMath PriceMath.

(** * Key arithmetic (tree_math.rs) *)

Definition split (id : Z) : Z * Z * Z :=
  (Z.land (Z.shiftr id 16) 0xFF, Z.land (Z.shiftr id 8) 0xFF, Z.land id 0xFF).
Definition leaf_key (top mid : Z) : Z := Z.lor (Z.shiftl top 8) mid.
Definition mid_key (top : Z) : Z := top.
Definition assemble (top mid lo : Z) : Z := Z.lor (Z.lor (Z.shiftl top 16) (Z.shiftl mid 8)) lo.

(** [!x] on a word. *)
Definition not256 (x : Z) : Z := Z.lxor u256_max x.

(** * The storage interface *)

Class BinTreeStorage (S : Type) : Type := {
  read_root : S -> Z;
  write_root : Z -> S -> S;
  read_mid : S -> Z -> Z;
  write_mid : Z -> Z -> S -> S;
  read_leaf : S -> Z -> Z;
  write_leaf : Z -> Z -> S -> S }.

Section Trie.
Context {S : Type} {T : BinTreeStorage S}.

Definition bin_contains (id : Z) : M S bool :=
  let '(top, mid, lo) := split id in
  let! leaf := gets (fun s => read_leaf s (leaf_key top mid)) in
  mret (negb (Z.land leaf (shl256 1 lo) =? 0)).

Definition bin_add (id : Z) : M S bool :=
  let '(top, mid, lo) := split id in
  let leaf_k := leaf_key top mid in
  let! leaves := gets (fun s => read_leaf s leaf_k) in
  let new_leaves := Z.lor leaves (shl256 1 lo) in
  if leaves =? new_leaves then mret false
  else
    modify (write_leaf leaf_k new_leaves) ;;;
    (if leaves =? 0 then
       let mid_k := mid_key top in
       let! mid_word := gets (fun s => read_mid s mid_k) in
       modify (write_mid mid_k (Z.lor mid_word (shl256 1 mid))) ;;;
       (if mid_word =? 0 then
          let! root := gets read_root in
          modify (write_root (Z.lor root (shl256 1 top)))
        else mret tt)
     else mret tt) ;;;
    mret true.

Definition bin_remove (id : Z) : M S bool :=
  let '(top, mid, lo) := split id in
  let leaf_k := leaf_key top mid in
  let! leaves := gets (fun s => read_leaf s leaf_k) in
  let new_leaves := Z.land leaves (not256 (shl256 1 lo)) in
  if leaves =? new_leaves then mret false
  else
    modify (write_leaf leaf_k new_leaves) ;;;
    if negb (new_leaves =? 0) then mret true
    else
      let mid_k := mid_key top in
      let! mid_word := gets (fun s => read_mid s mid_k) in
      let new_mid := Z.land mid_word (not256 (shl256 1 mid)) in
      modify (write_mid mid_k new_mid) ;;;
      if negb (new_mid =? 0) then mret true
      else
        let! root := gets read_root in
        modify (write_root (Z.land root (not256 (shl256 1 top)))) ;;;
        mret true.

(** The descents below a non-empty mid word and a non-empty root word. *)
Definition descend_leaf (s : S) (top mid_bit : Z) : Z :=
  assemble top mid_bit (least_significant_bit (read_leaf s (leaf_key top mid_bit))).

Definition find_first_left_inclusive (s : S) (start_id : Z) : option Z :=
  if MAX_BIN_ID <? start_id then None
  else
    let '(top0, mid0, lo0) := split start_id in
    let leaf_masked := mask_from (read_leaf s (leaf_key top0 mid0)) lo0 in
    if negb (leaf_masked =? 0) then Some (assemble top0 mid0 (least_significant_bit leaf_masked))
    else
      let mid_masked := mask_from (read_mid s (mid_key top0)) (saturating_add u8_max mid0 1) in
      if negb (mid0 =? u8_max) && negb (mid_masked =? 0)
      then Some (descend_leaf s top0 (least_significant_bit mid_masked))
      else if top0 =? u8_max then None
      else
        let root_masked := mask_from (read_root s) (saturating_add u8_max top0 1) in
        if root_masked =? 0 then None
        else
          let top_bit := least_significant_bit root_masked in
          Some (descend_leaf s top_bit (least_significant_bit (read_mid s (mid_key top_bit)))).
End Trie.

(** * The tries of a contract, one per reference currency (nod state.rs) *)

Record CurrencyTries : Type := mkTries {
  bin_tree_root : gmap Z Z;
  bin_tree_mid : gmap Z Z;
  bin_tree_leaf : gmap Z Z }.

#[global] Instance CurrencyTries_eta : Eta CurrencyTries := fun s =>
  mkTries (bin_tree_root s) (bin_tree_mid s) (bin_tree_leaf s).

Definition scoped (reference_currency key : Z) : Z := Z.lor (Z.shiftl reference_currency 32) key.

Definition CurrencyBins (c : Z) : BinTreeStorage CurrencyTries := {|
  read_root := fun s => (bin_tree_root s).[c];
  write_root := fun v s => s <| bin_tree_root := (bin_tree_root s).[c <- v] |>;
  read_mid := fun s k => (bin_tree_mid s).[scoped c k];
  write_mid := fun k v s => s <| bin_tree_mid := (bin_tree_mid s).[scoped c k <- v] |>;
  read_leaf := fun s k => (bin_tree_leaf s).[scoped c k];
  write_leaf := fun k v s => s <| bin_tree_leaf := (bin_tree_leaf s).[scoped c k <- v] |> |}.

(** * Words as sets of bits *)

Lemma lor_shift a b n : 0 <= n -> 0 <= b < 2 ^ n -> Z.lor (Z.shiftl a n) b = a * 2 ^ n + b.
Proof.
  intros Hn Hb. rewrite <- Z.shiftl_mul_pow2 by done.
  assert (Hz : Z.land (Z.shiftl a n) b = 0).
  { apply Z.bits_inj'. intros i Hi. rewrite Z.land_spec, Z.bits_0.
    destruct (Z.lt_ge_cases i n); [by rewrite Z.shiftl_spec_low by lia|].
    apply andb_false_intro2. destruct (Z.eq_dec b 0) as [->|]; [apply Z.bits_0|].
    apply Z.bits_above_log2; [lia|]. apply Z.log2_lt_pow2; [lia|].
    apply Z.lt_le_trans with (2 ^ n); [lia|apply Z.pow_le_mono_r; lia]. }
  rewrite <- Z.lxor_lor by done. symmetry. by apply Z.add_nocarry_lxor.
Qed.

Definition word (x : Z) : Prop := 0 <= x <= u256_max.

Lemma word_high x i : word x -> 256 <= i -> Z.testbit x i = false.
Proof.
  unfold word, u256_max. intros Hx Hi. destruct (Z.eq_dec x 0) as [->|]; [apply Z.bits_0|].
  apply Z.bits_above_log2; [lia|]. apply Z.log2_lt_pow2; [lia|].
  apply Z.lt_le_trans with (2 ^ 256); [lia|apply Z.pow_le_mono_r; lia].
Qed.
Lemma word_zero x : word x -> x = 0 <-> forall i, 0 <= i < 256 -> Z.testbit x i = false.
Proof.
  intros Hx. split; [intros -> i _; apply Z.bits_0|]. intros Hz. apply Z.bits_inj'. intros i Hi.
  rewrite Z.bits_0. destruct (Z.lt_ge_cases i 256); [by apply Hz|by apply word_high].
Qed.
Lemma word_bits x : (forall i, 256 <= i -> Z.testbit x i = false) -> 0 <= x -> word x.
Proof.
  intros Hh Hx. unfold word, u256_max. split; [done|]. destruct (Z.eq_dec x 0) as [->|]; [done|].
  enough (x < 2 ^ 256) by lia. apply Z.log2_lt_pow2; [lia|].
  destruct (Z.lt_ge_cases (Z.log2 x) 256) as [|Hge]; [done|].
  specialize (Hh _ Hge). rewrite Z.bit_log2 in Hh by lia. done.
Qed.

Lemma pow2_bit b i : 0 <= b -> Z.testbit (2 ^ b) i = bool_decide (i = b).
Proof. intros Hb. rewrite Z.pow2_bits_eqb by done. rewrite Z.eqb_sym. case_bool_decide; [by apply Z.eqb_eq|by apply Z.eqb_neq]. Qed.

Lemma set_bit_spec x b i : 0 <= b < 256 ->
  Z.testbit (Z.lor x (shl256 1 b)) i = Z.testbit x i || bool_decide (i = b).
Proof. intros Hb. rewrite shl256_bit, Z.lor_spec, pow2_bit by lia. done. Qed.
Lemma set_bit_word x b : word x -> 0 <= b < 256 -> word (Z.lor x (shl256 1 b)).
Proof.
  intros Hx Hb. apply word_bits.
  - intros i Hi. rewrite set_bit_spec, word_high by done. by rewrite bool_decide_false by lia.
  - apply Z.lor_nonneg. rewrite shl256_bit by done. split; [apply Hx|apply Z.pow_nonneg; lia].
Qed.
Lemma clear_bit_spec x b i : word x -> 0 <= b < 256 -> 0 <= i ->
  Z.testbit (Z.land x (not256 (shl256 1 b))) i = Z.testbit x i && bool_decide (i <> b).
Proof.
  intros Hx Hb Hi. unfold not256. rewrite Z.land_spec, Z.lxor_spec, shl256_bit, pow2_bit by lia.
  destruct (Z.lt_ge_cases i 256) as [Hlt|Hge].
  - rewrite u256_testbit by done. rewrite (proj2 (Z.ltb_lt i 256)) by done.
    destruct (decide (i = b)) as [->|]; [rewrite bool_decide_true, bool_decide_false by naive_solver|rewrite bool_decide_false, bool_decide_true by naive_solver]; done.
  - by rewrite (word_high x i).
Qed.
Lemma clear_bit_word x b : word x -> 0 <= b < 256 -> word (Z.land x (not256 (shl256 1 b))).
Proof.
  intros Hx Hb. apply word_bits.
  - intros i Hi. rewrite clear_bit_spec by (done || lia). by rewrite word_high.
  - apply Z.land_nonneg. left. apply Hx.
Qed.
Lemma set_bit_same x b : 0 <= b < 256 -> (x =? Z.lor x (shl256 1 b)) = Z.testbit x b.
Proof.
  intros Hb. destruct (Z.testbit x b) eqn:Ht.
  - apply Z.eqb_eq, Z.bits_inj'. intros i Hi. rewrite set_bit_spec by done.
    case_bool_decide as Hib; [subst; by rewrite Ht|by rewrite orb_false_r].
  - apply Z.eqb_neq. intros Heq. rewrite Heq, set_bit_spec in Ht by done.
    by rewrite bool_decide_true, orb_true_r in Ht.
Qed.
Lemma clear_bit_same x b : word x -> 0 <= b < 256 ->
  (x =? Z.land x (not256 (shl256 1 b))) = negb (Z.testbit x b).
Proof.
  intros Hx Hb. destruct (Z.testbit x b) eqn:Ht; simpl.
  - apply Z.eqb_neq. intros Heq. rewrite Heq, clear_bit_spec in Ht by (done || lia).
    by rewrite bool_decide_false, andb_false_r in Ht by naive_solver.
  - apply Z.eqb_eq, Z.bits_inj'. intros i Hi. rewrite clear_bit_spec by (done || lia).
    case_bool_decide as Hib; [by rewrite andb_true_r|]. assert (i = b) as -> by lia. by rewrite Ht.
Qed.

(** * Keys *)

Lemma land_255 x : Z.land x 0xFF = x mod 256.
Proof. change 0xFF with (Z.ones 8). by rewrite Z.land_ones. Qed.

Lemma split_id id : 0 <= id <= MAX_BIN_ID -> split id = (id / 256 / 256, (id / 256) mod 256, id mod 256).
Proof.
  intros Hid. unfold split. rewrite !land_255, !Z.shiftr_div_pow2 by lia.
  change (2 ^ 16) with (256 * 256). rewrite <- Z.div_div by lia. change (2 ^ 8) with 256.
  rewrite (Z.mod_small (id / 256 / 256)); [done|]. unfold MAX_BIN_ID in Hid.
  split; [repeat apply Z.div_pos; lia|]. rewrite Z.div_div by lia. apply Z.div_lt_upper_bound; lia.
Qed.
Lemma leaf_key_value top mid : 0 <= mid < 256 -> leaf_key top mid = top * 256 + mid.
Proof. intros Hm. unfold leaf_key. by rewrite lor_shift by lia. Qed.
Lemma assemble_value top mid lo :
  0 <= mid < 256 -> 0 <= lo < 256 -> assemble top mid lo = (top * 256 + mid) * 256 + lo.
Proof.
  intros Hm Hl. unfold assemble. change 16 with (8 + 8).
  rewrite <- Z.shiftl_shiftl, <- Z.shiftl_lor by lia.
  rewrite !lor_shift by lia. change (2 ^ 8) with 256. lia.
Qed.

(** * What the trie relies on of its storage *)

Definition key (k : Z) : Prop := 0 <= k < 2 ^ 16.

Class BinTreeLaws {S : Type} (T : BinTreeStorage S) : Prop := {
  root_write_root : forall v s, read_root (write_root v s) = v;
  root_write_mid : forall k v s, read_root (write_mid k v s) = read_root s;
  root_write_leaf : forall k v s, read_root (write_leaf k v s) = read_root s;
  mid_write_root : forall v s k, read_mid (write_root v s) k = read_mid s k;
  mid_write_mid : forall k v s k', key k -> key k' ->
    read_mid (write_mid k v s) k' = if decide (k' = k) then v else read_mid s k';
  mid_write_leaf : forall k v s k', read_mid (write_leaf k v s) k' = read_mid s k';
  leaf_write_root : forall v s k, read_leaf (write_root v s) k = read_leaf s k;
  leaf_write_mid : forall k v s k', read_leaf (write_mid k v s) k' = read_leaf s k';
  leaf_write_leaf : forall k v s k', key k -> key k' ->
    read_leaf (write_leaf k v s) k' = if decide (k' = k) then v else read_leaf s k' }.

Ltac tree_reads :=
  rewrite ?root_write_root, ?root_write_mid, ?root_write_leaf, ?mid_write_root, ?mid_write_leaf,
    ?leaf_write_root, ?leaf_write_mid.

Section Refinement.
Context {S : Type} {T : BinTreeStorage S} {HT : BinTreeLaws T}.

(** The trie stores the set [X] of ids: leaf bits are members, a mid bit is set
    over a non-empty leaf and a root bit over a non-empty mid word. *)
Record tree_rep (s : S) (X : gset Z) : Prop := {
  tr_member : forall i, i ∈ X -> 0 <= i <= MAX_BIN_ID;
  tr_leaf : forall k b, key k -> 0 <= b < 256 ->
    Z.testbit (read_leaf s k) b = bool_decide (k * 256 + b ∈ X);
  tr_mid : forall t m, 0 <= t < 256 -> 0 <= m < 256 ->
    Z.testbit (read_mid s t) m = negb (read_leaf s (t * 256 + m) =? 0);
  tr_root : forall t, 0 <= t < 256 -> Z.testbit (read_root s) t = negb (read_mid s t =? 0);
  tr_leaf_word : forall k, key k -> word (read_leaf s k);
  tr_mid_word : forall t, 0 <= t < 256 -> word (read_mid s t);
  tr_root_word : word (read_root s) }.

(** The coordinates of an id. *)
Lemma coordinates id : 0 <= id <= MAX_BIN_ID ->
  exists t m lo, 0 <= t < 256 /\ 0 <= m < 256 /\ 0 <= lo < 256
    /\ split id = (t, m, lo) /\ id = (t * 256 + m) * 256 + lo /\ leaf_key t m = t * 256 + m.
Proof.
  intros Hid. exists (id / 256 / 256), ((id / 256) mod 256), (id mod 256).
  pose proof (Z.mod_pos_bound id 256 ltac:(lia)). pose proof (Z.mod_pos_bound (id / 256) 256 ltac:(lia)).
  pose proof (Z.div_mod id 256 ltac:(lia)). pose proof (Z.div_mod (id / 256) 256 ltac:(lia)).
  unfold MAX_BIN_ID in Hid. split_and!; try lia; [by apply split_id|by apply leaf_key_value].
Qed.

Lemma bin_contains_ok s X id :
  tree_rep s X -> 0 <= id <= MAX_BIN_ID -> bin_contains id s = (Ok (bool_decide (id ∈ X)), s).
Proof.
  intros Hr Hid. destruct (coordinates id Hid) as (t & m & lo & Ht & Hm & Hlo & Hs & Hv & Hk).
  unfold bin_contains. rewrite Hs, Hk. unfold mbind, gets, mret. rewrite test_bit by done.
  by rewrite (tr_leaf _ _ Hr), <- Hv by (unfold key; lia).
Qed.

Lemma lor_nonzero x b : 0 <= b < 256 -> (Z.lor x (shl256 1 b) =? 0) = false.
Proof.
  intros Hb. apply Z.eqb_neq. intros Hz. pose proof (set_bit_spec x b b Hb) as H.
  by rewrite Hz, Z.bits_0, bool_decide_true, orb_true_r in H.
Qed.

(** Writing a leaf word with its summary bits kept true. *)
Lemma leaf_write_rep s X s' X' t m w :
  tree_rep s X -> 0 <= t < 256 -> 0 <= m < 256 -> word w ->
  (forall i, i ∈ X' -> 0 <= i <= MAX_BIN_ID) ->
  (forall k, key k -> read_leaf s' k = if decide (k = t * 256 + m) then w else read_leaf s k) ->
  (forall u, 0 <= u < 256 -> u <> t -> read_mid s' u = read_mid s u) ->
  word (read_mid s' t) -> word (read_root s') ->
  (forall n, 0 <= n < 256 -> Z.testbit (read_mid s' t) n =
     if decide (n = m) then negb (w =? 0) else Z.testbit (read_mid s t) n) ->
  (forall u, 0 <= u < 256 -> Z.testbit (read_root s') u =
     if decide (u = t) then negb (read_mid s' t =? 0) else Z.testbit (read_root s) u) ->
  (forall b, 0 <= b < 256 -> Z.testbit w b = bool_decide ((t * 256 + m) * 256 + b ∈ X')) ->
  (forall i, i / 256 <> t * 256 + m -> i ∈ X' <-> i ∈ X) ->
  tree_rep s' X'.
Proof.
  intros Hr Ht Hm Hw Hmem Hleaf Hmid Hmw Hrw Hmidbit Hrootbit Hbits Hother. constructor; try done.
  - intros k b Hk Hb. rewrite Hleaf by done. case_decide as Heq; [subst; by apply Hbits|].
    rewrite (tr_leaf _ _ Hr) by done. apply bool_decide_ext. symmetry. apply Hother.
    rewrite Z.add_comm, Z.div_add, Z.div_small by lia. lia.
  - intros u n Hu Hn. rewrite Hleaf by (unfold key; lia).
    destruct (decide (u = t)) as [->|Hut].
    + rewrite Hmidbit by done. destruct (decide (n = m)) as [->|Hnm]; [by rewrite decide_True|].
      rewrite decide_False by lia. by apply (tr_mid _ _ Hr).
    + rewrite decide_False by lia. rewrite Hmid by done. by apply (tr_mid _ _ Hr).
  - intros u Hu. rewrite Hrootbit by done. destruct (decide (u = t)) as [->|Hut]; [done|].
    rewrite Hmid by done. by apply (tr_root _ _ Hr).
  - intros k Hk. rewrite Hleaf by done. case_decide; [done|by apply (tr_leaf_word _ _ Hr)].
  - intros u Hu. destruct (decide (u = t)) as [->|]; [done|]. rewrite Hmid by done. by apply (tr_mid_word _ _ Hr).
Qed.

Lemma same_leaf t m lo i : 0 <= lo < 256 -> i / 256 <> t * 256 + m -> i <> (t * 256 + m) * 256 + lo.
Proof. intros Hlo Hi ->. apply Hi. rewrite Z.add_comm, Z.div_add, Z.div_small; lia. Qed.

Lemma bin_add_ok s X id :
  tree_rep s X -> 0 <= id <= MAX_BIN_ID ->
  exists s', bin_add id s = (Ok (bool_decide (id ∉ X)), s') /\ tree_rep s' ({[id]} ∪ X).
Proof.
  intros Hr Hid. destruct (coordinates id Hid) as (t & m & lo & Ht & Hm & Hlo & Hs & Hv & Hk).
  assert (Hkey : key (t * 256 + m)) by (unfold key; lia). assert (Hkt : key t) by (unfold key; lia).
  unfold bin_add. rewrite Hs, Hk. unfold mbind, gets, mret, modify, mid_key. rewrite set_bit_same by done.
  set (leaves := read_leaf s (t * 256 + m)). set (w := Z.lor leaves (shl256 1 lo)).
  replace (Z.testbit leaves lo) with (bool_decide (id ∈ X))
    by (unfold leaves; by rewrite (tr_leaf _ _ Hr), <- Hv).
  destruct (decide (id ∈ X)) as [Hin|Hnin].
  { rewrite (bool_decide_true (id ∈ X)), (bool_decide_false (id ∉ X)) by naive_solver.
    exists s. split; [done|]. by replace ({[id]} ∪ X) with X by set_solver. }
  rewrite (bool_decide_false (id ∈ X)), (bool_decide_true (id ∉ X)) by done.
  assert (Hw : word w) by (apply set_bit_word; [by apply (tr_leaf_word _ _ Hr)|done]).
  assert (Hwz : (w =? 0) = false) by by apply lor_nonzero.
  assert (Hbit : forall n, 0 <= n < 256 -> Z.testbit (read_mid s t) n = negb (read_leaf s (t * 256 + n) =? 0))
    by (intros; by apply (tr_mid _ _ Hr)).
  assert (Hmem : forall i, i ∈ {[id]} ∪ X -> 0 <= i <= MAX_BIN_ID)
    by (intros i Hi; apply elem_of_union in Hi as [Hi%elem_of_singleton|Hi]; [by subst|by apply (tr_member _ _ Hr)]).
  assert (Hbits : forall b, 0 <= b < 256 -> Z.testbit w b = bool_decide ((t * 256 + m) * 256 + b ∈ {[id]} ∪ X)).
  { intros b Hb. unfold w. rewrite set_bit_spec by done. unfold leaves. rewrite (tr_leaf _ _ Hr) by done.
    rewrite <- bool_decide_or. apply bool_decide_ext. rewrite elem_of_union, elem_of_singleton.
    assert ((t * 256 + m) * 256 + b = id <-> b = lo) by lia. tauto. }
  assert (Hother : forall i, i / 256 <> t * 256 + m -> i ∈ {[id]} ∪ X <-> i ∈ X).
  { intros i Hi. pose proof (same_leaf t m lo i Hlo Hi). set_solver. }
  assert (Hwt : word (read_mid s t)) by by apply (tr_mid_word _ _ Hr).
  pose proof (tr_root_word _ _ Hr) as Hwr.
  destruct (Z.eqb_spec leaves 0) as [Hl0|Hl0]; simpl.
  - rewrite mid_write_leaf. assert (Hmz : (Z.lor (read_mid s t) (shl256 1 m) =? 0) = false) by by apply lor_nonzero.
    assert (Hmb : forall n, 0 <= n < 256 -> Z.testbit (Z.lor (read_mid s t) (shl256 1 m)) n =
      if decide (n = m) then negb (w =? 0) else Z.testbit (read_mid s t) n).
    { intros n Hn. rewrite set_bit_spec, Hwz by done. case_decide as Hnm; [by rewrite bool_decide_true, orb_true_r|].
      by rewrite bool_decide_false, orb_false_r. }
    assert (Hkeys : forall u, 0 <= u < 256 -> key u) by (unfold key; lia).
    destruct (Z.eqb_spec (read_mid s t) 0) as [Hm0|Hm0]; simpl; (eexists; split; [done|]);
      apply (leaf_write_rep s X _ _ t m w); try assumption; tree_reads; try assumption.
    all: rewrite ?mid_write_mid, ?decide_True by (try done; by apply Hkeys); try by apply set_bit_word.
    + intros k Hk'. tree_reads. by rewrite leaf_write_leaf.
    + intros u Hu Hut. tree_reads. rewrite mid_write_mid by auto. rewrite decide_False by done. by tree_reads.
    + exact Hmb.
    + intros u Hu. tree_reads. rewrite Hmz, set_bit_spec by done.
      case_decide; [by rewrite bool_decide_true, orb_true_r|by rewrite bool_decide_false, orb_false_r].
    + intros k Hk'. tree_reads. by rewrite leaf_write_leaf.
    + intros u Hu Hut. rewrite mid_write_mid by auto. rewrite decide_False by done. by tree_reads.
    + exact Hmb.
    + intros u Hu. tree_reads. rewrite Hmz by done. case_decide; [|done].
      subst. rewrite (tr_root _ _ Hr) by done. by rewrite (proj2 (Z.eqb_neq _ _) Hm0).
  - eexists. split; [done|]. eapply (leaf_write_rep s X _ _ t m w); try done; tree_reads; try done.
    + intros. by rewrite leaf_write_leaf.
    + intros. by tree_reads.
    + intros n Hn. tree_reads. case_decide as Hnm; [|done]. subst n.
      rewrite Hbit, Hwz by done. fold leaves. by rewrite (proj2 (Z.eqb_neq _ _) Hl0).
    + intros u Hu. tree_reads. case_decide; [|done]. subst. by apply (tr_root _ _ Hr).
Qed.

(** A member keeps its leaf non-empty and its summary bits set. *)
Lemma member_bits s X t m lo :
  tree_rep s X -> 0 <= t < 256 -> 0 <= m < 256 -> 0 <= lo < 256 -> (t * 256 + m) * 256 + lo ∈ X ->
  read_leaf s (t * 256 + m) <> 0 /\ Z.testbit (read_mid s t) m = true
  /\ read_mid s t <> 0 /\ Z.testbit (read_root s) t = true.
Proof.
  intros Hr Ht Hm Hlo Hin.
  assert (Hl0 : read_leaf s (t * 256 + m) <> 0).
  { intros H0. pose proof (tr_leaf _ _ Hr (t * 256 + m) lo ltac:(unfold key; lia) Hlo) as H.
    by rewrite H0, Z.bits_0, bool_decide_true in H. }
  assert (Hmbit : Z.testbit (read_mid s t) m = true)
    by (rewrite (tr_mid _ _ Hr) by done; by rewrite (proj2 (Z.eqb_neq _ _) Hl0)).
  assert (Hm0 : read_mid s t <> 0) by (intros H0; by rewrite H0, Z.bits_0 in Hmbit).
  split_and!; try done. rewrite (tr_root _ _ Hr) by done. by rewrite (proj2 (Z.eqb_neq _ _) Hm0).
Qed.

Lemma bin_remove_ok s X id :
  tree_rep s X -> 0 <= id <= MAX_BIN_ID ->
  exists s', bin_remove id s = (Ok (bool_decide (id ∈ X)), s') /\ tree_rep s' (X ∖ {[id]}).
Proof.
  intros Hr Hid. destruct (coordinates id Hid) as (t & m & lo & Ht & Hm & Hlo & Hs & Hv & Hk).
  assert (Hkey : key (t * 256 + m)) by (unfold key; lia). assert (Hkt : key t) by (unfold key; lia).
  assert (Hkeys : forall u, 0 <= u < 256 -> key u) by (unfold key; lia).
  unfold bin_remove. rewrite Hs, Hk. unfold mbind, gets, mret, modify, mid_key.
  assert (Hlw : word (read_leaf s (t * 256 + m))) by by apply (tr_leaf_word _ _ Hr).
  rewrite clear_bit_same by done. rewrite (tr_leaf _ _ Hr), <- Hv by done.
  set (w := Z.land (read_leaf s (t * 256 + m)) (not256 (shl256 1 lo))).
  destruct (decide (id ∈ X)) as [Hin|Hnin].
  2: { rewrite bool_decide_false by done. exists s. split; [done|].
       by replace (X ∖ {[id]}) with X by set_solver. }
  rewrite bool_decide_true by done. simpl negb. cbv iota.
  assert (Hw : word w) by by apply clear_bit_word.
  assert (Hmem : forall i, i ∈ X ∖ {[id]} -> 0 <= i <= MAX_BIN_ID)
    by (intros i Hi; apply (tr_member _ _ Hr); set_solver).
  assert (Hbits : forall b, 0 <= b < 256 -> Z.testbit w b = bool_decide ((t * 256 + m) * 256 + b ∈ X ∖ {[id]})).
  { intros b Hb. unfold w. rewrite clear_bit_spec by (done || lia). rewrite (tr_leaf _ _ Hr) by done.
    rewrite <- bool_decide_and. apply bool_decide_ext. rewrite elem_of_difference, elem_of_singleton.
    assert ((t * 256 + m) * 256 + b = id <-> b = lo) by lia. tauto. }
  assert (Hother : forall i, i / 256 <> t * 256 + m -> i ∈ X ∖ {[id]} <-> i ∈ X).
  { intros i Hi. pose proof (same_leaf t m lo i Hlo Hi). set_solver. }
  assert (Hwt : word (read_mid s t)) by by apply (tr_mid_word _ _ Hr).
  pose proof (tr_root_word _ _ Hr) as Hwr.
  destruct (member_bits s X t m lo Hr Ht Hm Hlo) as (Hl0 & Hmbit & Hm0 & Hrbit); [by rewrite <- Hv|].
  destruct (Z.eqb_spec w 0) as [Hw0|Hw0]; simpl.
  2: { eexists. split; [done|]. apply (leaf_write_rep s X _ _ t m w); try assumption; tree_reads; try assumption.
       - intros. by rewrite leaf_write_leaf.
       - intros. by tree_reads.
       - intros n Hn. case_decide; [|done]. subst. by rewrite Hmbit, (proj2 (Z.eqb_neq _ _) Hw0).
       - intros u Hu. tree_reads. case_decide; [|done]. subst. by rewrite Hrbit, (proj2 (Z.eqb_neq _ _) Hm0). }
  rewrite mid_write_leaf. set (w' := Z.land (read_mid s t) (not256 (shl256 1 m))).
  assert (Hw' : word w') by by apply clear_bit_word.
  assert (Hmb : forall n, 0 <= n < 256 -> Z.testbit w' n =
    if decide (n = m) then negb (w =? 0) else Z.testbit (read_mid s t) n).
  { intros n Hn. unfold w'. rewrite clear_bit_spec by (done || lia). rewrite Hw0.
    case_decide; [by rewrite bool_decide_false, andb_false_r by naive_solver|by rewrite bool_decide_true, andb_true_r]. }
  assert (Hrb : forall u, 0 <= u < 256 ->
    Z.testbit (if negb (w' =? 0) then read_root s else Z.land (read_root s) (not256 (shl256 1 t))) u =
    if decide (u = t) then negb (w' =? 0) else Z.testbit (read_root s) u).
  { intros u Hu. destruct (w' =? 0); simpl; [rewrite clear_bit_spec by (done || lia)|]; case_decide; subst; try done.
    - by rewrite bool_decide_false, andb_false_r by naive_solver.
    - by rewrite bool_decide_true, andb_true_r. }
  destruct (w' =? 0) eqn:Hw'0; simpl in *; (eexists; split; [done|]);
    apply (leaf_write_rep s X _ _ t m w); try assumption; tree_reads; try assumption;
    rewrite ?mid_write_mid, ?decide_True by (try done; by apply Hkeys); try assumption;
    try (intros k Hk'; tree_reads; by rewrite leaf_write_leaf);
    try (intros u Hu Hut; tree_reads; rewrite mid_write_mid by auto; rewrite decide_False by done; by tree_reads).
  - by apply clear_bit_word.
  - intros u Hu. tree_reads. rewrite Hw'0. by apply Hrb.
  - intros u Hu. tree_reads. rewrite Hw'0. by apply Hrb.
Qed.

(** ** The search *)

(** The answer to a search: the least member from [start] on. *)
Definition first_from (X : gset Z) (start : Z) (r : option Z) : Prop :=
  match r with
  | Some i => i ∈ X /\ start <= i /\ forall j, j ∈ X -> start <= j -> i <= j
  | None => forall j, j ∈ X -> j < start
  end.

(** No members between [lo] and [hi]. *)
Definition gap (X : gset Z) (lo hi : Z) : Prop := forall j, j ∈ X -> lo <= j -> hi <= j.

Lemma gap_trans X a b c : gap X a b -> gap X b c -> gap X a c.
Proof. intros H1 H2 j Hj Ha. apply H2; [done|]. by apply H1. Qed.

Lemma gap_first X start i : gap X start i -> start <= i -> i ∈ X -> first_from X start (Some i).
Proof. intros Hg Hle Hin. split_and!; [done..|]. intros j Hj Hs. by apply Hg. Qed.

(** A gap read off the bits of one word that summarises blocks of [size] ids. *)
Lemma word_gap s X w base size a b :
  tree_rep s X -> 0 < size -> 0 <= a -> b <= 256 ->
  (forall n, 0 <= n < 256 -> Z.testbit w n = false ->
     forall j, j ∈ X -> base * size * 256 + n * size <= j < base * size * 256 + (n + 1) * size -> False) ->
  (forall n, a <= n < b -> Z.testbit w n = false) ->
  gap X (base * size * 256 + a * size) (base * size * 256 + b * size).
Proof.
  intros Hr Hsize Ha Hb Hempty Hbits j Hj Hlo.
  destruct (Z.le_gt_cases (base * size * 256 + b * size) j) as [|Hlt]; [done|]. exfalso.
  set (n := (j - base * size * 256) / size).
  pose proof (Z.div_mod (j - base * size * 256) size ltac:(lia)) as Hdm.
  pose proof (Z.mod_pos_bound (j - base * size * 256) size Hsize) as Hm. fold n in Hdm.
  assert (Hn : a <= n < b) by nia.
  apply (Hempty n ltac:(lia) (Hbits n Hn) j Hj). lia.
Qed.

Lemma leaf_gap s X k a b :
  tree_rep s X -> key k -> 0 <= a -> b <= 256 ->
  (forall n, a <= n < b -> Z.testbit (read_leaf s k) n = false) -> gap X (k * 256 + a) (k * 256 + b).
Proof.
  intros Hr Hk Ha Hb Hbits.
  pose proof (word_gap s X (read_leaf s k) k 1 a b Hr ltac:(lia) Ha Hb) as H.
  rewrite !Z.mul_1_r in H. apply H; [|done]. intros n Hn Hz j Hj Hjn.
  replace j with (k * 256 + n) in Hj by lia. rewrite (tr_leaf _ _ Hr) in Hz by done.
  by apply bool_decide_eq_false in Hz.
Qed.

(** Blocks below one mid word, and below the root. *)
Lemma member_coordinates s X j : tree_rep s X -> j ∈ X ->
  exists t m lo, 0 <= t < 256 /\ 0 <= m < 256 /\ 0 <= lo < 256 /\ j = (t * 256 + m) * 256 + lo.
Proof.
  intros Hr Hj. destruct (coordinates j (tr_member _ _ Hr j Hj)) as (t & m & lo & Ht & Hm & Hlo & _ & Hv & _).
  by exists t, m, lo.
Qed.
Lemma mid_gap s X t a b :
  tree_rep s X -> 0 <= t < 256 -> 0 <= a -> b <= 256 ->
  (forall n, a <= n < b -> Z.testbit (read_mid s t) n = false) ->
  gap X ((t * 256 + a) * 256) ((t * 256 + b) * 256).
Proof.
  intros Hr Ht Ha Hb Hbits.
  pose proof (word_gap s X (read_mid s t) t 256 a b Hr ltac:(lia) Ha Hb) as H.
  replace (t * 256 * 256 + a * 256) with ((t * 256 + a) * 256) in H by lia.
  replace (t * 256 * 256 + b * 256) with ((t * 256 + b) * 256) in H by lia. apply H; [|done].
  intros n Hn Hz j Hj Hjn. destruct (member_coordinates s X j Hr Hj) as (t' & m & lo & Ht' & Hm & Hlo & ->).
  assert (t' = t) as -> by lia. assert (m = n) as -> by lia.
  destruct (member_bits s X t n lo Hr Ht Hn Hlo Hj) as (_ & Hbit & _). congruence.
Qed.
Lemma root_gap s X a b :
  tree_rep s X -> 0 <= a -> b <= 256 ->
  (forall n, a <= n < b -> Z.testbit (read_root s) n = false) -> gap X (a * 256 * 256) (b * 256 * 256).
Proof.
  intros Hr Ha Hb Hbits.
  pose proof (word_gap s X (read_root s) 0 (256 * 256) a b Hr ltac:(lia) Ha Hb) as H.
  rewrite !Z.mul_assoc in H. rewrite !Z.mul_0_l, !Z.add_0_l in H. apply H; [|done].
  intros n Hn Hz j Hj Hjn. destruct (member_coordinates s X j Hr Hj) as (t' & m & lo & Ht' & Hm & Hlo & ->).
  assert (t' = n) as -> by lia.
  destruct (member_bits s X n m lo Hr Hn Hm Hlo Hj) as (_ & _ & _ & Hbit). congruence.
Qed.

Lemma masked_lsb x from :
  word x -> 0 <= from < 256 -> mask_from x from <> 0 ->
  let b := least_significant_bit (mask_from x from) in
  from <= b < 256 /\ Z.testbit x b = true /\ forall n, from <= n < b -> Z.testbit x n = false.
Proof.
  intros Hx Hf Hnz b. pose proof (mask_from_range x from Hx) as Hr.
  destruct (lsb_lowest (mask_from x from) ltac:(lia)) as ((Hb & Hbit & Hlow) & Hlt). fold b in Hb, Hbit, Hlow, Hlt.
  rewrite mask_from_bit in Hbit by done. apply andb_true_iff in Hbit as [Hbit Hle]. apply Z.leb_le in Hle.
  split_and!; [done..|]. intros n Hn. specialize (Hlow n ltac:(lia)). rewrite mask_from_bit in Hlow by (done || lia).
  by rewrite (proj2 (Z.leb_le from n)), andb_true_r in Hlow by lia.
Qed.
Lemma masked_zero x from n :
  word x -> 0 <= from < 256 -> mask_from x from = 0 -> from <= n < 256 -> Z.testbit x n = false.
Proof.
  intros Hx Hf Hz Hn. pose proof (mask_from_bit x from n Hx Hf ltac:(lia)) as H.
  by rewrite Hz, Z.bits_0, (proj2 (Z.leb_le from n)), andb_true_r in H by lia.
Qed.

(** Descending into a non-empty leaf finds its least member. *)
Lemma descend_leaf_ok s X t m :
  tree_rep s X -> 0 <= t < 256 -> 0 <= m < 256 -> Z.testbit (read_mid s t) m = true ->
  descend_leaf s t m ∈ X /\ (t * 256 + m) * 256 <= descend_leaf s t m
  /\ gap X ((t * 256 + m) * 256) (descend_leaf s t m).
Proof.
  intros Hr Ht Hm Hbit. assert (Hk : key (t * 256 + m)) by (unfold key; lia).
  unfold descend_leaf. rewrite leaf_key_value by done.
  rewrite (tr_mid _ _ Hr) in Hbit by done. apply negb_true_iff, Z.eqb_neq in Hbit.
  pose proof (tr_leaf_word _ _ Hr _ Hk) as [Hw0 Hw1].
  assert (Hpos : 0 < read_leaf s (t * 256 + m) <= u256_max) by lia.
  destruct (lsb_lowest _ Hpos) as ((Hb & Hset & Hlow) & Hlt).
  set (b := least_significant_bit _) in *. rewrite assemble_value by lia.
  split_and!; [|lia|].
  - rewrite (tr_leaf _ _ Hr) in Hset by done. by apply bool_decide_eq_true in Hset.
  - pose proof (leaf_gap s X (t * 256 + m) 0 b Hr Hk ltac:(lia) ltac:(lia) Hlow) as H. by rewrite Z.add_0_r in H.
Qed.

(** Descending into a non-empty mid word likewise. *)
Lemma descend_mid_ok s X t :
  tree_rep s X -> 0 <= t < 256 -> Z.testbit (read_root s) t = true ->
  let i := descend_leaf s t (least_significant_bit (read_mid s t)) in
  i ∈ X /\ t * 256 * 256 <= i /\ gap X (t * 256 * 256) i.
Proof.
  intros Hr Ht Hbit. rewrite (tr_root _ _ Hr) in Hbit by done. apply negb_true_iff, Z.eqb_neq in Hbit.
  pose proof (tr_mid_word _ _ Hr _ Ht) as [Hw0 Hw1].
  assert (Hpos : 0 < read_mid s t <= u256_max) by lia.
  destruct (lsb_lowest _ Hpos) as ((Hb & Hset & Hlow) & Hlt).
  set (m := least_significant_bit _) in *. cbv zeta.
  destruct (descend_leaf_ok s X t m Hr Ht ltac:(lia) Hset) as (Hin & Hle & Hgap).
  split_and!; [done|lia|]. eapply gap_trans; [|exact Hgap].
  pose proof (mid_gap s X t 0 m Hr Ht ltac:(lia) ltac:(lia) Hlow) as H. by rewrite Z.add_0_r in H.
Qed.

Lemma find_first_ok s X start :
  tree_rep s X -> 0 <= start -> first_from X start (find_first_left_inclusive s start).
Proof.
  intros Hr H0. unfold find_first_left_inclusive. destruct (Z.ltb_spec MAX_BIN_ID start) as [Hbig|Hsmall].
  { intros j Hj. pose proof (tr_member _ _ Hr j Hj). lia. }
  destruct (coordinates start ltac:(lia)) as (t & m & lo & Ht & Hm & Hlo & Hs & Hv & Hk).
  rewrite Hs, Hk. unfold mid_key. assert (Hkey : key (t * 256 + m)) by (unfold key; lia).
  pose proof (tr_leaf_word _ _ Hr _ Hkey) as Hlw. pose proof (tr_mid_word _ _ Hr _ Ht) as Hmw.
  pose proof (tr_root_word _ _ Hr) as Hrw.
  destruct (Z.eqb_spec (mask_from (read_leaf s (t * 256 + m)) lo) 0) as [Hz|Hnz]; simpl negb; cbv iota.
  2: { destruct (masked_lsb _ lo Hlw Hlo Hnz) as (Hb & Hset & Hlow). set (b := least_significant_bit _) in *.
       rewrite assemble_value by lia. apply gap_first; [|lia|].
       - rewrite Hv. apply (leaf_gap s X (t * 256 + m) lo b); (done || lia).
       - rewrite (tr_leaf _ _ Hr) in Hset by (done || lia). by apply bool_decide_eq_true in Hset. }
  assert (Hg1 : gap X start ((t * 256 + (m + 1)) * 256)).
  { rewrite Hv. replace ((t * 256 + (m + 1)) * 256) with ((t * 256 + m) * 256 + 256) by lia.
    apply (leaf_gap s X (t * 256 + m) lo 256); try (done || lia). intros n Hn. by eapply masked_zero. }
  assert (Hmax : u8_max = 255) by done. unfold saturating_add.
  destruct (negb (m =? u8_max) && negb (mask_from (read_mid s t) (if m + 1 <=? u8_max then m + 1 else u8_max) =? 0)) eqn:Hmid.
  { apply andb_true_iff in Hmid as [Hm255 Hnz]. apply negb_true_iff, Z.eqb_neq in Hm255, Hnz.
    rewrite (proj2 (Z.leb_le (m + 1) u8_max)) in * by lia.
    destruct (masked_lsb _ (m + 1) Hmw ltac:(lia) Hnz) as (Hb & Hset & Hlow). set (b := least_significant_bit _) in *.
    destruct (descend_leaf_ok s X t b Hr Ht ltac:(lia) Hset) as (Hin & Hle & Hgap).
    apply gap_first; [|lia|done]. eapply gap_trans; [exact Hg1|]. eapply gap_trans; [|exact Hgap].
    apply (mid_gap s X t (m + 1) b); (done || lia). }
  assert (Hg2 : gap X start ((t + 1) * 256 * 256)).
  { eapply gap_trans; [exact Hg1|]. replace ((t + 1) * 256 * 256) with ((t * 256 + 256) * 256) by lia.
    apply mid_gap with s; try (done || lia). intros n Hn. apply andb_false_iff in Hmid as [H|H].
    - apply negb_false_iff, Z.eqb_eq in H. lia.
    - apply negb_false_iff, Z.eqb_eq in H. destruct (Z.leb_spec (m + 1) u8_max); [|lia].
      apply (masked_zero _ (m + 1)); (done || lia). }
  destruct (Z.eqb_spec t u8_max) as [Ht255|Ht255].
  { intros j Hj. destruct (Z.lt_ge_cases j start) as [|Hge]; [done|].
    pose proof (Hg2 j Hj Hge). pose proof (tr_member _ _ Hr j Hj). unfold MAX_BIN_ID in *. lia. }
  rewrite (proj2 (Z.leb_le (t + 1) u8_max)) by lia.
  destruct (Z.eqb_spec (mask_from (read_root s) (t + 1)) 0) as [Hz2|Hnz].
  - intros j Hj. destruct (Z.lt_ge_cases j start) as [|Hge]; [done|].
    assert (Hg3 : gap X ((t + 1) * 256 * 256) (256 * 256 * 256)).
    { apply root_gap with s; try (done || lia). intros n Hn. apply (masked_zero _ (t + 1)); (done || lia). }
    pose proof (gap_trans _ _ _ _ Hg2 Hg3 j Hj Hge). pose proof (tr_member _ _ Hr j Hj). unfold MAX_BIN_ID in *. lia.
  - destruct (masked_lsb _ (t + 1) Hrw ltac:(lia) Hnz) as (Hb & Hset & Hlow). set (b := least_significant_bit _) in *.
    destruct (descend_mid_ok s X b Hr ltac:(lia) Hset) as (Hin & Hle & Hgap).
    apply gap_first; [|lia|done]. eapply gap_trans; [exact Hg2|]. eapply gap_trans; [|exact Hgap].
    apply root_gap with s; (done || lia).
Qed.
End Refinement.

(** * The per-currency tries *)

Lemma scoped_value c k : key k -> scoped c k = c * 2 ^ 32 + k.
Proof. unfold key. intros Hk. unfold scoped. rewrite lor_shift by lia. done. Qed.
Lemma scoped_inj c k c' k' : key k -> key k' -> scoped c k = scoped c' k' -> c = c' /\ k = k'.
Proof. intros Hk Hk'. rewrite !scoped_value by done. unfold key in *. lia. Qed.

#[global] Instance CurrencyBins_laws c : BinTreeLaws (CurrencyBins c).
Proof.
  constructor; intros; simpl; try done; [apply mread_mwrite_eq|..].
  all: rewrite mread_mwrite; case_decide as Hs; case_decide; subst; try done.
  all: by apply scoped_inj in Hs as [_ ->].
Qed.

(** What one currency's trie is made of. *)
Definition trie_words (c k : Z) (s : CurrencyTries) : Z * Z * Z :=
  ((bin_tree_root s).[c], (bin_tree_mid s).[scoped c k], (bin_tree_leaf s).[scoped c k]).

Lemma tree_rep_ext c s s' X :
  (forall k, key k -> trie_words c k s' = trie_words c k s) ->
  tree_rep (T := CurrencyBins c) s X -> tree_rep (T := CurrencyBins c) s' X.
Proof.
  unfold trie_words. intros Heq [Hm Hl Hmid Hroot Hlw Hmw Hrw]. simpl in *.
  assert (Hroot' : (bin_tree_root s').[c] = (bin_tree_root s).[c])
    by (specialize (Heq 0 ltac:(done)); congruence).
  assert (Hmid' : forall k, key k -> (bin_tree_mid s').[scoped c k] = (bin_tree_mid s).[scoped c k])
    by (intros k Hk; specialize (Heq k Hk); congruence).
  assert (Hleaf' : forall k, key k -> (bin_tree_leaf s').[scoped c k] = (bin_tree_leaf s).[scoped c k])
    by (intros k Hk; specialize (Heq k Hk); congruence).
  constructor; simpl; intros; rewrite ?Hroot', ?Hmid', ?Hleaf' by (done || unfold key in *; lia); auto.
Qed.

(** A call on one currency leaves the words of every other. *)
Lemma write_other c c' k k' v s :
  c <> c' -> key k -> key k' ->
  trie_words c' k' (write_leaf (BinTreeStorage := CurrencyBins c) k v s) = trie_words c' k' s
  /\ trie_words c' k' (write_mid (BinTreeStorage := CurrencyBins c) k v s) = trie_words c' k' s
  /\ trie_words c' k' (write_root (BinTreeStorage := CurrencyBins c) v s) = trie_words c' k' s.
Proof.
  intros Hc Hk Hk'. unfold trie_words. simpl.
  assert (scoped c k <> scoped c' k') by (intros Hs; by apply scoped_inj in Hs as [? _]).
  split_and!; by rewrite mread_mwrite_ne.
Qed.

Lemma add_other c c' id k : c <> c' -> 0 <= id <= MAX_BIN_ID -> key k ->
  keeps (trie_words c' k) (bin_add (T := CurrencyBins c) id).
Proof.
  intros Hc Hid Hk. destruct (coordinates id Hid) as (t & m & lo & Ht & Hm & Hlo & Hs & Hv & Hlk).
  unfold bin_add, mid_key. rewrite Hs, Hlk.
  assert (Hk1 : key (t * 256 + m)) by (unfold key; lia). assert (Hk2 : key t) by (unfold key; lia).
  solve_keeps; apply keeps_modify; intros; first [by apply write_other|by apply (write_other c c' t)].
Qed.
Lemma remove_other c c' id k : c <> c' -> 0 <= id <= MAX_BIN_ID -> key k ->
  keeps (trie_words c' k) (bin_remove (T := CurrencyBins c) id).
Proof.
  intros Hc Hid Hk. destruct (coordinates id Hid) as (t & m & lo & Ht & Hm & Hlo & Hs & Hv & Hlk).
  unfold bin_remove, mid_key. rewrite Hs, Hlk.
  assert (Hk1 : key (t * 256 + m)) by (unfold key; lia). assert (Hk2 : key t) by (unfold key; lia).
  solve_keeps; apply keeps_modify; intros; first [by apply write_other|by apply (write_other c c' t)].
Qed.

(** * The calls of the users of the tries *)

Inductive TrieOp : Type :=
  | TrieAdd (id : Z)
  | TrieRemove (id : Z)
  | TrieContains (id : Z)
  | TrieFind (start : Z).

Inductive TrieAnswer : Type :=
  | AnswerBool (b : bool)
  | AnswerFind (r : option Z).

Definition trie_run (call : Z * TrieOp) : M CurrencyTries TrieAnswer :=
  let T := CurrencyBins (fst call) in
  match snd call with
  | TrieAdd id => let! b := bin_add (T := T) id in mret (AnswerBool b)
  | TrieRemove id => let! b := bin_remove (T := T) id in mret (AnswerBool b)
  | TrieContains id => let! b := bin_contains (T := T) id in mret (AnswerBool b)
  | TrieFind start => let! r := gets (fun s => find_first_left_inclusive (T := T) s start) in
                      mret (AnswerFind r)
  end.

(** Bin ids have 24 bits; a search may start anywhere. *)
Definition op_ok (op : TrieOp) : Prop :=
  match op with
  | TrieAdd id | TrieRemove id | TrieContains id => 0 <= id <= MAX_BIN_ID
  | TrieFind start => 0 <= start
  end.

(** What the calls mean on a set of ids. *)
Definition trie_spec (op : TrieOp) (X : gset Z) (a : TrieAnswer) (X' : gset Z) : Prop :=
  match op with
  | TrieAdd id => a = AnswerBool (bool_decide (id ∉ X)) /\ X' = {[id]} ∪ X
  | TrieRemove id => a = AnswerBool (bool_decide (id ∈ X)) /\ X' = X ∖ {[id]}
  | TrieContains id => a = AnswerBool (bool_decide (id ∈ X)) /\ X' = X
  | TrieFind start => (exists r, a = AnswerFind r /\ first_from X start r) /\ X' = X
  end.

(** A run over one set per currency. *)
Inductive trie_trace : (Z -> gset Z) -> list (Z * TrieOp) -> list TrieAnswer -> (Z -> gset Z) -> Prop :=
  | trace_nil F : trie_trace F [] [] F
  | trace_cons F c op calls a answers X' F' :
      trie_spec op (F c) a X' -> trie_trace (<[c := X']> F) calls answers F' ->
      trie_trace F ((c, op) :: calls) (a :: answers) F'.

Definition tries_rep (s : CurrencyTries) (F : Z -> gset Z) : Prop :=
  forall c, tree_rep (T := CurrencyBins c) s (F c).

(** A call that keeps the other currencies' words updates one set. *)
Lemma tries_update s s' F c X' :
  tries_rep s F -> tree_rep (T := CurrencyBins c) s' X' ->
  (forall c' k, c <> c' -> key k -> trie_words c' k s' = trie_words c' k s) ->
  tries_rep s' (<[c := X']> F).
Proof.
  intros HF Hc Hother c'. destruct (decide (c = c')) as [<-|Hne]; [by rewrite fn_lookup_insert|].
  rewrite fn_lookup_insert_ne by done. apply (tree_rep_ext c' s); [|apply HF]. intros k Hk. by apply Hother.
Qed.

Lemma trie_run_ok s F c op :
  tries_rep s F -> op_ok op ->
  exists a s' X', trie_run (c, op) s = (Ok a, s') /\ trie_spec op (F c) a X'
    /\ tries_rep s' (<[c := X']> F).
Proof.
  intros HF Hop. pose proof (HF c) as Hc. destruct op as [id|id|id|start]; simpl in Hop; unfold trie_run; simpl.
  - destruct (bin_add_ok (T := CurrencyBins c) s (F c) id Hc Hop) as (s' & Hrun & Hrep).
    eexists _, s', _. unfold mbind. rewrite Hrun. split_and!; [done..|].
    eapply tries_update; [done..|]. intros c' k Hne Hk. eapply keeps_run; [by apply add_other|exact Hrun].
  - destruct (bin_remove_ok (T := CurrencyBins c) s (F c) id Hc Hop) as (s' & Hrun & Hrep).
    eexists _, s', _. unfold mbind. rewrite Hrun. split_and!; [done..|].
    eapply tries_update; [done..|]. intros c' k Hne Hk. eapply keeps_run; [by apply remove_other|exact Hrun].
  - eexists _, s, _. unfold mbind. rewrite (bin_contains_ok (T := CurrencyBins c) s (F c)) by done.
    split_and!; [done..|]. by eapply tries_update.
  - eexists _, s, (F c). split; [done|]. split; [|by eapply tries_update].
    split; [|done]. eexists. split; [done|]. by apply (find_first_ok (T := CurrencyBins c)).
Qed.

Lemma trie_runs_ok calls : forall s F,
  tries_rep s F -> Forall (fun call => op_ok (snd call)) calls ->
  exists answers s' F', mmap calls trie_run s = (Ok answers, s') /\ trie_trace F calls answers F'
    /\ tries_rep s' F'.
Proof.
  induction calls as [|[c op] calls IH]; intros s F HF Hok.
  { exists [], s, F. split_and!; [done|constructor|done]. }
  apply Forall_cons in Hok as [Hop Hok].
  destruct (trie_run_ok s F c op HF Hop) as (a & s1 & X' & Hrun & Hspec & HF1).
  destruct (IH s1 _ HF1 Hok) as (answers & s2 & F' & Hruns & Htrace & HF2).
  exists (a :: answers), s2, F'. split_and!; [|by econstructor|done].
  simpl. unfold mbind. rewrite Hrun. by rewrite Hruns.
Qed.

Definition empty_tries : CurrencyTries := mkTries ∅ ∅ ∅.

Lemma empty_tries_rep : tries_rep empty_tries (fun _ => ∅).
Proof.
  intros c. constructor; simpl; intros; rewrite ?mread_empty in *; try done; rewrite ?Z.bits_0; try done.
Qed.

(** * Property *)

(** C34. Any sequence of trie calls of any currencies, from empty storage, answers
    as one finite set of bin ids per currency would, and never fails: insertions
    and removals report whether the set changed, membership is exact, a search
    returns the least member from its start on or nothing when there is none,
    and no call affects another currency. *)
Theorem bin_tries_refine calls :
  Forall (fun call => op_ok (snd call)) calls ->
  exists answers s F, mmap calls trie_run empty_tries = (Ok answers, s)
    /\ trie_trace (fun _ => ∅) calls answers F.
Proof.
  intros Hok. destruct (trie_runs_ok calls empty_tries _ empty_tries_rep Hok)
    as (answers & s & F & Hrun & Htrace & _).
  by exists answers, s, F.
Qed.

Definition sample_trie_calls : list (Z * TrieOp) :=
  [ (840, TrieAdd 0x010001); (840, TrieAdd 0x50); (978, TrieFind 0); (840, TrieFind 0x51);
    (840, TrieRemove 0x010001); (840, TrieFind 0x51); (840, TrieContains 0x50) ].

Lemma bin_tries_refine_witness :
  exists answers s F, mmap sample_trie_calls trie_run empty_tries = (Ok answers, s)
    /\ trie_trace (fun _ => ∅) sample_trie_calls answers F
    /\ fst (mmap sample_trie_calls trie_run empty_tries)
        = Ok [AnswerBool true; AnswerBool true; AnswerFind None; AnswerFind (Some 0x010001);
              AnswerBool true; AnswerFind None; AnswerBool true].
Proof.
  destruct (bin_tries_refine sample_trie_calls) as (answers & s & F & Hrun & Htrace).
  - repeat constructor; vm_compute; discriminate.
  - exists answers, s, F. split; [exact Hrun|]. split; [exact Htrace|]. vm_compute. reflexivity.
Defined.
