(* ===== verification/P2pAddress.v ===== *)
(** The versioned validator P2P address codec
    ([crates/blockchain/primitives/src/consensus_p2p.rs]): [encode_v1],
    [decode_v1] and the cursor they read through. A byte is a [Z] below 256, a
    host name is its byte list. The cursor is the suffix of the payload that is
    still to be read.

    [core::str::from_utf8] is not modelled separately: a host with a byte
    outside ASCII is refused by [validate_hostname] with the same
    [InvalidHostname] error. A socket address is its IP and port ([SocketAddr::new]
    sets flow info and scope id to zero). *)

From S2P Require Import Prelude Bytes.

(** * Data *)

Definition P2P_ADDRESS_VERSION_V1 : Z := 1.
Definition MAX_P2P_ADDRESS_ENCODED_LEN : Z := 512.

Inductive IpAddr : Type :=
  | V4 (octets : list Z)
  | V6 (octets : list Z).

Record SocketAddr : Type := mkSocketAddr { sock_ip : IpAddr; sock_port : Z }.

Inductive P2pIngress : Type :=
  | IngressSocket (socket : SocketAddr)
  | IngressDns (host : list Z) (port : Z).

Inductive P2pAddr : Type :=
  | Symmetric (socket : SocketAddr)
  | Asymmetric (ingress : P2pIngress) (egress : SocketAddr).

Inductive P2pAddressError : Type :=
  | UnsupportedVersion (version : Z)
  | TooLarge (actual max : Z)
  | Truncated
  | TrailingBytes
  | InvalidAddressKind (kind : Z)
  | InvalidIngressKind (kind : Z)
  | InvalidIpKind (kind : Z)
  | ZeroPort
  | InvalidHostname.

#[global] Instance IpAddr_eq_dec : EqDecision IpAddr.
Proof. solve_decision. Defined.
#[global] Instance SocketAddr_eq_dec : EqDecision SocketAddr.
Proof. solve_decision. Defined.
#[global] Instance P2pIngress_eq_dec : EqDecision P2pIngress.
Proof. solve_decision. Defined.
#[global] Instance P2pAddr_eq_dec : EqDecision P2pAddr.
Proof. solve_decision. Defined.

(** * Encoder *)

Definition u16_to_be_bytes (n : Z) : list Z := [n / 256; n mod 256].
#[global] Arguments u16_to_be_bytes : simpl never.

Definition encode_socket (socket : SocketAddr) : list Z :=
  match sock_ip socket with
  | V4 octets => 4 :: octets
  | V6 octets => 6 :: octets
  end ++ u16_to_be_bytes (sock_port socket).

Definition encode_ingress (ingress : P2pIngress) : list Z :=
  match ingress with
  | IngressSocket socket => 0 :: encode_socket socket
  | IngressDns host port =>
      1 :: u16_to_be_bytes (Z.of_nat (length host) mod 2 ^ 16) ++ host ++ u16_to_be_bytes port
  end.

Definition encode_v1 (address : P2pAddr) : list Z :=
  match address with
  | Symmetric socket => 0 :: encode_socket socket
  | Asymmetric ingress egress => 1 :: encode_ingress ingress ++ encode_socket egress
  end.

(** * Decoder *)

Definition parser (A : Type) : Type := list Z -> P2pAddressError + (A * list Z).

Definition pret {A} (a : A) : parser A := fun c => inr (a, c).
Definition pfail {A} (e : P2pAddressError) : parser A := fun _ => inl e.
Definition pbind {A B} (p : parser A) (k : A -> parser B) : parser B :=
  fun c => match p c with inl e => inl e | inr (a, c') => k a c' end.


Notation "'let*' x := p 'in' k" := (pbind p (fun x => k))
  (at level 10, x pattern, p at level 100, k at level 200) : rudis_scope.

Definition read_u8 : parser Z :=
  fun c => match c with [] => inl Truncated | b :: c' => inr (b, c') end.

Definition read_exact (len : nat) : parser (list Z) :=
  fun c => if (len <=? length c)%nat then inr (take len c, drop len c) else inl Truncated.

Definition read_u16 : parser Z :=
  let* bytes := read_exact 2 in
  match bytes with
  | [b0; b1] => pret (256 * b0 + b1)
  | _ => pfail Truncated
  end.

Definition read_port : parser Z :=
  let* port := read_u16 in
  if port =? 0 then pfail ZeroPort else pret port.

Definition read_socket : parser SocketAddr :=
  let* ip_kind := read_u8 in
  let* ip := (if ip_kind =? 4 then let* bytes := read_exact 4 in pret (V4 bytes)
              else if ip_kind =? 6 then let* bytes := read_exact 16 in pret (V6 bytes)
              else pfail (InvalidIpKind ip_kind)) in
  let* port := read_port in
  pret (mkSocketAddr ip port).

(** [host.split('.')] on bytes ([.] is 46). *)
Fixpoint split_dot (host : list Z) : list (list Z) :=
  match host with
  | [] => [[]]
  | b :: rest =>
      if b =? 46 then [] :: split_dot rest
      else match split_dot rest with
           | label :: labels => (b :: label) :: labels
           | [] => [[b]]
           end
  end.

Definition is_ascii_alphanumeric (b : Z) : bool :=
  ((48 <=? b) && (b <=? 57)) || ((65 <=? b) && (b <=? 90)) || ((97 <=? b) && (b <=? 122)).

Definition valid_label (label : list Z) : bool :=
  negb ((length label =? 0)%nat || (63 <? length label)%nat)
  && negb (bool_decide (head label = Some 45) || bool_decide (last label = Some 45))
  && forallb (fun b => is_ascii_alphanumeric b || (b =? 45)) label.

Definition validate_hostname (host : list Z) : bool :=
  negb ((length host =? 0)%nat || (253 <? length host)%nat)
  && forallb valid_label (split_dot host).

Definition read_ingress : parser P2pIngress :=
  let* kind := read_u8 in
  if kind =? 0 then let* socket := read_socket in pret (IngressSocket socket)
  else if kind =? 1 then
    let* host_len := read_u16 in
    let* host := read_exact (Z.to_nat host_len) in
    if validate_hostname host then
      let* port := read_port in pret (IngressDns host port)
    else pfail InvalidHostname
  else pfail (InvalidIngressKind kind).

Definition decode_v1 (payload : list Z) : P2pAddressError + P2pAddr :=
  if MAX_P2P_ADDRESS_ENCODED_LEN <? Z.of_nat (length payload)
  then inl (TooLarge (Z.of_nat (length payload)) MAX_P2P_ADDRESS_ENCODED_LEN)
  else
    match (let* kind := read_u8 in
           if kind =? 0 then let* socket := read_socket in pret (Symmetric socket)
           else if kind =? 1 then
             let* ingress := read_ingress in
             let* egress := read_socket in
             pret (Asymmetric ingress egress)
           else pfail (InvalidAddressKind kind)) payload with
    | inl e => inl e
    | inr (address, []) => inr address
    | inr (_, _ :: _) => inl TrailingBytes
    end.

Definition decode_versioned (version : Z) (payload : list Z) : P2pAddressError + P2pAddr :=
  if version =? P2P_ADDRESS_VERSION_V1 then decode_v1 payload
  else inl (UnsupportedVersion version).

(** * Well-formed addresses and payloads *)

Definition wf_port (p : Z) : Prop := 0 < p < 65536.
Definition wf_ip (ip : IpAddr) : Prop :=
  match ip with
  | V4 o => length o = 4%nat
  | V6 o => length o = 16%nat
  end.
Definition wf_socket (s : SocketAddr) : Prop := wf_ip (sock_ip s) /\ wf_port (sock_port s).
Definition wf_ingress (i : P2pIngress) : Prop :=
  match i with
  | IngressSocket s => wf_socket s
  | IngressDns host port => validate_hostname host = true /\ wf_port port
  end.
Definition wf_addr (a : P2pAddr) : Prop :=
  match a with
  | Symmetric s => wf_socket s
  | Asymmetric i e => wf_ingress i /\ wf_socket e
  end.

(** * Round trips *)

Lemma u16_be_roundtrip n : 256 * (n / 256) + n mod 256 = n.
Proof. pose proof (Z.div_mod n 256). lia. Qed.

Lemma read_u16_encode n rest : read_u16 (u16_to_be_bytes n ++ rest) = inr (n, rest).
Proof.
  unfold read_u16, read_exact, pbind, u16_to_be_bytes. simpl. by rewrite u16_be_roundtrip, drop_0.
Qed.

Lemma read_exact_app (l rest : list Z) n : length l = n -> read_exact n (l ++ rest) = inr (l, rest).
Proof.
  intros <-. unfold read_exact. rewrite length_app.
  destruct (Nat.leb_spec (length l) (length l + length rest)); [|lia].
  by rewrite take_app_length, drop_app_length.
Qed.

Lemma read_port_encode p rest : wf_port p -> read_port (u16_to_be_bytes p ++ rest) = inr (p, rest).
Proof.
  intros Hp. unfold read_port, pbind. rewrite read_u16_encode.
  destruct (Z.eqb_spec p 0); [unfold wf_port in Hp; lia|done].
Qed.

Lemma read_socket_encode s rest :
  wf_socket s -> read_socket (encode_socket s ++ rest) = inr (s, rest).
Proof.
  destruct s as [[o|o] p]; intros [Hip Hp]; simpl in *; unfold read_socket, encode_socket, pbind;
    simpl; rewrite <- app_assoc, (read_exact_app o) by done; unfold pret; by rewrite read_port_encode.
Qed.

Lemma validate_hostname_length host :
  validate_hostname host = true -> (length host <= 253)%nat.
Proof.
  unfold validate_hostname. intros. bprop.
  by apply Nat.ltb_ge.
Qed.

Lemma read_ingress_encode i rest :
  wf_ingress i -> read_ingress (encode_ingress i ++ rest) = inr (i, rest).
Proof.
  destruct i as [s|host port]; unfold read_ingress, encode_ingress, wf_ingress, pbind;
    cbn [app read_u8 Z.eqb Pos.eqb].
  - intros Hs. by rewrite read_socket_encode.
  - intros [Hh Hp]. pose proof (validate_hostname_length _ Hh).
    rewrite Z.mod_small by lia.
    rewrite <- !app_assoc.
    rewrite (read_u16_encode (Z.of_nat (length host))).
    rewrite (read_exact_app host), Hh by lia. by rewrite read_port_encode.
Qed.

Lemma encode_v1_length a : wf_addr a -> Z.of_nat (length (encode_v1 a)) <= 512.
Proof.
  assert (Hs : forall s, wf_socket s -> (length (encode_socket s) <= 19)%nat).
  { intros [[o|o] p] [Hip _]; unfold encode_socket; simpl in *; rewrite length_app; simpl; lia. }
  destruct a as [s|[s'|host p] s]; simpl.
  - intros H%Hs. lia.
  - intros [H1%Hs H2%Hs]. rewrite length_app. lia.
  - intros [[H1%validate_hostname_length _] H2%Hs].
    rewrite !length_app; simpl; lia.
Qed.

(** Inversion of the readers: what was consumed is the encoding of what was
    returned. *)
Lemma pbind_inr {A B} (p : parser A) (k : A -> parser B) c b c'' :
  pbind p k c = inr (b, c'') -> exists a c', p c = inr (a, c') /\ k a c' = inr (b, c'').
Proof. unfold pbind. destruct (p c) as [|[a c']]; naive_solver. Qed.

Ltac pinv :=
  repeat match goal with
  | H : pbind _ _ _ = inr _ |- _ =>
      let a := fresh "a" in let c := fresh "c" in
      let H1 := fresh "H" in let H2 := fresh "H" in
      apply pbind_inr in H as (a & c & H1 & H2)
  | H : pret _ _ = inr _ |- _ => unfold pret in H; injection H as ??; subst
  | H : pfail _ _ = inr _ |- _ => discriminate H
  | H : (if ?b then _ else _) _ = inr _ |- _ => destruct b eqn:?
  end.

Lemma read_u8_inr c b c' : read_u8 c = inr (b, c') -> c = b :: c'.
Proof. destruct c; simpl; naive_solver. Qed.

Lemma read_exact_inr n c l c' :
  read_exact n c = inr (l, c') -> c = l ++ c' /\ length l = n.
Proof.
  unfold read_exact. case_match eqn:Hn; [|done]. apply Nat.leb_le in Hn.
  intros [= <- <-]. rewrite take_drop, length_take. split; [done|lia].
Qed.

Lemma read_u16_inr c n c' :
  read_u16 c = inr (n, c') -> Forall byte c -> c = u16_to_be_bytes n ++ c' /\ 0 <= n < 65536.
Proof.
  unfold read_u16. intros H Hb. pinv. apply read_exact_inr in H0 as [-> Hl].
  destruct a as [|b0 [|b1 [|]]]; try done. simpl in H1. injection H1 as <- <-.
  apply Forall_cons in Hb as [Hb0 Hb]. apply Forall_cons in Hb as [Hb1 Hb].
  unfold byte in *. unfold u16_to_be_bytes.
  rewrite (Z.mul_comm 256), Z.add_comm, Z_div_plus_full, Z.div_small, Z_mod_plus_full,
    Z.mod_small by lia. split; [done|lia].
Qed.

Lemma read_port_inr c n c' :
  read_port c = inr (n, c') -> Forall byte c -> c = u16_to_be_bytes n ++ c' /\ wf_port n.
Proof.
  unfold read_port, wf_port. intros H Hb. pinv. bprop.
  apply read_u16_inr in H0 as [-> ?]; [|done]. split; [done|lia].
Qed.

(** Replay a successful read: every consumed prefix becomes the encoding of
    the value it was read as. *)
Ltac pread_step :=
  match goal with
  | H : read_u8 _ = inr _ |- _ => apply read_u8_inr in H; subst
  | H : read_exact _ _ = inr _ |- _ => apply read_exact_inr in H as [??]; subst
  | Hb : Forall byte (_ :: _) |- _ => apply Forall_cons in Hb as [_ Hb]
  | Hb : Forall byte (_ ++ _) |- _ => apply Forall_app in Hb as [_ Hb]
  | Hb : Forall byte ?c, H : read_u16 ?c = inr _ |- _ =>
      apply read_u16_inr in H as [-> ?]; [|exact Hb]
  | Hb : Forall byte ?c, H : read_port ?c = inr _ |- _ =>
      apply read_port_inr in H as [-> ?]; [|exact Hb]
  end.
Ltac pread := repeat (pinv; bprop; subst; pread_step).

Lemma read_socket_inr c s c' :
  read_socket c = inr (s, c') -> Forall byte c -> c = encode_socket s ++ c' /\ wf_socket s.
Proof.
  unfold read_socket. intros H Hb. pread; unfold encode_socket; cbn; by rewrite <- app_assoc.
Qed.

Lemma read_ingress_inr c i c' :
  read_ingress c = inr (i, c') -> Forall byte c -> c = encode_ingress i ++ c' /\ wf_ingress i.
Proof.
  unfold read_ingress. intros H Hb. pread; unfold encode_ingress, wf_ingress; cbn [app].
  - apply read_socket_inr in H as [-> ?]; done.
  - split; [|done]. rewrite <- !app_assoc. repeat f_equal.
    rewrite Z.mod_small; lia.
Qed.

Lemma decode_of_encode_v1 a : wf_addr a -> decode_v1 (encode_v1 a) = inr a.
Proof.
  intros Ha. unfold decode_v1. pose proof (encode_v1_length a Ha).
  destruct (Z.ltb_spec MAX_P2P_ADDRESS_ENCODED_LEN (Z.of_nat (length (encode_v1 a))));
    [unfold MAX_P2P_ADDRESS_ENCODED_LEN in *; lia|].
  unfold pbind. destruct a as [s|i e]; simpl in Ha |- *.
  - rewrite <- (app_nil_r (encode_socket s)). by rewrite read_socket_encode.
  - destruct Ha as [Hi He]. rewrite (read_ingress_encode i _ Hi).
    rewrite <- (app_nil_r (encode_socket e)). by rewrite read_socket_encode.
Qed.

Definition sample_addr : P2pAddr :=
  Asymmetric (IngressDns [110; 48; 46; 105; 111] 9000) (mkSocketAddr (V4 [10; 0; 0; 1]) 9001).

Lemma encode_of_decode_v1 payload a :
  Forall byte payload -> decode_v1 payload = inr a ->
  encode_v1 a = payload /\ wf_addr a.
Proof.
  unfold decode_v1. intros Hb H. case_match; [done|].
  destruct (pbind _ _ _) as [e|[a' [|]]] eqn:Hp; try done. injection H as ->.
  pread; cbn [encode_v1 wf_addr].
  - apply read_socket_inr in H2 as [-> ?]; [|done]. by rewrite app_nil_r.
  - apply read_ingress_inr in H2 as [-> ?]; [|done]. pread.
    apply read_socket_inr in H1 as [-> ?]; [|done]. by rewrite app_nil_r.
Qed.

(** The codec is exact: a byte payload decodes to an address precisely when
    the address is well formed and the payload is its encoding. So every
    well-formed address encodes within the length limit and reads back without a
    remainder, and no two payloads decode to the same address. *)
Theorem p2p_codec_exact payload a :
  Forall byte payload -> decode_v1 payload = inr a <-> wf_addr a /\ encode_v1 a = payload.
Proof.
  intros Hb. split.
  - intros [He Hw]%encode_of_decode_v1; [|done]. done.
  - intros [Hw <-]. by apply decode_of_encode_v1.
Qed.

Lemma p2p_codec_exact_witness :
  wf_addr sample_addr /\ decode_v1 (encode_v1 sample_addr) = inr sample_addr.
Proof.
  assert (Hb : Forall byte (encode_v1 sample_addr))
    by (vm_compute; repeat constructor; discriminate).
  assert (Hw : wf_addr sample_addr) by (repeat split; vm_compute; reflexivity).
  split; [exact Hw|]. apply (p2p_codec_exact _ sample_addr Hb). split; [exact Hw|reflexivity].
Defined.
