(* ===== verification/Native.v ===== *)
(** Native balances ([crates/blockchain/primitives/src/storage/direct.rs]):
    transfers and burns against the account table of the storage provider.

    A contract's state that reaches the native balances is an instance of
    [Native]; the operations and their lemmas are shared by its users. *)

From S2P Require Import Prelude.

Class Native (S : Type) := {
  native_of : S -> gmap Address Z;
  set_native : gmap Address Z -> S -> S }.

(** Setting the balances changes nothing else, and reading sees what was set. *)
Class NativeLaws (S : Type) `{Native S} : Prop := {
  native_set : forall n s, native_of (set_native n s) = n;
  set_native_same : forall s, set_native (native_of s) s = s }.

Section Operations.
Context {S : Type} `{Native S}.

Definition balance (address : Address) : M S Z := gets (fun s => (native_of s).[address]).

Definition transfer_balance (from to : Address) (amount : Z) : M S unit :=
  if amount =? 0 then mret tt
  else if from =? to then mret tt
  else
    let! from_balance := balance from in
    require (negb (from_balance <? amount)) (Fatal "insufficient balance") ;;;
    let! to_balance := balance to in
    let! credited := lift (ok_or (checked_add u256_max to_balance amount)
                             (Fatal "balance overflow")) in
    modify (fun s =>
      set_native ((native_of s).[from <- from_balance - amount].[to <- credited]) s).

Definition decrease_balance (address : Address) (amount : Z) : M S unit :=
  if amount =? 0 then mret tt
  else
    let! held := balance address in
    require (negb (held <? amount)) (Fatal "insufficient balance for burn") ;;;
    modify (fun s => set_native ((native_of s).[address <- held - amount]) s).
End Operations.

(** Every balance is a 256-bit word. *)
Definition balances_bounded (n : gmap Address Z) : Prop := forall a, 0 <= n.[a] <= u256_max.

(** The whole supply is a 256-bit word, so no credit of held value overflows. *)
Definition supply_bounded (n : gmap Address Z) : Prop :=
  (forall a, 0 <= n.[a]) /\ map_sum n <= u256_max.

Lemma supply_balances n : supply_bounded n -> balances_bounded n.
Proof. intros [Hn Hs] a. pose proof (map_sum_le n a Hn). pose proof (Hn a). lia. Qed.

Section Lemmas.
Context {S : Type} `{NativeLaws S}.

Lemma transfer_inv from to amount s s' :
  transfer_balance from to amount s = (Ok tt, s') -> 0 <= amount ->
  exists n, s' = set_native n s
    /\ (amount = 0 \/ from = to -> s' = s)
    /\ (from <> to -> amount <= (native_of s).[from] \/ amount = 0)
    /\ (from <> to -> forall a, n.[a] = (native_of s).[a]
           - (if decide (a = from) then amount else 0) + (if decide (a = to) then amount else 0))
    /\ (balances_bounded (native_of s) -> balances_bounded n).
Proof.
  intros Hrun Ha. unfold transfer_balance, balance in Hrun.
  destruct (Z.eqb_spec amount 0) as [->|H0']; [|destruct (Z.eqb_spec from to) as [->|Hft]]; minv.
  - exists (native_of s). split_and!; [by rewrite set_native_same|done|by right| |done].
    intros _ a. repeat case_decide; lia.
  - exists (native_of s). split_and!; [by rewrite set_native_same|done|done|done|done].
  - bprop. eexists. split_and!; [reflexivity|naive_solver|by left| |].
    + intros _ a. rewrite !mread_mwrite. repeat case_decide; subst; try done; lia.
    + intros Hn a. rewrite !mread_mwrite. pose proof (Hn from). pose proof (Hn to). pose proof (Hn a).
      repeat case_decide; lia.
Qed.

Lemma transfer_supply from to amount s s' :
  transfer_balance from to amount s = (Ok tt, s') ->
  map_sum (native_of s') = map_sum (native_of s).
Proof.
  intros Hrun. unfold transfer_balance, balance in Hrun. minv_all; try done. bprop.
  rewrite native_set, !map_sum_mwrite, mread_mwrite_ne by done. lia.
Qed.

Lemma transfer_succeeds from to amount s :
  0 < amount -> from <> to -> amount <= (native_of s).[from] ->
  (native_of s).[to] + amount <= u256_max ->
  exists s', transfer_balance from to amount s = (Ok tt, s').
Proof.
  intros Ha Hne Hf Ht.
  unfold transfer_balance, balance, mbind, gets, require, lift, checked_add.
  rewrite (proj2 (Z.eqb_neq amount 0)), (proj2 (Z.eqb_neq from to)) by (done || lia).
  rewrite (proj2 (Z.ltb_ge _ _)) by lia. simpl. rewrite (proj2 (Z.leb_le _ _)) by lia. by eexists.
Qed.

Lemma decrease_inv address amount s s' :
  decrease_balance address amount s = (Ok tt, s') -> 0 <= amount ->
  exists n, s' = set_native n s
    /\ (amount <= (native_of s).[address] \/ amount = 0)
    /\ (forall a, n.[a] = (native_of s).[a] - if decide (a = address) then amount else 0)
    /\ (balances_bounded (native_of s) -> balances_bounded n).
Proof.
  intros Hrun Ha. unfold decrease_balance, balance in Hrun.
  destruct (Z.eqb_spec amount 0) as [->|H0']; minv.
  - exists (native_of s). split_and!; [by rewrite set_native_same|by right| |done].
    intros a. case_decide; lia.
  - bprop. eexists. split_and!; [reflexivity|by left| |].
    + intros a. rewrite mread_mwrite. repeat case_decide; subst; try done; lia.
    + intros Hn a. rewrite mread_mwrite. pose proof (Hn address). pose proof (Hn a).
      case_decide; lia.
Qed.

Lemma decrease_supply address amount s s' :
  decrease_balance address amount s = (Ok tt, s') -> 0 <= amount ->
  map_sum (native_of s') <= map_sum (native_of s).
Proof.
  intros Hrun Ha. unfold decrease_balance, balance in Hrun. minv_all; try done.
  rewrite native_set, map_sum_mwrite. lia.
Qed.

Lemma decrease_succeeds address amount s :
  amount <= (native_of s).[address] ->
  exists s', decrease_balance address amount s = (Ok tt, s').
Proof.
  intros Hle. unfold decrease_balance, balance, mbind, gets, require.
  destruct (amount =? 0); [by eexists|].
  rewrite (proj2 (Z.ltb_ge _ _)) by lia. by eexists.
Qed.
End Lemmas.
