(* ===== verification/Lifecycle.v ===== *)
(** The typed validator lifecycle
    ([crates/system/validatorset/src/state_machine/]): the states of
    [state.rs], the transitions of [mod.rs] and the codec between the typed
    aggregate and the flat storage fields of [adapter.rs].

    A [ConsensusPubkey] is the big-endian value of its 48 bytes, so the zero
    key [[0; 48]] is [0]. The payload structs that the macro
    [validator_payload!] stamps out are one record indexed by the state it
    belongs to, which keeps the transition signatures as typed as in Rust. *)

From S2P Require Import Prelude Bytes P2pAddress.

(** * State (state.rs) *)

Abbreviation ConsensusPubkey := Z (only parsing).

Inductive P2pInfo : Type :=
  | Unset
  | V1 (address : P2pAddr)
  | Opaque (version : Z) (payload : list Z).

#[global] Instance P2pInfo_eq_dec : EqDecision P2pInfo.
Proof. solve_decision. Defined.

Definition p2p_address (p : P2pInfo) : option P2pAddr :=
  match p with
  | Unset | Opaque _ _ => None
  | V1 address => Some address
  end.

Record StakeProjection : Type := mkStake {
  bonded : Z;
  unbonding_end_hint : option Z }.

Definition stake_zero : StakeProjection := mkStake 0 None.

Record ValidatorHistory : Type := mkHistory {
  joined_at_height : Z;
  last_deactivated_at_height : option Z;
  slash_count : Z;
  missed_blocks : Z;
  missed_votes : Z;
  blocks_proposed : Z }.

#[global] Instance StakeProjection_eq_dec : EqDecision StakeProjection.
Proof. solve_decision. Defined.
#[global] Instance ValidatorHistory_eq_dec : EqDecision ValidatorHistory.
Proof. solve_decision. Defined.
#[global] Instance ValidatorHistory_eta : Eta ValidatorHistory := fun h =>
  mkHistory (joined_at_height h) (last_deactivated_at_height h) (slash_count h)
    (missed_blocks h) (missed_votes h) (blocks_proposed h).

Definition history_fresh (joined : Z) : ValidatorHistory := mkHistory joined None 0 0 0 0.

Definition with_last_deactivated_at_height (h : ValidatorHistory) (height : option Z) :
    ValidatorHistory :=
  h <| last_deactivated_at_height := height |>.

Definition with_missed_counters_cleared (h : ValidatorHistory) : ValidatorHistory :=
  h <| missed_blocks := 0 |> <| missed_votes := 0 |>.

Definition history_is_zero (h : ValidatorHistory) : bool :=
  (joined_at_height h =? 0)
  && bool_decide (last_deactivated_at_height h = None)
  && (slash_count h =? 0)
  && (missed_blocks h =? 0)
  && (missed_votes h =? 0)
  && (blocks_proposed h =? 0).

(** The states whose payload carries a stake. *)
Inductive Tag : Type :=
  | TWaitingForStake | TWaitingForReadiness | TJoining | TActive
  | TJailRetained | TJail | TExiting | TUnbonding.

Record validator_payload (tag : Tag) : Type := mkPayload {
  registry_index : Z;
  consensus_pubkey : ConsensusPubkey;
  p2p : P2pInfo;
  stake : StakeProjection;
  history : ValidatorHistory }.
Arguments mkPayload {tag}.
Arguments registry_index {tag}.
Arguments consensus_pubkey {tag}.
Arguments p2p {tag}.
Arguments stake {tag}.
Arguments history {tag}.

Record jailed_payload (tag : Tag) : Type := mkJailed {
  jailed_base : validator_payload tag;
  jailed_at : Z }.
Arguments mkJailed {tag}.
Arguments jailed_base {tag}.
Arguments jailed_at {tag}.

Record inactive_payload : Type := mkInactive {
  in_registry_index : Z;
  in_consensus_pubkey : ConsensusPubkey;
  in_p2p : P2pInfo;
  in_history : ValidatorHistory }.

#[global] Instance validator_payload_eta tag : Eta (validator_payload tag) := fun x =>
  mkPayload (registry_index x) (consensus_pubkey x) (p2p x) (stake x) (history x).
#[global] Instance jailed_payload_eta tag : Eta (jailed_payload tag) := fun x =>
  mkJailed (jailed_base x) (jailed_at x).
#[global] Instance inactive_payload_eta : Eta inactive_payload := fun x =>
  mkInactive (in_registry_index x) (in_consensus_pubkey x) (in_p2p x) (in_history x).

Abbreviation WaitingForStake_t := (validator_payload TWaitingForStake).
Abbreviation WaitingForReadiness_t := (validator_payload TWaitingForReadiness).
Abbreviation Joining_t := (validator_payload TJoining).
Abbreviation Active_t := (validator_payload TActive).
Abbreviation JailRetained_t := (jailed_payload TJailRetained).
Abbreviation Jail_t := (jailed_payload TJail).
Abbreviation Exiting_t := (validator_payload TExiting).
Abbreviation Unbonding_t := (validator_payload TUnbonding).
Abbreviation Inactive_t := inactive_payload.

Inductive ValidatorLifecycle : Type :=
  | Absent
  | WaitingForStake (state : WaitingForStake_t)
  | WaitingForReadiness (state : WaitingForReadiness_t)
  | Joining (state : Joining_t)
  | Active (state : Active_t)
  | JailRetained (state : JailRetained_t)
  | Jail (state : Jail_t)
  | Exiting (state : Exiting_t)
  | Unbonding (state : Unbonding_t)
  | Inactive (state : Inactive_t).

Record ValidatorState : Type := mkState {
  address : Address;
  lifecycle : ValidatorLifecycle }.

(** * Transitions (mod.rs) *)

Definition require_canonical_stake (stake : StakeProjection) : result unit :=
  rrequire (negb (bool_decide (unbonding_end_hint stake = Some 0)))
    (Fatal "unbonding-end hint must not use the zero sentinel").

Definition require_at_least_minimum (stake : StakeProjection) (minimum : Z) : result unit :=
  let? _ := require_canonical_stake stake in
  rrequire (negb (bonded stake <? minimum)) (Revert "bonded stake is below minimum").

Definition require_below_minimum (stake : StakeProjection) (minimum : Z) : result unit :=
  let? _ := require_canonical_stake stake in
  rrequire (negb (minimum <=? bonded stake)) (Revert "bonded stake has not fallen below minimum").

Definition require_fully_unstaked (stake : StakeProjection) : result unit :=
  let? _ := require_canonical_stake stake in
  rrequire (bonded stake =? 0)
    (Revert "jailed validator must fully unstake before permanent exit").

Definition reregister (state : Inactive_t) (pubkey : ConsensusPubkey) (joined : Z) :
    result WaitingForStake_t :=
  if pubkey =? 0 then Err (Revert "consensus public key must not be zero")
  else Ok (mkPayload (in_registry_index state) pubkey Unset stake_zero (history_fresh joined)).

(** Carry every field of a payload over to the next state. *)
Definition retag {tag tag'} (x : validator_payload tag) : validator_payload tag' :=
  mkPayload (registry_index x) (consensus_pubkey x) (p2p x) (stake x) (history x).

Definition reach_minimum (state : WaitingForStake_t) (stk : StakeProjection) (minimum : Z) :
    result WaitingForReadiness_t :=
  let? _ := require_at_least_minimum stk minimum in
  Ok (mkPayload (registry_index state) (consensus_pubkey state) (p2p state) stk (history state)).

Definition confirm_ready (state : WaitingForReadiness_t) : Joining_t := retag state.

Definition demote_waiting_for_readiness (state : WaitingForReadiness_t) (stk : StakeProjection)
    (minimum : Z) : result WaitingForStake_t :=
  let? _ := require_below_minimum stk minimum in
  Ok (mkPayload (registry_index state) (consensus_pubkey state) (p2p state) stk (history state)).

Definition demote_joining (state : Joining_t) (stk : StakeProjection) (minimum : Z) :
    result WaitingForStake_t :=
  let? _ := require_below_minimum stk minimum in
  Ok (mkPayload (registry_index state) (consensus_pubkey state) (p2p state) stk (history state)).

Definition activate_at_boundary (state : Joining_t) : Active_t :=
  mkPayload (registry_index state) (consensus_pubkey state) (p2p state) (stake state)
    (with_last_deactivated_at_height (history state) None).

Definition retain_active_at_boundary (state : Active_t) : Active_t := state.

Definition expire_active_tee (state : Active_t) : WaitingForReadiness_t := retag state.

Definition expire_joining_tee (state : Joining_t) : WaitingForReadiness_t := retag state.

Definition begin_exit (state : Active_t) (stk : StakeProjection) (height : Z) : result Exiting_t :=
  let? _ := require_canonical_stake stk in
  if height =? 0 then Err (Fatal "validator deactivation height must be non-zero")
  else Ok (mkPayload (registry_index state) (consensus_pubkey state) (p2p state) stk
             (with_last_deactivated_at_height (history state) (Some height))).

Definition jail (state : Active_t) (height : Z) : result JailRetained_t :=
  if height =? 0 then Err (Fatal "validator jail height must be non-zero")
  else Ok (mkJailed
             (mkPayload (registry_index state) (consensus_pubkey state) (p2p state) (stake state)
                (with_last_deactivated_at_height (history state) (Some height)))
             height).

Definition exclude_jailed_at_boundary (state : JailRetained_t) : Jail_t :=
  let b := jailed_base state in
  mkJailed
    (mkPayload (registry_index b) (consensus_pubkey b) (p2p b) (stake b)
       (with_missed_counters_cleared (history b)))
    (jailed_at state).

Definition full_exit_jailed_retained (state : JailRetained_t) (stk : StakeProjection) :
    result Exiting_t :=
  let b := jailed_base state in
  let? _ := require_fully_unstaked stk in
  Ok (mkPayload (registry_index b) (consensus_pubkey b) (p2p b) stk (history b)).

Definition unjail (state : Jail_t) (current_height cooldown_blocks minimum : Z) :
    result WaitingForReadiness_t :=
  let b := jailed_base state in
  let? _ := require_at_least_minimum (stake b) minimum in
  let? ready_at := ok_or (checked_add u64_max (jailed_at state) cooldown_blocks)
                     (Fatal "unjail cooldown height overflow") in
  if current_height <? ready_at then Err (Revert "unjail cooldown not elapsed")
  else Ok (mkPayload (registry_index b) (consensus_pubkey b) (p2p b) (stake b)
             (with_missed_counters_cleared (history b))).

Definition full_exit_jailed (state : Jail_t) (stk : StakeProjection) : result Unbonding_t :=
  let b := jailed_base state in
  let? _ := require_fully_unstaked stk in
  Ok (mkPayload (registry_index b) (consensus_pubkey b) (p2p b) stk (history b)).

Definition exclude_exiting_at_boundary (state : Exiting_t) : Unbonding_t := retag state.

Definition complete_unbonding (state : Unbonding_t) : result Inactive_t :=
  if negb (bonded (stake state) =? 0)
     || bool_decide (is_Some (unbonding_end_hint (stake state)))
  then Err (Revert "cannot complete unbonding while bonded value or a live-claim hint remains")
  else Ok (mkInactive (registry_index state) (consensus_pubkey state) (p2p state) (history state)).

Definition cleanup (_ : Inactive_t) : ValidatorLifecycle := Absent.

Definition with_stake (l : ValidatorLifecycle) (stk : StakeProjection) :
    result ValidatorLifecycle :=
  let? _ := require_canonical_stake stk in
  match l with
  | WaitingForStake x => Ok (WaitingForStake (x <| stake := stk |>))
  | WaitingForReadiness x => Ok (WaitingForReadiness (x <| stake := stk |>))
  | Joining x => Ok (Joining (x <| stake := stk |>))
  | Active x => Ok (Active (x <| stake := stk |>))
  | JailRetained x => Ok (JailRetained (x <| jailed_base := (jailed_base x) <| stake := stk |> |>))
  | Jail x => Ok (Jail (x <| jailed_base := (jailed_base x) <| stake := stk |> |>))
  | Exiting x => Ok (Exiting (x <| stake := stk |>))
  | Unbonding x => Ok (Unbonding (x <| stake := stk |>))
  | Absent => Err (Revert "cannot stake before validator registration")
  | Inactive _ => Err (Revert "inactive validator must re-register before staking")
  end.

Definition with_p2p (l : ValidatorLifecycle) (info : P2pInfo) : result ValidatorLifecycle :=
  match l with
  | WaitingForStake x => Ok (WaitingForStake (x <| p2p := info |>))
  | WaitingForReadiness x => Ok (WaitingForReadiness (x <| p2p := info |>))
  | Joining x => Ok (Joining (x <| p2p := info |>))
  | Active x => Ok (Active (x <| p2p := info |>))
  | JailRetained x => Ok (JailRetained (x <| jailed_base := (jailed_base x) <| p2p := info |> |>))
  | Jail x => Ok (Jail (x <| jailed_base := (jailed_base x) <| p2p := info |> |>))
  | Exiting x => Ok (Exiting (x <| p2p := info |>))
  | Unbonding x => Ok (Unbonding (x <| p2p := info |>))
  | Inactive x => Ok (Inactive (x <| in_p2p := info |>))
  | Absent => Err (Revert "validator not registered")
  end.

Definition with_history (l : ValidatorLifecycle) (h : ValidatorHistory) :
    result ValidatorLifecycle :=
  let deactivated := last_deactivated_at_height h in
  if bool_decide (deactivated = Some 0)
  then Err (Fatal "deactivation height must not use the zero sentinel")
  else
    match l with
    | WaitingForStake x => Ok (WaitingForStake (x <| history := h |>))
    | WaitingForReadiness x => Ok (WaitingForReadiness (x <| history := h |>))
    | Joining x => Ok (Joining (x <| history := h |>))
    | Active x =>
        if bool_decide (is_Some deactivated)
        then Err (Fatal "active history must not contain a deactivation height")
        else Ok (Active (x <| history := h |>))
    | JailRetained x =>
        if bool_decide (deactivated <> Some (jailed_at x))
        then Err (Fatal "retained jail history must match the jail height")
        else Ok (JailRetained (x <| jailed_base := (jailed_base x) <| history := h |> |>))
    | Jail x =>
        if bool_decide (deactivated <> Some (jailed_at x))
        then Err (Fatal "jail history must match the jail height")
        else Ok (Jail (x <| jailed_base := (jailed_base x) <| history := h |> |>))
    | Exiting x =>
        if bool_decide (deactivated = None)
        then Err (Fatal "exiting history requires a deactivation height")
        else Ok (Exiting (x <| history := h |>))
    | Unbonding x =>
        if bool_decide (deactivated = None)
        then Err (Fatal "unbonding history requires a deactivation height")
        else Ok (Unbonding (x <| history := h |>))
    | Inactive x =>
        if bool_decide (deactivated = None)
        then Err (Fatal "inactive history requires a deactivation height")
        else Ok (Inactive (x <| in_history := h |>))
    | Absent => Err (Revert "validator not registered")
    end.

(** * Accessors and validation (adapter.rs) *)

Definition REGISTERED : Z := 0.
Definition PENDING : Z := 1.
Definition ACTIVE : Z := 2.
Definition EXITING : Z := 3.
Definition UNBONDING : Z := 4.
Definition INACTIVE : Z := 5.
Definition JAILED : Z := 6.

Definition corrupt_state (detail : string) : PrecompileError :=
  Fatal (String.append "corrupt validator state: " detail).

Definition lifecycle_registry_index (l : ValidatorLifecycle) : option Z :=
  match l with
  | Absent => None
  | WaitingForStake x => Some (registry_index x)
  | WaitingForReadiness x => Some (registry_index x)
  | Joining x => Some (registry_index x)
  | Active x => Some (registry_index x)
  | JailRetained x => Some (registry_index (jailed_base x))
  | Jail x => Some (registry_index (jailed_base x))
  | Exiting x => Some (registry_index x)
  | Unbonding x => Some (registry_index x)
  | Inactive x => Some (in_registry_index x)
  end.

Definition lifecycle_consensus_pubkey (l : ValidatorLifecycle) : option ConsensusPubkey :=
  match l with
  | Absent => None
  | WaitingForStake x => Some (consensus_pubkey x)
  | WaitingForReadiness x => Some (consensus_pubkey x)
  | Joining x => Some (consensus_pubkey x)
  | Active x => Some (consensus_pubkey x)
  | JailRetained x => Some (consensus_pubkey (jailed_base x))
  | Jail x => Some (consensus_pubkey (jailed_base x))
  | Exiting x => Some (consensus_pubkey x)
  | Unbonding x => Some (consensus_pubkey x)
  | Inactive x => Some (in_consensus_pubkey x)
  end.

Definition lifecycle_p2p (l : ValidatorLifecycle) : option P2pInfo :=
  match l with
  | Absent => None
  | WaitingForStake x => Some (p2p x)
  | WaitingForReadiness x => Some (p2p x)
  | Joining x => Some (p2p x)
  | Active x => Some (p2p x)
  | JailRetained x => Some (p2p (jailed_base x))
  | Jail x => Some (p2p (jailed_base x))
  | Exiting x => Some (p2p x)
  | Unbonding x => Some (p2p x)
  | Inactive x => Some (in_p2p x)
  end.

Definition lifecycle_history (l : ValidatorLifecycle) : option ValidatorHistory :=
  match l with
  | Absent => None
  | WaitingForStake x => Some (history x)
  | WaitingForReadiness x => Some (history x)
  | Joining x => Some (history x)
  | Active x => Some (history x)
  | JailRetained x => Some (history (jailed_base x))
  | Jail x => Some (history (jailed_base x))
  | Exiting x => Some (history x)
  | Unbonding x => Some (history x)
  | Inactive x => Some (in_history x)
  end.

Definition lifecycle_stake (l : ValidatorLifecycle) : option StakeProjection :=
  match l with
  | WaitingForStake x => Some (stake x)
  | WaitingForReadiness x => Some (stake x)
  | Joining x => Some (stake x)
  | Active x => Some (stake x)
  | JailRetained x => Some (stake (jailed_base x))
  | Jail x => Some (stake (jailed_base x))
  | Exiting x => Some (stake x)
  | Unbonding x => Some (stake x)
  | Absent | Inactive _ => None
  end.

Definition stored_status (l : ValidatorLifecycle) : option Z :=
  match l with
  | Absent => None
  | WaitingForStake _ => Some REGISTERED
  | WaitingForReadiness _ | Joining _ => Some PENDING
  | Active _ => Some ACTIVE
  | Exiting _ => Some EXITING
  | Unbonding _ => Some UNBONDING
  | Inactive _ => Some INACTIVE
  | JailRetained _ | Jail _ => Some JAILED
  end.

Definition has_bls_share (l : ValidatorLifecycle) : bool :=
  match l with Active _ | JailRetained _ | Exiting _ => true | _ => false end.

Definition join_confirmed (l : ValidatorLifecycle) : bool :=
  match l with Joining _ => true | _ => false end.

Definition stored_jailed_at (l : ValidatorLifecycle) : Z :=
  match l with
  | JailRetained x => jailed_at x
  | Jail x => jailed_at x
  | _ => 0
  end.

Definition is_active_status (l : ValidatorLifecycle) : bool :=
  match l with Active _ => true | _ => false end.

Definition is_pending (l : ValidatorLifecycle) : bool :=
  match l with WaitingForReadiness _ | Joining _ => true | _ => false end.

Definition is_registered_status (l : ValidatorLifecycle) : bool :=
  match l with WaitingForStake _ => true | _ => false end.

Definition is_current_consensus_participant (l : ValidatorLifecycle) : bool :=
  match l with Active _ | Exiting _ | JailRetained _ => true | _ => false end.

Definition is_reshare_target (l : ValidatorLifecycle) : bool :=
  match l with Active _ | Joining _ => true | _ => false end.

Definition is_secondary_admission (l : ValidatorLifecycle) : bool :=
  match l with
  | WaitingForStake _ | WaitingForReadiness _ | Joining _ | JailRetained _ | Jail _ => true
  | _ => false
  end.

Definition is_registered (st : ValidatorState) : bool :=
  match lifecycle st with Absent => false | _ => true end.

Definition bonded_stake (st : ValidatorState) : Z :=
  match lifecycle_stake (lifecycle st) with Some s => bonded s | None => 0 end.

Definition state_unbonding_end_hint (st : ValidatorState) : option Z :=
  match lifecycle_stake (lifecycle st) with Some s => unbonding_end_hint s | None => None end.

Definition validate_hint (stk : StakeProjection) : result unit :=
  rrequire (negb (bool_decide (unbonding_end_hint stk = Some 0)))
    (corrupt_state "unbonding-end hint uses a non-canonical zero sentinel").

Definition lifecycle_validate (l : ValidatorLifecycle) : result unit :=
  let? _ := (match lifecycle_consensus_pubkey l with
             | Some key => if key =? 0
                           then Err (corrupt_state "registered validator has a zero key")
                           else Ok tt
             | None => Ok tt
             end) in
  let? _ := (match lifecycle_stake l with
             | Some stk => validate_hint stk
             | None => Ok tt
             end) in
  let? _ := (match lifecycle_history l with
             | Some h => if bool_decide (last_deactivated_at_height h = Some 0)
                         then Err (corrupt_state "deactivation height uses a non-canonical zero sentinel")
                         else Ok tt
             | None => Ok tt
             end) in
  match l with
  | Active x =>
      rrequire (bool_decide (last_deactivated_at_height (history x) = None))
        (corrupt_state "active validator retains a deactivation height")
  | Exiting x =>
      rrequire (bool_decide (is_Some (last_deactivated_at_height (history x))))
        (corrupt_state "exiting validator is missing its deactivation height")
  | Unbonding x =>
      rrequire (bool_decide (is_Some (last_deactivated_at_height (history x))))
        (corrupt_state "unbonding validator is missing its deactivation height")
  | Inactive x =>
      rrequire (bool_decide (is_Some (last_deactivated_at_height (in_history x))))
        (corrupt_state "inactive validator is missing its deactivation height")
  | JailRetained x =>
      rrequire (negb ((jailed_at x =? 0)
                      || bool_decide (last_deactivated_at_height (history (jailed_base x))
                                      <> Some (jailed_at x))))
        (corrupt_state "retained jail height and history deactivation height disagree")
  | Jail x =>
      rrequire (negb ((jailed_at x =? 0)
                      || bool_decide (last_deactivated_at_height (history (jailed_base x))
                                      <> Some (jailed_at x))))
        (corrupt_state "jail height and history deactivation height disagree")
  | _ => Ok tt
  end.

Definition state_validate (st : ValidatorState) : result unit := lifecycle_validate (lifecycle st).

Definition from_lifecycle (addr : Address) (l : ValidatorLifecycle) : result ValidatorState :=
  let st := mkState addr l in
  let? _ := state_validate st in
  Ok st.

Definition with_lifecycle (st : ValidatorState) (l : ValidatorLifecycle) : result ValidatorState :=
  from_lifecycle (address st) l.

(** [state_machine::register]. *)
Definition register (st : ValidatorState) (index : Z) (pubkey : ConsensusPubkey) (joined : Z) :
    result ValidatorState :=
  match lifecycle st with
  | Absent =>
      if pubkey =? 0 then Err (Revert "consensus public key must not be zero")
      else with_lifecycle st
             (WaitingForStake (mkPayload index pubkey Unset stake_zero (history_fresh joined)))
  | _ => Err (Revert "validator is already registered")
  end.

(** * The stored form (adapter.rs) *)

Definition p2p_decode_stored (version : Z) (payload : list Z) : result P2pInfo :=
  if (version =? 0) && bool_decide (payload = []) then Ok Unset
  else if (version =? 0) || bool_decide (payload = [])
  then Err (corrupt_state "P2P version and payload must be both set or both empty")
  else if negb (version =? P2P_ADDRESS_VERSION_V1) then Ok (Opaque version payload)
  else match decode_versioned version payload with
       | inr address => Ok (V1 address)
       | inl _ => Err (corrupt_state "invalid persisted P2P address")
       end.

Definition p2p_encode_stored (p : P2pInfo) : Z * list Z :=
  match p with
  | Unset => (0, [])
  | V1 address => (P2P_ADDRESS_VERSION_V1, encode_v1 address)
  | Opaque version payload => (version, payload)
  end.

Definition validate_stored_status (status : Z) : result unit :=
  rrequire (status <=? JAILED) (Fatal "unknown validator status").

Definition state_absent (addr : Address) : ValidatorState := mkState addr Absent.

Definition decode_stored (addr : Address) (index : Z) (pubkey : ConsensusPubkey)
    (stk : StakeProjection) (status p2p_version : Z) (p2p_payload : list Z)
    (hist : ValidatorHistory) (share confirmed : bool) (jailed : Z) : result ValidatorState :=
  let? _ := validate_hint stk in
  let? info := p2p_decode_stored p2p_version p2p_payload in
  if index =? 0 then
    if negb (pubkey =? 0)
       || negb (bonded stk =? 0)
       || bool_decide (is_Some (unbonding_end_hint stk))
       || negb (status =? REGISTERED)
       || bool_decide (info <> Unset)
       || negb (history_is_zero hist)
       || share
       || confirmed
       || negb (jailed =? 0)
    then Err (corrupt_state "absent validator retains registry, stake, or lifecycle data")
    else Ok (state_absent addr)
  else
    let? _ := validate_stored_status status in
    if pubkey =? 0
    then Err (corrupt_state "registered validator is missing its consensus public key")
    else if negb (status =? JAILED) && negb (jailed =? 0)
    then Err (corrupt_state "jail height is present outside a jailed lifecycle")
    else
      let payload := fun tag => @mkPayload tag index pubkey info stk hist in
      let? l :=
        (if (status =? REGISTERED) && (negb share && negb confirmed) then
           Ok (WaitingForStake (payload _))
         else if (status =? PENDING) && (negb share && negb confirmed) then
           Ok (WaitingForReadiness (payload _))
         else if (status =? PENDING) && (negb share && confirmed) then
           Ok (Joining (payload _))
         else if (status =? ACTIVE) && (share && negb confirmed) then
           Ok (Active (payload _))
         else if (status =? EXITING) && (share && negb confirmed) then
           Ok (Exiting (payload _))
         else if (status =? UNBONDING) && (negb share && negb confirmed) then
           Ok (Unbonding (payload _))
         else if (status =? INACTIVE) && (negb share && negb confirmed) then
           if negb (bonded stk =? 0) || bool_decide (is_Some (unbonding_end_hint stk))
           then Err (corrupt_state "inactive validator retains bonded stake or an unbonding hint")
           else Ok (Inactive (mkInactive index pubkey info hist))
         else if (status =? JAILED) && (share && negb confirmed) then
           Ok (JailRetained (mkJailed (payload _) jailed))
         else if (status =? JAILED) && (negb share && negb confirmed) then
           Ok (Jail (mkJailed (payload _) jailed))
         else Err (corrupt_state "non-canonical coupled fields")) in
      from_lifecycle addr l.

(** The flat storage fields of one validator, in the order of the schema. *)
Record StoredValidator : Type := mkStored {
  sv_pubkey : Z;
  sv_stake : Z;
  sv_status : Z;
  sv_slash_count : Z;
  sv_missed_blocks : Z;
  sv_missed_votes : Z;
  sv_blocks_proposed : Z;
  sv_joined_at_height : Z;
  sv_deactivated_at_height : Z;
  sv_unbonding_end : Z;
  sv_has_bls_share : bool;
  sv_p2p_version : Z;
  sv_p2p_payload : list Z;
  sv_join_confirmed : bool;
  sv_jailed_at_height : Z }.

Definition stored_empty : StoredValidator := mkStored 0 0 0 0 0 0 0 0 0 0 false 0 [] false 0.

(** [(x != 0).then_some(x)]. *)
Definition nonzero (x : Z) : option Z := if x =? 0 then None else Some x.

(** The decoding step of [ValidatorSet::validator_state]. *)
Definition decode_row (addr : Address) (index : Z) (sv : StoredValidator) :
    result ValidatorState :=
  decode_stored addr index (sv_pubkey sv)
    (mkStake (sv_stake sv) (nonzero (sv_unbonding_end sv)))
    (sv_status sv) (sv_p2p_version sv) (sv_p2p_payload sv)
    (mkHistory (sv_joined_at_height sv) (nonzero (sv_deactivated_at_height sv))
       (sv_slash_count sv) (sv_missed_blocks sv) (sv_missed_votes sv) (sv_blocks_proposed sv))
    (sv_has_bls_share sv) (sv_join_confirmed sv) (sv_jailed_at_height sv).

(** The fields that persisting an aggregate leaves in storage. *)
Definition encode_row (l : ValidatorLifecycle) : StoredValidator :=
  let st := mkState 0 l in
  let hist := lifecycle_history l in
  let count (f : ValidatorHistory -> Z) := match hist with Some h => f h | None => 0 end in
  let '(version, payload) := match lifecycle_p2p l with
                             | Some p => p2p_encode_stored p
                             | None => (0, [])
                             end in
  mkStored (default 0 (lifecycle_consensus_pubkey l)) (bonded_stake st)
    (default REGISTERED (stored_status l))
    (count slash_count) (count missed_blocks) (count missed_votes) (count blocks_proposed)
    (count joined_at_height)
    (default 0 (hist ≫= last_deactivated_at_height))
    (default 0 (state_unbonding_end_hint st))
    (has_bls_share l) version payload (join_confirmed l) (stored_jailed_at l).

(** * Well-formed aggregates

    What the Rust types guarantee ([NonZeroU64], a [P2pAddress] that was
    decoded, an opaque entry of an unknown version) next to [validate]. *)
Definition wf_p2p (p : P2pInfo) : Prop :=
  match p with
  | Unset => True
  | V1 a => wf_addr a
  | Opaque version payload => version <> 0 /\ version <> P2P_ADDRESS_VERSION_V1 /\ payload <> []
  end.

Definition wf_lifecycle (l : ValidatorLifecycle) : Prop :=
  match lifecycle_registry_index l, lifecycle_p2p l with
  | Some i, Some p => i <> 0 /\ wf_p2p p
  | _, _ => True
  end.

(** * Lemmas *)

Lemma nonzero_default (o : option Z) : o <> Some 0 -> nonzero (default 0 o) = o.
Proof.
  destruct o as [z|]; simpl; [|done]. intros Hz. unfold nonzero.
  destruct (Z.eqb_spec z 0); [congruence|done].
Qed.
Lemma default_nonzero z : default 0 (nonzero z) = z.
Proof. unfold nonzero. destruct (Z.eqb_spec z 0); simpl; congruence. Qed.
Lemma nonzero_not_zero z : nonzero z <> Some 0.
Proof. unfold nonzero. destruct (Z.eqb_spec z 0); congruence. Qed.

Lemma nonzero_none z : ~ is_Some (nonzero z) -> z = 0.
Proof. unfold nonzero. destruct (Z.eqb_spec z 0); [done|]. intros H. destruct H. by eexists. Qed.

Lemma p2p_decode_encode p :
  wf_p2p p -> p2p_decode_stored (fst (p2p_encode_stored p)) (snd (p2p_encode_stored p)) = Ok p.
Proof.
  destruct p as [|a|version payload]; simpl; [done| |].
  - intros Ha. unfold p2p_decode_stored, decode_versioned. cbn [Z.eqb P2P_ADDRESS_VERSION_V1 Pos.eqb negb andb orb].
    rewrite bool_decide_eq_false_2 by (by destruct a).
    by rewrite decode_of_encode_v1.
  - intros (H0 & H1 & Hp). unfold p2p_decode_stored.
    rewrite (bool_decide_eq_false_2 _ Hp). apply Z.eqb_neq in H0, H1. by rewrite H0, H1.
Qed.

Lemma p2p_encode_decode version payload p :
  Forall byte payload -> p2p_decode_stored version payload = Ok p ->
  p2p_encode_stored p = (version, payload) /\ wf_p2p p.
Proof.
  intros Hb. unfold p2p_decode_stored, decode_versioned. intros H. minv_all; bprop; subst; try done.
  apply encode_of_decode_v1 in Heqs as [<- Ha]; done.
Qed.

Lemma lifecycle_validate_common l :
  lifecycle_validate l = Ok tt ->
  (forall k, lifecycle_consensus_pubkey l = Some k -> k <> 0)
  /\ (forall stk, lifecycle_stake l = Some stk -> unbonding_end_hint stk <> Some 0)
  /\ (forall h, lifecycle_history l = Some h -> last_deactivated_at_height h <> Some 0).
Proof.
  unfold lifecycle_validate, validate_hint. intros H. minv.
  split_and!; intros ? Hx; rewrite Hx in *; minv_all; bprop; done.
Qed.

(** Decoding the encoding of a valid aggregate. *)
Lemma decode_encode_row addr l :
  wf_lifecycle l -> lifecycle_validate l = Ok tt ->
  decode_row addr (default 0 (lifecycle_registry_index l)) (encode_row l) = Ok (mkState addr l).
Proof.
  intros Hwf Hv. pose proof (lifecycle_validate_common _ Hv) as (Hk & Hs & Hh).
  unfold decode_row, encode_row, decode_stored.
  destruct l as [|[? ? pp [] []]|[? ? pp [] []]|[? ? pp [] []]|[? ? pp [] []]
                |[[? ? pp [] []] ?]|[[? ? pp [] []] ?]|[? ? pp [] []]|[? ? pp [] []]|[? ? pp []]];
    [done|..]; destruct Hwf as [Hi Hp]; simpl in *;
    specialize (Hk _ eq_refl); specialize (Hh _ eq_refl); try specialize (Hs _ eq_refl);
    pose proof (p2p_decode_encode pp Hp) as Hpp; destruct (p2p_encode_stored pp); simpl in *.
  all: unfold validate_hint, from_lifecycle, state_validate, bonded_stake, state_unbonding_end_hint;
    simpl;
    repeat rewrite nonzero_default by done; rewrite ?(bool_decide_eq_false_2 _ Hs); simpl;
    rewrite Hpp; simpl; rewrite (proj2 (Z.eqb_neq _ _) Hi), (proj2 (Z.eqb_neq _ _) Hk);
    simpl; rewrite ?andb_false_r, ?Hv; try done.
Qed.

Lemma from_lifecycle_ok addr l st :
  from_lifecycle addr l = Ok st -> st = mkState addr l /\ lifecycle_validate l = Ok tt.
Proof. unfold from_lifecycle, state_validate. intros H. minv. done. Qed.

Lemma history_is_zero_spec h : history_is_zero h = true -> h = history_fresh 0.
Proof. destruct h. unfold history_is_zero. simpl. intros. bprop. by subst. Qed.

(** A row that decodes is the encoding of the aggregate it decodes to. *)
Lemma encode_decode_row addr index sv st :
  Forall byte (sv_p2p_payload sv) -> decode_row addr index sv = Ok st ->
  address st = addr /\ lifecycle_registry_index (lifecycle st) = nonzero index
  /\ encode_row (lifecycle st) = sv
  /\ lifecycle_validate (lifecycle st) = Ok tt /\ wf_lifecycle (lifecycle st).
Proof.
  intros Hb. unfold decode_row, decode_stored. intros H. minv.
  apply p2p_encode_decode in H as [Hp Hwf]; [|done].
  assert (Hn : index <> 0 -> Some index = nonzero index).
  { intros Hi. unfold nonzero. by rewrite (proj2 (Z.eqb_neq _ _) Hi). }
  destruct sv; simpl in *. minv_all.
  { bprop. subst. simpl in *.
    apply dec_stable in H5 as ->. injection Hp as <- <-.
    apply history_is_zero_spec in H4. injection H4 as -> Hd -> -> -> ->.
    apply nonzero_none in H7 as ->. apply (f_equal (default 0)) in Hd.
    rewrite default_nonzero in Hd. simpl in Hd. by subst. }
  all: match goal with Hf : from_lifecycle _ _ = Ok _ |- _ => apply from_lifecycle_ok in Hf as [-> Hv] end;
    bprop; subst; simpl in *; unfold encode_row, bonded_stake, state_unbonding_end_hint; simpl;
    rewrite Hp, ?default_nonzero; split_and!; auto; try done;
    match goal with Hj : _ \/ negb _ = false |- _ => destruct Hj; bprop; try done; subst; try done end.
  match goal with Hz : ~ is_Some (nonzero _) |- _ => by apply nonzero_none in Hz as -> end.
Qed.

(** * The state machine

    One rule per transition function of [mod.rs]; [boundary] marks the ones a
    certified committee boundary applies ([apply_reshared_set]). *)
Inductive lifecycle_step : bool -> ValidatorLifecycle -> ValidatorLifecycle -> Prop :=
  | step_register addr index pubkey joined st :
      index <> 0 -> register (state_absent addr) index pubkey joined = Ok st ->
      lifecycle_step false Absent (lifecycle st)
  | step_reregister x pubkey joined y :
      reregister x pubkey joined = Ok y -> lifecycle_step false (Inactive x) (WaitingForStake y)
  | step_reach_minimum x stk minimum y :
      reach_minimum x stk minimum = Ok y ->
      lifecycle_step false (WaitingForStake x) (WaitingForReadiness y)
  | step_confirm_ready x :
      lifecycle_step false (WaitingForReadiness x) (Joining (confirm_ready x))
  | step_demote_waiting x stk minimum y :
      demote_waiting_for_readiness x stk minimum = Ok y ->
      lifecycle_step false (WaitingForReadiness x) (WaitingForStake y)
  | step_demote_joining x stk minimum y :
      demote_joining x stk minimum = Ok y -> lifecycle_step false (Joining x) (WaitingForStake y)
  | step_begin_exit x stk height y :
      begin_exit x stk height = Ok y -> lifecycle_step false (Active x) (Exiting y)
  | step_jail x height y :
      jail x height = Ok y -> lifecycle_step false (Active x) (JailRetained y)
  | step_full_exit_retained x stk y :
      full_exit_jailed_retained x stk = Ok y -> lifecycle_step false (JailRetained x) (Exiting y)
  | step_unjail x height cooldown minimum y :
      unjail x height cooldown minimum = Ok y -> lifecycle_step false (Jail x) (WaitingForReadiness y)
  | step_full_exit_jailed x stk y :
      full_exit_jailed x stk = Ok y -> lifecycle_step false (Jail x) (Unbonding y)
  | step_complete_unbonding x y :
      complete_unbonding x = Ok y -> lifecycle_step false (Unbonding x) (Inactive y)
  | step_cleanup x : lifecycle_step false (Inactive x) (cleanup x)
  | step_with_stake l stk l' : with_stake l stk = Ok l' -> lifecycle_step false l l'
  | step_with_p2p l info l' : wf_p2p info -> with_p2p l info = Ok l' -> lifecycle_step false l l'
  | step_with_history l h l' : with_history l h = Ok l' -> lifecycle_step false l l'
  | step_activate x : lifecycle_step true (Joining x) (Active (activate_at_boundary x))
  | step_retain x : lifecycle_step true (Active x) (Active (retain_active_at_boundary x))
  | step_expire_active x :
      lifecycle_step true (Active x) (WaitingForReadiness (expire_active_tee x))
  | step_expire_joining x :
      lifecycle_step true (Joining x) (WaitingForReadiness (expire_joining_tee x))
  | step_exclude_jailed x :
      lifecycle_step true (JailRetained x) (Jail (exclude_jailed_at_boundary x))
  | step_exclude_exiting x :
      lifecycle_step true (Exiting x) (Unbonding (exclude_exiting_at_boundary x)).

Inductive lifecycle_reachable : ValidatorLifecycle -> Prop :=
  | reach_absent : lifecycle_reachable Absent
  | reach_step b l l' : lifecycle_reachable l -> lifecycle_step b l l' -> lifecycle_reachable l'.

(** The state-specific part of [validate]. *)
Definition valid (l : ValidatorLifecycle) : Prop :=
  (forall k, lifecycle_consensus_pubkey l = Some k -> k <> 0)
  /\ (forall stk, lifecycle_stake l = Some stk -> unbonding_end_hint stk <> Some 0)
  /\ (forall h, lifecycle_history l = Some h ->
        last_deactivated_at_height h <> Some 0
        /\ match l with
           | Active _ => last_deactivated_at_height h = None
           | Exiting _ | Unbonding _ | Inactive _ => last_deactivated_at_height h <> None
           | JailRetained x => last_deactivated_at_height h = Some (jailed_at x)
           | Jail x => last_deactivated_at_height h = Some (jailed_at x)
           | _ => True
           end).

Lemma valid_validate l : valid l -> lifecycle_validate l = Ok tt.
Proof.
  intros (Hk & Hs & Hh). unfold lifecycle_validate, validate_hint, rrequire.
  destruct l; try done; simpl in *; specialize (Hk _ eq_refl); destruct (Hh _ eq_refl) as [H0 H1];
    try specialize (Hs _ eq_refl); rewrite (proj2 (Z.eqb_neq _ _) Hk), (bool_decide_eq_false_2 _ H0),
    ?(bool_decide_eq_false_2 _ Hs); simpl; try done.
  all: try (rewrite bool_decide_eq_true_2; [done|]; by first [done|apply not_eq_None_Some]).
  all: rewrite H1, bool_decide_eq_false_2 by (intros []; congruence);
    rewrite (proj2 (Z.eqb_neq _ 0)) by congruence; done.
Qed.

Lemma validate_valid l : lifecycle_validate l = Ok tt -> valid l.
Proof.
  intros Hv. pose proof (lifecycle_validate_common _ Hv) as (Hk & Hs & Hh).
  split_and!; [done|done|]. intros h Hl. split; [by apply Hh|].
  unfold lifecycle_validate in Hv. minv.
  destruct l; simpl in *; minv; bprop; try done; simplify_eq; try by apply not_eq_None_Some.
  all: first [done|by apply dec_stable].
Qed.

(** The stake checks of the transitions leave a canonical hint. *)
Lemma require_canonical_stake_ok stk u :
  require_canonical_stake stk = Ok u -> unbonding_end_hint stk <> Some 0.
Proof. unfold require_canonical_stake. intros H. minv. by bprop. Qed.
Lemma require_at_least_minimum_ok stk minimum u :
  require_at_least_minimum stk minimum = Ok u ->
  unbonding_end_hint stk <> Some 0 /\ minimum <= bonded stk.
Proof.
  unfold require_at_least_minimum. intros H. minv. bprop. split; [|lia].
  by eapply require_canonical_stake_ok.
Qed.
Lemma require_below_minimum_ok stk minimum u :
  require_below_minimum stk minimum = Ok u ->
  unbonding_end_hint stk <> Some 0 /\ bonded stk < minimum.
Proof.
  unfold require_below_minimum. intros H. minv. bprop. split; [|lia].
  by eapply require_canonical_stake_ok.
Qed.
Lemma require_fully_unstaked_ok stk u :
  require_fully_unstaked stk = Ok u -> unbonding_end_hint stk <> Some 0 /\ bonded stk = 0.
Proof.
  unfold require_fully_unstaked. intros H. minv. bprop. split; [|lia].
  by eapply require_canonical_stake_ok.
Qed.

Ltac stake_checks :=
  repeat match goal with
  | H : require_canonical_stake _ = Ok _ |- _ => apply require_canonical_stake_ok in H
  | H : require_at_least_minimum _ _ = Ok _ |- _ => apply require_at_least_minimum_ok in H as [??]
  | H : require_below_minimum _ _ = Ok _ |- _ => apply require_below_minimum_ok in H as [??]
  | H : require_fully_unstaked _ = Ok _ |- _ => apply require_fully_unstaked_ok in H as [??]
  end.

(** Open a step into the fields it writes. *)
Ltac step_cases H :=
  destruct H;
  unfold register, with_lifecycle, reregister, reach_minimum, confirm_ready,
    demote_waiting_for_readiness, demote_joining, begin_exit, jail, full_exit_jailed_retained,
    unjail, full_exit_jailed, complete_unbonding, cleanup, with_stake, with_p2p, with_history in *;
  minv; stake_checks;
  repeat match goal with
  | H : from_lifecycle _ _ = Ok _ |- _ => apply from_lifecycle_ok in H as [-> ?]
  | H : match ?l with Absent => _ | _ => _ end = Ok _ |- _ => destruct l; simpl in H
  | H : (if _ then _ else _) = Ok _ |- _ => minv_case; try discriminate H
  end;
  minv; bprop.

Lemma step_valid b l l' :
  lifecycle_step b l l' -> valid l -> wf_lifecycle l -> valid l' /\ wf_lifecycle l'.
Proof.
  intros Hstep (Hk & Hs & Hh) Hwf. unfold valid, wf_lifecycle in *.
  step_cases Hstep; simpl in *; try done;
    try specialize (Hk _ eq_refl); try specialize (Hs _ eq_refl);
    try destruct (Hh _ eq_refl) as [Hh0 Hh1];
    try match goal with Hn : ~ (_ <> _) |- _ => apply dec_stable in Hn end;
    (split; [split_and!; intros ? [= <-]; simpl; try split;
      first [done|congruence|by apply eq_None_not_Some]|first [done|tauto|by destruct Hwf]]).
Qed.

Lemma reachable_valid l : lifecycle_reachable l -> valid l /\ wf_lifecycle l.
Proof.
  induction 1 as [|b l l' _ [Hv Hwf] Hstep]; [done|]. by eapply step_valid.
Qed.

(** Only the cleanup takes the registry index away, and nothing replaces it. *)
Lemma step_keeps_index b l l' : lifecycle_step b l l' -> l <> Absent ->
  (l' = Absent /\ exists x, l = Inactive x)
  \/ lifecycle_registry_index l' = lifecycle_registry_index l.
Proof. intros Hstep Ha. step_cases Hstep; simpl in *; first [by right|by left; eauto|congruence]. Qed.

(** * Properties *)

Definition sample_history : ValidatorHistory := mkHistory 10 (Some 77) 1 2 3 4.
Definition sample_jail : ValidatorLifecycle :=
  Jail (mkJailed (mkPayload 3 12345 (V1 sample_addr) (mkStake 500 (Some 9)) sample_history) 77).

Lemma sample_jail_wf : wf_lifecycle sample_jail.
Proof. split; [done|]. repeat split; vm_compute; reflexivity. Qed.

(** The stored row is exact: flat fields decode to an aggregate precisely
    when it is a valid aggregate of that address and index and the fields are its
    encoding. No coupled field is lost or reinterpreted for any of the ten
    lifecycle states, two field combinations never mean the same state, and a
    combination outside the state machine is refused. *)
Theorem stored_row_exact addr index sv st :
  Forall byte (sv_p2p_payload sv) ->
  decode_row addr index sv = Ok st <->
  address st = addr /\ index = default 0 (lifecycle_registry_index (lifecycle st))
  /\ sv = encode_row (lifecycle st)
  /\ lifecycle_validate (lifecycle st) = Ok tt /\ wf_lifecycle (lifecycle st).
Proof.
  intros Hb. split.
  - intros (? & Hi & ? & ? & ?)%encode_decode_row; [|done]. split_and!; try done.
    rewrite Hi. unfold nonzero. by destruct (Z.eqb_spec index 0) as [->|].
  - destruct st as [a l]. simpl. intros (-> & -> & -> & ? & ?). by apply decode_encode_row.
Qed.

Lemma stored_row_exact_witness :
  decode_row 42 3 (encode_row sample_jail) = Ok (mkState 42 sample_jail).
Proof.
  apply (stored_row_exact 42 3 (encode_row sample_jail) (mkState 42 sample_jail)).
  - vm_compute. repeat constructor; discriminate.
  - split_and!; [done|done|done|reflexivity|exact sample_jail_wf].
Defined.

(** C33. Every lifecycle that transitions can produce from an absent address is
    valid: the key is non-zero, no sentinel is stored, and the jail and
    deactivation heights agree with the state. A registered one has a non-zero
    registry index, and every further transition keeps that index, except the
    cleanup of an inactive one, which makes the address absent again. *)
Theorem reachable_lifecycle_valid l :
  lifecycle_reachable l ->
  lifecycle_validate l = Ok tt
  /\ (l = Absent \/ exists i, lifecycle_registry_index l = Some i /\ i <> 0)
  /\ forall b l', lifecycle_step b l l' -> l <> Absent ->
       (l' = Absent /\ exists x, l = Inactive x)
       \/ lifecycle_registry_index l' = lifecycle_registry_index l.
Proof.
  intros H. destruct (reachable_valid _ H) as [Hv Hwf]. split_and!.
  - by apply valid_validate.
  - unfold wf_lifecycle in Hwf. destruct l; simpl in *; [by left|..]; right; eexists; by split; [|apply Hwf].
  - intros b l' Hs Ha. by apply (step_keeps_index b).
Qed.

Lemma reachable_lifecycle_valid_witness :
  let l := WaitingForStake (mkPayload 1 7 Unset stake_zero (history_fresh 5)) in
  lifecycle_validate l = Ok tt /\ (l = Absent \/ exists i, lifecycle_registry_index l = Some i /\ i <> 0).
Proof.
  assert (Hr : lifecycle_reachable (WaitingForStake (mkPayload 1 7 Unset stake_zero (history_fresh 5)))).
  { apply (reach_step false Absent); [constructor|].
    apply (step_register 42 1 7 5 (mkState 42
      (WaitingForStake (mkPayload 1 7 Unset stake_zero (history_fresh 5))))); [lia|reflexivity]. }
  destruct (reachable_lifecycle_valid _ Hr) as (Hv & Hi & _). exact (conj Hv Hi).
Defined.

(** A committee share appears only when a certified boundary activates a
    readiness-confirmed joiner, disappears only at a boundary, and no step but
    registration, re-registration and cleanup touches the registry identity. *)
Theorem step_share_and_identity b l l' :
  lifecycle_step b l l' ->
  (has_bls_share l = false -> has_bls_share l' = true ->
     b = true /\ exists x, l = Joining x /\ l' = Active (activate_at_boundary x))
  /\ (has_bls_share l = true -> has_bls_share l' = false -> b = true)
  /\ (l <> Absent -> (forall x, l <> Inactive x) ->
     lifecycle_registry_index l' = lifecycle_registry_index l
     /\ lifecycle_consensus_pubkey l' = lifecycle_consensus_pubkey l).
Proof.
  intros Hstep. step_cases Hstep; simpl in *; split_and!; intros; try done; eauto; naive_solver.
Qed.

Lemma step_share_and_identity_witness :
  exists x, Joining (mkPayload 1 7 Unset stake_zero (history_fresh 5)) = Joining x
    /\ Active (activate_at_boundary (mkPayload 1 7 Unset stake_zero (history_fresh 5)))
       = Active (activate_at_boundary x).
Proof.
  exact (proj2 (proj1 (step_share_and_identity true _ _
    (step_activate (mkPayload 1 7 Unset stake_zero (history_fresh 5)))) eq_refl eq_refl)).
Defined.
