(* ===== verification/ValidatorSet.v ===== *)
(** The validator registry ([crates/system/validatorset/src/]): the storage of
    [schema.rs], the facade of [runtime.rs], the operational delegates of
    [delegation.rs], the participation hooks of [hooks.rs] and the mutating
    entries of [precompile.rs].

    The storage record has one field per slot of the schema; the per-validator
    slots that make up a [ValidatorState] are grouped in [ValidatorFields].
    Read-only methods are functions of the storage with a [result]; writes run
    in the storage monad, and a checkpoint guard is [with_checkpoint]. BLS, the
    hashes and the OCOMP registration codec are the parameters of the class
    [Externals]. Metrics, tracing and the slashing journal are not modelled. *)

From S2P Require Import Prelude Bytes P2pAddress Lifecycle.

(** * Parameters *)

(** [OcompKeyRegistrationV1.core], the fields the registry inspects. *)
Record OcompRegistration : Type := mkOcomp {
  oc_chain_id : Z;
  oc_genesis_hash : B256;
  oc_validator_identity_hash : B256;
  oc_public_key_sec1 : Z;
  oc_key_epoch : Z;
  oc_allowed_purpose_bitmap : Z;
  oc_proof : list Z }.

#[global] Instance OcompRegistration_eq_dec : EqDecision OcompRegistration.
Proof. solve_decision. Defined.

Class Externals := {
  (** [keccak256] of a 48-byte consensus key and of an OCOMP key. *)
  consensus_pubkey_hash : ConsensusPubkey -> B256;
  ocomp_key_hash : Z -> B256;
  (** [blst::min_pk]: point decoding, and [Signature::verify] of a message under a
      domain separation tag. *)
  bls_public_key_from_bytes : ConsensusPubkey -> bool;
  bls_signature_from_bytes : list Z -> bool;
  bls_verify : list Z -> list Z -> list Z -> ConsensusPubkey -> bool;
  (** [OcompKeyRegistrationV1] and [validator_identity_hash_v1]. *)
  ocomp_decode_canonical : list Z -> option OcompRegistration;
  ocomp_encode_canonical : OcompRegistration -> option (list Z);
  ocomp_validate_proof_of_possession : OcompRegistration -> bool;
  validator_identity_hash_v1 : Address -> ConsensusPubkey -> option B256 }.

(** What the storage provider tells about the block being executed. *)
Record Env : Type := mkEnv {
  block_number : Z;
  chain_id : Z;
  genesis_hash : B256 }.

(** * Storage (schema.rs) *)

Record ValidatorFields : Type := mkFields {
  val_consensus_pubkey_lo : gmap Address B256;
  val_consensus_pubkey_hi : gmap Address B256;
  val_stake : gmap Address Z;
  val_status : gmap Address Z;
  val_slash_count : gmap Address Z;
  val_missed_blocks : gmap Address Z;
  val_missed_votes : gmap Address Z;
  val_blocks_proposed : gmap Address Z;
  val_joined_at_height : gmap Address Z;
  val_deactivated_at_height : gmap Address Z;
  val_unbonding_end : gmap Address Z;
  val_has_bls_share : gmap Address bool;
  val_p2p_address_version : gmap Address Z;
  val_p2p_address_payload : gmap Address (list Z);
  val_join_confirmed : gmap Address bool;
  val_jailed_at_height : gmap Address Z }.

Inductive VsEvent : Type :=
  | ValidatorRegistered (validator : Address) (index : Z)
  | ValidatorDeactivated (validator : Address) (at_height : Z)
  | ValidatorForcedExit (validator : Address) (at_height : Z)
  | ValidatorJailed (validator : Address) (at_height : Z)
  | ValidatorUnjailed (validator : Address) (at_height : Z)
  | ConsensusSetUpdated (active_count : Z)
  | EpochTransition (number timestamp active_count : Z)
  | OcompRecoveryResolved (validator : Address) (deadline bonded outcome : Z)
  | ValidatorDelegateSet (validator : Address) (role : Z) (delegate : Address)
  | ValidatorDelegateRevoked (validator : Address) (role : Z) (delegate : Address).

Record ValidatorSet : Type := mkVS {
  config_owner : Address;
  config_max_validators : Z;
  config_epoch_length_blocks : Z;
  config_reregistration_cooldown : Z;
  config_unjail_cooldown_blocks : Z;
  fields : ValidatorFields;
  address_to_index : gmap Address Z;
  index_to_address : gmap Z Address;
  consensus_pubkey_hash_to_address : gmap B256 Address;
  validator_count : Z;
  epoch_number : Z;
  epoch_start_timestamp : Z;
  epoch_start_block : Z;
  pending_set_change : bool;
  active_consensus_set_hash : B256;
  finalized_participation_recorded : gmap B256 bool;
  finalized_participation_ring : gmap Z B256;
  finalized_participation_ring_seq : Z;
  delegate_by_validator_role : gmap (Address * Z) Address;
  validator_by_role_delegate : gmap (Z * Address) Address;
  val_ocomp_registration : gmap Address (list Z);
  ocomp_key_hash_to_validator : gmap B256 Address;
  val_radicle_node_id : gmap Address B256;
  radicle_node_id_to_validator : gmap B256 Address;
  val_ocomp_miss_count : gmap Address Z;
  val_ocomp_recovery_deadline : gmap Address Z;
  vs_events : list VsEvent }.

#[global] Instance ValidatorFields_eta : Eta ValidatorFields := fun f =>
  mkFields (val_consensus_pubkey_lo f) (val_consensus_pubkey_hi f) (val_stake f) (val_status f)
    (val_slash_count f) (val_missed_blocks f) (val_missed_votes f) (val_blocks_proposed f)
    (val_joined_at_height f) (val_deactivated_at_height f) (val_unbonding_end f)
    (val_has_bls_share f) (val_p2p_address_version f) (val_p2p_address_payload f)
    (val_join_confirmed f) (val_jailed_at_height f).

#[global] Instance ValidatorSet_eta : Eta ValidatorSet := fun s =>
  mkVS (config_owner s) (config_max_validators s) (config_epoch_length_blocks s)
    (config_reregistration_cooldown s) (config_unjail_cooldown_blocks s) (fields s)
    (address_to_index s) (index_to_address s) (consensus_pubkey_hash_to_address s)
    (validator_count s) (epoch_number s) (epoch_start_timestamp s) (epoch_start_block s)
    (pending_set_change s) (active_consensus_set_hash s) (finalized_participation_recorded s)
    (finalized_participation_ring s) (finalized_participation_ring_seq s)
    (delegate_by_validator_role s) (validator_by_role_delegate s) (val_ocomp_registration s)
    (ocomp_key_hash_to_validator s) (val_radicle_node_id s) (radicle_node_id_to_validator s)
    (val_ocomp_miss_count s) (val_ocomp_recovery_deadline s) (vs_events s).

Definition fields_empty : ValidatorFields :=
  mkFields ∅ ∅ ∅ ∅ ∅ ∅ ∅ ∅ ∅ ∅ ∅ ∅ ∅ ∅ ∅ ∅.

Abbreviation VM := (M ValidatorSet).

(** Mapping writes: of the registry, and of a per-validator field. *)
Notation "'wr' f k v" := (modify (fun s => set f (mwrite k v (f s)) s))
  (at level 10, f at level 9, k at level 9, v at level 9).
Notation "'wrf' f k v" :=
  (modify (fun s => set fields (set f (mwrite k v (f (fields s))) (fields s)) s))
  (at level 10, f at level 9, k at level 9, v at level 9).

Definition vs_emit (e : VsEvent) : VM unit :=
  modify (fun s => s <| vs_events := vs_events s ++ [e] |>).

Definition signal_set_change (pending : bool) : VM unit :=
  modify (fun s => s <| pending_set_change := pending |>).

Definition when (b : bool) (m : VM unit) : VM unit := if b then m else mret tt.

(** * Constants *)

Definition MAX_SELF_REGISTERED_UNSTAKED : Z := 32.
Definition OCOMP_RECOVERY_WINDOW_BLOCKS : Z := 43200.
Definition MAX_TEE_EXPIRED_TARGET_EXCLUSIONS : Z := 256.
Definition FINALIZED_PARTICIPATION_RETAIN : Z := 64.
Definition VALIDATOR_REGISTRATION_VERSION : Z := 2.
Definition VALIDATOR_REGISTRATION_DST : list Z := string_bytes "OUTBE_VALIDATOR_REGISTRATION_V2".
Definition CONSENSUS_VALIDATOR_BOUND : Z := 256.

Section WithExternals.
Context {X : Externals}.

(** * Reading the typed state (runtime.rs) *)

(** A 48-byte key is its first 32 bytes and its last 16 bytes, right-padded. *)
Definition read_consensus_pubkey (f : ValidatorFields) (addr : Address) : ConsensusPubkey :=
  let lo := (val_consensus_pubkey_lo f).[addr] in
  let hi := (val_consensus_pubkey_hi f).[addr] in
  lo * 2 ^ 128 + hi / 2 ^ 128.

Definition write_consensus_pubkey (addr : Address) (pubkey : ConsensusPubkey) : VM unit :=
  let lo := pubkey / 2 ^ 128 in
  let hi := (pubkey mod 2 ^ 128) * 2 ^ 128 in
  wrf val_consensus_pubkey_lo addr lo ;;;
  wrf val_consensus_pubkey_hi addr hi.

(** The flat fields of one validator. *)
Definition row (f : ValidatorFields) (addr : Address) : StoredValidator :=
  mkStored (read_consensus_pubkey f addr) (val_stake f).[addr] (val_status f).[addr]
    (val_slash_count f).[addr] (val_missed_blocks f).[addr] (val_missed_votes f).[addr]
    (val_blocks_proposed f).[addr] (val_joined_at_height f).[addr]
    (val_deactivated_at_height f).[addr] (val_unbonding_end f).[addr]
    (val_has_bls_share f).[addr] (val_p2p_address_version f).[addr]
    (val_p2p_address_payload f).[addr] (val_join_confirmed f).[addr]
    (val_jailed_at_height f).[addr].

Definition validator_state (s : ValidatorSet) (addr : Address) : result ValidatorState :=
  let? state := decode_row addr (address_to_index s).[addr] (row (fields s) addr) in
  match lifecycle_registry_index (lifecycle state) with
  | Some index =>
      if validator_count s <? index
      then Err (Fatal "validator registry index exceeds validator_count")
      else if negb ((index_to_address s).[index] =? addr)
      then Err (Fatal "validator registry forward index mismatch")
      else
        let? pubkey := ok_or (lifecycle_consensus_pubkey (lifecycle state))
                         (Fatal "registered validator is missing consensus pubkey") in
        if negb ((consensus_pubkey_hash_to_address s).[consensus_pubkey_hash pubkey] =? addr)
        then Err (Fatal "validator consensus pubkey reverse mapping mismatch")
        else Ok state
  | None => Ok state
  end.

Definition validator_lifecycle (s : ValidatorSet) (addr : Address) : result ValidatorLifecycle :=
  let? state := validator_state s addr in
  Ok (lifecycle state).

Definition registered_status (l : ValidatorLifecycle) : result Z :=
  ok_or (stored_status l) (Fatal "Unregistered lifecycle has no persisted status").

Record ValidatorRecord : Type := mkRecord {
  vr_address : Address;
  vr_consensus_pubkey : ConsensusPubkey;
  vr_stake : Z;
  vr_status : Z;
  vr_slash_count : Z;
  vr_missed_blocks : Z;
  vr_missed_votes : Z;
  vr_blocks_proposed : Z;
  vr_joined_at_height : Z;
  vr_deactivated_at_height : Z;
  vr_unbonding_end : Z;
  vr_has_bls_share : bool }.

Definition read_validator_record (s : ValidatorSet) (addr : Address) : result ValidatorRecord :=
  let? state := validator_state s addr in
  let l := lifecycle state in
  let? status := ok_or (stored_status l)
                   (Fatal "cannot project absent validator into ValidatorRecord") in
  let? hist := ok_or (lifecycle_history l) (Fatal "registered validator is missing history") in
  let? pubkey := ok_or (lifecycle_consensus_pubkey l)
                   (Fatal "registered validator is missing consensus public key") in
  Ok (mkRecord addr pubkey (bonded_stake state) status (slash_count hist) (missed_blocks hist)
        (missed_votes hist) (blocks_proposed hist) (joined_at_height hist)
        (default 0 (last_deactivated_at_height hist))
        (default 0 (state_unbonding_end_hint state)) (has_bls_share l)).

Definition get_validator (s : ValidatorSet) (addr : Address) : result (option ValidatorRecord) :=
  if (address_to_index s).[addr] =? 0 then Ok None
  else let? record := read_validator_record s addr in Ok (Some record).

Definition validator_address_at (s : ValidatorSet) (index : Z) : result (option Address) :=
  if (index =? 0) || (validator_count s <? index) then Ok None
  else
    let addr := (index_to_address s).[index] in
    if addr =? 0 then Err (Fatal "validator registry index is empty below validator_count")
    else if negb ((address_to_index s).[addr] =? index)
    then Err (Fatal "validator registry reverse index mismatch")
    else Ok (Some addr).

Definition registered_validator_addresses (s : ValidatorSet) : result (list Address) :=
  rmap (seqZ 1 (validator_count s)) (fun index =>
    let? found := validator_address_at s index in
    ok_or found (Fatal "validator registry index is empty below validator_count")).

Definition get_all_validators (s : ValidatorSet) : result (list ValidatorRecord) :=
  let? addresses := registered_validator_addresses s in
  rmap addresses (read_validator_record s).

(** A loop that keeps the addresses whose lifecycle satisfies the predicate. *)
Fixpoint filter_addresses (s : ValidatorSet) (predicate : ValidatorLifecycle -> bool)
    (addresses : list Address) : result (list Address) :=
  match addresses with
  | [] => Ok []
  | addr :: rest =>
      let? l := validator_lifecycle s addr in
      let? kept := filter_addresses s predicate rest in
      Ok (if predicate l then addr :: kept else kept)
  end.

Definition validator_addresses_matching (s : ValidatorSet)
    (predicate : ValidatorLifecycle -> bool) : result (list Address) :=
  let? addresses := registered_validator_addresses s in
  filter_addresses s predicate addresses.

Definition get_validators_matching (s : ValidatorSet)
    (predicate : ValidatorLifecycle -> bool) : result (list ValidatorRecord) :=
  let? addresses := validator_addresses_matching s predicate in
  rmap addresses (read_validator_record s).

Definition get_active_validators (s : ValidatorSet) := get_validators_matching s is_active_status.
Definition get_pending_validators (s : ValidatorSet) := get_validators_matching s is_pending.
Definition get_admitted_non_consensus_validators (s : ValidatorSet) :=
  get_validators_matching s is_secondary_admission.
Definition get_active_consensus_set (s : ValidatorSet) :=
  get_validators_matching s is_current_consensus_participant.

Definition ocomp_registration (s : ValidatorSet) (addr : Address) :
    result (option OcompRegistration) :=
  let bytes := (val_ocomp_registration s).[addr] in
  if bool_decide (bytes = []) then Ok None
  else match ocomp_decode_canonical bytes with
       | Some registration => Ok (Some registration)
       | None => Err (Fatal "stored OCOMP registration is invalid")
       end.

Fixpoint reshare_targets (s : ValidatorSet) (l : list ValidatorRecord) :
    result (list ValidatorRecord) :=
  match l with
  | [] => Ok []
  | v :: rest =>
      let? admitted :=
        (if vr_status v =? ACTIVE then Ok true
         else if vr_status v =? PENDING then
           let? registration := ocomp_registration s (vr_address v) in
           Ok (bool_decide (is_Some registration))
         else Ok false) in
      let? kept := reshare_targets s rest in
      Ok (if admitted : bool then v :: kept else kept)
  end.

Definition get_reshare_target_set (s : ValidatorSet) : result (list ValidatorRecord) :=
  let? all := get_validators_matching s is_reshare_target in
  reshare_targets s all.

Definition count_matching (s : ValidatorSet) (predicate : ValidatorLifecycle -> bool)
    (overflow : string) : result Z :=
  let? addresses := validator_addresses_matching s predicate in
  let n := Z.of_nat (length addresses) in
  if n <=? u32_max then Ok n else Err (Revert overflow).

Definition active_validator_count (s : ValidatorSet) : result Z :=
  count_matching s is_active_status "active validator count exceeds u32".
Definition registered_count (s : ValidatorSet) : result Z :=
  count_matching s is_registered_status "registered validator count exceeds u32".
Definition active_consensus_count (s : ValidatorSet) : result Z :=
  count_matching s is_current_consensus_participant "active consensus count exceeds u32".

Definition is_consensus_participant (s : ValidatorSet) (addr : Address) : result bool :=
  let? l := validator_lifecycle s addr in
  Ok (is_current_consensus_participant l).

Definition is_validator (s : ValidatorSet) (addr : Address) : result bool :=
  let? state := validator_state s addr in
  Ok (is_registered state).

Definition get_p2p_address (s : ValidatorSet) (addr : Address) :
    result (option (Z * list Z)) :=
  let? state := validator_state s addr in
  match lifecycle_p2p (lifecycle state) with
  | None => Err (Revert "validator not registered")
  | Some Unset => Ok None
  | Some info => Ok (Some (p2p_encode_stored info))
  end.

(** * Persisting the typed state (runtime.rs) *)

(** A projection of the history, zero for an absent validator. *)
Definition history_or_zero (st : ValidatorState) (f : ValidatorHistory -> Z) : Z :=
  match lifecycle_history (lifecycle st) with Some h => f h | None => 0 end.

Definition stored_p2p (st : ValidatorState) : Z * list Z :=
  match lifecycle_p2p (lifecycle st) with Some p => p2p_encode_stored p | None => (0, []) end.

Definition state_status (st : ValidatorState) : option Z := stored_status (lifecycle st).

Definition persist_validator_state_delta_inner (before after : ValidatorState)
    (allow_registry_identity_change : bool) : VM unit :=
  lift (state_validate before) ;;;
  lift (state_validate after) ;;;
  (if bool_decide (address before <> address after)
      || (negb allow_registry_identity_change
          && (bool_decide (lifecycle_registry_index (lifecycle before)
                           <> lifecycle_registry_index (lifecycle after))
              || bool_decide (lifecycle_consensus_pubkey (lifecycle before)
                              <> lifecycle_consensus_pubkey (lifecycle after))))
   then mfail (Fatal "validator lifecycle transition attempted to change registry identity")
   else mret tt) ;;;
  let addr := address after in
  when allow_registry_identity_change (
    let! pubkey := lift (ok_or (lifecycle_consensus_pubkey (lifecycle after))
                           (Fatal "registered validator is missing consensus pubkey")) in
    let! _ := lift (ok_or (lifecycle_registry_index (lifecycle after))
                      (Fatal "registered validator is missing registry index")) in
    when (bool_decide (lifecycle_consensus_pubkey (lifecycle before) <> Some pubkey))
      (write_consensus_pubkey addr pubkey)) ;;;
  when (negb (bonded_stake before =? bonded_stake after))
    (wrf val_stake addr (bonded_stake after)) ;;;
  when (bool_decide (state_status before <> state_status after)) (
    let! status := lift (ok_or (state_status after)
                           (Fatal "generic validator persistence cannot write an absent lifecycle")) in
    wrf val_status addr status) ;;;
  when (negb (history_or_zero before slash_count =? history_or_zero after slash_count))
    (wrf val_slash_count addr (history_or_zero after slash_count)) ;;;
  when (negb (history_or_zero before missed_blocks =? history_or_zero after missed_blocks))
    (wrf val_missed_blocks addr (history_or_zero after missed_blocks)) ;;;
  when (negb (history_or_zero before missed_votes =? history_or_zero after missed_votes))
    (wrf val_missed_votes addr (history_or_zero after missed_votes)) ;;;
  when (negb (history_or_zero before blocks_proposed =? history_or_zero after blocks_proposed))
    (wrf val_blocks_proposed addr (history_or_zero after blocks_proposed)) ;;;
  when (negb (history_or_zero before joined_at_height =? history_or_zero after joined_at_height))
    (wrf val_joined_at_height addr (history_or_zero after joined_at_height)) ;;;
  let deactivated st := default 0 (lifecycle_history (lifecycle st) ≫= last_deactivated_at_height) in
  when (negb (deactivated before =? deactivated after))
    (wrf val_deactivated_at_height addr (deactivated after)) ;;;
  let unbonding_end st := default 0 (state_unbonding_end_hint st) in
  when (negb (unbonding_end before =? unbonding_end after))
    (wrf val_unbonding_end addr (unbonding_end after)) ;;;
  let share st := has_bls_share (lifecycle st) in
  when (negb (eqb (share before) (share after))) (wrf val_has_bls_share addr (share after)) ;;;
  let confirmed st := join_confirmed (lifecycle st) in
  when (negb (eqb (confirmed before) (confirmed after)))
    (wrf val_join_confirmed addr (confirmed after)) ;;;
  let jailed st := stored_jailed_at (lifecycle st) in
  when (negb (jailed before =? jailed after)) (wrf val_jailed_at_height addr (jailed after)) ;;;
  when (bool_decide (stored_p2p before <> stored_p2p after)) (
    wrf val_p2p_address_version addr (stored_p2p after).1 ;;;
    wrf val_p2p_address_payload addr (stored_p2p after).2).

Definition persist_validator_state_delta (before after : ValidatorState) : VM unit :=
  persist_validator_state_delta_inner before after false.

Definition persist_registry_state_delta (before after : ValidatorState) : VM unit :=
  persist_validator_state_delta_inner before after true.

(** * Registration (runtime.rs) *)

(** [outbe_primitives::validators::validator_registration_message]. *)
Definition validator_registration_message (chain : Z) (validator : Address) (node_id : B256) :
    list Z :=
  VALIDATOR_REGISTRATION_VERSION :: be_bytes 8 chain ++ be_bytes 20 validator ++ be_bytes 32 node_id.

Definition verify_bls_registration_sig (pubkey : ConsensusPubkey) (sig : list Z) (chain : Z)
    (validator : Address) (node_id : B256) : result unit :=
  let? _ := rrequire (bls_public_key_from_bytes pubkey) (Revert "invalid BLS public key") in
  let? _ := rrequire (bls_signature_from_bytes sig) (Revert "invalid BLS signature") in
  rrequire (bls_verify sig (validator_registration_message chain validator node_id)
              VALIDATOR_REGISTRATION_DST pubkey)
    (Revert "invalid BLS registration signature").

(** The protocol roles of an operational key (delegation.rs). *)
Inductive ValidatorDelegateRole : Type := Oracle | Ocomp.
Definition role_id (role : ValidatorDelegateRole) : Z :=
  match role with Oracle => 1 | Ocomp => 2 end.
Definition ALL_ROLES : list ValidatorDelegateRole := [Oracle; Ocomp].
Definition role_try_from (value : Z) : result ValidatorDelegateRole :=
  if value =? 1 then Ok Oracle
  else if value =? 2 then Ok Ocomp
  else Err (Revert "unsupported validator delegate role").

Definition ensure_not_operational_delegate (s : ValidatorSet) (addr : Address) : result unit :=
  let? _ := rmap ALL_ROLES (fun role =>
    rrequire ((validator_by_role_delegate s).[(role_id role, addr)] =? 0)
      (Revert "validator address is already assigned as an operational delegate")) in
  Ok tt.

(** The part of a registration that only reads: authority, delegate and NodeId
    checks, proof of possession, the self-registration cap and key ownership. *)
Definition register_checks (env : Env) (s : ValidatorSet) (caller validator_addr : Address)
    (pubkey : ConsensusPubkey) (node_id : B256) (sig : option (list Z)) (allow_without_pop : bool) :
    result unit :=
  let? _ := rrequire (negb (pubkey =? 0)) (Revert "consensus public key must not be zero") in
  let? _ := rrequire ((caller =? config_owner s) || (caller =? validator_addr))
              (Revert "unauthorized: caller must be owner or validator itself") in
  let? _ := ensure_not_operational_delegate s validator_addr in
  let? _ := rrequire (negb (node_id =? 0)) (Revert "Radicle NodeId must not be zero") in
  let radicle_owner := (radicle_node_id_to_validator s).[node_id] in
  let? _ := rrequire ((radicle_owner =? 0) || (radicle_owner =? validator_addr))
              (Revert "Radicle NodeId already registered by another validator") in
  let? _ := (match sig with
             | Some bytes =>
                 verify_bls_registration_sig pubkey bytes (chain_id env) validator_addr node_id
             | None =>
                 rrequire allow_without_pop
                   (Revert "validator registration requires BLS proof-of-possession signature")
             end) in
  let? _ := (if caller =? validator_addr then
               let? n := registered_count s in
               rrequire (n <? MAX_SELF_REGISTERED_UNSTAKED)
                 (Revert "self-registration limit reached: too many unstaked REGISTERED validators (owner may register directly)")
             else Ok tt) in
  let existing_owner := (consensus_pubkey_hash_to_address s).[consensus_pubkey_hash pubkey] in
  rrequire ((existing_owner =? 0) || (existing_owner =? validator_addr))
    (Revert "BLS consensus pubkey already registered by another validator").

(** The re-registration of an inactive validator at its existing index. *)
Definition reregister_existing (env : Env) (existing : ValidatorState) (existing_index : Z)
    (validator_addr : Address) (pubkey : ConsensusPubkey) (node_id : B256) : VM unit :=
  let! inactive := lift (match lifecycle existing with
                         | Inactive x => Ok x
                         | _ => Err (Revert "validator already registered")
                         end) in
  let! stored_node_id := gets (fun s => (val_radicle_node_id s).[validator_addr]) in
  let! radicle_owner := gets (fun s => (radicle_node_id_to_validator s).[node_id]) in
  require (stored_node_id =? node_id)
    (Revert "inactive validator must keep its Radicle NodeId until final cleanup") ;;;
  require (radicle_owner =? validator_addr)
    (Fatal "registered validator has inconsistent Radicle NodeId reverse binding") ;;;
  let! cooldown := gets config_reregistration_cooldown in
  (if 0 <? cooldown then
     let! hist := lift (ok_or (lifecycle_history (lifecycle existing))
                          (Fatal "registered validator is missing history")) in
     match last_deactivated_at_height hist with
     | Some height =>
         let! ready_at := lift (ok_or (checked_add u64_max height cooldown)
                                  (Fatal "re-registration cooldown height overflow")) in
         require (negb (block_number env <? ready_at)) (Revert "re-registration cooldown not expired")
     | None => mret tt
     end
   else mret tt) ;;;
  let! old_pubkey := lift (ok_or (lifecycle_consensus_pubkey (lifecycle existing))
                             (Fatal "registered validator is missing consensus pubkey")) in
  let! waiting := lift (reregister inactive pubkey (block_number env)) in
  let! after := lift (with_lifecycle existing (WaitingForStake waiting)) in
  let! deadline := gets (fun s => (val_ocomp_recovery_deadline s).[validator_addr]) in
  require (deadline =? 0) (Revert "cannot re-register while an OCOMP recovery window is open") ;;;
  with_checkpoint (
    wr consensus_pubkey_hash_to_address (consensus_pubkey_hash old_pubkey) 0 ;;;
    wr consensus_pubkey_hash_to_address (consensus_pubkey_hash pubkey) validator_addr ;;;
    persist_registry_state_delta existing after ;;;
    signal_set_change true ;;;
    vs_emit (ValidatorRegistered validator_addr existing_index)).

(** The first registration of an absent address. *)
Definition register_first (env : Env) (existing : ValidatorState) (validator_addr : Address)
    (pubkey : ConsensusPubkey) (node_id : B256) : VM unit :=
  let! count := gets validator_count in
  let! max := gets config_max_validators in
  require (negb ((0 <? max) && (max <=? count))) (Revert "max validators reached") ;;;
  let! new_index := lift (ok_or (checked_add u32_max count 1) (Fatal "validator count overflow")) in
  require (negb (new_index =? 0)) (Fatal "validator registry index must be non-zero") ;;;
  let! registered := lift (register existing new_index pubkey (block_number env)) in
  with_checkpoint (
    let! radicle_owner := gets (fun s => (radicle_node_id_to_validator s).[node_id]) in
    require (negb (radicle_owner =? validator_addr))
      (Fatal "unregistered validator retains a Radicle NodeId reservation") ;;;
    wr address_to_index validator_addr new_index ;;;
    wr index_to_address new_index validator_addr ;;;
    persist_registry_state_delta existing registered ;;;
    wr consensus_pubkey_hash_to_address (consensus_pubkey_hash pubkey) validator_addr ;;;
    wr val_radicle_node_id validator_addr node_id ;;;
    wr radicle_node_id_to_validator node_id validator_addr ;;;
    modify (fun s => s <| validator_count := new_index |>) ;;;
    signal_set_change true ;;;
    vs_emit (ValidatorRegistered validator_addr new_index)).

Definition register_validator_inner (env : Env) (caller validator_addr : Address)
    (pubkey : ConsensusPubkey) (node_id : B256) (sig : option (list Z)) (allow_without_pop : bool) :
    VM unit :=
  reads (fun s => register_checks env s caller validator_addr pubkey node_id sig allow_without_pop) ;;;
  let! existing := reads (fun s => validator_state s validator_addr) in
  match lifecycle_registry_index (lifecycle existing) with
  | Some index => reregister_existing env existing index validator_addr pubkey node_id
  | None => register_first env existing validator_addr pubkey node_id
  end.

Definition register_validator_with_sig (env : Env) (caller validator_addr : Address)
    (pubkey : ConsensusPubkey) (node_id : B256) (sig : option (list Z)) : VM unit :=
  register_validator_inner env caller validator_addr pubkey node_id sig false.

Definition set_p2p_address (caller validator_addr : Address) (version : Z) (encoded : list Z) :
    VM unit :=
  let! owner := gets config_owner in
  require ((caller =? owner) || (caller =? validator_addr))
    (Revert "unauthorized: caller must be owner or validator itself") ;;;
  let! index := gets (fun s => (address_to_index s).[validator_addr]) in
  require (negb (index =? 0)) (Revert "validator not registered") ;;;
  require (version =? P2P_ADDRESS_VERSION_V1) (Revert "unsupported p2p address version") ;;;
  require (Z.of_nat (length encoded) <=? MAX_P2P_ADDRESS_ENCODED_LEN)
    (Revert "p2p address payload exceeds max length") ;;;
  let! decoded := lift (match decode_versioned version encoded with
                        | inr a => Ok a
                        | inl _ => Err (Revert "invalid p2p address")
                        end) in
  let! before := reads (fun s => validator_state s validator_addr) in
  let! l := lift (with_p2p (lifecycle before) (V1 decoded)) in
  let! after := lift (with_lifecycle before l) in
  with_checkpoint (persist_validator_state_delta before after).

(** * Stake mirror (runtime.rs) *)

(** Replace the lifecycle of [before] and commit it, with an optional set-change
    signal and the event of the operation, under one checkpoint. *)
Definition commit_transition (before after : ValidatorState) (set_change : bool)
    (events : list VsEvent) : VM unit :=
  with_checkpoint (
    persist_validator_state_delta before after ;;;
    when set_change (signal_set_change true) ;;;
    mfor events vs_emit).

Definition record_stake_increase (addr : Address) (new_bonded minimum : Z) : VM unit :=
  let! before := reads (fun s => validator_state s addr) in
  let stk := mkStake new_bonded (state_unbonding_end_hint before) in
  let! next := lift
    (match lifecycle before with
     | Absent => Err (Revert "cannot stake before validator registration")
     | Inactive _ => Err (Revert "inactive validator must re-register before staking")
     | Exiting _ | Unbonding _ =>
         Err (Revert "cannot increase stake while validator is exiting or unbonding")
     | WaitingForStake waiting =>
         if minimum <=? new_bonded then
           let? x := reach_minimum waiting stk minimum in Ok (WaitingForReadiness x, true)
         else let? l := with_stake (WaitingForStake waiting) stk in Ok (l, false)
     | l => let? l' := with_stake l stk in Ok (l', false)
     end) in
  let '(l, became_pending) := next in
  let! after := lift (with_lifecycle before l) in
  commit_transition before after became_pending [].

Definition record_unstake (env : Env) (addr : Address) (new_bonded minimum hint : Z) : VM unit :=
  let! before := reads (fun s => validator_state s addr) in
  let stk := mkStake new_bonded (nonzero hint) in
  let height := block_number env in
  let keep l := let? l' := with_stake l stk in Ok (l', false) in
  let! next := lift
    (match lifecycle before with
     | Absent => Err (Revert "validator not registered")
     | Inactive _ => Err (Revert "validator is inactive")
     | WaitingForReadiness waiting =>
         if new_bonded <? minimum then
           let? x := demote_waiting_for_readiness waiting stk minimum in Ok (WaitingForStake x, true)
         else keep (WaitingForReadiness waiting)
     | Joining joining =>
         if new_bonded <? minimum then
           let? x := demote_joining joining stk minimum in Ok (WaitingForStake x, true)
         else keep (Joining joining)
     | Active active =>
         if new_bonded <? minimum then
           let? x := begin_exit active stk height in Ok (Exiting x, true)
         else keep (Active active)
     | JailRetained jailed =>
         if new_bonded =? 0 then
           let? x := full_exit_jailed_retained jailed stk in Ok (Exiting x, true)
         else keep (JailRetained jailed)
     | Jail jailed =>
         if new_bonded =? 0 then
           let? x := full_exit_jailed jailed stk in Ok (Unbonding x, false)
         else keep (Jail jailed)
     | l => keep l
     end) in
  let '(l, set_change) := next in
  let! after := lift (with_lifecycle before l) in
  commit_transition before after set_change [].

Definition record_stake_slash (env : Env) (addr : Address) (new_bonded minimum : Z)
    (unbonding_hint : option Z) : VM unit :=
  let! before := reads (fun s => validator_state s addr) in
  let hint := match unbonding_hint with Some h => Some h | None => state_unbonding_end_hint before end in
  let stk := mkStake new_bonded hint in
  let below_minimum := negb (minimum =? 0) && (new_bonded <? minimum) in
  let height := block_number env in
  let keep l := let? l' := with_stake l stk in Ok (l', false) in
  let! next := lift
    (match lifecycle before with
     | Absent => Err (Revert "validator not registered")
     | Inactive _ => Err (Revert "validator is inactive")
     | WaitingForReadiness waiting =>
         if below_minimum then
           let? x := demote_waiting_for_readiness waiting stk minimum in Ok (WaitingForStake x, true)
         else keep (WaitingForReadiness waiting)
     | Joining joining =>
         if below_minimum then
           let? x := demote_joining joining stk minimum in Ok (WaitingForStake x, true)
         else keep (Joining joining)
     | Active active =>
         if below_minimum then
           let? x := begin_exit active stk height in Ok (Exiting x, true)
         else keep (Active active)
     | l => keep l
     end) in
  let '(l, set_change) := next in
  let! after := lift (with_lifecycle before l) in
  commit_transition before after set_change [].

(** * OCOMP accountability (runtime.rs) *)

Inductive OcompMissRecord : Type :=
  | Opened (miss_count recovery_deadline : Z)
  | Repeated (miss_count recovery_deadline : Z).

Inductive OcompRecoveryOutcome : Type := Restored | JailedOutcome | NonActive.
Definition outcome_id (o : OcompRecoveryOutcome) : Z :=
  match o with Restored => 1 | JailedOutcome => 2 | NonActive => 3 end.

Definition record_ocomp_miss (env : Env) (addr : Address) : VM OcompMissRecord :=
  let! state := reads (fun s => validator_state s addr) in
  require (is_active_status (lifecycle state)) (Revert "OCOMP miss requires an active validator") ;;;
  let! misses := gets (fun s => (val_ocomp_miss_count s).[addr]) in
  let! miss_count := lift (ok_or (checked_add u64_max misses 1) (Fatal "OCOMP miss count overflow")) in
  let! existing_deadline := gets (fun s => (val_ocomp_recovery_deadline s).[addr]) in
  with_checkpoint (
    wr val_ocomp_miss_count addr miss_count ;;;
    if existing_deadline =? 0 then
      let! recovery_deadline :=
        lift (ok_or (checked_add u64_max (block_number env) OCOMP_RECOVERY_WINDOW_BLOCKS)
                (Fatal "OCOMP recovery deadline overflow")) in
      wr val_ocomp_recovery_deadline addr recovery_deadline ;;;
      mret (Opened miss_count recovery_deadline)
    else mret (Repeated miss_count existing_deadline)).

Definition record_ocomp_bonded_slash (addr : Address) (new_bonded : Z) : VM unit :=
  let! deadline := gets (fun s => (val_ocomp_recovery_deadline s).[addr]) in
  require (negb (deadline =? 0)) (Revert "OCOMP bonded slash requires an open recovery window") ;;;
  let! before := reads (fun s => validator_state s addr) in
  require (is_active_status (lifecycle before))
    (Revert "OCOMP bonded slash requires an active validator") ;;;
  let stk := mkStake new_bonded (state_unbonding_end_hint before) in
  let! l := lift (with_stake (lifecycle before) stk) in
  let! after := lift (with_lifecycle before l) in
  with_checkpoint (persist_validator_state_delta before after).

Definition ocomp_recovery_window (s : ValidatorSet) (addr : Address) : option (Z * Z) :=
  let deadline := (val_ocomp_recovery_deadline s).[addr] in
  if deadline =? 0 then None else Some ((val_ocomp_miss_count s).[addr], deadline).

Definition close_ocomp_recovery_window (addr : Address) : VM unit :=
  wr val_ocomp_recovery_deadline addr 0.

Definition resolve_ocomp_recovery_window (addr : Address) (recovery_deadline bonded_value : Z)
    (outcome : OcompRecoveryOutcome) : VM unit :=
  let! deadline := gets (fun s => (val_ocomp_recovery_deadline s).[addr]) in
  require (deadline =? recovery_deadline) (Fatal "OCOMP recovery resolution deadline mismatch") ;;;
  with_checkpoint (
    close_ocomp_recovery_window addr ;;;
    vs_emit (OcompRecoveryResolved addr recovery_deadline bonded_value (outcome_id outcome))).

(** * Exit, jail and return (runtime.rs) *)

Definition vs_complete_unbonding (addr : Address) : VM unit :=
  let! before := reads (fun s => validator_state s addr) in
  match lifecycle before with
  | Unbonding unbonding =>
      let! cleared := lift (with_stake (Unbonding unbonding) (mkStake (bonded_stake before) None)) in
      match cleared with
      | Unbonding unbonding' =>
          let! inactive := lift (complete_unbonding unbonding') in
          let! after := lift (with_lifecycle before (Inactive inactive)) in
          with_checkpoint (persist_validator_state_delta before after)
      | _ => mpanic
      end
  | _ => mret tt
  end.

Definition confirm_validator_ready (env : Env) (caller : Address) (encoded : list Z) : VM unit :=
  let! before := reads (fun s => validator_state s caller) in
  let! l := lift
    (match lifecycle before with
     | WaitingForReadiness waiting => Ok (Joining (confirm_ready waiting))
     | Joining joining => Ok (Joining joining)
     | Absent => Err (Revert "validator not registered")
     | l => let? _ := registered_status l in
            Err (Revert "confirmValidatorReady requires PENDING status")
     end) in
  let! registration := lift (ok_or (ocomp_decode_canonical encoded)
                               (Revert "invalid OCOMP registration")) in
  require (oc_chain_id registration =? chain_id env)
    (Revert "OCOMP registration chain id mismatch") ;;;
  require (oc_genesis_hash registration =? genesis_hash env)
    (Revert "OCOMP registration genesis hash mismatch") ;;;
  let! pubkey := lift (ok_or (lifecycle_consensus_pubkey (lifecycle before))
                         (Fatal "registered validator is missing consensus pubkey")) in
  let! expected := lift (ok_or (validator_identity_hash_v1 caller pubkey)
                           (Fatal "validator identity hash")) in
  require (oc_validator_identity_hash registration =? expected)
    (Revert "OCOMP registration validator identity mismatch") ;;;
  let! existing_registration := reads (fun s => ocomp_registration s caller) in
  let key_hash := ocomp_key_hash (oc_public_key_sec1 registration) in
  (match existing_registration with
   | Some existing =>
       let pinned_key_hash := ocomp_key_hash (oc_public_key_sec1 existing) in
       require (pinned_key_hash =? key_hash)
         (Revert "OCOMP public key is immutable in key_epoch 1") ;;;
       let! pinned_owner := gets (fun s => (ocomp_key_hash_to_validator s).[pinned_key_hash]) in
       require (pinned_owner =? caller) (Fatal "OCOMP key reservation is inconsistent")
   | None => mret tt
   end) ;;;
  let! existing_owner := gets (fun s => (ocomp_key_hash_to_validator s).[key_hash]) in
  require ((existing_owner =? 0) || (existing_owner =? caller))
    (Revert "OCOMP public key already registered by another validator") ;;;
  with_checkpoint (
    wr val_ocomp_registration caller encoded ;;;
    wr ocomp_key_hash_to_validator key_hash caller ;;;
    let! after := lift (with_lifecycle before l) in
    persist_validator_state_delta before after ;;;
    signal_set_change true).

Definition deactivate_validator (env : Env) (caller addr : Address) : VM unit :=
  let! owner := gets config_owner in
  require ((caller =? owner) || (caller =? addr))
    (Revert "unauthorized: caller must be owner or validator itself") ;;;
  let! before := reads (fun s => validator_state s addr) in
  let! active := lift (match lifecycle before with
                       | Active active => Ok active
                       | Absent => Err (Revert "validator not registered")
                       | _ => Err (Revert "can only deactivate an active validator")
                       end) in
  let height := block_number env in
  let! stk := lift (ok_or (lifecycle_stake (lifecycle before))
                      (Fatal "active validator is missing stake projection")) in
  let! exiting := lift (begin_exit active stk height) in
  let! after := lift (with_lifecycle before (Exiting exiting)) in
  commit_transition before after true [ValidatorDeactivated addr height].

(** [punish_validator]: [false] forces the exit, [true] jails. *)
Definition punish_validator (env : Env) (addr : Address) (jailing : bool) : VM bool :=
  let! before := reads (fun s => validator_state s addr) in
  let l := lifecycle before in
  require (is_registered before) (Revert "validator not registered") ;;;
  let! current_status := lift (registered_status l) in
  let height := block_number env in
  let! hist := lift (ok_or (lifecycle_history l) (Fatal "registered validator is missing history")) in
  let refuse : VM bool := mfail (Revert "cannot punish validator with this status") in
  match l with
  | Active active =>
      let! stk := lift (ok_or (lifecycle_stake l)
                          (Fatal "active validator is missing stake projection")) in
      let! next := lift (if jailing then let? x := jail active height in Ok (JailRetained x)
                         else let? x := begin_exit active stk height in Ok (Exiting x)) in
      let! slashes := lift (ok_or (checked_add u64_max (slash_count hist) 1)
                              (Fatal "slash count overflow")) in
      let! next' := lift (with_history next
                            (mkHistory (joined_at_height hist) (Some height) slashes
                               (missed_blocks hist) (missed_votes hist) (blocks_proposed hist))) in
      let! after := lift (with_lifecycle before next') in
      commit_transition before after true
        (if jailing then [ValidatorJailed addr height]
         else [ValidatorDeactivated addr height; ValidatorForcedExit addr height]) ;;;
      mret true
  | JailRetained _ | Jail _ => if jailing then mret false else refuse
  | Exiting _ | Unbonding _ | Inactive _ => mret false
  | _ => refuse
  end.

Definition force_exit_validator (env : Env) (addr : Address) : VM unit :=
  punish_validator env addr false ;;; mret tt.

Definition jail_validator (env : Env) (addr : Address) : VM unit :=
  punish_validator env addr true ;;; mret tt.

Definition jail_validator_for_tee_expiry (env : Env) (addr : Address) : VM bool :=
  let! before := reads (fun s => validator_state s addr) in
  match lifecycle before with
  | Active active =>
      let height := block_number env in
      let! retained := lift (jail active height) in
      let! after := lift (with_lifecycle before (JailRetained retained)) in
      commit_transition before after true [ValidatorJailed addr height] ;;;
      mret true
  | JailRetained _ | Jail _ => mret false
  | Absent => mfail (Revert "validator not registered")
  | l => let! _ := lift (registered_status l) in
         mfail (Fatal "TEE expiry sweep selected validator with ineligible status")
  end.

Definition unjail_after_stake_check (env : Env) (addr : Address) : VM unit :=
  let! before := reads (fun s => validator_state s addr) in
  let! jailed := lift
    (match lifecycle before with
     | Jail jailed => Ok jailed
     | JailRetained _ => Err (Revert "jailed validator is still retained in the current committee")
     | Absent => Err (Revert "validator not registered")
     | l => let? _ := registered_status l in Err (Revert "unjailValidator requires JAILED status")
     end) in
  let! cooldown := gets config_unjail_cooldown_blocks in
  let! pending := lift (unjail jailed (block_number env) cooldown (bonded_stake before)) in
  let! after := lift (with_lifecycle before (WaitingForReadiness pending)) in
  commit_transition before after true [ValidatorUnjailed addr (block_number env)].

(** * The committee boundary (runtime.rs) *)

(** The lifecycle a validator has after the boundary, from whether the new set
    includes it and whether its TEE lease expired. *)
Definition boundary_lifecycle (s : ValidatorSet) (before : ValidatorState) (freeze_height : Z)
    (included tee_expired : bool) : result ValidatorLifecycle :=
  let l := lifecycle before in
  let changed_at := lifecycle_history l ≫= last_deactivated_at_height in
  let excluded_expired :=
    let? _ := registered_status l in
    Err (Fatal "TEE expiry exclusion contains validator with ineligible status") in
  let ineligible :=
    let? _ := registered_status l in
    Err (Fatal "validated boundary included ineligible validator") in
  match l, included, tee_expired with
  | Active active, false, true => Ok (WaitingForReadiness (expire_active_tee active))
  | Joining joining, false, true => Ok (WaitingForReadiness (expire_joining_tee joining))
  | WaitingForReadiness waiting, false, true => Ok (WaitingForReadiness waiting)
  | Joining joining, true, false =>
      let? registration := ocomp_registration s (address before) in
      match registration with
      | None => Err (Fatal "certified active set contains validator without OCOMP admission")
      | Some _ => Ok (Active (activate_at_boundary joining))
      end
  | Active active, true, false => Ok (Active (retain_active_at_boundary active))
  | Active _, false, false => Err (Fatal "validated boundary omitted active validator")
  | Exiting exiting, true, false =>
      let? changed_at := ok_or changed_at (Fatal "exiting validator has no deactivation height") in
      if changed_at <=? freeze_height
      then Err (Fatal "validated boundary retained validator that exited before freeze")
      else Ok (Exiting exiting)
  | Exiting exiting, false, false =>
      let? changed_at := ok_or changed_at (Fatal "exiting validator has no deactivation height") in
      if freeze_height <? changed_at
      then Err (Fatal "validated boundary omitted validator that exited after freeze")
      else Ok (Unbonding (exclude_exiting_at_boundary exiting))
  | JailRetained jailed, true, false =>
      if stored_jailed_at l <=? freeze_height
      then Err (Fatal "validated boundary retained validator jailed before freeze")
      else Ok (JailRetained jailed)
  | JailRetained jailed, false, false =>
      if freeze_height <? stored_jailed_at l
      then Err (Fatal "validated boundary omitted validator jailed after freeze")
      else Ok (Jail (exclude_jailed_at_boundary jailed))
  | Joining joining, false, false => Ok (Joining joining)
  | _, false, false => Ok l
  | _, true, false => ineligible
  | _, _, true => excluded_expired
  end.

Definition plan_transition (s : ValidatorSet) (new_active_set : list Address) (freeze_height : Z)
    (exclusions : list Address) (before : ValidatorState) :
    result (ValidatorState * ValidatorState) :=
  let included := bool_decide (address before ∈ new_active_set) in
  let tee_expired := bool_decide (address before ∈ exclusions) in
  let? l := boundary_lifecycle s before freeze_height included tee_expired in
  let? after := with_lifecycle before l in
  Ok (before, after).

Definition still_pending (l : ValidatorLifecycle) : bool :=
  match l with
  | WaitingForReadiness _ | Joining _ | Exiting _ | JailRetained _ => true
  | _ => false
  end.

(** The whole plan, made before the first write. *)
Definition plan_boundary (s : ValidatorSet) (new_active_set : list Address) (freeze_height : Z)
    (exclusions : list Address) : result (list (ValidatorState * ValidatorState)) :=
  let? _ := rrequire (Z.of_nat (length new_active_set) <=? u32_max)
              (Revert "active set count exceeds u32") in
  let? addresses := registered_validator_addresses s in
  let? states := rmap addresses (validator_state s) in
  let? transitions := rmap states (plan_transition s new_active_set freeze_height exclusions) in
  let participants :=
    address <$> filter (fun st => is_current_consensus_participant (lifecycle st) = true)
                  (snd <$> transitions) in
  let? _ := rrequire
    (bool_decide (size (list_to_set (C := gset Address) new_active_set) = length new_active_set)
     && bool_decide (length participants = length new_active_set)
     && forallb (fun addr => bool_decide (addr ∈ new_active_set)) participants)
    (Fatal "validated boundary participant membership mismatch") in
  Ok transitions.

Definition apply_reshared_set (new_active_set : list Address) (set_hash : B256)
    (freeze_height : Z) (exclusions : list Address) : VM unit :=
  let! transitions := reads (fun s => plan_boundary s new_active_set freeze_height exclusions) in
  let pending := existsb (fun '(_, after) => still_pending (lifecycle after)) transitions in
  with_checkpoint (
    mfor transitions (fun '(before, after) => persist_validator_state_delta before after) ;;;
    modify (fun s => s <| active_consensus_set_hash := set_hash |>) ;;;
    signal_set_change pending ;;;
    vs_emit (ConsensusSetUpdated (Z.of_nat (length new_active_set)))).

(** The checks on the certified TEE-expiry exclusions, in list order. *)
Fixpoint check_exclusions (s : ValidatorSet) (new_active_set seen exclusions : list Address) :
    result unit :=
  match exclusions with
  | [] => Ok tt
  | addr :: rest =>
      let? _ := rrequire (negb (addr =? 0) && negb (bool_decide (addr ∈ seen)))
                  (Fatal "TEE expiry exclusions must contain unique non-zero validators") in
      let? _ := rrequire (negb (bool_decide (addr ∈ new_active_set)))
                  (Fatal "TEE-expired validator is also present in the new active set") in
      let? _ := rrequire (negb ((address_to_index s).[addr] =? 0))
                  (Fatal "TEE expiry exclusions contain unregistered validator") in
      check_exclusions s new_active_set (addr :: seen) rest
  end.

Definition activate_validated_boundary_set_with_expiry_exclusions (new_active_set : list Address)
    (set_hash : B256) (freeze_height : Z) (exclusions : list Address) : VM unit :=
  if bool_decide (exclusions = [])
  then apply_reshared_set new_active_set set_hash freeze_height []
  else
    require (Z.of_nat (length exclusions) <=? MAX_TEE_EXPIRED_TARGET_EXCLUSIONS)
      (Fatal "TEE expiry exclusions exceed protocol cap") ;;;
    reads (fun s => check_exclusions s new_active_set [] exclusions) ;;;
    apply_reshared_set new_active_set set_hash freeze_height exclusions.

(** * Participation and epochs (runtime.rs) *)

Definition record_proposer (addr : Address) : VM unit :=
  let! participant := reads (fun s => is_consensus_participant s addr) in
  require participant (Revert "proposer is not a current consensus participant") ;;;
  let! proposed := gets (fun s => (val_blocks_proposed (fields s)).[addr]) in
  let! next := lift (ok_or (checked_add u64_max proposed 1) (Fatal "blocks proposed overflow")) in
  wrf val_blocks_proposed addr next.

Definition count_missed_vote (addr : Address) : VM unit :=
  let! missed := gets (fun s => (val_missed_votes (fields s)).[addr]) in
  let! next := lift (ok_or (checked_add u64_max missed 1) (Fatal "missed votes overflow")) in
  wrf val_missed_votes addr next.

Definition record_participation (voters absent : list Address) : VM unit :=
  mfor voters (fun addr =>
    let! participant := reads (fun s => is_consensus_participant s addr) in
    require participant (Revert "voter is not a current consensus participant")) ;;;
  mfor absent (fun addr =>
    let! participant := reads (fun s => is_consensus_participant s addr) in
    require participant (Revert "absent voter is not a current consensus participant") ;;;
    count_missed_vote addr).

Definition record_finalized_participation (voters absent : list Address) : VM unit :=
  mfor voters (fun addr =>
    let! registered := reads (fun s => is_validator s addr) in
    require registered (Revert "finalized voter is not a registered validator")) ;;;
  mfor absent (fun addr =>
    let! registered := reads (fun s => is_validator s addr) in
    require registered (Revert "finalized absent voter is not a registered validator") ;;;
    count_missed_vote addr).

Definition reset_epoch_counters : VM unit :=
  let! addresses := reads registered_validator_addresses in
  mfor addresses (fun addr =>
    let! l := reads (fun s => validator_lifecycle s addr) in
    match l with
    | Active _ | Exiting _ | JailRetained _ =>
        wrf val_missed_blocks addr 0 ;;;
        wrf val_missed_votes addr 0 ;;;
        wrf val_blocks_proposed addr 0
    | _ => mret tt
    end).

Definition advance_epoch (timestamp height : Z) : VM unit :=
  let! epoch := gets epoch_number in
  let! new_epoch := lift (ok_or (checked_add u256_max epoch 1) (Fatal "epoch number overflow")) in
  modify (fun s => s <| epoch_number := new_epoch |>) ;;;
  modify (fun s => s <| epoch_start_timestamp := timestamp |>) ;;;
  modify (fun s => s <| epoch_start_block := height |>) ;;;
  let! active_count := reads active_validator_count in
  vs_emit (EpochTransition new_epoch timestamp active_count).

Definition update_epoch (timestamp height : Z) : VM unit :=
  reset_epoch_counters ;;; advance_epoch timestamp height.

(** * Cleanup (runtime.rs) *)

Definition clear_validator_storage (addr : Address) : VM unit :=
  let! pubkey := gets (fun s => read_consensus_pubkey (fields s) addr) in
  wr consensus_pubkey_hash_to_address (consensus_pubkey_hash pubkey) 0 ;;;
  let! node_id := gets (fun s => (val_radicle_node_id s).[addr]) in
  when (negb (node_id =? 0)) (wr radicle_node_id_to_validator node_id 0) ;;;
  wr val_radicle_node_id addr 0 ;;;
  write_consensus_pubkey addr 0 ;;;
  wrf val_stake addr 0 ;;;
  wrf val_status addr 0 ;;;
  wrf val_slash_count addr 0 ;;;
  wrf val_missed_blocks addr 0 ;;;
  wrf val_missed_votes addr 0 ;;;
  wrf val_blocks_proposed addr 0 ;;;
  wrf val_joined_at_height addr 0 ;;;
  wrf val_deactivated_at_height addr 0 ;;;
  wrf val_unbonding_end addr 0 ;;;
  wrf val_has_bls_share addr false ;;;
  wrf val_p2p_address_version addr 0 ;;;
  wrf val_p2p_address_payload addr [] ;;;
  wrf val_join_confirmed addr false ;;;
  wrf val_jailed_at_height addr 0 ;;;
  wr val_ocomp_miss_count addr 0 ;;;
  wr val_ocomp_recovery_deadline addr 0.

(** Remove the entry at index [i] of a registry of [count] entries. *)
Definition swap_remove (addr : Address) (i count : Z) : VM unit :=
  clear_validator_storage addr ;;;
  when (i <? count) (
    let! last_addr := gets (fun s => (index_to_address s).[count]) in
    wr index_to_address i last_addr ;;;
    wr address_to_index last_addr i) ;;;
  wr index_to_address count 0 ;;;
  wr address_to_index addr 0.

(** One iteration of the sweep; the loop variables are the index, the count and
    the number of removals. *)
Definition cleanup_step (env : Env) (max_removals cooldown : Z) (v : Z * Z * Z) :
    VM ((Z * Z * Z) + (Z * Z)) :=
  let '(i, count, removed) := v in
  let next : VM ((Z * Z * Z) + (Z * Z)) := mret (inl (i + 1, count, removed)) in
  if negb (i <=? count) then mret (inr (count, removed))
  else if (0 <? max_removals) && (max_removals <=? removed) then mret (inr (count, removed))
  else
    let! addr := gets (fun s => (index_to_address s).[i]) in
    if addr =? 0 then next
    else
      let! state := reads (fun s => validator_state s addr) in
      match lifecycle state with
      | Inactive _ =>
          let! deactivated_at :=
            lift (ok_or (lifecycle_history (lifecycle state) ≫= last_deactivated_at_height)
                    (Fatal "inactive validator has no deactivation height")) in
          let! cleanup_at := lift (ok_or (checked_add u64_max deactivated_at cooldown)
                                     (Fatal "inactive cleanup height overflow")) in
          if block_number env <? cleanup_at then next
          else
            let! deadline := gets (fun s => (val_ocomp_recovery_deadline s).[addr]) in
            if negb (deadline =? 0) then next
            else
              swap_remove addr i count ;;;
              mret (inl (i, count - 1, removed + 1))
      | _ => next
      end.

Definition cleanup_inactive_validators (env : Env) (max_removals : Z) : VM Z :=
  with_checkpoint (
    let! count := gets validator_count in
    let! cooldown := gets config_reregistration_cooldown in
    let! final := mwhile (S (Z.to_nat count)) (cleanup_step env max_removals cooldown)
                    (1, count, 0) in
    let '(count', removed) := final in
    modify (fun s => s <| validator_count := count' |>) ;;;
    mret removed).

(** * Operational delegates (delegation.rs) *)

Definition ensure_registered_validator (s : ValidatorSet) (validator : Address) : result unit :=
  let? record := get_validator s validator in
  rrequire (bool_decide (is_Some record)) (Revert "caller is not a registered validator").

Definition set_delegate (validator : Address) (role : ValidatorDelegateRole) (delegate : Address) :
    VM unit :=
  reads (fun s => ensure_registered_validator s validator) ;;;
  require (negb (delegate =? 0)) (Revert "delegate address must not be zero") ;;;
  require (negb (delegate =? validator)) (Revert "delegate must differ from validator") ;;;
  let! registered := reads (fun s => get_validator s delegate) in
  require (negb (bool_decide (is_Some registered)))
    (Revert "delegate must not be a registered validator") ;;;
  let! assigned := gets (fun s => (validator_by_role_delegate s).[(role_id role, delegate)]) in
  require ((assigned =? 0) || (assigned =? validator)) (Revert "delegate already assigned for role") ;;;
  let! previous := gets (fun s => (delegate_by_validator_role s).[(validator, role_id role)]) in
  if previous =? delegate then mret tt
  else
    when (negb (previous =? 0)) (wr validator_by_role_delegate (role_id role, previous) 0) ;;;
    wr delegate_by_validator_role (validator, role_id role) delegate ;;;
    wr validator_by_role_delegate (role_id role, delegate) validator ;;;
    vs_emit (ValidatorDelegateSet validator (role_id role) delegate).

Definition revoke_delegate (validator : Address) (role : ValidatorDelegateRole) : VM unit :=
  reads (fun s => ensure_registered_validator s validator) ;;;
  let! previous := gets (fun s => (delegate_by_validator_role s).[(validator, role_id role)]) in
  if previous =? 0 then mret tt
  else
    wr delegate_by_validator_role (validator, role_id role) 0 ;;;
    wr validator_by_role_delegate (role_id role, previous) 0 ;;;
    vs_emit (ValidatorDelegateRevoked validator (role_id role) previous).

Definition get_delegate (s : ValidatorSet) (validator : Address) (role : ValidatorDelegateRole) :
    Address :=
  (delegate_by_validator_role s).[(validator, role_id role)].

Definition resolve_validator_for_role (s : ValidatorSet) (signer : Address)
    (role : ValidatorDelegateRole) : result (option Address) :=
  let? record := get_validator s signer in
  match record with
  | Some record =>
      let explicit := get_delegate s signer role in
      Ok (if (explicit =? 0) && (vr_status record =? ACTIVE) && vr_has_bls_share record
          then Some signer else None)
  | None =>
      let validator := (validator_by_role_delegate s).[(role_id role, signer)] in
      if (validator =? 0) || negb (get_delegate s validator role =? signer) then Ok None
      else
        let? record := get_validator s validator in
        match record with
        | None => Ok None
        | Some record =>
            if negb (vr_status record =? ACTIVE) || negb (vr_has_bls_share record) then Ok None
            else Ok (Some validator)
        end
  end.

(** * Hooks (hooks.rs) *)

Definition is_epoch_boundary (s : ValidatorSet) (height : Z) : bool :=
  if config_epoch_length_blocks s =? 0 then false
  else saturating_add u64_max (epoch_start_block s) (config_epoch_length_blocks s) <=? height.

Definition hook_record_proposer (beneficiary : Address) : VM unit :=
  let! registered := reads (fun s => is_validator s beneficiary) in
  when registered (record_proposer beneficiary).

Definition hook_record_participation (voters absent : list Address) : VM unit :=
  if bool_decide (absent = []) then mret tt else record_participation voters absent.

Definition hook_record_finalized_participation (fb_hash : B256) (voters absent : list Address) :
    VM unit :=
  if bool_decide (voters = []) && bool_decide (absent = []) then mret tt
  else
    let! recorded := gets (fun s => (finalized_participation_recorded s).[fb_hash]) in
    if recorded : bool then mret tt
    else
      record_finalized_participation voters absent ;;;
      wr finalized_participation_recorded fb_hash true ;;;
      let! seq := gets finalized_participation_ring_seq in
      let idx := seq mod FINALIZED_PARTICIPATION_RETAIN in
      let! evicted := gets (fun s => (finalized_participation_ring s).[idx]) in
      when (negb (evicted =? 0) && negb (evicted =? fb_hash))
        (wr finalized_participation_recorded evicted false) ;;;
      wr finalized_participation_ring idx fb_hash ;;;
      let! seq' := lift (ok_or (checked_add u64_max seq 1)
                           (Fatal "finalized participation ring sequence overflow")) in
      modify (fun s => s <| finalized_participation_ring_seq := seq' |>).

(** * The call surface

    The mutating entries of the precompile ([VsUser], with the caller) and the
    facade that Staking, SlashIndicator, the TEE registry and the block hooks
    call ([VsSystem]). *)

Inductive VsUserCall : Type :=
  | setDelegate (role : Z) (delegate : Address)
  | revokeDelegate (role : Z)
  | registerValidator (validatorAddress : Address) (consensusPubkey : list Z)
      (radicleNodeId : B256) (blsRegistrationSignature : list Z)
  | setP2pAddress (validatorAddress : Address) (version : Z) (encoded : list Z)
  | deactivateValidator (validatorAddress : Address)
  | confirmValidatorReady (registration : list Z).

Inductive VsSystemCall : Type :=
  | RecordStakeIncrease (addr : Address) (bonded minimum : Z)
  | RecordUnstake (addr : Address) (bonded minimum hint : Z)
  | RecordStakeSlash (addr : Address) (bonded minimum : Z) (hint : option Z)
  | RecordOcompMiss (addr : Address)
  | RecordOcompBondedSlash (addr : Address) (bonded : Z)
  | ResolveOcompWindow (addr : Address) (deadline bonded : Z) (outcome : OcompRecoveryOutcome)
  | CompleteUnbonding (addr : Address)
  | ForceExit (addr : Address)
  | JailValidator (addr : Address)
  | JailForTeeExpiry (addr : Address)
  | Unjail (addr : Address)
  | ActivateBoundary (new_active_set : list Address) (set_hash : B256) (freeze_height : Z)
      (exclusions : list Address)
  | RecordProposer (addr : Address)
  | RecordParticipation (voters absent : list Address)
  | RecordFinalizedParticipation (fb_hash : B256) (voters absent : list Address)
  | ResetEpochCounters
  | AdvanceEpoch (timestamp height : Z)
  | CleanupInactive (max_removals : Z).

(** The mutating arms of [precompile::dispatch] ([reject_value] first). *)
Definition vs_dispatch (env : Env) (caller : Address) (value : Z) (c : VsUserCall) : VM unit :=
  require (value =? 0) (Revert "non-payable function called with value") ;;;
  match c with
  | setDelegate role delegate =>
      let! role := lift (role_try_from role) in
      set_delegate caller role delegate
  | revokeDelegate role =>
      let! role := lift (role_try_from role) in
      revoke_delegate caller role
  | registerValidator validatorAddress consensusPubkey radicleNodeId signature =>
      require (length consensusPubkey =? 48)%nat (Revert "consensus pubkey must be 48 bytes") ;;;
      require (length signature =? 96)%nat
        (Revert "BLS proof of possession must be exactly 96 bytes") ;;;
      register_validator_with_sig env caller validatorAddress (be_value consensusPubkey)
        radicleNodeId (Some signature)
  | setP2pAddress validatorAddress version encoded =>
      set_p2p_address caller validatorAddress version encoded
  | deactivateValidator validatorAddress => deactivate_validator env caller validatorAddress
  | confirmValidatorReady registration => confirm_validator_ready env caller registration
  end.

Definition discard {A} (m : VM A) : VM unit := m ;;; mret tt.

Definition vs_system (env : Env) (c : VsSystemCall) : VM unit :=
  match c with
  | RecordStakeIncrease addr b m => record_stake_increase addr b m
  | RecordUnstake addr b m h => record_unstake env addr b m h
  | RecordStakeSlash addr b m h => record_stake_slash env addr b m h
  | RecordOcompMiss addr => discard (record_ocomp_miss env addr)
  | RecordOcompBondedSlash addr b => record_ocomp_bonded_slash addr b
  | ResolveOcompWindow addr d b o => resolve_ocomp_recovery_window addr d b o
  | CompleteUnbonding addr => vs_complete_unbonding addr
  | ForceExit addr => force_exit_validator env addr
  | JailValidator addr => jail_validator env addr
  | JailForTeeExpiry addr => discard (jail_validator_for_tee_expiry env addr)
  | Unjail addr => unjail_after_stake_check env addr
  | ActivateBoundary set hash freeze exclusions =>
      activate_validated_boundary_set_with_expiry_exclusions set hash freeze exclusions
  | RecordProposer addr => hook_record_proposer addr
  | RecordParticipation voters absent => hook_record_participation voters absent
  | RecordFinalizedParticipation fb voters absent =>
      hook_record_finalized_participation fb voters absent
  | ResetEpochCounters => reset_epoch_counters
  | AdvanceEpoch timestamp height => advance_epoch timestamp height
  | CleanupInactive n => discard (cleanup_inactive_validators env n)
  end.
End WithExternals.
