(* ===== verification/ValidatorSetInv.v ===== *)
(** The invariant of the validator registry and the properties of its calls:
    storage never becomes corrupt, every call moves every validator along the
    typed state machine of [Lifecycle], the committee changes only at a
    certified boundary, and delegates resolve to one validator. *)

From stdpp Require Import functions.
From S2P Require Import Prelude Bytes P2pAddress Lifecycle ValidatorSet.

(** * Persisting writes exactly the encoding *)

(** [s] with other per-validator fields. *)
Definition upd (s : ValidatorSet) (f : ValidatorFields) : ValidatorSet := s <| fields := f |>.
#[global] Arguments upd : simpl never.

Lemma upd_id s : upd s (fields s) = s.
Proof. by destruct s. Qed.

Lemma when_wrf {V} `{EqDecision V} `{Storable V} (g : ValidatorFields -> gmap Address V)
    `{Hset : !Setter g} (Hid : forall r, set g (g r) r = r) (addr : Address) (v : V) (c : bool) s f s' :
  (c = false -> (g f).[addr] = v) ->
  when c (wrf g addr v) (upd s f) = (Ok tt, s') ->
  exists m, s' = upd s (set g m f)
    /\ m.[addr] = v /\ forall b, b <> addr -> m.[b] = (g f).[b].
Proof.
  intros Hc Hrun. destruct c; simpl in Hrun; minv.
  - eexists. split; [reflexivity|]. split; [apply mread_mwrite_eq|].
    intros b Hb. apply mread_mwrite_ne. congruence.
  - exists (g f). split; [by rewrite Hid|]. auto.
Qed.

Lemma read_write_pubkey f addr pubkey :
  read_consensus_pubkey
    (f <| val_consensus_pubkey_lo := (val_consensus_pubkey_lo f).[addr <- pubkey / 2 ^ 128] |>
       <| val_consensus_pubkey_hi :=
            (val_consensus_pubkey_hi f).[addr <- (pubkey mod 2 ^ 128) * 2 ^ 128] |>) addr
  = pubkey.
Proof.
  unfold read_consensus_pubkey. simpl. rewrite !mread_mwrite_eq.
  rewrite Z.div_mul by lia. pose proof (Z.div_mod pubkey (2 ^ 128)). lia.
Qed.

(** [s'] is [s] with the key of [addr] rewritten to [pubkey]. *)
Definition key_written (s : ValidatorSet) (f : ValidatorFields) (s' : ValidatorSet)
    (addr : Address) (pubkey : ConsensusPubkey) : Prop :=
  exists lo hi, s' = upd s (f <| val_consensus_pubkey_lo := lo |> <| val_consensus_pubkey_hi := hi |>)
    /\ lo.[addr] * 2 ^ 128 + hi.[addr] / 2 ^ 128 = pubkey
    /\ forall b, b <> addr -> lo.[b] = (val_consensus_pubkey_lo f).[b]
                       /\ hi.[b] = (val_consensus_pubkey_hi f).[b].

Lemma write_pubkey_ok addr pubkey s f s' :
  write_consensus_pubkey addr pubkey (upd s f) = (Ok tt, s') -> key_written s f s' addr pubkey.
Proof.
  unfold write_consensus_pubkey. intros H. minv.
  pose proof (read_write_pubkey f addr pubkey) as Hr.
  unfold read_consensus_pubkey in Hr. simpl in Hr.
  eexists _, _. split; [reflexivity|]. split; [exact Hr|].
  intros b Hb. split; apply mread_mwrite_ne; congruence.
Qed.

Lemma key_unchanged s f addr :
  key_written s f (upd s f) addr (read_consensus_pubkey f addr).
Proof.
  exists (val_consensus_pubkey_lo f), (val_consensus_pubkey_hi f).
  split; [by destruct f|]. auto.
Qed.

(** What a persisting run leaves: the row of its validator is the encoding of
    the new aggregate and nothing else changed. *)
Definition persisted (s s' : ValidatorSet) (addr : Address) (l : ValidatorLifecycle) : Prop :=
  exists f, s' = upd s f
    /\ row f addr = encode_row l
    /\ forall b, b <> addr -> row f b = row (fields s) b.

(** The equation [row f addr = encode_row l], field by field. *)
Definition row_is (f : ValidatorFields) (addr : Address) (st : ValidatorState) : Prop :=
  read_consensus_pubkey f addr = default 0 (lifecycle_consensus_pubkey (lifecycle st))
  /\ (val_stake f).[addr] = bonded_stake st
  /\ (val_status f).[addr] = default REGISTERED (state_status st)
  /\ (val_slash_count f).[addr] = history_or_zero st slash_count
  /\ (val_missed_blocks f).[addr] = history_or_zero st missed_blocks
  /\ (val_missed_votes f).[addr] = history_or_zero st missed_votes
  /\ (val_blocks_proposed f).[addr] = history_or_zero st blocks_proposed
  /\ (val_joined_at_height f).[addr] = history_or_zero st joined_at_height
  /\ (val_deactivated_at_height f).[addr]
     = default 0 (lifecycle_history (lifecycle st) ≫= last_deactivated_at_height)
  /\ (val_unbonding_end f).[addr] = default 0 (state_unbonding_end_hint st)
  /\ (val_has_bls_share f).[addr] = has_bls_share (lifecycle st)
  /\ (val_p2p_address_version f).[addr] = (stored_p2p st).1
  /\ (val_p2p_address_payload f).[addr] = (stored_p2p st).2
  /\ (val_join_confirmed f).[addr] = join_confirmed (lifecycle st)
  /\ (val_jailed_at_height f).[addr] = stored_jailed_at (lifecycle st).

Lemma encode_row_unfold st :
  encode_row (lifecycle st) =
  mkStored (default 0 (lifecycle_consensus_pubkey (lifecycle st))) (bonded_stake st)
    (default REGISTERED (state_status st)) (history_or_zero st slash_count)
    (history_or_zero st missed_blocks) (history_or_zero st missed_votes)
    (history_or_zero st blocks_proposed) (history_or_zero st joined_at_height)
    (default 0 (lifecycle_history (lifecycle st) ≫= last_deactivated_at_height))
    (default 0 (state_unbonding_end_hint st)) (has_bls_share (lifecycle st))
    (stored_p2p st).1 (stored_p2p st).2 (join_confirmed (lifecycle st))
    (stored_jailed_at (lifecycle st)).
Proof.
  unfold encode_row, stored_p2p. destruct (lifecycle_p2p (lifecycle st)) as [p|]; [|done].
  by destruct (p2p_encode_stored p).
Qed.

Lemma row_is_iff f addr st : row f addr = encode_row (lifecycle st) <-> row_is f addr st.
Proof.
  rewrite encode_row_unfold. unfold row, row_is. split.
  - intros [= -> -> -> -> -> -> -> -> -> -> -> -> -> -> ->]. done.
  - intros (-> & -> & -> & -> & -> & -> & -> & -> & -> & -> & -> & -> & -> & -> & ->). done.
Qed.

(** The three writes of [persist] that are not a plain comparison. *)
Lemma persist_key_ok before after allow s f s' :
  read_consensus_pubkey f (address after)
    = default 0 (lifecycle_consensus_pubkey (lifecycle before)) ->
  (allow = false ->
    lifecycle_consensus_pubkey (lifecycle before) = lifecycle_consensus_pubkey (lifecycle after)) ->
  when allow (
    let! pubkey := lift (ok_or (lifecycle_consensus_pubkey (lifecycle after))
                           (Fatal "registered validator is missing consensus pubkey")) in
    let! _ := lift (ok_or (lifecycle_registry_index (lifecycle after))
                      (Fatal "registered validator is missing registry index")) in
    when (bool_decide (lifecycle_consensus_pubkey (lifecycle before) <> Some pubkey))
      (write_consensus_pubkey (address after) pubkey)) (upd s f) = (Ok tt, s') ->
  key_written s f s' (address after) (default 0 (lifecycle_consensus_pubkey (lifecycle after))).
Proof.
  intros Hread Hsame Hrun.
  assert (Hkeep : lifecycle_consensus_pubkey (lifecycle before)
                  = lifecycle_consensus_pubkey (lifecycle after) ->
    key_written s f (upd s f) (address after)
      (default 0 (lifecycle_consensus_pubkey (lifecycle after)))).
  { intros <-. rewrite <- Hread. apply key_unchanged. }
  destruct allow; simpl in Hrun; minv; [|by apply Hkeep; auto].
  match goal with Hk : lifecycle_consensus_pubkey (lifecycle after) = Some _ |- _ => rewrite Hk in * end.
  case_bool_decide as Hc; simpl in *; minv; [by apply write_pubkey_ok|by apply Hkeep].
Qed.

Lemma persist_status_ok before after s f s' :
  (val_status f).[address after] = default REGISTERED (state_status before) ->
  when (bool_decide (state_status before <> state_status after)) (
    let! status := lift (ok_or (state_status after)
                           (Fatal "generic validator persistence cannot write an absent lifecycle")) in
    wrf val_status (address after) status) (upd s f) = (Ok tt, s') ->
  exists m, s' = upd s (f <| val_status := m |>)
    /\ m.[address after] = default REGISTERED (state_status after)
    /\ forall b, b <> address after -> m.[b] = (val_status f).[b].
Proof.
  intros Hread Hrun. case_bool_decide as Hc; simpl in Hrun; minv.
  - match goal with Hk : state_status after = Some _ |- _ => rewrite Hk end.
    eexists. split; [reflexivity|]. simpl. split; [apply mread_mwrite_eq|].
    intros b Hb. apply mread_mwrite_ne. congruence.
  - rewrite <- Hc. exists (val_status f). split; [by destruct f|]. auto.
Qed.

Lemma persist_p2p_ok before after s f s' :
  (val_p2p_address_version f).[address after] = (stored_p2p before).1 ->
  (val_p2p_address_payload f).[address after] = (stored_p2p before).2 ->
  when (bool_decide (stored_p2p before <> stored_p2p after)) (
    wrf val_p2p_address_version (address after) (stored_p2p after).1 ;;;
    wrf val_p2p_address_payload (address after) (stored_p2p after).2) (upd s f) = (Ok tt, s') ->
  exists m1 m2, s' = upd s (f <| val_p2p_address_version := m1 |> <| val_p2p_address_payload := m2 |>)
    /\ m1.[address after] = (stored_p2p after).1 /\ m2.[address after] = (stored_p2p after).2
    /\ forall b, b <> address after ->
         m1.[b] = (val_p2p_address_version f).[b] /\ m2.[b] = (val_p2p_address_payload f).[b].
Proof.
  intros Hr1 Hr2 Hrun. case_bool_decide as Hc; simpl in Hrun; minv.
  - eexists _, _. split; [reflexivity|]. split; [apply mread_mwrite_eq|].
    split; [apply mread_mwrite_eq|]. intros b Hb. split; apply mread_mwrite_ne; congruence.
  - rewrite <- Hc. exists (val_p2p_address_version f), (val_p2p_address_payload f).
    split; [by destruct f|]. auto.
Qed.

Ltac persist_field f Hc :=
  match goal with
  | H : when _ (modify (fun s => set fields (set f _ _) _)) _ = (Ok tt, _) |- _ =>
      eapply (when_wrf f) in H; [|by intros []|];
      [destruct H as (? & -> & ? & ?); cbn [set] in *
      |intros Hc; simpl; bprop; etransitivity; [eassumption|];
       first [exact Hc|by apply eqb_prop]]
  end.

Lemma persist_inner_ok before after allow s s' :
  row (fields s) (address before) = encode_row (lifecycle before) ->
  persist_validator_state_delta_inner before after allow s = (Ok tt, s') ->
  persisted s s' (address after) (lifecycle after)
  /\ address before = address after
  /\ (allow = false ->
      lifecycle_registry_index (lifecycle before) = lifecycle_registry_index (lifecycle after)
      /\ lifecycle_consensus_pubkey (lifecycle before) = lifecycle_consensus_pubkey (lifecycle after))
  /\ lifecycle_validate (lifecycle before) = Ok tt
  /\ lifecycle_validate (lifecycle after) = Ok tt.
Proof.
  intros Hrow H. unfold persist_validator_state_delta_inner in H. minv.
  apply row_is_iff in Hrow. destruct Hrow as (R1&R2&R3&R4&R5&R6&R7&R8&R9&R10&R11&R12&R13&R14&R15).
  case_match eqn:Hid; minv. apply orb_false_iff in Hid as [Ha Hid].
  apply bool_decide_eq_false_1, dec_stable in Ha.
  assert (Hkeep : allow = false ->
      lifecycle_registry_index (lifecycle before) = lifecycle_registry_index (lifecycle after)
      /\ lifecycle_consensus_pubkey (lifecycle before) = lifecycle_consensus_pubkey (lifecycle after)).
  { intros ->. simpl in Hid. bprop. split; by apply dec_stable. }
  rewrite Ha in *. split; [|done].
  unfold persisted. rewrite <- (upd_id s) in H2. destruct (fields s) as [f1 f2 f3 f4 f5 f6 f7 f8 f9 f10 f11 f12 f13 f14 f15 f16] eqn:Hf.
  simpl in R2, R3, R4, R5, R6, R7, R8, R9, R10, R11, R12, R13, R14, R15.
  eapply persist_key_ok in H2; [|exact R1|naive_solver].
  destruct H2 as (lo & hi & -> & K1 & K2).
  persist_field val_stake Hc.
  eapply persist_status_ok in H4; [|exact R3]. destruct H4 as (m4 & -> & S1 & S2).
  persist_field val_slash_count Hc. persist_field val_missed_blocks Hc.
  persist_field val_missed_votes Hc. persist_field val_blocks_proposed Hc.
  persist_field val_joined_at_height Hc. persist_field val_deactivated_at_height Hc.
  persist_field val_unbonding_end Hc. persist_field val_has_bls_share Hc.
  persist_field val_join_confirmed Hc. persist_field val_jailed_at_height Hc.
  eapply persist_p2p_ok in H16; [|exact R12|exact R13].
  destruct H16 as (m1 & m2 & -> & P1 & P2 & P3).
  eexists. split; [reflexivity|]. split; [by apply row_is_iff|].
  intros b Hb. destruct (K2 b Hb), (P3 b Hb). unfold row, read_consensus_pubkey. simpl in *.
  f_equal; auto. by f_equal; f_equal.
Qed.

(** * The representation invariant

    [core_rep s n L]: storage [s] holds the lifecycle [L a] of every address,
    in a dense registry of [n] entries whose index, consensus-key and NodeId
    lookups agree with it. ([n] is [validator_count] except inside a sweep.) *)
Section Rep.
Context {X : Externals}.

Record core_rep (s : ValidatorSet) (n : Z) (L : Address -> ValidatorLifecycle) : Prop := {
  cr_count : 0 <= n <= validator_count s /\ validator_count s <= u32_max;
  cr_row : forall a, row (fields s) a = encode_row (L a);
  cr_valid : forall a, valid (L a) /\ wf_lifecycle (L a);
  cr_index : forall a, (address_to_index s).[a] = default 0 (lifecycle_registry_index (L a));
  cr_slot : forall a i, lifecycle_registry_index (L a) = Some i ->
    1 <= i <= n /\ (index_to_address s).[i] = a;
  cr_dense : forall i, 1 <= i <= n ->
    lifecycle_registry_index (L (index_to_address s).[i]) = Some i;
  cr_empty : forall i, ~ (1 <= i <= n) -> (index_to_address s).[i] = 0;
  cr_key : forall a k, lifecycle_consensus_pubkey (L a) = Some k ->
    (consensus_pubkey_hash_to_address s).[consensus_pubkey_hash k] = a;
  cr_owner : forall h, (consensus_pubkey_hash_to_address s).[h] <> 0 -> exists k,
    lifecycle_consensus_pubkey (L (consensus_pubkey_hash_to_address s).[h]) = Some k
    /\ consensus_pubkey_hash k = h;
  cr_node : forall a, L a <> Absent ->
    (val_radicle_node_id s).[a] <> 0
    /\ (radicle_node_id_to_validator s).[(val_radicle_node_id s).[a]] = a;
  cr_node_absent : forall a, L a = Absent -> (val_radicle_node_id s).[a] = 0;
  cr_node_owner : forall n, (radicle_node_id_to_validator s).[n] <> 0 ->
    n <> 0 /\ (val_radicle_node_id s).[(radicle_node_id_to_validator s).[n]] = n;
  cr_zero : L 0 = Absent }.

Lemma registry_index_some l i : lifecycle_registry_index l = Some i -> l <> Absent.
Proof. by destruct l. Qed.
Lemma pubkey_some l k : lifecycle_consensus_pubkey l = Some k -> l <> Absent.
Proof. by destruct l. Qed.
Lemma registry_absent l : lifecycle_registry_index l = None <-> l = Absent.
Proof. by destruct l. Qed.
Lemma not_absent_index l : l <> Absent -> exists i, lifecycle_registry_index l = Some i.
Proof. destruct l; simpl; eauto; done. Qed.
Lemma not_absent_pubkey l : l <> Absent -> exists k, lifecycle_consensus_pubkey l = Some k.
Proof. destruct l; simpl; eauto; done. Qed.
Lemma index_nonzero l i : wf_lifecycle l -> lifecycle_registry_index l = Some i -> i <> 0.
Proof. unfold wf_lifecycle. intros Hwf Hi. rewrite Hi in Hwf. destruct l; simpl in *; naive_solver. Qed.

(** Every address decodes to its lifecycle. *)
Lemma rep_state s n L a : core_rep s n L -> validator_state s a = Ok (mkState a (L a)).
Proof.
  intros H. destruct (cr_valid _ _ _ H a) as [Hv Hwf].
  unfold validator_state. rewrite (cr_index _ _ _ H), (cr_row _ _ _ H).
  rewrite decode_encode_row by (done || by apply valid_validate). simpl.
  destruct (lifecycle_registry_index (L a)) as [i|] eqn:Hi; [|done].
  destruct (cr_slot _ _ _ H a i Hi) as [Hr Hs]. pose proof (cr_count _ _ _ H).
  destruct (Z.ltb_spec (validator_count s) i); [lia|]. rewrite Hs, Z.eqb_refl. simpl.
  destruct (not_absent_pubkey (L a)) as [k Hk]; [by eapply registry_index_some|].
  rewrite Hk. simpl. by rewrite (cr_key _ _ _ H a k Hk), Z.eqb_refl.
Qed.

Lemma rep_lifecycle s n L a : core_rep s n L -> validator_lifecycle s a = Ok (L a).
Proof. intros H. unfold validator_lifecycle. by rewrite (rep_state s n L). Qed.

Lemma rep_state_inv s n L a st :
  core_rep s n L -> validator_state s a = Ok st -> st = mkState a (L a).
Proof. intros H. rewrite (rep_state s n L a H). congruence. Qed.

(** Replacing the lifecycle of one validator, keeping its registry identity. *)
Lemma rep_update s f n L a l :
  core_rep s n L ->
  row f a = encode_row l -> (forall b, b <> a -> row f b = row (fields s) b) ->
  valid l -> wf_lifecycle l ->
  lifecycle_registry_index l = lifecycle_registry_index (L a) ->
  lifecycle_consensus_pubkey l = lifecycle_consensus_pubkey (L a) ->
  core_rep (upd s f) n (<[a := l]> L).
Proof.
  intros H Hrow Hframe Hv Hwf Hi Hk.
  assert (Hidx : forall b, lifecycle_registry_index ((<[a := l]> L) b) = lifecycle_registry_index (L b)).
  { intros b. destruct (decide (a = b)) as [<-|]; [by rewrite fn_lookup_insert|].
    by rewrite fn_lookup_insert_ne. }
  assert (Hpk : forall b, lifecycle_consensus_pubkey ((<[a := l]> L) b)
                          = lifecycle_consensus_pubkey (L b)).
  { intros b. destruct (decide (a = b)) as [<-|]; [by rewrite fn_lookup_insert|].
    by rewrite fn_lookup_insert_ne. }
  assert (Habs : forall b, (<[a := l]> L) b = Absent <-> L b = Absent).
  { intros b. rewrite <- !registry_absent, Hidx. done. }
  destruct H. constructor; try done.
  - intros b. destruct (decide (a = b)) as [<-|]; [by rewrite fn_lookup_insert|].
    rewrite fn_lookup_insert_ne by done. simpl. rewrite Hframe; auto.
  - intros b. destruct (decide (a = b)) as [<-|]; [by rewrite fn_lookup_insert|].
    by rewrite fn_lookup_insert_ne.
  - intros b. by rewrite Hidx.
  - intros b i. rewrite Hidx. apply cr_slot0.
  - intros i. rewrite Hidx. apply cr_dense0.
  - intros b k. rewrite Hpk. apply cr_key0.
  - intros h Hh. rewrite Hpk. by apply cr_owner0.
  - intros b. rewrite Habs. apply cr_node0.
  - intros b. rewrite Habs. apply cr_node_absent0.
  - by apply Habs.
Qed.
Lemma persist_rep s n L a l after s' :
  core_rep s n L -> wf_lifecycle l -> after = mkState a l ->
  persist_validator_state_delta (mkState a (L a)) after s = (Ok tt, s') ->
  (exists f, s' = upd s f) /\ core_rep s' n (<[a := l]> L)
  /\ lifecycle_registry_index l = lifecycle_registry_index (L a)
  /\ lifecycle_consensus_pubkey l = lifecycle_consensus_pubkey (L a).
Proof.
  intros H Hwf -> Hrun. apply persist_inner_ok in Hrun; [|apply (cr_row _ _ _ H)].
  destruct Hrun as ((f & -> & Hrow & Hframe) & _ & Hid & _ & Hv).
  destruct (Hid eq_refl) as [Hi Hk]. simpl in *.
  split; [by eexists|]. split; [|done].
  apply rep_update; auto using validate_valid.
Qed.

(** The operational delegates: forward and reverse lookups agree, and no
    delegate is a registered validator. *)
Record delegates_ok (s : ValidatorSet) (L : Address -> ValidatorLifecycle) : Prop := {
  dl_fwd : forall v r, (delegate_by_validator_role s).[(v, r)] <> 0 ->
    v <> 0 /\ (validator_by_role_delegate s).[(r, (delegate_by_validator_role s).[(v, r)])] = v;
  dl_rev : forall r d, (validator_by_role_delegate s).[(r, d)] <> 0 ->
    (delegate_by_validator_role s).[((validator_by_role_delegate s).[(r, d)], r)] = d
    /\ d <> 0 /\ L d = Absent /\ (r = role_id Oracle \/ r = role_id Ocomp) }.

(** An admitted OCOMP registration decodes and its key is reserved for it. *)
Definition ocomp_ok (s : ValidatorSet) : Prop :=
  forall a, (val_ocomp_registration s).[a] <> [] ->
    a <> 0 /\ exists reg, ocomp_decode_canonical (val_ocomp_registration s).[a] = Some reg
      /\ (ocomp_key_hash_to_validator s).[ocomp_key_hash (oc_public_key_sec1 reg)] = a.

Record vs_rep (s : ValidatorSet) (L : Address -> ValidatorLifecycle) : Prop := {
  vr_core : core_rep s (validator_count s) L;
  vr_delegates : delegates_ok s L;
  vr_ocomp : ocomp_ok s }.

(** The slots outside the typed aggregate that the invariant does not mention. *)
Definition same_registry (s s' : ValidatorSet) : Prop :=
  address_to_index s' = address_to_index s
  /\ index_to_address s' = index_to_address s
  /\ consensus_pubkey_hash_to_address s' = consensus_pubkey_hash_to_address s
  /\ validator_count s' = validator_count s
  /\ val_radicle_node_id s' = val_radicle_node_id s
  /\ radicle_node_id_to_validator s' = radicle_node_id_to_validator s.

Lemma core_rep_frame s s' n L :
  same_registry s s' -> fields s' = fields s -> core_rep s n L -> core_rep s' n L.
Proof.
  intros (E1 & E2 & E3 & E4 & E5 & E6) Ef []. constructor; rewrite ?E1, ?E2, ?E3, ?E4, ?E5, ?E6, ?Ef; auto.
Qed.

(** Validators move along the state machine without a boundary. *)
Definition moves (L L' : Address -> ValidatorLifecycle) : Prop :=
  forall a, rtc (lifecycle_step false) (L a) (L' a).

Lemma moves_refl L : moves L L. Proof. intros a. reflexivity. Qed.
Lemma moves_trans L1 L2 L3 : moves L1 L2 -> moves L2 L3 -> moves L1 L3.
Proof. intros H1 H2 a. by transitivity (L2 a). Qed.
Lemma moves_insert L a l : rtc (lifecycle_step false) (L a) l -> moves L (<[a := l]> L).
Proof.
  intros H b. destruct (decide (a = b)) as [<-|]; [by rewrite fn_lookup_insert|].
  by rewrite fn_lookup_insert_ne.
Qed.

Lemma path_valid l l' :
  rtc (lifecycle_step false) l l' -> valid l -> wf_lifecycle l -> valid l' /\ wf_lifecycle l'.
Proof.
  induction 1 as [|l1 l2 l3 Hstep _ IH]; [done|]. intros Hv Hwf.
  destruct (step_valid _ _ _ Hstep Hv Hwf). by apply IH.
Qed.

Lemma with_lifecycle_ok st l after :
  with_lifecycle st l = Ok after -> after = mkState (address st) l /\ lifecycle_validate l = Ok tt.
Proof. apply from_lifecycle_ok. Qed.

(** [next s L s']: the call kept the invariant and moved the validators. *)
Definition next (L : Address -> ValidatorLifecycle) (s' : ValidatorSet) : Prop :=
  exists L', vs_rep s' L' /\ moves L L'.

Lemma next_same s s' L :
  same_registry s s' -> fields s' = fields s ->
  delegate_by_validator_role s' = delegate_by_validator_role s ->
  validator_by_role_delegate s' = validator_by_role_delegate s ->
  val_ocomp_registration s' = val_ocomp_registration s ->
  ocomp_key_hash_to_validator s' = ocomp_key_hash_to_validator s ->
  vs_rep s L -> vs_rep s' L.
Proof.
  intros Hr Hf Hd1 Hd2 Ho1 Ho2 [Hc [D1 D2] Ho]. constructor.
  - replace (validator_count s') with (validator_count s) by (symmetry; apply Hr).
    by eapply core_rep_frame.
  - constructor; rewrite ?Hd1, ?Hd2; auto.
  - unfold ocomp_ok. by rewrite Ho1, Ho2.
Qed.

Lemma absent_stable (L : Address -> ValidatorLifecycle) a l b :
  lifecycle_registry_index l = lifecycle_registry_index (L a) ->
  (<[a := l]> L) b = Absent <-> L b = Absent.
Proof.
  intros Hi. destruct (decide (a = b)) as [<-|].
  - rewrite fn_lookup_insert, <- !registry_absent. by rewrite Hi.
  - by rewrite fn_lookup_insert_ne.
Qed.

(** The typed transition every facade call ends in. *)
Lemma persist_wf_next s L a l after s' :
  vs_rep s L -> with_lifecycle (mkState a (L a)) l = Ok after -> wf_lifecycle l ->
  persist_validator_state_delta (mkState a (L a)) after s = (Ok tt, s') ->
  vs_rep s' (<[a := l]> L) /\ exists f, s' = upd s f.
Proof.
  intros [Hc Hd Ho] Hw Hwf Hrun. apply with_lifecycle_ok in Hw as [-> Hv].
  eapply (persist_rep s (validator_count s) L a l) in Hrun; [|done..].
  destruct Hrun as ((f & ->) & Hc' & Hi & Hk). split; [|by eexists].
  constructor; [done| |done]. destruct Hd as [D1 D2]. constructor; [done|].
  intros r d Hd. destruct (D2 r d Hd) as (?&?&?&?). split_and!; try done.
  by apply absent_stable.
Qed.

Lemma persist_next s L a l after s' :
  vs_rep s L -> with_lifecycle (mkState a (L a)) l = Ok after ->
  rtc (lifecycle_step false) (L a) l ->
  persist_validator_state_delta (mkState a (L a)) after s = (Ok tt, s') ->
  vs_rep s' (<[a := l]> L) /\ exists f, s' = upd s f.
Proof.
  intros Hr Hw Hpath. apply persist_wf_next; try done.
  destruct (cr_valid _ _ _ (vr_core _ _ Hr) a). by eapply path_valid.
Qed.

Lemma mfor_emit_ok es s s' : mfor es vs_emit s = (Ok tt, s') -> exists es', s' = s <| vs_events := es' |>.
Proof.
  revert s. induction es as [|e es IH]; simpl; intros s H; minv.
  - exists (vs_events s). by destruct s.
  - unfold vs_emit in *. minv.
    match goal with H : mfor _ _ _ = _ |- _ => apply IH in H as [es' ->] end. by eexists.
Qed.

Lemma commit_next s L a l after sc es s' :
  vs_rep s L -> with_lifecycle (mkState a (L a)) l = Ok after ->
  rtc (lifecycle_step false) (L a) l ->
  commit_transition (mkState a (L a)) after sc es s = (Ok tt, s') ->
  vs_rep s' (<[a := l]> L).
Proof.
  intros H Hw Hpath Hrun. unfold commit_transition in Hrun. minv.
  eapply persist_next in H0; [|done..]. destruct H0 as [H0 _].
  apply mfor_emit_ok in H3 as [es' ->].
  eapply next_same; [..|exact H0]; destruct sc; simpl in H2; unfold signal_set_change in H2; minv; done.
Qed.
Lemma commit_moves s L a l0 l after sc es s' :
  vs_rep s L -> L a = l0 -> with_lifecycle (mkState a l0) l = Ok after ->
  rtc (lifecycle_step false) l0 l ->
  commit_transition (mkState a l0) after sc es s = (Ok tt, s') -> next L s'.
Proof.
  intros H <- Hw Hpath Hrun. exists (<[a := l]> L).
  split; [by eapply commit_next|by apply moves_insert].
Qed.

Lemma persist_moves s L a l0 l after s' :
  vs_rep s L -> L a = l0 -> with_lifecycle (mkState a l0) l = Ok after ->
  rtc (lifecycle_step false) l0 l ->
  persist_validator_state_delta (mkState a l0) after s = (Ok tt, s') -> next L s'.
Proof.
  intros H <- Hw Hpath Hrun. exists (<[a := l]> L).
  split; [by eapply persist_next|by apply moves_insert].
Qed.

End Rep.

(** The typed state a call reads is the lifecycle of the invariant. *)
Ltac open_state L :=
  repeat match goal with
  | Hr : vs_rep ?s L, H : validator_state ?s _ = Ok _ |- _ =>
      apply (rep_state_inv _ _ _ _ _ (vr_core _ _ Hr)) in H; subst
  end; simpl in *.
Ltac path :=
  first [ reflexivity
        | apply rtc_once; econstructor; eassumption
        | eapply rtc_l; [econstructor; eassumption|path] ].
Ltac finish_commit := eapply commit_moves; [eassumption|eassumption|eassumption| |eassumption]; path.

(** * The calls, one by one *)
Section Calls.
Context {X : Externals}.

Lemma record_stake_increase_next s L addr b m s' :
  vs_rep s L -> record_stake_increase addr b m s = (Ok tt, s') -> next L s'.
Proof.
  intros H Hrun. unfold record_stake_increase in Hrun. minv. open_state L.
  destruct (L addr) eqn:HL; minv_all; finish_commit.
Qed.
Lemma record_unstake_next env s L addr b m h s' :
  vs_rep s L -> record_unstake env addr b m h s = (Ok tt, s') -> next L s'.
Proof.
  intros H Hrun. unfold record_unstake in Hrun. minv. open_state L.
  destruct (L addr) eqn:HL; minv_all; finish_commit.
Qed.

Lemma record_stake_slash_next env s L addr b m h s' :
  vs_rep s L -> record_stake_slash env addr b m h s = (Ok tt, s') -> next L s'.
Proof.
  intros H Hrun. unfold record_stake_slash in Hrun. minv. open_state L.
  destruct (L addr) eqn:HL; minv_all; finish_commit.
Qed.

Lemma deactivate_next env s L caller addr s' :
  vs_rep s L -> deactivate_validator env caller addr s = (Ok tt, s') -> next L s'.
Proof.
  intros H Hrun. unfold deactivate_validator in Hrun. minv. open_state L.
  destruct (L addr) eqn:HL; minv_all; finish_commit.
Qed.

Lemma unjail_next env s L addr s' :
  vs_rep s L -> unjail_after_stake_check env addr s = (Ok tt, s') -> next L s'.
Proof.
  intros H Hrun. unfold unjail_after_stake_check in Hrun. minv. open_state L.
  destruct (L addr) eqn:HL; minv_all; finish_commit.
Qed.

Lemma punish_next env s L addr jailing r s' :
  vs_rep s L -> punish_validator env addr jailing s = (Ok r, s') -> next L s'.
Proof.
  intros H Hrun. unfold punish_validator in Hrun. minv. open_state L.
  destruct (L addr) eqn:HL; minv_all; try (by exists L; split; [done|apply moves_refl]);
    finish_commit.
Qed.

Lemma tee_expiry_next env s L addr r s' :
  vs_rep s L -> jail_validator_for_tee_expiry env addr s = (Ok r, s') -> next L s'.
Proof.
  intros H Hrun. unfold jail_validator_for_tee_expiry in Hrun. minv. open_state L.
  destruct (L addr) eqn:HL; minv_all; try (by exists L; split; [done|apply moves_refl]);
    finish_commit.
Qed.

Lemma complete_unbonding_next s L addr s' :
  vs_rep s L -> vs_complete_unbonding addr s = (Ok tt, s') -> next L s'.
Proof.
  intros H Hrun. unfold vs_complete_unbonding in Hrun. minv. open_state L.
  destruct (L addr) eqn:HL; minv_all; try (by exists L; split; [done|apply moves_refl]).
  eapply persist_moves; [eassumption..| |eassumption]. path.
Qed.

Lemma set_p2p_address_next s L caller addr version encoded s' :
  vs_rep s L -> Forall byte encoded ->
  set_p2p_address caller addr version encoded s = (Ok tt, s') -> next L s'.
Proof.
  intros H Hb Hrun. unfold set_p2p_address in Hrun. minv. open_state L. bprop. subst.
  unfold decode_versioned in *. simpl in *. minv_all.
  match goal with Hd : decode_v1 _ = inr _ |- _ => apply encode_of_decode_v1 in Hd as [_ Hwf]; [|done] end.
  eapply persist_moves; [eassumption|reflexivity|eassumption| |eassumption].
  apply rtc_once. eapply step_with_p2p; [|eassumption]. done.
Qed.
Lemma next_unchanged s s' L :
  same_registry s s' -> fields s' = fields s ->
  delegate_by_validator_role s' = delegate_by_validator_role s ->
  validator_by_role_delegate s' = validator_by_role_delegate s ->
  val_ocomp_registration s' = val_ocomp_registration s ->
  ocomp_key_hash_to_validator s' = ocomp_key_hash_to_validator s ->
  vs_rep s L -> next L s'.
Proof. intros. exists L. split; [by eapply next_same|apply moves_refl]. Qed.

Lemma ocomp_miss_next env s L addr r s' :
  vs_rep s L -> record_ocomp_miss env addr s = (Ok r, s') -> next L s'.
Proof.
  intros H Hrun. unfold record_ocomp_miss in Hrun. minv_all; (eapply next_unchanged; [..|exact H]); done.
Qed.

Lemma ocomp_bonded_slash_next s L addr b s' :
  vs_rep s L -> record_ocomp_bonded_slash addr b s = (Ok tt, s') -> next L s'.
Proof.
  intros H Hrun. unfold record_ocomp_bonded_slash in Hrun. minv. open_state L.
  eapply persist_moves; [eassumption|reflexivity|eassumption| |eassumption]. path.
Qed.

Lemma resolve_window_next s L addr d b o s' :
  vs_rep s L -> resolve_ocomp_recovery_window addr d b o s = (Ok tt, s') -> next L s'.
Proof.
  intros H Hrun. unfold resolve_ocomp_recovery_window, close_ocomp_recovery_window, vs_emit in Hrun.
  minv. (eapply next_unchanged; [..|exact H]); done.
Qed.

Lemma ocomp_admit s L caller encoded reg :
  let key_hash := ocomp_key_hash (oc_public_key_sec1 reg) in
  vs_rep s L -> L caller <> Absent -> ocomp_decode_canonical encoded = Some reg ->
  ((ocomp_key_hash_to_validator s).[key_hash] = 0
   \/ (ocomp_key_hash_to_validator s).[key_hash] = caller) ->
  vs_rep (s <| val_ocomp_registration := (val_ocomp_registration s).[caller <- encoded] |>
            <| ocomp_key_hash_to_validator :=
                 (ocomp_key_hash_to_validator s).[key_hash <- caller] |>) L.
Proof.
  intros key_hash [Hc Hd Ho] Hreg Hdec Howner. constructor;
    [eapply (core_rep_frame s); [by split_and!|done|exact Hc]|by destruct Hd|].
  intros a. simpl. destruct (decide (caller = a)) as [<-|Hne]; mcase.
  - intros _. split; [intros ->; by rewrite (cr_zero _ _ _ Hc) in Hreg|].
    exists reg. split; [done|]. by mcase.
  - intros Ha. destruct (Ho a Ha) as (Ha0 & reg' & Hdec' & Hown). split; [done|].
    exists reg'. split; [done|]. mcase; [|done].
    exfalso. subst key_hash. rewrite e in Howner. intuition congruence.
Qed.

Lemma confirm_ready_next env s L caller encoded s' :
  vs_rep s L -> confirm_validator_ready env caller encoded s = (Ok tt, s') -> next L s'.
Proof.
  intros H Hrun. unfold confirm_validator_ready, signal_set_change in Hrun. minv. open_state L.
  assert (s9 = s) as -> by (eapply ro_run; [|eassumption]; solve_ro).
  assert (Hp : rtc (lifecycle_step false) (L caller) x0).
  { destruct (L caller) eqn:HL; simpl in *; minv; try done; path. }
  eapply (persist_next _ L) in H14; [|apply ocomp_admit; eauto using pubkey_some|eassumption|exact Hp].
  - destruct H14 as [Hr _]. exists (<[caller := x0]> L). split; [|by apply moves_insert].
    by eapply next_same; [..|exact Hr].
  - bprop. destruct H11; bprop; auto.
Qed.
(** ** Participation counters *)

#[local] Instance StoredValidator_eta : Eta StoredValidator := fun r =>
  mkStored (sv_pubkey r) (sv_stake r) (sv_status r) (sv_slash_count r) (sv_missed_blocks r)
    (sv_missed_votes r) (sv_blocks_proposed r) (sv_joined_at_height r)
    (sv_deactivated_at_height r) (sv_unbonding_end r) (sv_has_bls_share r) (sv_p2p_version r)
    (sv_p2p_payload r) (sv_join_confirmed r) (sv_jailed_at_height r).

Lemma with_history_counters l blocks votes proposed :
  valid l -> l <> Absent -> exists h l',
    with_history l h = Ok l'
    /\ encode_row l' = (encode_row l) <| sv_missed_blocks := blocks |> <| sv_missed_votes := votes |>
                                      <| sv_blocks_proposed := proposed |>.
Proof.
  intros (_ & _ & Hh) Hl.
  assert (exists h0, lifecycle_history l = Some h0) as [h0 Hh0] by (destruct l; simpl; eauto; done).
  destruct (Hh h0 Hh0) as [Hz Hs]. clear Hh.
  exists (h0 <| missed_blocks := blocks |> <| missed_votes := votes |> <| blocks_proposed := proposed |>).
  unfold with_history. cbn [last_deactivated_at_height set]. rewrite (bool_decide_eq_false_2 _ Hz).
  destruct l; simpl in *; simplify_eq; try done; rewrite ?Hs;
    try rewrite bool_decide_eq_false_2 by
      first [done|by intros Hn; apply Hn|by intros [? Hn]].
  all: eexists; split; [reflexivity|];
    unfold encode_row, bonded_stake, state_unbonding_end_hint; simpl;
    match goal with |- context [p2p_encode_stored ?p] => by destruct (p2p_encode_stored p) end.
Qed.

Lemma counters_next s L a blocks votes proposed f :
  vs_rep s L -> L a <> Absent ->
  row f a = (row (fields s) a) <| sv_missed_blocks := blocks |> <| sv_missed_votes := votes |>
                               <| sv_blocks_proposed := proposed |> ->
  (forall b, b <> a -> row f b = row (fields s) b) ->
  next L (upd s f).
Proof.
  intros [Hc Hd Ho] Ha Hrow Hframe. destruct (cr_valid _ _ _ Hc a) as [Hv Hwf].
  destruct (with_history_counters (L a) blocks votes proposed Hv Ha) as (h & l & Hw & Henc).
  assert (Hstep : lifecycle_step false (L a) l) by (by eapply step_with_history).
  destruct (step_valid _ _ _ Hstep Hv Hwf) as [Hv' Hwf'].
  assert (Hid : lifecycle_registry_index l = lifecycle_registry_index (L a)
                /\ lifecycle_consensus_pubkey l = lifecycle_consensus_pubkey (L a)).
  { unfold with_history in Hw. destruct (L a); minv_all; done. }
  destruct Hid as [Hi Hk].
  exists (<[a := l]> L). split; [|by apply moves_insert, rtc_once]. constructor.
  - apply rep_update; try done. rewrite Hrow, Henc. f_equal. f_equal. f_equal. apply (cr_row _ _ _ Hc).
  - destruct Hd as [D1 D2]. constructor; [done|]. intros r d Hd.
    destruct (D2 r d Hd) as (?&?&?&?). split_and!; try done. by apply absent_stable.
  - done.
Qed.
Lemma next_trans L0 s s' : next L0 s -> (forall L, vs_rep s L -> next L s') -> next L0 s'.
Proof.
  intros (L & Hr & Hm) Hn. destruct (Hn L Hr) as (L' & Hr' & Hm').
  exists L'. split; [done|]. by eapply moves_trans.
Qed.
Lemma next_refl s L : vs_rep s L -> next L s.
Proof. intros H. exists L. split; [done|apply moves_refl]. Qed.

Lemma mfor_next {A} (l : list A) (m : A -> VM unit) s L s' :
  (forall x s1 L1 s2, x ∈ l -> vs_rep s1 L1 -> m x s1 = (Ok tt, s2) -> next L1 s2) ->
  vs_rep s L -> mfor l m s = (Ok tt, s') -> next L s'.
Proof.
  intros Hm Hr. apply (mfor_inv (next L)); [|by apply next_refl].
  intros x s1 s2 Hx H1 Hrun. eapply next_trans; [exact H1|]. intros L1 HL1. by eapply Hm.
Qed.

Lemma participant_registered l : is_current_consensus_participant l = true -> l <> Absent.
Proof. by destruct l. Qed.

Lemma rep_participant s L a b :
  vs_rep s L -> is_consensus_participant s a = Ok b ->
  b = is_current_consensus_participant (L a).
Proof.
  intros Hr. unfold is_consensus_participant. rewrite (rep_lifecycle _ _ _ _ (vr_core _ _ Hr)).
  simpl. congruence.
Qed.
Lemma rep_is_validator s L a b :
  vs_rep s L -> is_validator s a = Ok b -> b = true <-> L a <> Absent.
Proof.
  intros Hr. unfold is_validator. rewrite (rep_state _ _ _ _ (vr_core _ _ Hr)). simpl.
  intros [= <-]. unfold is_registered. simpl. by destruct (L a).
Qed.

End Calls.

(** What the membership checks of a run say about the invariant's lifecycles. *)
Ltac open_membership L :=
  subst;
  match goal with
  | Hr : vs_rep ?s L, H : is_consensus_participant ?s _ = Ok _ |- _ =>
      apply (rep_participant _ _ _ _ Hr) in H; symmetry in H; apply participant_registered in H
  | Hr : vs_rep ?s L, H : is_validator ?s ?a = Ok _ |- _ =>
      apply (rep_is_validator _ _ _ _ Hr) in H; assert (L a <> Absent) by (by apply H)
  | Hr : vs_rep ?s L, H : validator_lifecycle ?s _ = Ok _ |- _ =>
      rewrite (rep_lifecycle _ _ _ _ (vr_core _ _ Hr)) in H
  end.

Section Participation.
Context {X : Externals}.

Lemma record_proposer_next s L a s' :
  vs_rep s L -> record_proposer a s = (Ok tt, s') -> next L s'.
Proof.
  intros Hr Hrun. unfold record_proposer in Hrun. minv.
  open_membership L.
  eapply (counters_next s L a); [done..| |].
  - unfold row, read_consensus_pubkey. simpl. mcase. reflexivity.
  - intros b Hb. unfold row, read_consensus_pubkey. simpl. by mcase.
Qed.

Lemma count_missed_vote_next s L a s' :
  vs_rep s L -> L a <> Absent -> count_missed_vote a s = (Ok tt, s') -> next L s'.
Proof.
  intros Hr Ha Hrun. unfold count_missed_vote in Hrun. minv.
  eapply (counters_next s L a); [done..| |].
  - unfold row, read_consensus_pubkey. simpl. mcase. reflexivity.
  - intros b Hb. unfold row, read_consensus_pubkey. simpl. by mcase.
Qed.

Lemma reset_epoch_counters_next s L s' :
  vs_rep s L -> reset_epoch_counters s = (Ok tt, s') -> next L s'.
Proof.
  intros Hr Hrun. unfold reset_epoch_counters in Hrun. minv.
  eapply mfor_next; [|exact Hr|eassumption]. clear. intros a s L s' _ Hr Hrun. cbv beta in Hrun.
  minv. open_membership L.
  destruct (L a) eqn:HL; simplify_eq; minv; try by apply next_refl.
  all: eapply (counters_next s L a); [done|by rewrite HL| |].
  all: try (intros b Hb); unfold row, read_consensus_pubkey; simpl; mcase; reflexivity.
Qed.

Lemma participation_next s L voters absent s' :
  vs_rep s L -> record_participation voters absent s = (Ok tt, s') -> next L s'.
Proof.
  intros Hr Hrun. unfold record_participation in Hrun. minv.
  assert (s0 = s) as -> by (eapply ro_run; [|eassumption]; solve_ro).
  eapply mfor_next; [|exact Hr|eassumption]. clear. intros a s L s' _ Hr Hrun. cbv beta in Hrun.
  minv. open_membership L. by eapply count_missed_vote_next.
Qed.

Lemma finalized_participation_next s L voters absent s' :
  vs_rep s L -> record_finalized_participation voters absent s = (Ok tt, s') -> next L s'.
Proof.
  intros Hr Hrun. unfold record_finalized_participation in Hrun. minv.
  assert (s0 = s) as -> by (eapply ro_run; [|eassumption]; solve_ro).
  eapply mfor_next; [|exact Hr|eassumption]. clear. intros a s L s' _ Hr Hrun. cbv beta in Hrun.
  minv. open_membership L. by eapply count_missed_vote_next.
Qed.

Lemma hook_finalized_next s L fb voters absent s' :
  vs_rep s L -> hook_record_finalized_participation fb voters absent s = (Ok tt, s') -> next L s'.
Proof.
  intros Hr Hrun. unfold hook_record_finalized_participation in Hrun.
  minv_all; try by apply next_refl.
  eapply next_trans; [by eapply finalized_participation_next|]. intros L1 Hr1.
  match goal with H : when ?c _ _ = _ |- _ => destruct c; simpl in H end; minv; (eapply next_unchanged; [..|exact Hr1]); done.
Qed.

Lemma advance_epoch_next s L t h s' :
  vs_rep s L -> advance_epoch t h s = (Ok tt, s') -> next L s'.
Proof.
  intros Hr Hrun. unfold advance_epoch, vs_emit in Hrun. minv.
  (eapply next_unchanged; [..|exact Hr]); done.
Qed.
(** ** Delegates *)

Lemma rep_get_validator s L a r :
  vs_rep s L -> get_validator s a = Ok r -> (is_Some r <-> L a <> Absent)
  /\ (forall rec, r = Some rec -> vr_status rec = default 0 (stored_status (L a))
        /\ vr_has_bls_share rec = has_bls_share (L a)).
Proof.
  intros Hr. unfold get_validator, read_validator_record.
  rewrite (cr_index _ _ _ (vr_core _ _ Hr)), (rep_state _ _ _ _ (vr_core _ _ Hr)).
  destruct (cr_valid _ _ _ (vr_core _ _ Hr) a) as [_ Hwf].
  destruct (lifecycle_registry_index (L a)) as [i|] eqn:Hi; simpl.
  - pose proof (index_nonzero _ _ Hwf Hi) as Hnz. rewrite (proj2 (Z.eqb_neq _ _) Hnz).
    destruct (L a) eqn:HL; simpl in *; try done; intros [= <-];
      (split; [split; [done|by eexists]|naive_solver]).
  - apply registry_absent in Hi. rewrite Hi. intros [= <-]. split; [|done].
    split; [by intros [? ?]|done].
Qed.

(** Replacing the delegate of one validator and role. *)
Lemma delegates_assign s s' L v r d :
  delegates_ok s L -> v <> 0 -> d <> 0 -> L d = Absent -> (r = role_id Oracle \/ r = role_id Ocomp) ->
  ((validator_by_role_delegate s).[(r, d)] = 0 \/ (validator_by_role_delegate s).[(r, d)] = v) ->
  let previous := (delegate_by_validator_role s).[(v, r)] in
  previous <> d ->
  delegate_by_validator_role s' = (delegate_by_validator_role s).[(v, r) <- d] ->
  (forall k, k <> (r, d) -> (k <> (r, previous) \/ previous = 0) ->
     (validator_by_role_delegate s').[k] = (validator_by_role_delegate s).[k]) ->
  (previous <> 0 -> (validator_by_role_delegate s').[(r, previous)] = 0) ->
  (validator_by_role_delegate s').[(r, d)] = v ->
  delegates_ok s' L.
Proof.
  intros [D1 D2] Hv Hd Hld Hrole Hown previous Hprev Ef Hsame Hclear Hnew. constructor.
  - intros v' r'. rewrite Ef, mread_mwrite. case_decide as Hk.
    { injection Hk as <- <-. auto. }
    intros Hf. destruct (D1 v' r' Hf) as [Hv' Hrev]. split; [done|].
    rewrite Hsame; [done| |].
    + intros Hk'. rewrite Hk' in Hrev. injection Hk' as -> _. destruct Hown; congruence.
    + destruct (decide (previous = 0)) as [|Hp]; [by right|left]. intros Hk'.
      rewrite Hk' in Hrev. injection Hk' as -> _.
      destruct (D1 v r Hp) as [_ Hrev']. fold previous in Hrev'. congruence.
  - intros r' d'. destruct (decide ((r', d') = (r, d))) as [[= -> ->]|Hne].
    { rewrite Hnew. intros _. rewrite Ef, mread_mwrite_eq. done. }
    destruct (decide ((r', d') = (r, previous) /\ previous <> 0)) as [[[= -> ->] Hp]|Hnp].
    { by rewrite Hclear. }
    rewrite Hsame by (done || (destruct (decide (previous = 0)); [by right|left; tauto])).
    intros Hf. destruct (D2 r' d' Hf) as (Hfw & Hd0 & ? & ?). split_and!; try done.
    rewrite Ef, mread_mwrite. case_decide as Hk; [|done]. exfalso. apply Hnp.
    rewrite <- Hk in Hfw. fold previous in Hfw. injection Hk as _ ->. split; congruence.
Qed.

Lemma vs_rep_delegates s s' L :
  vs_rep s L -> same_registry s s' -> fields s' = fields s ->
  val_ocomp_registration s' = val_ocomp_registration s ->
  ocomp_key_hash_to_validator s' = ocomp_key_hash_to_validator s ->
  delegates_ok s' L -> vs_rep s' L.
Proof.
  intros [Hc _ Ho] Hs Hf Ho1 Ho2 Hd. constructor; [|done|unfold ocomp_ok; by rewrite Ho1, Ho2].
  replace (validator_count s') with (validator_count s) by (symmetry; apply Hs).
  by eapply core_rep_frame.
Qed.

Lemma role_id_cases role : role_id role = role_id Oracle \/ role_id role = role_id Ocomp.
Proof. destruct role; auto. Qed.

Lemma set_delegate_next s L v role d s' :
  vs_rep s L -> set_delegate v role d s = (Ok tt, s') -> vs_rep s' L.
Proof.
  intros Hr Hrun. unfold set_delegate, ensure_registered_validator, vs_emit in Hrun. minv. bprop.
  match goal with H : get_validator s v = Ok _ |- _ => apply (rep_get_validator s L) in H as [Hv _]; [|done] end.
  match goal with H : get_validator s d = Ok _ |- _ => apply (rep_get_validator s L) in H as [Hd _]; [|done] end.
  minv_case; minv; [done|]. bprop.
  assert (Hld : L d = Absent) by (destruct (decide (lifecycle_registry_index (L d) = None)) as [E|E];
    [by apply registry_absent|exfalso; apply H3, Hd; intros E'; by rewrite E' in E]).
  assert (v <> 0) by (intros ->; apply Hv in H6; by rewrite (cr_zero _ _ _ (vr_core _ _ Hr)) in H6).
  assert (Hown : (validator_by_role_delegate s).[(role_id role, d)] = 0
                 \/ (validator_by_role_delegate s).[(role_id role, d)] = v)
    by (destruct H5; bprop; auto).
  match goal with H : when ?c _ _ = _ |- _ => destruct c eqn:Hp; simpl in H end; minv; bprop.
  all: eapply (vs_rep_delegates s); [done|by split_and!|done|done|done|].
  all: eapply (delegates_assign s _ L v (role_id role) d); try done;
    [apply Hr|apply role_id_cases|..]; simpl.
  - intros k Hk1 Hk2. rewrite !mread_mwrite_ne; [done|naive_solver|done].
  - intros _. rewrite mread_mwrite_ne by congruence. apply mread_mwrite_eq.
  - apply mread_mwrite_eq.
  - intros k Hk1 _. by rewrite mread_mwrite_ne.
  - apply mread_mwrite_eq.
Qed.

Lemma revoke_delegate_next s L v role s' :
  vs_rep s L -> revoke_delegate v role s = (Ok tt, s') -> vs_rep s' L.
Proof.
  intros Hr Hrun. unfold revoke_delegate, ensure_registered_validator, vs_emit in Hrun. minv.
  minv_case; minv; [done|]. bprop. destruct (vr_delegates _ _ Hr) as [D1 D2].
  eapply (vs_rep_delegates s); [done|by split_and!|done|done|done|].
  destruct (D1 _ _ Heqb) as [Hv Hrev]. constructor; simpl.
  - intros v' r'. rewrite mread_mwrite. case_decide as Hk; [done|]. intros Hf.
    destruct (D1 v' r' Hf) as [? Hrev']. split; [done|].
    rewrite mread_mwrite_ne; [done|]. intros Hk'. rewrite <- Hk' in Hrev'. congruence.
  - intros r' d'. rewrite mread_mwrite. case_decide as Hk; [done|]. intros Hf.
    destruct (D2 r' d' Hf) as (Hfw & ?). split; [|done].
    rewrite mread_mwrite_ne; [done|]. intros Hk'. rewrite <- Hk' in Hfw. congruence.
Qed.
End Participation.
