(* ===== verification/ValidatorSetMoves.v ===== *)
(** The registry calls that change membership keep the invariant: the committee
    boundary, registration and re-registration, and the cleanup sweep
    ([apply_reshared_set], [register_validator_inner] and
    [cleanup_inactive_validators] of [validatorset/src/runtime.rs]). *)

From stdpp Require Import functions.
From S2P Require Import Prelude Bytes P2pAddress Lifecycle ValidatorSet ValidatorSetInv.

Section Moves.
Context {X : Externals}.

(** * The enumerated registry *)

Definition registry (s : ValidatorSet) : list Address :=
  (fun i => (index_to_address s).[i]) <$> seqZ 1 (validator_count s).

Lemma rmap_pure {A B} (l : list A) (f : A -> result B) (g : A -> B) :
  (forall x, x ∈ l -> f x = Ok (g x)) -> rmap l f = Ok (g <$> l).
Proof.
  induction l as [|x l IH]; simpl; intros Hf; [done|].
  rewrite Hf by left. simpl. rewrite IH; [done|]. intros y Hy. apply Hf. by right.
Qed.

Lemma rep_addresses s L :
  core_rep s (validator_count s) L -> registered_validator_addresses s = Ok (registry s).
Proof.
  intros H. apply rmap_pure. intros i Hi. apply elem_of_seqZ in Hi.
  unfold validator_address_at.
  rewrite (proj2 (Z.eqb_neq i 0)) by lia. rewrite (proj2 (Z.ltb_ge _ _)) by lia. simpl.
  pose proof (cr_dense _ _ _ H i ltac:(lia)) as Hd.
  rewrite (proj2 (Z.eqb_neq (index_to_address s).[i] 0)).
  - rewrite (cr_index _ _ _ H), Hd. simpl. by rewrite Z.eqb_refl.
  - intros Hz. rewrite Hz in Hd. by rewrite (cr_zero _ _ _ H) in Hd.
Qed.

Lemma registry_elem s L a :
  core_rep s (validator_count s) L -> a ∈ registry s <-> L a <> Absent.
Proof.
  intros H. unfold registry. rewrite list_elem_of_fmap. split.
  - intros (i & -> & Hi). apply elem_of_seqZ in Hi.
    eapply registry_index_some, (cr_dense _ _ _ H). lia.
  - intros [i Hi]%not_absent_index. destruct (cr_slot _ _ _ H a i Hi) as [Hr Hs].
    exists i. split; [done|]. apply elem_of_seqZ. lia.
Qed.

Lemma registry_NoDup s L : core_rep s (validator_count s) L -> NoDup (registry s).
Proof.
  intros H. unfold registry. apply NoDup_fmap_2_strong; [|apply NoDup_seqZ].
  intros i j Hi Hj Heq. apply elem_of_seqZ in Hi, Hj.
  pose proof (cr_dense _ _ _ H i ltac:(lia)). pose proof (cr_dense _ _ _ H j ltac:(lia)). congruence.
Qed.

(** * The committee boundary *)

Lemma boundary_lifecycle_step s st freeze inc exp l :
  boundary_lifecycle s st freeze inc exp = Ok l ->
  lifecycle st = l \/ lifecycle_step true (lifecycle st) l.
Proof.
  unfold boundary_lifecycle. intros H.
  destruct (lifecycle st), inc, exp; simpl in H; minv_all; auto; right; constructor.
Qed.

(** What one planned transition is. *)
Definition planned (L : Address -> ValidatorLifecycle) (t : ValidatorState * ValidatorState) : Prop :=
  exists a l, t = (mkState a (L a), mkState a l)
    /\ (L a = l \/ lifecycle_step true (L a) l)
    /\ with_lifecycle (mkState a (L a)) l = Ok (mkState a l).

Lemma mfor_persist tr s L s' :
  vs_rep s L -> NoDup ((fun t => address t.1) <$> tr) -> Forall (planned L) tr ->
  mfor tr (fun '(before, after) => persist_validator_state_delta before after) s = (Ok tt, s') ->
  exists L', vs_rep s' L'
    /\ (forall t, t ∈ tr -> L' (address t.1) = lifecycle t.2)
    /\ (forall a, a ∉ (fun t => address t.1) <$> tr -> L' a = L a)
    /\ exists f, s' = upd s f.
Proof.
  revert s L. induction tr as [|t tr IH]; intros s L Hr Hnd Hpl Hrun; simpl in *; minv.
  { exists L. split_and!; [done|by intros t Ht; apply not_elem_of_nil in Ht|done|].
    exists (fields s). symmetry. apply upd_id. }
  apply Forall_cons in Hpl as [(a & l & -> & Hstep & Hw) Hpl]. apply NoDup_cons in Hnd as [Hna Hnd].
  simpl in *. destruct (cr_valid _ _ _ (vr_core _ _ Hr) a) as [Hva Hwa].
  assert (Hwf : wf_lifecycle l).
  { destruct Hstep as [<-|Hstep]; [done|]. by eapply step_valid. }
  match goal with H : persist_validator_state_delta _ _ _ = _ |- _ =>
    destruct (persist_wf_next _ _ _ _ _ _ Hr Hw Hwf H) as [Hr1 [f ->]] end.
  assert (Hpl' : Forall (planned (<[a := l]> L)) tr).
  { rewrite Forall_forall in Hpl |- *. intros t Ht. destruct (Hpl t Ht) as (a' & l' & -> & ? & ?).
    assert (a <> a').
    { intros ->. apply Hna. apply list_elem_of_fmap.
      by exists (mkState a' (L a'), mkState a' l'). }
    exists a', l'. by rewrite fn_lookup_insert_ne. }
  destruct (IH _ _ Hr1 Hnd Hpl' ltac:(eassumption)) as (L' & Hr' & Hin & Hout & (f' & ->)).
  exists L'. split_and!; [done| | |by eexists].
  - intros t [->|Ht]%elem_of_cons; [|by apply Hin]. simpl.
    rewrite Hout by done. by rewrite fn_lookup_insert.
  - intros b Hb. rewrite not_elem_of_cons in Hb. rewrite Hout by apply Hb.
    rewrite fn_lookup_insert_ne; [done|]. intros ->. by destruct Hb.
Qed.
Lemma rmap_ok {A B} (l : list A) (f : A -> result B) r :
  rmap l f = Ok r -> Forall2 (fun x y => f x = Ok y) l r.
Proof.
  revert r. induction l as [|x l IH]; simpl; intros r H; minv; [constructor|].
  constructor; auto.
Qed.

(** A list with as many members as a duplicate-free list it is part of. *)
Lemma participants_permutation (ps new_set : list Address) :
  NoDup ps -> length ps = length new_set -> (forall a, a ∈ ps -> a ∈ new_set) -> ps ≡ₚ new_set.
Proof.
  intros Hnd Hlen Hin. apply submseteq_length_Permutation; [by apply NoDup_submseteq|lia].
Qed.

(** The members of the planned committee. *)
Definition planned_participants (tr : list (ValidatorState * ValidatorState)) : list Address :=
  address <$> filter (fun st => is_current_consensus_participant (lifecycle st) = true) (snd <$> tr).

Lemma planned_addresses L tr :
  Forall (planned L) tr -> (fun t => address t.1) <$> tr = address <$> (snd <$> tr).
Proof.
  induction 1 as [|t tr (a & l & -> & _) _ IH]; [done|]. simpl in *. by f_equal.
Qed.

Lemma plan_transition_ok s L new_set freeze excl a t :
  plan_transition s new_set freeze excl (mkState a (L a)) = Ok t ->
  planned L t /\ address t.1 = a
  /\ boundary_lifecycle s t.1 freeze (bool_decide (address t.1 ∈ new_set))
       (bool_decide (address t.1 ∈ excl)) = Ok (lifecycle t.2).
Proof.
  unfold plan_transition. intros H. minv.
  match goal with H : with_lifecycle _ _ = Ok _ |- _ => destruct (with_lifecycle_ok _ _ _ H) as [-> _] end.
  simpl in *. split; [|done]. eexists _, _. split; [done|]. split; [|done].
  by eapply (boundary_lifecycle_step s (mkState a (L a))).
Qed.

Lemma plan_boundary_ok s L new_set freeze excl tr :
  vs_rep s L -> plan_boundary s new_set freeze excl = Ok tr ->
  Forall (planned L) tr
  /\ (fun t => address t.1) <$> tr = registry s
  /\ planned_participants tr ≡ₚ new_set
  /\ Forall (fun t => boundary_lifecycle s t.1 freeze (bool_decide (address t.1 ∈ new_set))
                        (bool_decide (address t.1 ∈ excl)) = Ok (lifecycle t.2)) tr.
Proof.
  intros Hr H. unfold plan_boundary in H. minv. bprop.
  rewrite (rep_addresses s L (vr_core _ _ Hr)) in *. simplify_eq.
  pose proof (rmap_pure (registry s) (validator_state s) (fun a => mkState a (L a))
    (fun a _ => rep_state _ _ _ a (vr_core _ _ Hr))) as Hst.
  rewrite Hst in H1. simplify_eq. apply rmap_ok, Forall2_fmap_l in H2.
  assert (Hall : Forall2 (fun a t => planned L t /\ address t.1 = a
     /\ boundary_lifecycle s t.1 freeze (bool_decide (address t.1 ∈ new_set))
          (bool_decide (address t.1 ∈ excl)) = Ok (lifecycle t.2)) (registry s) x2).
  { eapply Forall2_impl; [exact H2|]. intros a t. apply plan_transition_ok. }
  assert (Hpl : Forall (planned L) x2).
  { eapply Forall2_Forall_r; [exact Hall|]. apply Forall_forall. naive_solver. }
  assert (Haddr : (fun t => address t.1) <$> x2 = registry s).
  { clear -Hall. induction Hall as [|a t as' ts (_ & <- & _) _ IH]; [done|]. simpl in *. by f_equal. }
  split_and!; [done|done| |].
  - apply participants_permutation; [|done|].
    + eapply (sublist_NoDup _ (registry s)); [by eapply registry_NoDup, vr_core|].
      rewrite <- Haddr, (planned_addresses L) by done. apply fmap_sublist, sublist_filter.
    + intros a Ha. rewrite forallb_forall in H4. apply list_elem_of_In, H4 in Ha. by bprop.
  - eapply Forall2_Forall_r; [exact Hall|]. apply Forall_forall. naive_solver.
Qed.
(** One validator across a boundary: it stays or takes a boundary step, and an
    activated joiner has been admitted to OCOMP. *)
Definition boundary_move (s : ValidatorSet) (a : Address) (l l' : ValidatorLifecycle) : Prop :=
  (l = l' \/ lifecycle_step true l l')
  /\ (has_bls_share l = false -> has_bls_share l' = true -> (val_ocomp_registration s).[a] <> []).

Lemma boundary_admitted s st freeze inc exp l :
  boundary_lifecycle s st freeze inc exp = Ok l ->
  has_bls_share (lifecycle st) = false -> has_bls_share l = true ->
  (val_ocomp_registration s).[address st] <> [].
Proof.
  unfold boundary_lifecycle, ocomp_registration. intros H Hb Hb'.
  destruct (lifecycle st), inc, exp; simpl in *; try done; minv_all; try done.
  bprop. done.
Qed.

Lemma participant_share l : is_current_consensus_participant l = has_bls_share l.
Proof. by destruct l. Qed.

Lemma planned_participants_spec L tr a :
  Forall (planned L) tr -> NoDup ((fun t => address t.1) <$> tr) ->
  a ∈ planned_participants tr <->
  exists t, t ∈ tr /\ address t.1 = a /\ has_bls_share (lifecycle t.2) = true.
Proof.
  intros Hpl Hnd. unfold planned_participants. rewrite list_elem_of_fmap. split.
  - intros (st & -> & [Hp (t & -> & Ht)%list_elem_of_fmap]%list_elem_of_filter).
    exists t. rewrite Forall_forall in Hpl. destruct (Hpl t Ht) as (b & l & -> & _). simpl in *.
    by rewrite participant_share in Hp.
  - intros (t & Ht & <- & Hs). exists t.2. rewrite Forall_forall in Hpl.
    destruct (Hpl t Ht) as (b & l & -> & _). simpl in *. split; [done|].
    apply list_elem_of_filter. rewrite participant_share. split; [done|].
    apply list_elem_of_fmap. by exists (mkState b (L b), mkState b l).
Qed.

Lemma apply_reshared_set_next s L new_set hash freeze excl s' :
  vs_rep s L -> apply_reshared_set new_set hash freeze excl s = (Ok tt, s') ->
  exists L', vs_rep s' L'
    /\ (forall a, boundary_move s a (L a) (L' a))
    /\ (forall a, has_bls_share (L' a) = true <-> a ∈ new_set)
    /\ active_consensus_set_hash s' = hash.
Proof.
  intros Hr Hrun. unfold apply_reshared_set, signal_set_change, vs_emit in Hrun. minv.
  match goal with H : plan_boundary _ _ _ _ = Ok _ |- _ =>
    destruct (plan_boundary_ok _ _ _ _ _ _ Hr H) as (Hpl & Haddr & Hperm & Hbl) end.
  assert (Hnd : NoDup ((fun t : ValidatorState * ValidatorState => address t.1) <$> x))
    by (rewrite Haddr; by eapply registry_NoDup, vr_core).
  match goal with H : mfor _ _ _ = _ |- _ =>
    destruct (mfor_persist _ _ _ _ Hr Hnd Hpl H) as (L' & Hr' & Hin & Hout & (f & ->)) end.
  rewrite Forall_forall in Hbl. pose proof Hpl as Hpl'. rewrite Forall_forall in Hpl'.
  assert (Hcase : forall a, (exists t, t ∈ x /\ address t.1 = a) \/ L a = Absent /\ L' a = L a).
  { intros a. destruct (decide (a ∈ registry s)) as [Ha|Ha].
    - left. rewrite <- Haddr, list_elem_of_fmap in Ha. naive_solver.
    - right. split; [|by apply Hout; rewrite Haddr]. apply registry_absent.
      rewrite (registry_elem s L) in Ha by apply Hr.
      destruct (lifecycle_registry_index (L a)) eqn:E; [|done].
      destruct Ha. by eapply registry_index_some. }
  exists L'. split_and!; [by eapply next_same; [..|exact Hr']| | |done].
  - intros a. destruct (Hcase a) as [(t & Ht & <-)|[Ha ->]]; [|rewrite Ha; split; [by left|done]].
    rewrite (Hin t Ht). specialize (Hbl t Ht). destruct (Hpl' t Ht) as (b & l & -> & Hm & _).
    simpl in *. split; [done|]. intros. by eapply (boundary_admitted s (mkState b (L b))).
  - intros a. rewrite <- Hperm, (planned_participants_spec L) by done. split.
    + intros Hs. destruct (Hcase a) as [(t & Ht & <-)|[Ha Ha']].
      * exists t. by rewrite (Hin t Ht) in Hs.
      * by rewrite Ha', Ha in Hs.
    + intros (t & Ht & <- & Hs). by rewrite (Hin t Ht).
Qed.

Lemma boundary_next s L new_set hash freeze excl s' :
  vs_rep s L ->
  activate_validated_boundary_set_with_expiry_exclusions new_set hash freeze excl s = (Ok tt, s') ->
  exists L', vs_rep s' L'
    /\ (forall a, boundary_move s a (L a) (L' a))
    /\ (forall a, has_bls_share (L' a) = true <-> a ∈ new_set)
    /\ active_consensus_set_hash s' = hash.
Proof.
  intros Hr Hrun. unfold activate_validated_boundary_set_with_expiry_exclusions in Hrun.
  minv_case; minv; by eapply apply_reshared_set_next.
Qed.
(** * Registration *)

Definition fresh_validator (index pubkey joined : Z) : ValidatorLifecycle :=
  WaitingForStake (mkPayload index pubkey Unset stake_zero (history_fresh joined)).

Lemma fresh_valid index pubkey joined :
  pubkey <> 0 -> index <> 0 ->
  valid (fresh_validator index pubkey joined) /\ wf_lifecycle (fresh_validator index pubkey joined).
Proof. intros. split; [|done]. split_and!; simpl; naive_solver. Qed.

(** Lookups in a lifecycle function updated at one address. *)
Ltac fn_case a b :=
  destruct (decide (a = b)) as [<-|];
  [rewrite ?fn_lookup_insert|rewrite ?fn_lookup_insert_ne by done].

Lemma register_first_core s s' L a pubkey node joined f :
  let n := validator_count s in
  let l := fresh_validator (n + 1) pubkey joined in
  core_rep s n L -> a <> 0 -> L a = Absent -> pubkey <> 0 -> node <> 0 -> n + 1 <= u32_max ->
  (consensus_pubkey_hash_to_address s).[consensus_pubkey_hash pubkey] = 0 ->
  (radicle_node_id_to_validator s).[node] = 0 ->
  row f a = encode_row l -> (forall b, b <> a -> row f b = row (fields s) b) ->
  fields s' = f ->
  address_to_index s' = (address_to_index s).[a <- n + 1] ->
  index_to_address s' = (index_to_address s).[n + 1 <- a] ->
  consensus_pubkey_hash_to_address s'
    = (consensus_pubkey_hash_to_address s).[consensus_pubkey_hash pubkey <- a] ->
  val_radicle_node_id s' = (val_radicle_node_id s).[a <- node] ->
  radicle_node_id_to_validator s' = (radicle_node_id_to_validator s).[node <- a] ->
  validator_count s' = n + 1 ->
  core_rep s' (n + 1) (<[a := l]> L).
Proof.
  intros n l H Ha0 Ha Hpk Hnode Hmax Hown Hrev Hrow Hframe Ef E1 E2 E3 E4 E5 E6.
  destruct (cr_count _ _ _ H) as [Hn _].
  destruct (fresh_valid (n + 1) pubkey joined Hpk ltac:(lia)) as [Hv Hwf]. fold l in Hv, Hwf.
  destruct H as [_ Crow Cvalid Cindex Cslot Cdense Cempty Ckey Cowner Cnode Cabsent Cnowner Czero].
  constructor; rewrite ?Ef, ?E1, ?E2, ?E3, ?E4, ?E5, ?E6.
  - lia.
  - intros b. fn_case a b; [done|]. rewrite Hframe; auto.
  - intros b. by fn_case a b.
  - intros b. rewrite mread_mwrite. fn_case a b; [done|auto].
  - intros b i. fn_case a b.
    + intros [= <-]. rewrite mread_mwrite_eq. split; [lia|done].
    + intros Hi. destruct (Cslot b i Hi). rewrite mread_mwrite_ne by lia. split; [lia|done].
  - intros i Hi. destruct (decide (i = n + 1)) as [->|Hne].
    + by rewrite mread_mwrite_eq, fn_lookup_insert.
    + rewrite mread_mwrite_ne by done. pose proof (Cdense i ltac:(lia)) as Hd.
      destruct (decide (a = (index_to_address s).[i])) as [E|E]; [by rewrite <- E, Ha in Hd|].
      by rewrite fn_lookup_insert_ne.
  - intros i Hi. rewrite mread_mwrite_ne by lia. apply Cempty. lia.
  - intros b k. fn_case a b.
    + intros [= <-]. apply mread_mwrite_eq.
    + intros Hk. pose proof (Ckey b k Hk) as Hb. rewrite mread_mwrite. case_decide as Hh; [|done].
      rewrite <- Hh, Hown in Hb. subst b. by rewrite Czero in Hk.
  - intros h. rewrite mread_mwrite. case_decide as Hh.
    + intros _. rewrite fn_lookup_insert. by exists pubkey.
    + intros Ho. destruct (Cowner h Ho) as (k & Hk & Hkh). exists k.
      rewrite fn_lookup_insert_ne; [done|]. intros Hx. by rewrite <- Hx, Ha in Hk.
  - intros b. fn_case a b.
    + intros _. by rewrite !mread_mwrite_eq.
    + intros Hb. destruct (Cnode b Hb) as [Hb0 Hb1]. rewrite mread_mwrite_ne by done.
      split; [done|]. rewrite mread_mwrite. case_decide as Hh; [|done].
      rewrite <- Hh, Hrev in Hb1. subst b. done.
  - intros b. fn_case a b; [done|]. intros Hb. rewrite mread_mwrite_ne by done. auto.
  - intros m. rewrite mread_mwrite. case_decide as Hh.
    + intros _. subst m. by rewrite mread_mwrite_eq.
    + intros Hm. destruct (Cnowner m Hm) as [? Hx]. split; [done|].
      rewrite mread_mwrite_ne; [done|]. intros Hy. rewrite <- Hy in Hx.
      by rewrite (Cabsent a Ha) in Hx.
  - by rewrite fn_lookup_insert_ne.
Qed.
Lemma reregister_core s s' n L a old pubkey l f :
  core_rep s n L -> lifecycle_consensus_pubkey (L a) = Some old ->
  valid l -> wf_lifecycle l ->
  lifecycle_registry_index l = lifecycle_registry_index (L a) ->
  lifecycle_consensus_pubkey l = Some pubkey ->
  ((consensus_pubkey_hash_to_address s).[consensus_pubkey_hash pubkey] = 0
   \/ (consensus_pubkey_hash_to_address s).[consensus_pubkey_hash pubkey] = a) ->
  row f a = encode_row l -> (forall b, b <> a -> row f b = row (fields s) b) ->
  fields s' = f ->
  address_to_index s' = address_to_index s ->
  index_to_address s' = index_to_address s ->
  consensus_pubkey_hash_to_address s'
    = ((consensus_pubkey_hash_to_address s).[consensus_pubkey_hash old <- 0])
        .[consensus_pubkey_hash pubkey <- a] ->
  val_radicle_node_id s' = val_radicle_node_id s ->
  radicle_node_id_to_validator s' = radicle_node_id_to_validator s ->
  validator_count s' = validator_count s ->
  core_rep s' n (<[a := l]> L).
Proof.
  intros H Hold Hv Hwf Hi Hpk Hown Hrow Hframe Ef E1 E2 E3 E4 E5 E6.
  assert (Hidx : forall b, lifecycle_registry_index ((<[a := l]> L) b) = lifecycle_registry_index (L b)).
  { intros b. by fn_case a b. }
  assert (Habs : forall b, (<[a := l]> L) b = Absent <-> L b = Absent).
  { intros b. by apply absent_stable. }
  destruct H as [C1 Crow Cvalid Cindex Cslot Cdense Cempty Ckey Cowner Cnode Cabsent Cnowner Czero].
  assert (Ha : (consensus_pubkey_hash_to_address s).[consensus_pubkey_hash old] = a) by auto.
  constructor; rewrite ?Ef, ?E1, ?E2, ?E3, ?E4, ?E5, ?E6; try done.
  - intros b. fn_case a b; [done|]. rewrite Hframe; auto.
  - intros b. by fn_case a b.
  - intros b. by rewrite Hidx.
  - intros b i. rewrite Hidx. apply Cslot.
  - intros i. rewrite Hidx. apply Cdense.
  - intros b k. fn_case a b.
    + intros Hk. rewrite Hpk in Hk. injection Hk as <-. apply mread_mwrite_eq.
    + intros Hk. pose proof (Ckey b k Hk) as Hb.
      assert (b <> 0) by (intros ->; by rewrite Czero in Hk).
      rewrite !mread_mwrite_ne; [done|congruence|intros Hh; rewrite <- Hh in Hb; intuition congruence].
  - intros h. rewrite mread_mwrite. case_decide as Hh.
    + intros _. rewrite fn_lookup_insert. by exists pubkey.
    + rewrite mread_mwrite. case_decide as Hh'; [done|]. intros Ho.
      destruct (Cowner h Ho) as (k & Hk & Hkh). exists k. rewrite fn_lookup_insert_ne; [done|].
      intros Hx. rewrite <- Hx in Hk. congruence.
  - intros b. rewrite Habs. apply Cnode.
  - intros b. rewrite Habs. apply Cabsent.
  - by apply Habs.
Qed.

Lemma delegates_register s s' L a l :
  delegates_ok s L -> delegate_by_validator_role s' = delegate_by_validator_role s ->
  validator_by_role_delegate s' = validator_by_role_delegate s ->
  ensure_not_operational_delegate s a = Ok tt -> delegates_ok s' (<[a := l]> L).
Proof.
  intros [D1 D2] E1 E2 Hno. constructor; rewrite ?E1, ?E2; [done|].
  intros r d Hd. destruct (D2 r d Hd) as (?&?&?&Hrole). split_and!; try done.
  fn_case a d; [|done]. exfalso.
  unfold ensure_not_operational_delegate in Hno. simpl in Hno. minv. bprop.
  destruct Hrole; subst; done.
Qed.
Lemma eqb_or x y u v : (x =? y) || (u =? v) = true -> x = y \/ u = v.
Proof. intros. bprop. destruct H; bprop; auto. Qed.

Lemma register_checks_ok env s caller a pubkey node sig pop :
  register_checks env s caller a pubkey node sig pop = Ok tt ->
  pubkey <> 0 /\ node <> 0 /\ (caller = config_owner s \/ caller = a)
  /\ ensure_not_operational_delegate s a = Ok tt
  /\ ((radicle_node_id_to_validator s).[node] = 0 \/ (radicle_node_id_to_validator s).[node] = a)
  /\ ((consensus_pubkey_hash_to_address s).[consensus_pubkey_hash pubkey] = 0
      \/ (consensus_pubkey_hash_to_address s).[consensus_pubkey_hash pubkey] = a)
  /\ (caller = a -> exists n, registered_count s = Ok n /\ n < MAX_SELF_REGISTERED_UNSTAKED)
  /\ (pop = false -> exists bytes, sig = Some bytes
        /\ verify_bls_registration_sig pubkey bytes (chain_id env) a node = Ok tt).
Proof.
  unfold register_checks. intros H. minv.
  repeat match goal with H : _ || _ = true |- _ => apply eqb_or in H end. bprop.
  split_and!; try done.
  - intros ->. rewrite Z.eqb_refl in *. minv. bprop. eauto.
  - intros ->. destruct sig as [bytes|]; minv; [|done]. by exists bytes.
Qed.

Lemma register_first_next env s L a pubkey node s' :
  vs_rep s L -> L a = Absent -> pubkey <> 0 -> node <> 0 ->
  ensure_not_operational_delegate s a = Ok tt ->
  ((radicle_node_id_to_validator s).[node] = 0 \/ (radicle_node_id_to_validator s).[node] = a) ->
  ((consensus_pubkey_hash_to_address s).[consensus_pubkey_hash pubkey] = 0
   \/ (consensus_pubkey_hash_to_address s).[consensus_pubkey_hash pubkey] = a) ->
  register_first env (mkState a Absent) a pubkey node s = (Ok tt, s') ->
  vs_rep s' (<[a := fresh_validator (validator_count s + 1) pubkey (block_number env)]> L)
  /\ validator_count s' = validator_count s + 1 /\ a <> 0
  /\ (0 < config_max_validators s -> validator_count s < config_max_validators s).
Proof.
  intros Hr Ha Hpk Hnode Hdel Hrad Hown Hrun.
  unfold register_first, signal_set_change, vs_emit, register in Hrun. minv. bprop. simpl in *.
  assert (Hfree : (radicle_node_id_to_validator s).[node] = 0) by (by destruct Hrad).
  assert (Ha0 : a <> 0) by congruence.
  rewrite (proj2 (Z.eqb_neq _ _) Hpk) in *.
  match goal with H : with_lifecycle _ _ = Ok _ |- _ => apply with_lifecycle_ok in H as [-> Hv] end.
  simpl in *. fold (fresh_validator (validator_count s + 1) pubkey (block_number env)) in *.
  match goal with H : persist_registry_state_delta _ _ _ = _ |- _ =>
    apply persist_inner_ok in H as ((f & -> & Hrow & Hframe) & _); [|by rewrite <- Ha; apply Hr] end.
  split; [|split_and!; [done..|intros; destruct H0; bprop; lia]].
  assert (Hown0 : (consensus_pubkey_hash_to_address s).[consensus_pubkey_hash pubkey] = 0).
  { destruct Hown as [|Hown]; [done|]. exfalso.
    destruct (cr_owner _ _ _ (vr_core _ _ Hr) (consensus_pubkey_hash pubkey)) as (k & Hk & _);
      [congruence|]. by rewrite Hown, Ha in Hk. }
  constructor.
  - eapply (register_first_core s _ L a pubkey node (block_number env) f); try done. apply Hr.
  - by eapply delegates_register; [apply Hr|..].
  - apply Hr.
Qed.
Lemma reregister_next env s L a idx pubkey node s' :
  vs_rep s L -> ensure_not_operational_delegate s a = Ok tt ->
  ((consensus_pubkey_hash_to_address s).[consensus_pubkey_hash pubkey] = 0
   \/ (consensus_pubkey_hash_to_address s).[consensus_pubkey_hash pubkey] = a) ->
  reregister_existing env (mkState a (L a)) idx a pubkey node s = (Ok tt, s') ->
  exists x y, L a = Inactive x /\ reregister x pubkey (block_number env) = Ok y
    /\ vs_rep s' (<[a := WaitingForStake y]> L)
    /\ validator_count s' = validator_count s.
Proof.
  intros Hr Hdel Hown Hrun. unfold reregister_existing, signal_set_change, vs_emit in Hrun. minv.
  match goal with H : (if 0 <? _ then _ else _) ?s0 = (Ok tt, ?s1) |- _ =>
    assert (s1 = s0) as -> by (eapply ro_run; [|exact H]; solve_ro) end.
  simpl in *. destruct (L a) eqn:HL; minv. simpl in *. minv.
  match goal with H : with_lifecycle _ _ = Ok _ |- _ => apply with_lifecycle_ok in H as [-> Hv] end.
  match goal with H : persist_registry_state_delta _ _ _ = _ |- _ =>
    apply persist_inner_ok in H as ((f & -> & Hrow & Hframe) & _); [|by simpl; rewrite <- HL; apply Hr] end.
  simpl in *. eexists _, _. split; [done|]. split; [eassumption|].
  split; [|done]. simplify_eq.
  match goal with H : reregister ?x _ _ = Ok ?y |- _ =>
    destruct (step_valid false (Inactive x) (WaitingForStake y)) as [_ Hwf];
      [by econstructor|rewrite <- HL; apply (cr_valid _ _ _ (vr_core _ _ Hr))..|];
    unfold reregister in H; destruct (pubkey =? 0); minv end.
  constructor.
  - eapply (reregister_core s _ _ L a _ pubkey _ f); try done; [apply Hr|..]; try by rewrite HL.
    by apply validate_valid.
  - by eapply delegates_register; [apply Hr|..].
  - apply Hr.
Qed.

Lemma register_next env s L caller a pubkey node sig pop s' :
  vs_rep s L ->
  register_validator_inner env caller a pubkey node sig pop s = (Ok tt, s') -> next L s'.
Proof.
  intros Hr Hrun. unfold register_validator_inner in Hrun. minv. open_state L.
  match goal with H : register_checks _ _ _ _ _ _ _ _ = Ok _ |- _ =>
    apply register_checks_ok in H as (Hpk & Hnode & _ & Hdel & Hrad & Hown & _) end.
  minv_case; simpl in *.
  - match goal with H : reregister_existing _ _ _ _ _ _ _ = _ |- _ =>
      apply (reregister_next _ _ L) in H as (x & y & HL & Hy & Hr' & _); [|done..] end.
    eexists. split; [exact Hr'|]. apply moves_insert. rewrite HL. path.
  - apply registry_absent in Heqo. rewrite Heqo in *.
    match goal with H : register_first _ _ _ _ _ _ = _ |- _ =>
      apply (register_first_next _ _ L) in H as (Hr' & _); [|done..] end.
    eexists. split; [exact Hr'|]. apply moves_insert. rewrite Heqo. apply rtc_once.
    pose proof (cr_count _ _ _ (vr_core _ _ Hr)).
    apply (step_register a (validator_count s + 1) pubkey (block_number env)
             (mkState a (fresh_validator (validator_count s + 1) pubkey (block_number env)))); [lia|].
    unfold register. simpl. rewrite (proj2 (Z.eqb_neq _ _) Hpk).
    fold (fresh_validator (validator_count s + 1) pubkey (block_number env)).
    unfold with_lifecycle, from_lifecycle, state_validate.
    cbn [lifecycle address]. rewrite valid_validate; [done|]. apply fresh_valid; [done|lia].
Qed.
(** * The cleanup sweep *)

(** The sweep moves the last entry into the freed slot, which changes the dense
    index of that validator and nothing else. *)
Definition reindex (l : ValidatorLifecycle) (i : Z) : ValidatorLifecycle :=
  match l with
  | Absent => Absent
  | WaitingForStake x => WaitingForStake (x <| registry_index := i |>)
  | WaitingForReadiness x => WaitingForReadiness (x <| registry_index := i |>)
  | Joining x => Joining (x <| registry_index := i |>)
  | Active x => Active (x <| registry_index := i |>)
  | JailRetained x => JailRetained (x <| jailed_base := (jailed_base x) <| registry_index := i |> |>)
  | Jail x => Jail (x <| jailed_base := (jailed_base x) <| registry_index := i |> |>)
  | Exiting x => Exiting (x <| registry_index := i |>)
  | Unbonding x => Unbonding (x <| registry_index := i |>)
  | Inactive x => Inactive (x <| in_registry_index := i |>)
  end.

(** Equal but for the dense index. *)
Definition reindexed (l l' : ValidatorLifecycle) : Prop := reindex l 0 = reindex l' 0.

#[export] Instance reindexed_equivalence : Equivalence reindexed.
Proof. split; repeat intro; unfold reindexed in *; congruence. Qed.

Lemma reindex_reindexed l i : reindexed l (reindex l i).
Proof. by destruct l. Qed.
Lemma reindex_index l i : l <> Absent -> lifecycle_registry_index (reindex l i) = Some i.
Proof. by destruct l. Qed.
Lemma reindex_pubkey l i : lifecycle_consensus_pubkey (reindex l i) = lifecycle_consensus_pubkey l.
Proof. by destruct l. Qed.
Lemma reindex_row l i : encode_row (reindex l i) = encode_row l.
Proof. by destruct l. Qed.
Lemma reindex_valid l i :
  i <> 0 -> valid l -> wf_lifecycle l -> valid (reindex l i) /\ wf_lifecycle (reindex l i).
Proof. intros. unfold valid, wf_lifecycle in *. destruct l; simpl in *; naive_solver. Qed.
Lemma reindexed_absent l l' : reindexed l l' -> l = Absent <-> l' = Absent.
Proof. unfold reindexed. destruct l, l'; simpl; naive_solver. Qed.
Lemma reindexed_share l l' : reindexed l l' -> has_bls_share l = has_bls_share l'.
Proof. unfold reindexed. destruct l, l'; simpl; naive_solver. Qed.
Lemma reindexed_history l l' : reindexed l l' -> lifecycle_history l = lifecycle_history l'.
Proof.
  unfold reindexed. destruct l, l'; simpl; intros H; try done; injection H; intros; subst; f_equal; done.
Qed.

(** Run a sequence of reads and writes on a storage record given by its fields. *)
Ltac run_modify H :=
  cbv [mbind gets modify when mret set read_consensus_pubkey fields
       config_owner config_max_validators config_epoch_length_blocks
       config_reregistration_cooldown config_unjail_cooldown_blocks address_to_index
       index_to_address consensus_pubkey_hash_to_address validator_count epoch_number
       epoch_start_timestamp epoch_start_block pending_set_change active_consensus_set_hash
       finalized_participation_recorded finalized_participation_ring
       finalized_participation_ring_seq delegate_by_validator_role validator_by_role_delegate
       val_ocomp_registration ocomp_key_hash_to_validator val_radicle_node_id
       radicle_node_id_to_validator val_ocomp_miss_count val_ocomp_recovery_deadline vs_events
       val_consensus_pubkey_lo val_consensus_pubkey_hi val_stake val_status val_slash_count
       val_missed_blocks val_missed_votes val_blocks_proposed val_joined_at_height
       val_deactivated_at_height val_unbonding_end val_has_bls_share val_p2p_address_version
       val_p2p_address_payload val_join_confirmed val_jailed_at_height] in H.

(** What clearing a validator leaves in the fields. *)
Lemma clear_validator_ok s a s' :
  clear_validator_storage a s = (Ok tt, s') ->
  exists f, fields s' = f
    /\ row f a = stored_empty /\ (forall b, b <> a -> row f b = row (fields s) b)
    /\ consensus_pubkey_hash_to_address s'
       = (consensus_pubkey_hash_to_address s).[consensus_pubkey_hash
           (read_consensus_pubkey (fields s) a) <- 0]
    /\ val_radicle_node_id s' = (val_radicle_node_id s).[a <- 0]
    /\ ((val_radicle_node_id s).[a] <> 0 -> radicle_node_id_to_validator s'
         = (radicle_node_id_to_validator s).[(val_radicle_node_id s).[a] <- 0])
    /\ val_ocomp_recovery_deadline s' = (val_ocomp_recovery_deadline s).[a <- 0]
    /\ address_to_index s' = address_to_index s /\ index_to_address s' = index_to_address s
    /\ validator_count s' = validator_count s
    /\ delegate_by_validator_role s' = delegate_by_validator_role s
    /\ validator_by_role_delegate s' = validator_by_role_delegate s
    /\ val_ocomp_registration s' = val_ocomp_registration s
    /\ ocomp_key_hash_to_validator s' = ocomp_key_hash_to_validator s.
Proof.
  destruct s as [c1 c2 c3 c4 c5 [f1 f2 f3 f4 f5 f6 f7 f8 f9 f10 f11 f12 f13 f14 f15 f16]
    r1 r2 r3 r4 e1 e2 e3 e4 e5 p1 p2 p3 d1 d2 o1 o2 n1 n2 m1 m2 ev].
  intros H. unfold clear_validator_storage, write_consensus_pubkey in H. run_modify H.
  destruct (n1.[a] =? 0) eqn:Hn; cbn [negb] in H; run_modify H;
    apply pair_equal_spec in H as [_ <-]; bprop;
    (eexists; split; [reflexivity|]); split_and!; try reflexivity; try done;
    unfold row, read_consensus_pubkey;
    cbn [val_consensus_pubkey_lo val_consensus_pubkey_hi val_stake val_status val_slash_count
      val_missed_blocks val_missed_votes val_blocks_proposed val_joined_at_height
      val_deactivated_at_height val_unbonding_end val_has_bls_share val_p2p_address_version
      val_p2p_address_payload val_join_confirmed val_jailed_at_height fields].
  1,3: by rewrite !mread_mwrite_eq.
  all: intros b Hb; rewrite !mread_mwrite_ne by congruence; done.
Qed.
(** The lifecycles after the entry [a] at index [i] of [n] is removed. *)
Definition removed (s : ValidatorSet) (L : Address -> ValidatorLifecycle) (a : Address) (i n : Z) :
    Address -> ValidatorLifecycle :=
  let last := (index_to_address s).[n] in
  <[a := Absent]> (if i <? n then <[last := reindex (L last) i]> L else L).

Lemma swap_remove_ok s a i n s' :
  swap_remove a i n s = (Ok tt, s') ->
  row (fields s') a = stored_empty /\ (forall b, b <> a -> row (fields s') b = row (fields s) b)
  /\ index_to_address s'
     = (if i <? n then (index_to_address s).[i <- (index_to_address s).[n]]
        else index_to_address s).[n <- 0]
  /\ address_to_index s'
     = (if i <? n then (address_to_index s).[(index_to_address s).[n] <- i]
        else address_to_index s).[a <- 0]
  /\ consensus_pubkey_hash_to_address s'
     = (consensus_pubkey_hash_to_address s).[consensus_pubkey_hash
         (read_consensus_pubkey (fields s) a) <- 0]
  /\ val_radicle_node_id s' = (val_radicle_node_id s).[a <- 0]
  /\ ((val_radicle_node_id s).[a] <> 0 -> radicle_node_id_to_validator s'
       = (radicle_node_id_to_validator s).[(val_radicle_node_id s).[a] <- 0])
  /\ val_ocomp_recovery_deadline s' = (val_ocomp_recovery_deadline s).[a <- 0]
  /\ validator_count s' = validator_count s
  /\ delegate_by_validator_role s' = delegate_by_validator_role s
  /\ validator_by_role_delegate s' = validator_by_role_delegate s
  /\ val_ocomp_registration s' = val_ocomp_registration s
  /\ ocomp_key_hash_to_validator s' = ocomp_key_hash_to_validator s.
Proof.
  unfold swap_remove. intros H. minv.
  match goal with H : clear_validator_storage _ _ = _ |- _ => apply clear_validator_ok in H as
    (f & <- & Hrow & Hframe & E3 & E4 & E5 & E6 & F1 & F2 & F3 & F4 & F5 & F6 & F7) end.
  rewrite <- F1, <- F2, <- F3, <- F4, <- F5, <- F6, <- F7, <- E3, <- E4, <- E6.
  destruct (i <? n); simpl in *; minv; split_and!; done.
Qed.

Lemma removed_lookup s L a i n b :
  core_rep s n L -> (index_to_address s).[i] = a -> 1 <= i <= n ->
  let last := (index_to_address s).[n] in
  removed s L a i n b =
    if decide (b = a) then Absent
    else if decide (b = last /\ i < n) then reindex (L b) i else L b.
Proof.
  intros H Ha Hi last. unfold removed. fold last. case_decide as Hb.
  { by rewrite Hb, fn_lookup_insert. }
  rewrite fn_lookup_insert_ne by done. destruct (Z.ltb_spec i n).
  - case_decide as Hl.
    + destruct Hl as [-> _]. by rewrite fn_lookup_insert.
    + rewrite fn_lookup_insert_ne; [done|]. intros ->. tauto.
  - rewrite decide_False; [done|lia].
Qed.

Lemma swap_remove_core s s' L a i n k f node :
  core_rep s n L -> (index_to_address s).[i] = a -> 1 <= i <= n ->
  lifecycle_consensus_pubkey (L a) = Some k ->
  (val_radicle_node_id s).[a] = node ->
  fields s' = f -> row f a = stored_empty -> (forall b, b <> a -> row f b = row (fields s) b) ->
  index_to_address s'
    = (if i <? n then (index_to_address s).[i <- (index_to_address s).[n]]
       else index_to_address s).[n <- 0] ->
  address_to_index s'
    = (if i <? n then (address_to_index s).[(index_to_address s).[n] <- i]
       else address_to_index s).[a <- 0] ->
  consensus_pubkey_hash_to_address s'
    = (consensus_pubkey_hash_to_address s).[consensus_pubkey_hash k <- 0] ->
  val_radicle_node_id s' = (val_radicle_node_id s).[a <- 0] ->
  radicle_node_id_to_validator s' = (radicle_node_id_to_validator s).[node <- 0] ->
  validator_count s' = validator_count s ->
  core_rep s' (n - 1) (removed s L a i n).
Proof.
  intros H Hia Hi Hk Hnode Ef Hrow Hframe E2 E1 E3 E4 E5 E6.
  set (last := (index_to_address s).[n]) in *.
  assert (HL : forall b, removed s L a i n b =
    if decide (b = a) then Absent
    else if decide (b = last /\ i < n) then reindex (L b) i else L b)
    by (intros b; exact (removed_lookup s L a i n b H Hia Hi)).
  pose proof (cr_dense _ _ _ H n ltac:(lia)) as Hlast. fold last in Hlast.
  pose proof (cr_dense _ _ _ H i Hi) as Hidx. rewrite Hia in Hidx.
  assert (Hla : i < n -> last <> a) by (intros ? E; rewrite E in Hlast; assert (n = i) by congruence; lia).
  destruct H as [C1 Crow Cvalid Cindex Cslot Cdense Cempty Ckey Cowner Cnode Cabsent Cnowner Czero].
  constructor; rewrite ?Ef, ?E1, ?E2, ?E3, ?E4, ?E5, ?E6.
  - lia.
  - intros b. rewrite HL. destruct (decide (b = a)) as [->|Hb]; [done|]. rewrite Hframe, Crow by done.
    destruct (decide (b = last /\ i < n)); [by rewrite reindex_row|done].
  - intros b. rewrite HL. destruct (decide (b = a)) as [->|Hb]; [done|].
    destruct (decide (b = last /\ i < n)); [|done]. apply reindex_valid; [lia|apply Cvalid..].
  - intros b. rewrite HL, mread_mwrite. destruct (decide (b = a)) as [->|Hb]; [by rewrite decide_True|].
    rewrite decide_False by done. destruct (decide (b = last /\ i < n)) as [[-> Hl]|Hl].
    + rewrite (proj2 (Z.ltb_lt i n)) by done. rewrite mread_mwrite_eq.
      rewrite reindex_index; [done|by eapply registry_index_some].
    + destruct (i <? n) eqn:Hlt; bprop; [|done]. rewrite mread_mwrite_ne by naive_solver. done.
  - intros b j. rewrite HL. destruct (decide (b = a)) as [->|Hb]; [done|].
    destruct (decide (b = last /\ i < n)) as [[-> Hl]|Hl].
    + rewrite reindex_index by (by eapply registry_index_some). intros [= <-]. split; [lia|].
      rewrite mread_mwrite_ne by lia. rewrite (proj2 (Z.ltb_lt i n)) by done. apply mread_mwrite_eq.
    + intros Hj. destruct (Cslot b j Hj) as [Hjn Hjb].
      assert (j <> n) by (intros ->; apply Hl; split; [done|];
        destruct (decide (i = n)) as [->|]; [congruence|lia]).
      split; [lia|]. rewrite mread_mwrite_ne by lia.
      destruct (i <? n); [|done]. rewrite mread_mwrite_ne; [done|]. congruence.
  - intros j Hj. rewrite mread_mwrite_ne by lia. destruct (decide (j = i)) as [->|Hji].
    + rewrite (proj2 (Z.ltb_lt i n)) by lia. rewrite mread_mwrite_eq, HL.
      rewrite decide_False by (apply Hla; lia). rewrite decide_True by (split; [done|lia]).
      apply reindex_index. by eapply registry_index_some.
    + assert (Hj' : (if i <? n then (index_to_address s).[i <- last] else index_to_address s).[j]
                    = (index_to_address s).[j]).
      { destruct (i <? n); [|done]. by rewrite mread_mwrite_ne. }
      rewrite Hj', HL. pose proof (Cdense j ltac:(lia)) as Hd.
      rewrite decide_False by (intros E; rewrite E in Hd; congruence).
      rewrite decide_False; [done|]. intros [E _]. rewrite E in Hd. assert (j = n) by congruence. lia.
  - intros j Hj. rewrite mread_mwrite. destruct (decide (n = j)) as [|Hnj]; [done|].
    destruct (i <? n) eqn:Hlt; bprop; [rewrite mread_mwrite_ne by lia|]; apply Cempty; lia.
  - intros b k'. rewrite HL. destruct (decide (b = a)) as [->|Hb]; [done|]. intros Hk'.
    assert (Hbk : lifecycle_consensus_pubkey (L b) = Some k').
    { destruct (decide (b = last /\ i < n)); [by rewrite reindex_pubkey in Hk'|done]. }
    rewrite mread_mwrite_ne; [by apply Ckey|]. intros Hh.
    pose proof (Ckey b k' Hbk). pose proof (Ckey a k Hk). congruence.
  - intros h. rewrite mread_mwrite. destruct (decide (consensus_pubkey_hash k = h)) as [|Hh]; [done|].
    intros Ho. destruct (Cowner h Ho) as (k' & Hk' & Hh'). exists k'. split; [|done].
    rewrite HL. rewrite decide_False by (intros E; rewrite E in Hk'; congruence).
    destruct (decide (_ = last /\ i < n)); [by rewrite reindex_pubkey|done].
  - intros b. rewrite HL. destruct (decide (b = a)) as [->|Hb]; [done|]. intros Hb'.
    assert (Hba : L b <> Absent).
    { intros E. apply Hb'. rewrite E. by destruct (decide (b = last /\ i < n)). }
    destruct (Cnode b Hba) as [Hn1 Hn2]. rewrite mread_mwrite_ne by done. split; [done|].
    rewrite mread_mwrite_ne; [done|]. intros E.
    destruct (Cnode a ltac:(by eapply registry_index_some)) as [_ Hna]. congruence.
  - intros b. rewrite HL. destruct (decide (b = a)) as [->|Hb]; [intros _; apply mread_mwrite_eq|].
    intros Hb'. rewrite mread_mwrite_ne by done. apply Cabsent.
    destruct (decide (b = last /\ i < n)); [by destruct (L b)|done].
  - intros m. rewrite mread_mwrite. destruct (decide (node = m)) as [|Hm]; [done|]. intros Ho.
    destruct (Cnowner m Ho) as [Hm0 Hm1]. split; [done|]. rewrite mread_mwrite_ne; [done|].
    intros E. rewrite <- E in Hm1. congruence.
  - rewrite HL. destruct (decide (0 = a)); [done|]. destruct (decide (0 = last /\ i < n)); [|done].
    by rewrite Czero.
Qed.
(** The entries the sweep removes: inactive, past the cooldown, with no open
    OCOMP recovery window. *)
Definition removable (env : Env) (cooldown : Z) (s : ValidatorSet)
    (L : Address -> ValidatorLifecycle) (a : Address) : Prop :=
  exists x h, L a = Inactive x /\ last_deactivated_at_height (in_history x) = Some h
    /\ h + cooldown <= block_number env /\ (val_ocomp_recovery_deadline s).[a] = 0.

(** Every validator either kept its state up to the dense index or was removed. *)
Definition swept (env : Env) (cooldown : Z) (s0 : ValidatorSet)
    (L0 L1 : Address -> ValidatorLifecycle) (a : Address) : Prop :=
  reindexed (L0 a) (L1 a) \/ (removable env cooldown s0 L0 a /\ L1 a = Absent).

Record sweep (env : Env) (cooldown : Z) (s0 : ValidatorSet) (L0 : Address -> ValidatorLifecycle)
    (v : Z * Z * Z) (s : ValidatorSet) (L : Address -> ValidatorLifecycle) : Prop := {
  sw_core : core_rep s v.1.2 L;
  sw_delegates : delegates_ok s L;
  sw_ocomp : ocomp_ok s;
  sw_swept : forall a, swept env cooldown s0 L0 L a;
  sw_deadline : forall a, L a <> Absent ->
    (val_ocomp_recovery_deadline s).[a] = (val_ocomp_recovery_deadline s0).[a];
  sw_done : forall j, 1 <= j < v.1.1 -> ~ removable env cooldown s L (index_to_address s).[j];
  sw_index : 1 <= v.1.1 <= v.1.2 + 1;
  sw_count : v.1.2 + v.2 = validator_count s0 /\ validator_count s = validator_count s0 }.

Lemma removed_reindexed s L a i n b :
  core_rep s n L -> (index_to_address s).[i] = a -> 1 <= i <= n -> b <> a ->
  reindexed (L b) (removed s L a i n b).
Proof.
  intros H Ha Hi Hb. rewrite (removed_lookup s L a i n b H Ha Hi), decide_False by done.
  destruct (decide (b = (index_to_address s).[n] /\ i < n)); [apply reindex_reindexed|done].
Qed.

Lemma removable_transport env cooldown s s' L L' a :
  reindexed (L a) (L' a) ->
  (val_ocomp_recovery_deadline s).[a] = (val_ocomp_recovery_deadline s').[a] ->
  removable env cooldown s L a -> removable env cooldown s' L' a.
Proof.
  unfold reindexed. intros Hre Hd (x & h & Hx & Hh & Hc & Hz). rewrite Hx in Hre.
  destruct (L' a) as [| | | | | | | | |x'] eqn:HL; try done. injection Hre as E1 E2 E3.
  exists x', h. rewrite <- Hd. split_and!; try done. by rewrite <- E3.
Qed.

Lemma sweep_remove env cooldown s0 L0 i c r s L a s' :
  sweep env cooldown s0 L0 (i, c, r) s L -> i <= c -> (index_to_address s).[i] = a ->
  removable env cooldown s L a -> swap_remove a i c s = (Ok tt, s') ->
  sweep env cooldown s0 L0 (i, c - 1, r + 1) s' (removed s L a i c).
Proof.
  intros [Hc Hd Ho Hsw Hdl Hdone Hi Hcnt] Hic Ha Hrem Hrun. simpl in *.
  apply swap_remove_ok in Hrun as (Hrow & Hframe & E2 & E1 & E3 & E4 & E5 & E6 & F1 & F2 & F3 & F4 & F5).
  assert (Hreg : L a <> Absent) by (destruct Hrem as (x & ? & -> & _); done).
  destruct (not_absent_pubkey _ Hreg) as [k Hk].
  assert (Hkey : read_consensus_pubkey (fields s) a = k).
  { pose proof (cr_row _ _ _ Hc a) as Hr. apply (row_is_iff _ _ (mkState a (L a))) in Hr as [Hr _].
    simpl in Hr. by rewrite Hk in Hr. }
  rewrite Hkey in E3.
  assert (Hb : forall b, b <> a -> reindexed (L b) (removed s L a i c b)).
  { intros b Hb. apply removed_reindexed; auto with lia. }
  assert (Ha' : removed s L a i c a = Absent).
  { rewrite (removed_lookup s L a i c a) by auto with lia. by rewrite decide_True. }
  constructor; simpl.
  - eapply (swap_remove_core s s' L a i c k (fields s')); try done; try lia.
    apply E5. by apply (cr_node _ _ _ Hc).
  - destruct Hd as [D1 D2]. constructor; rewrite ?F2, ?F3; [done|]. intros ro d Hd.
    destruct (D2 ro d Hd) as (?&?&Hld&?). split_and!; try done.
    destruct (decide (d = a)) as [->|Hne]; [done|]. by apply (reindexed_absent _ _ (Hb d Hne)).
  - unfold ocomp_ok. by rewrite F4, F5.
  - intros b. destruct (decide (b = a)) as [->|Hne].
    + right. split; [|done]. destruct (Hsw a) as [Hre|[_ Hx]]; [|done].
      eapply (removable_transport _ _ s _ L); [by symmetry|by apply Hdl|done].
    + destruct (Hsw b) as [Hre|[Hr Hx]]; [left; by transitivity (L b); auto|].
      right. split; [done|]. by apply (reindexed_absent _ _ (Hb b Hne)).
  - intros b Hbr. assert (Hne : b <> a) by (intros ->; done). rewrite E6, mread_mwrite_ne by done.
    apply Hdl. intros E. apply Hbr. by apply (reindexed_absent _ _ (Hb b Hne)).
  - intros j Hj Hrj. apply (Hdone j Hj).
    assert (Hj' : (index_to_address s').[j] = (index_to_address s).[j]).
    { rewrite E2, mread_mwrite_ne by lia. destruct (i <? c); [|done]. by rewrite mread_mwrite_ne by lia. }
    rewrite Hj' in Hrj. assert (Hne : (index_to_address s).[j] <> a).
    { intros E. pose proof (cr_dense _ _ _ Hc j ltac:(lia)) as Hd1.
      pose proof (cr_dense _ _ _ Hc i ltac:(lia)) as Hd2. rewrite Ha in Hd2. rewrite E in Hd1.
      assert (i = j) by congruence. lia. }
    eapply (removable_transport _ _ s' _ (removed s L a i c)); [symmetry; by apply Hb| |done].
    by rewrite E6, mread_mwrite_ne.
  - lia.
  - rewrite F1. lia.
Qed.
Lemma swap_remove_runs a i n : runs (swap_remove a i n).
Proof. unfold swap_remove, clear_validator_storage, write_consensus_pubkey, when. solve_runs. Qed.

(** One iteration: it keeps the sweep going with less to visit, stops at the end
    or at the removal cap, or fails on a height that overflows. *)
Lemma cleanup_step_ok env max_removals cooldown s0 L0 v s L r s' :
  sweep env cooldown s0 L0 v s L ->
  cleanup_step env max_removals cooldown v s = (r, s') ->
  match r with
  | Ok (inl v') => (exists L', sweep env cooldown s0 L0 v' s' L')
      /\ v'.1.2 - v'.1.1 < v.1.2 - v.1.1
  | Ok (inr w) => s' = s /\ w = (v.1.2, v.2) /\ (v.1.1 = v.1.2 + 1 \/ 0 < max_removals)
  | Err e => e = Fatal "inactive cleanup height overflow"
  | Panic => False
  end.
Proof.
  destruct v as [[i c] rm]. intros Hs. pose proof Hs as [Hc Hd Ho Hsw Hdl Hdone Hi Hcnt]. simpl in *.
  unfold cleanup_step.
  destruct (Z.leb_spec i c); simpl.
  2:{ intros [= <- <-]. split_and!; [done..|]. left. lia. }
  destruct ((0 <? max_removals) && (max_removals <=? rm)) eqn:Hcap.
  { intros [= <- <-]. bprop. auto. }
  set (a := (index_to_address s).[i]).
  assert (Hskip : ~ removable env cooldown s L a ->
    (Ok (inl (i + 1, c, rm) : Z * Z * Z + Z * Z), s) = (r, s') ->
    match r with
    | Ok (inl v') => (exists L', sweep env cooldown s0 L0 v' s' L') /\ v'.1.2 - v'.1.1 < c - i
    | Ok (inr w) => s' = s /\ w = (c, rm) /\ (i = c + 1 \/ 0 < max_removals)
    | Err e => e = Fatal "inactive cleanup height overflow"
    | Panic => False
    end).
  { intros Hnr [= <- <-]. split; [|simpl; lia]. exists L. constructor; simpl; try done; [|lia].
    intros j Hj. destruct (decide (j = i)) as [->|]; [done|]. apply Hdone. lia. }
  pose proof (cr_dense _ _ _ Hc i ltac:(lia)) as Hia. fold a in Hia.
  unfold mbind, gets, reads, lift. fold a.
  rewrite (proj2 (Z.eqb_neq a 0)) by (intros E; rewrite E, (cr_zero _ _ _ Hc) in Hia; done).
  rewrite (rep_state _ _ _ _ Hc). cbn [lifecycle].
  destruct (L a) as [| | | | | | | | |x] eqn:HL; try (apply Hskip; intros (? & ? & E & _); congruence).
  destruct (proj2 (proj2 (proj1 (cr_valid _ _ _ Hc a))) (in_history x)) as [_ Hh]; [by rewrite HL|].
  rewrite HL in Hh. cbn [lifecycle_history].
  change (Some (in_history x) ≫= last_deactivated_at_height) with (last_deactivated_at_height (in_history x)).
  destruct (last_deactivated_at_height (in_history x)) as [h|] eqn:Hdh; [|done]. cbn [ok_or].
  unfold checked_add. destruct (Z.leb_spec (h + cooldown) u64_max); cbn [ok_or];
    [|by intros [= <- <-]].
  destruct (Z.ltb_spec (block_number env) (h + cooldown)).
  { apply Hskip. intros (x' & h' & E1 & E2 & E3 & _). rewrite HL in E1. injection E1 as <-.
    rewrite Hdh in E2. injection E2 as <-. lia. }
  destruct (Z.eqb_spec (val_ocomp_recovery_deadline s).[a] 0); cbn [negb].
  2:{ apply Hskip. by intros (x' & h' & _ & _ & _ & E). }
  destruct (swap_remove_runs a i c s) as ([] & s1 & Hrun). rewrite Hrun. intros [= <- <-].
  split; [|simpl; lia]. exists (removed s L a i c).
  eapply sweep_remove; try done. by exists x, h.
Qed.

Lemma cleanup_loop env max_removals cooldown s0 L0 fuel : forall v s L r s',
  sweep env cooldown s0 L0 v s L -> v.1.2 - v.1.1 + 1 < Z.of_nat fuel ->
  mwhile fuel (cleanup_step env max_removals cooldown) v s = (r, s') ->
  match r with
  | Ok (c, rm) => exists i L', sweep env cooldown s0 L0 (i, c, rm) s' L'
      /\ (i = c + 1 \/ 0 < max_removals)
  | Err e => e = Fatal "inactive cleanup height overflow"
  | Panic => False
  end.
Proof.
  induction fuel as [|fuel IH]; intros v s L r s' Hs Hf Hrun.
  { destruct (sw_index _ _ _ _ _ _ _ Hs). lia. }
  simpl in Hrun. unfold mbind in Hrun.
  destruct (cleanup_step env max_removals cooldown v s) as [r1 s1] eqn:Hstep.
  pose proof (cleanup_step_ok _ _ _ _ _ _ _ _ _ _ Hs Hstep) as Hok.
  destruct r1 as [[v'|w]|e|]; [| |by injection Hrun as <- <-|done].
  - destruct Hok as [[L1 Hs1] Hlt]. eapply IH; [exact Hs1|lia|exact Hrun].
  - destruct Hok as (-> & -> & Hw). injection Hrun as <- <-. destruct v as [[i c] rm]. simpl in *.
    by exists i, L.
Qed.

(** The sweep returns (the loop bound is enough) unless a height overflows. *)
Lemma cleanup_ok env max_removals s L r s' :
  vs_rep s L -> cleanup_inactive_validators env max_removals s = (r, s') ->
  match r with
  | Ok n => exists L', vs_rep s' L' /\ validator_count s' = validator_count s - n
      /\ (forall a, swept env (config_reregistration_cooldown s) s L L' a)
      /\ (max_removals = 0 -> forall a, ~ removable env (config_reregistration_cooldown s) s' L' a)
  | Err e => e = Fatal "inactive cleanup height overflow" /\ s' = s
  | Panic => False
  end.
Proof.
  intros [Hc Hd Ho] Hrun. set (cooldown := config_reregistration_cooldown s).
  assert (Hs : sweep env cooldown s L (1, validator_count s, 0) s L).
  { pose proof (cr_count _ _ _ Hc). constructor; simpl; try done; try lia. intros a. by left. }
  pose proof (cr_count _ _ _ Hc) as Hn.
  unfold cleanup_inactive_validators, with_checkpoint in Hrun. unfold mbind at 1 2 3, gets in Hrun.
  fold cooldown in Hrun.
  destruct (mwhile (S (Z.to_nat (validator_count s))) _ _ s) as [r1 s1] eqn:Hloop.
  assert (Hfuel : validator_count s - 1 + 1 < Z.of_nat (S (Z.to_nat (validator_count s)))) by lia.
  pose proof (cleanup_loop _ _ _ _ _ _ _ _ _ _ _ Hs Hfuel Hloop) as Hok.
  destruct r1 as [[c rm]|e|]; simpl in Hrun; [|by injection Hrun as <- <-|done].
  injection Hrun as <- <-. destruct Hok as (i & L' & [Hc' Hd' Ho' Hsw _ Hdone Hi Hcnt] & Hend).
  simpl in *. exists L'. split_and!; [|simpl; lia|done|].
  - constructor; [|by destruct Hd'|done]. destruct Hc'. constructor; try done; simpl; lia.
  - intros ->. destruct Hend as [->|]; [|lia]. intros a Hrem.
    destruct (not_absent_index (L' a)) as [j Hj]; [by destruct Hrem as (x & h & -> & _)|].
    destruct (cr_slot _ _ _ Hc' a j Hj) as [Hj1 Hj2]. apply (Hdone j); [lia|]. by rewrite Hj2.
Qed.
End Moves.
