(* ===== verification/ValidatorSetProps.v ===== *)
(** Properties of the validator registry over its whole call surface: the
    precompile's mutating entries and the facade the other system modules use
    ([vs_dispatch] and [vs_system] of [ValidatorSet]). *)

From stdpp Require Import functions.
From S2P Require Import Prelude Bytes P2pAddress Lifecycle ValidatorSet ValidatorSetInv ValidatorSetMoves.

(** * Calls and executions *)

Inductive VsCall : Type :=
  | UserCall (env : Env) (caller : Address) (value : Z) (c : VsUserCall)
  | SystemCall (env : Env) (c : VsSystemCall).

Section Props.
Context {X : Externals}.

Definition run_call (c : VsCall) : VM unit :=
  match c with
  | UserCall env caller value c => vs_dispatch env caller value c
  | SystemCall env c => vs_system env c
  end.

(** Call data the theorems range over: byte strings hold bytes. *)
Definition wf_call (c : VsCall) : Prop :=
  match c with
  | UserCall _ _ _ (setP2pAddress _ _ encoded) => Forall byte encoded
  | _ => True
  end.

Definition is_boundary (c : VsCall) : bool :=
  match c with SystemCall _ (ActivateBoundary _ _ _ _) => true | _ => false end.

(** One successful call, and the registries that calls lead to. *)
Definition vs_exec (s s' : ValidatorSet) : Prop :=
  exists c, wf_call c /\ run_call c s = (Ok tt, s').

Definition vs_inv (s : ValidatorSet) : Prop := exists L, vs_rep s L.

(** The empty registry of a configuration. *)
Definition vs_empty (owner : Address) (max epoch_length rereg unjail_cooldown : Z) : ValidatorSet :=
  mkVS owner max epoch_length rereg unjail_cooldown fields_empty ∅ ∅ ∅ 0 0 0 0 false 0 ∅ ∅ 0 ∅ ∅ ∅ ∅
    ∅ ∅ ∅ ∅ [].

Lemma vs_empty_inv owner max epoch_length rereg unjail_cooldown :
  vs_inv (vs_empty owner max epoch_length rereg unjail_cooldown).
Proof.
  exists (fun _ => Absent). constructor.
  - constructor; simpl; intros; rewrite ?mread_empty in *; try done; try lia.
  - constructor; simpl; intros; by rewrite ?mread_empty in *.
  - intros a. simpl. by rewrite mread_empty.
Qed.

(** * The invariant over every call *)

(** A step of one validator outside a boundary: a transition of the state
    machine, or a new dense index from the cleanup sweep. *)
Definition registry_step (l l' : ValidatorLifecycle) : Prop :=
  lifecycle_step false l l' \/ reindexed l l'.

(** What a call does to the lifecycles. *)
Definition call_moves (c : VsCall) (s : ValidatorSet) (L L' : Address -> ValidatorLifecycle) : Prop :=
  forall a, if is_boundary c then boundary_move s a (L a) (L' a)
            else rtc registry_step (L a) (L' a).

Lemma next_call_moves c s L s' :
  is_boundary c = false -> next L s' -> exists L', vs_rep s' L' /\ call_moves c s L L'.
Proof.
  intros Hb (L' & Hr & Hm). exists L'. split; [done|]. intros a. rewrite Hb.
  specialize (Hm a). induction Hm as [|x y z Hxy _ IH]; [done|].
  eapply rtc_l; [|exact IH]. by left.
Qed.

Lemma dispatch_next env caller value c s L s' :
  vs_rep s L -> wf_call (UserCall env caller value c) ->
  vs_dispatch env caller value c s = (Ok tt, s') -> next L s'.
Proof.
  intros Hr Hwf Hrun. unfold vs_dispatch in Hrun. destruct c; minv; simpl in Hwf.
  - exists L. split; [by eapply set_delegate_next|apply moves_refl].
  - exists L. split; [by eapply revoke_delegate_next|apply moves_refl].
  - by eapply register_next.
  - by eapply set_p2p_address_next.
  - by eapply deactivate_next.
  - by eapply confirm_ready_next.
Qed.

Lemma swept_path env cooldown s L L' a :
  swept env cooldown s L L' a -> rtc registry_step (L a) (L' a).
Proof.
  intros [Hre|[(x & h & Hx & _) Ha]]; apply rtc_once; [by right|left].
  rewrite Ha, Hx. apply (step_cleanup x).
Qed.

Lemma system_next env c s L s' :
  vs_rep s L -> is_boundary (SystemCall env c) = false ->
  vs_system env c s = (Ok tt, s') ->
  next L s' \/ exists L', vs_rep s' L' /\ forall a, rtc registry_step (L a) (L' a).
Proof.
  intros Hr Hb Hrun. unfold vs_system, discard, force_exit_validator, jail_validator in Hrun.
  destruct c; try done; minv; eauto using record_stake_increase_next, record_unstake_next,
    record_stake_slash_next, ocomp_miss_next, ocomp_bonded_slash_next, resolve_window_next,
    complete_unbonding_next, punish_next, tee_expiry_next, unjail_next,
    hook_finalized_next, reset_epoch_counters_next, advance_epoch_next.
  - left. unfold hook_record_proposer, when in Hrun.
    minv_all; [by eapply record_proposer_next|by apply next_refl].
  - left. unfold hook_record_participation in Hrun.
    minv_all; [by apply next_refl|by eapply participation_next].
  - right. match goal with H : cleanup_inactive_validators _ _ _ = _ |- _ =>
      apply (cleanup_ok _ _ _ L) in H as (L' & Hr' & _ & Hsw & _); [|done] end.
    exists L'. split; [done|]. intros a. by eapply swept_path.
Qed.

Lemma call_rep c s L s' :
  vs_rep s L -> wf_call c -> run_call c s = (Ok tt, s') ->
  exists L', vs_rep s' L' /\ call_moves c s L L'.
Proof.
  intros Hr Hwf Hrun. destruct (is_boundary c) eqn:Hb.
  - destruct c as [|env []]; try done. simpl in Hrun.
    apply (boundary_next s L) in Hrun as (L' & Hr' & Hm & _); [|done]. by exists L'.
  - destruct c as [env caller value c|env c]; simpl in Hrun.
    + eapply next_call_moves; [done|]. by eapply dispatch_next.
    + destruct (system_next env c s L s' Hr Hb Hrun) as [Hn|(L' & Hr' & Hm)].
      * by apply next_call_moves.
      * exists L'. split; [done|]. intros a. by rewrite Hb.
Qed.

Lemma exec_inv s s' : rtc vs_exec s s' -> vs_inv s -> vs_inv s'.
Proof.
  induction 1 as [|s1 s2 s3 (c & Hwf & Hrun) _ IH]; [done|]. intros [L Hr]. apply IH.
  destruct (call_rep c s1 L s2 Hr Hwf Hrun) as (L' & Hr' & _). by exists L'.
Qed.

(** * Helper lemmas of the properties *)

Lemma participant_lifecycle s L a :
  vs_rep s L -> is_consensus_participant s a = Ok (is_current_consensus_participant (L a)).
Proof.
  intros Hr. unfold is_consensus_participant. by rewrite (rep_lifecycle _ _ _ _ (vr_core _ _ Hr)).
Qed.

Lemma registry_step_share l l' : registry_step l l' -> has_bls_share l' = has_bls_share l.
Proof.
  intros [Hstep|Hre].
  - remember false as b eqn:Hb in Hstep. step_cases Hstep; done.
  - unfold reindexed in Hre. by destruct l, l'.
Qed.
Lemma registry_path_share l l' : rtc registry_step l l' -> has_bls_share l' = has_bls_share l.
Proof. induction 1 as [|x y z Hxy _ IH]; [done|]. rewrite IH. by apply registry_step_share. Qed.

Lemma persist_runs a l l' :
  lifecycle_validate l = Ok tt -> lifecycle_validate l' = Ok tt -> l' <> Absent ->
  lifecycle_registry_index l = lifecycle_registry_index l' ->
  lifecycle_consensus_pubkey l = lifecycle_consensus_pubkey l' ->
  runs (persist_validator_state_delta (mkState a l) (mkState a l')).
Proof.
  intros Hv Hv' Hn Hi Hk.
  unfold persist_validator_state_delta, persist_validator_state_delta_inner, state_validate.
  simpl. rewrite Hv, Hv', !bool_decide_eq_false_2 by (intros Hne; by apply Hne). simpl.
  assert (Hst : is_Some (stored_status l')) by (destruct l'; eauto; done).
  unfold state_status. simpl. destruct Hst as [st ->]. unfold when. simpl ok_or. solve_runs.
Qed.

Lemma commit_runs a l l' sc es :
  lifecycle_validate l = Ok tt -> lifecycle_validate l' = Ok tt -> l' <> Absent ->
  lifecycle_registry_index l = lifecycle_registry_index l' ->
  lifecycle_consensus_pubkey l = lifecycle_consensus_pubkey l' ->
  runs (commit_transition (mkState a l) (mkState a l') sc es).
Proof.
  intros. unfold commit_transition, when, signal_set_change. apply runs_checkpoint.
  apply runs_bind; [by apply persist_runs|]. intros _. solve_runs.
  apply runs_mfor. intros e. apply runs_modify.
Qed.

Lemma check_exclusions_disjoint s new_set exclusions : forall seen,
  check_exclusions s new_set seen exclusions = Ok tt -> forall a, a ∈ exclusions -> a ∉ new_set.
Proof.
  induction exclusions as [|b l IH]; simpl; intros seen H a Ha; [by apply elem_of_nil in Ha|].
  minv. bprop. apply elem_of_cons in Ha as [->|Ha]; [done|by eapply IH].
Qed.
Lemma exclusions_disjoint new_set hash freeze exclusions s s' :
  activate_validated_boundary_set_with_expiry_exclusions new_set hash freeze exclusions s
    = (Ok tt, s') -> forall a, a ∈ exclusions -> a ∉ new_set.
Proof.
  unfold activate_validated_boundary_set_with_expiry_exclusions. intros H.
  case_bool_decide as Hex; [subst; intros a Ha; by apply elem_of_nil in Ha|]. minv.
  by eapply check_exclusions_disjoint.
Qed.

(** What a successful registration leaves, for a first or a repeated one. *)
Lemma registered_entry env s L caller a pubkey node sig pop s' :
  vs_rep s L ->
  register_validator_inner env caller a pubkey node sig pop s = (Ok tt, s') ->
  a <> 0 /\ (L a = Absent \/ exists x, L a = Inactive x)
  /\ exists L' x, vs_rep s' L' /\ L' a = WaitingForStake x /\ consensus_pubkey x = pubkey
       /\ stake x = stake_zero /\ joined_at_height (history x) = block_number env
       /\ forall b, b <> a -> L' b = L b.
Proof.
  intros Hr Hrun. unfold register_validator_inner in Hrun. minv. open_state L.
  match goal with H : register_checks _ _ _ _ _ _ _ _ = Ok _ |- _ =>
    apply register_checks_ok in H as (Hpk & Hnode & _ & Hdel & Hrad & Hown & _) end.
  minv_case; simpl in *.
  - match goal with H : reregister_existing _ _ _ _ _ _ _ = _ |- _ =>
      apply (reregister_next _ _ L) in H as (x & y & HL & Hy & Hr' & _); [|done..] end.
    split; [intros ->; by rewrite (cr_zero _ _ _ (vr_core _ _ Hr)) in HL|].
    split; [by right; exists x|]. eexists _, y. split; [exact Hr'|]. rewrite fn_lookup_insert.
    unfold reregister in Hy. minv_case; minv. split_and!; try done. intros b Hb. by rewrite fn_lookup_insert_ne.
  - apply registry_absent in Heqo. rewrite Heqo in *.
    match goal with H : register_first _ _ _ _ _ _ = _ |- _ =>
      apply (register_first_next _ _ L) in H as (Hr' & _ & Ha0 & _); [|done..] end.
    split; [done|]. split; [by left|]. eexists _, _. split; [exact Hr'|]. rewrite fn_lookup_insert.
    split_and!; try done. intros b Hb. by rewrite fn_lookup_insert_ne.
Qed.

(** The removals of a sweep stay within its cap. *)
Lemma cleanup_cap env max_removals cooldown fuel : forall i c rm s c' rm' s',
  0 <= rm -> (0 < max_removals -> rm <= max_removals) ->
  mwhile fuel (cleanup_step env max_removals cooldown) (i, c, rm) s = (Ok (c', rm'), s') ->
  0 <= rm' /\ (0 < max_removals -> rm' <= max_removals).
Proof.
  induction fuel as [|fuel IH]; intros i c rm s c' rm' s' H0 Hcap Hrun; [done|].
  cbn [mwhile] in Hrun. unfold cleanup_step in Hrun at 1.
  destruct (i <=? c); simpl in Hrun; [|by minv].
  destruct ((0 <? max_removals) && (max_removals <=? rm)) eqn:Hm; [by minv|].
  apply andb_false_iff in Hm. rewrite Z.ltb_ge, Z.leb_gt in Hm.
  minv_all; simplify_eq; match goal with H : mwhile _ _ _ _ = _ |- _ => eapply IH in H end; try done; lia.
Qed.

(** A removable entry, as the registry reports it. *)
Definition expired (env : Env) (cooldown : Z) (s : ValidatorSet) (a : Address) : Prop :=
  exists x h, validator_lifecycle s a = Ok (Inactive x)
    /\ last_deactivated_at_height (in_history x) = Some h
    /\ h + cooldown <= block_number env /\ (val_ocomp_recovery_deadline s).[a] = 0.

Lemma expired_removable env cooldown s L a :
  vs_rep s L -> expired env cooldown s a <-> removable env cooldown s L a.
Proof.
  intros Hr. unfold expired, removable. rewrite (rep_lifecycle _ _ _ _ (vr_core _ _ Hr)).
  split; intros (x & h & HL & Hx); exists x, h; (split; [congruence|done]).
Qed.

(** The signer of a role: the validator itself until it names a delegate. *)
Definition role_signer (s : ValidatorSet) (v : Address) (role : ValidatorDelegateRole) : Address :=
  if get_delegate s v role =? 0 then v else get_delegate s v role.

#[local] Instance absent_decision (l : ValidatorLifecycle) : Decision (l = Absent).
Proof. destruct l; [by left|by right..]. Defined.

Definition is_active (l : ValidatorLifecycle) : bool :=
  match l with Active _ => true | _ => false end.

Lemma get_validator_active s L a :
  vs_rep s L ->
  match L a with
  | Absent => get_validator s a = Ok None
  | l => exists rec, get_validator s a = Ok (Some rec)
           /\ (vr_status rec =? ACTIVE) && vr_has_bls_share rec = is_active l
  end.
Proof.
  intros Hr. unfold get_validator, read_validator_record.
  rewrite (cr_index _ _ _ (vr_core _ _ Hr)), (rep_state _ _ _ _ (vr_core _ _ Hr)).
  destruct (cr_valid _ _ _ (vr_core _ _ Hr) a) as [_ Hwf].
  destruct (lifecycle_registry_index (L a)) as [i|] eqn:Hi; simpl.
  - pose proof (index_nonzero _ _ Hwf Hi) as Hnz. rewrite (proj2 (Z.eqb_neq _ _) Hnz).
    destruct (L a); simpl in *; try done; by eexists.
  - apply registry_absent in Hi. by rewrite Hi.
Qed.

Lemma resolve_cases s L signer role :
  vs_rep s L ->
  resolve_validator_for_role s signer role =
    Ok (let v := if decide (L signer = Absent)
                 then (validator_by_role_delegate s).[(role_id role, signer)] else signer in
        if is_active (L v) && (role_signer s v role =? signer) then Some v else None).
Proof.
  intros Hr. pose proof (get_validator_active s L signer Hr) as Hg.
  pose proof (vr_delegates _ _ Hr) as [Hf Hd]. pose proof (cr_zero _ _ _ (vr_core _ _ Hr)) as H0.
  unfold resolve_validator_for_role, role_signer. destruct (decide (L signer = Absent)) as [Ha|Ha].
  - rewrite Ha in Hg. rewrite Hg. simpl. set (v := (validator_by_role_delegate s).[_]).
    destruct (Z.eqb_spec v 0) as [Hv|Hv]; [by rewrite Hv, H0|].
    destruct (Hd (role_id role) signer Hv) as (Hdel & Hs0 & _). fold v in Hdel.
    unfold get_delegate. rewrite Hdel, Z.eqb_refl, (proj2 (Z.eqb_neq _ _) Hs0), Z.eqb_refl. simpl.
    pose proof (get_validator_active s L v Hr) as Hgv.
    destruct (L v); [by rewrite Hgv|..]; destruct Hgv as (rec & -> & Hact); simpl in *;
      destruct (vr_status rec =? ACTIVE), (vr_has_bls_share rec); simpl in *; by simplify_eq.
  - assert (exists rec, get_validator s signer = Ok (Some rec)
      /\ (vr_status rec =? ACTIVE) && vr_has_bls_share rec = is_active (L signer))
      as (rec & -> & Hact) by (by destruct (L signer)).
    simpl. rewrite <- andb_assoc, Hact, andb_comm. do 2 f_equal.
    destruct (Z.eqb_spec (get_delegate s signer role) 0) as [Hz|Hz]; [by rewrite Z.eqb_refl|].
    destruct (Hf signer (role_id role) Hz) as [_ Hrev].
    unfold get_delegate in *.
    destruct (Z.eqb_spec (delegate_by_validator_role s).[(signer, role_id role)] signer) as [He|];
      [|done].
    rewrite He in Hrev. destruct (Hd (role_id role) signer) as (_ & _ & Habs & _); [|done].
    rewrite Hrev. intros ->. done.
Qed.

(** Committing a transition that keeps the registry identity always succeeds,
    and changes that validator alone. *)
Lemma commit_total s L a l0 l sc es :
  vs_rep s L -> L a = l0 -> rtc (lifecycle_step false) l0 l -> l <> Absent ->
  lifecycle_registry_index l0 = lifecycle_registry_index l ->
  lifecycle_consensus_pubkey l0 = lifecycle_consensus_pubkey l ->
  with_lifecycle (mkState a l0) l = Ok (mkState a l)
  /\ exists s', commit_transition (mkState a l0) (mkState a l) sc es s = (Ok tt, s')
    /\ forall b, validator_lifecycle s' b = if decide (b = a) then Ok l else validator_lifecycle s b.
Proof.
  intros Hr <- Hp Hn Hi Hk. destruct (cr_valid _ _ _ (vr_core _ _ Hr) a) as [Hv Hwf].
  destruct (path_valid _ _ Hp Hv Hwf) as [Hv' Hwf'].
  assert (Hw : with_lifecycle (mkState a (L a)) l = Ok (mkState a l)).
  { unfold with_lifecycle, from_lifecycle, state_validate. simpl. by rewrite valid_validate. }
  split; [done|].
  destruct (commit_runs a (L a) l sc es (valid_validate _ Hv) (valid_validate _ Hv') Hn Hi Hk s)
    as ([] & s' & Hrun). exists s'. split; [done|]. intros b.
  pose proof (commit_next _ _ _ _ _ _ _ _ Hr Hw Hp Hrun) as Hr'.
  rewrite (rep_lifecycle _ _ _ _ (vr_core _ _ Hr')). case_decide as Hb.
  - subst. by rewrite fn_lookup_insert.
  - rewrite fn_lookup_insert_ne by done. by rewrite (rep_lifecycle _ _ _ _ (vr_core _ _ Hr)).
Qed.

(** The entry of an unjailed validator. *)
Definition unjailed (x : Jail_t) : WaitingForReadiness_t :=
  let b := jailed_base x in
  mkPayload (registry_index b) (consensus_pubkey b) (p2p b) (stake b)
    (with_missed_counters_cleared (history b)).

Lemma unjail_value x height cooldown :
  unbonding_end_hint (stake (jailed_base x)) <> Some 0 ->
  unjail x height cooldown (bonded (stake (jailed_base x))) =
    match checked_add u64_max (jailed_at x) cooldown with
    | None => Err (Fatal "unjail cooldown height overflow")
    | Some ready => if height <? ready then Err (Revert "unjail cooldown not elapsed")
                    else Ok (unjailed x)
    end.
Proof.
  intros Hh. unfold unjail, require_at_least_minimum, require_canonical_stake.
  rewrite bool_decide_eq_false_2 by done. simpl. rewrite Z.ltb_irrefl. simpl.
  by destruct (checked_add _ _ _).
Qed.

(** The lifecycle a punishment leaves: one more slash, the height stamped. *)
Definition punished (x : Active_t) (jailing : bool) (height : Z) : ValidatorLifecycle :=
  let h := history x in
  let h' := mkHistory (joined_at_height h) (Some height) (slash_count h + 1)
              (missed_blocks h) (missed_votes h) (blocks_proposed h) in
  let entry tag : validator_payload tag :=
    mkPayload (registry_index x) (consensus_pubkey x) (p2p x) (stake x) h' in
  if jailing then JailRetained (mkJailed (entry _) height) else Exiting (entry _).

Definition punishing (x : Active_t) (jailing : bool) (height : Z) : result ValidatorLifecycle :=
  if jailing then let? y := jail x height in Ok (JailRetained y)
  else let? y := begin_exit x (stake x) height in Ok (Exiting y).

Lemma punish_path x jailing height :
  0 < height -> unbonding_end_hint (stake x) <> Some 0 ->
  exists l, punishing x jailing height = Ok l
    /\ with_history l (mkHistory (joined_at_height (history x)) (Some height)
         (slash_count (history x) + 1) (missed_blocks (history x)) (missed_votes (history x))
         (blocks_proposed (history x))) = Ok (punished x jailing height)
    /\ rtc (lifecycle_step false) (Active x) (punished x jailing height).
Proof.
  intros Hh Hs.
  assert (Hl : exists l, punishing x jailing height = Ok l /\ lifecycle_step false (Active x) l
    /\ with_history l (mkHistory (joined_at_height (history x)) (Some height)
         (slash_count (history x) + 1) (missed_blocks (history x)) (missed_votes (history x))
         (blocks_proposed (history x))) = Ok (punished x jailing height)).
  { unfold punishing. destruct jailing.
    - destruct (jail x height) as [y| |] eqn:Hy; pose proof Hy as Hy'; unfold jail in Hy;
        rewrite (proj2 (Z.eqb_neq height 0)) in Hy by lia; simplify_eq.
      eexists. split_and!; [reflexivity|by eapply step_jail|].
      unfold with_history. simpl. rewrite !bool_decide_eq_false_2 by (naive_solver lia). done.
    - destruct (begin_exit x (stake x) height) as [y| |] eqn:Hy; pose proof Hy as Hy';
        unfold begin_exit, require_canonical_stake in Hy;
        rewrite (proj2 (Z.eqb_neq height 0)), bool_decide_eq_false_2 in Hy by (done || lia);
        simpl in Hy; simplify_eq.
      eexists. split_and!; [reflexivity|by eapply step_begin_exit|].
      unfold with_history. simpl. rewrite !bool_decide_eq_false_2 by (naive_solver lia). done. }
  destruct Hl as (l & Hl & Hstep & Hw). exists l. split_and!; [done..|].
  eapply rtc_l; [exact Hstep|]. apply rtc_once. by eapply step_with_history.
Qed.

Lemma jail_again env a s l :
  validator_lifecycle s a = Ok l ->
  (match l with
   | JailRetained _ | Jail _ | Exiting _ | Unbonding _ | Inactive _ => true | _ => false end) = true ->
  punish_validator env a true s = (Ok false, s).
Proof.
  unfold validator_lifecycle, punish_validator, mbind, reads, lift, gets. intros Hl Hk.
  destruct (validator_state s a) as [[b l']| |] eqn:Hst; simpl in Hl; simplify_eq.
  simpl. by destruct l.
Qed.

(** The replay guards of finalized participation: the ring holds distinct
    recorded hashes. *)
Record ring_ok (s : ValidatorSet) : Prop := {
  ro_seq : 0 <= finalized_participation_ring_seq s;
  ro_recorded : forall i, (finalized_participation_ring s).[i] <> 0 ->
    (finalized_participation_recorded s).[(finalized_participation_ring s).[i]] = true;
  ro_distinct : forall i j, (finalized_participation_ring s).[i] <> 0 ->
    (finalized_participation_ring s).[i] = (finalized_participation_ring s).[j] -> i = j }.

Definition ring_view (s : ValidatorSet) :=
  (finalized_participation_recorded s, finalized_participation_ring s,
   finalized_participation_ring_seq s).

Lemma participation_keeps_ring voters absent :
  keeps ring_view (record_finalized_participation voters absent).
Proof. unfold record_finalized_participation, count_missed_vote. solve_keeps. Qed.

Lemma hook_ring fb voters absent s s' :
  hook_record_finalized_participation fb voters absent s = (Ok tt, s') ->
  let idx := finalized_participation_ring_seq s mod FINALIZED_PARTICIPATION_RETAIN in
  let evicted := (finalized_participation_ring s).[idx] in
  let recorded := (finalized_participation_recorded s).[fb <- true] in
  (s' = s /\ (voters ++ absent = [] \/ (finalized_participation_recorded s).[fb] = true)) \/
  ((finalized_participation_recorded s).[fb] = false
   /\ finalized_participation_ring s' = (finalized_participation_ring s).[idx <- fb]
   /\ finalized_participation_ring_seq s' = finalized_participation_ring_seq s + 1
   /\ finalized_participation_recorded s' =
        if negb (evicted =? 0) && negb (evicted =? fb) then recorded.[evicted <- false] else recorded).
Proof.
  unfold hook_record_finalized_participation. intros H.
  destruct (_ && _) eqn:He; [minv; bprop; subst; by eauto|]. minv.
  destruct (_.[fb]) eqn:Hrec; minv; [by eauto|right].
  match goal with H : record_finalized_participation _ _ _ = _ |- _ =>
    pose proof (keeps_run _ _ _ _ _ (participation_keeps_ring _ _) H) as Hk end.
  unfold ring_view in Hk. injection Hk as Hk1 Hk2 Hk3. unfold when in *. simpl in *.
  rewrite Hk1, Hk2, Hk3 in *.
  destruct (negb _ && negb _); minv; simpl; by rewrite ?Hk1, ?Hk2, ?Hk3.
Qed.

(** The hash recorded at sequence number [k] is still guarded. *)
Definition guarded (s : ValidatorSet) (k : Z) (fb : B256) : Prop :=
  ring_ok s /\ fb <> 0 /\ (finalized_participation_ring s).[k mod FINALIZED_PARTICIPATION_RETAIN] = fb
  /\ k < finalized_participation_ring_seq s.

Lemma guarded_recorded s k fb : guarded s k fb -> (finalized_participation_recorded s).[fb] = true.
Proof. intros ([_ Hr _] & Hfb & <- & _). by apply Hr. Qed.

Lemma hook_guard_new fb voters absent s s' :
  ring_ok s -> fb <> 0 ->
  hook_record_finalized_participation fb voters absent s = (Ok tt, s') ->
  ring_ok s' /\ ((s' = s /\ (voters ++ absent = [] \/ (finalized_participation_recorded s).[fb] = true))
     \/ finalized_participation_ring_seq s' = finalized_participation_ring_seq s + 1
     /\ (finalized_participation_recorded s).[fb] = false
     /\ guarded s' (finalized_participation_ring_seq s) fb
     /\ forall j, j <> finalized_participation_ring_seq s mod FINALIZED_PARTICIPATION_RETAIN ->
          (finalized_participation_ring s').[j] = (finalized_participation_ring s).[j]).
Proof.
  intros Hok Hfb Hrun.
  destruct (hook_ring _ _ _ _ _ Hrun) as [[-> ?]|(Hnew & Hring & Hseq & Hrec)];
    [by split; [|left]|].
  destruct Hok as [Hq Hr Hd].
  set (idx := finalized_participation_ring_seq s mod FINALIZED_PARTICIPATION_RETAIN) in *.
  assert (Hfresh : forall i, (finalized_participation_ring s).[i] <> fb).
  { intros i Hi. rewrite <- Hi in Hnew, Hfb. by rewrite Hr in Hnew. }
  assert (Hok' : ring_ok s').
  { constructor; rewrite ?Hseq, ?Hring; [lia|..].
    - intros i. rewrite Hrec, mread_mwrite. destruct (decide (idx = i)) as [<-|Hi]; intros Hne.
      + case_match eqn:Hev; bprop; rewrite !mread_mwrite; [rewrite decide_False by done|];
          by rewrite decide_True.
      + case_match eqn:Hev; bprop; rewrite !mread_mwrite;
          [rewrite decide_False by (intros He; apply Hi; by apply (Hd idx i))|];
          (rewrite decide_False by (intros He; by apply (Hfresh i))); by apply Hr.
    - intros i j. rewrite !mread_mwrite.
      destruct (decide (idx = i)) as [<-|Hi], (decide (idx = j)) as [<-|Hj]; try done.
      + intros _ He. by destruct (Hfresh j).
      + intros _ He. by destruct (Hfresh i).
      + apply Hd. }
  split; [done|]. right. split_and!; try done.
  - split_and!; try done; [by rewrite Hring, mread_mwrite_eq|lia].
  - intros j Hj. by rewrite Hring, mread_mwrite_ne.
Qed.

(** Recording one finalized block each, in order. *)
Definition record_all (blocks : list (B256 * list Address * list Address)) : VM unit :=
  mfor blocks (fun '(fb, voters, absent) => hook_record_finalized_participation fb voters absent).

Lemma record_all_guard k fb blocks : forall s s',
  guarded s k fb -> Forall (fun b => b.1.1 <> 0) blocks ->
  finalized_participation_ring_seq s + Z.of_nat (length blocks)
    <= k + FINALIZED_PARTICIPATION_RETAIN ->
  record_all blocks s = (Ok tt, s') -> guarded s' k fb.
Proof.
  unfold record_all. induction blocks as [|[[h v] ab] blocks IH]; intros s s' Hg Hnz Hlen Hrun.
  { simpl in Hrun. by minv. }
  cbn [mfor] in Hrun. minv. apply Forall_cons in Hnz as [Hh Hnz]. simpl in Hh, Hlen.
  destruct Hg as (Hok & Hfb & Hslot & Hlt).
  match goal with H : hook_record_finalized_participation _ _ _ _ = _ |- _ =>
    destruct (hook_guard_new _ _ _ _ _ Hok Hh H) as (Hok1 & [[-> _]|(Hseq & _ & _ & Hframe)]) end.
  - eapply IH; [| | |eassumption]; [done|done|lia].
  - eapply IH; [| | |eassumption]; [|done|lia]. split_and!; try done; [|lia].
    rewrite Hframe; [done|]. unfold FINALIZED_PARTICIPATION_RETAIN in *.
    intros He. pose proof (Z.div_mod k 64). pose proof (Z.div_mod (finalized_participation_ring_seq s) 64).
    pose proof (ro_seq _ Hok). lia.
Qed.

(** * Properties *)

(** C1. The registry is never corrupt: from a consistent registry, after any
    sequence of successful calls, every address decodes to a valid typed state,
    the dense registry enumerates exactly the registered validators without
    repetition, and no two registered validators share a consensus key hash or
    a Radicle NodeId. *)
Theorem registry_stays_consistent s0 s :
  vs_inv s0 -> rtc vs_exec s0 s ->
  (forall a, exists l, validator_lifecycle s a = Ok l /\ lifecycle_validate l = Ok tt)
  /\ (exists addrs, registered_validator_addresses s = Ok addrs /\ NoDup addrs
        /\ Z.of_nat (length addrs) = validator_count s
        /\ forall a, a ∈ addrs <-> is_validator s a = Ok true)
  /\ (forall a b la lb k k',
        validator_lifecycle s a = Ok la -> validator_lifecycle s b = Ok lb ->
        lifecycle_consensus_pubkey la = Some k -> lifecycle_consensus_pubkey lb = Some k' ->
        consensus_pubkey_hash k = consensus_pubkey_hash k' -> a = b)
  /\ (forall a b, is_validator s a = Ok true -> is_validator s b = Ok true ->
        (val_radicle_node_id s).[a] = (val_radicle_node_id s).[b] -> a = b).
Proof.
  intros H0 Hex. destruct (exec_inv _ _ Hex H0) as [L [Hc _ _]].
  assert (Hl : forall a, validator_lifecycle s a = Ok (L a)) by (intros; by eapply rep_lifecycle).
  assert (Hv : forall a, is_validator s a = Ok true <-> L a <> Absent).
  { intros a. unfold is_validator. rewrite (rep_state _ _ _ _ Hc). by destruct (L a). }
  split_and!.
  - intros a. exists (L a). split; [done|]. apply valid_validate, (cr_valid _ _ _ Hc).
  - exists (registry s). split_and!; [by eapply rep_addresses|by eapply registry_NoDup| |].
    + unfold registry. rewrite length_fmap, length_seqZ. pose proof (cr_count _ _ _ Hc). lia.
    + intros a. rewrite Hv. by apply registry_elem.
  - intros a b la lb k k'. rewrite !Hl. intros [= <-] [= <-] Ha Hb Hk.
    rewrite <- (cr_key _ _ _ Hc a k Ha), Hk. by apply (cr_key _ _ _ Hc).
  - intros a b Ha%Hv Hb%Hv Hn.
    rewrite <- (proj2 (cr_node _ _ _ Hc a Ha)), Hn. apply (cr_node _ _ _ Hc b Hb).
Qed.

(** C2. Every call implements the typed state machine: a successful call moves
    each validator along the pure transitions, re-indexing apart; only the
    committee boundary uses boundary transitions, one for each validator. *)
Theorem calls_refine_state_machine c s s' a :
  vs_inv s -> wf_call c -> run_call c s = (Ok tt, s') ->
  exists l l', validator_lifecycle s a = Ok l /\ validator_lifecycle s' a = Ok l'
    /\ if is_boundary c then l = l' \/ lifecycle_step true l l' else rtc registry_step l l'.
Proof.
  intros [L Hr] Hwf Hrun. destruct (call_rep c s L s' Hr Hwf Hrun) as (L' & Hr' & Hm).
  exists (L a), (L' a). split_and!; [apply (rep_lifecycle _ _ _ _ (vr_core _ _ Hr))
    |apply (rep_lifecycle _ _ _ _ (vr_core _ _ Hr'))|].
  specialize (Hm a). destruct (is_boundary c); [by destruct Hm|done].
Qed.

(** C3. The consensus committee changes only at a certified boundary: any other
    successful call leaves the participation of every address as it was. *)
Theorem committee_changes_only_at_boundary c s s' a :
  vs_inv s -> wf_call c -> is_boundary c = false -> run_call c s = (Ok tt, s') ->
  is_consensus_participant s' a = is_consensus_participant s a.
Proof.
  intros [L Hr] Hwf Hb Hrun. destruct (call_rep c s L s' Hr Hwf Hrun) as (L' & Hr' & Hm).
  rewrite (participant_lifecycle _ _ _ Hr), (participant_lifecycle _ _ _ Hr'), !participant_share.
  specialize (Hm a). rewrite Hb in Hm. by rewrite (registry_path_share _ _ Hm).
Qed.

(** The participants after a boundary. *)
Lemma boundary_participants new_set hash freeze exclusions s s' :
  vs_inv s ->
  activate_validated_boundary_set_with_expiry_exclusions new_set hash freeze exclusions s
    = (Ok tt, s') ->
  vs_inv s' /\ active_consensus_set_hash s' = hash
  /\ forall a, is_consensus_participant s' a = Ok (bool_decide (a ∈ new_set)).
Proof.
  intros [L Hr] Hrun. apply (boundary_next s L) in Hrun as (L' & Hr' & _ & Hset & Hhash); [|done].
  split_and!; [by exists L'|done|]. intros a.
  rewrite (participant_lifecycle _ _ _ Hr'), participant_share. f_equal.
  apply eq_bool_prop_intro. rewrite bool_decide_spec. by rewrite <- Hset, Is_true_true.
Qed.

(** C4. A successful boundary installs exactly the certified set: afterwards the
    participants are the members of the set, whose hash is recorded; a validator
    that joins holds an admitted OCOMP registration, and the TEE-expired
    validators the certificate excludes are no participants. *)
Theorem boundary_installs_certified_set new_set hash freeze exclusions s s' :
  vs_inv s ->
  activate_validated_boundary_set_with_expiry_exclusions new_set hash freeze exclusions s
    = (Ok tt, s') ->
  active_consensus_set_hash s' = hash
  /\ (forall a, is_consensus_participant s' a = Ok (bool_decide (a ∈ new_set)))
  /\ (forall a, a ∈ new_set -> is_consensus_participant s a = Ok false ->
        exists reg, ocomp_registration s a = Ok (Some reg))
  /\ (forall a, a ∈ exclusions -> is_consensus_participant s' a = Ok false).
Proof.
  intros [L Hr] Hrun. pose proof (exclusions_disjoint _ _ _ _ _ _ Hrun) as Hdis.
  destruct (boundary_participants _ _ _ _ _ _ ltac:(by exists L) Hrun) as (_ & _ & Hp).
  apply (boundary_next s L) in Hrun as (L' & Hr' & Hm & Hset & Hhash); [|done].
  split_and!; [done|done| |].
  - intros a Ha. rewrite (participant_lifecycle _ _ _ Hr), participant_share. intros [= Hs].
    apply Hset in Ha. pose proof (proj2 (Hm a) Hs Ha) as Hreg.
    destruct (vr_ocomp _ _ Hr a Hreg) as (_ & reg & Hd & _). exists reg.
    unfold ocomp_registration. by rewrite bool_decide_eq_false_2, Hd.
  - intros a Ha. rewrite Hp, bool_decide_eq_false_2; [done|]. by apply Hdis.
Qed.

(** C5. The cleanup sweep terminates within its fuel and removes only INACTIVE
    validators whose cooldown has passed and whose OCOMP recovery is settled;
    everyone else keeps their state up to the dense index. The removals are
    counted and capped, and an uncapped sweep leaves no removable entry; its
    only failure is a height overflow, which changes nothing. *)
Theorem cleanup_removes_exactly_expired env max_removals s r s' :
  vs_inv s -> cleanup_inactive_validators env max_removals s = (r, s') ->
  match r with
  | Ok n => 0 <= n /\ (0 < max_removals -> n <= max_removals)
      /\ validator_count s' = validator_count s - n
      /\ (forall a l, validator_lifecycle s a = Ok l ->
            exists l', validator_lifecycle s' a = Ok l' /\
              (reindexed l l' \/ (expired env (config_reregistration_cooldown s) s a /\ l' = Absent)))
      /\ (max_removals = 0 -> forall a, ~ expired env (config_reregistration_cooldown s) s' a)
  | Err e => e = Fatal "inactive cleanup height overflow" /\ s' = s
  | Panic => False
  end.
Proof.
  intros [L Hr] Hrun. pose proof (cleanup_ok env max_removals s L r s' Hr Hrun) as Hc.
  destruct r as [n|e|]; [|done..]. destruct Hc as (L' & Hr' & Hcount & Hsw & Hfull).
  unfold cleanup_inactive_validators in Hrun. minv. destruct x1 as [c rm]. minv.
  match goal with H : mwhile _ _ _ _ = _ |- _ => apply cleanup_cap in H as [Hn Hcap]; [|lia..] end.
  split_and!; try done.
  - intros a l. rewrite (rep_lifecycle _ _ _ _ (vr_core _ _ Hr)). intros [= <-]. exists (L' a).
    split; [apply (rep_lifecycle _ _ _ _ (vr_core _ _ Hr'))|].
    destruct (Hsw a) as [|[Hrm Ha]]; [by left|right]. split; [|done].
    by apply (expired_removable _ _ _ _ _ Hr).
  - intros H0 a Ha. apply (Hfull H0 a). by apply (expired_removable _ _ _ _ _ Hr').
Qed.

(** Role resolution: it never fails on a consistent registry, and it
    authorises exactly the role signer of an ACTIVE committee member, so each
    validator has one signer for each role. *)
Theorem resolve_authorises_role_signer s signer role :
  vs_inv s ->
  (exists r, resolve_validator_for_role s signer role = Ok r)
  /\ forall v, resolve_validator_for_role s signer role = Ok (Some v) <->
       signer = role_signer s v role /\ exists x, validator_lifecycle s v = Ok (Active x).
Proof.
  intros [L Hr]. rewrite (resolve_cases s L) by done. split; [by eexists|]. intros v.
  rewrite (rep_lifecycle _ _ _ _ (vr_core _ _ Hr)).
  pose proof (vr_delegates _ _ Hr) as [Hf Hd]. split.
  - intros Hrun. cbv zeta in Hrun.
    destruct (is_active _ && _) eqn:Hc; [|done]. apply andb_true_iff in Hc as [Hact Hs].
    injection Hrun as Hv. rewrite Hv in *. apply Z.eqb_eq in Hs. split; [done|].
    destruct (L v); try done. by eexists.
  - intros [Hs [x Hx]]. injection Hx as Hx. unfold role_signer in Hs.
    assert ((if decide (L signer = Absent)
             then (validator_by_role_delegate s).[(role_id role, signer)] else signer) = v) as ->.
    { destruct (Z.eqb_spec (get_delegate s v role) 0) as [Hz|Hz].
      - subst signer. by rewrite decide_False by (by rewrite Hx).
      - destruct (Hf v (role_id role) Hz) as [Hv0 Hrev]. unfold get_delegate in *.
        rewrite <- Hs in Hrev.
        destruct (Hd (role_id role) signer) as (_ & _ & Habs & _); [by rewrite Hrev|].
        by rewrite decide_True. }
    cbv zeta. rewrite Hx. unfold role_signer. by rewrite <- Hs, Z.eqb_refl.
Qed.

(** A registration that succeeds was made by the owner or the validator
    itself with a verified BLS proof of possession, for a non-zero address with
    no live registry entry and a key no other validator owns; a self-registration also
    found fewer than the cap of unstaked entries. The validator then waits for
    stake with the given key, and no other validator changes. *)
Theorem registration_is_authorised env caller a pubkey node sig s s' :
  vs_inv s ->
  register_validator_with_sig env caller a pubkey node sig s = (Ok tt, s') ->
  a <> 0 /\ (caller = config_owner s \/ caller = a)
  /\ (exists bytes, sig = Some bytes
        /\ verify_bls_registration_sig pubkey bytes (chain_id env) a node = Ok tt)
  /\ (caller = a -> exists n, registered_count s = Ok n /\ n < MAX_SELF_REGISTERED_UNSTAKED)
  /\ ((consensus_pubkey_hash_to_address s).[consensus_pubkey_hash pubkey] = 0
      \/ (consensus_pubkey_hash_to_address s).[consensus_pubkey_hash pubkey] = a)
  /\ (validator_lifecycle s a = Ok Absent \/ exists x, validator_lifecycle s a = Ok (Inactive x))
  /\ (exists x, validator_lifecycle s' a = Ok (WaitingForStake x) /\ consensus_pubkey x = pubkey
        /\ stake x = stake_zero /\ joined_at_height (history x) = block_number env)
  /\ (forall b, b <> a -> validator_lifecycle s' b = validator_lifecycle s b).
Proof.
  intros [L Hr] Hrun. unfold register_validator_with_sig in Hrun.
  destruct (registered_entry _ _ _ _ _ _ _ _ _ _ Hr Hrun)
    as (Ha0 & Hbefore & L' & x & Hr' & Hx & Hk & Hstk & Hj & Hother).
  unfold register_validator_inner in Hrun. minv.
  match goal with H : register_checks _ _ _ _ _ _ _ _ = Ok _ |- _ =>
    apply register_checks_ok in H as (_ & _ & Hcaller & _ & _ & Hkey & Hcap & Hpop) end.
  assert (Hl : forall b, validator_lifecycle s b = Ok (L b))
    by (intros; apply (rep_lifecycle _ _ _ _ (vr_core _ _ Hr))).
  assert (Hl' : forall b, validator_lifecycle s' b = Ok (L' b))
    by (intros; apply (rep_lifecycle _ _ _ _ (vr_core _ _ Hr'))).
  split_and!; try done.
  - by apply Hpop.
  - rewrite Hl. destruct Hbefore as [->|[y ->]]; eauto.
  - exists x. by rewrite Hl', Hx.
  - intros b Hb. by rewrite Hl, Hl', Hother.
Qed.

(** Unjailing on every branch: a validator jailed and excluded from the
    committee returns to the readiness path once the cooldown has elapsed, with
    its missed counters cleared and its slash history kept; before that, and in
    every other lifecycle state, the call fails and changes nothing. *)
Theorem unjail_outcome env a s l :
  vs_inv s -> validator_lifecycle s a = Ok l ->
  match l with
  | Jail x =>
      if u64_max <? jailed_at x + config_unjail_cooldown_blocks s
      then unjail_after_stake_check env a s = (Err (Fatal "unjail cooldown height overflow"), s)
      else if block_number env <? jailed_at x + config_unjail_cooldown_blocks s
      then unjail_after_stake_check env a s = (Err (Revert "unjail cooldown not elapsed"), s)
      else exists s', unjail_after_stake_check env a s = (Ok tt, s')
        /\ forall b, validator_lifecycle s' b =
             if decide (b = a) then Ok (WaitingForReadiness (unjailed x)) else validator_lifecycle s b
  | _ => exists e, unjail_after_stake_check env a s = (Err e, s)
  end.
Proof.
  intros [L Hr] Hl. rewrite (rep_lifecycle _ _ _ _ (vr_core _ _ Hr)) in Hl. injection Hl as <-.
  unfold unjail_after_stake_check, mbind, reads, lift, gets.
  rewrite (rep_state _ _ _ _ (vr_core _ _ Hr)). simpl.
  destruct (cr_valid _ _ _ (vr_core _ _ Hr) a) as [Hv Hwf].
  destruct (L a) as [| | | | | |x| | |] eqn:HL; simpl; try by eexists.
  assert (Hu := unjail_value x (block_number env) (config_unjail_cooldown_blocks s)
                  (proj1 (proj2 Hv) _ eq_refl)).
  unfold bonded_stake. simpl. rewrite Hu. unfold checked_add in *.
  destruct (Z.ltb_spec u64_max (jailed_at x + config_unjail_cooldown_blocks s)) as [Ho|Ho].
  { by rewrite (proj2 (Z.leb_gt _ _)) by lia. }
  rewrite (proj2 (Z.leb_le _ _)) in * by lia.
  destruct (Z.ltb_spec (block_number env) (jailed_at x + config_unjail_cooldown_blocks s)) as [Hc|Hc];
    [done|].
  destruct (commit_total s L a (Jail x) (WaitingForReadiness (unjailed x)) true
    [ValidatorUnjailed a (block_number env)]) as (-> & s' & Hrun & Hl); try done.
  { apply rtc_once. by eapply step_unjail. }
  exists s'. split; [exact Hrun|exact Hl].
Qed.

(** Punishment of an ACTIVE validator on every branch that accepts it:
    jailing or forcing an exit counts exactly one slash, stamps the height and
    keeps the share, and a repeated jailing is a no-op that counts nothing. *)
Theorem punish_counts_once env a jailing s x :
  vs_inv s -> validator_lifecycle s a = Ok (Active x) ->
  0 < block_number env -> slash_count (history x) < u64_max ->
  exists s' l, punish_validator env a jailing s = (Ok true, s')
    /\ validator_lifecycle s' a = Ok l /\ has_bls_share l = true
    /\ stored_status l = Some (if jailing then JAILED else EXITING)
    /\ lifecycle_stake l = Some (stake x)
    /\ (exists h, lifecycle_history l = Some h /\ slash_count h = slash_count (history x) + 1
         /\ last_deactivated_at_height h = Some (block_number env)
         /\ missed_votes h = missed_votes (history x))
    /\ (forall b, b <> a -> validator_lifecycle s' b = validator_lifecycle s b)
    /\ forall env', punish_validator env' a true s' = (Ok false, s').
Proof.
  intros [L Hr] Hl Hh Hs. rewrite (rep_lifecycle _ _ _ _ (vr_core _ _ Hr)) in Hl. injection Hl as HL.
  destruct (cr_valid _ _ _ (vr_core _ _ Hr) a) as [(_ & Hvs & _) _]. rewrite HL in Hvs.
  destruct (punish_path x jailing (block_number env) Hh (Hvs _ eq_refl)) as (l & Hl & Hw & Hp).
  destruct (commit_total s L a (Active x) (punished x jailing (block_number env)) true
    (if jailing then [ValidatorJailed a (block_number env)]
     else [ValidatorDeactivated a (block_number env); ValidatorForcedExit a (block_number env)]))
    as (Hwl & s' & Hrun & Hall); try done; [by destruct jailing..|].
  assert (Ha : validator_lifecycle s' a = Ok (punished x jailing (block_number env)))
    by (by rewrite Hall, decide_True).
  exists s', (punished x jailing (block_number env)). split_and!; try (by destruct jailing).
  - unfold punish_validator, mbind, reads, lift, gets.
    rewrite (rep_state _ _ _ _ (vr_core _ _ Hr)), HL. simpl.
    fold (punishing x jailing (block_number env)). rewrite Hl. unfold checked_add.
    rewrite (proj2 (Z.leb_le _ _)) by lia. simpl. rewrite Hw, Hwl. by rewrite Hrun.
  - destruct jailing; by eexists.
  - intros b Hb. by rewrite Hall, decide_False.
  - intros env'. eapply jail_again; [exact Ha|]. by destruct jailing.
Qed.

(** Participation of a finalized block is counted once: after its first
    recording, and after up to 63 more finalized blocks, recording the same
    block hash again succeeds and changes nothing. *)
Theorem finalized_participation_counted_once fb voters absent blocks s s1 s2 :
  ring_ok s -> fb <> 0 -> (finalized_participation_recorded s).[fb] = false ->
  voters ++ absent <> [] ->
  hook_record_finalized_participation fb voters absent s = (Ok tt, s1) ->
  Forall (fun b => b.1.1 <> 0) blocks -> Z.of_nat (length blocks) < FINALIZED_PARTICIPATION_RETAIN ->
  record_all blocks s1 = (Ok tt, s2) ->
  ring_ok s2
  /\ forall voters' absent', hook_record_finalized_participation fb voters' absent' s2 = (Ok tt, s2).
Proof.
  intros Hok Hfb Hnew Hne Hrun Hnz Hlen Hrest.
  destruct (hook_guard_new _ _ _ _ _ Hok Hfb Hrun) as (_ & [[_ [?|?]]|(Hseq & _ & Hg & _)]);
    [done|congruence|].
  pose proof (record_all_guard _ _ _ _ _ Hg Hnz ltac:(lia) Hrest) as Hg2.
  split; [apply Hg2|]. intros voters' absent'.
  unfold hook_record_finalized_participation, mbind, gets.
  destruct (_ && _); [done|]. by rewrite (guarded_recorded _ _ _ Hg2).
Qed.
End Props.

(** * Witnesses

    A toy instance of the external cryptography and a registry that two
    validators join, evaluated by the model. *)

#[local] Instance sample_externals : Externals := {|
  consensus_pubkey_hash k := k;
  ocomp_key_hash k := k;
  bls_public_key_from_bytes k := 0 <? k;
  bls_signature_from_bytes sig := bool_decide (length sig = 96%nat);
  bls_verify sig msg dst k := bool_decide (sig = replicate 96 (k mod 256));
  ocomp_decode_canonical bytes :=
    match bytes with
    | [chain; genesis; identity; key] => Some (mkOcomp chain genesis identity key 1 1 [])
    | _ => None
    end;
  ocomp_encode_canonical r :=
    Some [oc_chain_id r; oc_genesis_hash r; oc_validator_identity_hash r; oc_public_key_sec1 r];
  ocomp_validate_proof_of_possession _ := true;
  validator_identity_hash_v1 a k := Some (a + k) |}.

Definition at_block (n : Z) : Env := mkEnv n 5 99.
Definition sample_key (b : Z) : list Z := replicate 47 0 ++ [b].
Definition sample_sig (b : Z) : list Z := replicate 96 b.

Definition sample_genesis : ValidatorSet := vs_empty 1 100 10 20 30.

Definition join_calls (a b : Z) : list VsCall :=
  [ UserCall (at_block 1) 1 0 (registerValidator a (sample_key b) (b + 1000) (sample_sig b));
    SystemCall (at_block 2) (RecordStakeIncrease a 500 100);
    UserCall (at_block 3) a 0 (confirmValidatorReady [5; 99; a + b; b]) ].

Definition sample_joined : ValidatorSet :=
  snd (mfor (join_calls 10 7 ++ join_calls 11 8) run_call sample_genesis).
Definition sample_boundary (set : list Address) (freeze : Z) : VsCall :=
  SystemCall (at_block 10) (ActivateBoundary set 777 freeze []).
Definition sample_active : ValidatorSet := snd (run_call (sample_boundary [10; 11] 5) sample_joined).

Lemma calls_exec {X : Externals} (calls : list VsCall) : forall s s',
  Forall wf_call calls -> mfor calls run_call s = (Ok tt, s') -> rtc vs_exec s s'.
Proof.
  induction calls as [|c calls IH]; intros s s' Hwf Hrun; cbn [mfor] in Hrun; minv; [done|].
  apply Forall_cons in Hwf as [Hc Hwf]. eapply rtc_l; [by exists c|by eapply IH].
Qed.

Lemma run_snd {S A} (m : M S A) s a : fst (m s) = Ok a -> m s = (Ok a, snd (m s)).
Proof. intros <-. by destruct (m s). Qed.

Lemma sample_joined_exec : rtc vs_exec sample_genesis sample_joined.
Proof.
  eapply (calls_exec (join_calls 10 7 ++ join_calls 11 8)); [by repeat constructor|].
  unfold sample_joined. apply (run_snd (mfor _ run_call) sample_genesis). vm_compute. reflexivity.
Qed.
Lemma sample_joined_inv : vs_inv sample_joined.
Proof. eapply exec_inv; [apply sample_joined_exec|apply vs_empty_inv]. Qed.

Lemma sample_active_run : run_call (sample_boundary [10; 11] 5) sample_joined = (Ok tt, sample_active).
Proof.
  unfold sample_active. apply (run_snd (run_call _) sample_joined). vm_compute. reflexivity.
Qed.
Lemma sample_active_inv : vs_inv sample_active.
Proof.
  eapply exec_inv; [|apply sample_joined_inv]. apply rtc_once.
  exists (sample_boundary [10; 11] 5). split; [done|apply sample_active_run].
Qed.

Lemma registry_stays_consistent_witness :
  exists addrs, registered_validator_addresses sample_joined = Ok addrs /\ NoDup addrs
    /\ 10 ∈ addrs /\ 12 ∉ addrs.
Proof.
  destruct (registry_stays_consistent sample_genesis sample_joined) as (_ & (addrs & H & Hd & _ & He) & _).
  - apply vs_empty_inv.
  - apply sample_joined_exec.
  - exists addrs. rewrite !He. split_and!; [done|done|by vm_compute|]. vm_compute. congruence.
Defined.

Lemma calls_refine_state_machine_witness :
  exists l l', validator_lifecycle sample_joined 10 = Ok l
    /\ validator_lifecycle sample_active 10 = Ok l' /\ (l = l' \/ lifecycle_step true l l').
Proof.
  apply (calls_refine_state_machine (sample_boundary [10; 11] 5)).
  - apply sample_joined_inv.
  - exact I.
  - apply sample_active_run.
Defined.

Definition jail_call : VsCall := SystemCall (at_block 12) (JailValidator 11).
Definition sample_jailed : ValidatorSet := snd (run_call jail_call sample_active).

Lemma sample_jailed_run : run_call jail_call sample_active = (Ok tt, sample_jailed).
Proof.
  unfold sample_jailed. apply (run_snd (run_call _) sample_active). vm_compute. reflexivity.
Qed.

Lemma committee_changes_only_at_boundary_witness :
  is_consensus_participant sample_jailed 11 = is_consensus_participant sample_active 11.
Proof.
  apply (committee_changes_only_at_boundary jail_call).
  - apply sample_active_inv.
  - exact I.
  - reflexivity.
  - apply sample_jailed_run.
Defined.

Lemma boundary_installs_certified_set_witness :
  active_consensus_set_hash sample_active = 777
  /\ is_consensus_participant sample_active 10 = Ok true
  /\ is_consensus_participant sample_active 12 = Ok false.
Proof.
  destruct (boundary_installs_certified_set [10; 11] 777 5 [] sample_joined sample_active)
    as (H1 & H2 & _).
  - apply sample_joined_inv.
  - apply sample_active_run.
  - rewrite !H2. by split_and!.
Defined.

(** Validator 11 leaves, drains its stake and becomes INACTIVE. *)
Definition leave_calls : list VsCall :=
  [ UserCall (at_block 12) 11 0 (deactivateValidator 11);
    SystemCall (at_block 13) (RecordUnstake 11 0 100 40);
    SystemCall (at_block 20) (ActivateBoundary [10] 778 15 []);
    SystemCall (at_block 41) (CompleteUnbonding 11) ].
Definition sample_left : ValidatorSet := snd (mfor leave_calls run_call sample_active).

Lemma sample_left_inv : vs_inv sample_left.
Proof.
  eapply exec_inv; [|apply sample_active_inv].
  eapply (calls_exec leave_calls); [by repeat constructor|].
  unfold sample_left. apply (run_snd (mfor _ run_call) sample_active). vm_compute. reflexivity.
Qed.

Definition sample_swept : ValidatorSet := snd (cleanup_inactive_validators (at_block 50) 0 sample_left).

Lemma cleanup_removes_exactly_expired_witness :
  0 <= 1 /\ validator_count sample_swept = validator_count sample_left - 1
  /\ forall a, ~ expired (at_block 50) 20 sample_swept a.
Proof.
  destruct (cleanup_removes_exactly_expired (at_block 50) 0 sample_left (Ok 1) sample_swept)
    as (H1 & _ & H2 & _ & H3).
  - apply sample_left_inv.
  - unfold sample_swept. apply (run_snd (cleanup_inactive_validators _ _) sample_left).
    vm_compute. reflexivity.
  - split_and!; [exact H1|exact H2|]. apply H3. reflexivity.
Defined.

Definition delegate_call : VsCall := UserCall (at_block 12) 10 0 (setDelegate 1 50).
Definition sample_delegated : ValidatorSet := snd (run_call delegate_call sample_active).
Lemma sample_delegated_inv : vs_inv sample_delegated.
Proof.
  eapply exec_inv; [|apply sample_active_inv]. apply rtc_once. exists delegate_call.
  split; [done|]. unfold sample_delegated. apply (run_snd (run_call _) sample_active).
  vm_compute. reflexivity.
Qed.

Lemma resolve_authorises_role_signer_witness :
  resolve_validator_for_role sample_delegated 50 Oracle = Ok (Some 10).
Proof.
  apply (resolve_authorises_role_signer sample_delegated 50 Oracle).
  - apply sample_delegated_inv.
  - split; [by vm_compute|]. vm_compute. by eexists.
Defined.

Lemma registration_is_authorised_witness :
  exists x, validator_lifecycle
    (snd (register_validator_with_sig (at_block 1) 12 12 9 1009 (Some (sample_sig 9)) sample_active)) 12
    = Ok (WaitingForStake x) /\ consensus_pubkey x = 9.
Proof.
  destruct (registration_is_authorised (at_block 1) 12 12 9 1009 (Some (sample_sig 9)) sample_active
    (snd (register_validator_with_sig (at_block 1) 12 12 9 1009 (Some (sample_sig 9)) sample_active)))
    as (_ & _ & _ & _ & _ & _ & (x & Hx & Hk & _) & _).
  - apply sample_active_inv.
  - apply (run_snd (register_validator_with_sig _ _ _ _ _ _) sample_active). vm_compute. reflexivity.
  - exists x. exact (conj Hx Hk).
Defined.

(** Validator 11 jailed and excluded at the next boundary. *)
Definition exclude_calls : list VsCall :=
  [ jail_call; SystemCall (at_block 20) (ActivateBoundary [10] 778 15 []) ].
Definition sample_excluded : ValidatorSet := snd (mfor exclude_calls run_call sample_active).
Lemma sample_excluded_inv : vs_inv sample_excluded.
Proof.
  eapply exec_inv; [|apply sample_active_inv].
  eapply (calls_exec exclude_calls); [by repeat constructor|].
  unfold sample_excluded. apply (run_snd (mfor _ run_call) sample_active). vm_compute. reflexivity.
Qed.

Definition excluded_entry : Jail_t :=
  mkJailed (mkPayload 2 8 Unset (mkStake 500 None) (mkHistory 1 (Some 12) 1 0 0 0)) 12.

Lemma unjail_outcome_witness :
  unjail_after_stake_check (at_block 41) 11 sample_excluded
    = (Err (Revert "unjail cooldown not elapsed"), sample_excluded)
  /\ exists s', unjail_after_stake_check (at_block 42) 11 sample_excluded = (Ok tt, s')
       /\ validator_lifecycle s' 11 = Ok (WaitingForReadiness (unjailed excluded_entry)).
Proof.
  assert (Hl : validator_lifecycle sample_excluded 11 = Ok (Jail excluded_entry))
    by (vm_compute; reflexivity).
  split.
  - exact (unjail_outcome (at_block 41) 11 sample_excluded (Jail excluded_entry)
             sample_excluded_inv Hl).
  - assert (Hu : exists s', unjail_after_stake_check (at_block 42) 11 sample_excluded = (Ok tt, s')
      /\ forall b, validator_lifecycle s' b =
           if decide (b = 11) then Ok (WaitingForReadiness (unjailed excluded_entry))
           else validator_lifecycle sample_excluded b)
      by exact (unjail_outcome (at_block 42) 11 sample_excluded (Jail excluded_entry)
                  sample_excluded_inv Hl).
    destruct Hu as (s' & Hs & Ha). exists s'. split; [exact Hs|]. exact (Ha 11).
Defined.

Definition active_entry : Active_t := mkPayload 2 8 Unset (mkStake 500 None) (history_fresh 1).

Lemma punish_counts_once_witness :
  exists s' l, punish_validator (at_block 12) 11 true sample_active = (Ok true, s')
    /\ validator_lifecycle s' 11 = Ok l /\ has_bls_share l = true
    /\ punish_validator (at_block 13) 11 true s' = (Ok false, s').
Proof.
  destruct (punish_counts_once (at_block 12) 11 true sample_active active_entry)
    as (s' & l & H1 & H2 & H3 & _ & _ & _ & _ & H4).
  - apply sample_active_inv.
  - vm_compute. reflexivity.
  - vm_compute. reflexivity.
  - vm_compute. reflexivity.
  - exists s', l. split_and!; [exact H1|exact H2|exact H3|apply H4].
Defined.

Lemma ring_empty_ok s :
  finalized_participation_ring s = ∅ -> finalized_participation_ring_seq s = 0 -> ring_ok s.
Proof.
  intros H1 H2. constructor; rewrite ?H1, ?H2; [done|..]; intros i; by rewrite mread_empty.
Qed.

Definition recorded_once : ValidatorSet :=
  snd (hook_record_finalized_participation 300 [10] [11] sample_active).
Definition recorded_more : ValidatorSet := snd (record_all [(301, [10; 11], [])] recorded_once).

Lemma finalized_participation_counted_once_witness :
  hook_record_finalized_participation 300 [10] [11] recorded_more = (Ok tt, recorded_more).
Proof.
  apply (finalized_participation_counted_once 300 [10] [11] [(301, [10; 11], [])]
           sample_active recorded_once recorded_more).
  - by apply ring_empty_ok; vm_compute.
  - lia.
  - vm_compute. reflexivity.
  - discriminate.
  - unfold recorded_once.
    apply (run_snd (hook_record_finalized_participation _ _ _) sample_active). vm_compute. reflexivity.
  - by repeat constructor.
  - vm_compute. reflexivity.
  - unfold recorded_more. apply (run_snd (record_all _) recorded_once). vm_compute. reflexivity.
Defined.
