(* ===== verification/ValidatorSetStake.v ===== *)
(** The stake projection of the validator registry: how each call of its surface
    changes the bonded value it mirrors for Staking. Only the four stake facade
    calls change it, for the validator they name and to the value they are given. *)

From stdpp Require Import functions.
From S2P Require Import Prelude Bytes P2pAddress Lifecycle.
From S2P Require Import ValidatorSet ValidatorSetInv ValidatorSetMoves ValidatorSetProps.

(** The bonded value the registry reports for an address. *)
Definition stake_of (s : ValidatorSet) (a : Address) : Z := (val_stake (fields s)).[a].

Definition bonded_of (l : ValidatorLifecycle) : Z :=
  match lifecycle_stake l with Some stk => bonded stk | None => 0 end.

(** The validator and the bonded value a stake facade call records. *)
Definition call_stake (c : VsCall) : option (Address * Z) :=
  match c with
  | SystemCall _ (RecordStakeIncrease a b _) => Some (a, b)
  | SystemCall _ (RecordUnstake a b _ _) => Some (a, b)
  | SystemCall _ (RecordStakeSlash a b _ _) => Some (a, b)
  | SystemCall _ (RecordOcompBondedSlash a b) => Some (a, b)
  | _ => None
  end.

Section Stake.
Context {X : Externals}.

Lemma rep_stake s L a : vs_rep s L -> stake_of s a = bonded_of (L a).
Proof.
  intros Hr. pose proof (cr_row _ _ _ (vr_core _ _ Hr) a) as Hrow.
  apply (f_equal sv_stake) in Hrow. unfold stake_of, bonded_of. simpl in Hrow. rewrite Hrow.
  unfold encode_row. by destruct (match lifecycle_p2p (L a) with Some _ => _ | None => _ end).
Qed.

Lemma step_true_bonded l l' : lifecycle_step true l l' -> bonded_of l' = bonded_of l.
Proof. intros Hs. remember true as b eqn:Hb. step_cases Hs; done. Qed.
Lemma reindexed_bonded l l' : reindexed l l' -> bonded_of l' = bonded_of l.
Proof. intros Hre%(f_equal bonded_of). by destruct l, l'. Qed.

Lemma update_stake s s' L a l b :
  vs_rep s L -> vs_rep s' (<[a := l]> L) ->
  stake_of s' b = if decide (b = a) then bonded_of l else stake_of s b.
Proof.
  intros Hr Hr'. rewrite (rep_stake _ _ b Hr'), (rep_stake _ _ b Hr).
  case_decide as Hb; [subst; by rewrite fn_lookup_insert|by rewrite fn_lookup_insert_ne].
Qed.

Lemma commit_stake s L a l0 l after sc es s' v :
  vs_rep s L -> L a = l0 -> with_lifecycle (mkState a l0) l = Ok after ->
  rtc (lifecycle_step false) l0 l -> bonded_of l = v ->
  commit_transition (mkState a l0) after sc es s = (Ok tt, s') ->
  forall b, stake_of s' b = if decide (b = a) then v else stake_of s b.
Proof.
  intros Hr <- Hw Hp <- Hrun b. eapply update_stake; [done|]. by eapply commit_next.
Qed.
Lemma persist_stake s L a l0 l after s' v :
  vs_rep s L -> L a = l0 -> with_lifecycle (mkState a l0) l = Ok after ->
  rtc (lifecycle_step false) l0 l -> bonded_of l = v ->
  persist_validator_state_delta (mkState a l0) after s = (Ok tt, s') ->
  forall b, stake_of s' b = if decide (b = a) then v else stake_of s b.
Proof.
  intros Hr <- Hw Hp <- Hrun b. eapply update_stake; [done|]. by eapply persist_next.
Qed.

Lemma with_stake_bonded l stk l' :
  with_stake l stk = Ok l' -> bonded_of l' = bonded stk.
Proof. unfold with_stake. intros H. destruct l; minv_all; done. Qed.
Lemma with_p2p_bonded l info l' : with_p2p l info = Ok l' -> bonded_of l' = bonded_of l.
Proof. unfold with_p2p. intros H. destruct l; minv_all; done. Qed.
Lemma with_history_bonded l h l' : with_history l h = Ok l' -> bonded_of l' = bonded_of l.
Proof. unfold with_history. intros H. destruct l; minv_all; done. Qed.
End Stake.

(** The bonded value of the payload a transition builds. *)
Ltac bonded :=
  repeat match goal with
  | H : with_stake _ _ = Ok _ |- _ => apply with_stake_bonded in H
  | H : with_p2p _ _ = Ok _ |- _ => apply with_p2p_bonded in H
  | H : with_history _ _ = Ok _ |- _ => apply with_history_bonded in H
  end;
  unfold bonded_of, reach_minimum, demote_waiting_for_readiness, demote_joining, begin_exit,
    full_exit_jailed_retained, full_exit_jailed, unjail, jail, complete_unbonding in *;
  minv_all; simpl in *; try congruence.
Ltac commit_stake_tac :=
  eapply commit_stake; [eassumption|eassumption|eassumption| | |eassumption]; [path|bonded].

Section Calls.
Context {X : Externals}.

Lemma increase_stake s L a v m s' :
  vs_rep s L -> record_stake_increase a v m s = (Ok tt, s') ->
  forall b, stake_of s' b = if decide (b = a) then v else stake_of s b.
Proof.
  intros H Hrun. unfold record_stake_increase in Hrun. minv. open_state L.
  destruct (L a) eqn:HL; minv_all; commit_stake_tac.
Qed.
Lemma unstake_stake env s L a v m h s' :
  vs_rep s L -> record_unstake env a v m h s = (Ok tt, s') ->
  forall b, stake_of s' b = if decide (b = a) then v else stake_of s b.
Proof.
  intros H Hrun. unfold record_unstake in Hrun. minv. open_state L.
  destruct (L a) eqn:HL; minv_all; commit_stake_tac.
Qed.
Lemma slash_stake_of env s L a v m h s' :
  vs_rep s L -> record_stake_slash env a v m h s = (Ok tt, s') ->
  forall b, stake_of s' b = if decide (b = a) then v else stake_of s b.
Proof.
  intros H Hrun. unfold record_stake_slash in Hrun. minv. open_state L.
  destruct (L a) eqn:HL; minv_all; commit_stake_tac.
Qed.

Lemma bonded_slash_stake s L a v s' :
  vs_rep s L -> record_ocomp_bonded_slash a v s = (Ok tt, s') ->
  forall b, stake_of s' b = if decide (b = a) then v else stake_of s b.
Proof.
  intros H Hrun. unfold record_ocomp_bonded_slash in Hrun. minv. open_state L.
  eapply persist_stake; [eassumption|reflexivity|eassumption| | |eassumption]; [path|bonded].
Qed.

(** A transition that keeps the bonded value keeps every stake. *)
Lemma commit_keeps s L a l0 l after sc es s' :
  vs_rep s L -> L a = l0 -> with_lifecycle (mkState a l0) l = Ok after ->
  rtc (lifecycle_step false) l0 l -> bonded_of l = bonded_of l0 ->
  commit_transition (mkState a l0) after sc es s = (Ok tt, s') ->
  forall b, stake_of s' b = stake_of s b.
Proof.
  intros Hr HL Hw Hp Hb Hrun b. rewrite (commit_stake s L a l0 l after sc es s' _ Hr HL Hw Hp Hb Hrun).
  case_decide; [|done]. subst. by rewrite (rep_stake _ _ _ Hr).
Qed.
Lemma persist_keeps s L a l0 l after s' :
  vs_rep s L -> L a = l0 -> with_lifecycle (mkState a l0) l = Ok after ->
  rtc (lifecycle_step false) l0 l -> bonded_of l = bonded_of l0 ->
  persist_validator_state_delta (mkState a l0) after s = (Ok tt, s') ->
  forall b, stake_of s' b = stake_of s b.
Proof.
  intros Hr HL Hw Hp Hb Hrun b. rewrite (persist_stake s L a l0 l after s' _ Hr HL Hw Hp Hb Hrun).
  case_decide; [|done]. subst. by rewrite (rep_stake _ _ _ Hr).
Qed.
End Calls.

Ltac commit_keeps_tac :=
  eapply commit_keeps; [eassumption|eassumption|eassumption| | |eassumption]; [path|bonded].

Section Keeps.
Context {X : Externals}.

Lemma deactivate_stake env s L caller a s' :
  vs_rep s L -> deactivate_validator env caller a s = (Ok tt, s') ->
  forall b, stake_of s' b = stake_of s b.
Proof.
  intros H Hrun. unfold deactivate_validator in Hrun. minv. open_state L.
  destruct (L a) eqn:HL; minv_all; commit_keeps_tac.
Qed.
Lemma unjail_stake env s L a s' :
  vs_rep s L -> unjail_after_stake_check env a s = (Ok tt, s') ->
  forall b, stake_of s' b = stake_of s b.
Proof.
  intros H Hrun. unfold unjail_after_stake_check in Hrun. minv. open_state L.
  destruct (L a) eqn:HL; minv_all; commit_keeps_tac.
Qed.
Lemma punish_stake env s L a jailing r s' :
  vs_rep s L -> punish_validator env a jailing s = (Ok r, s') ->
  forall b, stake_of s' b = stake_of s b.
Proof.
  intros H Hrun. unfold punish_validator in Hrun. minv. open_state L.
  destruct (L a) eqn:HL; minv_all; try done; commit_keeps_tac.
Qed.
Lemma tee_expiry_stake env s L a r s' :
  vs_rep s L -> jail_validator_for_tee_expiry env a s = (Ok r, s') ->
  forall b, stake_of s' b = stake_of s b.
Proof.
  intros H Hrun. unfold jail_validator_for_tee_expiry in Hrun. minv. open_state L.
  destruct (L a) eqn:HL; minv_all; try done; commit_keeps_tac.
Qed.
Lemma complete_unbonding_stake s L a s' :
  vs_rep s L -> vs_complete_unbonding a s = (Ok tt, s') ->
  forall b, stake_of s' b = stake_of s b.
Proof.
  intros H Hrun. unfold vs_complete_unbonding in Hrun. minv. open_state L.
  destruct (L a) eqn:HL; minv_all; try done.
  eapply persist_keeps; [eassumption..| | |eassumption]; [path|].
  bonded. bprop. unfold bonded_stake in *. simpl in *. congruence.
Qed.
Lemma set_p2p_stake s L caller a version encoded s' :
  vs_rep s L -> Forall byte encoded ->
  set_p2p_address caller a version encoded s = (Ok tt, s') ->
  forall b, stake_of s' b = stake_of s b.
Proof.
  intros H Hb Hrun. unfold set_p2p_address in Hrun. minv. open_state L. bprop. subst.
  unfold decode_versioned in *. simpl in *. minv_all.
  match goal with Hd : decode_v1 _ = inr _ |- _ =>
    apply encode_of_decode_v1 in Hd as [_ Hwf]; [|done] end.
  eapply persist_keeps; [eassumption|reflexivity|eassumption| | |eassumption]; [|bonded].
  apply rtc_once. by eapply step_with_p2p; [|eassumption].
Qed.

Lemma confirm_stake env s L caller encoded s' :
  vs_rep s L -> confirm_validator_ready env caller encoded s = (Ok tt, s') ->
  forall b, stake_of s' b = stake_of s b.
Proof.
  intros H Hrun. unfold confirm_validator_ready, signal_set_change in Hrun. minv. open_state L.
  match goal with H : match _ with Some _ => _ | None => _ end ?s0 = (Ok _, ?s1) |- _ =>
    assert (s1 = s0) as -> by (eapply ro_run; [|exact H]; solve_ro) end.
  match goal with H : persist_validator_state_delta _ _ _ = _ |- _ => rename H into Hper end.
  intros b. eapply (persist_keeps _ L) in Hper; [exact Hper|..|eassumption| |].
  - apply ocomp_admit; eauto using pubkey_some. bprop. intuition (bprop; auto).
  - reflexivity.
  - destruct (L caller) eqn:HL; simpl in *; minv; try done; path.
  - destruct (L caller) eqn:HL; simpl in *; minv; done.
Qed.

Lemma register_stake env s L caller a pubkey node sig pop s' :
  vs_rep s L ->
  register_validator_inner env caller a pubkey node sig pop s = (Ok tt, s') ->
  forall b, stake_of s' b = stake_of s b.
Proof.
  intros Hr Hrun b.
  destruct (registered_entry _ _ _ _ _ _ _ _ _ _ Hr Hrun)
    as (_ & Hbefore & L' & x & Hr' & Hx & _ & Hstk & _ & Hother).
  rewrite (rep_stake _ _ _ Hr), (rep_stake _ _ _ Hr').
  destruct (decide (b = a)) as [->|Hb]; [|by rewrite Hother].
  rewrite Hx. unfold bonded_of. simpl. rewrite Hstk. by destruct Hbefore as [->|[y ->]].
Qed.

Lemma boundary_stake s L set hash freeze excl s' :
  vs_rep s L ->
  activate_validated_boundary_set_with_expiry_exclusions set hash freeze excl s = (Ok tt, s') ->
  forall b, stake_of s' b = stake_of s b.
Proof.
  intros Hr Hrun b. apply (boundary_next s L) in Hrun as (L' & Hr' & Hm & _); [|done].
  rewrite (rep_stake _ _ _ Hr), (rep_stake _ _ _ Hr').
  destruct (Hm b) as [[->|Hs] _]; [done|by apply step_true_bonded].
Qed.

Lemma cleanup_stake env n s L r s' :
  vs_rep s L -> cleanup_inactive_validators env n s = (Ok r, s') ->
  forall b, stake_of s' b = stake_of s b.
Proof.
  intros Hr Hrun b. apply (cleanup_ok _ _ _ L) in Hrun as (L' & Hr' & _ & Hsw & _); [|done].
  rewrite (rep_stake _ _ _ Hr), (rep_stake _ _ _ Hr').
  destruct (Hsw b) as [Hre|[(x & h & Hx & _) Ha]]; [by apply reindexed_bonded|].
  by rewrite Hx, Ha.
Qed.

(** The participation counters and the epoch are other fields. *)
Lemma keeps_stake_of {A} (m : VM A) s r s' :
  keeps (fun s => val_stake (fields s)) m -> m s = (r, s') ->
  forall b, stake_of s' b = stake_of s b.
Proof. intros Hk Hrun b. unfold stake_of. by rewrite (keeps_run _ _ _ _ _ Hk Hrun). Qed.

End Keeps.

(** A call that writes other fields only. *)
Ltac keep_fields :=
  eapply keeps_stake_of; [|eassumption];
  unfold hook_record_proposer, record_proposer, hook_record_participation, record_participation,
    hook_record_finalized_participation, record_finalized_participation, count_missed_vote,
    reset_epoch_counters, advance_epoch, record_ocomp_miss, resolve_ocomp_recovery_window,
    close_ocomp_recovery_window, set_delegate, revoke_delegate, vs_emit, when;
  solve_keeps.

Section Surface.
Context {X : Externals}.

(** Every call of the registry: the stake facade records its value, and every
    other call keeps the projection of every validator. *)
Lemma call_stake_effect c s s' :
  vs_inv s -> wf_call c -> run_call c s = (Ok tt, s') ->
  forall b, stake_of s' b =
    match call_stake c with
    | Some (a, v) => if decide (b = a) then v else stake_of s b
    | None => stake_of s b
    end.
Proof.
  intros [L Hr] Hwf Hrun. destruct c as [env caller value c|env c]; simpl in Hrun.
  - unfold vs_dispatch in Hrun. destruct c as [role d|role| | | |]; simpl in *; minv;
      eauto using register_stake, set_p2p_stake, deactivate_stake, confirm_stake.
    all: keep_fields.
  - unfold vs_system, discard, force_exit_validator, jail_validator in Hrun.
    destruct c; simpl in *; minv;
      eauto using increase_stake, unstake_stake, slash_stake_of, bonded_slash_stake,
        complete_unbonding_stake, punish_stake, tee_expiry_stake, unjail_stake, boundary_stake,
        cleanup_stake.
    all: keep_fields.
Qed.
End Surface.
