(* ===== verification/Snapshots.v ===== *)
(** The committee snapshot store: the canonical committee of each retained
    epoch with its OCOMP extension, written at every boundary and read by the
    evidence verifiers.

    Sources: [crates/blockchain/consensus/src/proof/committee.rs] (the snapshot
    and its hashes), [crates/system/validatorset/src/state.rs] (the store, slots
    31 to 58 of [schema.rs]) and [hooks.rs] ([activate_boundary_atomic]).
    [keccak256] is the parameter of the class [Keccak]; the registry the writer
    consults is an argument, because the store does not change it. *)

From S2P Require Import Prelude Bytes P2pAddress Lifecycle.
From S2P Require Import ValidatorSet ValidatorSetInv ValidatorSetMoves.

(** * Data (committee.rs) *)

Record CommitteeEntry : Type := mkEntry {
  entry_address : Address;
  entry_pubkey : ConsensusPubkey }.

Record CommitteeSnapshot : Type := mkSnapshot {
  committee : list CommitteeEntry;
  vrf_material_version : Z;
  vrf_group_public_key_bytes : list Z;
  vrf_public_polynomial_hash : B256 }.

Record OcompSnapshotMemberV1 : Type := mkMember {
  validator_address : Address;
  ocomp_public_key_sec1 : Z;
  key_epoch : Z }.

Record OcompSnapshotExtensionV1 : Type := mkExtension {
  ext_epoch : Z;
  ext_committee_set_hash : B256;
  ext_ocomp_binding_hash : B256;
  ext_member_count : Z }.

#[global] Instance CommitteeEntry_eq_dec : EqDecision CommitteeEntry.
Proof. solve_decision. Defined.
#[global] Instance CommitteeSnapshot_eq_dec : EqDecision CommitteeSnapshot.
Proof. solve_decision. Defined.
#[global] Instance OcompSnapshotMemberV1_eq_dec : EqDecision OcompSnapshotMemberV1.
Proof. solve_decision. Defined.
#[global] Instance OcompSnapshotExtensionV1_eq_dec : EqDecision OcompSnapshotExtensionV1.
Proof. solve_decision. Defined.

(** The snapshot slots of the ValidatorSet contract. *)
Record SnapshotStore : Type := mkSnapshots {
  committee_snapshot_exists : gmap B256 bool;
  committee_snapshot_len : gmap B256 Z;
  committee_snapshot_address_at : gmap (B256 * Z) Address;
  committee_snapshot_pubkey_lo_at : gmap (B256 * Z) B256;
  committee_snapshot_pubkey_hi_at : gmap (B256 * Z) B256;
  committee_snapshot_vrf_material_version : gmap B256 Z;
  committee_snapshot_vrf_group_public_key_hash : gmap B256 B256;
  committee_snapshot_vrf_group_public_key_len : gmap B256 Z;
  committee_snapshot_vrf_group_public_key_chunk_at : gmap (B256 * Z) B256;
  committee_snapshot_key_ring : gmap Z B256;
  committee_snapshot_vrf_public_polynomial_hash : gmap B256 B256;
  committee_snapshot_ocomp_epoch : gmap B256 Z;
  committee_snapshot_ocomp_consensus_hash : gmap B256 B256;
  committee_snapshot_ocomp_binding_hash : gmap B256 B256;
  committee_snapshot_ocomp_member_count : gmap B256 Z;
  committee_snapshot_ocomp_key_lo_at : gmap (B256 * Z) B256;
  committee_snapshot_ocomp_key_hi_at : gmap (B256 * Z) B256;
  committee_snapshot_ocomp_key_epoch_at : gmap (B256 * Z) Z }.

#[global] Instance SnapshotStore_eta : Eta SnapshotStore := fun s =>
  mkSnapshots (committee_snapshot_exists s) (committee_snapshot_len s)
    (committee_snapshot_address_at s) (committee_snapshot_pubkey_lo_at s)
    (committee_snapshot_pubkey_hi_at s) (committee_snapshot_vrf_material_version s)
    (committee_snapshot_vrf_group_public_key_hash s)
    (committee_snapshot_vrf_group_public_key_len s)
    (committee_snapshot_vrf_group_public_key_chunk_at s) (committee_snapshot_key_ring s)
    (committee_snapshot_vrf_public_polynomial_hash s) (committee_snapshot_ocomp_epoch s)
    (committee_snapshot_ocomp_consensus_hash s) (committee_snapshot_ocomp_binding_hash s)
    (committee_snapshot_ocomp_member_count s) (committee_snapshot_ocomp_key_lo_at s)
    (committee_snapshot_ocomp_key_hi_at s) (committee_snapshot_ocomp_key_epoch_at s).

Definition snapshots_empty : SnapshotStore :=
  mkSnapshots ∅ ∅ ∅ ∅ ∅ ∅ ∅ ∅ ∅ ∅ ∅ ∅ ∅ ∅ ∅ ∅ ∅ ∅.

Abbreviation CM := (M SnapshotStore).

Definition u16_max : Z := 2 ^ 16 - 1.
Definition COMMITTEE_SNAPSHOT_RETAIN_EPOCHS : Z := 8.
Definition POC_KEY_EPOCH : Z := 1.
Definition RESULT_SIGNATURE_PURPOSE_BITMAP : Z := 1.

(** [iter().enumerate()]. *)
Fixpoint enumerate_from {A} (i : Z) (l : list A) : list (Z * A) :=
  match l with
  | [] => []
  | x :: l' => (i, x) :: enumerate_from (i + 1) l'
  end.
Definition enumerate {A} (l : list A) : list (Z * A) := enumerate_from 0 l.

(** [next_vrf_material_version]: the version never saturates. *)
Definition next_vrf_material_version (previous : Z) : option Z := checked_add u64_max previous 1.

(** A 48-byte key is its first 32 bytes and its last 16 bytes, right-padded; a
    33-byte key its first 32 bytes and its last byte, right-padded. *)
Definition split_pubkey (pubkey : ConsensusPubkey) : B256 * B256 :=
  (pubkey / 2 ^ 128, (pubkey mod 2 ^ 128) * 2 ^ 128).
Definition join_pubkey (lo hi : B256) : ConsensusPubkey := lo * 2 ^ 128 + hi / 2 ^ 128.
Definition split_ocomp_public_key (public_key : Z) : B256 * B256 :=
  (public_key / 2 ^ 8, (public_key mod 2 ^ 8) * 2 ^ 248).
Definition join_ocomp_public_key (lo hi : B256) : result Z :=
  if negb (hi mod 2 ^ 248 =? 0)
  then Err (Fatal "stored OCOMP snapshot public-key padding is non-zero")
  else Ok (lo * 2 ^ 8 + hi / 2 ^ 248).

(** [chunks(32)], each copied to the front of a zeroed word, and the reading
    side: every chunk whole but the last, which is cut to its length. *)
Definition num_chunks (len : Z) : Z := (len + 31) / 32.
Definition chunks32 (bytes : list Z) : list (list Z) :=
  (fun i => take 32 (drop (32 * i) bytes)) <$> seq 0 (Z.to_nat (num_chunks (Z.of_nat (length bytes)))).
Definition chunk_word (chunk : list Z) : B256 :=
  be_value (chunk ++ replicate (32 - length chunk) 0).
Definition last_chunk_take (len : Z) : Z := if len mod 32 =? 0 then 32 else len mod 32.
Definition read_chunks (len : Z) (chunk_at : Z -> B256) : list Z :=
  concat ((fun i => take (Z.to_nat (if i + 1 =? num_chunks len then last_chunk_take len else 32))
                         (be_bytes 32 (chunk_at i)))
          <$> seqZ 0 (num_chunks len)).

Section Store.
Context {X : Externals} {H : Keccak}.

(** * Hashes (committee.rs, state.rs) *)

Definition committee_set_hash_v2 (epoch : Z) (snapshot : CommitteeSnapshot) : B256 :=
  keccak256 (string_bytes "OUTBE_COMMITTEE_SNAPSHOT_V2"
    ++ be_bytes 8 epoch
    ++ be_bytes 8 (Z.of_nat (length (committee snapshot)))
    ++ concat ((fun e => be_bytes 20 (entry_address e) ++ be_bytes 48 (entry_pubkey e))
               <$> committee snapshot)
    ++ be_bytes 8 (vrf_material_version snapshot)
    ++ be_bytes 8 (Z.of_nat (length (vrf_group_public_key_bytes snapshot)))
    ++ vrf_group_public_key_bytes snapshot).

Definition committee_snapshot_key (epoch : Z) (committee_set_hash : B256) : B256 :=
  keccak256 (string_bytes "OUTBE_COMMITTEE_SNAPSHOT_KEY_V2"
    ++ be_bytes 8 epoch ++ be_bytes 32 committee_set_hash).

Definition snapshot_identity (epoch : Z) (snapshot : CommitteeSnapshot) : B256 * B256 :=
  let hash := committee_set_hash_v2 epoch snapshot in
  (hash, committee_snapshot_key epoch hash).

Definition ocomp_binding_hash_v1 (epoch : Z) (committee_set_hash : B256)
    (members : list OcompSnapshotMemberV1) : B256 :=
  keccak256 (string_bytes "OUTBE_OCOMP_SNAPSHOT_BINDING_V1"
    ++ be_bytes 8 epoch ++ be_bytes 32 committee_set_hash
    ++ be_bytes 8 (Z.of_nat (length members))
    ++ concat ((fun m => be_bytes 20 (validator_address m)
                         ++ be_bytes 33 (ocomp_public_key_sec1 m) ++ be_bytes 8 (key_epoch m))
               <$> members)).

(** * Reading (state.rs) *)

Definition read_committee_snapshot (st : SnapshotStore) (snapshot_key : B256) :
    option CommitteeSnapshot :=
  if negb (committee_snapshot_exists st).[snapshot_key] then None
  else
    let committee_len := (committee_snapshot_len st).[snapshot_key] in
    let entry i :=
      mkEntry (committee_snapshot_address_at st).[(snapshot_key, i)]
        (join_pubkey (committee_snapshot_pubkey_lo_at st).[(snapshot_key, i)]
           (committee_snapshot_pubkey_hi_at st).[(snapshot_key, i)]) in
    Some (mkSnapshot (entry <$> seqZ 0 committee_len)
            (committee_snapshot_vrf_material_version st).[snapshot_key]
            (read_chunks (committee_snapshot_vrf_group_public_key_len st).[snapshot_key]
               (fun i => (committee_snapshot_vrf_group_public_key_chunk_at st).[(snapshot_key, i)]))
            (committee_snapshot_vrf_public_polynomial_hash st).[snapshot_key]).

Definition read_committee_snapshot_for_epoch (st : SnapshotStore) (epoch : Z) :
    option CommitteeSnapshot :=
  let key := (committee_snapshot_key_ring st).[epoch mod COMMITTEE_SNAPSHOT_RETAIN_EPOCHS] in
  if key =? 0 then None
  else match read_committee_snapshot st key with
       | None => None
       | Some snapshot =>
           let '(_, expected_key) := snapshot_identity epoch snapshot in
           if negb (key =? expected_key) then None else Some snapshot
       end.

Definition read_ocomp_snapshot_extension (st : SnapshotStore) (snapshot_key : B256) :
    result (option OcompSnapshotExtensionV1) :=
  if negb (committee_snapshot_exists st).[snapshot_key] then Ok None
  else
    let member_count := (committee_snapshot_ocomp_member_count st).[snapshot_key] in
    if u16_max <? member_count
    then Err (Fatal "stored OCOMP snapshot member count exceeds u16")
    else Ok (Some (mkExtension (committee_snapshot_ocomp_epoch st).[snapshot_key]
                     (committee_snapshot_ocomp_consensus_hash st).[snapshot_key]
                     (committee_snapshot_ocomp_binding_hash st).[snapshot_key] member_count)).

Definition read_ocomp_snapshot_extension_for_binding (st : SnapshotStore) (epoch : Z)
    (committee_set_hash ocomp_binding_hash : B256) : result (option OcompSnapshotExtensionV1) :=
  let key := committee_snapshot_key epoch committee_set_hash in
  let? found := read_ocomp_snapshot_extension st key in
  match found with
  | None => Ok None
  | Some extension =>
      if negb (ext_epoch extension =? epoch)
         || negb (ext_committee_set_hash extension =? committee_set_hash)
         || negb (ext_ocomp_binding_hash extension =? ocomp_binding_hash)
      then Ok None else Ok (Some extension)
  end.

Definition read_ocomp_snapshot_member_at (st : SnapshotStore) (snapshot_key : B256) (index : Z) :
    result (option OcompSnapshotMemberV1) :=
  if negb (committee_snapshot_exists st).[snapshot_key] then Ok None
  else if (committee_snapshot_ocomp_member_count st).[snapshot_key] <=? index then Ok None
  else
    let? public_key := join_ocomp_public_key
                         (committee_snapshot_ocomp_key_lo_at st).[(snapshot_key, index)]
                         (committee_snapshot_ocomp_key_hi_at st).[(snapshot_key, index)] in
    Ok (Some (mkMember (committee_snapshot_address_at st).[(snapshot_key, index)] public_key
                (committee_snapshot_ocomp_key_epoch_at st).[(snapshot_key, index)])).

(** The loop that collects every member, or finds one missing. *)
Fixpoint read_members (st : SnapshotStore) (snapshot_key : B256) (indices : list Z) :
    result (option (list OcompSnapshotMemberV1)) :=
  match indices with
  | [] => Ok (Some [])
  | index :: rest =>
      let? found := read_ocomp_snapshot_member_at st snapshot_key index in
      match found with
      | None => Ok None
      | Some member =>
          let? members := read_members st snapshot_key rest in
          Ok (cons member <$> members)
      end
  end.

Definition read_ocomp_snapshot_extension_at_epoch (st : SnapshotStore) (epoch : Z) :
    result (option (B256 * OcompSnapshotExtensionV1)) :=
  let snapshot_key :=
    (committee_snapshot_key_ring st).[epoch mod COMMITTEE_SNAPSHOT_RETAIN_EPOCHS] in
  if snapshot_key =? 0 then Ok None
  else match read_committee_snapshot st snapshot_key with
       | None => Ok None
       | Some snapshot =>
           let committee_set_hash := committee_set_hash_v2 epoch snapshot in
           if negb (committee_snapshot_key epoch committee_set_hash =? snapshot_key) then Ok None
           else
             let? found := read_ocomp_snapshot_extension st snapshot_key in
             match found with
             | None => Ok None
             | Some extension =>
                 if negb (ext_epoch extension =? epoch)
                    || negb (ext_committee_set_hash extension =? committee_set_hash)
                    || negb (ext_member_count extension =? Z.of_nat (length (committee snapshot)))
                 then Ok None
                 else
                   let? members := read_members st snapshot_key
                                     (seqZ 0 (ext_member_count extension)) in
                   match members with
                   | None => Ok None
                   | Some members =>
                       if negb (ocomp_binding_hash_v1 epoch committee_set_hash members
                                =? ext_ocomp_binding_hash extension)
                       then Ok None else Ok (Some (snapshot_key, extension))
                   end
             end
       end.

(** * Writing (state.rs) *)

Definition clear_committee_snapshot (key : B256) : CM unit :=
  let! present := gets (fun st => (committee_snapshot_exists st).[key]) in
  if negb present then mret tt
  else
    let! committee_len := gets (fun st => (committee_snapshot_len st).[key]) in
    let! vrf_pk_len := gets (fun st => (committee_snapshot_vrf_group_public_key_len st).[key]) in
    let! ocomp_member_count :=
      gets (fun st => (committee_snapshot_ocomp_member_count st).[key]) in
    mfor (seqZ 0 committee_len) (fun i =>
      wr committee_snapshot_address_at (key, i) 0 ;;;
      wr committee_snapshot_pubkey_lo_at (key, i) 0 ;;;
      wr committee_snapshot_pubkey_hi_at (key, i) 0) ;;;
    wr committee_snapshot_len key 0 ;;;
    let chunks := if 0 <? vrf_pk_len then num_chunks vrf_pk_len else 0 in
    mfor (seqZ 0 chunks) (fun i =>
      wr committee_snapshot_vrf_group_public_key_chunk_at (key, i) 0) ;;;
    wr committee_snapshot_vrf_material_version key 0 ;;;
    wr committee_snapshot_vrf_group_public_key_hash key 0 ;;;
    wr committee_snapshot_vrf_group_public_key_len key 0 ;;;
    wr committee_snapshot_vrf_public_polynomial_hash key 0 ;;;
    mfor (seqZ 0 ocomp_member_count) (fun i =>
      wr committee_snapshot_ocomp_key_lo_at (key, i) 0 ;;;
      wr committee_snapshot_ocomp_key_hi_at (key, i) 0 ;;;
      wr committee_snapshot_ocomp_key_epoch_at (key, i) 0) ;;;
    wr committee_snapshot_ocomp_epoch key 0 ;;;
    wr committee_snapshot_ocomp_consensus_hash key 0 ;;;
    wr committee_snapshot_ocomp_binding_hash key 0 ;;;
    wr committee_snapshot_ocomp_member_count key 0 ;;;
    wr committee_snapshot_exists key false.

(** The OCOMP member of a committee entry, from the registry. *)
Definition ocomp_member (vs : ValidatorSet) (entry : CommitteeEntry) :
    result OcompSnapshotMemberV1 :=
  let? admitted := ocomp_registration vs (entry_address entry) in
  let? registration := ok_or admitted
    (Fatal "active validator has no admitted OCOMP registration") in
  let? expected_identity :=
    ok_or (validator_identity_hash_v1 (entry_address entry) (entry_pubkey entry))
      (Fatal "cannot derive OCOMP identity for active validator") in
  if negb (oc_validator_identity_hash registration =? expected_identity)
     || negb (oc_key_epoch registration =? POC_KEY_EPOCH)
     || negb (oc_allowed_purpose_bitmap registration =? RESULT_SIGNATURE_PURPOSE_BITMAP)
  then Err (Fatal "active validator has stale or invalid OCOMP registration")
  else Ok (mkMember (entry_address entry) (oc_public_key_sec1 registration)
             (oc_key_epoch registration)).

Fixpoint members_match (st : SnapshotStore) (key : B256)
    (members : list (Z * OcompSnapshotMemberV1)) : result bool :=
  match members with
  | [] => Ok true
  | (index, expected_member) :: rest =>
      let? stored := read_ocomp_snapshot_member_at st key index in
      if bool_decide (stored = Some expected_member) then members_match st key rest
      else Ok false
  end.

(** The check of a write whose key is already present. *)
Definition check_replay (key : B256) (snapshot : CommitteeSnapshot)
    (expected_extension : OcompSnapshotExtensionV1) (members : list OcompSnapshotMemberV1)
    (st : SnapshotStore) : result unit :=
  let? stored_snapshot := ok_or (read_committee_snapshot st key)
    (Fatal "committee snapshot exists flag has no readable record") in
  let? stored_extension := read_ocomp_snapshot_extension st key in
  let? same :=
    (if bool_decide (stored_extension = Some expected_extension)
     then members_match st key (enumerate members) else Ok false) in
  rrequire (bool_decide (stored_snapshot = snapshot) && same)
    (Fatal "committee snapshot replay mismatch").

(** The fields of a fresh record, the ring slot and, last, the [exists] flag. *)
Definition store_snapshot (key hash : B256) (epoch : Z) (snapshot : CommitteeSnapshot)
    (members : list OcompSnapshotMemberV1) (ocomp_binding_hash : B256) : CM unit :=
  wr committee_snapshot_len key (Z.of_nat (length (committee snapshot))) ;;;
  mfor (enumerate (committee snapshot)) (fun '(i, entry) =>
    wr committee_snapshot_address_at (key, i) (entry_address entry) ;;;
    wr committee_snapshot_pubkey_lo_at (key, i) (split_pubkey (entry_pubkey entry)).1 ;;;
    wr committee_snapshot_pubkey_hi_at (key, i) (split_pubkey (entry_pubkey entry)).2) ;;;
  wr committee_snapshot_vrf_material_version key (vrf_material_version snapshot) ;;;
  wr committee_snapshot_vrf_group_public_key_hash key
    (keccak256 (vrf_group_public_key_bytes snapshot)) ;;;
  wr committee_snapshot_vrf_group_public_key_len key
    (Z.of_nat (length (vrf_group_public_key_bytes snapshot))) ;;;
  wr committee_snapshot_vrf_public_polynomial_hash key (vrf_public_polynomial_hash snapshot) ;;;
  mfor (enumerate (chunks32 (vrf_group_public_key_bytes snapshot))) (fun '(i, chunk) =>
    wr committee_snapshot_vrf_group_public_key_chunk_at (key, i) (chunk_word chunk)) ;;;
  wr committee_snapshot_ocomp_epoch key epoch ;;;
  wr committee_snapshot_ocomp_consensus_hash key hash ;;;
  wr committee_snapshot_ocomp_binding_hash key ocomp_binding_hash ;;;
  wr committee_snapshot_ocomp_member_count key (Z.of_nat (length members)) ;;;
  mfor (enumerate members) (fun '(i, member) =>
    wr committee_snapshot_ocomp_key_lo_at (key, i)
      (split_ocomp_public_key (ocomp_public_key_sec1 member)).1 ;;;
    wr committee_snapshot_ocomp_key_hi_at (key, i)
      (split_ocomp_public_key (ocomp_public_key_sec1 member)).2 ;;;
    wr committee_snapshot_ocomp_key_epoch_at (key, i) (key_epoch member)) ;;;
  wr committee_snapshot_key_ring (epoch mod COMMITTEE_SNAPSHOT_RETAIN_EPOCHS) key ;;;
  wr committee_snapshot_exists key true.

Definition write_committee_snapshot (vs : ValidatorSet) (epoch : Z) (snapshot : CommitteeSnapshot) :
    CM (B256 * B256) :=
  let hash := committee_set_hash_v2 epoch snapshot in
  let key := committee_snapshot_key epoch hash in
  let! ocomp_members := lift (rmap (committee snapshot) (ocomp_member vs)) in
  require (Z.of_nat (length ocomp_members) <=? u16_max)
    (Fatal "OCOMP snapshot member count exceeds u16") ;;;
  let ocomp_binding_hash := ocomp_binding_hash_v1 epoch hash ocomp_members in
  let! present := gets (fun st => (committee_snapshot_exists st).[key]) in
  if present : bool then
    reads (check_replay key snapshot
             (mkExtension epoch hash ocomp_binding_hash (Z.of_nat (length ocomp_members)))
             ocomp_members) ;;;
    mret (hash, key)
  else
    let! evicted :=
      gets (fun st => (committee_snapshot_key_ring st).[epoch mod COMMITTEE_SNAPSHOT_RETAIN_EPOCHS]) in
    (if negb (evicted =? 0) && negb (evicted =? key)
     then clear_committee_snapshot evicted else mret tt) ;;;
    store_snapshot key hash epoch snapshot ocomp_members ocomp_binding_hash ;;;
    mret (hash, key).

(** * The boundary (hooks.rs) *)

Record BoundaryActivationInputs : Type := mkBoundary {
  outgoing : option (Z * CommitteeSnapshot);
  incoming_epoch : Z;
  incoming : CommitteeSnapshot;
  freeze_height : Z;
  new_active_set : list Address;
  active_set_hash : B256;
  tee_expired_target_exclusions : list Address }.

Definition on_registry {A} (m : VM A) : M (ValidatorSet * SnapshotStore) A :=
  zoom fst (fun v w => (v, snd w)) m.
Definition snapshot_into (epoch : Z) (snapshot : CommitteeSnapshot) :
    M (ValidatorSet * SnapshotStore) (B256 * B256) :=
  fun w => zoom snd (fun st w => (fst w, st)) (write_committee_snapshot (fst w) epoch snapshot) w.

Definition activate_boundary_atomic (inputs : BoundaryActivationInputs) :
    M (ValidatorSet * SnapshotStore) (B256 * B256) :=
  with_checkpoint (
    let! outgoing_key :=
      (match outgoing inputs with
       | Some (outgoing_epoch, outgoing_snapshot) =>
           let! written := snapshot_into outgoing_epoch outgoing_snapshot in
           mret (snd written)
       | None => mret 0
       end) in
    on_registry (activate_validated_boundary_set_with_expiry_exclusions (new_active_set inputs)
                   (active_set_hash inputs) (freeze_height inputs)
                   (tee_expired_target_exclusions inputs)) ;;;
    let! written := snapshot_into (incoming_epoch inputs) (incoming inputs) in
    mret (outgoing_key, snd written)).
End Store.
