(* ===== verification/SnapshotsProps.v ===== *)
(** Properties of the committee snapshot store: every retained epoch reads back
    the snapshot written for it, no other epoch does, an evicted record leaves no
    slot behind, and the boundary installs membership and snapshots together or
    not at all. *)

From stdpp Require Import functions.
From S2P Require Import Prelude Bytes P2pAddress Lifecycle.
From S2P Require Import ValidatorSet ValidatorSetInv ValidatorSetMoves ValidatorSetProps Snapshots.

(** * Ranges of a nested mapping *)

Definition nth_word (vals : list Z) (j : Z) : Z := if j <? 0 then 0 else nth (Z.to_nat j) vals 0.

Fixpoint write_range (key : B256) (vals : list Z) (i : Z) (m : gmap (B256 * Z) Z) :
    gmap (B256 * Z) Z :=
  match vals with
  | [] => m
  | v :: rest => write_range key rest (i + 1) (mwrite (key, i) v m)
  end.

Lemma write_range_read key vals : forall i m k j,
  (write_range key vals i m).[(k, j)] =
    if decide (k = key /\ i <= j < i + Z.of_nat (length vals))
    then nth (Z.to_nat (j - i)) vals 0 else m.[(k, j)].
Proof.
  induction vals as [|v vals IH]; intros i m k j; cbn [write_range].
  - rewrite decide_False; [done|]. simpl. lia.
  - rewrite IH. cbn [length]. destruct (decide (k = key)) as [->|Hk].
    2: { rewrite !decide_False by tauto. rewrite mread_mwrite_ne; [done|congruence]. }
    destruct (decide (j = i)) as [->|Hj].
    + rewrite decide_False, decide_True by lia. rewrite Z.sub_diag. simpl. by rewrite mread_mwrite_eq.
    + rewrite mread_mwrite_ne by congruence. repeat case_decide; try lia; try done.
      replace (Z.to_nat (j - i)) with (S (Z.to_nat (j - (i + 1)))) by lia. done.
Qed.

Lemma range_fill key vals m j :
  (forall j, m.[(key, j)] = 0) -> (write_range key vals 0 m).[(key, j)] = nth_word vals j.
Proof.
  intros Hm. rewrite write_range_read, Hm. unfold nth_word. rewrite Z.sub_0_r.
  destruct (Z.ltb_spec j 0); [rewrite decide_False; [done|lia]|].
  case_decide as Hd; [done|]. rewrite nth_overflow; [done|lia].
Qed.
Lemma nth_zeros n : forall i, nth i (replicate n 0) 0 = 0.
Proof. induction n as [|n IH]; intros [|i]; simpl; auto. Qed.
Lemma range_clear key n vals m j :
  (forall j, m.[(key, j)] = nth_word vals j) -> length vals = n ->
  (write_range key (replicate n 0) 0 m).[(key, j)] = 0.
Proof.
  intros Hm <-. rewrite write_range_read, Hm, length_replicate. unfold nth_word.
  case_decide as Hd; [apply nth_zeros|]. case_match; bprop; [done|].
  apply nth_overflow. lia.
Qed.
Lemma range_other key vals i m k j :
  k <> key -> (write_range key vals i m).[(k, j)] = m.[(k, j)].
Proof. intros Hk. rewrite write_range_read, decide_False; tauto. Qed.

(** * The loops of the store *)

Section Loops.
Context {X : Externals} {H : Keccak}.

Lemma store_entries_run key l : forall i st,
  mfor (enumerate_from i l) (fun '(i, entry) =>
    wr committee_snapshot_address_at (key, i) (entry_address entry) ;;;
    wr committee_snapshot_pubkey_lo_at (key, i) (split_pubkey (entry_pubkey entry)).1 ;;;
    wr committee_snapshot_pubkey_hi_at (key, i) (split_pubkey (entry_pubkey entry)).2) st
  = (Ok tt, st
      <| committee_snapshot_address_at :=
           write_range key (entry_address <$> l) i (committee_snapshot_address_at st) |>
      <| committee_snapshot_pubkey_lo_at :=
           write_range key ((fun e => (split_pubkey (entry_pubkey e)).1) <$> l) i
             (committee_snapshot_pubkey_lo_at st) |>
      <| committee_snapshot_pubkey_hi_at :=
           write_range key ((fun e => (split_pubkey (entry_pubkey e)).2) <$> l) i
             (committee_snapshot_pubkey_hi_at st) |>).
Proof.
  induction l as [|e l IH]; intros i st; [by destruct st|].
  cbn [enumerate_from mfor]. unfold mbind, modify in *. by rewrite IH.
Qed.

Lemma store_chunks_run key l : forall i st,
  mfor (enumerate_from i l) (fun '(i, chunk) =>
    wr committee_snapshot_vrf_group_public_key_chunk_at (key, i) (chunk_word chunk)) st
  = (Ok tt, st
      <| committee_snapshot_vrf_group_public_key_chunk_at :=
           write_range key (chunk_word <$> l) i
             (committee_snapshot_vrf_group_public_key_chunk_at st) |>).
Proof.
  induction l as [|e l IH]; intros i st; [by destruct st|].
  cbn [enumerate_from mfor]. unfold mbind, modify in *. by rewrite IH.
Qed.

Lemma store_members_run key l : forall i st,
  mfor (enumerate_from i l) (fun '(i, member) =>
    wr committee_snapshot_ocomp_key_lo_at (key, i)
      (split_ocomp_public_key (ocomp_public_key_sec1 member)).1 ;;;
    wr committee_snapshot_ocomp_key_hi_at (key, i)
      (split_ocomp_public_key (ocomp_public_key_sec1 member)).2 ;;;
    wr committee_snapshot_ocomp_key_epoch_at (key, i) (key_epoch member)) st
  = (Ok tt, st
      <| committee_snapshot_ocomp_key_lo_at :=
           write_range key ((fun m => (split_ocomp_public_key (ocomp_public_key_sec1 m)).1) <$> l) i
             (committee_snapshot_ocomp_key_lo_at st) |>
      <| committee_snapshot_ocomp_key_hi_at :=
           write_range key ((fun m => (split_ocomp_public_key (ocomp_public_key_sec1 m)).2) <$> l) i
             (committee_snapshot_ocomp_key_hi_at st) |>
      <| committee_snapshot_ocomp_key_epoch_at :=
           write_range key (key_epoch <$> l) i (committee_snapshot_ocomp_key_epoch_at st) |>).
Proof.
  induction l as [|e l IH]; intros i st; [by destruct st|].
  cbn [enumerate_from mfor]. unfold mbind, modify in *. by rewrite IH.
Qed.

(** A clearing loop, over any of the fields. *)
Lemma clear_loop (f : Z -> CM unit) (g : list Z -> Z -> SnapshotStore -> SnapshotStore) :
  (forall i st, g [] i st = st) ->
  (forall n i st, exists st1, f i st = (Ok tt, st1)
     /\ g (replicate n 0) (i + 1) st1 = g (replicate (S n) 0) i st) ->
  forall n i st, mfor (seqZ i (Z.of_nat n)) f st = (Ok tt, g (replicate n 0) i st).
Proof.
  intros H0 Hf n. induction n as [|n IH]; intros i st; [cbn; by rewrite H0|].
  rewrite seqZ_cons by lia. rewrite Nat2Z.inj_succ, Z.pred_succ, <- Z.add_1_r.
  destruct (Hf n i st) as (st1 & H1 & H2). cbn [mfor]. unfold mbind. by rewrite H1, IH, H2.
Qed.

Lemma clear_entries_run key n st :
  mfor (seqZ 0 (Z.of_nat n)) (fun i =>
      wr committee_snapshot_address_at (key, i) 0 ;;;
      wr committee_snapshot_pubkey_lo_at (key, i) 0 ;;;
      wr committee_snapshot_pubkey_hi_at (key, i) 0) st
  = (Ok tt, st
      <| committee_snapshot_address_at :=
           write_range key (replicate n 0) 0 (committee_snapshot_address_at st) |>
      <| committee_snapshot_pubkey_lo_at :=
           write_range key (replicate n 0) 0 (committee_snapshot_pubkey_lo_at st) |>
      <| committee_snapshot_pubkey_hi_at :=
           write_range key (replicate n 0) 0 (committee_snapshot_pubkey_hi_at st) |>).
Proof.
  apply (clear_loop _ (fun vals i st => st
    <| committee_snapshot_address_at := write_range key vals i (committee_snapshot_address_at st) |>
    <| committee_snapshot_pubkey_lo_at := write_range key vals i (committee_snapshot_pubkey_lo_at st) |>
    <| committee_snapshot_pubkey_hi_at := write_range key vals i (committee_snapshot_pubkey_hi_at st) |>)).
  - intros i []. done.
  - intros. by eexists.
Qed.
Lemma clear_chunks_run key n st :
  mfor (seqZ 0 (Z.of_nat n)) (fun i =>
      wr committee_snapshot_vrf_group_public_key_chunk_at (key, i) 0) st
  = (Ok tt, st
      <| committee_snapshot_vrf_group_public_key_chunk_at :=
           write_range key (replicate n 0) 0
             (committee_snapshot_vrf_group_public_key_chunk_at st) |>).
Proof.
  apply (clear_loop _ (fun vals i st => st
    <| committee_snapshot_vrf_group_public_key_chunk_at :=
         write_range key vals i (committee_snapshot_vrf_group_public_key_chunk_at st) |>)).
  - intros i []. done.
  - intros. by eexists.
Qed.
Lemma clear_members_run key n st :
  mfor (seqZ 0 (Z.of_nat n)) (fun i =>
      wr committee_snapshot_ocomp_key_lo_at (key, i) 0 ;;;
      wr committee_snapshot_ocomp_key_hi_at (key, i) 0 ;;;
      wr committee_snapshot_ocomp_key_epoch_at (key, i) 0) st
  = (Ok tt, st
      <| committee_snapshot_ocomp_key_lo_at :=
           write_range key (replicate n 0) 0 (committee_snapshot_ocomp_key_lo_at st) |>
      <| committee_snapshot_ocomp_key_hi_at :=
           write_range key (replicate n 0) 0 (committee_snapshot_ocomp_key_hi_at st) |>
      <| committee_snapshot_ocomp_key_epoch_at :=
           write_range key (replicate n 0) 0 (committee_snapshot_ocomp_key_epoch_at st) |>).
Proof.
  apply (clear_loop _ (fun vals i st => st
    <| committee_snapshot_ocomp_key_lo_at := write_range key vals i (committee_snapshot_ocomp_key_lo_at st) |>
    <| committee_snapshot_ocomp_key_hi_at := write_range key vals i (committee_snapshot_ocomp_key_hi_at st) |>
    <| committee_snapshot_ocomp_key_epoch_at := write_range key vals i (committee_snapshot_ocomp_key_epoch_at st) |>)).
  - intros i []. done.
  - intros. by eexists.
Qed.
End Loops.

(** * The byte layouts *)

Lemma join_split_pubkey k :
  join_pubkey (split_pubkey k).1 (split_pubkey k).2 = k.
Proof.
  unfold join_pubkey, split_pubkey. cbn [fst snd]. rewrite Z.div_mul by done.
  pose proof (Z.div_mod k (2 ^ 128) ltac:(done)). lia.
Qed.
Lemma join_split_ocomp k :
  join_ocomp_public_key (split_ocomp_public_key k).1 (split_ocomp_public_key k).2 = Ok k.
Proof.
  unfold join_ocomp_public_key, split_ocomp_public_key. cbn [fst snd].
  rewrite Z.mod_mul, Z.div_mul by done. simpl. f_equal.
  pose proof (Z.div_mod k (2 ^ 8) ltac:(done)). lia.
Qed.

Lemma chunk_count_bounds len :
  0 <= len -> 32 * num_chunks len <= len + 31 /\ len <= 32 * num_chunks len /\ 0 <= num_chunks len.
Proof.
  intros Hl. unfold num_chunks. pose proof (Z.div_mod (len + 31) 32 ltac:(lia)).
  pose proof (Z.mod_pos_bound (len + 31) 32 ltac:(lia)). lia.
Qed.

Lemma piece_read bytes i :
  Forall byte bytes -> (i < Z.to_nat (num_chunks (Z.of_nat (length bytes))))%nat ->
  take (Z.to_nat (if Z.of_nat i + 1 =? num_chunks (Z.of_nat (length bytes))
                  then last_chunk_take (Z.of_nat (length bytes)) else 32))
    (be_bytes 32 (chunk_word (take 32 (drop (32 * i) bytes))))
  = take 32 (drop (32 * i) bytes).
Proof.
  intros Hb Hi. set (len := Z.of_nat (length bytes)) in *. set (piece := take 32 (drop (32 * i) bytes)).
  assert (Hl : len = Z.of_nat (length bytes)) by done.
  destruct (chunk_count_bounds len ltac:(lia)) as (Hlo & Hup & Hpos).
  assert (Hlen : length piece = Z.to_nat (if Z.of_nat i + 1 =? num_chunks len
                                          then last_chunk_take len else 32)).
  { unfold piece. rewrite length_take, length_drop. destruct (Z.eqb_spec (Z.of_nat i + 1) (num_chunks len)).
    - unfold last_chunk_take. pose proof (Z.div_mod len 32 ltac:(lia)).
      pose proof (Z.mod_pos_bound len 32 ltac:(lia)). case_match; bprop; lia.
    - lia. }
  unfold chunk_word. set (padded := piece ++ replicate (32 - length piece) 0).
  assert (Hp : length padded = 32%nat).
  { unfold padded. rewrite length_app, length_replicate. unfold piece. rewrite length_take. lia. }
  rewrite <- Hp, be_bytes_value, <- Hlen.
  - unfold padded. apply take_app_length.
  - unfold padded. apply Forall_app. split.
    + unfold piece. by apply Forall_take, Forall_drop.
    + apply Forall_replicate. unfold byte. lia.
Qed.

Lemma read_chunks_written bytes chunk_at :
  Forall byte bytes ->
  (forall j, chunk_at j = nth_word (chunk_word <$> chunks32 bytes) j) ->
  read_chunks (Z.of_nat (length bytes)) chunk_at = bytes.
Proof.
  intros Hb Hat. unfold read_chunks. set (n := num_chunks (Z.of_nat (length bytes))).
  destruct (chunk_count_bounds (Z.of_nat (length bytes)) ltac:(lia)) as (_ & Hup & _).
  unfold seqZ. rewrite <- list_fmap_compose.
  rewrite <- (concat_pieces 32 (Z.to_nat n) bytes) at 1 by lia. f_equal.
  apply list_fmap_ext. intros k i Hk. apply lookup_seq in Hk as [-> Hk]. simpl in *.
  rewrite Z.add_0_r, Hat. unfold nth_word.
  destruct (Z.ltb_spec (Z.of_nat k) 0); [lia|]. rewrite Nat2Z.id.
  rewrite nth_lookup. unfold chunks32. rewrite !list_lookup_fmap, lookup_seq_lt by done. simpl.
  by apply piece_read.
Qed.

(** One step of a run whose result is computed. *)
Ltac run_step :=
  lazymatch goal with
  | |- mbind (mfor _ _) _ _ = _ =>
      eapply mbind_ok_intro;
        [first [apply store_entries_run | apply store_chunks_run | apply store_members_run
               | apply clear_entries_run | apply clear_chunks_run | apply clear_members_run]|]
  | |- mbind _ _ _ = _ => eapply mbind_ok_intro; [reflexivity|]
  | |- _ => reflexivity
  end; simpl.

(** * The slots of one key *)

Definition scalars (st : SnapshotStore) (k : B256) : list Z :=
  [ (committee_snapshot_len st).[k]; (committee_snapshot_vrf_material_version st).[k];
    (committee_snapshot_vrf_group_public_key_hash st).[k];
    (committee_snapshot_vrf_group_public_key_len st).[k];
    (committee_snapshot_vrf_public_polynomial_hash st).[k];
    (committee_snapshot_ocomp_epoch st).[k]; (committee_snapshot_ocomp_consensus_hash st).[k];
    (committee_snapshot_ocomp_binding_hash st).[k];
    (committee_snapshot_ocomp_member_count st).[k] ].
Definition arrays (st : SnapshotStore) (k : B256) (j : Z) : list Z :=
  [ (committee_snapshot_address_at st).[(k, j)]; (committee_snapshot_pubkey_lo_at st).[(k, j)];
    (committee_snapshot_pubkey_hi_at st).[(k, j)];
    (committee_snapshot_vrf_group_public_key_chunk_at st).[(k, j)];
    (committee_snapshot_ocomp_key_lo_at st).[(k, j)];
    (committee_snapshot_ocomp_key_hi_at st).[(k, j)];
    (committee_snapshot_ocomp_key_epoch_at st).[(k, j)] ].

(** No slot of the key holds anything. *)
Definition blank (st : SnapshotStore) (k : B256) : Prop :=
  (committee_snapshot_exists st).[k] = false /\ scalars st k = replicate 9 0
  /\ forall j, arrays st k j = replicate 7 0.

Definition same_slots (st st' : SnapshotStore) (k : B256) : Prop :=
  (committee_snapshot_exists st').[k] = (committee_snapshot_exists st).[k]
  /\ scalars st' k = scalars st k /\ forall j, arrays st' k j = arrays st k j.

Section Held.
Context {X : Externals} {H : Keccak}.

(** A stored record: epoch, snapshot and OCOMP members. *)
Record SnapRecord : Type := mkRec {
  rec_epoch : Z;
  rec_snapshot : CommitteeSnapshot;
  rec_members : list OcompSnapshotMemberV1 }.

Definition rec_hash (r : SnapRecord) : B256 := committee_set_hash_v2 (rec_epoch r) (rec_snapshot r).
Definition rec_key (r : SnapRecord) : B256 := committee_snapshot_key (rec_epoch r) (rec_hash r).
Definition rec_binding (r : SnapRecord) : B256 :=
  ocomp_binding_hash_v1 (rec_epoch r) (rec_hash r) (rec_members r).

Definition rec_scalars (r : SnapRecord) : list Z :=
  let sn := rec_snapshot r in
  [ Z.of_nat (length (committee sn)); vrf_material_version sn;
    keccak256 (vrf_group_public_key_bytes sn);
    Z.of_nat (length (vrf_group_public_key_bytes sn)); vrf_public_polynomial_hash sn;
    rec_epoch r; rec_hash r; rec_binding r; Z.of_nat (length (rec_members r)) ].
Definition rec_arrays (r : SnapRecord) (j : Z) : list Z :=
  let sn := rec_snapshot r in
  (fun l => nth_word l j) <$>
  [ entry_address <$> committee sn;
    (fun e => (split_pubkey (entry_pubkey e)).1) <$> committee sn;
    (fun e => (split_pubkey (entry_pubkey e)).2) <$> committee sn;
    chunk_word <$> chunks32 (vrf_group_public_key_bytes sn);
    (fun m => (split_ocomp_public_key (ocomp_public_key_sec1 m)).1) <$> rec_members r;
    (fun m => (split_ocomp_public_key (ocomp_public_key_sec1 m)).2) <$> rec_members r;
    key_epoch <$> rec_members r ].

Definition held (st : SnapshotStore) (k : B256) (r : SnapRecord) : Prop :=
  (committee_snapshot_exists st).[k] = true /\ scalars st k = rec_scalars r
  /\ forall j, arrays st k j = rec_arrays r j.

Lemma store_snapshot_ok key r st :
  blank st key ->
  exists st', store_snapshot key (rec_hash r) (rec_epoch r) (rec_snapshot r) (rec_members r)
                (rec_binding r) st = (Ok tt, st')
    /\ held st' key r /\ (forall k, k <> key -> same_slots st st' k)
    /\ committee_snapshot_key_ring st' =
         (committee_snapshot_key_ring st).[rec_epoch r mod COMMITTEE_SNAPSHOT_RETAIN_EPOCHS <- key].
Proof.
  intros (Hex & Hsc & Har). unfold arrays in Har. simpl in Har. destruct st. simpl in *.
  unfold store_snapshot, enumerate.
  eexists. split; [repeat run_step|]. split_and!; [split_and!| |done].
  - simpl. by rewrite mread_mwrite_eq.
  - unfold scalars. simpl. by rewrite !mread_mwrite_eq.
  - intros j. unfold arrays, rec_arrays. simpl.
    rewrite !range_fill by (intros j'; by injection (Har j')). done.
  - intros k Hk. split_and!.
    + simpl. by rewrite mread_mwrite_ne.
    + unfold scalars. simpl. by rewrite !mread_mwrite_ne.
    + intros j. unfold arrays. simpl. by rewrite !range_other.
Qed.

Lemma length_chunks32 bytes :
  length (chunks32 bytes) = Z.to_nat (num_chunks (Z.of_nat (length bytes))).
Proof. unfold chunks32. by rewrite length_fmap, length_seq. Qed.

Lemma clear_snapshot_ok key r st :
  held st key r -> length (rec_members r) = length (committee (rec_snapshot r)) ->
  exists st', clear_committee_snapshot key st = (Ok tt, st')
    /\ blank st' key /\ (forall k, k <> key -> same_slots st st' k)
    /\ committee_snapshot_key_ring st' = committee_snapshot_key_ring st.
Proof.
  intros (Hex & Hsc & Har) Hms. destruct st.
  unfold scalars, rec_scalars in Hsc. simpl in *. injection Hsc as H1 H2 H3 H4 H5 H6 H7 H8 H9.
  unfold clear_committee_snapshot.
  set (pklen := Z.of_nat (length (vrf_group_public_key_bytes (rec_snapshot r)))).
  assert (Hch : (if 0 <? pklen then num_chunks pklen else 0)
    = Z.of_nat (length (chunks32 (vrf_group_public_key_bytes (rec_snapshot r))))).
  { rewrite length_chunks32. fold pklen.
    destruct (chunk_count_bounds pklen ltac:(lia)) as (? & ? & ?).
    case_match; bprop; [lia|]. lia. }
  unfold arrays, rec_arrays in Har. simpl in Har.
  eexists. split.
  { run_step. rewrite Hex. cbn [negb]. do 3 run_step. rewrite H1, H4, H9. fold pklen. rewrite Hch.
    repeat run_step. }
  split_and!; [split_and!| |done].
  - simpl. by rewrite mread_mwrite_eq.
  - unfold scalars. simpl. by rewrite !mread_mwrite_eq.
  - intros j. unfold arrays. simpl.
    repeat (apply (f_equal2 cons); [eapply range_clear;
      [intros j'; injection (Har j'); intros; eassumption|by rewrite length_fmap]|]). done.
  - intros k Hk. split_and!.
    + simpl. by rewrite mread_mwrite_ne.
    + unfold scalars. simpl. by rewrite !mread_mwrite_ne.
    + intros j. unfold arrays. simpl. by rewrite !range_other.
Qed.
End Held.

(** * Reading a stored record *)

Section Reads.
Context {X : Externals} {H : Keccak}.

Lemma nth_word_fmap {A} (f : A -> Z) l i x :
  l !! i = Some x -> nth_word (f <$> l) (Z.of_nat i) = f x.
Proof.
  intros Hi. unfold nth_word. destruct (Z.ltb_spec (Z.of_nat i) 0); [lia|].
  by rewrite Nat2Z.id, nth_lookup, list_lookup_fmap, Hi.
Qed.
Lemma seqZ_map {A} (f : Z -> A) (l : list A) :
  (forall i x, l !! i = Some x -> f (Z.of_nat i) = x) -> f <$> seqZ 0 (Z.of_nat (length l)) = l.
Proof.
  intros Hf. apply list_eq. intros i. rewrite list_lookup_fmap.
  destruct (l !! i) as [x|] eqn:Hi.
  - rewrite lookup_seqZ_lt by (apply lookup_lt_Some in Hi; lia). simpl. f_equal. by apply Hf.
  - rewrite lookup_seqZ_ge; [done|]. apply lookup_ge_None in Hi. lia.
Qed.

(** What the writer has checked of a record. *)
Record good_rec (r : SnapRecord) : Prop := {
  gr_epoch : 0 <= rec_epoch r;
  gr_bytes : Forall byte (vrf_group_public_key_bytes (rec_snapshot r));
  gr_addresses : validator_address <$> rec_members r = entry_address <$> committee (rec_snapshot r);
  gr_count : Z.of_nat (length (rec_members r)) <= u16_max;
  gr_key : rec_key r <> 0 }.

Lemma good_length r : good_rec r -> length (rec_members r) = length (committee (rec_snapshot r)).
Proof.
  intros Hg. rewrite <- (length_fmap validator_address), (gr_addresses r Hg). apply length_fmap.
Qed.

Lemma read_held st k r :
  held st k r -> good_rec r -> read_committee_snapshot st k = Some (rec_snapshot r).
Proof.
  intros (Hex & Hsc & Har) Hg. unfold read_committee_snapshot. rewrite Hex. cbn [negb].
  unfold scalars, rec_scalars in Hsc. injection Hsc as H1 H2 _ H4 H5 _ _ _ _.
  unfold arrays, rec_arrays in Har. simpl in Har. rewrite H1, H2, H4, H5.
  f_equal. destruct (rec_snapshot r) as [c v b p] eqn:Hsn. simpl in *. f_equal.
  - apply seqZ_map. intros i e Hi. injection (Har (Z.of_nat i)). intros _ _ _ _ Hhi Hlo Ha.
    rewrite Ha, Hlo, Hhi. rewrite !(nth_word_fmap _ _ _ _ Hi). destruct e as [a q]. f_equal.
    exact (join_split_pubkey q).
  - apply read_chunks_written; [by pose proof (gr_bytes r Hg) as Hb; rewrite Hsn in Hb|].
    intros j. by injection (Har j).
Qed.

Lemma read_blank st k : blank st k -> read_committee_snapshot st k = None.
Proof. intros (Hex & _). unfold read_committee_snapshot. by rewrite Hex. Qed.

Definition rec_extension (r : SnapRecord) : OcompSnapshotExtensionV1 :=
  mkExtension (rec_epoch r) (rec_hash r) (rec_binding r) (Z.of_nat (length (rec_members r))).

Lemma read_extension_held st k r :
  held st k r -> good_rec r -> read_ocomp_snapshot_extension st k = Ok (Some (rec_extension r)).
Proof.
  intros (Hex & Hsc & Har) Hg. unfold read_ocomp_snapshot_extension. rewrite Hex. cbn [negb].
  unfold scalars, rec_scalars in Hsc. injection Hsc as _ _ _ _ _ H6 H7 H8 H9.
  rewrite H6, H7, H8, H9. pose proof (gr_count r Hg).
  destruct (Z.ltb_spec u16_max (Z.of_nat (length (rec_members r)))); [lia|done].
Qed.

Lemma read_member_held st k r i m :
  held st k r -> good_rec r -> rec_members r !! i = Some m ->
  read_ocomp_snapshot_member_at st k (Z.of_nat i) = Ok (Some m).
Proof.
  intros (Hex & Hsc & Har) Hg Hi. unfold read_ocomp_snapshot_member_at. rewrite Hex. cbn [negb].
  unfold scalars, rec_scalars in Hsc. injection Hsc as _ _ _ _ _ _ _ _ H9. rewrite H9.
  pose proof (lookup_lt_Some _ _ _ Hi) as Hlt.
  destruct (Z.leb_spec (Z.of_nat (length (rec_members r))) (Z.of_nat i)); [lia|].
  unfold arrays, rec_arrays in Har. simpl in Har. injection (Har (Z.of_nat i)).
  intros Hke Hhi Hlo _ _ _ Ha. rewrite Hlo, Hhi, Hke, Ha.
  rewrite <- (gr_addresses r Hg). rewrite !(nth_word_fmap _ _ _ _ Hi).
  pose proof (join_split_ocomp (ocomp_public_key_sec1 m)) as Hj. unfold split_ocomp_public_key in Hj.
  cbn [fst snd] in Hj. rewrite Hj. simpl. by destruct m.
Qed.

Lemma read_members_held st k r : forall l i,
  held st k r -> good_rec r -> (forall j m, l !! j = Some m -> rec_members r !! (i + j)%nat = Some m) ->
  read_members st k (seqZ (Z.of_nat i) (Z.of_nat (length l))) = Ok (Some l).
Proof.
  induction l as [|m l IH]; intros i Hh Hg Hl; [done|].
  cbn [length]. rewrite seqZ_cons by lia. rewrite Nat2Z.inj_succ, Z.pred_succ. cbn [read_members].
  rewrite (read_member_held _ _ _ _ m Hh Hg) by (rewrite <- (Nat.add_0_r i); by apply (Hl 0%nat)).
  rewrite <- Nat2Z.inj_succ. simpl. rewrite IH; [done|done|done|].
  intros j m' Hj. replace (S i + j)%nat with (i + S j)%nat by lia. by apply Hl.
Qed.

Lemma read_all_members st k r :
  held st k r -> good_rec r ->
  read_members st k (seqZ 0 (Z.of_nat (length (rec_members r)))) = Ok (Some (rec_members r)).
Proof. intros Hh Hg. by apply (read_members_held st k r (rec_members r) 0%nat). Qed.

Lemma members_match_held st k r : forall l i,
  held st k r -> good_rec r -> members_match st k (enumerate_from (Z.of_nat i) l) = Ok true ->
  forall j m, l !! j = Some m -> (i + j < length (rec_members r))%nat -> rec_members r !! (i + j)%nat = Some m.
Proof.
  induction l as [|m0 l IH]; intros i Hh Hg Hm j m Hj Hlt; [done|].
  cbn [enumerate_from members_match] in Hm. minv.
  case_bool_decide as Hs; [subst|done]. destruct j as [|j]; simpl in Hj.
  - simplify_eq. rewrite Nat.add_0_r in *. apply lookup_lt_is_Some in Hlt as [m' Hm'].
    rewrite (read_member_held _ _ _ _ m' Hh Hg Hm') in *. by simplify_eq.
  - replace (i + S j)%nat with (S i + j)%nat in * by lia. apply IH; try done. by rewrite Nat2Z.inj_succ, <- Z.add_1_r.
Qed.
End Reads.

(** * The store as a ring of records *)

Section Ring.
Context {X : Externals} {H : Keccak}.

Abbreviation RETAIN := COMMITTEE_SNAPSHOT_RETAIN_EPOCHS.

(** The ring slots hold the records [R]; every other key is blank. *)
Record snap_rep (st : SnapshotStore) (R : Z -> option SnapRecord) : Prop := {
  sr_slot : forall i r, R i = Some r ->
    i = rec_epoch r mod RETAIN /\ good_rec r /\ held st (rec_key r) r;
  sr_ring : forall i, (committee_snapshot_key_ring st).[i] =
    match R i with Some r => rec_key r | None => 0 end;
  sr_blank : forall k, (forall i r, R i = Some r -> rec_key r <> k) -> blank st k }.

Definition brief (o : option SnapRecord) : option (Z * CommitteeSnapshot) :=
  (fun r => (rec_epoch r, rec_snapshot r)) <$> o.

Lemma empty_rep : snap_rep snapshots_empty (fun _ => None).
Proof.
  by constructor.
Qed.

Lemma held_same st st' k r : held st k r -> same_slots st st' k -> held st' k r.
Proof.
  intros (H1 & H2 & H3) (E1 & E2 & E3). split_and!; [by rewrite E1|by rewrite E2|].
  intros j. by rewrite E3.
Qed.
Lemma blank_same st st' k : blank st k -> same_slots st st' k -> blank st' k.
Proof.
  intros (H1 & H2 & H3) (E1 & E2 & E3). split_and!; [by rewrite E1|by rewrite E2|].
  intros j. by rewrite E3.
Qed.
Lemma same_trans st1 st2 st3 k : same_slots st1 st2 k -> same_slots st2 st3 k -> same_slots st1 st3 k.
Proof.
  intros (E1 & E2 & E3) (F1 & F2 & F3). split_and!; [by rewrite F1|by rewrite F2|].
  intros j. by rewrite F3.
Qed.

(** Two slots never share a key: the stored epoch tells them apart. *)
Lemma rep_keys st R i j r r' :
  snap_rep st R -> R i = Some r -> R j = Some r' -> rec_key r = rec_key r' -> i = j.
Proof.
  intros Hr Hi Hj Hk. destruct (sr_slot _ _ Hr _ _ Hi) as (-> & _ & (_ & Hs & _)).
  destruct (sr_slot _ _ Hr _ _ Hj) as (-> & _ & (_ & Hs' & _)).
  rewrite Hk, Hs' in Hs. unfold rec_scalars in Hs. injection Hs. congruence.
Qed.

Lemma rep_exists st R k :
  snap_rep st R -> (committee_snapshot_exists st).[k] = true ->
  exists i r, R i = Some r /\ rec_key r = k.
Proof.
  intros Hr Hex. destruct (decide (Exists (fun i => bool_decide (brief (R i) <> None)
    /\ (committee_snapshot_key_ring st).[i] = k) (seqZ 0 RETAIN))) as [He|Hno].
  - apply Exists_exists in He as (i & _ & Hi & Hk). apply bool_decide_unpack in Hi.
    rewrite (sr_ring _ _ Hr) in Hk. destruct (R i) as [r|] eqn:HR; [by exists i, r|done].
  - exfalso. destruct (sr_blank _ _ Hr k) as [Hf _]; [|congruence].
    intros i r HR Hk. apply Hno, Exists_exists. exists i.
    destruct (sr_slot _ _ Hr _ _ HR) as (-> & _). split_and!.
    + apply elem_of_seqZ. apply Z.mod_pos_bound. done.
    + by rewrite HR.
    + by rewrite (sr_ring _ _ Hr), HR.
Qed.

Lemma rmap_members vs l ms :
  rmap l (ocomp_member vs) = Ok ms -> validator_address <$> ms = entry_address <$> l.
Proof.
  revert ms. induction l as [|e l IH]; intros ms Hm; simpl in Hm; minv; [done|].
  simpl. f_equal; [|by apply IH].
  match goal with Hx : ocomp_member _ _ = Ok _ |- _ => unfold ocomp_member in Hx end.
  minv. by case_match; minv.
Qed.

(** The fresh branch of a write. *)
Lemma fresh_write_rep st R r :
  snap_rep st R -> good_rec r -> (committee_snapshot_exists st).[rec_key r] = false ->
  exists st1 st',
    (if negb ((committee_snapshot_key_ring st).[rec_epoch r mod RETAIN] =? 0)
        && negb ((committee_snapshot_key_ring st).[rec_epoch r mod RETAIN] =? rec_key r)
     then clear_committee_snapshot (committee_snapshot_key_ring st).[rec_epoch r mod RETAIN]
     else mret tt) st = (Ok tt, st1)
    /\ store_snapshot (rec_key r) (rec_hash r) (rec_epoch r) (rec_snapshot r) (rec_members r)
         (rec_binding r) st1 = (Ok tt, st')
    /\ snap_rep st' (<[rec_epoch r mod RETAIN := Some r]> R).
Proof.
  intros Hr Hg Hex. set (i := rec_epoch r mod RETAIN). set (k := rec_key r).
  assert (Hfresh : forall j r', R j = Some r' -> rec_key r' <> k).
  { intros j r' Hj Hk. destruct (sr_slot _ _ Hr _ _ Hj) as (_ & _ & (Ht & _)).
    rewrite Hk in Ht. unfold k in Ht. congruence. }
  assert (Hclear : exists st1,
    (if negb ((committee_snapshot_key_ring st).[i] =? 0) && negb ((committee_snapshot_key_ring st).[i] =? k)
     then clear_committee_snapshot (committee_snapshot_key_ring st).[i] else mret tt) st = (Ok tt, st1)
    /\ committee_snapshot_key_ring st1 = committee_snapshot_key_ring st
    /\ (forall k', (forall r0, R i = Some r0 -> k' <> rec_key r0) -> same_slots st st1 k')
    /\ (forall r0, R i = Some r0 -> blank st1 (rec_key r0))).
  { rewrite (sr_ring _ _ Hr). destruct (R i) as [r0|] eqn:HR.
    - destruct (sr_slot _ _ Hr _ _ HR) as (_ & Hg0 & Hh0).
      rewrite (proj2 (Z.eqb_neq _ _) (gr_key r0 Hg0)), (proj2 (Z.eqb_neq _ _) (Hfresh _ _ HR)).
      destruct (clear_snapshot_ok _ _ _ Hh0 (good_length _ Hg0)) as (st1 & Hrun & Hb & Hs & Hring).
      exists st1. split_and!; [exact Hrun|done| |].
      + intros k' Hk'. by apply Hs, Hk'.
      + intros r1 [= <-]. done.
    - exists st. by split_and!. }
  destruct Hclear as (st1 & Hrun1 & Hring1 & Hsame1 & Hblank1).
  destruct (store_snapshot_ok k r st1) as (st' & Hrun & Hheld & Hsame & Hring).
  { eapply blank_same; [apply (sr_blank _ _ Hr), Hfresh|]. apply Hsame1. intros r0 H0 Hk. by eapply Hfresh. }
  exists st1, st'. split; [exact Hrun1|]. split; [exact Hrun|]. constructor.
  - intros j r' Hj. destruct (decide (i = j)) as [<-|Hne].
    + rewrite fn_lookup_insert in Hj. by simplify_eq.
    + rewrite fn_lookup_insert_ne in Hj by done. destruct (sr_slot _ _ Hr _ _ Hj) as (E & Hg' & Hh').
      split_and!; [done|done|]. eapply held_same; [exact Hh'|]. eapply same_trans.
      * apply Hsame1. intros r0 H0 Hk. apply Hne. symmetry. by eapply rep_keys.
      * apply Hsame. by eapply Hfresh.
  - intros j. rewrite Hring, Hring1, mread_mwrite. fold i. case_decide as Hd.
    + subst. by rewrite fn_lookup_insert.
    + rewrite fn_lookup_insert_ne by done. apply (sr_ring _ _ Hr).
  - intros k' Hk'. assert (Hkk : k' <> k).
    { intros ->. apply (Hk' i r); [by rewrite fn_lookup_insert|done]. }
    eapply blank_same; [|by apply Hsame].
    destruct (decide (rec_key <$> R i = Some k')) as [He|Hno].
    { destruct (R i) as [r0|]; simplify_eq/=. by apply Hblank1. }
    assert (Hold : forall r0, R i = Some r0 -> rec_key r0 <> k').
    { intros r0 H0 Hk. apply Hno. rewrite H0. simpl. by f_equal. }
    eapply blank_same; [apply (sr_blank _ _ Hr)|apply Hsame1; naive_solver].
    intros j r' Hj Hk. destruct (decide (i = j)) as [<-|Hne]; [by eapply Hold|].
    apply (Hk' j r'); [by rewrite fn_lookup_insert_ne|done].
Qed.

Definition snapshot_key (epoch : Z) (sn : CommitteeSnapshot) : B256 :=
  (snapshot_identity epoch sn).2.

Lemma write_rep vs e sn st R h k st' :
  snap_rep st R -> 0 <= e -> Forall byte (vrf_group_public_key_bytes sn) -> snapshot_key e sn <> 0 ->
  write_committee_snapshot vs e sn st = (Ok (h, k), st') ->
  (h, k) = snapshot_identity e sn
  /\ exists R', snap_rep st' R'
       /\ forall i, brief (R' i) = if decide (i = e mod RETAIN) then Some (e, sn) else brief (R i).
Proof.
  intros Hr He Hb Hk Hrun. unfold write_committee_snapshot in Hrun. minv. bprop.
  set (r := mkRec e sn x). assert (Hg : good_rec r).
  { constructor; try done. simpl. by eapply rmap_members. }
  destruct (committee_snapshot_exists st).[_] eqn:Hex; minv.
  - split; [done|]. exists R. split; [done|]. intros i. case_decide as Hi; [subst i|done].
    destruct (rep_exists _ _ _ Hr Hex) as (j & r0 & Hj & Hkey).
    destruct (sr_slot _ _ Hr _ _ Hj) as (-> & Hg0 & Hh0). rewrite Hkey in Hh0.
    match goal with Hc : check_replay _ _ _ _ _ = _ |- _ => unfold check_replay in Hc end. minv. bprop.
    rewrite (read_held _ _ _ Hh0 Hg0), (read_extension_held _ _ _ Hh0 Hg0) in *. simplify_eq.
    case_bool_decide as Hext; [|minv; done]. injection Hext as E1 _ _ _. rewrite E1 in Hj.
    rewrite Hj. simpl. by rewrite E1.
  - match goal with Hc : (if _ then _ else _) st = _ |- _ => rename Hc into Hclr end.
    match goal with Hs : store_snapshot _ _ _ _ _ _ _ = _ |- _ => rename Hs into Hst end.
    destruct (fresh_write_rep _ _ r Hr Hg Hex) as (st1 & st2 & Hr1 & Hr2 & Hrep).
    assert (E := eq_trans (eq_sym Hclr) Hr1). injection E as ->.
    assert (E := eq_trans (eq_sym Hst) Hr2). injection E as ->.
    split; [done|]. eexists. split; [exact Hrep|]. intros i. case_decide as Hi.
    + subst i. by rewrite fn_lookup_insert.
    + by rewrite fn_lookup_insert_ne.
Qed.

(** A refused write changes nothing: everything is checked before the first
    store. *)
Lemma write_atomic vs e sn : atomic (write_committee_snapshot vs e sn).
Proof.
  unfold write_committee_snapshot. apply atomic_bind_ro; [apply ro_lift|intros ms].
  apply atomic_bind_ro; [apply ro_require|intros _]. apply atomic_bind_ro; [apply ro_gets|intros []].
  - apply ro_atomic. solve_ro.
  - apply runs_atomic. unfold store_snapshot, clear_committee_snapshot.
    repeat first [ apply runs_ret | apply runs_gets | apply runs_modify
                 | apply runs_bind; [|intros ?] | apply runs_mfor; intros [] | apply runs_mfor; intros ?
                 | case_match ].
Qed.

(** * What a sequence of writes retains *)

(** The accepted writes that lead to a store. *)
Inductive written : list (Z * CommitteeSnapshot) -> SnapshotStore -> Prop :=
  | written_nil : written [] snapshots_empty
  | written_snoc ws st vs e sn r st' :
      written ws st -> write_committee_snapshot vs e sn st = (r, st') ->
      written (match r with Ok _ => ws ++ [(e, sn)] | _ => ws end) st'.

(** The last write of each ring slot is retained. *)
Definition latest (ws : list (Z * CommitteeSnapshot)) (i : Z) : option (Z * CommitteeSnapshot) :=
  last (filter (fun w => w.1 mod RETAIN = i) ws).
Definition retained (ws : list (Z * CommitteeSnapshot)) (epoch : Z) : option CommitteeSnapshot :=
  match latest ws (epoch mod RETAIN) with
  | Some (e, sn) => if e =? epoch then Some sn else None
  | None => None
  end.

(** A 64-bit epoch, a byte string, and a key that is neither zero nor the key of
    the same committee at another epoch. *)
Definition good_write (w : Z * CommitteeSnapshot) : Prop :=
  0 <= w.1 <= u64_max /\ Forall byte (vrf_group_public_key_bytes w.2)
  /\ snapshot_key w.1 w.2 <> 0
  /\ forall e, 0 <= e <= u64_max -> snapshot_key e w.2 = snapshot_key w.1 w.2 -> e = w.1.

Lemma latest_snoc ws e sn i :
  latest (ws ++ [(e, sn)]) i = if decide (i = e mod RETAIN) then Some (e, sn) else latest ws i.
Proof.
  unfold latest. rewrite filter_app. case_decide as Hi.
  - rewrite filter_cons_True by done. apply last_snoc.
  - rewrite filter_cons_False by (simpl; congruence). by rewrite app_nil_r.
Qed.
Lemma latest_elem ws i w : latest ws i = Some w -> w ∈ ws /\ w.1 mod RETAIN = i.
Proof.
  intros Hw. apply last_Some_elem_of, list_elem_of_filter in Hw. tauto.
Qed.

Lemma written_rep ws st :
  written ws st -> Forall good_write ws -> exists R, snap_rep st R /\ forall i, brief (R i) = latest ws i.
Proof.
  induction 1 as [|ws st vs e sn r st' _ IH Hrun]; intros Hg.
  - exists (fun _ => None). split; [apply empty_rep|done].
  - destruct r as [[h k]|er|].
    + apply Forall_app in Hg as [Hg He]. apply Forall_cons in He as [(He & Hb & Hk & _) _].
      destruct (IH Hg) as (R & Hr & Hl). simpl in *.
      destruct (write_rep _ _ _ _ _ _ _ _ Hr (proj1 He) Hb Hk Hrun) as (_ & R' & Hr' & Hl').
      exists R'. split; [done|]. intros i. by rewrite Hl', latest_snoc, Hl.
    + destruct (write_atomic vs e sn st) as [[a Ha]|Hs]; rewrite Hrun in *; [done|].
      simpl in Hs. subst. by apply IH.
    + destruct (write_atomic vs e sn st) as [[a Ha]|Hs]; rewrite Hrun in *; [done|].
      simpl in Hs. subst. by apply IH.
Qed.

(** The slot that a 64-bit epoch reads. *)
Lemma epoch_slot st R ws e :
  snap_rep st R -> (forall i, brief (R i) = latest ws i) -> Forall good_write ws -> 0 <= e <= u64_max ->
  match retained ws e with
  | Some sn => exists r, R (e mod RETAIN) = Some r /\ rec_epoch r = e /\ rec_snapshot r = sn
      /\ rec_key r = snapshot_key e sn /\ good_rec r /\ held st (rec_key r) r
  | None => (committee_snapshot_key_ring st).[e mod RETAIN] = 0
      \/ exists r, R (e mod RETAIN) = Some r /\ good_rec r /\ held st (rec_key r) r
          /\ snapshot_key e (rec_snapshot r) <> rec_key r
  end.
Proof.
  intros Hr Hl Hg He. unfold retained. specialize (Hl (e mod RETAIN)).
  destruct (R (e mod RETAIN)) as [r|] eqn:HR; simpl in Hl.
  - destruct (sr_slot _ _ Hr _ _ HR) as (_ & Hgr & Hh). rewrite <- Hl.
    destruct (Z.eqb_spec (rec_epoch r) e) as [<-|Hne].
    + exists r. by split_and!.
    + right. exists r. split_and!; try done. intros Hk. apply Hne.
      destruct (latest_elem ws _ _ (eq_sym Hl)) as [Hin _].
      apply (proj1 (Forall_forall _ _) Hg) in Hin as (_ & _ & _ & Hinj). symmetry. by apply Hinj.
  - rewrite <- Hl. left. by rewrite (sr_ring _ _ Hr), HR.
Qed.

Lemma live_bound st R ks :
  snap_rep st R -> NoDup ks -> Forall (fun k => (committee_snapshot_exists st).[k] = true) ks ->
  Z.of_nat (length ks) <= RETAIN.
Proof.
  intros Hr Hnd Hex.
  assert (Hsub : ks ⊆ (fun i => (committee_snapshot_key_ring st).[i]) <$> seqZ 0 RETAIN).
  { intros k Hk. apply (proj1 (Forall_forall _ _) Hex) in Hk.
    destruct (rep_exists _ _ _ Hr Hk) as (i & r & HR & <-). apply list_elem_of_fmap. exists i.
    split; [by rewrite (sr_ring _ _ Hr), HR|]. destruct (sr_slot _ _ Hr _ _ HR) as (-> & _).
    apply elem_of_seqZ. by apply Z.mod_pos_bound. }
  pose proof (submseteq_length _ _ (NoDup_submseteq _ _ Hnd Hsub)) as Hlen.
  rewrite length_fmap, length_seqZ in Hlen. unfold RETAIN in *. lia.
Qed.

Lemma read_epoch_written ws st e :
  written ws st -> Forall good_write ws -> 0 <= e <= u64_max ->
  read_committee_snapshot_for_epoch st e = retained ws e.
Proof.
  intros Hw Hg He. destruct (written_rep _ _ Hw Hg) as (R & Hr & Hl).
  pose proof (epoch_slot _ _ _ e Hr Hl Hg He) as Hs. unfold read_committee_snapshot_for_epoch.
  rewrite (sr_ring _ _ Hr) in *. destruct (retained ws e) as [sn|].
  - destruct Hs as (r & HR & <- & <- & Hk & Hgr & Hh). rewrite HR.
    rewrite (proj2 (Z.eqb_neq _ _) (gr_key r Hgr)), (read_held _ _ _ Hh Hgr).
    unfold snapshot_key in *. simpl in *. by rewrite Hk, !Z.eqb_refl.
  - destruct Hs as [H0|(r & HR & Hgr & Hh & Hk)]; [by rewrite H0|].
    rewrite HR, (proj2 (Z.eqb_neq _ _) (gr_key r Hgr)), (read_held _ _ _ Hh Hgr).
    unfold snapshot_key, snapshot_identity in *. simpl in *.
    by rewrite (proj2 (Z.eqb_neq _ _) (not_eq_sym Hk)).
Qed.

(** * Properties *)

(** C6. The snapshot store retains exactly the last eight epochs written: after
    any sequence of accepted and refused writes, every 64-bit epoch reads the
    last snapshot written for it, unless a later epoch took its ring slot, and
    then nothing; its OCOMP extension reads back with it. Evicted records leave
    no slot behind and at most eight are ever live. *)
Theorem snapshots_retained ws st :
  written ws st -> Forall good_write ws ->
  (forall e, 0 <= e <= u64_max ->
     read_committee_snapshot_for_epoch st e = retained ws e
     /\ match retained ws e with
        | Some sn => exists ext,
            read_ocomp_snapshot_extension_at_epoch st e = Ok (Some (snapshot_key e sn, ext))
            /\ ext_epoch ext = e /\ ext_committee_set_hash ext = committee_set_hash_v2 e sn
            /\ ext_member_count ext = Z.of_nat (length (committee sn))
        | None => read_ocomp_snapshot_extension_at_epoch st e = Ok None
        end)
  /\ (forall k, (committee_snapshot_exists st).[k] = false -> blank st k)
  /\ (forall ks, NoDup ks -> Forall (fun k => (committee_snapshot_exists st).[k] = true) ks ->
        Z.of_nat (length ks) <= RETAIN).
Proof.
  intros Hw Hg. destruct (written_rep _ _ Hw Hg) as (R & Hr & Hl). split_and!.
  - intros e He. split; [by apply read_epoch_written|].
    pose proof (epoch_slot _ _ _ e Hr Hl Hg He) as Hs. unfold read_ocomp_snapshot_extension_at_epoch.
    rewrite (sr_ring _ _ Hr) in *. destruct (retained ws e) as [sn|].
    + destruct Hs as (r & HR & <- & <- & Hk & Hgr & Hh). rewrite HR.
      rewrite (proj2 (Z.eqb_neq _ _) (gr_key r Hgr)), (read_held _ _ _ Hh Hgr).
      rewrite (read_extension_held _ _ _ Hh Hgr). unfold snapshot_key in *. simpl in *.
      rewrite Hk, !Z.eqb_refl. simpl. rewrite <- (good_length _ Hgr), Z.eqb_refl. simpl.
      rewrite <- Hk, (read_all_members _ _ _ Hh Hgr). simpl.
      unfold rec_binding at 1, rec_hash. rewrite !Z.eqb_refl. simpl. by exists (rec_extension r).
    + destruct Hs as [H0|(r & HR & Hgr & Hh & Hk)]; [by rewrite H0|].
      rewrite HR, (proj2 (Z.eqb_neq _ _) (gr_key r Hgr)), (read_held _ _ _ Hh Hgr).
      unfold snapshot_key, snapshot_identity in *. simpl in *. by rewrite (proj2 (Z.eqb_neq _ _) Hk).
  - intros k Hk. apply (sr_blank _ _ Hr). intros i r HR <-.
    destruct (sr_slot _ _ Hr _ _ HR) as (_ & _ & (Hx & _)). congruence.
  - intros ks. by eapply live_bound.
Qed.

Lemma retained_snoc ws e sn e' :
  retained (ws ++ [(e, sn)]) e' =
    if decide (e' mod RETAIN = e mod RETAIN) then (if e =? e' then Some sn else None) else retained ws e'.
Proof. unfold retained. rewrite latest_snoc. by case_decide. Qed.

Lemma snapshot_into_ok e sn vs st p w :
  snapshot_into e sn (vs, st) = (Ok p, w) ->
  exists st', w = (vs, st') /\ write_committee_snapshot vs e sn st = (Ok p, st').
Proof.
  unfold snapshot_into, zoom. simpl. destruct (write_committee_snapshot vs e sn st) as [r st'].
  intros [= -> <-]. by exists st'.
Qed.

(** The writes of a boundary. *)
Definition boundary_writes (inputs : BoundaryActivationInputs) : list (Z * CommitteeSnapshot) :=
  option_list (outgoing inputs) ++ [(incoming_epoch inputs, incoming inputs)].

(** A boundary is all or nothing: either the membership becomes the certified
    set with its hash and both committees' snapshots are readable by their
    epochs, or nothing of the registry or the snapshots changes. *)
Theorem boundary_all_or_nothing inputs vs ws st r vs' st' :
  vs_inv vs -> written ws st -> Forall good_write (ws ++ boundary_writes inputs) ->
  (forall e sn, outgoing inputs = Some (e, sn) -> e mod RETAIN <> incoming_epoch inputs mod RETAIN) ->
  activate_boundary_atomic inputs (vs, st) = (r, (vs', st')) ->
  match r with
  | Ok _ =>
      active_consensus_set_hash vs' = active_set_hash inputs
      /\ (forall a, is_consensus_participant vs' a = Ok (bool_decide (a ∈ new_active_set inputs)))
      /\ read_committee_snapshot_for_epoch st' (incoming_epoch inputs) = Some (incoming inputs)
      /\ (forall e sn, outgoing inputs = Some (e, sn) ->
            read_committee_snapshot_for_epoch st' e = Some sn)
      /\ written (ws ++ boundary_writes inputs) st'
  | _ => vs' = vs /\ st' = st
  end.
Proof.
  intros Hvs Hw Hg Hres Hrun. destruct r as [p|er|].
  2, 3: unfold activate_boundary_atomic in Hrun; apply with_checkpoint_not_ok in Hrun; [by simplify_eq|done].
  unfold activate_boundary_atomic in Hrun. minv.
  match goal with Hi : snapshot_into (incoming_epoch _) _ _ = _ |- _ => rename Hi into Hin end.
  match goal with Ho : on_registry _ _ = _ |- _ => rename Ho into Hreg end.
  match goal with Ho : (match outgoing inputs with _ => _ end) _ = _ |- _ => rename Ho into Hout end.
  assert (Hout' : exists st1, s = (vs, st1) /\ written (ws ++ option_list (outgoing inputs)) st1).
  { destruct (outgoing inputs) as [[e sn]|]; minv.
    - match goal with Hs : snapshot_into e sn _ = _ |- _ =>
        apply snapshot_into_ok in Hs as (st1 & -> & Hs); exists st1; split; [done|];
        exact (written_snoc _ _ _ _ _ _ _ Hw Hs) end.
    - exists st. by rewrite app_nil_r. }
  destruct Hout' as (st1 & -> & Hw1). unfold on_registry, zoom in Hreg. simpl in Hreg.
  destruct (activate_validated_boundary_set_with_expiry_exclusions _ _ _ _ vs) as [rr vs1] eqn:Hact.
  injection Hreg as -> <-. apply snapshot_into_ok in Hin as (st2 & E & Hin). simplify_eq.
  pose proof (written_snoc _ _ _ _ _ _ _ Hw1 Hin) as Hw2. simpl in Hw2. rewrite <- app_assoc in Hw2.
  fold (boundary_writes inputs) in Hw2.
  destruct (boundary_participants _ _ _ _ _ _ Hvs Hact) as (_ & Hhash & Hpart).
  assert (He : forall e sn, (e, sn) ∈ boundary_writes inputs -> 0 <= e <= u64_max).
  { intros e sn Hin'. apply Forall_app in Hg as [_ Hg].
    by apply (proj1 (Forall_forall _ _) Hg) in Hin' as (? & _). }
  split_and!; [done|done| | |done].
  - rewrite (read_epoch_written _ _ _ Hw2 Hg).
    + unfold boundary_writes. rewrite app_assoc, retained_snoc, decide_True, Z.eqb_refl; done.
    + eapply He. unfold boundary_writes. apply elem_of_app. right. by left.
  - intros e sn Ho. rewrite (read_epoch_written _ _ _ Hw2 Hg).
    + unfold boundary_writes. rewrite app_assoc, retained_snoc, decide_False by by eapply Hres.
      rewrite Ho. simpl. rewrite retained_snoc, decide_True, Z.eqb_refl; done.
    + eapply He. unfold boundary_writes. rewrite Ho. by left.
Qed.
End Ring.

(** * Witnesses

    A toy hash that spells its preimage after a leading one, and the registry of
    two validators of [ValidatorSetProps]. *)

#[local] Existing Instance sample_externals.
#[local] Existing Instance spelled_keccak.

Lemma be_value_zeros n : be_value (replicate n 0) = 0.
Proof. unfold be_value. by induction n. Qed.
Lemma spelled_nonzero a : Forall byte a -> spelled_keccak a <> 0.
Proof.
  intros Ha Hz. unfold spelled_keccak in Hz. rewrite <- (be_value_zeros (S (length a))) in Hz.
  apply be_value_inj in Hz; [simplify_eq/=| | |].
  - constructor; [unfold byte; lia|done].
  - apply Forall_replicate. unfold byte. lia.
  - by rewrite length_replicate.
Qed.

Lemma key_preimage_byte e h :
  Forall byte (string_bytes "OUTBE_COMMITTEE_SNAPSHOT_KEY_V2" ++ be_bytes 8 e ++ be_bytes 32 h).
Proof.
  apply Forall_app. split; [apply string_bytes_byte|]. apply Forall_app. split; apply be_bytes_byte.
Qed.
Lemma snapshot_key_eq e sn :
  snapshot_key e sn = spelled_keccak (string_bytes "OUTBE_COMMITTEE_SNAPSHOT_KEY_V2"
    ++ be_bytes 8 e ++ be_bytes 32 (committee_set_hash_v2 e sn)).
Proof. reflexivity. Qed.
Lemma spelled_good e sn :
  0 <= e <= u64_max -> Forall byte (vrf_group_public_key_bytes sn) -> good_write (e, sn).
Proof.
  intros He Hb. split; [done|]. split; [done|]. split.
  - cbn [fst snd]. rewrite snapshot_key_eq. apply spelled_nonzero, key_preimage_byte.
  - cbn [fst snd]. intros e' He' Hk. rewrite !snapshot_key_eq in Hk. apply spelled_inj in Hk; [|apply key_preimage_byte..|].
    + apply app_inv_head in Hk. apply app_inj_1 in Hk as [Hk _]; [|by rewrite !length_be_bytes].
      apply be_bytes_inj in Hk; [done|change (256 ^ Z.of_nat 8) with (u64_max + 1); lia..].
    + rewrite !length_app, !length_be_bytes. reflexivity.
Qed.

Definition sample_committee (v : Z) : CommitteeSnapshot :=
  mkSnapshot [mkEntry 10 7; mkEntry 11 8] v (replicate 40 3) 77.
Definition sample_write (e v : Z) (st : SnapshotStore) : SnapshotStore :=
  snd (write_committee_snapshot sample_active e (sample_committee v) st).
Definition sample_store1 : SnapshotStore := sample_write 0 0 snapshots_empty.
Definition sample_store2 : SnapshotStore := sample_write 1 1 sample_store1.
Definition sample_store3 : SnapshotStore := sample_write 8 2 sample_store2.
Definition sample_writes : list (Z * CommitteeSnapshot) :=
  [(0, sample_committee 0); (1, sample_committee 1); (8, sample_committee 2)].

Lemma sample_written ws e v st :
  written ws st ->
  fst (write_committee_snapshot sample_active e (sample_committee v) st)
    = Ok (snapshot_identity e (sample_committee v)) ->
  written (ws ++ [(e, sample_committee v)]) (sample_write e v st).
Proof. intros Hw Hok. apply run_snd in Hok. exact (written_snoc _ _ _ _ _ _ _ Hw Hok). Qed.
Lemma sample_store_written : written sample_writes sample_store3.
Proof.
  apply (sample_written [(0, sample_committee 0); (1, sample_committee 1)]); [|vm_compute; reflexivity].
  apply (sample_written [(0, sample_committee 0)]); [|vm_compute; reflexivity].
  apply (sample_written []); [apply written_nil|vm_compute; reflexivity].
Qed.

Lemma sample_writes_good ws :
  Forall (fun w => 0 <= w.1 <= u64_max /\ exists v, w.2 = sample_committee v) ws -> Forall good_write ws.
Proof.
  intros Hws. eapply Forall_impl; [exact Hws|]. intros [e sn] [He [v Hv]]. cbn [fst snd] in *. subst.
  apply spelled_good; [exact He|].
  apply Forall_replicate. unfold byte. lia.
Qed.

Lemma snapshots_retained_witness :
  read_committee_snapshot_for_epoch sample_store3 0 = None
  /\ read_committee_snapshot_for_epoch sample_store3 1 = Some (sample_committee 1)
  /\ read_committee_snapshot_for_epoch sample_store3 8 = Some (sample_committee 2).
Proof.
  destruct (snapshots_retained sample_writes sample_store3) as (Hread & _ & _).
  - apply sample_store_written.
  - apply sample_writes_good. repeat constructor; cbn [fst snd]; try (unfold u64_max; lia); by eexists.
  - split; [|split]; (etransitivity; [apply Hread; unfold u64_max; lia|vm_compute; reflexivity]).
Defined.

Definition sample_inputs : BoundaryActivationInputs :=
  mkBoundary (Some (1, sample_committee 1)) 2 (sample_committee 2) 5 [10; 11] 777 [].

Definition sample_crossed : result (B256 * B256) * (ValidatorSet * SnapshotStore) :=
  activate_boundary_atomic sample_inputs (sample_joined, snapshots_empty).

Lemma boundary_all_or_nothing_witness :
  is_consensus_participant (snd sample_crossed).1 10 = Ok true
  /\ read_committee_snapshot_for_epoch (snd sample_crossed).2 1 = Some (sample_committee 1)
  /\ read_committee_snapshot_for_epoch (snd sample_crossed).2 2 = Some (sample_committee 2).
Proof.
  assert (Hrun : activate_boundary_atomic sample_inputs (sample_joined, snapshots_empty)
    = (Ok ((snapshot_identity 1 (sample_committee 1)).2, (snapshot_identity 2 (sample_committee 2)).2),
       ((snd sample_crossed).1, (snd sample_crossed).2))).
  { rewrite <- surjective_pairing. apply run_snd. vm_compute. reflexivity. }
  destruct (boundary_all_or_nothing sample_inputs sample_joined [] snapshots_empty
    (Ok ((snapshot_identity 1 (sample_committee 1)).2, (snapshot_identity 2 (sample_committee 2)).2))
    (snd sample_crossed).1 (snd sample_crossed).2) as (_ & Hp & Hin & Hout & _).
  - apply sample_joined_inv.
  - apply written_nil.
  - apply (sample_writes_good [(1, sample_committee 1); (2, sample_committee 2)]).
    repeat constructor; cbn [fst snd]; try (unfold u64_max; lia); by eexists.
  - intros e sn [= <- _]. discriminate.
  - exact Hrun.
  - split; [|split].
    + rewrite (Hp 10). reflexivity.
    + apply (Hout 1 (sample_committee 1)). reflexivity.
    + exact Hin.
Defined.
