(* ===== verification/ConsensusProof.v ===== *)
(** The certificate verifiers: the metadata-bound verifier of certified-parent
    proofs and the late-finalize verifier.

    Sources: [crates/blockchain/consensus/src/proof/verifier.rs],
    [late_finalize.rs], [committee_keys.rs], [error.rs], [fingerprint.rs],
    [seed_partial.rs], [hybrid_wire.rs] and [constants.rs] (the process-wide
    chain id). Commonware's own codecs (the signer bitmap, signatures, the
    envelope of a finalization) and its BLS operations are the fields of the
    class [Commonware]. Codec errors carry no detail. *)

From S2P Require Import Prelude Bytes Wire Artifacts P2pAddress Lifecycle ValidatorSet Snapshots.

(** * Errors (error.rs) *)

Inductive V2VerifyError : Type :=
  | Decode
  | TrailingBytes
  | NonHybridEncoding (reason : string)
  | BelowQuorum (signers quorum : Z)
  | BitmapMismatch (reason : string)
  | SignerIndexOutOfRange (index committee_size : Z)
  | DuplicateSigner (index : Z)
  | BlsAggregateInvalid
  | MalformedVrfProof
  | WrongVrfMaterialVersion (expected actual : Z)
  | WrongVrfGroupKeyHash (expected actual : B256)
  | WrongVrfNamespace
  | WrongVrfSeedRound (expected_epoch expected_view : Z)
  | InvalidVrfSignature
  | WrongAccountedNumber (expected actual : Z)
  | WrongAccountedHash (expected actual : B256)
  | WrongProofDomain (expected actual : B256)
  | CommitteeSnapshotMissing
  | CommitteeSetHashMismatch (expected actual : B256)
  | NonEmptyMissedProposers (count : Z).

Definition verified (A : Type) : Type := V2VerifyError + A.

(** * The process-wide consensus domain (constants.rs) *)

(** The [OnceLock] holds the installed chain id; the namespaces are functions
    of it. *)
Inductive ConsensusChainIdError : Type := AlreadyBound (installed requested : Z).
Definition DEFAULT_CONSENSUS_CHAIN_ID : Z := 0.

Definition matching_consensus_chain_id (installed requested : Z) : ConsensusChainIdError + unit :=
  if installed =? requested then inr tt else inl (AlreadyBound installed requested).
Definition install_consensus_domain (cell : option Z) (chain_id : Z) :
    option Z * (ConsensusChainIdError + unit) :=
  match cell with
  | Some installed => (cell, matching_consensus_chain_id installed chain_id)
  | None => (Some chain_id, inr tt)
  end.
Definition consensus_domain (cell : option Z) : option Z * Z :=
  let chain := default DEFAULT_CONSENSUS_CHAIN_ID cell in (Some chain, chain).

(** The chain id the process has installed. *)
Class ConsensusDomain := consensus_chain_id : Z.

(** * Certificates (hybrid_wire.rs) *)

(** A decoded signature or group element stands as its encoding. *)
Record VrfProof : Type := mkVrfProof { material_version : Z; threshold_signature : list Z }.

(** [Signers] is a bitmap: one flag per participant. *)
Record HybridCertificate : Type := mkCertificate {
  signers : list bool;
  bls_aggregated_vote : list Z;
  cert_vrf_proof : VrfProof }.

Record Proposal : Type := mkProposal {
  prop_epoch : Z;
  prop_view : Z;
  prop_parent : Z;
  prop_payload : B256 }.

Definition decoder (A : Type) : Type := list Z -> option (A * list Z).

(** * What commonware provides *)

Class Commonware := {
  (** [Set::from_iter_dedup]. *)
  ordered_set : list ConsensusPubkey -> list ConsensusPubkey;
  (** [Signers::read_cfg] for a number of participants, and its [write]. *)
  read_signers : nat -> decoder (list bool);
  write_signers : list bool -> list Z;
  (** [read] of an aggregate MinPk signature and of a MinSig signature. *)
  read_aggregate_signature : decoder (list Z);
  read_min_sig_signature : decoder (list Z);
  (** [read_cfg] of [Finalization] and [Notarization], generic in the
      certificate's reader. *)
  read_certified : ParentParticipationProof -> decoder HybridCertificate ->
    decoder (Proposal * HybridCertificate);
  (** [Encode] of a proposal and of a round. *)
  proposal_encode : Proposal -> list Z;
  round_encode : Z -> Z -> list Z;
  (** [combine_public_keys] with [verify_same_message] under a namespace. *)
  aggregate_verify : list ConsensusPubkey -> list Z -> list Z -> list Z -> bool;
  (** MinSig group keys: encoded size, decoding, [verify_message]. *)
  min_sig_public_size : nat;
  min_sig_public_decodes : list Z -> bool;
  min_sig_verify : list Z -> list Z -> list Z -> list Z -> bool;
  (** MinPk identity keys and signatures: decoding, [verify]. *)
  identity_key_decodes : list Z -> bool;
  identity_signature_decodes : list Z -> bool;
  identity_verify : list Z -> list Z -> list Z -> list Z -> bool;
  (** [Sharing::read_cfg] under a participant cap, then [partial_public]. *)
  sharing_partial_public : Z -> list Z -> Z -> option (list Z) }.

Section Verifier.
Context {H : Keccak} {W : Commonware} {D : ConsensusDomain}.

(** * The certificate codec (hybrid_wire.rs) *)

Definition vrf_proof_write (proof : VrfProof) : list Z :=
  be_bytes 8 (material_version proof) ++ threshold_signature proof.
Definition vrf_proof_read : decoder VrfProof := fun input =>
  if (length input <? 8)%nat then None
  else match read_min_sig_signature (drop 8 input) with
       | None => None
       | Some (sig, rest) => Some (mkVrfProof (be_value (take 8 input)) sig, rest)
       end.

Definition signer_count (flags : list bool) : Z :=
  Z.of_nat (length (filter (fun b => b = true) flags)).

Definition certificate_write (cert : HybridCertificate) : list Z :=
  write_signers (signers cert) ++ bls_aggregated_vote cert ++ vrf_proof_write (cert_vrf_proof cert).
Definition certificate_read_cfg (max_participants : nat) : decoder HybridCertificate := fun input =>
  match read_signers max_participants input with
  | None => None
  | Some (flags, rest) =>
      if signer_count flags =? 0 then None
      else match read_aggregate_signature rest with
           | None => None
           | Some (vote, rest') =>
               match vrf_proof_read rest' with
               | None => None
               | Some (proof, rest'') => Some (mkCertificate flags vote proof, rest'')
               end
           end
  end.

(** [decode] and [decode_cfg]: a read that leaves nothing. *)
Definition decode_all {A} (read : decoder A) (input : list Z) : option A :=
  match read input with Some (a, []) => Some a | _ => None end.

(** * Committee keys (committee_keys.rs) *)

Fixpoint decode_participants (l : list CommitteeEntry) : verified (list ConsensusPubkey) :=
  match l with
  | [] => inr []
  | entry :: rest =>
      let+ _ := erequire (identity_key_decodes (be_bytes 48 (entry_pubkey entry))) Decode in
      let+ keys := decode_participants rest in
      inr (entry_pubkey entry :: keys)
  end.
Definition decode_committee_participants (snapshot : CommitteeSnapshot) :
    verified (list ConsensusPubkey) := decode_participants (committee snapshot).
Definition committee_ordered_set (participants : list ConsensusPubkey) : list ConsensusPubkey :=
  ordered_set participants.

(** * Fingerprints (fingerprint.rs) *)

Definition canonical_signer_set_hash (bitmap : list Z) : B256 :=
  keccak256 (be_bytes 4 (Z.of_nat (length bitmap)) ++ bitmap).
Definition canonical_vrf_proof_hash_v2 (proof : VrfProof) : B256 := keccak256 (vrf_proof_write proof).

(** * Seed signatures (seed_partial.rs) *)

Definition seed_partial_attest_message (round_epoch round_view vrf_version : Z)
    (partial_bytes : list Z) : list Z :=
  round_encode round_epoch round_view ++ be_bytes 8 vrf_version ++ partial_bytes.

Definition verify_seed_partial_attest_bytes (identity_pubkey : list Z)
    (round_epoch round_view vrf_version : Z) (partial_bytes sig : list Z) : bool :=
  identity_key_decodes identity_pubkey
  && identity_signature_decodes sig
  && identity_verify identity_pubkey (seed_attest_namespace consensus_chain_id)
       (seed_partial_attest_message round_epoch round_view vrf_version partial_bytes) sig.

Definition verify_seed_signature_plain (pk seed_message sig : list Z) : bool :=
  min_sig_verify pk (hybrid_seed_namespace consensus_chain_id) seed_message sig.

(** [MAX_VALIDATORS] of bls.rs. *)
Definition MAX_VALIDATORS : Z := 256.

Definition verify_seed_partial_against_commitment (commitment_bytes : list Z) (index : Z)
    (round_epoch round_view : Z) (partial_bytes : list Z) : option bool :=
  match sharing_partial_public MAX_VALIDATORS commitment_bytes index with
  | None => None
  | Some pk_i =>
      match decode_all read_min_sig_signature partial_bytes with
      | None => None
      | Some partial =>
          Some (verify_seed_signature_plain pk_i (round_encode round_epoch round_view) partial)
      end
  end.

(** * The certificate verifier (verifier.rs) *)

Record VerifiedProof : Type := mkVerified {
  vp_signer_bitmap : list Z;
  vp_vrf_proof_hash : B256;
  vp_vrf_material_version : Z }.

Definition simplex_n3f1_quorum (n : Z) : Z := 2 * n / 3 + 1.

(** The participants whose flag is set, in order. *)
Definition signer_keys (flags : list bool) (participants : list ConsensusPubkey) :
    list ConsensusPubkey :=
  snd <$> filter (fun p => p.1 = true) (zip flags participants).
Definition flag_byte (b : bool) : Z := if b then 1 else 0.

Definition verify_threshold_vrf_proof (group_pk seed_message : list Z) (proof : VrfProof) :
    verified unit :=
  erequire (verify_seed_signature_plain group_pk seed_message (threshold_signature proof))
    InvalidVrfSignature.

Definition verify_v2_certificate_low_level (participants : list ConsensusPubkey)
    (group_pk namespace message seed_message : list Z) (cert : HybridCertificate) :
    verified VerifiedProof :=
  let participants_len := Z.of_nat (length participants) in
  let+ _ := erequire (Z.of_nat (length (signers cert)) =? participants_len)
    (BitmapMismatch "bitmap length does not match committee size") in
  let quorum := simplex_n3f1_quorum participants_len in
  let count := signer_count (signers cert) in
  let+ _ := erequire (negb (count <? quorum)) (BelowQuorum count quorum) in
  let signer_pubkeys := signer_keys (signers cert) participants in
  let+ _ := erequire (Z.of_nat (length signer_pubkeys) =? count)
    (SignerIndexOutOfRange 0 participants_len) in
  let+ _ := erequire (aggregate_verify signer_pubkeys namespace message (bls_aggregated_vote cert))
    BlsAggregateInvalid in
  let proof := cert_vrf_proof cert in
  let+ _ := verify_threshold_vrf_proof group_pk seed_message proof in
  inr (mkVerified (flag_byte <$> signers cert) (canonical_vrf_proof_hash_v2 proof)
         (material_version proof)).

(** The public entry: the wire decoding in front of the shared checker. *)
Definition verify_v2_proof_low_level (participants : list ConsensusPubkey)
    (group_pk namespace message seed_message proof_bytes : list Z) : verified VerifiedProof :=
  match decode_all (certificate_read_cfg (length participants)) proof_bytes with
  | None => inl Decode
  | Some cert =>
      verify_v2_certificate_low_level participants group_pk namespace message seed_message cert
  end.

Definition decode_min_sig_public (bytes : list Z) : verified unit :=
  let+ _ := erequire (length bytes =? min_sig_public_size)%nat
    (WrongVrfGroupKeyHash 0 (keccak256 bytes)) in
  erequire (min_sig_public_decodes bytes) Decode.

Definition as_u32 (n : Z) : Z := n mod 2 ^ 32.

(** The position-wise comparison of the committees. *)
Fixpoint same_addresses (meta : list Address) (snap : list CommitteeEntry) : bool :=
  match meta, snap with
  | a :: meta', e :: snap' => (a =? entry_address e) && same_addresses meta' snap'
  | _, _ => true
  end.

(** The last loop: bytes are binary and no index repeats. *)
Fixpoint check_bitmap (bytes : list (Z * Z)) (seen : list Z) : verified unit :=
  match bytes with
  | [] => inr tt
  | (index, byte) :: rest =>
      if byte =? 0 then check_bitmap rest seen
      else if negb (byte =? 1)
      then inl (BitmapMismatch "metadata.signer_bitmap has non-binary byte")
      else if bool_decide (as_u32 index ∈ seen) then inl (DuplicateSigner (as_u32 index))
      else check_bitmap rest (as_u32 index :: seen)
  end.

Definition vote_namespace (kind : ParentParticipationProof) (committee_set : list ConsensusPubkey) :
    list Z :=
  match kind with
  | Finalization => finalize_namespace consensus_chain_id committee_set
  | CertifiedNotarization => notarize_namespace consensus_chain_id committee_set
  end.

Definition verify_v2_proof (metadata : CertifiedParentAccountingMetadata)
    (snapshot : CommitteeSnapshot) (proof_bytes : list Z) (header_parent_hash : B256) :
    verified VerifiedProof :=
  let+ _ := erequire (bool_decide (missed_proposers metadata = []))
    (NonEmptyMissedProposers (Z.of_nat (length (missed_proposers metadata)))) in
  let+ _ := erequire (finalized_block_hash metadata =? header_parent_hash)
    (WrongAccountedHash header_parent_hash (finalized_block_hash metadata)) in
  let+ _ := erequire (negb (bool_decide (committee snapshot = []))) CommitteeSnapshotMissing in
  let+ _ := erequire (length (ordered_committee metadata) =? length (committee snapshot))%nat
    (BitmapMismatch "metadata.ordered_committee length differs from snapshot.committee length") in
  let+ _ := erequire (same_addresses (ordered_committee metadata) (committee snapshot))
    (BitmapMismatch "metadata.ordered_committee[i].address differs from snapshot.committee[i].address") in
  let+ _ := erequire (length (signer_bitmap metadata) =? length (ordered_committee metadata))%nat
    (BitmapMismatch "metadata.signer_bitmap length differs from ordered_committee length") in
  let+ _ := erequire (md_vrf_material_version metadata =? vrf_material_version snapshot)
    (WrongVrfMaterialVersion (vrf_material_version snapshot) (md_vrf_material_version metadata)) in
  let snapshot_group_pk_hash := keccak256 (vrf_group_public_key_bytes snapshot) in
  let+ _ := erequire (vrf_group_public_key_hash metadata =? snapshot_group_pk_hash)
    (WrongVrfGroupKeyHash snapshot_group_pk_hash (vrf_group_public_key_hash metadata)) in
  let canonical := committee_set_hash_v2 (finalized_epoch metadata) snapshot in
  let+ _ := erequire (committee_set_hash metadata =? canonical)
    (CommitteeSetHashMismatch canonical (committee_set_hash metadata)) in
  let+ _ := erequire (bool_decide (proof_bytes = md_proof metadata))
    (WrongProofDomain (finalized_block_hash metadata) 0) in
  let+ participants := decode_committee_participants snapshot in
  let+ _ := decode_min_sig_public (vrf_group_public_key_bytes snapshot) in
  match read_certified (proof_kind metadata) (certificate_read_cfg (length (committee snapshot)))
          (md_proof metadata) with
  | None => inl Decode
  | Some (proposal, cert, unread) =>
      let+ _ := erequire (bool_decide (unread = [])) TrailingBytes in
      let+ _ := erequire ((prop_epoch proposal =? finalized_epoch metadata)
                          && (prop_view proposal =? finalized_view metadata)
                          && (prop_parent proposal =? parent_view metadata)
                          && (prop_payload proposal =? finalized_block_hash metadata))
        (WrongProofDomain (finalized_block_hash metadata) (prop_payload proposal)) in
      let namespace := vote_namespace (proof_kind metadata) (committee_ordered_set participants) in
      let+ inner := verify_v2_certificate_low_level participants (vrf_group_public_key_bytes snapshot)
        namespace (proposal_encode proposal) (round_encode (prop_epoch proposal) (prop_view proposal))
        cert in
      let+ _ := erequire (vp_vrf_material_version inner =? md_vrf_material_version metadata)
        (WrongVrfMaterialVersion (md_vrf_material_version metadata) (vp_vrf_material_version inner)) in
      let+ _ := erequire (bool_decide (vp_signer_bitmap inner = signer_bitmap metadata))
        (BitmapMismatch "metadata.signer_bitmap differs from certificate-reconstructed bitmap") in
      let+ _ := check_bitmap (enumerate (signer_bitmap metadata)) [] in
      inr inner
  end.

(** [classify_vrf_failure] (slashindicator/runtime.rs). *)
Definition classify_vrf_failure (err : V2VerifyError) : option Z :=
  match err with
  | MalformedVrfProof => Some 2
  | WrongVrfMaterialVersion _ _ => Some 3
  | WrongVrfGroupKeyHash _ _ => Some 4
  | WrongVrfNamespace => Some 5
  | WrongVrfSeedRound _ _ => Some 6
  | InvalidVrfSignature => Some 7
  | _ => None
  end.

(** * Late-finalize credits (late_finalize.rs) *)

(** The bits of one byte, then of the bitmap: indices of the set bits, or the
    first that is out of range. *)
Fixpoint bit_indices (n : Z) (byte_idx byte : Z) (bits : list Z) : verified (list Z) :=
  match bits with
  | [] => inr []
  | bit :: rest =>
      if Z.land byte (Z.shiftl 1 bit) =? 0 then bit_indices n byte_idx byte rest
      else
        let idx := byte_idx * 8 + bit in
        let+ _ := erequire (negb (n <=? idx)) (SignerIndexOutOfRange (as_u32 idx) n) in
        let+ indices := bit_indices n byte_idx byte rest in
        inr (idx :: indices)
  end.
Fixpoint bitmap_indices (n : Z) (bytes : list (Z * Z)) : verified (list Z) :=
  match bytes with
  | [] => inr []
  | (byte_idx, byte) :: rest =>
      if byte =? 0 then bitmap_indices n rest
      else
        let+ here := bit_indices n byte_idx byte (seqZ 0 8) in
        let+ later := bitmap_indices n rest in
        inr (here ++ later)
  end.

Definition verify_late_finalize_proof (snapshot : CommitteeSnapshot) (credit : PerBlockCredit) :
    verified (list Z) :=
  let expected_set_hash := committee_set_hash_v2 (credit_epoch credit) snapshot in
  let+ _ := erequire (expected_set_hash =? credit_committee_set_hash credit)
    (CommitteeSetHashMismatch expected_set_hash (credit_committee_set_hash credit)) in
  let+ participants := decode_committee_participants snapshot in
  let n := Z.of_nat (length participants) in
  let+ _ := erequire (Z.of_nat (length (credit_signer_bitmap credit)) =? (n + 7) / 8)
    (BitmapMismatch "late-finalize bitmap length does not match committee size") in
  let+ signer_indices := bitmap_indices n (enumerate (credit_signer_bitmap credit)) in
  let+ _ := erequire (negb (bool_decide (signer_indices = [])))
    (BitmapMismatch "empty late-finalize signer bitmap") in
  let signer_pubkeys := (fun i => nth (Z.to_nat i) participants 0) <$> signer_indices in
  let message := proposal_encode (mkProposal (credit_epoch credit) (credit_view credit)
                                    (credit_parent_view credit) (fb_hash credit)) in
  match decode_all read_aggregate_signature (aggregate_signature credit) with
  | None => inl Decode
  | Some agg_sig =>
      let committee_set := committee_ordered_set participants in
      let+ _ := erequire (aggregate_verify signer_pubkeys
                            (finalize_namespace consensus_chain_id committee_set) message agg_sig)
        BlsAggregateInvalid in
      inr signer_indices
  end.
End Verifier.
