(* ===== verification/ConsensusProofProps.v ===== *)
(** What the certificate verifiers guarantee: two certificates accepted for one
    committee share more signers than the protocol tolerates faults, and a
    late-finalize credit names exactly the members whose bit is set. *)

From stdpp Require Import sorting.
From S2P Require Import Prelude Bytes Wire Artifacts P2pAddress Lifecycle ValidatorSet Snapshots ConsensusProof.

(** * Counting flags *)

Definition both (f g : list bool) : list bool := zip_with andb f g.

Lemma signer_count_cons b f : signer_count (b :: f) = (if b then 1 else 0) + signer_count f.
Proof. unfold signer_count. destruct b; rewrite ?filter_cons; simpl; lia. Qed.

(** Inclusion and exclusion for two bitmaps of one committee. *)
Lemma both_count f : forall g, length f = length g ->
  signer_count f + signer_count g <= Z.of_nat (length f) + signer_count (both f g).
Proof.
  induction f as [|b f IH]; intros [|c g] Hlen; try done.
  simpl in Hlen. specialize (IH g ltac:(lia)).
  unfold both in *. cbn [zip_with]. rewrite !signer_count_cons. cbn [length].
  rewrite Nat2Z.inj_succ. destruct b, c; simpl; lia.
Qed.

(** Two quorums overlap in more than [(n - 1) / 3] members. *)
Lemma quorums_overlap n a b shared :
  0 < n -> simplex_n3f1_quorum n <= a -> simplex_n3f1_quorum n <= b -> a + b <= n + shared ->
  (n - 1) / 3 < shared.
Proof.
  unfold simplex_n3f1_quorum. intros.
  pose proof (Z.div_mod (2 * n) 3). pose proof (Z.mod_pos_bound (2 * n) 3).
  pose proof (Z.div_mod (n - 1) 3). pose proof (Z.mod_pos_bound (n - 1) 3). lia.
Qed.

(** * The bits of a late-finalize bitmap *)

Definition bit_set (bitmap : list Z) (i : Z) : Prop :=
  0 <= i /\ Z.testbit (nth (Z.to_nat (i / 8)) bitmap 0) (i mod 8) = true.

Lemma land_shiftl_eqb x k : 0 <= k -> (Z.land x (Z.shiftl 1 k) =? 0) = negb (Z.testbit x k).
Proof.
  intros Hk. rewrite Z.shiftl_1_l. destruct (Z.testbit x k) eqn:Hb; simpl.
  - apply Z.eqb_neq. intros Hz. apply (f_equal (fun z => Z.testbit z k)) in Hz.
    rewrite Z.land_spec, Hb, Z.pow2_bits_true, Z.bits_0 in Hz by done. done.
  - apply Z.eqb_eq. apply Z.bits_inj'. intros m Hm.
    rewrite Z.land_spec, Z.pow2_bits_eqb, Z.bits_0 by done.
    destruct (Z.eqb_spec k m) as [->|]; [by rewrite Hb|by rewrite andb_false_r].
Qed.

Lemma bit_indices_ok n k x bits : forall l,
  Forall (Z.le 0) bits -> StronglySorted Z.lt bits -> bit_indices n k x bits = inr l ->
  (forall i, i ∈ l <-> i - k * 8 ∈ bits /\ Z.testbit x (i - k * 8) = true)
  /\ StronglySorted Z.lt l /\ Forall (fun i => i < n) l.
Proof.
  induction bits as [|b bits IH]; intros l Hpos Hs Hl; simpl in Hl.
  - injection Hl as <-. split_and!; try constructor; set_solver.
  - apply Forall_cons in Hpos as [Hb Hpos]. apply StronglySorted_inv in Hs as [Hs Hlt].
    rewrite land_shiftl_eqb in Hl by done. destruct (Z.testbit x b) eqn:Hbit; simpl in Hl.
    + estep Hl. apply ebind_inr in Hl as (later & Hr & Hl). injection Hl as <-.
      destruct (IH later Hpos Hs Hr) as (Hin & Hss & Hn).
      bprop. split_and!; [|constructor; [done|]|constructor; [lia|done]].
      * intros i. rewrite !elem_of_cons, Hin. split.
        -- intros [->|[? ?]]; [|by auto]. by replace (k * 8 + b - k * 8) with b by lia; auto.
        -- intros [[Heq|?] ?]; [left; lia|by right].
      * apply Forall_forall. intros i [Hi _]%Hin. rewrite Forall_forall in Hlt.
        specialize (Hlt _ Hi). lia.
    + destruct (IH l Hpos Hs Hl) as (Hin & Hss & Hn). split_and!; [|done|done].
      intros i. rewrite Hin, elem_of_cons. split; [by intros [? ?]; auto|].
      intros [[Heq|?] ?]; [congruence|done].
Qed.

(** The byte an index from [k * 8] on falls into. *)
Lemma nth_byte k b bytes i : 0 <= k -> k * 8 <= i ->
  nth (Z.to_nat (i / 8 - k)) (b :: bytes) 0
  = if i <? (k + 1) * 8 then b else nth (Z.to_nat (i / 8 - (k + 1))) bytes 0.
Proof.
  intros Hk Hi. pose proof (Z.div_mod i 8). pose proof (Z.mod_pos_bound i 8).
  destruct (Z.ltb_spec i ((k + 1) * 8)).
  - by replace (Z.to_nat (i / 8 - k)) with 0%nat by lia.
  - by replace (Z.to_nat (i / 8 - k)) with (S (Z.to_nat (i / 8 - (k + 1)))) by lia.
Qed.

(** One byte contributes the indices of its set bits. *)
Lemma byte_indices_ok n k b l : bit_indices n k b (seqZ 0 8) = inr l ->
  (forall i, i ∈ l <-> k * 8 <= i < (k + 1) * 8 /\ Z.testbit b (i mod 8) = true)
  /\ StronglySorted Z.lt l /\ Forall (fun i => i < n) l.
Proof.
  intros Hl. apply bit_indices_ok in Hl as (Hin & Hs & Hn);
    [|vm_compute; repeat constructor; done|vm_compute; repeat constructor].
  split_and!; [|done|done]. intros i. rewrite Hin, elem_of_seqZ.
  split; intros [Hr Hb]; (split; [lia|]);
    replace (i mod 8) with (i - k * 8) in *; try done; apply Z.mod_unique with (q := k); lia.
Qed.

(** The skipped zero byte contributes none. *)
Lemma bitmap_indices_cons n k b bytes l :
  bitmap_indices n (enumerate_from k (b :: bytes)) = inr l ->
  exists here later, l = here ++ later
    /\ bitmap_indices n (enumerate_from (k + 1) bytes) = inr later
    /\ (forall i, i ∈ here <-> k * 8 <= i < (k + 1) * 8 /\ Z.testbit b (i mod 8) = true)
    /\ StronglySorted Z.lt here /\ Forall (fun i => i < n) here.
Proof.
  cbn [enumerate_from bitmap_indices]. intros Hl. destruct (Z.eqb_spec b 0) as [->|_].
  - exists [], l. split_and!; try done; try constructor.
    + set_solver.
    + intros [_ Hb]. by rewrite Z.bits_0 in Hb.
  - apply ebind_inr in Hl as (here & Hh & Hl). apply ebind_inr in Hl as (later & Hr & Hl).
    injection Hl as <-. exists here, later. split_and!; [done|done|by eapply byte_indices_ok..].
Qed.

Lemma bitmap_indices_ok n bytes : forall k l, 0 <= k ->
  bitmap_indices n (enumerate_from k bytes) = inr l ->
  (forall i, i ∈ l <-> k * 8 <= i /\ Z.testbit (nth (Z.to_nat (i / 8 - k)) bytes 0) (i mod 8) = true)
  /\ StronglySorted Z.lt l /\ Forall (fun i => i < n) l.
Proof.
  induction bytes as [|b bytes IH]; intros k l Hk Hl.
  - injection Hl as <-. split_and!; [|constructor|constructor]. intros i. split; [set_solver|].
    intros [_ Hb]. destruct (Z.to_nat _); simpl in Hb; by rewrite Z.bits_0 in Hb.
  - apply bitmap_indices_cons in Hl as (here & later & -> & Hr & Hin & Hs & Hn).
    destruct (IH (k + 1) later ltac:(lia) Hr) as (Hin' & Hs' & Hn').
    split_and!; [|apply StronglySorted_app; split_and!; try done|by apply Forall_app].
    + intros i. rewrite elem_of_app, Hin, Hin'. split.
      * intros [[Hi Hb]|[Hi Hb]]; (split; [lia|]); rewrite nth_byte by lia;
          destruct (Z.ltb_spec i ((k + 1) * 8)); by try lia.
      * intros [Hi Hb]. rewrite nth_byte in Hb by lia.
        destruct (Z.ltb_spec i ((k + 1) * 8)); [left|right]; split; try done; lia.
    + intros x y [Hx _]%Hin [Hy _]%Hin'. lia.
Qed.

Section Accepted.
Context {H : Keccak} {W : Commonware} {D : ConsensusDomain}.

(** What acceptance establishes of the certificate inside the proof. *)
Record certified (md : CertifiedParentAccountingMetadata) (sn : CommitteeSnapshot)
    (flags : list bool) : Prop := {
  certified_bitmap : signer_bitmap md = flag_byte <$> flags;
  certified_length : length flags = length (committee sn);
  certified_quorum : simplex_n3f1_quorum (Z.of_nat (length flags)) <= signer_count flags;
  certified_votes : exists vote,
    aggregate_verify (signer_keys flags (entry_pubkey <$> committee sn))
      (vote_namespace (proof_kind md) (ordered_set (entry_pubkey <$> committee sn)))
      (proposal_encode (mkProposal (finalized_epoch md) (finalized_view md) (parent_view md)
                          (finalized_block_hash md))) vote = true }.

Lemma decode_participants_ok l : forall keys,
  decode_participants l = inr keys -> keys = entry_pubkey <$> l.
Proof.
  induction l as [|e l IH]; intros keys Hd; simpl in Hd; [by injection Hd as <-|].
  estep Hd. estep Hd. injection Hd as <-. rewrite fmap_cons. f_equal. by apply IH.
Qed.

Lemma low_level_ok keys pk ns msg seed cert v :
  verify_v2_certificate_low_level keys pk ns msg seed cert = inr v ->
  length (signers cert) = length keys
  /\ simplex_n3f1_quorum (Z.of_nat (length keys)) <= signer_count (signers cert)
  /\ aggregate_verify (signer_keys (signers cert) keys) ns msg (bls_aggregated_vote cert) = true
  /\ vp_signer_bitmap v = flag_byte <$> signers cert.
Proof.
  unfold verify_v2_certificate_low_level. intros Hv. do 5 estep Hv. injection Hv as <-.
  bprop. split_and!; try done; lia.
Qed.

Lemma verify_v2_proof_ok md sn proof parent v :
  verify_v2_proof md sn proof parent = inr v ->
  committee sn <> [] /\ finalized_block_hash md = parent
  /\ exists flags, certified md sn flags.
Proof.
  unfold verify_v2_proof. intros Hv. do 10 estep Hv.
  apply ebind_inr in Hv as (keys & Hkeys & Hv). apply decode_participants_ok in Hkeys as ->.
  apply ebind_inr in Hv as (? & _ & Hv).
  destruct (read_certified _ _ _) as [[[prop cert] unread]|]; [|done].
  do 2 estep Hv. apply ebind_inr in Hv as (inner & Hinner & Hv). do 2 estep Hv.
  apply low_level_ok in Hinner as (Hlen & Hq & Hagg & Hbits). rewrite length_fmap in Hlen, Hq.
  bprop. split_and!; [done|done|]. exists (signers cert).
  split; [congruence|done|by rewrite Hlen|].
  exists (bls_aggregated_vote cert). destruct prop; simpl in *; subst. done.
Qed.

(** C9. Quorum intersection. Two proofs accepted against one committee snapshot
    each carry a certificate of that committee whose signers voted for the block
    the metadata names, under the vote namespace of its kind, and the two signer
    sets share more than [(n - 1) / 3] members: certificates of two different
    blocks at one view need more double votes than the protocol tolerates. *)
Theorem accepted_proofs_intersect md1 md2 sn proof1 proof2 parent1 parent2 v1 v2 :
  verify_v2_proof md1 sn proof1 parent1 = inr v1 ->
  verify_v2_proof md2 sn proof2 parent2 = inr v2 ->
  exists flags1 flags2, certified md1 sn flags1 /\ certified md2 sn flags2
  /\ finalized_block_hash md1 = parent1 /\ finalized_block_hash md2 = parent2
  /\ (Z.of_nat (length (committee sn)) - 1) / 3 < signer_count (both flags1 flags2).
Proof.
  intros (Hne & Hp1 & f1 & Hc1)%verify_v2_proof_ok (_ & Hp2 & f2 & Hc2)%verify_v2_proof_ok.
  exists f1, f2. split_and!; try done.
  destruct Hc1 as [_ Hl1 Hq1 _], Hc2 as [_ Hl2 Hq2 _]. rewrite Hl1 in Hq1. rewrite Hl2 in Hq2.
  eapply quorums_overlap; [|exact Hq1|exact Hq2|].
  - destruct (committee sn); simpl; [done|lia].
  - rewrite <- Hl1. apply both_count. congruence.
Qed.

(** An accepted late-finalize credit credits exactly the committee members
    whose bit is set in its bitmap, each once and in committee order, at least
    one, none outside the committee; their keys verified the finalize vote for
    the block the credit names. *)
Theorem late_finalize_exact sn credit l :
  verify_late_finalize_proof sn credit = inr l ->
  (forall i, i ∈ l <-> bit_set (credit_signer_bitmap credit) i)
  /\ StronglySorted Z.lt l /\ l <> []
  /\ Forall (fun i => 0 <= i < Z.of_nat (length (committee sn))) l
  /\ credit_committee_set_hash credit = committee_set_hash_v2 (credit_epoch credit) sn
  /\ exists agg_sig,
       aggregate_verify ((fun i => nth (Z.to_nat i) (entry_pubkey <$> committee sn) 0) <$> l)
         (finalize_namespace consensus_chain_id (ordered_set (entry_pubkey <$> committee sn)))
         (proposal_encode (mkProposal (credit_epoch credit) (credit_view credit)
                             (credit_parent_view credit) (fb_hash credit))) agg_sig = true.
Proof.
  unfold verify_late_finalize_proof. intros Hv. estep Hv.
  apply ebind_inr in Hv as (keys & ->%decode_participants_ok & Hv). estep Hv.
  apply ebind_inr in Hv as (indices & Hi & Hv). estep Hv.
  destruct (decode_all _ _) as [sig|]; [|done]. estep Hv. injection Hv as <-.
  apply bitmap_indices_ok in Hi as (Hin & Hs & Hn); [|done]. rewrite length_fmap in Hn. bprop.
  split_and!; try done; [| |by exists sig].
  - intros i. rewrite Hin. unfold bit_set. by rewrite Z.sub_0_r.
  - apply Forall_forall. intros i Hi. rewrite Forall_forall in Hn.
    split; [by apply Hin in Hi as [? _]|by apply Hn].
Qed.
End Accepted.

(** * The process-wide chain id *)

(** Once installed, the chain id never changes: a conflicting request is refused,
    and a read before any installation binds the default. *)
Lemma consensus_domain_sticky cell chain requested :
  cell = Some chain ->
  (install_consensus_domain cell requested).1 = Some chain
  /\ ((install_consensus_domain cell requested).2 = inr tt <-> requested = chain)
  /\ consensus_domain cell = (Some chain, chain).
Proof.
  intros ->. unfold install_consensus_domain, matching_consensus_chain_id. simpl.
  destruct (Z.eqb_spec chain requested); split_and!; naive_solver.
Qed.

(** * A concrete instance *)

(** A toy scheme: flags and signatures are single bytes, and a signature is the
    sum of what it signs. *)
Definition toy_sum (l : list Z) : Z := foldr Z.add 0 l mod 256.
Definition toy_keccak : Keccak := fun l => be_value (1 :: l).
Definition toy_byte : decoder (list Z) := fun input =>
  match input with [] => None | b :: rest => Some ([b], rest) end.

Definition toy_commonware : Commonware := {|
  ordered_set := fun keys => keys;
  read_signers := fun n input =>
    if (length input <? n)%nat then None
    else Some ((fun b => b =? 1) <$> take n input, drop n input);
  write_signers := fun flags => flag_byte <$> flags;
  read_aggregate_signature := toy_byte;
  read_min_sig_signature := toy_byte;
  read_certified := fun _ read input =>
    match input with
    | epoch :: view :: parent :: payload :: rest =>
        match read rest with
        | None => None
        | Some (cert, unread) => Some (mkProposal epoch view parent payload, cert, unread)
        end
    | _ => None
    end;
  proposal_encode := fun p => [prop_epoch p; prop_view p; prop_parent p; prop_payload p];
  round_encode := fun epoch view => [epoch; view];
  aggregate_verify := fun keys _ message sig => bool_decide (sig = [toy_sum (keys ++ message)]);
  min_sig_public_size := 1;
  min_sig_public_decodes := fun _ => true;
  min_sig_verify := fun key _ message sig => bool_decide (sig = [toy_sum (key ++ message)]);
  identity_key_decodes := fun key => (length key =? 48)%nat;
  identity_signature_decodes := fun _ => true;
  identity_verify := fun key _ message sig => bool_decide (sig = [toy_sum (key ++ message)]);
  sharing_partial_public := fun _ _ _ => None |}.

Definition toy_domain : ConsensusDomain := 676.

#[local] Existing Instance toy_keccak.
#[local] Existing Instance toy_commonware.
#[local] Existing Instance toy_domain.

(** Four members with keys 11 to 14, so a quorum of three. *)
Definition toy_snapshot : CommitteeSnapshot :=
  mkSnapshot [mkEntry 1 11; mkEntry 2 12; mkEntry 3 13; mkEntry 4 14] 1 [9] 0.

(** Block [payload] of epoch 5 and view 7, signed by [flags]. *)
Definition toy_metadata (payload : B256) (flags : list bool) : CertifiedParentAccountingMetadata :=
  let keys := signer_keys flags [11; 12; 13; 14] in
  mkMetadata 100 payload 5 7 6 [1; 2; 3; 4] (flag_byte <$> flags)
    ([5; 7; 6; payload] ++ (flag_byte <$> flags) ++ [toy_sum (keys ++ [5; 7; 6; payload])]
       ++ be_bytes 8 1 ++ [toy_sum [9; 5; 7]])
    (committee_set_hash_v2 5 toy_snapshot) 1 (keccak256 [9]) Finalization [].

Definition toy_flags1 : list bool := [true; true; true; false].
Definition toy_flags2 : list bool := [false; true; true; true].

Definition toy_verdict (payload : B256) (flags : list bool) : verified VerifiedProof :=
  verify_v2_proof (toy_metadata payload flags) toy_snapshot
    (md_proof (toy_metadata payload flags)) payload.

Definition toy_accepted (flags : list bool) : VerifiedProof :=
  mkVerified (flag_byte <$> flags) (keccak256 (be_bytes 8 1 ++ [toy_sum [9; 5; 7]])) 1.

Lemma toy_verdicts :
  toy_verdict 40 toy_flags1 = inr (toy_accepted toy_flags1)
  /\ toy_verdict 41 toy_flags2 = inr (toy_accepted toy_flags2)
  /\ toy_verdict 41 [true; true; false; false] = inl (BelowQuorum 2 3).
Proof. by vm_compute. Qed.

Lemma accepted_proofs_intersect_witness : exists flags1 flags2,
  certified (toy_metadata 40 toy_flags1) toy_snapshot flags1
  /\ certified (toy_metadata 41 toy_flags2) toy_snapshot flags2
  /\ 1 < signer_count (both flags1 flags2).
Proof.
  destruct toy_verdicts as (H1 & H2 & _).
  destruct (accepted_proofs_intersect _ _ _ _ _ _ _ _ _ H1 H2) as (f1 & f2 & Hc1 & Hc2 & _ & _ & Hs).
  exists f1, f2. exact (conj Hc1 (conj Hc2 Hs)).
Defined.

(** A credit for members 0 and 2: the bits of weight 1 and 4. *)
Definition toy_credit : PerBlockCredit :=
  mkCredit 100 40 5 7 6 (committee_set_hash_v2 5 toy_snapshot) [5] [toy_sum [11; 13; 5; 7; 6; 40]].

Lemma toy_credit_ok : verify_late_finalize_proof toy_snapshot toy_credit = inr [0; 2].
Proof. by vm_compute. Qed.

Lemma late_finalize_exact_witness :
  bit_set [5] 2 /\ ~ bit_set [5] 1 /\ StronglySorted Z.lt [0; 2].
Proof.
  destruct (late_finalize_exact _ _ _ toy_credit_ok) as (Hin & Hs & _).
  split; [|split; [|exact Hs]]; [apply Hin; set_solver|]. intros H1. apply Hin in H1. set_solver.
Defined.
