(* ===== verification/Staking.v ===== *)
(** The Staking precompile: self-staking, the unbonding queue with its
    per-validator linked lists, claims, slashing, the OCOMP recovery policy and
    the per-block processing, together with the calls it makes into the
    validator registry and the native balances it moves.

    Sources: [crates/system/staking/src/contract.rs] (state), [logic.rs]
    (operations) and [precompile.rs] (dispatch); the native balances are those
    of [Native]. *)

From S2P Require Import Prelude Bytes P2pAddress Native Lifecycle ValidatorSet.

(** * State *)

(** The unbonding queue: slots 5 to 10 of [contract.rs]. Heads and next pointers
    are stored as the index plus one, zero ends a list. *)
Record UnbondingQueue : Type := mkQueue {
  unbonding_count : Z;
  unbonding_validator : gmap Z Address;
  unbonding_amount : gmap Z Z;
  unbonding_complete_time : gmap Z Z;
  per_val_unbonding_head : gmap Address Z;
  unbonding_next : gmap Z Z }.

(** The Staking contract with what its calls reach: the validator registry and
    the native balances. *)
Record Staking : Type := mkStaking {
  config_min_stake : Z;
  config_unbonding_period : Z;
  config_max_stake_percent : Z;
  config_slashed_withdrawal_delay : Z;
  stake_amount : gmap Address Z;
  total_staked : Z;
  queue : UnbondingQueue;
  validators : ValidatorSet;
  native : gmap Address Z }.

#[global] Instance UnbondingQueue_eta : Eta UnbondingQueue := fun q =>
  mkQueue (unbonding_count q) (unbonding_validator q) (unbonding_amount q)
    (unbonding_complete_time q) (per_val_unbonding_head q) (unbonding_next q).
#[global] Instance Staking_eta : Eta Staking := fun s =>
  mkStaking (config_min_stake s) (config_unbonding_period s) (config_max_stake_percent s)
    (config_slashed_withdrawal_delay s) (stake_amount s) (total_staked s) (queue s)
    (validators s) (native s).

Abbreviation SM := (M Staking).
Abbreviation QM := (M UnbondingQueue).

Definition on_queue {A} (m : QM A) : SM A := zoom queue (fun q s => s <| queue := q |>) m.
Definition on_validators {A} (m : VM A) : SM A :=
  zoom validators (fun v s => s <| validators := v |>) m.

Definition STAKING_ADDRESS : Address := 0xEE02.
Definition OCOMP_MISS_SLASH_PERCENT : Z := 10.
Definition MAX_COMPACTION_PER_BLOCK : Z := 64.

(** The block a call runs in: the registry's view and the timestamp. *)
Record StakingEnv : Type := mkStakingEnv { vs_env : Env; timestamp : Z }.

#[global] Instance Staking_native : Native Staking := {|
  native_of := native; set_native := fun n s => s <| native := n |> |}.
#[global] Instance Staking_native_laws : NativeLaws Staking.
Proof. split; [done|by intros []]. Qed.

(** * The unbonding queue (logic.rs) *)

Definition checked_complete_time (timestamp period : Z) : result Z :=
  ok_or (checked_add u64_max timestamp period) (Revert "unbonding completion timestamp overflow").

Definition slashed_withdrawal_delay (s : Staking) : result Z :=
  if 0 <? config_slashed_withdrawal_delay s then Ok (config_slashed_withdrawal_delay s)
  else ok_or (checked_mul u64_max (config_unbonding_period s) 2)
         (Revert "slashed withdrawal delay overflow").

Definition enqueue_unbonding (validator : Address) (amount complete_time : Z) : QM unit :=
  if amount =? 0 then mret tt
  else
    let! idx := gets unbonding_count in
    wr unbonding_validator idx validator ;;;
    wr unbonding_amount idx amount ;;;
    wr unbonding_complete_time idx complete_time ;;;
    modify (fun q => q <| unbonding_count := wrapping_add u32_max idx 1 |>) ;;;
    let! prev_head_stored := gets (fun q => (per_val_unbonding_head q).[validator]) in
    wr unbonding_next idx prev_head_stored ;;;
    wr per_val_unbonding_head validator (wrapping_add u32_max idx 1).

(** Every walk visits a list of distinct queue indices: one iteration for each
    entry and one to see the end. *)
Definition walk_fuel (q : UnbondingQueue) : nat := S (Z.to_nat (unbonding_count q)).

Fixpoint pending_from (fuel : nat) (q : UnbondingQueue) (current_stored : Z) : result bool :=
  match fuel with
  | O => Panic
  | S fuel' =>
      if current_stored =? 0 then Ok false
      else
        let idx := current_stored - 1 in
        if negb ((unbonding_amount q).[idx] =? 0) then Ok true
        else pending_from fuel' q (unbonding_next q).[idx]
  end.

Definition has_pending_unbonding (q : UnbondingQueue) (validator : Address) : result bool :=
  pending_from (walk_fuel q) q (per_val_unbonding_head q).[validator].

(** The loop of [claim_unbonded]: the entry to visit, the head and the tail of
    the rebuilt list, and the amount claimed so far. *)
Definition claim_step (now : Z) (v : Z * Z * Z * Z) : QM ((Z * Z * Z * Z) + (Z * Z * Z)) :=
  let '(current_stored, new_head_stored, pending_tail_stored, total_claimable) := v in
  if current_stored =? 0 then mret (inr (new_head_stored, pending_tail_stored, total_claimable))
  else
    let idx := current_stored - 1 in
    let! next_stored := gets (fun q => (unbonding_next q).[idx]) in
    let! complete_time := gets (fun q => (unbonding_complete_time q).[idx]) in
    if complete_time <=? now then
      let! amount := gets (fun q => (unbonding_amount q).[idx]) in
      wr unbonding_validator idx 0 ;;;
      wr unbonding_amount idx 0 ;;;
      wr unbonding_complete_time idx 0 ;;;
      wr unbonding_next idx 0 ;;;
      mret (inl (next_stored, new_head_stored, pending_tail_stored,
                 wrapping_add u256_max total_claimable amount))
    else if new_head_stored =? 0 then
      mret (inl (next_stored, current_stored, current_stored, total_claimable))
    else
      wr unbonding_next (pending_tail_stored - 1) current_stored ;;;
      mret (inl (next_stored, new_head_stored, current_stored, total_claimable)).

(** The queue part of [claim_unbonded]: claims the matured entries of the caller
    and rebuilds the list of the others. *)
Definition claim_entries (now : Z) (caller : Address) : QM Z :=
  let! fuel := gets walk_fuel in
  let! head := gets (fun q => (per_val_unbonding_head q).[caller]) in
  let! final := mwhile fuel (claim_step now) (head, 0, 0, 0) in
  let '(new_head_stored, pending_tail_stored, total_claimable) := final in
  (if pending_tail_stored =? 0 then mret tt
   else wr unbonding_next (pending_tail_stored - 1) 0) ;;;
  wr per_val_unbonding_head caller new_head_stored ;;;
  mret total_claimable.

(** The loop of [slash_stake] over the unbonding entries. *)
Definition slash_step (percent slash_complete_time : Z) (v : Z * Z) : QM ((Z * Z) + Z) :=
  let '(current_stored, total_slashed) := v in
  if current_stored =? 0 then mret (inr total_slashed)
  else
    let idx := current_stored - 1 in
    let! amount := gets (fun q => (unbonding_amount q).[idx]) in
    let! total_slashed' :=
      (if amount =? 0 then mret total_slashed
       else
         let unbonding_slash := wrapping_mul u256_max amount percent / 100 in
         let! total :=
           (if unbonding_slash =? 0 then mret total_slashed
            else
              wr unbonding_amount idx (wrapping_sub u256_max amount unbonding_slash) ;;;
              mret (wrapping_add u256_max total_slashed unbonding_slash)) in
         let! complete_time := gets (fun q => (unbonding_complete_time q).[idx]) in
         (if complete_time <? slash_complete_time
          then wr unbonding_complete_time idx slash_complete_time else mret tt) ;;;
         mret total) in
    let! next_stored := gets (fun q => (unbonding_next q).[idx]) in
    mret (inl (next_stored, total_slashed')).

Definition slash_entries (percent slash_complete_time : Z) (validator : Address)
    (total_slashed : Z) : QM Z :=
  let! fuel := gets walk_fuel in
  let! head := gets (fun q => (per_val_unbonding_head q).[validator]) in
  mwhile fuel (slash_step percent slash_complete_time) (head, total_slashed).

(** The tail trim of [process_unbonding]. *)
Fixpoint trim_tail (ops : nat) (q : UnbondingQueue) (count : Z) : Z :=
  match ops with
  | O => count
  | S ops' =>
      if count =? 0 then count
      else if negb ((unbonding_validator q).[count - 1] =? 0) then count
      else trim_tail ops' q (count - 1)
  end.

(** * Operations (logic.rs) *)

Section Operations.
Context {X : Externals}.

Definition add_stake (validator : Address) (new_stake new_total : Z) : SM unit :=
  wr stake_amount validator new_stake ;;;
  modify (fun s => s <| total_staked := new_total |>) ;;;
  let! min_stake := gets config_min_stake in
  on_validators (record_stake_increase validator new_stake min_stake).

Definition staking_stake (caller validator : Address) (amount : Z) : SM unit :=
  require (negb (amount =? 0)) (Revert "amount must be non-zero") ;;;
  require (caller =? validator)
    (Revert "third-party staking not supported: caller must be validator") ;;;
  let! current := gets (fun s => (stake_amount s).[validator]) in
  let new_stake := wrapping_add u256_max current amount in
  let! max_pct := gets config_max_stake_percent in
  let! total := gets total_staked in
  let new_total := wrapping_add u256_max total amount in
  if (0 <? max_pct) && (max_pct <? 100) then
    if total =? 0 then add_stake validator new_stake amount
    else
      require (negb (wrapping_mul u256_max max_pct new_total
                     <? wrapping_mul u256_max new_stake 100))
        (Revert "stake would exceed max_stake_percent") ;;;
      add_stake validator new_stake new_total
  else add_stake validator new_stake new_total.

Definition finalize_inactive_if_complete (validator : Address) : SM unit :=
  let! l := reads (fun s => validator_lifecycle (validators s) validator) in
  let! stake := gets (fun s => (stake_amount s).[validator]) in
  match l with
  | Unbonding _ =>
      if stake =? 0 then
        let! pending := reads (fun s => has_pending_unbonding (queue s) validator) in
        if pending : bool then mret tt else on_validators (vs_complete_unbonding validator)
      else mret tt
  | _ => mret tt
  end.

Definition unstake (env : StakingEnv) (caller : Address) (amount : Z) : SM unit :=
  require (negb (amount =? 0)) (Revert "amount must be non-zero") ;;;
  let! current := gets (fun s => (stake_amount s).[caller]) in
  require (negb (current <? amount)) (Revert "insufficient staked amount") ;;;
  let! unbonding_period := gets config_unbonding_period in
  let! complete_time := lift (checked_complete_time (timestamp env) unbonding_period) in
  let! min_stake := gets config_min_stake in
  let new_stake := wrapping_sub u256_max current amount in
  wr stake_amount caller new_stake ;;;
  let! total := gets total_staked in
  modify (fun s => s <| total_staked := wrapping_sub u256_max total amount |>) ;;;
  on_queue (enqueue_unbonding caller amount complete_time) ;;;
  on_validators (record_unstake (vs_env env) caller new_stake min_stake complete_time).

Definition unjail_validator (env : StakingEnv) (caller : Address) : SM unit :=
  let! stake := gets (fun s => (stake_amount s).[caller]) in
  let! min_stake := gets config_min_stake in
  require (negb (stake <? min_stake)) (Revert "unjailValidator requires stake >= min_stake") ;;;
  on_validators (unjail_after_stake_check (vs_env env) caller).

Definition claim_unbonded (env : StakingEnv) (caller : Address) : SM unit :=
  let! total_claimable := on_queue (claim_entries (timestamp env) caller) in
  (if total_claimable =? 0 then mret tt
   else transfer_balance STAKING_ADDRESS caller total_claimable) ;;;
  finalize_inactive_if_complete caller.

Definition slash_stake (env : StakingEnv) (validator : Address) (percent : Z) : SM Z :=
  require (negb (100 <? percent)) (Revert "slash percent must be <= 100") ;;;
  let! current := gets (fun s => (stake_amount s).[validator]) in
  let! bonded_slashed :=
    (if current =? 0 then mret 0
     else
       let slash := wrapping_mul u256_max current percent / 100 in
       wr stake_amount validator (wrapping_sub u256_max current slash) ;;;
       let! total := gets total_staked in
       modify (fun s => s <| total_staked := wrapping_sub u256_max total slash |>) ;;;
       mret (wrapping_add u256_max 0 slash)) in
  let! delay := reads slashed_withdrawal_delay in
  let! slash_complete_time := lift (checked_complete_time (timestamp env) delay) in
  let! total_slashed :=
    on_queue (slash_entries percent slash_complete_time validator bonded_slashed) in
  (if total_slashed =? 0 then mret tt else decrease_balance STAKING_ADDRESS total_slashed) ;;;
  let! remaining_stake := gets (fun s => (stake_amount s).[validator]) in
  let! min_stake := gets config_min_stake in
  on_validators (record_stake_slash (vs_env env) validator remaining_stake min_stake None) ;;;
  mret total_slashed.

(** * The OCOMP recovery policy (logic.rs) *)

Record OcompMissPenalty : Type := mkPenalty {
  first_in_window : bool;
  miss_count : Z;
  recovery_deadline : Z;
  slashed_bonded : Z }.

Definition miss_parts (miss : OcompMissRecord) : bool * Z * Z :=
  match miss with
  | Opened count deadline => (true, count, deadline)
  | Repeated count deadline => (false, count, deadline)
  end.

Definition staking_record_ocomp_miss (env : StakingEnv) (validator : Address) :
    SM OcompMissPenalty :=
  with_checkpoint (
    let! miss := on_validators (record_ocomp_miss (vs_env env) validator) in
    let '(first, count, deadline) := miss_parts miss in
    let! slashed :=
      (if first : bool then
         let! bonded := gets (fun s => (stake_amount s).[validator]) in
         let slash := bonded / OCOMP_MISS_SLASH_PERCENT in
         let remaining := wrapping_sub u256_max bonded slash in
         let! total := gets total_staked in
         require (negb (total <? slash)) (Fatal "OCOMP bonded slash exceeds total staked") ;;;
         wr stake_amount validator remaining ;;;
         modify (fun s => s <| total_staked := wrapping_sub u256_max total slash |>) ;;;
         (if slash =? 0 then mret tt else decrease_balance STAKING_ADDRESS slash) ;;;
         on_validators (record_ocomp_bonded_slash validator remaining) ;;;
         mret slash
       else mret 0) in
    mret (mkPenalty first count deadline slashed)).

Inductive OcompRecoveryResolution : Type :=
  | NotOpen
  | NotDue (deadline : Z)
  | ResRestored (deadline : Z)
  | ResJailed (deadline : Z)
  | ClosedNonActive (deadline : Z).

(** An early [return Ok] leaves the checkpoint guard uncommitted; nothing was
    written by then. *)
Definition resolve_due_ocomp_recovery_window (env : StakingEnv) (validator : Address) :
    SM OcompRecoveryResolution :=
  with_checkpoint (
    let at_height := block_number (vs_env env) in
    let! minimum := gets config_min_stake in
    let! window := gets (fun s => ocomp_recovery_window (validators s) validator) in
    match window with
    | None => mret NotOpen
    | Some (_, deadline) =>
        if at_height <? deadline then mret (NotDue deadline)
        else
          let! bonded := gets (fun s => (stake_amount s).[validator]) in
          let! l := reads (fun s => validator_lifecycle (validators s) validator) in
          let resolve outcome :=
            on_validators (resolve_ocomp_recovery_window validator deadline bonded outcome) in
          if negb (is_active_status l) then
            resolve NonActive ;;; mret (ClosedNonActive deadline)
          else if minimum <=? bonded then
            resolve Restored ;;; mret (ResRestored deadline)
          else
            let! jailed := on_validators (punish_validator (vs_env env) validator true) in
            require jailed (Fatal "active OCOMP recovery validator was not jailed") ;;;
            resolve JailedOutcome ;;; mret (ResJailed deadline)
    end).

Record OcompRecoverySweep : Type := mkSweep {
  open_windows : Z;
  restored : Z;
  jailed_windows : Z;
  closed_non_active : Z }.

Definition bump (n : Z) (msg : string) : result Z := ok_or (checked_add u32_max n 1) (Fatal msg).

Definition count_resolution (sweep : OcompRecoverySweep) (r : OcompRecoveryResolution) :
    result OcompRecoverySweep :=
  let '(mkSweep o r1 j c) := sweep in
  match r with
  | NotOpen | NotDue _ => Ok sweep
  | ResRestored _ => let? r' := bump r1 "OCOMP restored count overflow" in Ok (mkSweep o r' j c)
  | ResJailed _ => let? j' := bump j "OCOMP jailed count overflow" in Ok (mkSweep o r1 j' c)
  | ClosedNonActive _ =>
      let? c' := bump c "OCOMP non-active close count overflow" in Ok (mkSweep o r1 j c')
  end.

Fixpoint sweep_windows (env : StakingEnv) (addresses : list Address)
    (sweep : OcompRecoverySweep) : SM OcompRecoverySweep :=
  match addresses with
  | [] => mret sweep
  | validator :: rest =>
      let! window := gets (fun s => ocomp_recovery_window (validators s) validator) in
      match window with
      | None => sweep_windows env rest sweep
      | Some _ =>
          let '(mkSweep o r1 j c) := sweep in
          let! o' := lift (bump o "OCOMP recovery open-window count overflow") in
          let! resolution := resolve_due_ocomp_recovery_window env validator in
          let! sweep' := lift (count_resolution (mkSweep o' r1 j c) resolution) in
          sweep_windows env rest sweep'
      end
  end.

Definition close_due_ocomp_recovery_windows (env : StakingEnv) : SM OcompRecoverySweep :=
  with_checkpoint (
    let! count := gets (fun s => validator_count (validators s)) in
    require (negb (CONSENSUS_VALIDATOR_BOUND <? count))
      (Fatal "validator registry exceeds consensus bound") ;;;
    let! addresses := reads (fun s => registered_validator_addresses (validators s)) in
    sweep_windows env addresses (mkSweep 0 0 0 0)).

(** * Per-block processing (logic.rs) *)

Definition drain_validator (env : StakingEnv) (validator : Address) : SM unit :=
  let! state := reads (fun s => validator_state (validators s) validator) in
  match lifecycle state with
  | Unbonding _ =>
      let! stake := gets (fun s => (stake_amount s).[validator]) in
      if stake =? 0 then finalize_inactive_if_complete validator
      else
        let! total := gets total_staked in
        require (negb (total <? stake)) (Revert "stake accounting underflow for validator") ;;;
        wr stake_amount validator 0 ;;;
        modify (fun s => s <| total_staked := wrapping_sub u256_max total stake |>) ;;;
        let! hist := lift (ok_or (lifecycle_history (lifecycle state))
                             (Fatal "registered validator is missing history")) in
        let! period :=
          (if 0 <? slash_count hist then reads slashed_withdrawal_delay
           else gets config_unbonding_period) in
        let! complete_time := lift (checked_complete_time (timestamp env) period) in
        on_queue (enqueue_unbonding validator stake complete_time) ;;;
        on_validators (record_unstake (vs_env env) validator 0 0 complete_time)
  | _ => mret tt
  end.

Definition process_unbonding (env : StakingEnv) : SM unit :=
  let! addresses := reads (fun s => registered_validator_addresses (validators s)) in
  mfor addresses (drain_validator env) ;;;
  modify (fun s => s <| queue := (queue s) <| unbonding_count :=
    trim_tail (Z.to_nat MAX_COMPACTION_PER_BLOCK) (queue s) (unbonding_count (queue s)) |> |>).

(** * The call surface

    The mutating arms of [precompile::dispatch], with the value the call frame
    credits to the contract before the precompile runs, and the facade that the
    slashing, OCOMP and pre-execution hooks use. *)

Inductive StakingUserCall : Type :=
  | stakeCall (validatorAddress : Address) (amount : Z)
  | unstakeCall (amount : Z)
  | claimUnbondedCall
  | unjailValidatorCall.

Definition staking_dispatch (env : StakingEnv) (caller : Address) (value : Z)
    (c : StakingUserCall) : SM unit :=
  with_checkpoint (
    transfer_balance caller STAKING_ADDRESS value ;;;
    match c with
    | stakeCall validator amount =>
        require (value =? amount) (Revert "msg.value must equal stake amount") ;;;
        staking_stake caller validator amount
    | unstakeCall amount =>
        require (value =? 0) (Revert "non-payable function called with value") ;;;
        unstake env caller amount
    | claimUnbondedCall =>
        require (value =? 0) (Revert "non-payable function called with value") ;;;
        claim_unbonded env caller
    | unjailValidatorCall =>
        require (value =? 0) (Revert "non-payable function called with value") ;;;
        unjail_validator env caller
    end).

Inductive StakingSystemCall : Type :=
  | SlashStake (validator : Address) (percent : Z)
  | RecordMiss (validator : Address)
  | ResolveWindow (validator : Address)
  | CloseWindows
  | ProcessUnbonding.

Definition staking_system (env : StakingEnv) (c : StakingSystemCall) : SM unit :=
  match c with
  | SlashStake validator percent => slash_stake env validator percent ;;; mret tt
  | RecordMiss validator => staking_record_ocomp_miss env validator ;;; mret tt
  | ResolveWindow validator => resolve_due_ocomp_recovery_window env validator ;;; mret tt
  | CloseWindows => close_due_ocomp_recovery_windows env ;;; mret tt
  | ProcessUnbonding => process_unbonding env
  end.
End Operations.
