(* ===== verification/StakingQueue.v ===== *)
(** The unbonding queue of Staking as per-validator lists of entries: the
    representation invariant of the linked lists, and what enqueueing, claiming,
    slashing and trimming do to it. Every list walk ends within its fuel. *)

From stdpp Require Import functions.
From S2P Require Import Prelude Bytes P2pAddress Lifecycle ValidatorSet Staking.

(** * Linked lists of queue indices *)

(** The next pointers lead from the stored pointer [from] through the entries of
    the list to the stored pointer [to]. *)
Fixpoint path_to (next : gmap Z Z) (from : Z) (l : list Z) (to : Z) : Prop :=
  match l with
  | [] => from = to
  | i :: l' => from = i + 1 /\ path_to next next.[i] l' to
  end.

Abbreviation linked next from l := (path_to next from l 0).

(** The lists of the queue: each holds the live entries of its validator, every
    entry with a validator is on its list, and a freed entry is empty. *)
Record queue_rep (q : UnbondingQueue) (Q : Address -> list Z) : Prop := {
  qr_count : 0 <= unbonding_count q <= u32_max;
  qr_linked : forall v, linked (unbonding_next q) (per_val_unbonding_head q).[v] (Q v);
  qr_nodup : forall v, NoDup (Q v);
  qr_entry : forall v i, i ∈ Q v ->
    0 <= i < unbonding_count q /\ (unbonding_validator q).[i] = v /\ v <> 0;
  qr_owned : forall i, (unbonding_validator q).[i] <> 0 -> i ∈ Q (unbonding_validator q).[i];
  qr_free : forall i, (unbonding_validator q).[i] = 0 -> (unbonding_amount q).[i] = 0;
  qr_amount : forall i, 0 <= (unbonding_amount q).[i] }.

(** The value the queue holds, and the value of some entries. *)
Definition queued (q : UnbondingQueue) : Z := map_sum (unbonding_amount q).
Definition amounts (q : UnbondingQueue) (l : list Z) : Z :=
  foldr (fun i acc => (unbonding_amount q).[i] + acc) 0 l.

(** Entries a claim at time [now] pays out, and those it keeps. *)
Definition mature (q : UnbondingQueue) (now : Z) (l : list Z) : list Z :=
  filter (fun i => (unbonding_complete_time q).[i] <= now) l.
Definition immature (q : UnbondingQueue) (now : Z) (l : list Z) : list Z :=
  filter (fun i => ~ (unbonding_complete_time q).[i] <= now) l.

(** What a slash takes from an amount. *)
Definition slash_of (percent amount : Z) : Z := wrapping_mul u256_max amount percent / 100.

(** * Lemmas *)

Lemma path_app next from l1 l2 to :
  path_to next from (l1 ++ l2) to <->
  exists mid, path_to next from l1 mid /\ path_to next mid l2 to.
Proof.
  revert from. induction l1 as [|i l1 IH]; intros from; simpl; [naive_solver|].
  rewrite IH. naive_solver.
Qed.

Lemma path_ext next next' from l to :
  (forall i, i ∈ l -> next'.[i] = next.[i]) -> path_to next from l to -> path_to next' from l to.
Proof.
  revert from. induction l as [|i l IH]; intros from Hext; simpl; [done|].
  intros [-> Hp]. rewrite Hext by left. split; [done|]. apply IH; [|done].
  intros j Hj. apply Hext. by right.
Qed.

Lemma path_write next from l to i v :
  i ∉ l -> path_to next from l to -> path_to next.[i <- v] from l to.
Proof. intros Hi. apply path_ext. intros j Hj. rewrite mread_mwrite_ne; [done|]. by intros ->. Qed.

Lemma amounts_ext q q' l :
  (forall i, i ∈ l -> (unbonding_amount q').[i] = (unbonding_amount q).[i]) ->
  amounts q' l = amounts q l.
Proof.
  induction l as [|i l IH]; intros Hext; simpl; [done|].
  rewrite Hext by left. rewrite IH; [done|]. intros j Hj. apply Hext. by right.
Qed.

Section Rep.
Context (q : UnbondingQueue) (Q : Address -> list Z) (Hq : queue_rep q Q).

Lemma queued_nonneg : 0 <= queued q.
Proof. apply map_sum_nonneg, (qr_amount _ _ Hq). Qed.

Lemma amounts_nonneg l : 0 <= amounts q l.
Proof. induction l as [|i l IH]; simpl; [done|]. pose proof (qr_amount _ _ Hq i). lia. Qed.

Lemma list_in_range v : Q v ⊆+ seqZ 0 (unbonding_count q).
Proof.
  apply NoDup_submseteq; [apply (qr_nodup _ _ Hq)|]. intros i Hi.
  apply elem_of_seqZ. pose proof (qr_entry _ _ Hq v i Hi). lia.
Qed.

(** One more iteration than entries: the fuel of every walk. *)
Lemma list_fuel v : (length (Q v) < walk_fuel q)%nat.
Proof.
  pose proof (submseteq_length _ _ (list_in_range v)) as Hl. rewrite length_seqZ in Hl.
  unfold walk_fuel. lia.
Qed.

Lemma entry_fresh v : unbonding_count q ∉ Q v.
Proof. intros Hi. pose proof (qr_entry _ _ Hq v _ Hi). lia. Qed.

Lemma entry_owner v w i : i ∈ Q v -> i ∈ Q w -> v = w.
Proof.
  intros Hv Hw. destruct (qr_entry _ _ Hq v i Hv) as (_ & <- & _).
  by destruct (qr_entry _ _ Hq w i Hw) as (_ & -> & _).
Qed.

Lemma unowned_free i : (forall v, i ∉ Q v) -> (unbonding_validator q).[i] = 0.
Proof.
  intros Hi. destruct (decide ((unbonding_validator q).[i] = 0)) as [|Hne]; [done|].
  by destruct (Hi (unbonding_validator q).[i] (qr_owned _ _ Hq i Hne)).
Qed.

Lemma zero_list : Q 0 = [].
Proof.
  destruct (Q 0) as [|i l] eqn:E; [done|].
  destruct (qr_entry _ _ Hq 0 i) as (_ & _ & []); [rewrite E; left|done].
Qed.

Lemma enqueue_rep v amount time q' :
  v <> 0 -> 0 < amount -> unbonding_count q < u32_max ->
  enqueue_unbonding v amount time q = (Ok tt, q') ->
  queue_rep q' (<[v := unbonding_count q :: Q v]> Q)
  /\ queued q' = queued q + amount /\ unbonding_count q' = unbonding_count q + 1.
Proof.
  intros Hv Ha Hc Hrun. unfold enqueue_unbonding in Hrun.
  rewrite (proj2 (Z.eqb_neq amount 0)) in Hrun by lia. minv. simpl.
  pose proof (qr_count _ _ Hq) as Hcount.
  unfold wrapping_add. rewrite Z.mod_small by (unfold u32_max in *; lia).
  set (c := unbonding_count q) in *.
  assert (Hfresh : (unbonding_validator q).[c] = 0) by (apply unowned_free; apply entry_fresh).
  assert (HQ : forall w, <[v := c :: Q v]> Q w = if decide (v = w) then c :: Q v else Q w).
  { intros w. case_decide as Hw; [subst; by rewrite fn_lookup_insert|by rewrite fn_lookup_insert_ne]. }
  split_and!; [|unfold queued; simpl; rewrite map_sum_mwrite, (qr_free _ _ Hq c Hfresh); lia|done].
  constructor; simpl.
  - lia.
  - intros w. rewrite HQ. destruct (decide (v = w)) as [<-|Hw].
    + rewrite mread_mwrite_eq. split; [done|]. rewrite mread_mwrite_eq.
      apply path_write; [apply entry_fresh|apply (qr_linked _ _ Hq)].
    + rewrite mread_mwrite_ne by done. apply path_write; [apply entry_fresh|apply (qr_linked _ _ Hq)].
  - intros w. rewrite HQ. case_decide; [|apply (qr_nodup _ _ Hq)].
    apply NoDup_cons. split; [apply entry_fresh|apply (qr_nodup _ _ Hq)].
  - intros w i. rewrite HQ, mread_mwrite. destruct (decide (v = w)) as [<-|Hw].
    + intros [->|Hi]%elem_of_cons; [rewrite decide_True by done; lia|].
      destruct (qr_entry _ _ Hq v i Hi) as (? & ? & ?). rewrite decide_False by lia. lia.
    + intros Hi. destruct (qr_entry _ _ Hq w i Hi) as (? & ? & ?). rewrite decide_False by lia. lia.
  - intros i. rewrite mread_mwrite. destruct (decide (c = i)) as [<-|Hi]; intros Hne.
    + rewrite fn_lookup_insert. left.
    + pose proof (qr_owned _ _ Hq i Hne) as Ho. rewrite HQ. case_decide as Hw; [|done].
      right. by rewrite Hw.
  - intros i. rewrite !mread_mwrite. case_decide; [lia|]. apply (qr_free _ _ Hq).
  - intros i. rewrite mread_mwrite. case_decide; [lia|]. apply (qr_amount _ _ Hq).
Qed.

Lemma trim_tail_ok ops : forall c,
  0 <= c <= unbonding_count q -> (forall i, c <= i -> (unbonding_validator q).[i] = 0) ->
  0 <= trim_tail ops q c <= c
  /\ forall i, trim_tail ops q c <= i -> (unbonding_validator q).[i] = 0.
Proof.
  induction ops as [|ops IH]; intros c Hc Hz; simpl; [split; [lia|done]|].
  destruct (Z.eqb_spec c 0); [split; [lia|done]|].
  destruct (Z.eqb_spec (unbonding_validator q).[c - 1] 0) as [He|]; simpl; [|split; [lia|done]].
  destruct (IH (c - 1)) as [Hr Hz']; [lia| |split; [lia|done]].
  intros i Hi. destruct (decide (i = c - 1)) as [->|]; [done|]. apply Hz. lia.
Qed.

Lemma above_count_free i : unbonding_count q <= i -> (unbonding_validator q).[i] = 0.
Proof.
  intros Hi. apply unowned_free. intros v Hv. pose proof (qr_entry _ _ Hq v i Hv). lia.
Qed.

Lemma trim_rep ops :
  queue_rep (q <| unbonding_count := trim_tail ops q (unbonding_count q) |>) Q.
Proof.
  destruct (trim_tail_ok ops (unbonding_count q)) as [Hr Hz].
  { pose proof (qr_count _ _ Hq). lia. }
  { apply above_count_free. }
  destruct Hq as [H1 H2 H3 H4 H5 H6 H7]. constructor; simpl; try done; [lia|].
  intros v i Hi. destruct (H4 v i Hi) as (? & Hv & Hv0). split_and!; try done; [lia|].
  destruct (decide (i < trim_tail ops q (unbonding_count q))); [done|].
  destruct Hv0. rewrite <- Hv. apply Hz. lia.
Qed.
End Rep.

(** * The walks *)

(** Some entry of the list still holds value. *)
Definition live (q : UnbondingQueue) (l : list Z) : bool :=
  existsb (fun i => negb ((unbonding_amount q).[i] =? 0)) l.

Lemma pending_from_ok q l : forall fuel from,
  linked (unbonding_next q) from l -> (forall i, i ∈ l -> 0 <= i) -> (length l < fuel)%nat ->
  pending_from fuel q from = Ok (live q l).
Proof.
  induction l as [|i l IH]; intros [|fuel] from Hl Hpos Hf; simpl in *; try lia.
  - by subst.
  - destruct Hl as [-> Hl]. pose proof (Hpos i ltac:(left)).
    rewrite (proj2 (Z.eqb_neq (i + 1) 0)) by lia. replace (i + 1 - 1) with i by lia.
    destruct ((unbonding_amount q).[i] =? 0); simpl; [|done].
    apply IH; [done| |lia]. intros j Hj. apply Hpos. by right.
Qed.

Lemma has_pending_ok q Q v : queue_rep q Q -> has_pending_unbonding q v = Ok (live q (Q v)).
Proof.
  intros Hq. apply pending_from_ok; [apply (qr_linked _ _ Hq)| |by apply list_fuel].
  intros i Hi. pose proof (qr_entry _ _ Hq v i Hi). lia.
Qed.

(** The rebuilt part of a list during a claim: its head and its last entry, as
    the loop stores them. *)
Definition rebuilt (next : gmap Z Z) (kept : list Z) (head tail : Z) : Prop :=
  match reverse kept with
  | [] => head = 0 /\ tail = 0
  | t :: k => tail = t + 1 /\ head <> 0 /\ path_to next head (reverse k) (t + 1)
  end.

Lemma rebuilt_snoc next k t head tail :
  rebuilt next (k ++ [t]) head tail <-> tail = t + 1 /\ head <> 0 /\ path_to next head k (t + 1).
Proof. unfold rebuilt. rewrite reverse_snoc, reverse_involutive. done. Qed.

Lemma rebuilt_write next kept head tail i v :
  i ∉ kept -> rebuilt next kept head tail -> rebuilt next.[i <- v] kept head tail.
Proof.
  destruct kept as [|t k _] using rev_ind; [done|]. rewrite !rebuilt_snoc.
  intros Hi%not_elem_of_app (-> & Hh & Hp). split_and!; [done..|]. apply path_write; [apply Hi|done].
Qed.

(** Appending an entry that the loop keeps. *)
Lemma rebuilt_keep next kept head tail i :
  0 <= i -> (forall j, j ∈ kept -> 0 <= j) -> NoDup kept -> rebuilt next kept head tail ->
  if head =? 0 then kept = [] /\ rebuilt next [i] (i + 1) (i + 1)
  else tail - 1 ∈ kept /\ rebuilt next.[tail - 1 <- i + 1] (kept ++ [i]) head (i + 1).
Proof.
  intros Hi Hpos Hnd. destruct kept as [|t k _] using rev_ind.
  - intros [-> _]. split; [done|]. apply (rebuilt_snoc _ []). simpl. split_and!; [done|lia|done].
  - rewrite rebuilt_snoc. intros (-> & Hh & Hp). rewrite (proj2 (Z.eqb_neq head 0)) by done.
    replace (t + 1 - 1) with t by lia. split; [apply elem_of_app; right; left|].
    apply rebuilt_snoc. split_and!; [done..|]. apply path_app. exists (t + 1). split.
    + apply path_write; [|done]. apply NoDup_app in Hnd as (_ & Hd & _).
      intros Ht. by apply (Hd t Ht), list_elem_of_singleton.
    + simpl. by rewrite mread_mwrite_eq.
Qed.

Lemma rebuilt_finish next kept head tail :
  NoDup kept -> rebuilt next kept head tail ->
  if tail =? 0 then (forall j, j ∈ kept -> 0 <= j) -> kept = [] /\ head = 0
  else tail - 1 ∈ kept /\ linked next.[tail - 1 <- 0] head kept.
Proof.
  intros Hnd. destruct kept as [|t k _] using rev_ind.
  - intros [-> ->]. done.
  - rewrite rebuilt_snoc. intros (-> & Hh & Hp). destruct (Z.eqb_spec (t + 1) 0) as [Ht|Ht].
    + intros Hpos. exfalso. specialize (Hpos t ltac:(apply elem_of_app; right; left)). lia.
    + replace (t + 1 - 1) with t by lia. split; [apply elem_of_app; right; left|].
      apply path_app. exists (t + 1). split; [|simpl; by rewrite mread_mwrite_eq].
      apply path_write; [|done]. apply NoDup_app in Hnd as (_ & Hd & _).
      intros Hk. by apply (Hd t Hk), list_elem_of_singleton.
Qed.

(** What the claim loop leaves when it has visited the entries [l]. *)
Record claimed (q q' : UnbondingQueue) (now : Z) (l : list Z) : Prop := {
  cl_count : unbonding_count q' = unbonding_count q;
  cl_head : per_val_unbonding_head q' = per_val_unbonding_head q;
  cl_validator : forall i, (unbonding_validator q').[i] =
    if decide (i ∈ mature q now l) then 0 else (unbonding_validator q).[i];
  cl_amount : forall i, (unbonding_amount q').[i] =
    if decide (i ∈ mature q now l) then 0 else (unbonding_amount q).[i];
  cl_time : forall i, (unbonding_complete_time q').[i] =
    if decide (i ∈ mature q now l) then 0 else (unbonding_complete_time q).[i];
  cl_queued : queued q' = queued q - amounts q (mature q now l) }.

Lemma mature_cons q now i l :
  mature q now (i :: l) =
    if decide ((unbonding_complete_time q).[i] <= now) then i :: mature q now l else mature q now l.
Proof. unfold mature. rewrite filter_cons. by case_decide. Qed.
Lemma immature_cons q now i l :
  immature q now (i :: l) =
    if decide ((unbonding_complete_time q).[i] <= now) then immature q now l
    else i :: immature q now l.
Proof. unfold immature. rewrite filter_cons. repeat case_decide; done. Qed.

Lemma mature_ext q q' now l :
  (forall i, i ∈ l -> (unbonding_complete_time q').[i] = (unbonding_complete_time q).[i]) ->
  mature q' now l = mature q now l /\ immature q' now l = immature q now l.
Proof.
  induction l as [|i l IH]; intros Hext; [done|].
  rewrite !mature_cons, !immature_cons, Hext by left.
  destruct IH as [-> ->]; [|done]. intros j Hj. apply Hext. by right.
Qed.
Lemma mature_elem q now l i : i ∈ mature q now l -> i ∈ l.
Proof. unfold mature. rewrite list_elem_of_filter. naive_solver. Qed.
Lemma immature_elem q now l i : i ∈ immature q now l -> i ∈ l.
Proof. unfold immature. rewrite list_elem_of_filter. naive_solver. Qed.

Lemma entries_le (m : gmap Z Z) l :
  NoDup l -> (forall i, 0 <= m.[i]) -> foldr (fun i acc => m.[i] + acc) 0 l <= map_sum m.
Proof.
  revert m. induction l as [|i l IH]; intros m Hnd Hm; simpl; [by apply map_sum_nonneg|].
  apply NoDup_cons in Hnd as [Hi Hnd].
  pose proof (map_sum_mwrite m i 0) as Hs.
  assert (Hf : foldr (fun j acc => m.[i <- 0].[j] + acc) 0 l = foldr (fun j acc => m.[j] + acc) 0 l).
  { clear -Hi. induction l as [|j l IH]; simpl; [done|]. apply not_elem_of_cons in Hi as [Hij Hi].
    rewrite mread_mwrite_ne by done. by rewrite IH. }
  specialize (IH m.[i <- 0] Hnd). rewrite Hf in IH.
  assert (forall k, 0 <= m.[i <- 0].[k]) as Hk by (intros k; rewrite mread_mwrite; case_decide; [lia|done]).
  specialize (IH Hk). lia.
Qed.
Lemma amounts_le q l :
  NoDup l -> (forall i, 0 <= (unbonding_amount q).[i]) -> amounts q l <= queued q.
Proof. apply entries_le. Qed.

(** Freeing the first entry, then claiming the rest. *)
Definition freed (q : UnbondingQueue) (i : Z) : UnbondingQueue :=
  q <| unbonding_validator := (unbonding_validator q).[i <- 0] |>
    <| unbonding_amount := (unbonding_amount q).[i <- 0] |>
    <| unbonding_complete_time := (unbonding_complete_time q).[i <- 0] |>
    <| unbonding_next := (unbonding_next q).[i <- 0] |>.

Lemma claimed_freed q q' now i l :
  i ∉ l -> (unbonding_complete_time q).[i] <= now ->
  claimed (freed q i) q' now l -> claimed q q' now (i :: l).
Proof.
  intros Hi Ht [H1 H2 H3 H4 H5 H6].
  assert (Hm : mature (freed q i) now l = mature q now l).
  { apply mature_ext. intros j Hj. simpl. rewrite mread_mwrite_ne; [done|]. by intros ->. }
  rewrite Hm in *.
  assert (Hmc : mature q now (i :: l) = i :: mature q now l) by (by rewrite mature_cons, decide_True).
  assert (Hcase : forall (m m' : gmap Z Z) j,
    m'.[j] = (if decide (j ∈ mature q now l) then 0 else m.[i <- 0].[j]) ->
    m'.[j] = if decide (j ∈ mature q now (i :: l)) then 0 else m.[j]).
  { intros m m' j ->. rewrite Hmc, mread_mwrite. destruct (decide (j ∈ mature q now l)) as [Hj|Hj].
    - rewrite decide_True; [done|by right].
    - destruct (decide (i = j)) as [->|Hij]; [rewrite decide_True; [done|left]|].
      rewrite decide_False; [done|]. rewrite elem_of_cons. naive_solver. }
  constructor; [done|done|intros j; by apply Hcase..|].
  rewrite Hmc, H6. simpl. rewrite (amounts_ext q (freed q i)).
  - unfold queued. simpl. rewrite map_sum_mwrite. lia.
  - intros j Hj%mature_elem. simpl. rewrite mread_mwrite_ne; [done|]. by intros ->.
Qed.

Lemma claimed_kept q q1 q' now i l :
  ~ (unbonding_complete_time q).[i] <= now ->
  unbonding_count q1 = unbonding_count q ->
  per_val_unbonding_head q1 = per_val_unbonding_head q ->
  unbonding_validator q1 = unbonding_validator q -> unbonding_amount q1 = unbonding_amount q ->
  unbonding_complete_time q1 = unbonding_complete_time q ->
  claimed q1 q' now l -> claimed q q' now (i :: l).
Proof.
  intros Ht E1 E2 E3 E4 E5 [H1 H2 H3 H4 H5 H6].
  assert (Hm : mature q1 now l = mature q now (i :: l)).
  { rewrite mature_cons, decide_False by done. unfold mature. by rewrite E5. }
  rewrite Hm in *. unfold queued, amounts in *. rewrite E1, E2, E3, E4, E5 in *. by constructor.
Qed.

Lemma claim_step_entry now i head tail total q :
  0 <= i ->
  claim_step now (i + 1, head, tail, total) q =
    if decide ((unbonding_complete_time q).[i] <= now)
    then (Ok (inl ((unbonding_next q).[i], head, tail,
                   wrapping_add u256_max total (unbonding_amount q).[i])), freed q i)
    else if head =? 0 then (Ok (inl ((unbonding_next q).[i], i + 1, i + 1, total)), q)
    else (Ok (inl ((unbonding_next q).[i], head, i + 1, total)),
          q <| unbonding_next := (unbonding_next q).[tail - 1 <- i + 1] |>).
Proof.
  intros Hi. unfold claim_step. rewrite (proj2 (Z.eqb_neq (i + 1) 0)) by lia.
  replace (i + 1 - 1) with i by lia. unfold mbind, gets. case_decide as Ht.
  - by rewrite (proj2 (Z.leb_le _ _)).
  - rewrite (proj2 (Z.leb_gt _ _)) by lia. by destruct (head =? 0).
Qed.

Lemma NoDup_app_drop {A} (k l : list A) i :
  NoDup (k ++ i :: l) -> NoDup (k ++ l) /\ i ∉ k /\ i ∉ l /\ NoDup ((k ++ [i]) ++ l).
Proof.
  intros Hnd. pose proof Hnd as Hnd'. rewrite cons_middle, app_assoc in Hnd'.
  apply NoDup_app in Hnd as (Hk & Hd & [Hi Hl]%NoDup_cons). split_and!; try done.
  - apply NoDup_app. split_and!; try done. intros j Hj Hj'. apply (Hd j Hj). by right.
  - intros Hk'. apply (Hd i Hk'). left.
Qed.

Lemma claim_loop now l : forall fuel q kept from head tail total,
  linked (unbonding_next q) from l -> rebuilt (unbonding_next q) kept head tail ->
  NoDup (kept ++ l) -> (forall i, i ∈ kept ++ l -> 0 <= i) ->
  (forall i, 0 <= (unbonding_amount q).[i]) ->
  0 <= total -> total + queued q <= u256_max -> (length l < fuel)%nat ->
  exists q' head' tail',
    mwhile fuel (claim_step now) (from, head, tail, total) q
      = (Ok (head', tail', total + amounts q (mature q now l)), q')
    /\ claimed q q' now l
    /\ rebuilt (unbonding_next q') (kept ++ immature q now l) head' tail'
    /\ (forall i, i ∉ kept ++ l -> (unbonding_next q').[i] = (unbonding_next q).[i]).
Proof.
  induction l as [|i l IH]; intros [|fuel] q kept from head tail total Hl Hr Hnd Hpos Ham Ht Hsum Hf;
    simpl in Hf; try lia; cbn [mwhile]; unfold mbind.
  { simpl in Hl. subst from. exists q, head, tail. rewrite !app_nil_r. simpl. rewrite Z.add_0_r.
    split_and!; try done. constructor; try done. unfold mature. simpl. lia. }
  destruct Hl as [-> Hl].
  assert (Hi : 0 <= i) by (apply Hpos, elem_of_app; right; left).
  destruct (NoDup_app_drop _ _ _ Hnd) as (Hnd1 & Hik & Hil & Hnd2).
  assert (Hpos' : forall j, j ∈ kept ++ l -> 0 <= j) by (intros j Hj; apply Hpos; set_solver).
  pose proof (map_sum_le (unbonding_amount q) i Ham) as Hle. fold (queued q) in Hle.
  pose proof (Ham i) as Hai.
  rewrite claim_step_entry, mature_cons, immature_cons by done.
  destruct (decide ((unbonding_complete_time q).[i] <= now)) as [Hm|Hm];
    [|destruct (head =? 0) eqn:Hh; pose proof (rebuilt_keep _ _ _ _ i Hi
        (fun j Hj => Hpos j (proj2 (elem_of_app _ _ j) (or_introl Hj)))
        (proj1 (proj1 (NoDup_app _ _) Hnd)) Hr) as Hkeep; rewrite Hh in Hkeep;
      destruct Hkeep as [Hk0 Hkeep]].
  - rewrite wrapping_add_small by lia.
    destruct (mature_ext q (freed q i) now l) as [Hm1 Hm2].
    { intros j Hj. simpl. rewrite mread_mwrite_ne; [done|]. by intros ->. }
    destruct (IH fuel (freed q i) kept (unbonding_next q).[i] head tail
      (total + (unbonding_amount q).[i])) as (q' & head' & tail' & Hrun & Hcl & Hre & Hfr);
      try done; try lia.
    + by apply path_write.
    + by apply rebuilt_write.
    + intros j. simpl. rewrite mread_mwrite. case_decide; [lia|done].
    + unfold queued. simpl. rewrite map_sum_mwrite. unfold queued in Hsum. lia.
    + rewrite Hm1, Hm2 in *. exists q', head', tail'. rewrite Hrun.
      rewrite (amounts_ext q (freed q i)).
      2: { intros j Hj%mature_elem. simpl. rewrite mread_mwrite_ne; [done|]. by intros ->. }
      simpl. split_and!; [by rewrite Z.add_assoc|by apply claimed_freed|done|].
      intros j Hj. rewrite Hfr by set_solver. simpl. rewrite mread_mwrite_ne; [done|set_solver].
  - subst kept. destruct (IH fuel q [i] (unbonding_next q).[i] (i + 1) (i + 1) total)
      as (q' & head' & tail' & Hrun & Hcl & Hre & Hfr); try done; try lia.
    exists q', head', tail'. split_and!; try done. by eapply claimed_kept; [..|exact Hcl].
  - set (q1 := q <| unbonding_next := (unbonding_next q).[tail - 1 <- i + 1] |>).
    destruct (IH fuel q1 (kept ++ [i]) (unbonding_next q).[i] head (i + 1) total)
      as (q' & head' & tail' & Hrun & Hcl & Hre & Hfr); try done; try lia.
    + apply path_write; [|done]. intros Hin. apply NoDup_app in Hnd1 as (_ & Hd & _).
      by apply (Hd (tail - 1)).
    + intros j Hj. apply Hpos. set_solver.
    + exists q', head', tail'. split_and!; try done; [by eapply claimed_kept; [..|exact Hcl]| |].
      * rewrite <- app_assoc in Hre. exact Hre.
      * intros j Hj. rewrite Hfr by set_solver. simpl. rewrite mread_mwrite_ne; [done|set_solver].
Qed.

Lemma immature_not_mature q now l i :
  i ∈ l -> i ∉ mature q now l -> i ∈ immature q now l.
Proof. unfold mature, immature. rewrite !list_elem_of_filter. naive_solver. Qed.
Lemma immature_disjoint q now l i : i ∈ immature q now l -> i ∉ mature q now l.
Proof. unfold mature, immature. rewrite !list_elem_of_filter. naive_solver. Qed.

(** The rebuilt queue: the lists of the other validators are untouched. *)
Lemma claimed_rep q q' Q now v head next :
  queue_rep q Q -> claimed q q' now (Q v) ->
  linked next head (immature q now (Q v)) ->
  (forall i, i ∉ Q v -> next.[i] = (unbonding_next q).[i]) ->
  queue_rep (q' <| unbonding_next := next |>
                <| per_val_unbonding_head := (per_val_unbonding_head q).[v <- head] |>)
    (<[v := immature q now (Q v)]> Q).
Proof.
  intros Hq [C1 C2 C3 C4 C5 C6] Hlink Hframe.
  assert (HQ : forall w, <[v := immature q now (Q v)]> Q w
    = if decide (v = w) then immature q now (Q v) else Q w).
  { intros w. case_decide as Hw; [subst; by rewrite fn_lookup_insert|by rewrite fn_lookup_insert_ne]. }
  assert (Hsub : forall w i, i ∈ <[v := immature q now (Q v)]> Q w ->
    i ∈ Q w /\ i ∉ mature q now (Q v)).
  { intros w i. rewrite HQ. destruct (decide (v = w)) as [<-|Hw]; intros Hi.
    - split; [by eapply immature_elem|by apply immature_disjoint].
    - split; [done|]. intros Hm%mature_elem. apply Hw. by eapply entry_owner. }
  constructor; simpl; rewrite ?C1.
  - apply (qr_count _ _ Hq).
  - intros w. rewrite HQ. destruct (decide (v = w)) as [<-|Hw]; [by rewrite mread_mwrite_eq|].
    rewrite mread_mwrite_ne by done. eapply path_ext; [|apply (qr_linked _ _ Hq)].
    intros i Hi. apply Hframe. intros Hi'. apply Hw. by eapply entry_owner.
  - intros w. rewrite HQ. case_decide; [|apply (qr_nodup _ _ Hq)].
    apply NoDup_filter, (qr_nodup _ _ Hq).
  - intros w i Hi. destruct (Hsub w i Hi) as [Hin Hm]. rewrite C3, decide_False by done.
    by apply (qr_entry _ _ Hq).
  - intros i. rewrite C3. case_decide as Hm; [done|]. intros Hne.
    pose proof (qr_owned _ _ Hq i Hne) as Ho. rewrite HQ. case_decide as Hw; [|done].
    apply immature_not_mature; [by rewrite Hw|done].
  - intros i. rewrite C3, C4. case_decide; [done|]. apply (qr_free _ _ Hq).
  - intros i. rewrite C4. case_decide; [done|]. apply (qr_amount _ _ Hq).
Qed.

(** Claiming pays the matured entries of the caller exactly, keeps the others
    in order, and terminates within its fuel. *)
Lemma claim_entries_ok q Q now v :
  queue_rep q Q -> queued q <= u256_max ->
  exists q', claim_entries now v q = (Ok (amounts q (mature q now (Q v))), q')
    /\ queue_rep q' (<[v := immature q now (Q v)]> Q)
    /\ queued q' = queued q - amounts q (mature q now (Q v))
    /\ unbonding_count q' = unbonding_count q
    /\ (forall i, (unbonding_amount q').[i] =
         if decide (i ∈ mature q now (Q v)) then 0 else (unbonding_amount q).[i])
    /\ (forall i, (unbonding_complete_time q').[i] =
         if decide (i ∈ mature q now (Q v)) then 0 else (unbonding_complete_time q).[i]).
Proof.
  intros Hq Hsum.
  assert (Hpos : forall i, i ∈ Q v -> 0 <= i)
    by (intros i Hi; pose proof (qr_entry _ _ Hq v i Hi); lia).
  destruct (claim_loop now (Q v) (walk_fuel q) q [] (per_val_unbonding_head q).[v] 0 0 0)
    as (q1 & head & tail & Hrun & Hcl & Hre & Hfr); simpl; try done.
  { apply (qr_linked _ _ Hq). }
  { apply (qr_nodup _ _ Hq). }
  { apply (qr_amount _ _ Hq). }
  { by apply list_fuel. }
  simpl in Hre, Hfr. unfold claim_entries, mbind at 1 2 3, gets. rewrite Hrun. simpl.
  pose proof (rebuilt_finish _ _ _ _ (NoDup_filter _ _ (qr_nodup _ _ Hq v)) Hre) as Hfin.
  destruct (tail =? 0).
  - destruct Hfin as [Hnil ->]; [intros j Hj; eapply Hpos, immature_elem, Hj|].
    change (immature q now (Q v) = []) in Hnil.
    eexists. split; [reflexivity|].
    pose proof (claimed_rep q q1 Q now v 0 (unbonding_next q1) Hq Hcl) as Hrep.
    rewrite Hnil in Hrep |- *. specialize (Hrep eq_refl Hfr). destruct Hcl as [C1 C2 C3 C4 C5 C6].
    simpl. rewrite C2. split_and!; try done.
  - destruct Hfin as [Ht Hlink]. eexists. split; [reflexivity|].
    pose proof (claimed_rep q q1 Q now v head _ Hq Hcl Hlink) as Hrep.
    destruct Hcl as [C1 C2 C3 C4 C5 C6]. simpl. rewrite C2. split_and!; try done. apply Hrep.
    intros i Hi. rewrite mread_mwrite_ne; [by apply Hfr|]. intros <-.
    apply Hi. by eapply immature_elem.
Qed.

(** A slash never takes more than the amount: the product wraps only when the
    amount exceeds a hundredth of the word range. *)
Lemma slash_of_bounds percent amount :
  0 <= percent <= 100 -> 0 <= amount <= u256_max -> 0 <= slash_of percent amount <= amount.
Proof.
  intros Hp Ha. unfold slash_of, wrapping_mul.
  pose proof (Z.mod_pos_bound (amount * percent) (u256_max + 1) ltac:(done)) as Hm.
  split; [apply Z.div_pos; lia|].
  destruct (decide (amount * percent <= u256_max)) as [Hs|Hs].
  - rewrite Z.mod_small by nia. apply Z.div_le_upper_bound; nia.
  - apply Z.div_le_upper_bound; [lia|]. nia.
Qed.
Lemma slash_of_zero percent : slash_of percent 0 = 0.
Proof. done. Qed.

(** What the slash loop leaves when it has visited the entries [l]. *)
Record slashed (q q' : UnbondingQueue) (percent time : Z) (l : list Z) : Prop := {
  sl_frame : unbonding_count q' = unbonding_count q
    /\ per_val_unbonding_head q' = per_val_unbonding_head q
    /\ unbonding_next q' = unbonding_next q
    /\ unbonding_validator q' = unbonding_validator q;
  sl_amount : forall i, (unbonding_amount q').[i] =
    if decide (i ∈ l) then (unbonding_amount q).[i] - slash_of percent (unbonding_amount q).[i]
    else (unbonding_amount q).[i];
  sl_time : forall i, (unbonding_complete_time q').[i] =
    if decide (i ∈ l /\ (unbonding_amount q).[i] <> 0)
    then Z.max (unbonding_complete_time q).[i] time else (unbonding_complete_time q).[i] }.

(** The value a slash takes from some entries. *)
Definition slash_total (q : UnbondingQueue) (percent : Z) (l : list Z) : Z :=
  foldr (fun i acc => slash_of percent (unbonding_amount q).[i] + acc) 0 l.

Definition slash_entry (q : UnbondingQueue) (percent time i : Z) : UnbondingQueue :=
  let a := (unbonding_amount q).[i] in
  if a =? 0 then q
  else
    let q1 := if slash_of percent a =? 0 then q
              else q <| unbonding_amount := (unbonding_amount q).[i <- a - slash_of percent a] |> in
    if (unbonding_complete_time q1).[i] <? time
    then q1 <| unbonding_complete_time := (unbonding_complete_time q1).[i <- time] |> else q1.

Lemma slash_step_entry percent time i total q :
  0 <= i -> 0 <= percent <= 100 -> 0 <= (unbonding_amount q).[i] <= u256_max ->
  0 <= total -> total + slash_of percent (unbonding_amount q).[i] <= u256_max ->
  slash_step percent time (i + 1, total) q =
    (Ok (inl ((unbonding_next q).[i], total + slash_of percent (unbonding_amount q).[i])),
     slash_entry q percent time i).
Proof.
  intros Hi Hp Ha Ht Hs. pose proof (slash_of_bounds percent _ Hp Ha) as Hb.
  unfold slash_step. rewrite (proj2 (Z.eqb_neq (i + 1) 0)) by lia.
  replace (i + 1 - 1) with i by lia. unfold mbind, gets, slash_entry.
  fold (slash_of percent (unbonding_amount q).[i]).
  destruct (Z.eqb_spec (unbonding_amount q).[i] 0) as [H0|H0].
  { simpl. by rewrite H0, slash_of_zero, Z.add_0_r. }
  fold (slash_of percent (unbonding_amount q).[i]).
  destruct (Z.eqb_spec (slash_of percent (unbonding_amount q).[i]) 0) as [Hz|Hz].
  - simpl. rewrite Hz, Z.add_0_r. by destruct (_ <? time).
  - unfold wrapping_sub. rewrite wrapping_add_small, Z.mod_small by lia. simpl.
    by destruct (_ <? time).
Qed.

Lemma slash_entry_ok q percent time i :
  0 <= percent <= 100 -> 0 <= (unbonding_amount q).[i] <= u256_max ->
  slashed q (slash_entry q percent time i) percent time [i]
  /\ queued (slash_entry q percent time i) = queued q - slash_of percent (unbonding_amount q).[i].
Proof.
  intros Hp Ha. unfold slash_entry, queued.
  destruct (Z.eqb_spec (unbonding_amount q).[i] 0) as [H0|H0].
  - rewrite H0, slash_of_zero. split; [|lia]. constructor; [done|..]; intros j;
      case_decide as Hj; try done; rewrite list_elem_of_singleton in Hj; subst;
      [by rewrite H0, slash_of_zero|naive_solver].
  - destruct (Z.eqb_spec (slash_of percent (unbonding_amount q).[i]) 0) as [Hz|Hz];
      (match goal with |- context [if ?b then _ else _] => destruct b eqn:Hb end);
      apply Z.ltb_lt in Hb || apply Z.ltb_ge in Hb; simpl in *; rewrite ?map_sum_mwrite;
      (split; [|lia]); (constructor; [done|..]); intros j; simpl; rewrite ?mread_mwrite;
      repeat case_decide; rewrite ?list_elem_of_singleton in *; subst; naive_solver lia.
Qed.

Lemma slashed_cons q q1 q' percent time i l :
  i ∉ l -> slashed q q1 percent time [i] -> slashed q1 q' percent time l ->
  slashed q q' percent time (i :: l).
Proof.
  intros Hi [(E1 & E2 & E3 & E4) A1 T1] [(F1 & F2 & F3 & F4) A2 T2].
  constructor; [split_and!; congruence|..].
  - intros j. rewrite A2, !A1. repeat case_decide; rewrite ?list_elem_of_singleton, ?elem_of_cons in *;
      subst; naive_solver.
  - intros j. rewrite T2, !T1, !A1. repeat case_decide;
      rewrite ?list_elem_of_singleton, ?elem_of_cons in *; subst; naive_solver.
Qed.

Lemma slash_total_ext q q' percent l :
  (forall i, i ∈ l -> (unbonding_amount q').[i] = (unbonding_amount q).[i]) ->
  slash_total q' percent l = slash_total q percent l.
Proof.
  induction l as [|i l IH]; intros Hext; simpl; [done|].
  rewrite Hext by left. rewrite IH; [done|]. intros j Hj. apply Hext. by right.
Qed.

Lemma slash_total_nonneg q Q percent l :
  queue_rep q Q -> 0 <= percent <= 100 -> queued q <= u256_max -> 0 <= slash_total q percent l.
Proof.
  intros Hq Hp Hu. induction l as [|i l IH]; simpl; [done|].
  pose proof (map_sum_le (unbonding_amount q) i (qr_amount _ _ Hq)) as Hle. unfold queued in Hu.
  assert (0 <= slash_of percent (unbonding_amount q).[i]); [|lia].
  apply slash_of_bounds; [done|]. pose proof (qr_amount _ _ Hq i). lia.
Qed.

Lemma slash_loop percent time l : forall fuel q from total,
  linked (unbonding_next q) from l -> NoDup l -> (forall i, i ∈ l -> 0 <= i) ->
  (forall i, 0 <= (unbonding_amount q).[i]) -> 0 <= percent <= 100 ->
  0 <= total -> total + queued q <= u256_max -> (length l < fuel)%nat ->
  exists q', mwhile fuel (slash_step percent time) (from, total) q
      = (Ok (total + slash_total q percent l), q')
    /\ slashed q q' percent time l /\ queued q' = queued q - slash_total q percent l.
Proof.
  induction l as [|i l IH]; intros [|fuel] q from total Hl Hnd Hpos Ham Hp Ht Hsum Hf;
    simpl in Hf; try lia; cbn [mwhile]; unfold mbind.
  { simpl in Hl. subst from. exists q. simpl. rewrite Z.add_0_r, Z.sub_0_r. by split_and!. }
  destruct Hl as [-> Hl]. apply NoDup_cons in Hnd as [Hi Hnd].
  pose proof (map_sum_le (unbonding_amount q) i Ham) as Hle. fold (queued q) in Hle.
  assert (Ha : 0 <= (unbonding_amount q).[i] <= u256_max) by (split; [apply Ham|lia]).
  pose proof (slash_of_bounds percent _ Hp Ha) as Hb.
  rewrite slash_step_entry; [|apply Hpos; left|done|done|done|lia].
  destruct (slash_entry_ok q percent time i Hp Ha) as [Hs Hq].
  pose proof (sl_frame _ _ _ _ _ Hs) as (_ & _ & En & _).
  assert (Hrest : forall j, j ∈ l ->
    (unbonding_amount (slash_entry q percent time i)).[j] = (unbonding_amount q).[j]).
  { intros j Hj. rewrite (sl_amount _ _ _ _ _ Hs), decide_False; [done|].
    intros ->%list_elem_of_singleton. done. }
  destruct (IH fuel (slash_entry q percent time i) (unbonding_next q).[i]
    (total + slash_of percent (unbonding_amount q).[i])) as (q' & Hrun & Hs' & Hq'); try done; try lia.
  - by rewrite En.
  - intros j Hj. apply Hpos. by right.
  - intros j. rewrite (sl_amount _ _ _ _ _ Hs). case_decide as Hj; [|done].
    apply list_elem_of_singleton in Hj as ->. lia.
  - rewrite (slash_total_ext q) in Hrun, Hq' by done. exists q'. rewrite Hrun.
    split_and!; [simpl; by rewrite Z.add_assoc|by eapply slashed_cons|]. simpl. lia.
Qed.

Lemma slashed_rep q q' Q percent time l :
  queue_rep q Q -> slashed q q' percent time l -> 0 <= percent <= 100 -> queued q <= u256_max ->
  queue_rep q' Q.
Proof.
  intros Hq [(E1 & E2 & E3 & E4) A _] Hp Hsum.
  assert (Hb : forall i, 0 <= slash_of percent (unbonding_amount q).[i] <= (unbonding_amount q).[i]).
  { intros i. apply slash_of_bounds; [done|]. pose proof (qr_amount _ _ Hq).
    pose proof (map_sum_le (unbonding_amount q) i (qr_amount _ _ Hq)). unfold queued in Hsum. split; [done|lia]. }
  destruct Hq as [H1 H2 H3 H4 H5 H6 H7]. constructor; rewrite ?E1, ?E2, ?E3, ?E4; try done.
  - intros i Hi. rewrite A, (H6 i Hi), slash_of_zero. by case_decide.
  - intros i. rewrite A. specialize (Hb i). case_decide; [lia|done].
Qed.

Lemma slash_entries_ok q Q percent time v total :
  queue_rep q Q -> 0 <= percent <= 100 -> 0 <= total -> total + queued q <= u256_max ->
  exists q', slash_entries percent time v total q = (Ok (total + slash_total q percent (Q v)), q')
    /\ queue_rep q' Q /\ slashed q q' percent time (Q v)
    /\ queued q' = queued q - slash_total q percent (Q v).
Proof.
  intros Hq Hp Ht Hsum.
  destruct (slash_loop percent time (Q v) (walk_fuel q) q (per_val_unbonding_head q).[v] total)
    as (q' & Hrun & Hs & Hq'); try done.
  - apply (qr_linked _ _ Hq).
  - apply (qr_nodup _ _ Hq).
  - intros i Hi. pose proof (qr_entry _ _ Hq v i Hi). lia.
  - apply (qr_amount _ _ Hq).
  - by apply list_fuel.
  - exists q'. split_and!; try done. eapply slashed_rep; try done. lia.
Qed.
