(* ===== verification/StakingInv.v ===== *)
(** The books of Staking: what every call of its surface, and every registry
    call in between, keeps. The stakes add up to the total, the contract holds
    the native value it owes, and the registry mirrors the bonded stake of every
    validator. *)

From stdpp Require Import functions.
From S2P Require Import Prelude Bytes P2pAddress Native Lifecycle.
From S2P Require Import ValidatorSet ValidatorSetInv ValidatorSetMoves ValidatorSetProps ValidatorSetStake.
From S2P Require Import Staking StakingQueue.

(** * The invariant *)

Section Books.
Context {X : Externals}.

(** The accounting of the contract, with [extra] native value that is not booked
    yet. *)
Record books (s : Staking) (extra : Z) : Prop := {
  bk_queue : exists Q, queue_rep (queue s) Q;
  bk_stake : forall a, 0 <= (stake_amount s).[a];
  bk_total : total_staked s = map_sum (stake_amount s);
  bk_solvent : total_staked s + queued (queue s) + extra <= (native s).[STAKING_ADDRESS];
  bk_native : forall a, 0 <= (native s).[a] <= u256_max }.

(** The registry mirrors the stake of every validator but [a]. *)
Definition mirrored_but (s : Staking) (P : Address -> Prop) : Prop :=
  vs_inv (validators s) /\ forall b, ~ P b -> stake_of (validators s) b = (stake_amount s).[b].

Definition stk_inv (s : Staking) : Prop := books s 0 /\ mirrored_but s (fun _ => False).

(** * Runs of the parts *)

Lemma on_validators_ok {A} (m : VM A) s r s' :
  on_validators m s = (Ok r, s') ->
  exists v, m (validators s) = (Ok r, v) /\ s' = s <| validators := v |>.
Proof. unfold on_validators, zoom. destruct (m (validators s)) as [r0 v]. intros [= -> <-]. by exists v. Qed.
Lemma on_queue_ok {A} (m : QM A) s r s' :
  on_queue m s = (Ok r, s') ->
  exists q, m (queue s) = (Ok r, q) /\ s' = s <| queue := q |>.
Proof. unfold on_queue, zoom. destruct (m (queue s)) as [r0 q]. intros [= -> <-]. by exists q. Qed.

Lemma books_registry s extra v : books s extra -> books (s <| validators := v |>) extra.
Proof. by intros []. Qed.

(** A registry call that is not a stake record. *)
Lemma registry_call_inv c s v P :
  mirrored_but s P -> wf_call c -> call_stake c = None ->
  run_call c (validators s) = (Ok tt, v) -> mirrored_but (s <| validators := v |>) P.
Proof.
  intros [Hv Hm] Hwf Hc Hrun. split; simpl.
  - destruct Hv as [L Hr]. destruct (call_rep c _ L v Hr Hwf Hrun) as (L' & Hr' & _). by exists L'.
  - intros b Hb. pose proof (call_stake_effect c _ _ Hv Hwf Hrun b) as He. rewrite Hc in He.
    rewrite He. by apply Hm.
Qed.

(** A stake record restores the mirror of its validator. *)
Lemma registry_record c s v a :
  mirrored_but s (eq a) -> wf_call c -> call_stake c = Some (a, (stake_amount s).[a]) ->
  run_call c (validators s) = (Ok tt, v) -> mirrored_but (s <| validators := v |>) (fun _ => False).
Proof.
  intros [Hv Hm] Hwf Hc Hrun. split; simpl.
  - destruct Hv as [L Hr]. destruct (call_rep c _ L v Hr Hwf Hrun) as (L' & Hr' & _). by exists L'.
  - intros b _. pose proof (call_stake_effect c _ _ Hv Hwf Hrun b) as He. rewrite Hc in He.
    rewrite He. case_decide as Hb; [by subst|]. apply Hm. by intros ->.
Qed.

(** Changing the stake of one validator leaves its mirror to be restored. *)
Lemma mirrored_write s a v t :
  mirrored_but s (fun _ => False) ->
  mirrored_but (s <| stake_amount := (stake_amount s).[a <- v] |> <| total_staked := t |>) (eq a).
Proof.
  intros [Hv Hm]. split; [done|]. simpl. intros b Hb. rewrite mread_mwrite_ne by done.
  apply Hm. tauto.
Qed.

(** Moving stake between the books: the amount leaves or enters the total. *)
Lemma books_stake s extra a v :
  books s extra -> 0 <= v ->
  books (s <| stake_amount := (stake_amount s).[a <- v] |>
           <| total_staked := total_staked s - (stake_amount s).[a] + v |>)
    (extra + (stake_amount s).[a] - v).
Proof.
  intros [Hq Hs Ht Hsol Hn] Hv. constructor; simpl; try done.
  - intros b. rewrite mread_mwrite. case_decide; [lia|done].
  - rewrite map_sum_mwrite, Ht. lia.
  - lia.
Qed.

Lemma books_bounds s extra :
  books s extra -> 0 <= extra ->
  (forall a, 0 <= (stake_amount s).[a] <= total_staked s)
  /\ 0 <= queued (queue s) /\ total_staked s + queued (queue s) + extra <= u256_max.
Proof.
  intros [[Q Hq] Hs Ht Hsol Hn] He. split_and!.
  - intros a. rewrite Ht. split; [done|]. by apply map_sum_le.
  - by eapply queued_nonneg.
  - pose proof (Hn STAKING_ADDRESS). lia.
Qed.

Lemma books_weaken s e e' : books s e -> e' <= e -> books s e'.
Proof. intros [] He. constructor; try done. lia. Qed.

(** * The operations *)

Lemma registry_step_inv c s v :
  wf_call c -> call_stake c = None -> run_call c (validators s) = (Ok tt, v) ->
  stk_inv s -> stk_inv (s <| validators := v |>).
Proof.
  intros Hwf Hc Hrun [Hb Hm]. split; [by apply books_registry|]. by eapply registry_call_inv.
Qed.

Lemma add_stake_inv s a amount t s' :
  books s amount -> mirrored_but s (fun _ => False) -> 0 <= amount ->
  t = total_staked s + amount ->
  add_stake a ((stake_amount s).[a] + amount) t s = (Ok tt, s') -> stk_inv s'.
Proof.
  intros Hb Hm Ha -> Hrun. unfold add_stake in Hrun. minv.
  match goal with H : on_validators _ _ = _ |- _ => apply on_validators_ok in H as (v & Hrun & ->) end.
  simpl in Hrun. assert (Hv : 0 <= (stake_amount s).[a] + amount)
    by (pose proof (bk_stake _ _ Hb a); lia).
  split.
  - apply books_registry. eapply books_weaken.
    + pose proof (books_stake s amount a _ Hb Hv) as Hbs.
      replace (total_staked s - (stake_amount s).[a] + ((stake_amount s).[a] + amount))
        with (total_staked s + amount) in Hbs by lia. exact Hbs.
    + lia.
  - eapply (registry_record (SystemCall (mkEnv 0 0 0) (RecordStakeIncrease a _ _)) _ v a);
      [by apply mirrored_write|done| |exact Hrun]. simpl. by rewrite mread_mwrite_eq.
Qed.

Lemma staking_stake_inv s caller a amount s' :
  books s amount -> mirrored_but s (fun _ => False) -> 0 <= amount ->
  staking_stake caller a amount s = (Ok tt, s') -> stk_inv s'.
Proof.
  intros Hb Hm Ha Hrun. unfold staking_stake in Hrun. minv.
  destruct (books_bounds _ _ Hb Ha) as (Hs & Hq & Hu). pose proof (Hs a).
  rewrite !wrapping_add_small in * by lia.
  destruct ((0 <? config_max_stake_percent s) && (config_max_stake_percent s <? 100)); simpl in *.
  - destruct (Z.eqb_spec (total_staked s) 0); minv;
      (eapply add_stake_inv; [..|eassumption]); try done; lia.
  - by eapply add_stake_inv.
Qed.

Lemma books_queue s e q e' :
  books s e -> (exists Q, queue_rep q Q) -> queued q + e' = queued (queue s) + e ->
  books (s <| queue := q |>) e'.
Proof. intros [Hq Hs Ht Hsol Hn] HQ He. constructor; simpl; try done. lia. Qed.

(** A stake that the registry lets change belongs to a registered validator. *)
Lemma record_unstake_nonzero env v a b m h v' :
  vs_inv v -> record_unstake env a b m h v = (Ok tt, v') -> a <> 0.
Proof.
  intros [L Hr] Hrun ->. unfold record_unstake in Hrun. minv.
  match goal with H : validator_state _ _ = Ok _ |- _ =>
    apply (rep_state_inv _ _ _ _ _ (vr_core _ _ Hr)) in H; subst end.
  simpl in *. rewrite (cr_zero _ _ _ (vr_core _ _ Hr)) in *. minv.
Qed.

(** Releasing bonded stake into the queue, with the registry told. *)
Lemma release_inv env s a amount time m q v :
  stk_inv s -> 0 < amount <= (stake_amount s).[a] -> unbonding_count (queue s) < u32_max ->
  enqueue_unbonding a amount time (queue s) = (Ok tt, q) ->
  record_unstake env a ((stake_amount s).[a] - amount) m time (validators s) = (Ok tt, v) ->
  stk_inv (s <| stake_amount := (stake_amount s).[a <- (stake_amount s).[a] - amount] |>
             <| total_staked := total_staked s - amount |> <| queue := q |> <| validators := v |>)
  /\ unbonding_count q = unbonding_count (queue s) + 1.
Proof.
  intros [Hb Hm] Ha Hroom Henq Hrun. pose proof (record_unstake_nonzero _ _ _ _ _ _ _ (proj1 Hm) Hrun).
  destruct (bk_queue _ _ Hb) as [Q Hq].
  destruct (enqueue_rep _ _ Hq a amount time q) as (Hq' & Hsum & Hcount); try done; [lia|].
  assert (Hv : 0 <= (stake_amount s).[a] - amount) by lia.
  split; [|done]. split.
  - apply books_registry. eapply books_queue; [|by eexists|].
    + pose proof (books_stake s 0 a _ Hb Hv) as Hbs.
      replace (total_staked s - (stake_amount s).[a] + ((stake_amount s).[a] - amount))
        with (total_staked s - amount) in Hbs by lia. exact Hbs.
    + simpl. lia.
  - eapply (registry_record (SystemCall env (RecordUnstake a _ m time)) _ v a); [|done| |exact Hrun].
    + by apply (mirrored_write s a).
    + simpl. by rewrite mread_mwrite_eq.
Qed.

Lemma unstake_inv env s caller amount s' :
  stk_inv s -> 0 <= amount -> unbonding_count (queue s) < u32_max ->
  unstake env caller amount s = (Ok tt, s') -> stk_inv s'.
Proof.
  intros Hi Ha Hroom Hrun. unfold unstake in Hrun. minv. bprop.
  destruct (books_bounds _ _ (proj1 Hi) ltac:(lia)) as (Hs & Hq & Hu). pose proof (Hs caller).
  match goal with H : on_validators _ _ = _ |- _ => apply on_validators_ok in H as (v & Hrun & ->) end.
  match goal with H : on_queue _ _ = _ |- _ => apply on_queue_ok in H as (q & Henq & ->) end.
  simpl in *. rewrite !wrapping_sub_small in * by lia.
  eapply release_inv; [done| |done|exact Henq|exact Hrun]. lia.
Qed.

Lemma complete_unbonding_inv s a s' :
  stk_inv s -> finalize_inactive_if_complete a s = (Ok tt, s') -> stk_inv s' /\ queue s' = queue s.
Proof.
  intros Hi Hrun. unfold finalize_inactive_if_complete in Hrun. minv_all; try done.
  match goal with H : on_validators _ _ = _ |- _ => apply on_validators_ok in H as (v & Hrun & ->) end.
  split; [|done]. destruct Hi as [Hb Hm]. split; [by apply books_registry|].
  by eapply (registry_call_inv (SystemCall (mkEnv 0 0 0) (CompleteUnbonding a))).
Qed.

Lemma books_native s e n e' :
  books s e -> (forall a, 0 <= n.[a] <= u256_max) ->
  e' - e <= n.[STAKING_ADDRESS] - (native s).[STAKING_ADDRESS] ->
  books (s <| native := n |>) e'.
Proof. intros [Hq Hs Ht Hsol Hn] Hn' He. constructor; simpl; try done. lia. Qed.

Lemma mirrored_frame s s' P :
  mirrored_but s P -> validators s' = validators s -> stake_amount s' = stake_amount s ->
  mirrored_but s' P.
Proof. intros [Hv Hm] E1 E2. unfold mirrored_but. rewrite E1, E2. by split. Qed.

(** Value that leaves the queue is paid out of the contract. *)
Lemma pay_books s amount to s' :
  books s amount -> 0 <= amount ->
  (if amount =? 0 then mret tt else transfer_balance STAKING_ADDRESS to amount) s = (Ok tt, s') ->
  books s' 0 /\ exists n, s' = s <| native := n |>
    /\ (to <> STAKING_ADDRESS -> n.[to] = (native s).[to] + amount).
Proof.
  intros Hb Ha Hrun. destruct (Z.eqb_spec amount 0) as [->|H0]; minv.
  { split; [done|]. exists (native s). split; [by destruct s|lia]. }
  apply transfer_inv in Hrun as (n & -> & Heq & _ & Hn & Hr); [|done]. simpl in *.
  split.
  - eapply books_native; [done|exact (Hr (bk_native _ _ Hb))|].
    destruct (decide (STAKING_ADDRESS = to)) as [<-|Hne].
    + specialize (Heq (or_intror eq_refl)). apply (f_equal native) in Heq. simpl in Heq. rewrite Heq. lia.
    + rewrite (Hn Hne), decide_True, decide_False by done. lia.
  - exists n. split; [done|]. intros Hne.
    rewrite (Hn (not_eq_sym Hne)), decide_False, decide_True by done. lia.
Qed.

Lemma claim_unbonded_inv env s caller s' :
  stk_inv s -> claim_unbonded env caller s = (Ok tt, s') -> stk_inv s'.
Proof.
  intros [Hb Hm] Hrun. unfold claim_unbonded in Hrun. minv.
  match goal with H : on_queue _ _ = _ |- _ => apply on_queue_ok in H as (q & Hq & ->) end.
  destruct (bk_queue _ _ Hb) as [Q HQ].
  destruct (books_bounds _ _ Hb ltac:(lia)) as (Hs & Hq0 & Hu).
  pose proof (bk_total _ _ Hb). pose proof (map_sum_nonneg _ (bk_stake _ _ Hb)).
  destruct (claim_entries_ok _ Q (timestamp env) caller HQ ltac:(lia))
    as (q' & Hrun & HQ' & Hsum & _). rewrite Hrun in Hq. simplify_eq.
  pose proof (amounts_nonneg _ _ HQ (mature (queue s) (timestamp env) (Q caller))).
  match goal with H : (if _ then _ else _) _ = (Ok tt, _) |- _ => apply pay_books in H as (Hb' & n & -> & _) end.
  - match goal with H : finalize_inactive_if_complete _ _ = _ |- _ =>
      apply complete_unbonding_inv in H as [Hi _]; [done|] end.
    split; [done|]. by eapply mirrored_frame.
  - eapply books_queue; [done|by eexists|]. lia.
  - done.
Qed.

Lemma burn_ok s amount s' :
  books s amount -> 0 <= amount ->
  (if amount =? 0 then mret tt else decrease_balance STAKING_ADDRESS amount) s = (Ok tt, s') ->
  books s' 0 /\ exists n, s' = s <| native := n |>
    /\ n.[STAKING_ADDRESS] = (native s).[STAKING_ADDRESS] - amount
    /\ forall a, a <> STAKING_ADDRESS -> n.[a] = (native s).[a].
Proof.
  intros Hb Ha Hrun. destruct (Z.eqb_spec amount 0) as [->|H0]; minv.
  { split; [done|]. exists (native s). split_and!; [by destruct s|lia|done]. }
  apply decrease_inv in Hrun as (n & -> & _ & Hn & Hr); [|done]. simpl in *. split.
  - eapply books_native; [done|exact (Hr (bk_native _ _ Hb))|].
    rewrite Hn, decide_True by done. lia.
  - exists n. split_and!; [done|by rewrite Hn, decide_True|].
    intros a Hne. rewrite Hn, decide_False by done. lia.
Qed.

Lemma mirrored_weaken s (P P' : Address -> Prop) :
  mirrored_but s P -> (forall b, P b -> P' b) -> mirrored_but s P'.
Proof. intros [Hv Hm] HP. split; [done|]. intros b Hb. apply Hm. auto. Qed.

(** Taking [slash] from the bonded stake of one validator. *)
Definition bonded_cut (s s' : Staking) (a : Address) (slash : Z) : Prop :=
  exists m t, s' = s <| stake_amount := m |> <| total_staked := t |>
    /\ t = total_staked s - slash
    /\ forall b, m.[b] = if decide (b = a) then (stake_amount s).[a] - slash else (stake_amount s).[b].

Lemma slash_bonded_ok s a percent r s' :
  stk_inv s -> 0 <= percent <= 100 ->
  (if (stake_amount s).[a] =? 0 then mret 0
   else
     let slash := wrapping_mul u256_max (stake_amount s).[a] percent / 100 in
     wr stake_amount a (wrapping_sub u256_max (stake_amount s).[a] slash) ;;;
     let! total := gets total_staked in
     modify (fun s => s <| total_staked := wrapping_sub u256_max total slash |>) ;;;
     mret (wrapping_add u256_max 0 slash)) s = (Ok r, s') ->
  r = slash_of percent (stake_amount s).[a] /\ bonded_cut s s' a r
  /\ books s' r /\ mirrored_but s' (eq a) /\ 0 <= r.
Proof.
  intros [Hb Hm] Hp Hrun. destruct (books_bounds _ _ Hb ltac:(lia)) as (Hs & Hq & Hu).
  pose proof (Hs a) as Ha.
  assert (Hsl : 0 <= slash_of percent (stake_amount s).[a] <= (stake_amount s).[a])
    by (apply slash_of_bounds; lia).
  destruct (Z.eqb_spec (stake_amount s).[a] 0) as [H0|H0]; cbv zeta in Hrun; minv.
  - rewrite H0, slash_of_zero in *. split_and!; try done.
    + exists (stake_amount s), (total_staked s). split_and!; [by destruct s|lia|].
      intros b. case_decide; [subst; lia|done].
    + eapply mirrored_weaken; [exact Hm|tauto].
  - fold (slash_of percent (stake_amount s).[a]). simpl in *.
    rewrite !wrapping_sub_small, wrapping_add_small by lia. rewrite Z.add_0_l.
    split_and!; try done; [|..|lia].
    + eexists _, _. split_and!; [reflexivity|done|]. intros b. rewrite mread_mwrite.
      repeat case_decide; subst; done.
    + assert (Hv : 0 <= (stake_amount s).[a] - slash_of percent (stake_amount s).[a]) by lia.
      pose proof (books_stake s 0 a _ Hb Hv) as Hbs. eapply books_weaken.
      * replace (total_staked s - slash_of percent (stake_amount s).[a])
          with (total_staked s - (stake_amount s).[a]
                + ((stake_amount s).[a] - slash_of percent (stake_amount s).[a])) by lia. exact Hbs.
      * lia.
    + by apply mirrored_write.
Qed.

(** A slash, on every part of the state it touches. *)
Lemma slash_stake_ok env s a percent Q r s' :
  stk_inv s -> queue_rep (queue s) Q -> 0 <= percent ->
  slash_stake env a percent s = (Ok r, s') ->
  percent <= 100
  /\ r = slash_of percent (stake_amount s).[a] + slash_total (queue s) percent (Q a)
  /\ stk_inv s'
  /\ (forall b, (stake_amount s').[b] = (stake_amount s).[b]
        - (if decide (b = a) then slash_of percent (stake_amount s).[a] else 0))
  /\ total_staked s' = total_staked s - slash_of percent (stake_amount s).[a]
  /\ (exists time, slashed (queue s) (queue s') percent time (Q a))
  /\ queued (queue s') = queued (queue s) - slash_total (queue s) percent (Q a)
  /\ (native s').[STAKING_ADDRESS] = (native s).[STAKING_ADDRESS] - r
  /\ (forall b, b <> STAKING_ADDRESS -> (native s').[b] = (native s).[b]).
Proof.
  intros Hi HQ Hp Hrun. unfold slash_stake in Hrun. minv. bprop.
  destruct (books_bounds _ _ (proj1 Hi) ltac:(lia)) as (Hs & Hq & Hu).
  match goal with H : (if (stake_amount s).[a] =? 0 then _ else _) _ = _ |- _ =>
    apply slash_bonded_ok in H as (-> & (m & t & -> & -> & Hm) & Hb2 & Hm2 & Hr); [|done|lia] end.
  match goal with H : on_queue _ _ = _ |- _ => apply on_queue_ok in H as (q & Hq' & ->) end.
  destruct (books_bounds _ _ Hb2 Hr) as (Hs2 & Hq2 & Hu2). simpl in *.
  pose proof (Hs2 a) as Ha2.
  destruct (slash_entries_ok (queue s) Q percent x3 a (slash_of percent (stake_amount s).[a]) HQ
    ltac:(lia) Hr ltac:(lia)) as (q' & Hrun & HQ' & Hsl & Hsum). rewrite Hrun in Hq'. simplify_eq.
  match goal with H : (if _ then _ else _) _ = (Ok tt, _) |- _ =>
    apply burn_ok in H as (Hb3 & n & -> & Hn & Hn2) end.
  2: { eapply books_queue; [exact Hb2|by eexists|]. simpl. lia. }
  2: { pose proof (slash_total_nonneg _ _ percent (Q a) HQ ltac:(lia) ltac:(lia)). lia. }
  match goal with H : on_validators _ _ = _ |- _ => apply on_validators_ok in H as (v & Hv & ->) end.
  simpl in *. split_and!; try done.
  - split; [by apply books_registry|].
    eapply (registry_record (SystemCall (vs_env env) (RecordStakeSlash a _ _ None)) _ v a);
      [|done| |exact Hv]; [by eapply mirrored_frame; [exact Hm2|..]|done].
  - intros b. rewrite Hm. case_decide; [subst|]; lia.
  - by eexists.
Qed.

Lemma ocomp_miss_inv env s a r s' :
  stk_inv s -> staking_record_ocomp_miss env a s = (Ok r, s') ->
  stk_inv s' /\ 0 <= slashed_bonded r
  /\ (slashed_bonded r = if first_in_window r then (stake_amount s).[a] / 10 else 0)
  /\ (stake_amount s').[a] = (stake_amount s).[a] - slashed_bonded r
  /\ queue s' = queue s.
Proof.
  intros Hi Hrun. unfold staking_record_ocomp_miss in Hrun. minv.
  match goal with H : on_validators (record_ocomp_miss _ _) _ = _ |- _ =>
    apply on_validators_ok in H as (v & Hmiss & ->) end.
  assert (Hi1 : stk_inv (s <| validators := v |>)).
  { apply registry_step_inv with (c := SystemCall (vs_env env) (RecordOcompMiss a)); try done.
    simpl. unfold discard, mbind. by rewrite Hmiss. }
  destruct (miss_parts x) as [[first count] deadline]. minv.
  destruct first; minv; simpl.
  2: { split_and!; try done; lia. }
  bprop. unfold OCOMP_MISS_SLASH_PERCENT in *. simpl in *.
  destruct (books_bounds _ _ (proj1 Hi1) ltac:(lia)) as (Hs & Hq & Hu). simpl in *.
  pose proof (Hs a) as Ha. set (slash := (stake_amount s).[a] / 10) in *.
  assert (Hsl : 0 <= slash <= (stake_amount s).[a]).
  { unfold slash. split; [apply Z.div_pos; lia|apply Z.div_le_upper_bound; lia]. }
  rewrite !wrapping_sub_small in * by lia.
  match goal with H : (if _ then _ else _) _ = (Ok tt, _) |- _ =>
    apply burn_ok in H as (Hb3 & n & -> & Hn & _) end.
  2: { assert (Hv : 0 <= (stake_amount s).[a] - slash) by lia.
       pose proof (books_stake _ 0 a _ (proj1 Hi1) Hv) as Hbs. eapply books_weaken.
       - simpl in Hbs. replace (total_staked s - (stake_amount s).[a] + ((stake_amount s).[a] - slash))
           with (total_staked s - slash) in Hbs by lia. exact Hbs.
       - lia. }
  2: { lia. }
  match goal with H : on_validators _ _ = _ |- _ => apply on_validators_ok in H as (v' & Hv & ->) end.
  simpl in *. rewrite mread_mwrite_eq. split_and!; try done; [|lia]. split; [by apply books_registry|].
  eapply (registry_record (SystemCall (vs_env env) (RecordOcompBondedSlash a _)) _ v' a);
    [|done| |exact Hv].
  - eapply mirrored_frame;
      [apply (mirrored_write (s <| validators := v |>) a ((stake_amount s).[a] - slash)
                (total_staked s - slash)), (proj2 Hi1)|done|done].
  - simpl. by rewrite mread_mwrite_eq.
Qed.

Lemma resolve_window_inv a d b o s v :
  stk_inv s -> resolve_ocomp_recovery_window a d b o (validators s) = (Ok tt, v) ->
  stk_inv (s <| validators := v |>).
Proof.
  intros Hi Hrun.
  by apply (registry_step_inv (SystemCall (mkEnv 0 0 0) (ResolveOcompWindow a d b o))).
Qed.
Lemma punish_inv env a r s v :
  stk_inv s -> punish_validator env a true (validators s) = (Ok r, v) ->
  stk_inv (s <| validators := v |>).
Proof.
  intros Hi Hrun. apply (registry_step_inv (SystemCall env (JailValidator a))); try done.
  simpl. unfold jail_validator, mbind. by rewrite Hrun.
Qed.

Lemma resolve_due_inv env s a r s' :
  stk_inv s -> resolve_due_ocomp_recovery_window env a s = (Ok r, s') ->
  stk_inv s' /\ queue s' = queue s.
Proof.
  intros Hi Hrun. unfold resolve_due_ocomp_recovery_window in Hrun. minv_all; try done;
    repeat match goal with H : on_validators _ _ = _ |- _ =>
      apply on_validators_ok in H as (? & ? & ->) end; simpl in *; (split; [|done]).
  - by eapply resolve_window_inv.
  - by eapply resolve_window_inv.
  - eapply (resolve_window_inv _ _ _ _ (s <| validators := _ |>)); [|eassumption].
    by eapply punish_inv.
Qed.

Lemma sweep_windows_inv env l : forall s sweep r s',
  stk_inv s -> sweep_windows env l sweep s = (Ok r, s') -> stk_inv s' /\ queue s' = queue s.
Proof.
  induction l as [|a l IH]; intros s sweep r s' Hi Hrun; simpl in Hrun; minv; [done|].
  destruct (ocomp_recovery_window (validators s) a); [|by eapply IH].
  destruct sweep. minv.
  match goal with H : resolve_due_ocomp_recovery_window _ _ _ = _ |- _ =>
    apply resolve_due_inv in H as [Hi1 Hq1]; [|done] end.
  rewrite <- Hq1. by eapply IH.
Qed.

Lemma close_windows_inv env s r s' :
  stk_inv s -> close_due_ocomp_recovery_windows env s = (Ok r, s') -> stk_inv s' /\ queue s' = queue s.
Proof.
  intros Hi Hrun. unfold close_due_ocomp_recovery_windows in Hrun. minv. by eapply sweep_windows_inv.
Qed.

Lemma drain_inv env a s s' :
  stk_inv s -> unbonding_count (queue s) < u32_max -> drain_validator env a s = (Ok tt, s') ->
  stk_inv s' /\ unbonding_count (queue s') <= unbonding_count (queue s) + 1.
Proof.
  intros Hi Hroom Hrun. unfold drain_validator in Hrun. minv.
  destruct (lifecycle x) eqn:Hl; minv; try (split; [done|lia]).
  destruct (Z.eqb_spec (stake_amount s).[a] 0); minv.
  { match goal with H : finalize_inactive_if_complete _ _ = _ |- _ =>
      apply complete_unbonding_inv in H as [Hi' ->]; [|done] end. split; [done|lia]. }
  match goal with H : (if 0 <? _ then _ else _) ?s0 = (Ok _, ?s1) |- _ =>
    assert (s1 = s0) as -> by (eapply ro_run; [|exact H]; solve_ro) end.
  match goal with H : on_validators _ _ = _ |- _ => apply on_validators_ok in H as (v & Hv & ->) end.
  match goal with H : on_queue _ _ = _ |- _ => apply on_queue_ok in H as (q & Henq & ->) end.
  destruct (books_bounds _ _ (proj1 Hi) ltac:(lia)) as (Hs & Hq & Hu). pose proof (Hs a) as Ha.
  simpl in *. rewrite wrapping_sub_small by lia.
  pose proof (release_inv (vs_env env) s a (stake_amount s).[a] x6 0 q v Hi) as Hrel.
  rewrite Z.sub_diag in Hrel. destruct Hrel as [Hi' Hc]; [lia|done|done|done|].
  split; [exact Hi'|lia].
Qed.

Lemma drain_all_inv env l : forall s s',
  stk_inv s -> unbonding_count (queue s) + Z.of_nat (length l) <= u32_max ->
  mfor l (drain_validator env) s = (Ok tt, s') -> stk_inv s'.
Proof.
  induction l as [|a l IH]; intros s s' Hi Hroom Hrun; cbn [mfor] in Hrun; minv; [done|].
  simpl in Hroom.
  match goal with H : drain_validator _ _ _ = _ |- _ =>
    apply drain_inv in H as [Hi1 Hc]; [|done|lia] end.
  eapply IH; [done| |eassumption]. lia.
Qed.

(** Room for the entries a call can add: one for each registered validator. *)
Definition has_room (s : Staking) : Prop :=
  unbonding_count (queue s) + validator_count (validators s) < u32_max.

Lemma process_unbonding_inv env s s' :
  stk_inv s -> has_room s -> process_unbonding env s = (Ok tt, s') -> stk_inv s'.
Proof.
  intros Hi Hroom Hrun. unfold process_unbonding in Hrun. minv.
  destruct Hi as [Hb [[L Hr] Hm]].
  match goal with H : registered_validator_addresses _ = Ok _ |- _ =>
    rewrite (rep_addresses _ _ (vr_core _ _ Hr)) in H; apply Ok_inj in H; subst x end.
  match goal with H : mfor _ _ _ = (Ok _, ?s1) |- _ => apply drain_all_inv in H as [Hb1 Hm1] end.
  - destruct (bk_queue _ _ Hb1) as [Q HQ]. split; [|by eapply mirrored_frame].
    eapply books_queue; [exact Hb1|exists Q; by apply trim_rep|done].
  - split; [done|]. split; [by exists L|done].
  - unfold registry, has_room in *. rewrite length_fmap, length_seqZ.
    pose proof (cr_count _ _ _ (vr_core _ _ Hr)). lia.
Qed.

(** * Every call *)

(** Calls of the whole system: Staking's own surface, and the registry calls
    that are not stake records (those are made by Staking alone). *)
Inductive SysCall : Type :=
  | StakingUser (env : StakingEnv) (caller : Address) (value : Z) (c : StakingUserCall)
  | StakingSystem (env : StakingEnv) (c : StakingSystemCall)
  | RegistryCall (c : VsCall).

Definition sys_run (c : SysCall) : SM unit :=
  match c with
  | StakingUser env caller value c => staking_dispatch env caller value c
  | StakingSystem env c => staking_system env c
  | RegistryCall c => on_validators (run_call c)
  end.

(** Unsigned arguments; the contract does not call itself. *)
Definition sys_wf (c : SysCall) : Prop :=
  match c with
  | StakingUser _ caller value c => caller <> STAKING_ADDRESS /\ 0 <= value
      /\ match c with unstakeCall amount => 0 <= amount | _ => True end
  | StakingSystem _ (SlashStake _ percent) => 0 <= percent
  | StakingSystem _ _ => True
  | RegistryCall c => wf_call c /\ call_stake c = None
  end.

Definition sys_exec (s s' : Staking) : Prop :=
  exists c, sys_wf c /\ has_room s /\ sys_run c s = (Ok tt, s').

Lemma has_room_queue s : stk_inv s -> has_room s -> unbonding_count (queue s) < u32_max.
Proof.
  intros [_ [[L Hr] _]] Hroom. unfold has_room in Hroom.
  pose proof (cr_count _ _ _ (vr_core _ _ Hr)). lia.
Qed.

Lemma dispatch_inv env caller value c s s' :
  stk_inv s -> sys_wf (StakingUser env caller value c) -> has_room s ->
  staking_dispatch env caller value c s = (Ok tt, s') -> stk_inv s'.
Proof.
  intros Hi (Hc & Hv & Hwf) Hroom Hrun. unfold staking_dispatch in Hrun. minv.
  match goal with H : transfer_balance _ _ _ _ = _ |- _ => rename H into Ht end.
  apply transfer_inv in Ht as (n & -> & Hsame & _ & Hn & Hr); [|done]. cbn [native_of set_native Staking_native] in *.
  specialize (Hn Hc). destruct Hi as [Hb Hm].
  assert (Hb1 : books (s <| native := n |>) value).
  { eapply books_native; [exact Hb|exact (Hr (bk_native _ _ Hb))|].
    rewrite Hn, decide_False, decide_True by done. lia. }
  assert (Hm1 : mirrored_but (s <| native := n |>) (fun _ => False)) by by eapply mirrored_frame.
  assert (Hi1 : stk_inv (s <| native := n |>)) by (split; [by eapply books_weaken|done]).
  destruct c; minv; bprop; subst.
  - by eapply staking_stake_inv.
  - eapply unstake_inv; [exact Hi1|done| |eassumption]. by apply (has_room_queue (s <| native := n |>)).
  - by eapply claim_unbonded_inv.
  - unfold unjail_validator in *. minv.
    match goal with H : on_validators _ _ = _ |- _ => apply on_validators_ok in H as (v & Hrun & ->) end.
    by apply (registry_step_inv (SystemCall (vs_env env) (Unjail caller))).
Qed.

Lemma sys_exec_inv s s' : sys_exec s s' -> stk_inv s -> stk_inv s'.
Proof.
  intros (c & Hwf & Hroom & Hrun) Hi. destruct c as [env caller value c|env c|c]; simpl in Hrun.
  - by eapply dispatch_inv.
  - destruct (bk_queue _ _ (proj1 Hi)) as [Q HQ].
    destruct c; simpl in Hrun; minv.
    + by eapply (slash_stake_ok _ _ _ _ Q).
    + by eapply ocomp_miss_inv.
    + by eapply resolve_due_inv.
    + by eapply close_windows_inv.
    + by eapply process_unbonding_inv.
  - apply on_validators_ok in Hrun as (v & Hrun & ->). destruct Hwf. by eapply registry_step_inv.
Qed.
Lemma sys_path_inv s s' : rtc sys_exec s s' -> stk_inv s -> stk_inv s'.
Proof. induction 1 as [|s1 s2 s3 H12 _ IH]; [done|]. intros Hi. by apply IH, (sys_exec_inv s1). Qed.
End Books.
