(* ===== verification/StakingProps.v ===== *)
(** Properties of Staking together with the validator registry: the books
    balance over every sequence of calls, claims pay exactly what has matured,
    and slashing takes its share and no more. *)

From stdpp Require Import functions.
From S2P Require Import Prelude Bytes P2pAddress Native Lifecycle.
From S2P Require Import ValidatorSet ValidatorSetInv ValidatorSetMoves ValidatorSetProps ValidatorSetStake.
From S2P Require Import Staking StakingQueue StakingInv.

(** The unbonding entries of a validator, in list order. *)
Fixpoint entries_from (fuel : nat) (q : UnbondingQueue) (stored : Z) : list Z :=
  match fuel with
  | O => []
  | S fuel' => if stored =? 0 then []
               else (stored - 1) :: entries_from fuel' q (unbonding_next q).[stored - 1]
  end.
Definition unbonding_entries (q : UnbondingQueue) (v : Address) : list Z :=
  entries_from (walk_fuel q) q (per_val_unbonding_head q).[v].

(** What a claim at [now] pays the validator. *)
Definition claimable (q : UnbondingQueue) (now : Z) (v : Address) : Z :=
  amounts q (mature q now (unbonding_entries q v)).

Section Props.
Context {X : Externals}.

(** The bonded stake the registry has on record. *)
Definition registry_bond (s : Staking) (a : Address) : result Z :=
  let? l := validator_lifecycle (validators s) a in Ok (bonded_of l).

Lemma entries_from_ok q l : forall fuel stored,
  linked (unbonding_next q) stored l -> (forall i, i ∈ l -> 0 <= i) -> (length l < fuel)%nat ->
  entries_from fuel q stored = l.
Proof.
  induction l as [|i l IH]; intros [|fuel] stored Hl Hpos Hf; simpl in *; try lia.
  - by subst.
  - destruct Hl as [-> Hl]. pose proof (Hpos i ltac:(left)).
    rewrite (proj2 (Z.eqb_neq (i + 1) 0)) by lia. replace (i + 1 - 1) with i by lia.
    f_equal. apply IH; [done| |lia]. intros j Hj. apply Hpos. by right.
Qed.
Lemma entries_ok q Q v : queue_rep q Q -> unbonding_entries q v = Q v.
Proof.
  intros Hq. apply entries_from_ok; [apply (qr_linked _ _ Hq)| |by apply list_fuel].
  intros i Hi. pose proof (qr_entry _ _ Hq v i Hi). lia.
Qed.

(** A drained UNBONDING validator always completes. *)
Lemma complete_unbonding_runs s L a x :
  vs_rep s L -> L a = Unbonding x -> bonded (stake x) = 0 ->
  exists s', vs_complete_unbonding a s = (Ok tt, s').
Proof.
  intros Hr HL Hb. destruct (cr_valid _ _ _ (vr_core _ _ Hr) a) as [Hv Hwf]. rewrite HL in *.
  unfold vs_complete_unbonding, mbind at 1, reads.
  rewrite (rep_state _ _ _ _ (vr_core _ _ Hr)), HL. simpl.
  change (bonded_stake (mkState a (Unbonding x))) with (bonded (stake x)). rewrite Hb.
  set (l := Inactive (mkInactive (registry_index x) (consensus_pubkey x) (p2p x) (history x))).
  assert (Hvl : lifecycle_validate l = Ok tt).
  { apply valid_validate. destruct Hv as (Hk & _ & Hh). split_and!; [exact Hk|done|exact Hh]. }
  assert (Hw : with_lifecycle (mkState a (Unbonding x)) l = Ok (mkState a l)).
  { unfold with_lifecycle, from_lifecycle, state_validate. simpl. by rewrite Hvl. }
  destruct (runs_checkpoint _ (persist_runs a (Unbonding x) l (valid_validate _ Hv) Hvl
    ltac:(done) eq_refl eq_refl) s) as ([] & s' & Hrun).
  exists s'. unfold mbind, lift. simpl. fold l. by rewrite Hw.
Qed.

Lemma finalize_runs s a :
  stk_inv s -> exists s', finalize_inactive_if_complete a s = (Ok tt, s') /\ native s' = native s
    /\ queue s' = queue s.
Proof.
  intros [Hb [[L Hr] Hm]]. destruct (bk_queue _ _ Hb) as [Q HQ].
  unfold finalize_inactive_if_complete, mbind at 1 2, reads at 1, gets.
  rewrite (rep_lifecycle _ _ _ _ (vr_core _ _ Hr)). destruct (L a) as [| | | | | | | |x|] eqn:HL;
    try by (eexists; split).
  destruct (Z.eqb_spec (stake_amount s).[a] 0) as [H0|H0]; [|by (eexists; split)].
  unfold mbind, reads. rewrite (has_pending_ok _ Q) by done. destruct (live _ _); [by (eexists; split)|].
  assert (Hz : bonded (stake x) = 0).
  { pose proof (rep_stake _ _ a Hr) as Hs. rewrite HL in Hs. unfold bonded_of in Hs. simpl in Hs.
    rewrite <- Hs, Hm by tauto. done. }
  destruct (complete_unbonding_runs _ L a x Hr HL Hz) as [v Hv].
  unfold on_validators, zoom. rewrite Hv. by eexists.
Qed.

(** * Properties *)

(** C19. The books of Staking balance: after any sequence of staking and registry
    calls the stakes add up to the recorded total, the contract holds at least
    the native value of all bonded stake and all queued claims, and the registry
    mirrors the bonded stake of every validator. *)
Theorem staking_books_balance s0 s :
  stk_inv s0 -> rtc sys_exec s0 s ->
  total_staked s = map_sum (stake_amount s)
  /\ total_staked s + queued (queue s) <= (native s).[STAKING_ADDRESS]
  /\ (forall a, registry_bond s a = Ok (stake_amount s).[a]).
Proof.
  intros H0 Hpath. destruct (sys_path_inv _ _ Hpath H0) as [[_ _ Ht Hsol _] [[L Hr] Hm]].
  split_and!; [done|lia|]. intros a. unfold registry_bond.
  rewrite (rep_lifecycle _ _ _ _ (vr_core _ _ Hr)). simpl.
  rewrite <- (rep_stake _ _ _ Hr), Hm by tauto. done.
Qed.

(** C20. A claim always goes through, unless the credit would overflow the
    caller's balance: it pays exactly the matured entries of the caller, keeps
    the other entries in order and leaves every other validator's entries. *)
Theorem claim_pays_matured env caller s :
  stk_inv s -> caller <> STAKING_ADDRESS ->
  (native s).[caller] + claimable (queue s) (timestamp env) caller <= u256_max ->
  exists s', claim_unbonded env caller s = (Ok tt, s')
    /\ (native s').[caller] = (native s).[caller] + claimable (queue s) (timestamp env) caller
    /\ unbonding_entries (queue s') caller =
         immature (queue s) (timestamp env) (unbonding_entries (queue s) caller)
    /\ (forall v, v <> caller -> unbonding_entries (queue s') v = unbonding_entries (queue s) v)
    /\ (forall v i, i ∈ unbonding_entries (queue s') v ->
          (unbonding_amount (queue s')).[i] = (unbonding_amount (queue s)).[i]).
Proof.
  intros Hi Hne Hcap. pose proof Hi as [Hb Hm]. destruct (bk_queue _ _ Hb) as [Q HQ].
  unfold claimable in *. rewrite (entries_ok _ Q) in * by done.
  destruct (books_bounds _ _ Hb ltac:(lia)) as (Hs & Hq0 & Hu).
  assert (Htot : 0 <= total_staked s) by (rewrite (bk_total _ _ Hb); apply map_sum_nonneg, (bk_stake _ _ Hb)).
  destruct (claim_entries_ok _ Q (timestamp env) caller HQ ltac:(lia))
    as (q & Hrun & HQ' & Hsum & Hcount & Ham & _).
  set (paid := amounts (queue s) (mature (queue s) (timestamp env) (Q caller))) in *.
  assert (Hpaid : 0 <= paid) by by eapply amounts_nonneg.
  assert (Hb1 : books (s <| queue := q |>) paid) by (eapply books_queue; [done|by eexists|lia]).
  assert (Hpay : exists s1,
    (if paid =? 0 then mret tt else transfer_balance STAKING_ADDRESS caller paid) (s <| queue := q |>)
      = (Ok tt, s1)).
  { destruct (Z.eqb_spec paid 0) as [_|Hp0]; [by eexists|]. apply transfer_succeeds; simpl; try done; [lia|].
    pose proof (queued_nonneg _ _ HQ'). pose proof (bk_solvent _ _ Hb). lia. }
  destruct Hpay as [s1 Hpay]. destruct (pay_books _ _ _ _ Hb1 Hpaid Hpay) as (Hb2 & n & -> & Hn).
  destruct (finalize_runs (s <| queue := q |> <| native := n |>) caller) as (s' & Hfin & En & Eq).
  { split; [done|]. by eapply mirrored_frame. }
  exists s'. simpl in *. rewrite En, Eq. split_and!.
  - unfold claim_unbonded, mbind at 1, on_queue, zoom. rewrite Hrun. unfold mbind. by rewrite Hpay.
  - by apply Hn.
  - rewrite (entries_ok _ _ _ HQ'). by rewrite fn_lookup_insert.
  - intros v Hv. rewrite (entries_ok _ _ _ HQ'), (entries_ok _ Q) by done.
    by rewrite fn_lookup_insert_ne.
  - intros v i. rewrite (entries_ok _ _ _ HQ'), Ham. intros Hin. rewrite decide_False; [done|].
    intros Hmat. destruct (decide (caller = v)) as [<-|Hv].
    + rewrite fn_lookup_insert in Hin. by apply (immature_disjoint _ _ _ _ Hin).
    + rewrite fn_lookup_insert_ne in Hin by done. apply Hv.
      by eapply (entry_owner _ _ HQ); [eapply mature_elem|].
Qed.

(** Slashing takes its percentage of the bonded stake and of each unbonding
    entry, rounded down, and no more: the returned total is what leaves the
    stake, the entries and the contract's balance, and no other stake changes. *)
Theorem slash_takes_its_share env a percent s r s' :
  stk_inv s -> 0 <= percent ->
  (stake_amount s).[a] * 100 <= u256_max ->
  (forall i, (unbonding_amount (queue s)).[i] * 100 <= u256_max) ->
  slash_stake env a percent s = (Ok r, s') ->
  percent <= 100
  /\ (forall b, (stake_amount s').[b] = (stake_amount s).[b]
        - (if decide (b = a) then (stake_amount s).[a] * percent / 100 else 0))
  /\ (forall i, (unbonding_amount (queue s')).[i] = (unbonding_amount (queue s)).[i]
        - (if decide (i ∈ unbonding_entries (queue s) a)
           then (unbonding_amount (queue s)).[i] * percent / 100 else 0))
  /\ r = (total_staked s - total_staked s') + (queued (queue s) - queued (queue s'))
  /\ (native s').[STAKING_ADDRESS] = (native s).[STAKING_ADDRESS] - r.
Proof.
  intros Hi Hp Hs100 Hq100 Hrun. destruct (bk_queue _ _ (proj1 Hi)) as [Q HQ].
  rewrite (entries_ok _ Q) by done.
  destruct (slash_stake_ok env s a percent Q r s' Hi HQ Hp Hrun)
    as (Hp100 & -> & _ & Hst & Htot & (time & [_ Ham _]) & Hsum & Hn & _).
  assert (Hexact : forall x, 0 <= x -> x * 100 <= u256_max -> slash_of percent x = x * percent / 100).
  { intros x Hx Hx100. unfold slash_of, wrapping_mul. rewrite Z.mod_small by nia. done. }
  pose proof (bk_stake _ _ (proj1 Hi) a). rewrite (Hexact (stake_amount s).[a]) in * by done.
  split_and!; try done.
  - intros i. rewrite Ham. case_decide; [|lia]. rewrite Hexact; [done|apply (qr_amount _ _ HQ)|apply Hq100].
  - lia.
Qed.
End Props.

(** * Witnesses

    A system that two validators join, stake in and activate; the first then
    unstakes a part. *)

Section Runs.
Context {X : Externals}.

Fixpoint run_all (calls : list SysCall) (s : Staking) : option Staking :=
  match calls with
  | [] => Some s
  | c :: rest =>
      if unbonding_count (queue s) + validator_count (validators s) <? u32_max then
        match sys_run c s with (Ok _, s') => run_all rest s' | _ => None end
      else None
  end.

Lemma run_all_exec calls : forall s s',
  Forall sys_wf calls -> run_all calls s = Some s' -> rtc sys_exec s s'.
Proof.
  induction calls as [|c calls IH]; intros s s' Hwf Hrun; simpl in Hrun; [by simplify_eq|].
  apply Forall_cons in Hwf as [Hc Hwf].
  destruct (Z.ltb_spec (unbonding_count (queue s) + validator_count (validators s)) u32_max) as [Hr|];
    [|done].
  destruct (sys_run c s) as [[[]| |] s1] eqn:Hs; try done.
  eapply rtc_l; [by exists c|by apply IH].
Qed.

Lemma empty_books owner max epoch rereg cooldown min period pct delay n :
  (forall a, 0 <= n.[a] <= u256_max) ->
  stk_inv (mkStaking min period pct delay ∅ 0 (mkQueue 0 ∅ ∅ ∅ ∅ ∅)
             (vs_empty owner max epoch rereg cooldown) n).
Proof.
  intros Hn. split.
  - constructor; simpl; try done.
    + exists (fun _ => []). constructor; simpl; intros; rewrite ?mread_empty in *; try done;
        first [apply NoDup_nil_2|by match goal with Hi : _ ∈ [] |- _ => apply elem_of_nil in Hi end].
    + change (queued (mkQueue 0 ∅ ∅ ∅ ∅ ∅)) with 0. pose proof (Hn STAKING_ADDRESS). lia.
  - split; [apply vs_empty_inv|]. intros b _. unfold stake_of. simpl. by rewrite !mread_empty.
Qed.
End Runs.

#[local] Existing Instance sample_externals.

Definition sample_start : Staking :=
  mkStaking 100 7 0 0 ∅ 0 (mkQueue 0 ∅ ∅ ∅ ∅ ∅) sample_genesis
    (∅ : gmap Address Z).[10 <- 1000].[11 <- 1000].
Definition at_time (n : Z) : StakingEnv := mkStakingEnv (at_block n) n.
Definition staking_calls (a b : Z) : list SysCall :=
  [ RegistryCall (UserCall (at_block 1) 1 0 (registerValidator a (sample_key b) (b + 1000) (sample_sig b)));
    StakingUser (at_time 2) a 500 (stakeCall a 500);
    RegistryCall (UserCall (at_block 3) a 0 (confirmValidatorReady [5; 99; a + b; b])) ].
Definition sample_calls : list SysCall :=
  staking_calls 10 7 ++ staking_calls 11 8 ++
  [ RegistryCall (sample_boundary [10; 11] 5); StakingUser (at_time 20) 10 0 (unstakeCall 200) ].
Definition sample_staked : Staking := default sample_start (run_all sample_calls sample_start).

Lemma sample_start_inv : stk_inv sample_start.
Proof.
  apply empty_books. intros a. rewrite !mread_mwrite, mread_empty.
  repeat case_decide; vm_compute; by split.
Qed.
Lemma sample_staked_path : rtc sys_exec sample_start sample_staked.
Proof.
  apply (run_all_exec sample_calls).
  - repeat constructor; done.
  - unfold sample_staked.
    assert (Hs : is_Some (run_all sample_calls sample_start)) by (vm_compute; by eexists).
    by destruct Hs as [s' ->].
Qed.
Lemma sample_staked_inv : stk_inv sample_staked.
Proof. eapply sys_path_inv; [apply sample_staked_path|apply sample_start_inv]. Qed.

Lemma staking_books_balance_witness :
  total_staked sample_staked = map_sum (stake_amount sample_staked)
  /\ total_staked sample_staked + queued (queue sample_staked)
       <= (native sample_staked).[STAKING_ADDRESS]
  /\ registry_bond sample_staked 10 = Ok (stake_amount sample_staked).[10].
Proof.
  destruct (staking_books_balance sample_start sample_staked) as (H1 & H2 & H3).
  - apply sample_start_inv.
  - apply sample_staked_path.
  - split; [exact H1|]. split; [exact H2|]. exact (H3 10).
Defined.

Lemma claim_pays_matured_witness :
  exists s', claim_unbonded (at_time 27) 10 sample_staked = (Ok tt, s')
    /\ (native s').[10] = (native sample_staked).[10] + 200.
Proof.
  destruct (claim_pays_matured (at_time 27) 10 sample_staked) as (s' & H1 & H2 & _).
  - apply sample_staked_inv.
  - discriminate.
  - vm_compute. discriminate.
  - exists s'. split; [exact H1|]. rewrite H2. vm_compute. reflexivity.
Defined.

Definition sample_slashed : Staking := snd (slash_stake (at_time 21) 10 5 sample_staked).

Lemma slash_takes_its_share_witness :
  (stake_amount sample_slashed).[10] = 300 - 300 * 5 / 100
  /\ (native sample_slashed).[STAKING_ADDRESS] = (native sample_staked).[STAKING_ADDRESS] - 25.
Proof.
  assert (Hq : unbonding_amount (queue sample_staked) = (∅ : gmap Z Z).[0 <- 200])
    by (vm_compute; reflexivity).
  destruct (slash_takes_its_share (at_time 21) 10 5 sample_staked 25 sample_slashed)
    as (_ & H1 & _ & _ & H2).
  - apply sample_staked_inv.
  - lia.
  - vm_compute. discriminate.
  - intros i. rewrite Hq, mread_mwrite, mread_empty. case_decide; vm_compute; discriminate.
  - unfold sample_slashed. apply (run_snd (slash_stake _ _ _) sample_staked). vm_compute. reflexivity.
  - split; [|exact H2]. rewrite (H1 10). vm_compute. reflexivity.
Defined.
