(* ===== verification/SlashIndicator.v ===== *)
(** The SlashIndicator precompile: miss counters with their felony thresholds,
    the eight evidence entry points, the felony they apply, the per-block window
    hooks with their prune ring, and the epoch reset.

    Sources: [crates/system/slashindicator/src/schema.rs] (state), [runtime.rs]
    (operations), [hooks.rs], [precompile.rs] (dispatch) and [evidence.rs]
    (signature checks); [crates/blockchain/primitives/src/protocol_schedule.rs]
    and [storage/direct.rs] ([increase_balance], [canonical_block_hash]).

    The state holds what the calls reach: the Staking contract with the registry
    and the native balances, and the committee snapshots. The metrics, the journal
    file and tracing are not modelled. *)

From S2P Require Import Prelude Bytes Wire TeeAttestation Artifacts SystemTx P2pAddress Native Lifecycle ValidatorSet Snapshots ConsensusProof Staking.

(** * State (schema.rs) *)

Inductive SiEvent : Type :=
  | ProposerFelony (validator : Address) (miss_count felony_count : Z)
  | ProposerMisdemeanor (validator : Address) (miss_count : Z)
  | VoterFelony (validator : Address) (miss_count felony_count : Z)
  | VoterMisdemeanor (validator : Address) (miss_count : Z)
  | EvidenceFelonyApplied (validator submitter : Address) (slashed_amount submitter_reward : Z)
  | InvalidVrfProofEvidenceApplied (proposer submitter : Address) (child_block_hash : B256)
      (failure_code : Z)
  | SeedPartialEquivocationApplied (validator submitter : Address)
      (round_epoch round_view vrf_version : Z)
  | InvalidSeedPartialApplied (validator submitter : Address)
      (round_epoch round_view vrf_version : Z)
  | ByzantineFelony (validator : Address) (slashed_amount felony_count : Z).

Record SlashIndicator : Type := mkSlash {
  config_proposer_misdemeanor_threshold : Z;
  config_proposer_felony_threshold : Z;
  config_voter_misdemeanor_threshold : Z;
  config_slash_amount_percent : Z;
  config_evidence_reward_percent : Z;
  proposer_miss_count : gmap Address Z;
  voter_miss_count : gmap Address Z;
  felony_count : gmap Address Z;
  evidence_processed : gmap B256 bool;
  voter_window_slashed : gmap B256 bool;
  proposer_window_slashed : gmap B256 bool;
  invalid_vrf_evidence_processed : gmap B256 bool;
  config_voter_felony_threshold : Z;
  seed_partial_equivocation_processed : gmap B256 bool;
  invalid_seed_partial_processed : gmap B256 bool;
  slash_guard_ring : gmap Z B256;
  slash_guard_ring_seq : Z;
  si_staking : Staking;
  si_snapshots : SnapshotStore;
  si_events : list SiEvent }.

#[global] Instance SlashIndicator_eta : Eta SlashIndicator := fun s =>
  mkSlash (config_proposer_misdemeanor_threshold s) (config_proposer_felony_threshold s)
    (config_voter_misdemeanor_threshold s) (config_slash_amount_percent s)
    (config_evidence_reward_percent s) (proposer_miss_count s) (voter_miss_count s)
    (felony_count s) (evidence_processed s) (voter_window_slashed s) (proposer_window_slashed s)
    (invalid_vrf_evidence_processed s) (config_voter_felony_threshold s)
    (seed_partial_equivocation_processed s) (invalid_seed_partial_processed s)
    (slash_guard_ring s) (slash_guard_ring_seq s) (si_staking s) (si_snapshots s) (si_events s).

Abbreviation IM := (M SlashIndicator).

Definition on_staking {A} (m : SM A) : IM A := zoom si_staking (fun st s => s <| si_staking := st |>) m.
Definition si_registry (s : SlashIndicator) : ValidatorSet := validators (si_staking s).
Definition si_emit (e : SiEvent) : IM unit := modify (fun s => s <| si_events := si_events s ++ [e] |>).

(** What the storage provider tells about the block: Staking's view, and reth's
    [block_hash] ([None] is a database error). *)
Record SlashEnv : Type := mkSlashEnv {
  stk_env : StakingEnv;
  block_hash : Z -> option B256 }.
Definition env_block_number (env : SlashEnv) : Z := block_number (vs_env (stk_env env)).
Definition env_chain_id (env : SlashEnv) : Z := chain_id (vs_env (stk_env env)).

(** * Storage provider (direct.rs) *)

Definition increase_balance (address : Address) (amount : Z) : SM unit :=
  if amount =? 0 then mret tt
  else
    let! balance := gets (fun s => (native s).[address]) in
    let! credited := lift (ok_or (checked_add u256_max balance amount) (Fatal "balance overflow")) in
    modify (fun s => s <| native := (native s).[address <- credited] |>).

Definition canonical_block_hash (env : SlashEnv) (number : Z) : result (option B256) :=
  let? hash := ok_or (block_hash env number) (Storage "block_hash failed") in
  Ok (if hash =? 0 then None else Some hash).

(** * The protocol schedule (protocol_schedule.rs) *)

Record OutbeProtocolSchedule : Type := mkSchedule {
  certified_parent_accounting_v2_height : Z;
  genesis_bootstrap_block_number : Z;
  parent_proof_fetch_timeout_ms : Z;
  parent_proof_fetch_max_attempts : Z;
  parent_proof_fetch_max_bytes : Z;
  proof_store_min_retention_depth_blocks : Z;
  invalid_vrf_evidence_max_age_blocks : Z;
  invalid_vrf_evidence_max_bytes : Z;
  invalid_vrf_evidence_max_epoch_lag : Z;
  slash_indicator_vrf_evidence_base_gas : Z;
  phase1_preflight_p99_budget_ms_n100 : Z }.

Definition default_schedule : OutbeProtocolSchedule :=
  mkSchedule 0 1 2000 3 (16 * 1024 * 1024) 256 2048 (256 * 1024) 1 200000 25.

(** * Configuration (runtime.rs) *)

Definition DEFAULT_PROPOSER_MISDEMEANOR_THRESHOLD : Z := 50.
Definition DEFAULT_PROPOSER_FELONY_THRESHOLD : Z := 150.
Definition DEFAULT_VOTER_MISDEMEANOR_THRESHOLD : Z := 150.
Definition DEFAULT_VOTER_FELONY_THRESHOLD : Z := 500.
Definition DEFAULT_SLASH_AMOUNT_PERCENT : Z := 5.
Definition DEFAULT_EVIDENCE_REWARD_PERCENT : Z := 10.

Definition or_default (v fallback : Z) : Z := if v =? 0 then fallback else v.
Definition proposer_felony_threshold (s : SlashIndicator) : Z :=
  or_default (config_proposer_felony_threshold s) DEFAULT_PROPOSER_FELONY_THRESHOLD.
Definition proposer_misdemeanor_threshold (s : SlashIndicator) : Z :=
  or_default (config_proposer_misdemeanor_threshold s) DEFAULT_PROPOSER_MISDEMEANOR_THRESHOLD.
Definition voter_misdemeanor_threshold (s : SlashIndicator) : Z :=
  or_default (config_voter_misdemeanor_threshold s) DEFAULT_VOTER_MISDEMEANOR_THRESHOLD.
Definition voter_felony_threshold (s : SlashIndicator) : Z :=
  or_default (config_voter_felony_threshold s) DEFAULT_VOTER_FELONY_THRESHOLD.
Definition slash_amount_percent (s : SlashIndicator) : Z :=
  or_default (config_slash_amount_percent s) DEFAULT_SLASH_AMOUNT_PERCENT.
Definition evidence_reward_percent (s : SlashIndicator) : Z :=
  or_default (config_evidence_reward_percent s) DEFAULT_EVIDENCE_REWARD_PERCENT.

Section Runtime.
Context {X : Externals} {H : Keccak} {W : Commonware} {D : ConsensusDomain}
  {TC : TeeCrypto} {T : Alloy}.

(** * Miss counters (runtime.rs) *)

Definition validator_already_penalized (s : SlashIndicator) (validator : Address) : result bool :=
  let? l := validator_lifecycle (si_registry s) validator in
  Ok (match l with JailRetained _ | Jail _ | Exiting _ => true | _ => false end).

(** The felony branch shared by [slash_proposer] and [slash_voter]. *)
Definition miss_felony (env : SlashEnv) (validator : Address) : IM Z :=
  let! fc := gets (fun s => wrapping_add u64_max (felony_count s).[validator] 1) in
  wr felony_count validator fc ;;;
  on_staking (on_validators (jail_validator (vs_env (stk_env env)) validator)) ;;;
  let! slash_percent := gets slash_amount_percent in
  let! _ := on_staking (slash_stake (stk_env env) validator slash_percent) in
  mret fc.

Definition crosses (count threshold : Z) : bool := (0 <? count) && (count mod threshold =? 0).

Definition slash_proposer (env : SlashEnv) (validator : Address) : IM unit :=
  let! count := gets (fun s => wrapping_add u64_max (proposer_miss_count s).[validator] 1) in
  wr proposer_miss_count validator count ;;;
  let! felony_threshold := gets proposer_felony_threshold in
  let! misdemeanor_threshold := gets proposer_misdemeanor_threshold in
  let! penalized := reads (fun s => validator_already_penalized s validator) in
  if penalized : bool then mret tt
  else if crosses count felony_threshold then
    let! fc := miss_felony env validator in
    si_emit (ProposerFelony validator count fc)
  else if crosses count misdemeanor_threshold then si_emit (ProposerMisdemeanor validator count)
  else mret tt.

Definition slash_voter (env : SlashEnv) (validator : Address) : IM unit :=
  let! count := gets (fun s => wrapping_add u64_max (voter_miss_count s).[validator] 1) in
  wr voter_miss_count validator count ;;;
  let! felony_threshold := gets voter_felony_threshold in
  let! misdemeanor_threshold := gets voter_misdemeanor_threshold in
  let! penalized := reads (fun s => validator_already_penalized s validator) in
  if penalized : bool then mret tt
  else if crosses count felony_threshold then
    let! fc := miss_felony env validator in
    si_emit (VoterFelony validator count fc)
  else if crosses count misdemeanor_threshold then si_emit (VoterMisdemeanor validator count)
  else mret tt.

Definition si_reset_epoch_counters (addresses : list Address) : IM unit :=
  mfor addresses (fun validator =>
    wr proposer_miss_count validator 0 ;;; wr voter_miss_count validator 0).

(** * Felonies (runtime.rs) *)

(** The jail, count and slash shared by [apply_evidence_felony] and
    [slash_byzantine]. *)
Definition convict (env : SlashEnv) (validator : Address) : IM (Z * Z) :=
  on_staking (on_validators (jail_validator (vs_env (stk_env env)) validator)) ;;;
  let! fc := gets (fun s => wrapping_add u64_max (felony_count s).[validator] 1) in
  wr felony_count validator fc ;;;
  let! slash_percent := gets slash_amount_percent in
  let! slashed_amount := on_staking (slash_stake (stk_env env) validator slash_percent) in
  mret (fc, slashed_amount).

Definition apply_evidence_felony (env : SlashEnv) (validator evidence_submitter : Address) : IM unit :=
  let! (_, slashed_amount) := convict env validator in
  let! reward :=
    (if slashed_amount =? 0 then mret 0
     else
       let! reward_pct := gets evidence_reward_percent in
       let reward := wrapping_mul u256_max slashed_amount reward_pct / 100 in
       (if reward =? 0 then mret tt else on_staking (increase_balance evidence_submitter reward)) ;;;
       mret reward) in
  si_emit (EvidenceFelonyApplied validator evidence_submitter slashed_amount reward).

Definition slash_byzantine (env : SlashEnv) (validator : Address) : IM unit :=
  let! (fc, slashed_amount) := convict env validator in
  si_emit (ByzantineFelony validator slashed_amount fc).

(** * Evidence signatures (evidence.rs) *)

Definition EVIDENCE_DST : list Z := string_bytes "BLS_SIG_BLS12381G2_XMD:SHA-256_SSWU_RO_POP_".

Definition verify_bls_signature (ev : EvidenceBlock) (namespace : list Z) : result unit :=
  let? _ := rrequire (bls_public_key_from_bytes (be_value (pubkey ev)))
    (Revert "invalid BLS public key in evidence") in
  let? _ := rrequire (bls_signature_from_bytes (signature ev))
    (Revert "invalid BLS signature in evidence") in
  rrequire (bls_verify (signature ev) (build_signed_payload_with_ns namespace (proposal_bytes ev))
              EVIDENCE_DST (be_value (pubkey ev)))
    (Revert "invalid BLS signature in evidence").

Definition verify_notarize_signature (ev : EvidenceBlock) (committee : list ConsensusPubkey) :=
  verify_bls_signature ev (notarize_namespace consensus_chain_id committee).
Definition verify_nullify_signature (ev : EvidenceBlock) (committee : list ConsensusPubkey) :=
  verify_bls_signature ev (nullify_namespace consensus_chain_id committee).
Definition verify_finalize_signature (ev : EvidenceBlock) (committee : list ConsensusPubkey) :=
  verify_bls_signature ev (finalize_namespace consensus_chain_id committee).

(** [keccak256] of the 48 key bytes. *)
Definition pubkey_hash (pubkey : list Z) : B256 := consensus_pubkey_hash (be_value pubkey).

Definition is_ok {A} (r : result A) : bool := match r with Ok _ => true | _ => false end.

(** * Evidence of equivocation (runtime.rs) *)

Definition require_active_submitter (caller : Address) : IM unit :=
  let! l := reads (fun s => validator_lifecycle (si_registry s) caller) in
  require (is_active_status l) (Revert "submitter is not an ACTIVE validator").

(** The keys of the epoch's committee, read and deduplicated. *)
Fixpoint read_committee_keys (l : list CommitteeEntry) : result (list ConsensusPubkey) :=
  match l with
  | [] => Ok []
  | entry :: rest =>
      let? _ := rrequire (identity_key_decodes (be_bytes 48 (entry_pubkey entry)))
        (Revert "invalid committee pubkey in snapshot") in
      let? keys := read_committee_keys rest in
      Ok (entry_pubkey entry :: keys)
  end.
Definition committee_set_for_epoch (s : SlashIndicator) (epoch : Z) : result (list ConsensusPubkey) :=
  let? snapshot := ok_or (read_committee_snapshot_for_epoch (si_snapshots s) epoch)
    (Revert "no committee snapshot for evidence epoch") in
  let? keys := read_committee_keys (committee snapshot) in
  Ok (ordered_set keys).

Definition lookup_by_pubkey_hash (s : SlashIndicator) (hash : B256) : Address :=
  (consensus_pubkey_hash_to_address (si_registry s)).[hash].

(** Dedup, attribution and felony of the equivocation entry points; [verified]
    is their signature check. *)
Definition already_processed : PrecompileError := Revert "evidence already processed".
Definition punish_signer (env : SlashEnv) (caller : Address) (ev : EvidenceBlock)
    (evidence_hash : B256) : IM unit :=
  let! validator_addr := gets (fun s => lookup_by_pubkey_hash s (pubkey_hash (pubkey ev))) in
  require (negb (validator_addr =? 0)) (Revert "signer is not a registered validator") ;;;
  wr evidence_processed evidence_hash true ;;;
  apply_evidence_felony env validator_addr caller.

Definition submit_double_proposal_evidence (env : SlashEnv) (caller : Address)
    (block1 block2 : list Z) : IM unit :=
  require_active_submitter caller ;;;
  let! ev1 := lift (EvidenceBlock_parse block1) in
  let! ev2 := lift (EvidenceBlock_parse block2) in
  require (bool_decide (pubkey ev1 = pubkey ev2)) (Revert "evidence blocks must have the same signer") ;;;
  require (negb (bool_decide (proposal_bytes ev1 = proposal_bytes ev2)))
    (Revert "proposals must differ for double-proposal evidence") ;;;
  let! round1 := lift (evidence_round ev1) in
  let! round2 := lift (evidence_round ev2) in
  require (bool_decide (round1 = round2)) (Revert "proposals must be for the same round") ;;;
  let evidence_hash := canonical_evidence_hash block1 block2 in
  let! processed := gets (fun s => (evidence_processed s).[evidence_hash]) in
  require (negb processed) already_processed ;;;
  let! committee := reads (fun s => committee_set_for_epoch s round1.1) in
  let! _ := lift (verify_notarize_signature ev1 committee) in
  let! _ := lift (verify_notarize_signature ev2 committee) in
  punish_signer env caller ev1 evidence_hash.

Definition submit_conflicting_vote_evidence (env : SlashEnv) (caller : Address)
    (vote1 vote2 : list Z) : IM unit :=
  require_active_submitter caller ;;;
  let! ev1 := lift (EvidenceBlock_parse vote1) in
  let! ev2 := lift (EvidenceBlock_parse vote2) in
  require (bool_decide (pubkey ev1 = pubkey ev2)) (Revert "evidence blocks must have the same signer") ;;;
  let! round1 := lift (evidence_round ev1) in
  let! round2 := lift (evidence_round ev2) in
  require (bool_decide (round1 = round2)) (Revert "votes must be for the same round") ;;;
  let evidence_hash := canonical_evidence_hash vote1 vote2 in
  let! processed := gets (fun s => (evidence_processed s).[evidence_hash]) in
  require (negb processed) already_processed ;;;
  let! committee := reads (fun s => committee_set_for_epoch s round1.1) in
  require ((is_ok (verify_notarize_signature ev1 committee) && is_ok (verify_nullify_signature ev2 committee))
           || (is_ok (verify_nullify_signature ev1 committee) && is_ok (verify_notarize_signature ev2 committee)))
    (Revert "evidence must contain one valid notarize and one valid nullify signature") ;;;
  punish_signer env caller ev1 evidence_hash.

Definition apply_equivocation_felony (env : SlashEnv) (caller : Address) (block1 block2 : list Z)
    (require_distinct_proposals : bool)
    (verify1 verify2 : EvidenceBlock -> list ConsensusPubkey -> result unit) : IM unit :=
  require_active_submitter caller ;;;
  let! ev1 := lift (EvidenceBlock_parse block1) in
  let! ev2 := lift (EvidenceBlock_parse block2) in
  require (bool_decide (pubkey ev1 = pubkey ev2)) (Revert "evidence blocks must have the same signer") ;;;
  let! round1 := lift (evidence_round ev1) in
  let! round2 := lift (evidence_round ev2) in
  require (bool_decide (round1 = round2)) (Revert "votes must be for the same round") ;;;
  require (negb (require_distinct_proposals && bool_decide (proposal_bytes ev1 = proposal_bytes ev2)))
    (Revert "conflicting votes must be for different proposals") ;;;
  let evidence_hash := canonical_evidence_hash block1 block2 in
  let! processed := gets (fun s => (evidence_processed s).[evidence_hash]) in
  require (negb processed) already_processed ;;;
  let! committee := reads (fun s => committee_set_for_epoch s round1.1) in
  let! _ := lift (verify1 ev1 committee) in
  let! _ := lift (verify2 ev2 committee) in
  punish_signer env caller ev1 evidence_hash.

Definition submit_conflicting_notarize_evidence (env : SlashEnv) (caller : Address)
    (block1 block2 : list Z) : IM unit :=
  apply_equivocation_felony env caller block1 block2 true
    verify_notarize_signature verify_notarize_signature.
Definition submit_conflicting_finalize_evidence (env : SlashEnv) (caller : Address)
    (block1 block2 : list Z) : IM unit :=
  apply_equivocation_felony env caller block1 block2 true
    verify_finalize_signature verify_finalize_signature.
Definition submit_nullify_finalize_evidence (env : SlashEnv) (caller : Address)
    (nullify_block finalize_block : list Z) : IM unit :=
  apply_equivocation_felony env caller nullify_block finalize_block false
    verify_nullify_signature verify_finalize_signature.

(** * Evidence of an invalid VRF proof (runtime.rs) *)

(** [ValidatorSet::current_epoch_u64]. *)
Definition current_epoch_u64 (s : SlashIndicator) : result Z :=
  let epoch := epoch_number (si_registry s) in
  let? _ := rrequire (epoch <=? u64_max) (Fatal "ValidatorSet.epoch_number exceeds u64") in
  Ok epoch.

Definition require_epoch_lag (schedule : OutbeProtocolSchedule) (epoch : Z) : IM unit :=
  let! current_epoch := reads current_epoch_u64 in
  let max_acceptable_epoch := saturating_add u64_max epoch (invalid_vrf_evidence_max_epoch_lag schedule) in
  require (negb (max_acceptable_epoch <? current_epoch)) (Revert "evidence epoch-stale").

(** [missing] and [other] are the messages for an unknown block and for another hash. *)
Definition require_canonical (env : SlashEnv) (number : Z) (hash : B256) (missing other : string) :
    IM unit :=
  let! found := lift (canonical_block_hash env number) in
  let! canonical := lift (ok_or found (Revert missing)) in
  require (canonical =? hash) (Revert other).

(** [map_err] of a system-transaction error to a revert. *)
Definition or_revert {A} (r : stx A) (msg : string) : result A :=
  match r with inr a => Ok a | inl _ => Err (Revert msg) end.

Definition phase1_metadata (calldata : list Z) : result CertifiedParentAccountingMetadata :=
  let? input := or_revert (input_decode calldata) "phase1 calldata decode failed" in
  match input with
  | CertifiedParentAccountingInput metadata => Ok metadata
  | _ => Err (Revert "phase1 calldata is not CertifiedParentAccounting")
  end.

(** A proof that verifies is not slashable, nor is a failure that is not the VRF's. *)
Definition vrf_failure (metadata : CertifiedParentAccountingMetadata) (snapshot : CommitteeSnapshot)
    (parent_hash : B256) : result Z :=
  match verify_v2_proof metadata snapshot (md_proof metadata) parent_hash with
  | inr _ => Err (Revert "evidence shows a VALID proof; nothing to slash")
  | inl err => ok_or (classify_vrf_failure err)
                 (Revert "verify_v2_proof rejected with non-VRF class; not slashable here")
  end.

Definition submit_invalid_vrf_evidence_with_schedule (env : SlashEnv) (caller : Address)
    (evidence_bytes : list Z) (schedule : OutbeProtocolSchedule) : IM unit :=
  require_active_submitter caller ;;;
  require (negb (invalid_vrf_evidence_max_bytes schedule <? Z.of_nat (length evidence_bytes)))
    (Revert "evidence too large") ;;;
  let! ev := lift (InvalidVrfProofEvidence_decode evidence_bytes) in
  let max_acceptable_block :=
    saturating_add u64_max (child_block_number ev) (invalid_vrf_evidence_max_age_blocks schedule) in
  require (negb (max_acceptable_block <? env_block_number env)) (Revert "evidence stale") ;;;
  require_epoch_lag schedule (child_epoch ev) ;;;
  require_canonical env (child_block_number ev) (child_block_hash ev)
    "evidence child block not in canonical-history window" "evidence child hash is not canonical" ;;;
  require (saturating_add u64_max (parent_block_number ev) 1 =? child_block_number ev)
    (Revert "evidence parent/child number mismatch") ;;;
  require_canonical env (parent_block_number ev) (parent_block_hash ev)
    "evidence parent block not in canonical-history window" "evidence parent hash is not canonical" ;;;
  let phase1_tx_hash := keccak256 (phase1_tx_bytes ev) in
  let evidence_hash := invalid_vrf_evidence_hash_v2 (child_block_hash ev) phase1_tx_hash in
  let! processed := gets (fun s => (invalid_vrf_evidence_processed s).[evidence_hash]) in
  require (negb processed) already_processed ;;;
  let! (proposer, calldata) := lift (or_revert
    (recover_phase1_proposer (phase1_tx_bytes ev) (env_chain_id env) (child_block_number ev))
    "phase1_tx invalid") in
  let! metadata := lift (phase1_metadata calldata) in
  require ((finalized_block_number metadata =? parent_block_number ev)
           && (finalized_block_hash metadata =? parent_block_hash ev))
    (Revert "metadata parent binding mismatch") ;;;
  require (finalized_epoch metadata =? child_epoch ev)
    (Revert "metadata epoch does not match evidence child_epoch") ;;;
  let snapshot_key := committee_snapshot_key (finalized_epoch metadata) (committee_set_hash metadata) in
  let! snapshot := reads (fun s => ok_or (read_committee_snapshot (si_snapshots s) snapshot_key)
    (Revert "no committee snapshot for finalized_epoch and committee_set_hash")) in
  require (existsb (fun entry => entry_address entry =? proposer) (committee snapshot))
    (Revert "phase1_tx proposer not in committee") ;;;
  let! failure_class := lift (vrf_failure metadata snapshot (parent_block_hash ev)) in
  wr invalid_vrf_evidence_processed evidence_hash true ;;;
  apply_evidence_felony env proposer caller ;;;
  si_emit (InvalidVrfProofEvidenceApplied proposer caller (child_block_hash ev) failure_class).

Definition submit_invalid_vrf_evidence (env : SlashEnv) (caller : Address) (evidence_bytes : list Z) :
    IM unit :=
  submit_invalid_vrf_evidence_with_schedule env caller evidence_bytes default_schedule.

(** * Evidence on seed partials (runtime.rs) *)

Definition submit_seed_partial_equivocation_evidence_with_schedule (env : SlashEnv) (caller : Address)
    (evidence_bytes : list Z) (schedule : OutbeProtocolSchedule) : IM unit :=
  require_active_submitter caller ;;;
  let! ev := lift (SeedPartialEquivocationEvidence_decode evidence_bytes) in
  require (negb (bool_decide (partial_1 ev = partial_2 ev)))
    (Revert "not equivocation: the two partials are identical") ;;;
  require (verify_seed_partial_attest_bytes (spe_signer_pubkey ev) (spe_round_epoch ev)
             (spe_round_view ev) (spe_vrf_version ev) (partial_1 ev) (identity_sig_1 ev)
           && verify_seed_partial_attest_bytes (spe_signer_pubkey ev) (spe_round_epoch ev)
                (spe_round_view ev) (spe_vrf_version ev) (partial_2 ev) (identity_sig_2 ev))
    (Revert "both partials must carry a valid identity signature from the accused signer") ;;;
  require_epoch_lag schedule (spe_round_epoch ev) ;;;
  let! validator_addr := gets (fun s => lookup_by_pubkey_hash s (pubkey_hash (spe_signer_pubkey ev))) in
  require (negb (validator_addr =? 0)) (Revert "signer is not a registered validator") ;;;
  let dedup := SeedPartialEquivocationEvidence_dedup_hash ev in
  let! processed := gets (fun s => (seed_partial_equivocation_processed s).[dedup]) in
  require (negb processed) already_processed ;;;
  wr seed_partial_equivocation_processed dedup true ;;;
  apply_evidence_felony env validator_addr caller ;;;
  si_emit (SeedPartialEquivocationApplied validator_addr caller (spe_round_epoch ev)
             (spe_round_view ev) (spe_vrf_version ev)).

Definition submit_seed_partial_equivocation_evidence (env : SlashEnv) (caller : Address)
    (evidence_bytes : list Z) : IM unit :=
  submit_seed_partial_equivocation_evidence_with_schedule env caller evidence_bytes default_schedule.

Definition submit_invalid_seed_partial_evidence_with_schedule (env : SlashEnv) (caller : Address)
    (evidence_bytes : list Z) (schedule : OutbeProtocolSchedule) : IM unit :=
  require_active_submitter caller ;;;
  require (negb (invalid_vrf_evidence_max_bytes schedule <? Z.of_nat (length evidence_bytes)))
    (Revert "evidence too large") ;;;
  let! ev := lift (InvalidSeedPartialEvidence_decode evidence_bytes) in
  require_epoch_lag schedule (ipe_round_epoch ev) ;;;
  let! validator_addr := gets (fun s => lookup_by_pubkey_hash s (pubkey_hash (ipe_signer_pubkey ev))) in
  require (negb (validator_addr =? 0)) (Revert "signer is not a registered validator") ;;;
  let snapshot_key := committee_snapshot_key (ipe_round_epoch ev) (ipe_committee_set_hash ev) in
  let! snapshot := reads (fun s => ok_or (read_committee_snapshot (si_snapshots s) snapshot_key)
    (Revert "no committee snapshot for (round_epoch, committee_set_hash)")) in
  let! entry := lift (ok_or (committee snapshot !! Z.to_nat (signer_index ev))
    (Revert "signer index out of committee range")) in
  require (entry_pubkey entry =? be_value (ipe_signer_pubkey ev))
    (Revert "signer pubkey does not match committee entry at index") ;;;
  require (vrf_material_version snapshot =? ipe_vrf_version ev)
    (Revert "vrf material version does not match committee snapshot") ;;;
  require (negb (vrf_public_polynomial_hash snapshot =? 0))
    (Revert "committee snapshot has no polynomial commitment") ;;;
  require (keccak256 (commitment ev) =? vrf_public_polynomial_hash snapshot)
    (Revert "commitment does not match committee snapshot polynomial hash") ;;;
  require (verify_seed_partial_attest_bytes (ipe_signer_pubkey ev) (ipe_round_epoch ev)
             (ipe_round_view ev) (ipe_vrf_version ev) (ipe_partial ev) (ipe_identity_sig ev))
    (Revert "partial is not identity-signed by the accused signer") ;;;
  lift (match verify_seed_partial_against_commitment (commitment ev) (signer_index ev)
                (ipe_round_epoch ev) (ipe_round_view ev) (ipe_partial ev) with
        | None => Err (Revert "malformed commitment or partial")
        | Some true => Err (Revert "seed partial is valid; nothing to slash")
        | Some false => Ok tt
        end) ;;;
  let dedup := InvalidSeedPartialEvidence_dedup_hash ev in
  let! processed := gets (fun s => (invalid_seed_partial_processed s).[dedup]) in
  require (negb processed) already_processed ;;;
  wr invalid_seed_partial_processed dedup true ;;;
  apply_evidence_felony env validator_addr caller ;;;
  si_emit (InvalidSeedPartialApplied validator_addr caller (ipe_round_epoch ev)
             (ipe_round_view ev) (ipe_vrf_version ev)).

Definition submit_invalid_seed_partial_evidence (env : SlashEnv) (caller : Address)
    (evidence_bytes : list Z) : IM unit :=
  submit_invalid_seed_partial_evidence_with_schedule env caller evidence_bytes default_schedule.

(** * Getters (runtime.rs) *)

Definition get_proposer_miss_count (s : SlashIndicator) (validator : Address) : Z :=
  (proposer_miss_count s).[validator].
Definition get_voter_miss_count (s : SlashIndicator) (validator : Address) : Z :=
  (voter_miss_count s).[validator].
Definition get_felony_count (s : SlashIndicator) (validator : Address) : Z :=
  (felony_count s).[validator].
Definition is_evidence_processed (s : SlashIndicator) (evidence_hash : B256) : bool :=
  (evidence_processed s).[evidence_hash].

(** * Hooks (hooks.rs) *)

Definition SLASH_GUARD_RETAIN : Z := 64.

Definition slash_window_voters (env : SlashEnv) (fb_hash : B256) (absentees : list Address) : IM unit :=
  let! slashed := gets (fun s => (voter_window_slashed s).[fb_hash]) in
  if slashed : bool then mret tt
  else
    mfor absentees (slash_voter env) ;;;
    wr voter_window_slashed fb_hash true.

Definition slash_window_proposers (env : SlashEnv) (fb_hash : B256) (missed : list Address) : IM unit :=
  let! slashed := gets (fun s => (proposer_window_slashed s).[fb_hash]) in
  if slashed : bool then mret tt
  else
    mfor missed (slash_proposer env) ;;;
    wr proposer_window_slashed fb_hash true.

Definition prune_slash_guards (fb_hash : B256) : IM unit :=
  let! seq := gets slash_guard_ring_seq in
  let idx := seq mod SLASH_GUARD_RETAIN in
  let! evicted := gets (fun s => (slash_guard_ring s).[idx]) in
  (if negb (evicted =? 0) && negb (evicted =? fb_hash)
   then wr voter_window_slashed evicted false ;;; wr proposer_window_slashed evicted false
   else mret tt) ;;;
  wr slash_guard_ring idx fb_hash ;;;
  let! next := lift (ok_or (checked_add u64_max seq 1) (Revert "slash_guard_ring_seq overflow")) in
  modify (fun s => s <| slash_guard_ring_seq := next |>).

(** * Calls (precompile.rs, hooks.rs) *)

Inductive SiUserCall : Type :=
  | submitDoubleProposalEvidence (block1 block2 : list Z)
  | submitConflictingVoteEvidence (vote1 vote2 : list Z)
  | submitConflictingNotarizeEvidence (block1 block2 : list Z)
  | submitConflictingFinalizeEvidence (block1 block2 : list Z)
  | submitNullifyFinalizeEvidence (nullifyBlock finalizeBlock : list Z)
  | submitInvalidVrfProofEvidence (evidence : list Z)
  | submitSeedPartialEquivocationEvidence (evidence : list Z)
  | submitInvalidSeedPartialEvidence (evidence : list Z).

(** The mutating arms of [precompile::dispatch] ([reject_value] first). *)
Definition si_dispatch (env : SlashEnv) (caller : Address) (value : Z) (c : SiUserCall) : IM unit :=
  require (value =? 0) (Revert "non-payable function called with value") ;;;
  match c with
  | submitDoubleProposalEvidence block1 block2 =>
      submit_double_proposal_evidence env caller block1 block2
  | submitConflictingVoteEvidence vote1 vote2 =>
      submit_conflicting_vote_evidence env caller vote1 vote2
  | submitConflictingNotarizeEvidence block1 block2 =>
      submit_conflicting_notarize_evidence env caller block1 block2
  | submitConflictingFinalizeEvidence block1 block2 =>
      submit_conflicting_finalize_evidence env caller block1 block2
  | submitNullifyFinalizeEvidence nullifyBlock finalizeBlock =>
      submit_nullify_finalize_evidence env caller nullifyBlock finalizeBlock
  | submitInvalidVrfProofEvidence evidence => submit_invalid_vrf_evidence env caller evidence
  | submitSeedPartialEquivocationEvidence evidence =>
      submit_seed_partial_equivocation_evidence env caller evidence
  | submitInvalidSeedPartialEvidence evidence =>
      submit_invalid_seed_partial_evidence env caller evidence
  end.

(** The calls of the block executor. *)
Inductive SiSystemCall : Type :=
  | SlashWindowVoters (fb_hash : B256) (absentees : list Address)
  | SlashWindowProposers (fb_hash : B256) (missed : list Address)
  | PruneSlashGuards (fb_hash : B256)
  | SlashByzantine (validator : Address)
  | SiResetEpochCounters (addresses : list Address).

Definition si_system (env : SlashEnv) (c : SiSystemCall) : IM unit :=
  match c with
  | SlashWindowVoters fb_hash absentees => slash_window_voters env fb_hash absentees
  | SlashWindowProposers fb_hash missed => slash_window_proposers env fb_hash missed
  | PruneSlashGuards fb_hash => prune_slash_guards fb_hash
  | SlashByzantine validator => slash_byzantine env validator
  | SiResetEpochCounters addresses => si_reset_epoch_counters addresses
  end.
End Runtime.
