(* ===== verification/SlashIndicatorProps.v ===== *)
(** Properties of the SlashIndicator: punishment needs proof, each piece of
    evidence counts once, a felony takes and pays exactly its share, a continuous
    absence is punished once, window passes are not repeated, and Staking's books
    stay balanced under every call. *)

From stdpp Require Import functions.
From S2P Require Import Prelude Bytes Wire TeeAttestation TeeExample Artifacts SystemTx SystemTxProps P2pAddress Native Lifecycle ValidatorSet ValidatorSetInv ValidatorSetMoves ValidatorSetProps ValidatorSetStake Snapshots SnapshotsProps ConsensusProof ConsensusProofProps Staking StakingQueue StakingInv StakingProps SlashIndicator.

Section Props.
Context {X : Externals} {H : Keccak} {W : Commonware} {D : ConsensusDomain}
  {TC : TeeCrypto} {T : Alloy}.

(** * Runs of the parts *)

Lemma on_staking_ok {A} (m : SM A) s r s' :
  on_staking m s = (Ok r, s') ->
  exists st, m (si_staking s) = (Ok r, st) /\ s' = s <| si_staking := st |>.
Proof. unfold on_staking, zoom. destruct (m (si_staking s)) as [r0 st]. intros [= -> <-]. by exists st. Qed.

Lemma jail_ok env a st st' :
  stk_inv st -> on_validators (jail_validator env a) st = (Ok tt, st') ->
  stk_inv st' /\ exists v, st' = st <| validators := v |>
    /\ exists r, punish_validator env a true (validators st) = (Ok r, v).
Proof.
  intros Hi Hj. apply on_validators_ok in Hj as (v & Hj & ->). unfold jail_validator in Hj. minv.
  split; [by eapply punish_inv|]. by eauto.
Qed.

(** What the books require of the configuration. *)
Definition si_inv (s : SlashIndicator) : Prop :=
  stk_inv (si_staking s) /\ 0 <= config_slash_amount_percent s
  /\ 0 <= config_evidence_reward_percent s.

Lemma percent_nonneg s : si_inv s -> 0 <= slash_amount_percent s.
Proof. intros (_ & Hp & _). unfold slash_amount_percent, or_default. by case_match. Qed.

(** Bonded stake and unbonding entries of a validator that a slash takes. *)
Definition felony_take (s : SlashIndicator) (a : Address) : Z :=
  let st := si_staking s in
  let percent := slash_amount_percent s in
  slash_of percent (stake_amount st).[a]
  + slash_total (queue st) percent (unbonding_entries (queue st) a).

(** What a slash of [a] leaves of the unbonding queue [q]: the same entries in the
    same order, those of [a] reduced by their share. *)
Record entries_cut (percent : Z) (a : Address) (q q' : UnbondingQueue) : Prop := {
  ec_amount : forall i, (unbonding_amount q').[i] = (unbonding_amount q).[i]
    - (if decide (i ∈ unbonding_entries q a) then slash_of percent (unbonding_amount q).[i] else 0);
  ec_entries : forall b, unbonding_entries q' b = unbonding_entries q b;
  ec_owner : unbonding_validator q' = unbonding_validator q;
  ec_later : forall i, (unbonding_complete_time q).[i] <= (unbonding_complete_time q').[i];
  ec_time : forall i, i ∉ unbonding_entries q a ->
    (unbonding_complete_time q').[i] = (unbonding_complete_time q).[i] }.

Lemma walk_same fuel : forall q q' i, unbonding_next q' = unbonding_next q ->
  entries_from fuel q' i = entries_from fuel q i.
Proof.
  induction fuel as [|fuel IH]; intros q q' i E; simpl; [done|]. rewrite E. by rewrite (IH q q') by done.
Qed.

Lemma slashed_cut q q' percent time a :
  slashed q q' percent time (unbonding_entries q a) -> entries_cut percent a q q'.
Proof.
  intros [(Ec & Eh & En & Ev) Ham Ht]. constructor; [| |done| |].
  - intros i. rewrite Ham. case_decide; lia.
  - intros b. unfold unbonding_entries, walk_fuel. rewrite Ec, Eh. by apply walk_same.
  - intros i. rewrite Ht. case_decide; lia.
  - intros i Hi. rewrite Ht, decide_False; [done|]. by intros [].
Qed.

(** A conviction: the state is Staking's, with one more felony. *)
Lemma convict_ok env a s fc slashed s' :
  si_inv s -> convict env a s = (Ok (fc, slashed), s') ->
  fc = wrapping_add u64_max (felony_count s).[a] 1 /\ slashed = felony_take s a
  /\ exists st, s' = s <| felony_count := mwrite a fc (felony_count s) |> <| si_staking := st |>
  /\ stk_inv st
  /\ (forall b, (stake_amount st).[b] = (stake_amount (si_staking s)).[b]
        - (if decide (b = a) then slash_of (slash_amount_percent s) (stake_amount (si_staking s)).[a] else 0))
  /\ (native st).[STAKING_ADDRESS] = (native (si_staking s)).[STAKING_ADDRESS] - slashed
  /\ (forall b, b <> STAKING_ADDRESS -> (native st).[b] = (native (si_staking s)).[b])
  /\ 0 <= slashed
  /\ entries_cut (slash_amount_percent s) a (queue (si_staking s)) (queue st).
Proof.
  intros Hi Hc. pose proof (percent_nonneg _ Hi) as Hp. destruct Hi as (Hi & _ & _).
  unfold convict in Hc. minv.
  repeat match goal with Hx : on_staking _ _ = _ |- _ => apply on_staking_ok in Hx as (? & ? & ->) end.
  match goal with Hx : on_validators _ _ = _ |- _ => apply jail_ok in Hx as (Hi1 & v & -> & _); [|done] end.
  simpl in *. destruct (bk_queue _ _ (proj1 Hi)) as [Q HQ].
  match goal with Hx : slash_stake _ _ _ _ = _ |- _ =>
    apply (slash_stake_ok _ _ _ _ Q) in Hx as (H100 & -> & Hi2 & Hst & _ & (time & Hcut) & _ & Hn & Hn2); [|done..] end.
  simpl in *. rewrite <- (entries_ok _ _ _ HQ) in Hcut. apply slashed_cut in Hcut.
  unfold felony_take. simpl. rewrite (entries_ok _ _ _ HQ).
  split_and!; [done|done|]. eexists. split_and!; [reflexivity|done..| |exact Hcut].
  destruct (books_bounds _ _ (proj1 Hi) ltac:(lia)) as (Hs & Hq & Hu). pose proof (Hs a).
  apply Z.add_nonneg_nonneg; [apply slash_of_bounds|eapply slash_total_nonneg]; try done; lia.
Qed.

(** * The convicted validator *)

(** Out of the set for a fault or on the way out. *)
Definition retired (l : ValidatorLifecycle) : bool :=
  match l with JailRetained _ | Jail _ | Exiting _ | Unbonding _ | Inactive _ => true | _ => false end.
Definition penalized (l : ValidatorLifecycle) : bool :=
  match l with JailRetained _ | Jail _ | Exiting _ => true | _ => false end.

Definition becomes (L : Address -> ValidatorLifecycle) (a : Address) (v : ValidatorSet)
    (P : ValidatorLifecycle -> Prop) : Prop :=
  exists L', vs_rep v L' /\ (forall b, b <> a -> L' b = L b) /\ P (L' a).

Lemma becomes_commit s L a l0 l after sc es s' (P : ValidatorLifecycle -> Prop) :
  vs_rep s L -> L a = l0 -> with_lifecycle (mkState a l0) l = Ok after ->
  rtc (lifecycle_step false) l0 l ->
  commit_transition (mkState a l0) after sc es s = (Ok tt, s') -> P l -> becomes L a s' P.
Proof.
  intros Hr <- Hw Hp Hrun HP. exists (<[a := l]> L). split_and!; [by eapply commit_next| |].
  - intros b Hb. by rewrite fn_lookup_insert_ne.
  - by rewrite fn_lookup_insert.
Qed.

Lemma with_history_penalized l h l' : with_history l h = Ok l' -> penalized l' = penalized l.
Proof. unfold with_history. intros Hr. case_match; [done|]. destruct l; repeat case_match; by simplify_eq. Qed.

Lemma punish_becomes env s L a r s' :
  vs_rep s L -> punish_validator env a true s = (Ok r, s') ->
  becomes L a s' (fun l => retired l = true /\
    if L a is Active _ then exists x, l = JailRetained x else l = L a).
Proof.
  intros Hr Hrun. unfold punish_validator in Hrun. minv. open_state L.
  destruct (L a) eqn:HL; minv_all; try (by exists L; rewrite HL).
  eapply becomes_commit; [eassumption|eassumption|eassumption|path|eassumption|].
  unfold with_history in *. simpl in *. repeat case_match; by simplify_eq; eauto.
Qed.

Lemma slash_becomes env s L a b m h s' :
  vs_rep s L -> retired (L a) = true -> record_stake_slash env a b m h s = (Ok tt, s') ->
  becomes L a s' (fun l => retired l = true /\ penalized l = penalized (L a)).
Proof.
  intros Hr Hret Hrun. unfold record_stake_slash in Hrun. minv. open_state L.
  destruct (L a) eqn:HL; try done; minv_all;
    (eapply becomes_commit; [eassumption|eassumption|eassumption|path|eassumption|]);
    unfold with_stake in *; minv; done.
Qed.

Lemma slash_stake_registry env a percent s r s' :
  slash_stake env a percent s = (Ok r, s') -> exists b m,
    record_stake_slash (vs_env env) a b m None (validators s) = (Ok tt, validators s').
Proof.
  intros Hrun. unfold slash_stake in Hrun. minv.
  match goal with Hx : on_validators _ _ = _ |- _ => apply on_validators_ok in Hx as (v & Hv & ->) end.
  match goal with Hx : on_queue _ _ = _ |- _ => apply on_queue_ok in Hx as (q & _ & ->) end.
  match goal with Hx : (if _ =? 0 then mret tt else _) _ = _ |- _ =>
    apply (keeps_run validators) in Hx; [|unfold decrease_balance, balance; solve_keeps] end.
  match goal with Hx : (if _ =? 0 then mret 0 else _) _ = _ |- _ =>
    apply (keeps_run validators) in Hx; [|solve_keeps] end.
  simpl in *. eexists _, _. replace (validators s) with (validators s6) by congruence. exact Hv.
Qed.

(** A conviction takes the validator out of the set, and nobody else. *)
Lemma convict_becomes env a s fc slashed s' L :
  si_inv s -> vs_rep (si_registry s) L -> convict env a s = (Ok (fc, slashed), s') ->
  becomes L a (si_registry s') (fun l => retired l = true
    /\ (penalized l = match L a with Active _ => true | l0 => penalized l0 end)).
Proof.
  intros Hi HL Hc. unfold convict in Hc. minv.
  repeat match goal with Hx : on_staking _ _ = _ |- _ => apply on_staking_ok in Hx as (? & ? & ->) end.
  match goal with Hx : on_validators _ _ = _ |- _ => apply jail_ok in Hx as (_ & v & -> & r & Hj); [|apply Hi] end.
  match goal with Hx : slash_stake _ _ _ _ = _ |- _ => apply slash_stake_registry in Hx as (b & m & Hs) end.
  destruct (punish_becomes _ _ _ _ _ _ HL Hj) as (L1 & HL1 & Hne1 & Hret1 & Ha1).
  destruct (slash_becomes _ _ L1 _ _ _ _ _ HL1 Hret1 Hs) as (L2 & HL2 & Hne2 & Hret2 & Ha2).
  exists L2. split_and!; [done| |done|].
  - intros b' Hb'. by rewrite Hne2, Hne1.
  - rewrite Ha2. destruct (L a); try (by rewrite Ha1). by destruct Ha1 as [? ->].
Qed.

(** * Felonies *)

Lemma increase_ok a amount st st' :
  increase_balance a amount st = (Ok tt, st') ->
  (native st).[a] + amount <= u256_max \/ amount = 0.
Proof. unfold increase_balance. intros Hr. minv_all; bprop; [by right|by left]. Qed.

Lemma increase_effect a amount st st' :
  increase_balance a amount st = (Ok tt, st') ->
  exists n, st' = st <| native := n |>
    /\ forall b, n.[b] = (native st).[b] + (if decide (b = a) then amount else 0).
Proof.
  unfold increase_balance. intros Hr. minv_all; bprop.
  - exists (native st). split; [by destruct st|]. intros b. case_decide; lia.
  - eexists. split; [reflexivity|]. intros b. rewrite mread_mwrite. repeat case_decide; subst; try done; lia.
Qed.
Lemma increase_inv a amount st st' :
  stk_inv st -> 0 <= amount -> increase_balance a amount st = (Ok tt, st') -> stk_inv st'.
Proof.
  intros [Hb Hm] Ha Hr. pose proof (increase_ok _ _ _ _ Hr) as Hmax.
  apply increase_effect in Hr as (n & -> & Hn). split; [|by eapply mirrored_frame].
  eapply books_native; [exact Hb| |].
  - intros b. rewrite Hn. pose proof (bk_native _ _ Hb b). case_decide; [subst|]; lia.
  - rewrite Hn. case_decide; lia.
Qed.

(** The submitter's reward for a slashed amount. *)
Definition felony_reward (s : SlashIndicator) (slashed : Z) : Z :=
  if slashed =? 0 then 0 else wrapping_mul u256_max slashed (evidence_reward_percent s) / 100.

Lemma reward_bound s slashed : 0 <= felony_reward s slashed.
Proof.
  unfold felony_reward. case_match; [done|]. apply Z.div_pos; [|lia].
  unfold wrapping_mul. apply Z.mod_pos_bound. done.
Qed.



Lemma native_same st : st <| native := native st |> = st.
Proof. by destruct st. Qed.

Lemma pay_reward_ok submitter slashed s reward s' :
  stk_inv (si_staking s) ->
  (if slashed =? 0 then mret 0
   else
     let! reward_pct := gets evidence_reward_percent in
     let reward := wrapping_mul u256_max slashed reward_pct / 100 in
     (if reward =? 0 then mret tt else on_staking (increase_balance submitter reward)) ;;;
     mret reward) s = (Ok reward, s') ->
  reward = felony_reward s slashed
  /\ exists n, s' = s <| si_staking := (si_staking s) <| native := n |> |>
  /\ stk_inv ((si_staking s) <| native := n |>)
  /\ forall b, n.[b] = (native (si_staking s)).[b] + (if decide (b = submitter) then reward else 0).
Proof.
  intros Hi Hr. pose proof (reward_bound s slashed) as Hpos. unfold felony_reward in *.
  destruct (slashed =? 0); minv; [split; [done|]..].
  - exists (native (si_staking s)). rewrite native_same. split_and!; [by destruct s|done|].
    intros b. case_decide; lia.
  - set (reward := wrapping_mul _ _ _ / 100) in *. destruct (Z.eqb_spec reward 0) as [E|_]; minv.
    + exists (native (si_staking s)). rewrite native_same, E. split_and!; [by destruct s|done|].
      intros b. case_decide; lia.
    + match goal with Hx : on_staking _ _ = _ |- _ => apply on_staking_ok in Hx as (st & Hst & ->) end.
      pose proof (increase_inv _ _ _ _ Hi Hpos Hst) as Hi'.
      apply increase_effect in Hst as (n & -> & Hn). by exists n.
Qed.

(** What a felony on evidence does to the whole state. *)
Lemma evidence_felony_ok env a submitter s s' :
  si_inv s -> apply_evidence_felony env a submitter s = (Ok tt, s') ->
  let slashed := felony_take s a in
  let reward := felony_reward s slashed in
  exists st, s' = s <| felony_count := mwrite a (wrapping_add u64_max (felony_count s).[a] 1) (felony_count s) |>
                    <| si_staking := st |>
                    <| si_events := si_events s ++ [EvidenceFelonyApplied a submitter slashed reward] |>
  /\ stk_inv st
  /\ (forall b, (stake_amount st).[b] = (stake_amount (si_staking s)).[b]
        - (if decide (b = a) then slash_of (slash_amount_percent s) (stake_amount (si_staking s)).[a] else 0))
  /\ (forall b, (native st).[b] = (native (si_staking s)).[b]
        - (if decide (b = STAKING_ADDRESS) then slashed else 0)
        + (if decide (b = submitter) then reward else 0))
  /\ 0 <= slashed <= u256_max
  /\ entries_cut (slash_amount_percent s) a (queue (si_staking s)) (queue st).
Proof.
  intros Hi Ha. unfold apply_evidence_felony in Ha.
  apply mbind_ok in Ha as ([fc slashed] & s1 & Hc & Ha).
  destruct (convict_ok _ _ _ _ _ _ Hi Hc) as (-> & -> & st & -> & Hi1 & Hst & Hn & Hn2 & Hpos & Hcut).
  cbv zeta. apply mbind_ok in Ha as (reward & s2 & Hrew & Ha).
  apply pay_reward_ok in Hrew as (-> & n & -> & Hi2 & Hn3); [|done].
  unfold si_emit in Ha. minv. eexists. split_and!; [reflexivity|done|done| |done| |exact Hcut].
  - intros b. rewrite Hn3. simpl. destruct (decide (b = STAKING_ADDRESS)) as [->|E]; [by rewrite Hn|].
    rewrite Hn2 by done. by rewrite Z.sub_0_r.
  - pose proof (bk_native _ _ (proj1 Hi1) STAKING_ADDRESS).
    pose proof (bk_native _ _ (proj1 (proj1 Hi)) STAKING_ADDRESS). lia.
Qed.

(** * What evidence has to show *)

Inductive VoteKind : Type := Notarize | Nullify | Finalize.

Definition kind_namespace (k : VoteKind) (committee : list ConsensusPubkey) : list Z :=
  match k with
  | Notarize => notarize_namespace consensus_chain_id committee
  | Nullify => nullify_namespace consensus_chain_id committee
  | Finalize => finalize_namespace consensus_chain_id committee
  end.

(** The evidence key signed the block's proposal as a vote of kind [k]. *)
Definition signed (k : VoteKind) (ev : EvidenceBlock) (committee : list ConsensusPubkey) : Prop :=
  bls_public_key_from_bytes (be_value (pubkey ev)) = true
  /\ bls_signature_from_bytes (signature ev) = true
  /\ bls_verify (signature ev)
       (build_signed_payload_with_ns (kind_namespace k committee) (proposal_bytes ev))
       EVIDENCE_DST (be_value (pubkey ev)) = true.

(** [a] is registered with the consensus key [pk]. *)
Definition owns_key (s : SlashIndicator) (a : Address) (pk : list Z) : Prop :=
  exists l k, validator_lifecycle (si_registry s) a = Ok l
    /\ lifecycle_consensus_pubkey l = Some k /\ consensus_pubkey_hash k = pubkey_hash pk.

(** Two blocks of one signer, for one round, that [votes] rules out together. *)
Definition pair_fault (s : SlashIndicator) (block1 block2 : list Z)
    (votes : EvidenceBlock -> EvidenceBlock -> list ConsensusPubkey -> Prop) (a : Address) : Prop :=
  exists ev1 ev2 round committee,
    EvidenceBlock_parse block1 = Ok ev1 /\ EvidenceBlock_parse block2 = Ok ev2
    /\ pubkey ev1 = pubkey ev2
    /\ evidence_round ev1 = Ok round /\ evidence_round ev2 = Ok round
    /\ committee_set_for_epoch s round.1 = Ok committee
    /\ votes ev1 ev2 committee
    /\ owns_key s a (pubkey ev1).

Definition same_kind (k : VoteKind) (ev1 ev2 : EvidenceBlock) (committee : list ConsensusPubkey) : Prop :=
  proposal_bytes ev1 <> proposal_bytes ev2 /\ signed k ev1 committee /\ signed k ev2 committee.
Definition two_kinds (k1 k2 : VoteKind) (ev1 ev2 : EvidenceBlock) (committee : list ConsensusPubkey) : Prop :=
  signed k1 ev1 committee /\ signed k2 ev2 committee.

(** The epoch is within the schedule's lag of the current one. *)
Definition recent_epoch (s : SlashIndicator) (epoch : Z) : Prop :=
  epoch_number (si_registry s) <= u64_max
  /\ epoch_number (si_registry s)
     <= saturating_add u64_max epoch (invalid_vrf_evidence_max_epoch_lag default_schedule).

Definition is_canonical (env : SlashEnv) (number : Z) (hash : B256) : Prop :=
  block_hash env number = Some hash /\ hash <> 0.

(** A block whose proof of its parent fails the VRF checks, sent by [a]. *)
Definition vrf_fault (env : SlashEnv) (s : SlashIndicator) (ev : InvalidVrfProofEvidence)
    (a : Address) (code : Z) : Prop :=
  exists calldata metadata snapshot err,
    env_block_number env
      <= saturating_add u64_max (child_block_number ev) (invalid_vrf_evidence_max_age_blocks default_schedule)
    /\ recent_epoch s (child_epoch ev)
    /\ is_canonical env (child_block_number ev) (child_block_hash ev)
    /\ saturating_add u64_max (parent_block_number ev) 1 = child_block_number ev
    /\ is_canonical env (parent_block_number ev) (parent_block_hash ev)
    /\ recover_phase1_proposer (phase1_tx_bytes ev) (env_chain_id env) (child_block_number ev)
       = inr (a, calldata)
    /\ input_decode calldata = inr (CertifiedParentAccountingInput metadata)
    /\ finalized_block_number metadata = parent_block_number ev
    /\ finalized_block_hash metadata = parent_block_hash ev
    /\ finalized_epoch metadata = child_epoch ev
    /\ read_committee_snapshot (si_snapshots s)
         (committee_snapshot_key (finalized_epoch metadata) (committee_set_hash metadata)) = Some snapshot
    /\ Exists (fun entry => entry_address entry = a) (committee snapshot)
    /\ verify_v2_proof metadata snapshot (md_proof metadata) (parent_block_hash ev) = inl err
    /\ classify_vrf_failure err = Some code.

(** Two different seed partials of one signer for one round. *)
Definition seed_equivocation (s : SlashIndicator) (ev : SeedPartialEquivocationEvidence) (a : Address) : Prop :=
  let attested partial sig := verify_seed_partial_attest_bytes (spe_signer_pubkey ev)
    (spe_round_epoch ev) (spe_round_view ev) (spe_vrf_version ev) partial sig in
  partial_1 ev <> partial_2 ev
  /\ attested (partial_1 ev) (identity_sig_1 ev) = true
  /\ attested (partial_2 ev) (identity_sig_2 ev) = true
  /\ recent_epoch s (spe_round_epoch ev)
  /\ owns_key s a (spe_signer_pubkey ev).

(** A seed partial that its committee member attested and that does not match the
    member's share of the committee's polynomial. *)
Definition bad_partial (s : SlashIndicator) (ev : InvalidSeedPartialEvidence) (a : Address) : Prop :=
  exists snapshot entry,
    recent_epoch s (ipe_round_epoch ev)
    /\ owns_key s a (ipe_signer_pubkey ev)
    /\ read_committee_snapshot (si_snapshots s)
         (committee_snapshot_key (ipe_round_epoch ev) (ipe_committee_set_hash ev)) = Some snapshot
    /\ committee snapshot !! Z.to_nat (signer_index ev) = Some entry
    /\ entry_pubkey entry = be_value (ipe_signer_pubkey ev)
    /\ vrf_material_version snapshot = ipe_vrf_version ev
    /\ vrf_public_polynomial_hash snapshot <> 0
    /\ keccak256 (commitment ev) = vrf_public_polynomial_hash snapshot
    /\ verify_seed_partial_attest_bytes (ipe_signer_pubkey ev) (ipe_round_epoch ev)
         (ipe_round_view ev) (ipe_vrf_version ev) (ipe_partial ev) (ipe_identity_sig ev) = true
    /\ verify_seed_partial_against_commitment (commitment ev) (signer_index ev)
         (ipe_round_epoch ev) (ipe_round_view ev) (ipe_partial ev) = Some false.

(** The four dedup tables. *)
Inductive Family : Type := Equivocation | InvalidVrf | SeedEquivocation | InvalidPartial.
Definition guard (f : Family) (s : SlashIndicator) : gmap B256 bool :=
  match f with
  | Equivocation => evidence_processed s
  | InvalidVrf => invalid_vrf_evidence_processed s
  | SeedEquivocation => seed_partial_equivocation_processed s
  | InvalidPartial => invalid_seed_partial_processed s
  end.
Definition mark (f : Family) (h : B256) (s : SlashIndicator) : SlashIndicator :=
  match f with
  | Equivocation => s <| evidence_processed := mwrite h true (evidence_processed s) |>
  | InvalidVrf => s <| invalid_vrf_evidence_processed := mwrite h true (invalid_vrf_evidence_processed s) |>
  | SeedEquivocation =>
      s <| seed_partial_equivocation_processed := mwrite h true (seed_partial_equivocation_processed s) |>
  | InvalidPartial => s <| invalid_seed_partial_processed := mwrite h true (invalid_seed_partial_processed s) |>
  end.

(** What a call has to show against [a]: its dedup table and key, and the event
    that ends it. *)
Definition fault (env : SlashEnv) (s : SlashIndicator) (caller : Address) (c : SiUserCall)
    (f : Family) (h : B256) (a : Address) (ends : list SiEvent) : Prop :=
  let pair b1 b2 votes :=
    f = Equivocation /\ h = canonical_evidence_hash b1 b2 /\ ends = [] /\ pair_fault s b1 b2 votes a in
  match c with
  | submitDoubleProposalEvidence b1 b2 | submitConflictingNotarizeEvidence b1 b2 =>
      pair b1 b2 (same_kind Notarize)
  | submitConflictingVoteEvidence b1 b2 =>
      pair b1 b2 (fun ev1 ev2 committee => two_kinds Notarize Nullify ev1 ev2 committee
                                      \/ two_kinds Nullify Notarize ev1 ev2 committee)
  | submitConflictingFinalizeEvidence b1 b2 => pair b1 b2 (same_kind Finalize)
  | submitNullifyFinalizeEvidence b1 b2 => pair b1 b2 (two_kinds Nullify Finalize)
  | submitInvalidVrfProofEvidence data =>
      exists ev code, Z.of_nat (length data) <= invalid_vrf_evidence_max_bytes default_schedule
        /\ InvalidVrfProofEvidence_decode data = Ok ev /\ vrf_fault env s ev a code
        /\ f = InvalidVrf
        /\ h = invalid_vrf_evidence_hash_v2 (child_block_hash ev) (keccak256 (phase1_tx_bytes ev))
        /\ ends = [InvalidVrfProofEvidenceApplied a caller (child_block_hash ev) code]
  | submitSeedPartialEquivocationEvidence data =>
      exists ev, SeedPartialEquivocationEvidence_decode data = Ok ev /\ seed_equivocation s ev a
        /\ f = SeedEquivocation /\ h = SeedPartialEquivocationEvidence_dedup_hash ev
        /\ ends = [SeedPartialEquivocationApplied a caller (spe_round_epoch ev) (spe_round_view ev)
                     (spe_vrf_version ev)]
  | submitInvalidSeedPartialEvidence data =>
      exists ev, Z.of_nat (length data) <= invalid_vrf_evidence_max_bytes default_schedule
        /\ InvalidSeedPartialEvidence_decode data = Ok ev /\ bad_partial s ev a
        /\ f = InvalidPartial /\ h = InvalidSeedPartialEvidence_dedup_hash ev
        /\ ends = [InvalidSeedPartialApplied a caller (ipe_round_epoch ev) (ipe_round_view ev)
                     (ipe_vrf_version ev)]
  end.

(** * The entry points, both ways *)

Definition active_submitter (s : SlashIndicator) (caller : Address) : Prop :=
  exists l, validator_lifecycle (si_registry s) caller = Ok l /\ is_active_status l = true.

Lemma active_iff s caller s' :
  require_active_submitter caller s = (Ok tt, s') <-> active_submitter s caller /\ s' = s.
Proof.
  unfold require_active_submitter, active_submitter. split.
  - intros Hr. minv. eauto.
  - intros [(l & Hl & Ha) ->]. unfold mbind, reads, require. rewrite Hl. simpl. by rewrite Ha.
Qed.

Lemma lag_iff s epoch s' :
  require_epoch_lag default_schedule epoch s = (Ok tt, s') <-> recent_epoch s epoch /\ s' = s.
Proof.
  unfold require_epoch_lag, recent_epoch, current_epoch_u64. split.
  - intros Hr. minv. bprop. done.
  - intros [[H1 H2] ->]. unfold mbind, reads, require, rrequire.
    apply Z.leb_le in H1. rewrite H1. cbn [rbind]. apply Z.ltb_ge in H2. by rewrite H2.
Qed.

Lemma canonical_iff env number hash m1 m2 s s' :
  require_canonical env number hash m1 m2 s = (Ok tt, s') <-> is_canonical env number hash /\ s' = s.
Proof.
  unfold require_canonical, is_canonical, canonical_block_hash. split.
  - intros Hr. minv. case_match; simplify_eq. bprop. by subst.
  - intros [[H1 H2] ->]. rewrite H1. cbn [ok_or rbind]. apply Z.eqb_neq in H2. rewrite H2.
    unfold mbind, lift, require. cbn [ok_or]. by rewrite Z.eqb_refl.
Qed.

Lemma owner_iff s a pk :
  si_inv s ->
  (lookup_by_pubkey_hash s (pubkey_hash pk) = a /\ a <> 0) <-> owns_key s a pk.
Proof.
  intros ((_ & [L Hr] & _) & _). pose proof (vr_core _ _ Hr) as Hc. unfold lookup_by_pubkey_hash, owns_key.
  fold (si_registry s) in Hc. split.
  - intros [<- Hne]. destruct (cr_owner _ _ _ Hc _ Hne) as (k & Hk & Hh).
    eexists _, k. split; [by eapply rep_lifecycle|done].
  - intros (l & k & Hl & Hk & Hh). rewrite (rep_lifecycle _ _ _ _ Hc) in Hl. simplify_eq.
    rewrite <- Hh. split; [by apply (cr_key _ _ _ Hc)|]. intros ->. by rewrite (cr_zero _ _ _ Hc) in Hk.
Qed.

Lemma verify_iff k ev committee :
  verify_bls_signature ev (kind_namespace k committee) = Ok tt <-> signed k ev committee.
Proof.
  unfold verify_bls_signature, signed. split.
  - intros Hr. minv. done.
  - intros (H1 & H2 & H3). by rewrite H1, H2, H3.
Qed.

Lemma is_ok_iff (r : result unit) : is_ok r = true <-> r = Ok tt.
Proof. destruct r as [[]| |]; naive_solver. Qed.

Lemma punish_iff env caller ev h s s' :
  si_inv s ->
  punish_signer env caller ev h s = (Ok tt, s') <->
  exists a, owns_key s a (pubkey ev)
    /\ apply_evidence_felony env a caller (mark Equivocation h s) = (Ok tt, s').
Proof.
  intros Hi. unfold punish_signer. split.
  - intros Hr. minv. bprop. eexists. split; [by apply owner_iff|]. done.
  - intros (a & Ho & Hf). apply owner_iff in Ho as [Hl Hn]; [|done].
    unfold mbind, gets, require. rewrite Hl. apply Z.eqb_neq in Hn. by rewrite Hn.
Qed.

Definition accepted (env : SlashEnv) (caller : Address) (c : SiUserCall) (s s' : SlashIndicator) : Prop :=
  active_submitter s caller /\ exists f h a ends s2,
    fault env s caller c f h a ends /\ (guard f s).[h] = false
    /\ apply_evidence_felony env a caller (mark f h s) = (Ok tt, s2)
    /\ s' = s2 <| si_events := si_events s2 ++ ends |>.

Lemma events_nil s : s <| si_events := si_events s ++ [] |> = s.
Proof. rewrite app_nil_r. by destruct s. Qed.

Lemma lift_run {A} (r : result A) (s : SlashIndicator) a : r = Ok a -> lift r s = (Ok a, s).
Proof. by intros ->. Qed.
Lemma reads_run {A} (f : SlashIndicator -> result A) s a : f s = Ok a -> reads f s = (Ok a, s).
Proof. unfold reads. by intros ->. Qed.
Lemma require_run b e (s : SlashIndicator) : b = true -> require b e s = (Ok tt, s).
Proof. by intros ->. Qed.

Lemma ok_or_run {A} (o : option A) e a : o = Some a -> ok_or o e = Ok a.
Proof. by intros ->. Qed.
Lemma or_revert_iff {A} (r : stx A) msg a : or_revert r msg = Ok a <-> r = inr a.
Proof. destruct r; naive_solver. Qed.

(** Accusations by a pair, given their facts in any order. *)
Lemma pair_accepted env s caller c b1 b2 votes s' ev1 ev2 r committee :
  si_inv s ->
  (forall f h a ends, fault env s caller c f h a ends <->
     f = Equivocation /\ h = canonical_evidence_hash b1 b2 /\ ends = [] /\ pair_fault s b1 b2 votes a) ->
  active_submitter s caller ->
  EvidenceBlock_parse b1 = Ok ev1 -> EvidenceBlock_parse b2 = Ok ev2 -> pubkey ev1 = pubkey ev2 ->
  evidence_round ev1 = Ok r -> evidence_round ev2 = Ok r ->
  (evidence_processed s).[canonical_evidence_hash b1 b2] = false ->
  committee_set_for_epoch s r.1 = Ok committee -> votes ev1 ev2 committee ->
  punish_signer env caller ev1 (canonical_evidence_hash b1 b2) s = (Ok tt, s') ->
  accepted env caller c s s'.
Proof.
  intros Hi Hc Ha H1 H2 Hk Hr1 Hr2 Hp Hcm Hv Hr. split; [done|].
  apply punish_iff in Hr as (a & Ho & Hf); [|done].
  exists Equivocation, (canonical_evidence_hash b1 b2), a, [], s'. rewrite Hc, events_nil.
  split_and!; try done. by exists ev1, ev2, r, committee.
Qed.

(** The checks of a pair, ending in [punish_signer]. *)
Ltac mrun :=
  repeat first
    [ eapply mbind_ok_intro; [reflexivity|]; cbv beta
    | eapply mbind_ok_intro; [apply lift_run; eassumption|]; cbv beta
    | eapply mbind_ok_intro; [apply reads_run; eassumption|]; cbv beta
    | eapply mbind_ok_intro; [apply reads_run, ok_or_run; eassumption|]; cbv beta
    | eapply mbind_ok_intro; [apply lift_run, ok_or_run; eassumption|]; cbv beta
    | eapply mbind_ok_intro; [apply lift_run, or_revert_iff; eassumption|]; cbv beta
    | eapply mbind_ok_intro; [apply active_iff; eauto|]; cbv beta
    | eapply mbind_ok_intro; [apply lag_iff; eauto|]; cbv beta
    | eapply mbind_ok_intro; [apply canonical_iff; eauto|]; cbv beta
    | eapply mbind_ok_intro; [apply require_run;
        rewrite ?negb_true_iff; first [eassumption|by apply bool_decide_eq_true|by apply bool_decide_eq_false|
        by apply Z.eqb_eq|by apply Z.eqb_neq|by apply Z.ltb_ge
        |apply andb_true_intro; split; first [eassumption|by apply Z.eqb_eq]]|]; cbv beta ].

Ltac split_pair :=
  match goal with Hx : require_active_submitter _ _ = _ |- _ => apply active_iff in Hx as [? ->] end;
  bprop; subst; eapply pair_accepted; try done.

Lemma double_proposal_iff env s caller b1 b2 s' :
  si_inv s ->
  submit_double_proposal_evidence env caller b1 b2 s = (Ok tt, s') <->
  accepted env caller (submitDoubleProposalEvidence b1 b2) s s'.
Proof.
  intros Hi. unfold submit_double_proposal_evidence. split.
  - intros Hr. minv. split_pair. split_and!; [done|by apply (verify_iff Notarize)..].
  - intros (Ha & f & h & a & ends & s2 & (-> & -> & -> & ev1 & ev2 & r & cm & Hpair) & Hp & Hf & ->).
    destruct Hpair as (H1 & H2 & Hk & Hr1 & Hr2 & Hcm & (Hd & Hv1 & Hv2) & Ho).
    apply (verify_iff Notarize) in Hv1, Hv2. rewrite events_nil.
    mrun. apply punish_iff; [done|]. by exists a.
Qed.

Lemma conflicting_vote_iff env s caller b1 b2 s' :
  si_inv s ->
  submit_conflicting_vote_evidence env caller b1 b2 s = (Ok tt, s') <->
  accepted env caller (submitConflictingVoteEvidence b1 b2) s s'.
Proof.
  intros Hi. unfold submit_conflicting_vote_evidence, verify_notarize_signature, verify_nullify_signature.
  split.
  - intros Hr. minv. split_pair. simpl. unfold two_kinds. setoid_rewrite <- verify_iff.
    setoid_rewrite <- is_ok_iff. setoid_rewrite <- andb_true_iff. done.
  - intros (Ha & f & h & a & ends & s2 & (-> & -> & -> & ev1 & ev2 & r & cm & Hpair) & Hp & Hf & ->).
    destruct Hpair as (H1 & H2 & Hk & Hr1 & Hr2 & Hcm & Hv & Ho). rewrite events_nil.
    unfold two_kinds in Hv. setoid_rewrite <- verify_iff in Hv. setoid_rewrite <- is_ok_iff in Hv.
    setoid_rewrite <- andb_true_iff in Hv. rewrite <- orb_true_iff in Hv.
    mrun. apply punish_iff; [done|]. by exists a.
Qed.

Lemma equivocation_iff env s caller c b1 b2 (distinct : bool) k1 k2 s' :
  si_inv s ->
  (forall f h a ends, fault env s caller c f h a ends <->
     f = Equivocation /\ h = canonical_evidence_hash b1 b2 /\ ends = []
     /\ pair_fault s b1 b2 (fun ev1 ev2 committee =>
          (distinct = true -> proposal_bytes ev1 <> proposal_bytes ev2)
          /\ two_kinds k1 k2 ev1 ev2 committee) a) ->
  apply_equivocation_felony env caller b1 b2 distinct
    (fun ev committee => verify_bls_signature ev (kind_namespace k1 committee))
    (fun ev committee => verify_bls_signature ev (kind_namespace k2 committee)) s = (Ok tt, s') <->
  accepted env caller c s s'.
Proof.
  intros Hi Hc. unfold apply_equivocation_felony. split.
  - intros Hr. minv. split_pair. simpl. unfold two_kinds. rewrite <- !verify_iff. split; [|done].
    intros ->. match goal with Hx : true = false \/ _ |- _ => destruct Hx as [|Hx]; [done|] end.
    by bprop.
  - intros (Ha & f & h & a & ends & s2 & Hfault & Hp & Hf & ->).
    apply Hc in Hfault as (-> & -> & -> & ev1 & ev2 & r & cm & H1 & H2 & Hk & Hr1 & Hr2 & Hcm & [Hd Hv] & Ho).
    unfold two_kinds in Hv. rewrite <- !verify_iff in Hv. destruct Hv as [Hv1 Hv2]. rewrite events_nil.
    assert (Hdb : distinct && bool_decide (proposal_bytes ev1 = proposal_bytes ev2) = false).
    { destruct distinct; [|done]. by apply bool_decide_eq_false, Hd. }
    mrun. apply punish_iff; [done|]. by exists a.
Qed.

Lemma pair_fault_iff s b1 b2 v v' a :
  (forall ev1 ev2 committee, v ev1 ev2 committee <-> v' ev1 ev2 committee) ->
  pair_fault s b1 b2 v a <-> pair_fault s b1 b2 v' a.
Proof. intros Hv. unfold pair_fault. by setoid_rewrite Hv. Qed.

Lemma phase1_metadata_iff calldata metadata :
  phase1_metadata calldata = Ok metadata
  <-> input_decode calldata = inr (CertifiedParentAccountingInput metadata).
Proof.
  unfold phase1_metadata. split.
  - intros Hr. minv. apply or_revert_iff in H0 as ->. case_match; naive_solver.
  - intros ->. done.
Qed.

Lemma vrf_failure_iff metadata snapshot h code :
  vrf_failure metadata snapshot h = Ok code <->
  exists err, verify_v2_proof metadata snapshot (md_proof metadata) h = inl err
    /\ classify_vrf_failure err = Some code.
Proof.
  unfold vrf_failure. destruct (verify_v2_proof _ _ _ _) as [err|]; [|naive_solver].
  destruct (classify_vrf_failure err) eqn:E; simpl; naive_solver.
Qed.

Lemma in_committee_iff l a :
  existsb (fun entry => entry_address entry =? a) l = true
  <-> Exists (fun entry => entry_address entry = a) l.
Proof.
  rewrite existsb_exists, Exists_exists. setoid_rewrite Z.eqb_eq.
  by setoid_rewrite <- list_elem_of_In.
Qed.

Lemma felony_emit_iff env a caller e s s' :
  (apply_evidence_felony env a caller ;;; si_emit e) s = (Ok tt, s') <->
  exists s2, apply_evidence_felony env a caller s = (Ok tt, s2)
    /\ s' = s2 <| si_events := si_events s2 ++ [e] |>.
Proof.
  split.
  - intros Hr. apply mbind_ok in Hr as ([] & s2 & Hf & Hr). unfold si_emit in Hr. minv. by exists s2.
  - intros (s2 & Hf & ->). eapply mbind_ok_intro; [exact Hf|]. done.
Qed.

Ltac split_checks :=
  repeat match goal with
  | Hx : require_active_submitter _ _ = _ |- _ => apply active_iff in Hx as [? ->]
  | Hx : require_epoch_lag _ _ _ = _ |- _ => apply lag_iff in Hx as [? ->]
  | Hx : require_canonical _ _ _ _ _ _ = _ |- _ => apply canonical_iff in Hx as [? ->]
  | Hx : or_revert _ _ = Ok _ |- _ => apply or_revert_iff in Hx
  | Hx : phase1_metadata _ = Ok _ |- _ => apply phase1_metadata_iff in Hx
  | Hx : vrf_failure _ _ _ = Ok _ |- _ => apply vrf_failure_iff in Hx as (? & ? & ?)
  | Hx : existsb _ _ = true |- _ => apply in_committee_iff in Hx
  end.

Lemma invalid_vrf_iff env s caller data s' :
  si_inv s ->
  submit_invalid_vrf_evidence env caller data s = (Ok tt, s') <->
  accepted env caller (submitInvalidVrfProofEvidence data) s s'.
Proof.
  intros Hi. unfold submit_invalid_vrf_evidence, submit_invalid_vrf_evidence_with_schedule. split.
  - intros Hr. minv. match goal with x : Z * list Z |- _ => destruct x as [a calldata] end.
    unfold si_emit in *. minv. split_checks. bprop.
    split; [done|]. eexists InvalidVrf, _, a, _, _. split_and!; [|done|eassumption|reflexivity].
    eexists _, _. split_and!; [done|done| |done|done|done]. eexists _, _, _, _. by split_and!.
  - intros (Ha & f & h & a & ends & s2 & (ev & code & Hlen & Hd & Hv & -> & -> & ->) & Hp & Hf & ->).
    destruct Hv as (cd & md & sn & err & H1 & H2 & H3 & H4 & H5 & H6 & H7 & H8 & H9 & H10 & H11 & H12 & H13 & H14).
    assert (H15 : vrf_failure md sn (parent_block_hash ev) = Ok code) by (apply vrf_failure_iff; eauto).
    apply in_committee_iff in H12. apply phase1_metadata_iff in H7.
    mrun. apply felony_emit_iff. by exists s2.
Qed.

Lemma seed_equivocation_iff env s caller data s' :
  si_inv s ->
  submit_seed_partial_equivocation_evidence env caller data s = (Ok tt, s') <->
  accepted env caller (submitSeedPartialEquivocationEvidence data) s s'.
Proof.
  intros Hi. unfold submit_seed_partial_equivocation_evidence,
    submit_seed_partial_equivocation_evidence_with_schedule. split.
  - intros Hr. unfold si_emit in *. minv. split_checks. bprop.
    split; [done|]. eexists SeedEquivocation, _, _, _, _. split_and!; [|done|eassumption|reflexivity].
    eexists. split_and!; [done| |done..]. split_and!; try done. by apply owner_iff.
  - intros (Ha & f & h & a & ends & s2 & (ev & Hd & Hv & -> & -> & ->) & Hp & Hf & ->).
    destruct Hv as (H1 & H2 & H3 & H4 & H5). apply owner_iff in H5 as [H5 H6]; [|done].
    subst a. mrun. apply felony_emit_iff. by exists s2.
Qed.

Lemma invalid_partial_iff env s caller data s' :
  si_inv s ->
  submit_invalid_seed_partial_evidence env caller data s = (Ok tt, s') <->
  accepted env caller (submitInvalidSeedPartialEvidence data) s s'.
Proof.
  intros Hi. unfold submit_invalid_seed_partial_evidence,
    submit_invalid_seed_partial_evidence_with_schedule. split.
  - intros Hr. unfold si_emit in *. minv. split_checks. bprop.
    split; [done|]. eexists InvalidPartial, _, _, _, _. split_and!; [|done|eassumption|reflexivity].
    eexists. split_and!; [done|done| |done..]. eexists _, _. split_and!; try done.
    + by apply owner_iff.
    + repeat case_match; by simplify_eq.
  - intros (Ha & f & h & a & ends & s2 & (ev & Hlen & Hd & Hv & -> & -> & ->) & Hp & Hf & ->).
    destruct Hv as (sn & entry & H1 & H2 & H3 & H4 & H5 & H6 & H7 & H8 & H9 & H10).
    apply owner_iff in H2 as [H2 H11]; [|done]. subst a. mrun.
    eapply mbind_ok_intro; [by rewrite H10|]. mrun. apply felony_emit_iff. by exists s2.
Qed.

(** A call succeeds exactly when its evidence is accepted. *)
Lemma dispatch_iff env caller value c s s' :
  si_inv s ->
  si_dispatch env caller value c s = (Ok tt, s') <-> value = 0 /\ accepted env caller c s s'.
Proof.
  intros Hi. unfold si_dispatch.
  assert (Hreq : forall (k : IM unit) P, (k s = (Ok tt, s') <-> P) ->
    (require (value =? 0) (Revert "non-payable function called with value") ;;; k) s = (Ok tt, s')
    <-> value = 0 /\ P).
  { intros k P <-. unfold mbind, require. destruct (Z.eqb_spec value 0); naive_solver. }
  apply Hreq. destruct c.
  - by apply double_proposal_iff.
  - by apply conflicting_vote_iff.
  - apply (equivocation_iff env s caller _ block1 block2 true Notarize Notarize); [done|].
    intros. simpl. do 3 apply and_iff_compat_l. apply pair_fault_iff.
    unfold same_kind, two_kinds. naive_solver.
  - apply (equivocation_iff env s caller _ block1 block2 true Finalize Finalize); [done|].
    intros. simpl. do 3 apply and_iff_compat_l. apply pair_fault_iff.
    unfold same_kind, two_kinds. naive_solver.
  - apply (equivocation_iff env s caller _ nullifyBlock finalizeBlock false Nullify Finalize); [done|].
    intros. simpl. do 3 apply and_iff_compat_l. apply pair_fault_iff.
    unfold two_kinds. naive_solver.
  - by apply invalid_vrf_iff.
  - by apply seed_equivocation_iff.
  - by apply invalid_partial_iff.
Qed.

(** * Invariants of the calls *)

Lemma on_staking_run {A} (m : SM A) s r st :
  m (si_staking s) = (Ok r, st) -> on_staking m s = (Ok r, s <| si_staking := st |>).
Proof. unfold on_staking, zoom. by intros ->. Qed.

(** A felony on misses is the conviction, its steps in another order. *)
Lemma miss_felony_convict env a s fc s' :
  miss_felony env a s = (Ok fc, s') -> exists slashed, convict env a s = (Ok (fc, slashed), s').
Proof.
  intros Hr. unfold miss_felony in Hr. minv.
  repeat match goal with Hx : on_staking _ _ = _ |- _ => apply on_staking_ok in Hx as (? & ? & ->) end.
  eexists. unfold convict. eapply mbind_ok_intro; [by apply on_staking_run|].
  mrun. eapply mbind_ok_intro; [by apply on_staking_run|]. done.
Qed.

Lemma convict_inv env a s r s' : si_inv s -> convict env a s = (Ok r, s') -> si_inv s'.
Proof.
  intros Hi Hc. destruct r as [fc slashed].
  apply convict_ok in Hc as (_ & _ & st & -> & Hst & _); [|done]. split; [done|apply Hi].
Qed.

Lemma slash_proposer_inv env a s s' : si_inv s -> slash_proposer env a s = (Ok tt, s') -> si_inv s'.
Proof.
  intros Hi Hr. unfold slash_proposer in Hr. minv_all; unfold si_emit in *; minv; try apply Hi.
  match goal with Hx : miss_felony _ _ _ = _ |- _ =>
    apply miss_felony_convict in Hx as [? Hx]; apply convict_inv in Hx; [exact Hx|exact Hi] end.
Qed.
Lemma slash_voter_inv env a s s' : si_inv s -> slash_voter env a s = (Ok tt, s') -> si_inv s'.
Proof.
  intros Hi Hr. unfold slash_voter in Hr. minv_all; unfold si_emit in *; minv; try apply Hi.
  match goal with Hx : miss_felony _ _ _ = _ |- _ =>
    apply miss_felony_convict in Hx as [? Hx]; apply convict_inv in Hx; [exact Hx|exact Hi] end.
Qed.

Lemma system_inv env c s s' : si_inv s -> si_system env c s = (Ok tt, s') -> si_inv s'.
Proof.
  intros Hi Hr. destruct c; simpl in Hr.
  - unfold slash_window_voters in Hr. minv_all; [done|].
    match goal with Hx : mfor _ _ _ = _ |- _ => apply (mfor_inv si_inv) in Hx; [exact Hx| |done] end.
    intros ??? _. apply slash_voter_inv.
  - unfold slash_window_proposers in Hr. minv_all; [done|].
    match goal with Hx : mfor _ _ _ = _ |- _ => apply (mfor_inv si_inv) in Hx; [exact Hx| |done] end.
    intros ??? _. apply slash_proposer_inv.
  - unfold prune_slash_guards in Hr. minv_all; apply Hi.
  - unfold slash_byzantine, si_emit in Hr. minv. destruct x as [fc slashed]. minv.
    by match goal with Hx : convict _ _ _ = _ |- _ => apply convict_inv in Hx end.
  - unfold si_reset_epoch_counters in Hr.
    apply (mfor_inv si_inv) in Hr; [done| |done]. intros. minv. done.
Qed.

(** * Paths of the whole system *)

(** The calls: evidence, a hook of the executor, and what Staking, the registry
    and the snapshots do in between. *)
Inductive SiCall : Type :=
  | Evidence (env : SlashEnv) (caller : Address) (value : Z) (c : SiUserCall)
  | Hook (env : SlashEnv) (c : SiSystemCall)
  | World (st : Staking) (sn : SnapshotStore).

Definition si_run (c : SiCall) : IM unit :=
  match c with
  | Evidence env caller value c => si_dispatch env caller value c
  | Hook env c => si_system env c
  | World st sn => modify (fun s => s <| si_staking := st |> <| si_snapshots := sn |>)
  end.

Definition si_exec (s s' : SlashIndicator) : Prop :=
  exists c, si_run c s = (Ok tt, s')
    /\ match c with World st _ => rtc sys_exec (si_staking s) st | _ => True end.

Lemma mark_inv f h s : si_inv s -> si_inv (mark f h s).
Proof. by destruct f. Qed.

Lemma accepted_inv env caller c s s' : si_inv s -> accepted env caller c s s' -> si_inv s'.
Proof.
  intros Hi (_ & f & h & a & ends & s2 & _ & _ & Hf & ->).
  apply evidence_felony_ok in Hf as (st & -> & Hst & _); [|by apply mark_inv].
  split; [exact Hst|]. by destruct f; apply Hi.
Qed.

Lemma si_exec_inv s s' : si_exec s s' -> si_inv s -> si_inv s'.
Proof.
  intros (c & Hr & Hw) Hi. destruct c as [env caller value c|env c|st sn]; simpl in Hr.
  - apply dispatch_iff in Hr as [_ Hr]; [|done]. by eapply accepted_inv.
  - by eapply system_inv.
  - minv. split; [by eapply sys_path_inv, Hi|apply Hi].
Qed.

(** The dedup tables only fill. *)
Lemma keeps_on_staking {A V} (f : SlashIndicator -> V) (m : SM A) :
  (forall s st, f (s <| si_staking := st |>) = f s) -> keeps f (on_staking m).
Proof. intros Hf s. unfold on_staking, zoom. destruct (m (si_staking s)). apply Hf. Qed.

Ltac keeps_si :=
  repeat first
    [ apply keeps_on_staking; intros; reflexivity
    | progress solve_keeps ].

Lemma system_guard env c f : keeps (guard f) (si_system env c).
Proof.
  destruct c, f; simpl; unfold slash_window_voters, slash_window_proposers, prune_slash_guards,
    slash_byzantine, si_reset_epoch_counters, slash_voter, slash_proposer, miss_felony, convict, si_emit;
    keeps_si.
Qed.

Lemma accepted_guard env caller c s s' f h :
  si_inv s -> accepted env caller c s s' -> (guard f s).[h] = true -> (guard f s').[h] = true.
Proof.
  intros Hi (_ & f' & h' & a & ends & s2 & _ & _ & Hf & ->) Hg.
  apply evidence_felony_ok in Hf as (st & -> & _); [|by apply mark_inv].
  destruct f, f'; simpl in *; try done; rewrite mread_mwrite; by case_decide.
Qed.

Lemma exec_guard s s' f h :
  si_exec s s' -> si_inv s -> (guard f s).[h] = true -> (guard f s').[h] = true.
Proof.
  intros (c & Hr & _) Hi Hg. destruct c as [env caller value c|env c|st sn]; simpl in Hr.
  - apply dispatch_iff in Hr as [_ Hr]; [|done]. by eapply accepted_guard.
  - by rewrite (keeps_run _ _ _ _ _ (system_guard env c f) Hr).
  - minv. by destruct f.
Qed.

Lemma path_inv s s' : rtc si_exec s s' -> si_inv s -> si_inv s'.
Proof. induction 1 as [|s1 s2 s3 H12 _ IH]; [done|]. intros Hi. by apply IH, (si_exec_inv s1). Qed.
Lemma path_guard s s' f h :
  rtc si_exec s s' -> si_inv s -> (guard f s).[h] = true -> (guard f s').[h] = true.
Proof.
  induction 1 as [|s1 s2 s3 H12 _ IH]; [done|]. intros Hi Hg.
  apply IH; [by eapply si_exec_inv|by eapply exec_guard].
Qed.

(** * Dedup keys *)

Lemma bytes_leb_flip a : forall b, bytes_leb a b = false -> bytes_leb b a = true.
Proof.
  induction a as [|x a IH]; intros [|y b]; simpl; try done.
  destruct (Z.ltb_spec x y), (Z.ltb_spec y x); auto; done.
Qed.
Lemma bytes_leb_antisym a : forall b, bytes_leb a b = true -> bytes_leb b a = true -> a = b.
Proof.
  induction a as [|x a IH]; intros [|y b]; simpl; try done.
  destruct (Z.ltb_spec x y), (Z.ltb_spec y x); try done; [lia|]. intros Hab Hba.
  rewrite (IH b Hab Hba). f_equal. lia.
Qed.
Lemma canonical_evidence_hash_comm b1 b2 :
  canonical_evidence_hash b1 b2 = canonical_evidence_hash b2 b1.
Proof.
  unfold canonical_evidence_hash.
  destruct (bytes_leb b1 b2) eqn:E1, (bytes_leb b2 b1) eqn:E2; try done.
  - by rewrite (bytes_leb_antisym _ _ E1 E2).
  - apply bytes_leb_flip in E1. congruence.
Qed.

(** The dedup table and key a call uses. *)
Definition evidence_key (c : SiUserCall) : option (Family * B256) :=
  match c with
  | submitDoubleProposalEvidence b1 b2 | submitConflictingVoteEvidence b1 b2
  | submitConflictingNotarizeEvidence b1 b2 | submitConflictingFinalizeEvidence b1 b2
  | submitNullifyFinalizeEvidence b1 b2 => Some (Equivocation, canonical_evidence_hash b1 b2)
  | submitInvalidVrfProofEvidence data =>
      match InvalidVrfProofEvidence_decode data with
      | Ok ev => Some (InvalidVrf,
          invalid_vrf_evidence_hash_v2 (child_block_hash ev) (keccak256 (phase1_tx_bytes ev)))
      | _ => None
      end
  | submitSeedPartialEquivocationEvidence data =>
      match SeedPartialEquivocationEvidence_decode data with
      | Ok ev => Some (SeedEquivocation, SeedPartialEquivocationEvidence_dedup_hash ev)
      | _ => None
      end
  | submitInvalidSeedPartialEvidence data =>
      match InvalidSeedPartialEvidence_decode data with
      | Ok ev => Some (InvalidPartial, InvalidSeedPartialEvidence_dedup_hash ev)
      | _ => None
      end
  end.

(** The pair of a call in the other order. *)
Definition swapped (c : SiUserCall) : SiUserCall :=
  match c with
  | submitDoubleProposalEvidence b1 b2 => submitDoubleProposalEvidence b2 b1
  | submitConflictingVoteEvidence b1 b2 => submitConflictingVoteEvidence b2 b1
  | submitConflictingNotarizeEvidence b1 b2 => submitConflictingNotarizeEvidence b2 b1
  | submitConflictingFinalizeEvidence b1 b2 => submitConflictingFinalizeEvidence b2 b1
  | submitNullifyFinalizeEvidence b1 b2 => submitNullifyFinalizeEvidence b2 b1
  | c => c
  end.

Lemma swapped_key c : evidence_key (swapped c) = evidence_key c.
Proof. destruct c; simpl; try done; by rewrite canonical_evidence_hash_comm. Qed.

Lemma fault_key env s caller c f h a ends :
  fault env s caller c f h a ends -> evidence_key c = Some (f, h).
Proof.
  destruct c; simpl; try (intros (-> & -> & _ & _); done).
  - intros (ev & code & _ & -> & _ & -> & -> & _). done.
  - intros (ev & -> & _ & -> & -> & _). done.
  - intros (ev & _ & -> & _ & -> & -> & _). done.
Qed.

Lemma accepted_marks env caller c s s' :
  si_inv s -> accepted env caller c s s' ->
  exists f h, evidence_key c = Some (f, h) /\ (guard f s).[h] = false /\ (guard f s').[h] = true.
Proof.
  intros Hi (_ & f & h & a & ends & s2 & Hfault & Hg & Hf & ->).
  exists f, h. split_and!; [by eapply fault_key|done|].
  apply evidence_felony_ok in Hf as (st & -> & _); [|by apply mark_inv].
  destruct f; simpl; by rewrite mread_mwrite_eq.
Qed.

(** * Misses *)

Inductive MissKind : Type := ProposerMiss | VoterMiss.
#[local] Instance MissKind_eq_dec : EqDecision MissKind.
Proof. solve_decision. Defined.

Definition run_miss (k : MissKind) (env : SlashEnv) (a : Address) : IM unit :=
  match k with ProposerMiss => slash_proposer env a | VoterMiss => slash_voter env a end.
Definition miss_counts (k : MissKind) (s : SlashIndicator) : gmap Address Z :=
  match k with ProposerMiss => proposer_miss_count s | VoterMiss => voter_miss_count s end.
Definition felony_threshold (k : MissKind) (s : SlashIndicator) : Z :=
  match k with ProposerMiss => proposer_felony_threshold s | VoterMiss => voter_felony_threshold s end.
Definition count_miss (k : MissKind) (a : Address) (s : SlashIndicator) : SlashIndicator :=
  let count := wrapping_add u64_max (miss_counts k s).[a] 1 in
  match k with
  | ProposerMiss => s <| proposer_miss_count := mwrite a count (proposer_miss_count s) |>
  | VoterMiss => s <| voter_miss_count := mwrite a count (voter_miss_count s) |>
  end.

Definition misdemeanor_threshold (k : MissKind) (s : SlashIndicator) : Z :=
  match k with ProposerMiss => proposer_misdemeanor_threshold s | VoterMiss => voter_misdemeanor_threshold s end.
Definition felony_event (k : MissKind) (a : Address) (count fc : Z) : SiEvent :=
  match k with ProposerMiss => ProposerFelony a count fc | VoterMiss => VoterFelony a count fc end.
Definition misdemeanor_event (k : MissKind) (a : Address) (count : Z) : SiEvent :=
  match k with ProposerMiss => ProposerMisdemeanor a count | VoterMiss => VoterMisdemeanor a count end.

Definition miss_verdict (k : MissKind) (env : SlashEnv) (a : Address) (count : Z) (s : SlashIndicator) :
    IM unit :=
  let! p := reads (fun s => validator_already_penalized s a) in
  if p : bool then mret tt
  else if crosses count (felony_threshold k s) then
    let! fc := miss_felony env a in si_emit (felony_event k a count fc)
  else if crosses count (misdemeanor_threshold k s) then si_emit (misdemeanor_event k a count)
  else mret tt.

Lemma run_miss_eq k env a s :
  run_miss k env a s
  = miss_verdict k env a (wrapping_add u64_max (miss_counts k s).[a] 1) s (count_miss k a s).
Proof. by destruct k. Qed.
Lemma count_miss_staking k a s : si_staking (count_miss k a s) = si_staking s.
Proof. by destruct k. Qed.
Lemma count_miss_inv k a s : si_inv (count_miss k a s) <-> si_inv s.
Proof. by destruct k. Qed.

(** The outcomes of a miss: only counted for a penalized validator, a conviction
    at the felony threshold, an event at the misdemeanor threshold. *)
Lemma miss_cases k env a s s' :
  run_miss k env a s = (Ok tt, s') ->
  let count := wrapping_add u64_max (miss_counts k s).[a] 1 in
  let s1 := count_miss k a s in
  exists l, validator_lifecycle (si_registry s) a = Ok l
  /\ if penalized l then s' = s1
     else if crosses count (felony_threshold k s)
     then exists fc slashed s2, convict env a s1 = (Ok (fc, slashed), s2)
            /\ s' = s2 <| si_events := si_events s2 ++ [felony_event k a count fc] |>
     else s' = s1 <| si_events := si_events s1
            ++ (if crosses count (misdemeanor_threshold k s) then [misdemeanor_event k a count] else []) |>.
Proof.
  rewrite run_miss_eq. unfold miss_verdict, validator_already_penalized, si_emit, si_registry.
  intros Hr. cbv zeta.
  apply mbind_ok in Hr as (p & s1 & Hp & Hr). apply reads_ok in Hp as [Hp ->].
  rewrite count_miss_staking in Hp. apply rbind_ok in Hp as (l & Hl & Hp). exists l. split; [done|].
  fold (penalized l) in Hp. apply Ok_inj in Hp as <-. destruct (penalized l); [by minv|].
  destruct (crosses _ (felony_threshold k s)).
  - minv. match goal with Hx : miss_felony _ _ _ = _ |- _ => apply miss_felony_convict in Hx as [sl Hx] end.
    by eexists _, sl, _.
  - case_match; minv; [done|]. by rewrite events_nil.
Qed.

(** [a] is penalized, with [fc] felonies and [v] bonded. *)
Definition serving (a : Address) (fc v : Z) (s : SlashIndicator) : Prop :=
  si_inv s /\ (felony_count s).[a] = fc /\ (stake_amount (si_staking s)).[a] = v
  /\ exists l, validator_lifecycle (si_registry s) a = Ok l /\ penalized l = true.

Lemma becomes_lifecycle s L a v (P : ValidatorLifecycle -> Prop) b l :
  vs_rep s L -> becomes L a v P -> validator_lifecycle s b = Ok l ->
  exists l', validator_lifecycle v b = Ok l' /\ if decide (b = a) then P l' else l' = l.
Proof.
  intros Hr (L' & Hr' & Hne & HP) Hl. rewrite (rep_lifecycle _ _ _ _ (vr_core _ _ Hr)) in Hl. simplify_eq.
  exists (L' b). split; [by eapply rep_lifecycle, vr_core|]. case_decide; [by subst|by apply Hne].
Qed.

(** A conviction, as seen by [b]. *)
Lemma convict_lifecycle env a s fc slashed s' b l :
  si_inv s -> convict env a s = (Ok (fc, slashed), s') -> validator_lifecycle (si_registry s) b = Ok l ->
  exists l', validator_lifecycle (si_registry s') b = Ok l'
    /\ if decide (b = a)
       then retired l' = true /\ penalized l' = match l with Active _ => true | _ => penalized l end
       else l' = l.
Proof.
  intros Hi Hc Hl. destruct (proj1 (proj2 (proj1 Hi))) as [L HL].
  pose proof (convict_becomes _ _ _ _ _ _ _ Hi HL Hc) as Hb.
  destruct (becomes_lifecycle _ _ _ _ _ b l HL Hb Hl) as (l' & Hl' & Hcase). exists l'. split; [done|].
  case_decide; [|done]. subst. rewrite (rep_lifecycle _ _ _ _ (vr_core _ _ HL)) in Hl. simplify_eq.
  split; [apply Hcase|]. rewrite (proj2 Hcase). by destruct (L a).
Qed.

Lemma miss_serving a fc v k env b s s' :
  serving a fc v s -> run_miss k env b s = (Ok tt, s') -> serving a fc v s'.
Proof.
  intros (Hi & Hfc & Hv & l & Hl & Hpen) Hr.
  assert (Hs1 : serving a fc v (count_miss k b s)) by (destruct k; split_and!; [done|done|done|by exists l|done|done|done|by exists l]).
  apply miss_cases in Hr as (lb & Hlb & Hr). destruct (penalized lb) eqn:Hpb; [by subst|].
  destruct (crosses _ (felony_threshold k s)); [|by subst].
  destruct Hr as (fc' & slashed & s2 & Hc & ->). destruct Hs1 as (Hi1 & Hfc1 & Hv1 & l1 & Hl1 & Hpen1).
  assert (Hab : a <> b).
  { intros ->. rewrite Hlb in Hl. congruence. }
  destruct (convict_lifecycle _ _ _ _ _ _ a l1 Hi1 Hc Hl1) as (l2 & Hl2 & Hcase).
  rewrite decide_False in Hcase by done. subst l2.
  pose proof (convict_inv _ _ _ _ _ Hi1 Hc) as Hi2.
  apply convict_ok in Hc as (-> & -> & st & -> & _ & Hst & _); [|done].
  split_and!; [exact Hi2| | |by exists l1].
  - simpl. by rewrite mread_mwrite_ne.
  - simpl. rewrite Hst, decide_False by done. lia.
Qed.


(** * Windows *)

Definition window_flags (k : MissKind) (s : SlashIndicator) : gmap B256 bool :=
  match k with ProposerMiss => proposer_window_slashed s | VoterMiss => voter_window_slashed s end.
Definition run_window (k : MissKind) (env : SlashEnv) (fb : B256) (l : list Address) : IM unit :=
  match k with ProposerMiss => slash_window_proposers env fb l | VoterMiss => slash_window_voters env fb l end.

Definition prunes (c : SiCall) : Z := match c with Hook _ (PruneSlashGuards _) => 1 | _ => 0 end.
Definition prunes_other (fb : B256) (c : SiCall) : Prop :=
  match c with Hook _ (PruneSlashGuards h) => h <> fb | _ => True end.
Definition total_prunes (calls : list SiCall) : Z := foldr (fun c n => prunes c + n) 0 calls.

(** [fb] was recorded [n] prunes before the last one, and sits in one slot. *)
Definition recorded (fb : B256) (p n : Z) (s : SlashIndicator) : Prop :=
  0 <= p < SLASH_GUARD_RETAIN /\ 0 <= n
  /\ slash_guard_ring_seq s mod SLASH_GUARD_RETAIN = (p + 1 + n) mod SLASH_GUARD_RETAIN
  /\ (slash_guard_ring s).[p] = fb
  /\ forall i, (slash_guard_ring s).[i] = fb -> i = p.

Lemma prune_ok fb s s' :
  prune_slash_guards fb s = (Ok tt, s') ->
  let idx := slash_guard_ring_seq s mod SLASH_GUARD_RETAIN in
  slash_guard_ring s' = (slash_guard_ring s).[idx <- fb]
  /\ slash_guard_ring_seq s' = slash_guard_ring_seq s + 1
  /\ forall k h, h = fb \/ h <> (slash_guard_ring s).[idx] ->
       (window_flags k s').[h] = (window_flags k s).[h].
Proof.
  intros Hr. unfold prune_slash_guards in Hr. cbv zeta. minv_all; bprop; simpl; split_and!; try done.
  intros k h Hh. destruct k; simpl; rewrite mread_mwrite_ne; try done; naive_solver.
Qed.

Lemma other_slot p n : 0 <= p < SLASH_GUARD_RETAIN -> 0 <= n < SLASH_GUARD_RETAIN - 1 ->
  (p + 1 + n) mod SLASH_GUARD_RETAIN <> p.
Proof.
  unfold SLASH_GUARD_RETAIN. intros Hp Hn Heq.
  pose proof (Z.div_mod (p + 1 + n) 64 ltac:(lia)). lia.
Qed.

Lemma prune_recorded h fb p n s s' :
  fb <> 0 -> h <> fb -> recorded fb p n s -> n < SLASH_GUARD_RETAIN - 1 ->
  prune_slash_guards h s = (Ok tt, s') ->
  recorded fb p (n + 1) s' /\ forall k, (window_flags k s').[fb] = (window_flags k s).[fb].
Proof.
  intros Hnz Hh (Hp & Hn & Hseq & Hslot & Huniq) Hlt Hr.
  apply prune_ok in Hr as (Hring & Hseq' & Hflags).
  pose proof (other_slot p n Hp ltac:(lia)) as Hne. rewrite <- Hseq in Hne. split.
  - split_and!; [lia|lia|lia|..].
    + rewrite Hseq', <- Zplus_mod_idemp_l, Hseq, Zplus_mod_idemp_l. f_equal. lia.
    + by rewrite Hring, mread_mwrite_ne.
    + intros i. rewrite Hring, mread_mwrite. case_decide; [congruence|]. apply Huniq.
  - intros k. apply Hflags. right. intros E. apply Hne, Huniq. by symmetry.
Qed.

Ltac open_calls :=
  unfold si_dispatch, submit_double_proposal_evidence, submit_conflicting_vote_evidence,
    submit_conflicting_notarize_evidence, submit_conflicting_finalize_evidence,
    submit_nullify_finalize_evidence, apply_equivocation_felony,
    submit_invalid_vrf_evidence, submit_invalid_vrf_evidence_with_schedule,
    submit_seed_partial_equivocation_evidence, submit_seed_partial_equivocation_evidence_with_schedule,
    submit_invalid_seed_partial_evidence, submit_invalid_seed_partial_evidence_with_schedule,
    require_active_submitter, require_epoch_lag, require_canonical, punish_signer,
    slash_window_voters, slash_window_proposers, slash_byzantine,
    si_reset_epoch_counters, slash_voter, slash_proposer, miss_felony, apply_evidence_felony, convict, si_emit.

Lemma evidence_ring env caller value c : keeps slash_guard_ring (si_dispatch env caller value c).
Proof. destruct c; open_calls; keeps_si. Qed.
Lemma evidence_seq env caller value c : keeps slash_guard_ring_seq (si_dispatch env caller value c).
Proof. destruct c; open_calls; keeps_si. Qed.
Lemma evidence_flags k env caller value c : keeps (window_flags k) (si_dispatch env caller value c).
Proof. destruct k, c; open_calls; keeps_si. Qed.
Lemma miss_flags k k' env a : keeps (window_flags k) (run_miss k' env a).
Proof. destruct k, k'; simpl; open_calls; keeps_si. Qed.

Lemma quiet_hook env c :
  prunes (Hook env c) = 0 ->
  keeps slash_guard_ring (si_system env c) /\ keeps slash_guard_ring_seq (si_system env c).
Proof. destruct c; intros Hc; try done; simpl; split; open_calls; keeps_si. Qed.

Lemma window_cases k env fb l s s' :
  run_window k env fb l s = (Ok tt, s') ->
  (window_flags k s').[fb] = true
  /\ forall k' h, (window_flags k' s).[h] = true -> (window_flags k' s').[h] = true.
Proof.
  intros Hr. destruct ((window_flags k s).[fb]) eqn:Hf.
  - assert (s' = s) as ->; [|done].
    destruct k; simpl in *; unfold slash_window_voters, slash_window_proposers in Hr; minv;
      rewrite Hf in *; by minv.
  - assert (Hm : exists s1, mfor l (run_miss k env) s = (Ok tt, s1)
      /\ window_flags k s' = (window_flags k s1).[fb <- true]
      /\ forall k', k' <> k -> window_flags k' s' = window_flags k' s1).
    { destruct k; simpl in *; unfold slash_window_voters, slash_window_proposers in Hr; minv;
        rewrite Hf in *; minv; eexists; (split_and!; [eassumption|done|by intros []]). }
    destruct Hm as (s1 & Hm & Hk & Hne). rewrite Hk, mread_mwrite_eq. split; [done|].
    intros k' h Hh. rewrite <- (keeps_run (window_flags k') _ _ _ _ (keeps_mfor _ l _ (miss_flags k' k env)) Hm) in Hh.
    destruct (decide (k' = k)) as [->|Hd]; [|by rewrite Hne]. rewrite Hk, mread_mwrite. by case_decide.
Qed.

Lemma call_recorded c fb p n s s' :
  fb <> 0 -> prunes_other fb c -> recorded fb p n s -> n + prunes c < SLASH_GUARD_RETAIN ->
  si_run c s = (Ok tt, s') ->
  recorded fb p (n + prunes c) s'
  /\ forall k, (window_flags k s).[fb] = true -> (window_flags k s').[fb] = true.
Proof.
  intros Hnz Ho Hrec Hlt Hr.
  assert (Hquiet : prunes c = 0 -> slash_guard_ring s' = slash_guard_ring s ->
    slash_guard_ring_seq s' = slash_guard_ring_seq s -> recorded fb p (n + prunes c) s').
  { intros -> E1 E2. unfold recorded. rewrite E1, E2, Z.add_0_r. exact Hrec. }
  destruct c as [env caller value c|env c|st sn]; simpl in Hr.
  - split.
    + apply Hquiet; [done|by apply (keeps_run _ _ _ _ _ (evidence_ring env caller value c) Hr)|].
      by apply (keeps_run _ _ _ _ _ (evidence_seq env caller value c) Hr).
    + intros k. by rewrite (keeps_run _ _ _ _ _ (evidence_flags k env caller value c) Hr).
  - destruct (decide (prunes (Hook env c) = 0)) as [Hq|Hq].
    + destruct (quiet_hook env c Hq) as [Hk1 Hk2]. split.
      { apply Hquiet; [done|by apply (keeps_run _ _ _ _ _ Hk1 Hr)|by apply (keeps_run _ _ _ _ _ Hk2 Hr)]. }
      intros k Hf. destruct c as [h l|h l|h|v|l]; simpl in Hr; try done.
      * by apply (window_cases VoterMiss) in Hr as [_ Hr]; apply Hr.
      * by apply (window_cases ProposerMiss) in Hr as [_ Hr]; apply Hr.
      * assert (Hkeep : keeps (window_flags k) (slash_byzantine env v)) by (destruct k; open_calls; keeps_si).
        by rewrite (keeps_run _ _ _ _ _ Hkeep Hr).
      * assert (Hkeep : keeps (window_flags k) (si_reset_epoch_counters l)) by (destruct k; open_calls; keeps_si).
        by rewrite (keeps_run _ _ _ _ _ Hkeep Hr).
    + destruct c; simpl in *; try done. apply (prune_recorded _ fb p n) in Hr as [H1 H2]; [|done|done|done|lia].
      split; [done|]. intros k. by rewrite H2.
  - minv. split; [by apply Hquiet|]. by intros [].
Qed.

Lemma total_prunes_nonneg l : 0 <= total_prunes l.
Proof. induction l as [|c l IH]; simpl; [done|]. destruct c as [|env []|]; simpl; lia. Qed.

Lemma window_recorded k env fb l p n h s s' :
  recorded fb p n s -> run_window k env h l s = (Ok tt, s') -> recorded fb p n s'.
Proof.
  intros Hrec Hr. unfold recorded in *.
  assert (Hk : keeps slash_guard_ring (run_window k env h l)
    /\ keeps slash_guard_ring_seq (run_window k env h l)) by (destruct k; split; simpl; open_calls; keeps_si).
  by rewrite (keeps_run _ _ _ _ _ (proj1 Hk) Hr), (keeps_run _ _ _ _ _ (proj2 Hk) Hr).
Qed.

Lemma calls_recorded fb p calls : forall n s s',
  fb <> 0 -> Forall (prunes_other fb) calls -> recorded fb p n s ->
  n + total_prunes calls < SLASH_GUARD_RETAIN -> mfor calls si_run s = (Ok tt, s') ->
  recorded fb p (n + total_prunes calls) s'
  /\ forall k, (window_flags k s).[fb] = true -> (window_flags k s').[fb] = true.
Proof.
  induction calls as [|c calls IH]; intros n s s' Hnz Ho Hrec Hlt Hr; cbn [mfor] in Hr; minv.
  { unfold total_prunes. simpl. by rewrite Z.add_0_r. }
  apply Forall_cons in Ho as [Hc Ho]. cbn [total_prunes foldr] in *. fold (total_prunes calls) in *.
  pose proof (total_prunes_nonneg calls).
  match goal with Hx : si_run c _ = _ |- _ =>
    apply (call_recorded c fb p n) in Hx as [Hrec1 Hf1]; [|done|done|done|lia] end.
  destruct (IH (n + prunes c) s0 s') as [Hrec2 Hf2]; try done; [lia|].
  split; [by rewrite Z.add_assoc|auto].
Qed.

Lemma prune_records fb s s' :
  (forall i, (slash_guard_ring s).[i] <> fb) -> prune_slash_guards fb s = (Ok tt, s') ->
  recorded fb (slash_guard_ring_seq s mod SLASH_GUARD_RETAIN) 0 s'
  /\ forall k, (window_flags k s').[fb] = (window_flags k s).[fb].
Proof.
  intros Hnew Hr. apply prune_ok in Hr as (Hring & Hseq & Hf). split; [|intros k; apply Hf; by left].
  split_and!; [apply Z.mod_pos_bound; done|apply Z.mod_pos_bound; done|lia|..].
  - by rewrite Hseq, Z.add_0_r, Zplus_mod_idemp_l.
  - by rewrite Hring, mread_mwrite_eq.
  - intros i. rewrite Hring, mread_mwrite. case_decide; [done|]. intros E. by destruct (Hnew i).
Qed.

Lemma replay_noop k env fb l s :
  (window_flags k s).[fb] = true -> run_window k env fb l s = (Ok tt, s).
Proof.
  destruct k; simpl; unfold slash_window_voters, slash_window_proposers, mbind, gets; by intros ->.
Qed.

(** * The claims *)

(** C21. A call of the evidence surface succeeds exactly when it carries no value,
    an ACTIVE validator sends it, its evidence proves a fault of a validator
    (two signed votes of one key for one round that exclude each other; a
    canonical child block whose Phase 1 proof fails the VRF checks; two different
    attested seed partials; an attested partial that does not match the
    committee's polynomial), that evidence was not processed before, and the
    felony it applies succeeds. *)
Theorem evidence_accepted_iff env caller value c s s' :
  si_inv s ->
  si_dispatch env caller value c s = (Ok tt, s') <-> value = 0 /\ accepted env caller c s s'.
Proof. apply dispatch_iff. Qed.

(** C22. Evidence counts once: after a call succeeded, and any further calls of the
    whole system, no call with the same dedup key succeeds, whoever sends it; the
    key is the same for the pair in the other order and under every selector. *)
Theorem evidence_once env caller value c s s1 s2 :
  si_inv s -> si_dispatch env caller value c s = (Ok tt, s1) -> rtc si_exec s1 s2 ->
  evidence_key (swapped c) = evidence_key c
  /\ forall env' caller' value' c' s3, evidence_key c' = evidence_key c ->
       si_dispatch env' caller' value' c' s2 <> (Ok tt, s3).
Proof.
  intros Hi Hd Hp. split; [apply swapped_key|]. intros env' caller' value' c' s3 Hk Hd'.
  apply dispatch_iff in Hd as [_ Hd]; [|done]. pose proof (accepted_inv _ _ _ _ _ Hi Hd) as Hi1.
  destruct (accepted_marks _ _ _ _ _ Hi Hd) as (f & h & Hk1 & _ & Hg).
  apply dispatch_iff in Hd' as [_ Hd']; [|by eapply path_inv].
  destruct (accepted_marks _ _ _ _ _ (path_inv _ _ Hp Hi1) Hd') as (f' & h' & Hk2 & Hn & _).
  rewrite Hk, Hk1 in Hk2. simplify_eq. rewrite (path_guard _ _ _ _ Hp Hi1 Hg) in Hn. done.
Qed.


(** C24. Staking's books under slashing: from a state where the stakes add up to
    the total, the contract holds what it owes and the registry mirrors every
    bond, every path of evidence calls, executor hooks and calls of Staking and
    the registry ends in such a state. *)
Theorem slashing_keeps_books s s' :
  si_inv s -> rtc si_exec s s' ->
  total_staked (si_staking s') = map_sum (stake_amount (si_staking s'))
  /\ total_staked (si_staking s') + queued (queue (si_staking s'))
     <= (native (si_staking s')).[STAKING_ADDRESS]
  /\ forall a, stake_of (si_registry s') a = (stake_amount (si_staking s')).[a].
Proof.
  intros Hi Hp. destruct (path_inv _ _ Hp Hi) as ([Hb [_ Hm]] & _). split_and!.
  - apply (bk_total _ _ Hb).
  - pose proof (bk_solvent _ _ Hb). lia.
  - intros a. apply Hm. tauto.
Qed.

(** An absence is punished once: the miss that brings an ACTIVE validator to
    the felony threshold takes the configured share, counts one felony and takes
    the validator out, and no sequence of further misses, of this or of other
    validators, counts another felony for it or touches its bond. *)
Theorem misses_punished_once k env a x s s1 :
  si_inv s -> validator_lifecycle (si_registry s) a = Ok (Active x) ->
  crosses (wrapping_add u64_max (miss_counts k s).[a] 1) (felony_threshold k s) = true ->
  run_miss k env a s = (Ok tt, s1) ->
  (felony_count s1).[a] = wrapping_add u64_max (felony_count s).[a] 1
  /\ (stake_amount (si_staking s1)).[a] = (stake_amount (si_staking s)).[a]
       - slash_of (slash_amount_percent s) (stake_amount (si_staking s)).[a]
  /\ (native (si_staking s1)).[STAKING_ADDRESS]
     = (native (si_staking s)).[STAKING_ADDRESS] - felony_take s a
  /\ validator_already_penalized s1 a = Ok true
  /\ forall misses s2,
       mfor misses (fun '(k, env, b) => run_miss k env b) s1 = (Ok tt, s2) ->
       (felony_count s2).[a] = (felony_count s1).[a]
       /\ (stake_amount (si_staking s2)).[a] = (stake_amount (si_staking s1)).[a]
       /\ validator_already_penalized s2 a = Ok true.
Proof.
  intros Hi Hl Hcr Hr. apply miss_cases in Hr as (l & Hl' & Hr). rewrite Hl in Hl'. simplify_eq.
  simpl in Hr. rewrite Hcr in Hr. destruct Hr as (fc & slashed & s2 & Hc & ->).
  assert (Hi1 : si_inv (count_miss k a s)) by by apply count_miss_inv.
  pose proof (convict_inv _ _ _ _ _ Hi1 Hc) as Hi2.
  destruct (convict_lifecycle _ _ _ _ _ _ a (Active x) Hi1 Hc) as (l' & Hl' & Hcase);
    [by destruct k|]. rewrite decide_True in Hcase by done. destruct Hcase as [_ Hpen].
  apply convict_ok in Hc as (-> & -> & st & -> & _ & Hst & Hn & _); [|done].
  assert (Hpen' : forall t l0, validator_lifecycle (si_registry t) a = Ok l0 -> penalized l0 = true ->
    validator_already_penalized t a = Ok true).
  { intros t l0 Ht Hp. unfold validator_already_penalized. rewrite Ht. simpl. f_equal. exact Hp. }
  assert (Hsame : felony_count (count_miss k a s) = felony_count s
    /\ felony_take (count_miss k a s) a = felony_take s a
    /\ slash_amount_percent (count_miss k a s) = slash_amount_percent s) by by destruct k.
  destruct Hsame as (E1 & E2 & E3). rewrite count_miss_staking, ?E1, ?E2, ?E3 in *.
  split_and!; [| | |by eapply Hpen'|].
  - simpl. by rewrite mread_mwrite_eq.
  - simpl. by rewrite Hst, decide_True.
  - exact Hn.
  - intros misses s3 Hm.
    eapply (mfor_inv (serving a _ _)) in Hm; [|intros [[k' env'] b] ???; apply miss_serving|].
    + destruct Hm as (_ & H1 & H2 & l3 & Hl3 & Hp3). split_and!; [exact H1|exact H2|by eapply Hpen'].
    + split_and!; [exact Hi2|reflexivity|reflexivity|by exists l'].
Qed.

(** Window passes are not repeated: the pass of a finalized block, run before
    or after the block is recorded in the prune ring, makes every later pass of
    the same kind for that block a no-op, whatever happens in between, as long as
    fewer than 64 other blocks are recorded after it. *)
Theorem window_replay_guarded k fb s s1 :
  fb <> 0 -> (forall i, (slash_guard_ring s).[i] <> fb) -> prune_slash_guards fb s = (Ok tt, s1) ->
  (forall env0 l0 s0 calls s2, run_window k env0 fb l0 s0 = (Ok tt, s) ->
     mfor calls si_run s1 = (Ok tt, s2) -> Forall (prunes_other fb) calls ->
     total_prunes calls < SLASH_GUARD_RETAIN ->
     forall env l, run_window k env fb l s2 = (Ok tt, s2))
  /\ (forall before s2 env0 l0 s3 after s4, mfor before si_run s1 = (Ok tt, s2) ->
     run_window k env0 fb l0 s2 = (Ok tt, s3) -> mfor after si_run s3 = (Ok tt, s4) ->
     Forall (prunes_other fb) (before ++ after) ->
     total_prunes before + total_prunes after < SLASH_GUARD_RETAIN ->
     forall env l, run_window k env fb l s4 = (Ok tt, s4)).
Proof.
  intros Hnz Hnew Hp. destruct (prune_records _ _ _ Hnew Hp) as [Hrec Hflag]. split.
  - intros env0 l0 s0 calls s2 Hw Hcalls Ho Hlt env l. apply replay_noop.
    eapply calls_recorded in Hcalls as [_ Hf]; [|done|done|done|lia].
    apply Hf. rewrite Hflag. by apply window_cases in Hw as [Hw _].
  - intros before s2 env0 l0 s3 after s4 Hbefore Hw Hafter Ho Hlt env l. apply replay_noop.
    apply Forall_app in Ho as [Ho1 Ho2].
    pose proof (total_prunes_nonneg after).
    eapply calls_recorded in Hbefore as [Hrec2 _]; [|done|done|done|lia].
    assert (Hrec3 : recorded fb (slash_guard_ring_seq s mod SLASH_GUARD_RETAIN) (0 + total_prunes before) s3).
    { eapply window_recorded; [exact Hrec2|exact Hw]. }
    eapply calls_recorded in Hafter as [_ Hf]; [|done|done|done|lia].
    apply Hf. by apply window_cases in Hw as [Hw _].
Qed.
End Props.

(** * Witnesses *)

#[local] Existing Instance sample_externals.
#[local] Existing Instance toy_keccak.
#[local] Existing Instance toy_commonware.
#[local] Existing Instance toy_domain.
#[local] Existing Instance carried_key.

(** No transaction decodes. *)
#[local] Instance no_alloy : Alloy := {|
  decode_2718 := fun _ => None;
  legacy_signature_hash := fun _ => 0 |}.

Definition slash_snapshots : SnapshotStore :=
  snd (write_committee_snapshot (validators sample_staked) 5
         (mkSnapshot [mkEntry 10 7; mkEntry 11 8] 1 [9] 0) snapshots_empty).
Definition sample_si : SlashIndicator :=
  mkSlash 0 1 0 0 0 ∅ ∅ ∅ ∅ ∅ ∅ ∅ 0 ∅ ∅ ∅ 0 sample_staked slash_snapshots [].
Definition slash_env : SlashEnv := mkSlashEnv (at_time 21) (fun _ => None).

(** Validator 10 votes for two proposals of epoch 5, view 7. *)
Definition vote (payload : Z) : list Z := sample_key 7 ++ sample_sig 7 ++ [5; 7; payload].
Definition sample_evidence : SiUserCall := submitConflictingNotarizeEvidence (vote 1) (vote 2).
Definition sample_convicted : SlashIndicator := snd (si_dispatch slash_env 11 0 sample_evidence sample_si).

Lemma sample_si_inv : si_inv sample_si.
Proof. split_and!; [apply sample_staked_inv|done|done]. Qed.
Lemma sample_evidence_run :
  si_dispatch slash_env 11 0 sample_evidence sample_si = (Ok tt, sample_convicted).
Proof.
  unfold sample_convicted. apply (run_snd (si_dispatch _ _ _ _) sample_si). vm_compute. reflexivity.
Qed.

Lemma evidence_accepted_iff_witness :
  accepted slash_env 11 sample_evidence sample_si sample_convicted.
Proof.
  destruct (evidence_accepted_iff slash_env 11 0 sample_evidence sample_si sample_convicted) as [H _].
  - apply sample_si_inv.
  - apply H, sample_evidence_run.
Defined.

Lemma evidence_once_witness :
  exists r s, si_dispatch slash_env 10 0 (submitDoubleProposalEvidence (vote 2) (vote 1)) sample_convicted
    = (r, s) /\ r <> Ok tt.
Proof.
  destruct (evidence_once slash_env 11 0 sample_evidence sample_si sample_convicted sample_convicted)
    as [_ H].
  - apply sample_si_inv.
  - apply sample_evidence_run.
  - apply rtc_refl.
  - destruct (si_dispatch slash_env 10 0 (submitDoubleProposalEvidence (vote 2) (vote 1)) sample_convicted)
      as [r s] eqn:E.
    exists r, s. split; [reflexivity|]. intros ->.
    refine (H slash_env 10 0 _ s _ E). vm_compute. reflexivity.
Defined.


Lemma slashing_keeps_books_witness :
  total_staked (si_staking sample_convicted) = map_sum (stake_amount (si_staking sample_convicted)).
Proof.
  destruct (slashing_keeps_books sample_si sample_convicted) as (H & _).
  - apply sample_si_inv.
  - apply rtc_once. exists (Evidence slash_env 11 0 sample_evidence). split; [apply sample_evidence_run|exact I].
  - exact H.
Defined.

(** Validator 11 misses a proposal with the felony threshold at 1. *)
Definition sample_missed : SlashIndicator := snd (run_miss ProposerMiss slash_env 11 sample_si).

Lemma misses_punished_once_witness :
  (felony_count sample_missed).[11] = 1 /\ validator_already_penalized sample_missed 11 = Ok true.
Proof.
  assert (Hl : exists x, validator_lifecycle (si_registry sample_si) 11 = Ok (Active x))
    by (eexists; vm_compute; reflexivity).
  destruct Hl as [x Hl].
  destruct (misses_punished_once ProposerMiss slash_env 11 x sample_si sample_missed)
    as (H1 & _ & _ & H2 & _).
  - apply sample_si_inv.
  - exact Hl.
  - vm_compute. reflexivity.
  - unfold sample_missed. apply (run_snd (run_miss _ _ _) sample_si). vm_compute. reflexivity.
  - split; [rewrite H1; vm_compute; reflexivity|exact H2].
Defined.

Definition sample_windowed : SlashIndicator :=
  snd (run_window ProposerMiss slash_env 77 [11] sample_si).
Definition sample_ringed : SlashIndicator := snd (prune_slash_guards 77 sample_windowed).

Lemma window_replay_guarded_witness :
  run_window ProposerMiss slash_env 77 [10; 11] sample_ringed = (Ok tt, sample_ringed).
Proof.
  destruct (window_replay_guarded ProposerMiss 77 sample_windowed sample_ringed) as [H _].
  - discriminate.
  - assert (Hr : slash_guard_ring sample_windowed = ∅) by (vm_compute; reflexivity).
    intros i. rewrite Hr, mread_empty. discriminate.
  - unfold sample_ringed. apply (run_snd (prune_slash_guards _) sample_windowed). vm_compute. reflexivity.
  - apply (H slash_env [11] sample_si []).
    + unfold sample_windowed. apply (run_snd (run_window _ _ _ _) sample_si). vm_compute. reflexivity.
    + reflexivity.
    + constructor.
    + vm_compute. reflexivity.
Defined.
