(* ===== verification/Containers.v ===== *)
(** The storage containers of [crates/blockchain/primitives/src/storage/types]:
    dynamic array ([vec.rs]), enumerable set ([set.rs]), double-ended queue
    ([deque.rs]) and ring buffer ([circular_buffer.rs]).

    Each container owns a header (its length or index words) and data slots;
    the model keeps them as a record with the header words and a mapping from
    index to word. The slot arithmetic ([keccak256(base) + index]) is not
    modelled: the regions of different containers are taken as disjoint. An
    element is one storage word.

    For every container a representation predicate relates the stored words to
    the list it stands for, and each operation is shown to act on that list. *)

From S2P Require Import Prelude.

(** [U256::to::<u32>], which panics when the word does not fit. *)
Definition to_u32 (w : Z) : result Z := if w <=? u32_max then Ok w else Panic.

(** * StorageVec *)

Record StorageVec : Type := MkStorageVec {
  sv_len : Z;
  sv_data : gmap Z Z;
}.
#[global] Instance Eta_StorageVec : Eta StorageVec :=
  fun v => MkStorageVec (sv_len v) (sv_data v).

Definition vec_len : M StorageVec Z := let! w := gets sv_len in lift (to_u32 w).

Definition vec_write (index value : Z) : M StorageVec unit :=
  modify (fun s => s <| sv_data := (sv_data s).[index <- value] |>).
Definition vec_read (index : Z) : M StorageVec Z := gets (fun s => (sv_data s).[index]).
Definition vec_set_len (n : Z) : M StorageVec unit := modify (fun s => s <| sv_len := n |>).

Definition vec_get (index : Z) : M StorageVec (option Z) :=
  let! length := vec_len in
  if length <=? index then mret None
  else let! word := vec_read index in mret (Some word).

Definition vec_set (index value : Z) : M StorageVec unit :=
  let! length := vec_len in
  if length <=? index then mfail (Fatal "vec index out of bounds")
  else vec_write index value.

Definition vec_push (value : Z) : M StorageVec unit :=
  let! length := vec_len in
  vec_write length value ;;;
  vec_set_len (wrapping_add u32_max length 1).

Definition vec_pop : M StorageVec (option Z) :=
  let! length := vec_len in
  if length =? 0 then mret None
  else
    let last := length - 1 in
    let! word := vec_read last in
    vec_write last 0 ;;;
    vec_set_len last ;;;
    mret (Some word).

Definition vec_read_all : M StorageVec (list Z) :=
  let! length := vec_len in mmap (seqZ 0 length) vec_read.

Definition vec_clear : M StorageVec unit :=
  let! length := vec_len in
  mfor (seqZ 0 length) (fun i => vec_write i 0) ;;;
  vec_set_len 0.

(** * StorageSet *)

Record StorageSet : Type := MkStorageSet {
  ss_len : Z;
  ss_values : gmap Z Z;
  ss_positions : gmap Z Z;
}.
#[global] Instance Eta_StorageSet : Eta StorageSet :=
  fun s => MkStorageSet (ss_len s) (ss_values s) (ss_positions s).
#[global] Instance StorageSet_eq_dec : EqDecision StorageSet.
Proof. solve_decision. Defined.
Definition empty_set : StorageSet := MkStorageSet 0 ∅ ∅.

Definition set_len : M StorageSet Z := let! w := gets ss_len in lift (to_u32 w).

Definition set_read_position (value : Z) : M StorageSet Z :=
  let! w := gets (fun s => (ss_positions s).[value]) in lift (to_u32 w).

Definition set_contains (value : Z) : M StorageSet bool :=
  let! pos := set_read_position value in mret (negb (pos =? 0)).

Definition set_at (index : Z) : M StorageSet (option Z) :=
  let! length := set_len in
  if length <=? index then mret None
  else let! word := gets (fun s => (ss_values s).[index]) in mret (Some word).

Definition set_write_value (index value : Z) : M StorageSet unit :=
  modify (fun s => s <| ss_values := (ss_values s).[index <- value] |>).
Definition set_write_position (value pos : Z) : M StorageSet unit :=
  modify (fun s => s <| ss_positions := (ss_positions s).[value <- pos] |>).
Definition set_write_len (n : Z) : M StorageSet unit := modify (fun s => s <| ss_len := n |>).

Definition set_insert (value : Z) : M StorageSet bool :=
  let! pos := set_read_position value in
  if negb (pos =? 0) then mret false
  else
    let! length := set_len in
    set_write_value length value ;;;
    set_write_position value (wrapping_add u32_max length 1) ;;;
    set_write_len (wrapping_add u32_max length 1) ;;;
    mret true.

Definition set_remove (value : Z) : M StorageSet bool :=
  let! pos := set_read_position value in
  if pos =? 0 then mret false
  else
    let! length := set_len in
    let idx := pos - 1 in
    let last := wrapping_sub u32_max length 1 in
    (if negb (idx =? last) then
       let! last_word := gets (fun s => (ss_values s).[last]) in
       set_write_value idx last_word ;;;
       set_write_position last_word pos
     else mret tt) ;;;
    set_write_value last 0 ;;;
    set_write_position value 0 ;;;
    set_write_len last ;;;
    mret true.

Definition set_read_all : M StorageSet (list Z) :=
  let! length := set_len in mmap (seqZ 0 length) (fun i => gets (fun s => (ss_values s).[i])).

(** * StorageDeque *)

Record StorageDeque : Type := MkStorageDeque {
  sd_begin : Z;
  sd_end : Z;
  sd_data : gmap Z Z;
}.
#[global] Instance Eta_StorageDeque : Eta StorageDeque :=
  fun d => MkStorageDeque (sd_begin d) (sd_end d) (sd_data d).

Definition to_u128 (w : Z) : result Z := if w <=? u128_max then Ok w else Panic.

Definition deque_read (index : Z) : M StorageDeque Z := gets (fun s => (sd_data s).[index]).
Definition deque_write (index value : Z) : M StorageDeque unit :=
  modify (fun s => s <| sd_data := (sd_data s).[index <- value] |>).
Definition read_begin : M StorageDeque Z := let! w := gets sd_begin in lift (to_u128 w).
Definition read_end : M StorageDeque Z := let! w := gets sd_end in lift (to_u128 w).
Definition write_begin (i : Z) : M StorageDeque unit := modify (fun s => s <| sd_begin := i |>).
Definition write_end (i : Z) : M StorageDeque unit := modify (fun s => s <| sd_end := i |>).

Definition deque_len : M StorageDeque Z :=
  let! e := read_end in
  let! b := read_begin in
  let span := wrapping_sub u128_max e b in
  mret (if span <=? u64_max then span else u64_max).

Definition deque_is_empty : M StorageDeque bool :=
  let! b := read_begin in
  let! e := read_end in
  mret (b =? e).

Definition deque_push_back (value : Z) : M StorageDeque unit :=
  let! e := read_end in
  deque_write e value ;;;
  write_end (wrapping_add u128_max e 1).

Definition deque_push_front (value : Z) : M StorageDeque unit :=
  let! b := read_begin in
  let b := wrapping_sub u128_max b 1 in
  deque_write b value ;;;
  write_begin b.

Definition deque_pop_front : M StorageDeque (option Z) :=
  let! b := read_begin in
  let! e := read_end in
  if b =? e then mret None
  else
    let! value := deque_read b in
    deque_write b 0 ;;;
    write_begin (wrapping_add u128_max b 1) ;;;
    mret (Some value).

Definition deque_pop_back : M StorageDeque (option Z) :=
  let! e := read_end in
  let! b := read_begin in
  if b =? e then mret None
  else
    let new_end := wrapping_sub u128_max e 1 in
    let! value := deque_read new_end in
    deque_write new_end 0 ;;;
    write_end new_end ;;;
    mret (Some value).

Definition deque_front : M StorageDeque (option Z) :=
  let! b := read_begin in
  let! e := read_end in
  if b =? e then mret None
  else let! value := deque_read b in mret (Some value).

Definition deque_back : M StorageDeque (option Z) :=
  let! e := read_end in
  let! b := read_begin in
  if b =? e then mret None
  else let! value := deque_read (wrapping_sub u128_max e 1) in mret (Some value).

Definition deque_at (index : Z) : M StorageDeque (option Z) :=
  let! b := read_begin in
  let! e := read_end in
  let span := wrapping_sub u128_max e b in
  if span <=? index then mret None
  else
    let! value := deque_read (wrapping_add u128_max b index) in
    mret (Some value).

Definition deque_read_all : M StorageDeque (list Z) :=
  let! b := read_begin in
  let! e := read_end in
  let span := wrapping_sub u128_max e b in
  mmap (seqZ 0 span) (fun i => deque_read (wrapping_add u128_max b i)).

(** The loop of [clear] runs from [begin] to [end]; its fuel is the span. *)
Definition deque_clear : M StorageDeque unit :=
  let! b := read_begin in
  let! e := read_end in
  mwhile (S (Z.to_nat (wrapping_sub u128_max e b)))
    (fun idx => if idx =? e then mret (inr tt)
                else deque_write idx 0 ;;; mret (inl (wrapping_add u128_max idx 1))) b ;;;
  write_begin 0 ;;;
  write_end 0.

(** * StorageCircularBuffer *)

Record StorageCircularBuffer : Type := MkCircularBuffer {
  cb_total : Z;
  cb_capacity : Z;
  cb_data : gmap Z Z;
}.
#[global] Instance Eta_StorageCircularBuffer : Eta StorageCircularBuffer :=
  fun b => MkCircularBuffer (cb_total b) (cb_capacity b) (cb_data b).

Definition cb_setup (capacity : Z) : M StorageCircularBuffer unit :=
  modify (fun s => s <| cb_total := 0 |>) ;;;
  modify (fun s => s <| cb_capacity := capacity |>).

Definition cb_read_capacity : M StorageCircularBuffer Z :=
  let! w := gets cb_capacity in lift (to_u32 w).

Definition cb_count : M StorageCircularBuffer Z :=
  let! cap := cb_read_capacity in
  let! total := gets cb_total in
  if cap <=? total then mret cap else lift (to_u32 total).

Definition cb_push (value : Z) : M StorageCircularBuffer (option Z) :=
  let! cap := cb_read_capacity in
  if cap =? 0 then mfail (Revert "circular buffer not initialized")
  else
    let! total := gets cb_total in
    let! idx := lift (to_u32 (total mod cap)) in
    let! evicted :=
      (if cap <=? total then
         let! w := gets (fun s => (cb_data s).[idx]) in mret (Some w)
       else mret None) in
    modify (fun s => s <| cb_data := (cb_data s).[idx <- value] |>) ;;;
    modify (fun s => s <| cb_total := wrapping_add u256_max total 1 |>) ;;;
    mret evicted.

Definition cb_at (index : Z) : M StorageCircularBuffer (option Z) :=
  let! count := cb_count in
  if count <=? index then mret None
  else let! w := gets (fun s => (cb_data s).[index]) in mret (Some w).

Definition cb_read_all : M StorageCircularBuffer (list Z) :=
  let! count := cb_count in
  mmap (seqZ 0 count) (fun i => gets (fun s => (cb_data s).[i])).

Definition cb_clear : M StorageCircularBuffer unit :=
  let! count := cb_count in
  mfor (seqZ 0 count) (fun i => modify (fun s => s <| cb_data := (cb_data s).[i <- 0] |>)) ;;;
  modify (fun s => s <| cb_total := 0 |>).

(** * Representation predicates *)

(** Word [i] of a stored list, zero outside it. *)
Definition word_at (l : list Z) (i : Z) : Z :=
  if 0 <=? i then default 0 (l !! Z.to_nat i) else 0.

Definition vec_rep (s : StorageVec) (l : list Z) : Prop :=
  sv_len s = Z.of_nat (length l) /\ Z.of_nat (length l) <= u32_max /\
  forall i, (sv_data s).[i] = word_at l i.

Definition set_rep (s : StorageSet) (l : list Z) : Prop :=
  NoDup l /\ ss_len s = Z.of_nat (length l) /\ Z.of_nat (length l) <= u32_max /\
  (forall i, (ss_values s).[i] = word_at l i) /\
  (forall i v, l !! i = Some v -> (ss_positions s).[v] = Z.of_nat i + 1) /\
  (forall v, v ∉ l -> (ss_positions s).[v] = 0).

(** The deque stores [l] at the indices [begin], [begin + 1], ... modulo
    [2^128]; it never holds more than [2^64 - 1] elements ([len] is a [u64]). *)
Definition deque_rep (s : StorageDeque) (l : list Z) : Prop :=
  in_range u128_max (sd_begin s) /\
  Z.of_nat (length l) <= u64_max /\
  sd_end s = (sd_begin s + Z.of_nat (length l)) mod 2 ^ 128 /\
  forall i v, l !! i = Some v ->
    (sd_data s).[(sd_begin s + Z.of_nat i) mod 2 ^ 128] = v.

(** The history of pushes since [setup] determines the buffer. *)
Definition cb_rep (s : StorageCircularBuffer) (cap : Z) (pushed : list Z) : Prop :=
  cb_capacity s = cap /\ 0 < cap <= u32_max /\
  cb_total s = Z.of_nat (length pushed) /\ Z.of_nat (length pushed) <= u256_max /\
  forall j v, pushed !! j = Some v -> Z.of_nat (length pushed) - cap <= Z.of_nat j ->
    (cb_data s).[Z.of_nat j mod cap] = v.

(** Remove position [i] by moving the last element there. *)
Definition swap_remove (i : nat) (l : list Z) : list Z :=
  take (length l - 1) (<[i := List.last l 0]> l).

(** * Abstract behaviour of sequences of calls *)

Inductive set_op : Type := SetInsert (v : Z) | SetRemove (v : Z) | SetContains (v : Z).

Definition set_run (op : set_op) : M StorageSet bool :=
  match op with
  | SetInsert v => set_insert v
  | SetRemove v => set_remove v
  | SetContains v => set_contains v
  end.

Definition set_spec (op : set_op) (X : gset Z) : bool * gset Z :=
  match op with
  | SetInsert v => (bool_decide (v ∉ X), {[v]} ∪ X)
  | SetRemove v => (bool_decide (v ∈ X), X ∖ {[v]})
  | SetContains v => (bool_decide (v ∈ X), X)
  end.

Fixpoint set_spec_run (ops : list set_op) (X : gset Z) : list bool * gset Z :=
  match ops with
  | [] => ([], X)
  | op :: ops' =>
      let '(b, X1) := set_spec op X in
      let '(bs, X2) := set_spec_run ops' X1 in (b :: bs, X2)
  end.

Inductive deque_op : Type :=
  | PushBack (v : Z) | PushFront (v : Z) | PopFront | PopBack.

Definition deque_run (op : deque_op) : M StorageDeque (option Z) :=
  match op with
  | PushBack v => deque_push_back v ;;; mret None
  | PushFront v => deque_push_front v ;;; mret None
  | PopFront => deque_pop_front
  | PopBack => deque_pop_back
  end.

Definition deque_spec (op : deque_op) (l : list Z) : option Z * list Z :=
  match op with
  | PushBack v => (None, l ++ [v])
  | PushFront v => (None, v :: l)
  | PopFront => (head l, tail l)
  | PopBack => (last l, removelast l)
  end.

Fixpoint deque_spec_run (ops : list deque_op) (l : list Z) : list (option Z) * list Z :=
  match ops with
  | [] => ([], l)
  | op :: ops' =>
      let '(o, l1) := deque_spec op l in
      let '(os, l2) := deque_spec_run ops' l1 in (o :: os, l2)
  end.

Definition empty_deque : StorageDeque := MkStorageDeque 0 0 ∅.

(** The value that each push evicts. *)
Definition evicted (cap : Z) (l : list Z) : option Z :=
  if cap <=? Z.of_nat (length l) then l !! (length l - Z.to_nat cap)%nat else None.
Definition evictions (cap : Z) (l : list Z) : list (option Z) :=
  (fun k => evicted cap (take k l)) <$> seq 0 (length l).

(** * Lemmas *)

Lemma to_u32_ok w : w <= u32_max -> to_u32 w = Ok w.
Proof. intros. unfold to_u32. by destruct (Z.leb_spec w u32_max); [|lia]. Qed.
Lemma to_u128_ok w : w <= u128_max -> to_u128 w = Ok w.
Proof. intros. unfold to_u128. by destruct (Z.leb_spec w u128_max); [|lia]. Qed.

Lemma word_at_lookup l i v : l !! i = Some v -> word_at l (Z.of_nat i) = v.
Proof.
  intros H. unfold word_at. destruct (Z.leb_spec 0 (Z.of_nat i)); [|lia].
  by rewrite Nat2Z.id, H.
Qed.

Lemma word_at_out l i : Z.of_nat (length l) <= i -> word_at l i = 0.
Proof.
  intros H. unfold word_at. destruct (0 <=? i) eqn:?; [|done]. bprop.
  rewrite lookup_ge_None_2; [done|lia].
Qed.

Lemma word_at_snoc l v i :
  word_at (l ++ [v]) i = if decide (i = Z.of_nat (length l)) then v else word_at l i.
Proof.
  unfold word_at. case_decide as Hi.
  - subst. destruct (Z.leb_spec 0 (Z.of_nat (length l))); [|lia].
    by rewrite Nat2Z.id, list_lookup_middle.
  - destruct (0 <=? i) eqn:?; [|done]. bprop.
    destruct (decide (i < Z.of_nat (length l))).
    + rewrite lookup_app_l by lia. done.
    + rewrite (lookup_ge_None_2 l), lookup_ge_None_2; [done|..]; rewrite ?length_app; simpl; lia.
Qed.

Lemma word_at_insert l i v (Hi : (i < length l)%nat) j :
  word_at (<[i := v]> l) j = if decide (j = Z.of_nat i) then v else word_at l j.
Proof.
  unfold word_at. case_decide as Hj.
  - subst. destruct (Z.leb_spec 0 (Z.of_nat i)); [|lia].
    by rewrite Nat2Z.id, list_lookup_insert_eq.
  - destruct (0 <=? j) eqn:?; [|done]. bprop.
    rewrite list_lookup_insert_ne by lia. done.
Qed.

Lemma mmap_gets {S X A} (l : list X) (f : X -> S -> A) s :
  mmap l (fun x => gets (f x)) s = (Ok ((fun x => f x s) <$> l), s).
Proof.
  induction l as [|x l IH]; [done|]. simpl. eapply mbind_ok_intro; [done|].
  by eapply mbind_ok_intro; [apply IH|].
Qed.

Lemma fmap_word_at l : word_at l <$> seqZ 0 (Z.of_nat (length l)) = l.
Proof.
  apply list_eq. intros i. rewrite list_lookup_fmap.
  destruct (l !! i) as [v|] eqn:Hi.
  - pose proof (lookup_lt_Some _ _ _ Hi). rewrite lookup_seqZ_lt by lia. cbn [fmap option_fmap option_map].
    by rewrite Z.add_0_l, (word_at_lookup l i v).
  - apply lookup_ge_None in Hi. rewrite lookup_seqZ_ge by lia. done.
Qed.

(** ** The array implements a list *)

Lemma vec_len_ok s l : vec_rep s l -> vec_len s = (Ok (Z.of_nat (length l)), s).
Proof.
  intros (Hl & Hm & _). unfold vec_len, mbind, gets, lift. by rewrite Hl, to_u32_ok.
Qed.

Lemma vec_push_ok s l v :
  vec_rep s l -> Z.of_nat (length l) < u32_max ->
  exists s', vec_push v s = (Ok tt, s') /\ vec_rep s' (l ++ [v]).
Proof.
  intros Hrep Hlt. eexists. split.
  { unfold vec_push. eapply mbind_ok_intro; [by apply vec_len_ok|].
    by eapply mbind_ok_intro. }
  destruct Hrep as (Hl & Hm & Hd). rewrite wrapping_add_small by lia.
  repeat split; simpl; rewrite ?length_app; simpl; try lia.
  intros i. rewrite word_at_snoc. mcase; [by rewrite decide_True|].
  rewrite decide_False by done. apply Hd.
Qed.

Lemma vec_pop_ok s l v :
  vec_rep s (l ++ [v]) -> exists s', vec_pop s = (Ok (Some v), s') /\ vec_rep s' l.
Proof.
  intros Hrep. pose proof (vec_len_ok _ _ Hrep) as Hlen.
  destruct Hrep as (Hl & Hm & Hd). rewrite length_app in *; simpl in *.
  assert (Hlast : Z.of_nat (length l + 1) - 1 = Z.of_nat (length l)) by lia.
  eexists. split.
  { unfold vec_pop. eapply mbind_ok_intro; [exact Hlen|].
    destruct (Z.eqb_spec (Z.of_nat (length l + 1)) 0); [lia|]. cbv zeta. rewrite Hlast.
    eapply mbind_ok_intro; [done|]. rewrite Hd, word_at_snoc, decide_True by done.
    do 2 (eapply mbind_ok_intro; [done|]). done. }
  repeat split; simpl; try lia.
  intros i. mcase; [by rewrite word_at_out|].
  rewrite Hd, word_at_snoc, decide_False by done. done.
Qed.

Lemma vec_read_all_ok s l : vec_rep s l -> vec_read_all s = (Ok l, s).
Proof.
  intros Hrep. unfold vec_read_all. eapply mbind_ok_intro; [by apply vec_len_ok|].
  unfold vec_read. rewrite (mmap_gets _ (fun i s => (sv_data s).[i])).
  destruct Hrep as (_ & _ & Hd). rewrite <- (fmap_word_at l) at 2.
  do 2 f_equal. apply list_fmap_ext. auto.
Qed.

Lemma vec_get_ok s l i :
  vec_rep s l -> 0 <= i -> vec_get i s = (Ok (l !! Z.to_nat i), s).
Proof.
  intros Hrep Hi. unfold vec_get. eapply mbind_ok_intro; [by apply vec_len_ok|].
  destruct (Z.leb_spec (Z.of_nat (length l)) i).
  - rewrite lookup_ge_None_2 by lia. done.
  - destruct (lookup_lt_is_Some_2 l (Z.to_nat i)) as [v Hv]; [lia|].
    unfold mbind, vec_read, gets. destruct Hrep as (_ & _ & Hd).
    rewrite Hd, Hv. rewrite <- (Z2Nat.id i) at 1 by done. by rewrite (word_at_lookup _ _ _ Hv).
Qed.

Lemma vec_set_ok s l i v :
  vec_rep s l -> 0 <= i < Z.of_nat (length l) ->
  exists s', vec_set i v s = (Ok tt, s') /\ vec_rep s' (<[Z.to_nat i := v]> l).
Proof.
  intros Hrep Hi. eexists. split.
  { unfold vec_set. eapply mbind_ok_intro; [by apply vec_len_ok|].
    destruct (Z.leb_spec (Z.of_nat (length l)) i); [lia|]. done. }
  destruct Hrep as (Hl & Hm & Hd). repeat split; simpl; rewrite ?length_insert; try lia.
  intros j. rewrite word_at_insert by lia. rewrite Z2Nat.id by lia.
  mcase; [by rewrite decide_True|by rewrite decide_False].
Qed.

Lemma vec_clear_ok s l : vec_rep s l -> exists s', vec_clear s = (Ok tt, s') /\ vec_rep s' [].
Proof.
  intros Hrep.
  assert (Hloop : forall ks s0,
    exists s1, mfor ks (fun i => vec_write i 0) s0 = (Ok tt, s1) /\
      forall i, (sv_data s1).[i] = if decide (i ∈ ks) then 0 else (sv_data s0).[i]).
  { induction ks as [|k ks IH]; intros s0.
    - exists s0. split; [done|]. intros i. by rewrite decide_False by apply not_elem_of_nil.
    - destruct (IH (s0 <| sv_data := (sv_data s0).[k <- 0] |>)) as (s1 & Hs1 & Hd1).
      exists s1. split; [by eapply mbind_ok_intro|].
      intros i. rewrite Hd1. simpl. destruct (decide (i = k)) as [->|Hne].
      + rewrite (decide_True (P := k ∈ k :: ks)) by left. mcase. by case_decide.
      + mcase. apply decide_ext. rewrite elem_of_cons. tauto. }
  destruct (Hloop (seqZ 0 (Z.of_nat (length l))) s) as (s1 & Hs1 & Hd1).
  eexists. split.
  { unfold vec_clear. eapply mbind_ok_intro; [by apply vec_len_ok|].
    by eapply mbind_ok_intro. }
  destruct Hrep as (Hl & Hm & Hd). repeat split; simpl; [unfold u32_max; lia|].
  intros i. rewrite Hd1, Hd. unfold word_at.
  destruct (0 <=? i) eqn:?; case_decide as Hi; rewrite elem_of_seqZ in Hi; try done. bprop.
  rewrite lookup_ge_None_2 by lia. done.
Qed.

(** ** The enumerable set implements a duplicate-free list *)

Lemma lookup_swap_remove i l j :
  (i < length l)%nat ->
  swap_remove i l !! j =
    if decide (j < length l - 1)%nat then
      if decide (j = i) then l !! (length l - 1)%nat else l !! j
    else None.
Proof.
  intros Hi. unfold swap_remove. case_decide as Hj.
  - rewrite lookup_take_lt by done. case_decide as Hji.
    + subst. rewrite list_lookup_insert_eq by done.
      destruct l as [|x l] using rev_ind; [simpl in *; lia|].
      rewrite List.last_last, length_app. simpl. rewrite Nat.add_sub.
      by rewrite list_lookup_middle.
    + by rewrite list_lookup_insert_ne by done.
  - apply lookup_take_ge. lia.
Qed.

Lemma length_swap_remove i l : (i < length l)%nat -> length (swap_remove i l) = (length l - 1)%nat.
Proof. intros Hi. unfold swap_remove. rewrite length_take, length_insert. lia. Qed.

Lemma NoDup_swap_remove i l : (i < length l)%nat -> NoDup l -> NoDup (swap_remove i l).
Proof.
  intros Hi. rewrite !NoDup_alt. intros Hnd a b v.
  rewrite !lookup_swap_remove by done. intros Ha Hb.
  repeat case_decide; simplify_eq; try done.
  - pose proof (Hnd _ _ _ Ha Hb). lia.
  - pose proof (Hnd _ _ _ Ha Hb). lia.
  - by eapply Hnd.
Qed.

Lemma elem_of_swap_remove i l v w :
  NoDup l -> l !! i = Some v -> w ∈ swap_remove i l <-> w ∈ l /\ w <> v.
Proof.
  intros Hnd Hi. pose proof (lookup_lt_Some _ _ _ Hi) as Hlt.
  rewrite NoDup_alt in Hnd. rewrite !list_elem_of_lookup. split.
  - intros [j Hj]. rewrite lookup_swap_remove in Hj by done.
    repeat case_decide; simplify_eq.
    + split; [eauto|]. intros ->. pose proof (Hnd _ _ _ Hi Hj). lia.
    + split; [eauto|]. intros ->. pose proof (Hnd _ _ _ Hi Hj). lia.
  - intros [[j Hj] Hne]. destruct (decide (j = length l - 1)%nat) as [->|Hj'].
    + exists i. rewrite lookup_swap_remove by done.
      destruct (decide (i < length l - 1)%nat); [by rewrite decide_True|].
      assert (i = length l - 1)%nat by lia. congruence.
    + pose proof (lookup_lt_Some _ _ _ Hj). exists j. rewrite lookup_swap_remove by done.
      rewrite decide_True by lia. rewrite decide_False; [done|]. congruence.
Qed.

Lemma set_rep_empty : set_rep empty_set [].
Proof.
  split; [constructor|]. repeat split; simpl; try done.
  intros i. rewrite mread_empty. unfold word_at. by destruct (0 <=? i).
Qed.

Lemma set_len_ok s l : set_rep s l -> set_len s = (Ok (Z.of_nat (length l)), s).
Proof.
  intros (_ & Hl & Hm & _). unfold set_len, mbind, gets, lift. by rewrite Hl, to_u32_ok.
Qed.

Lemma set_position_ok s l v :
  set_rep s l ->
  exists pos, set_read_position v s = (Ok pos, s) /\
    (((v ∉ l) /\ pos = 0) \/ exists i, l !! i = Some v /\ pos = Z.of_nat i + 1).
Proof.
  intros (_ & _ & Hm & _ & Hin & Hout). unfold set_read_position, mbind, gets, lift.
  destruct (decide (v ∈ l)) as [Hv|Hv].
  - apply list_elem_of_lookup in Hv as [i Hi]. pose proof (lookup_lt_Some _ _ _ Hi).
    rewrite (Hin _ _ Hi), to_u32_ok by lia. eexists. split; [done|]. eauto.
  - rewrite Hout, to_u32_ok by (done || (unfold u32_max; lia)). eexists. split; [done|]. eauto.
Qed.

Lemma set_contains_ok s l v :
  set_rep s l -> set_contains v s = (Ok (bool_decide (v ∈ l)), s).
Proof.
  intros Hrep. destruct (set_position_ok s l v Hrep) as (pos & Hpos & Hcase).
  unfold set_contains. eapply mbind_ok_intro; [exact Hpos|].
  destruct Hcase as [[Hv ->]|(i & Hi & ->)].
  - by rewrite bool_decide_eq_false_2.
  - rewrite bool_decide_eq_true_2 by (by eapply list_elem_of_lookup_2).
    destruct (Z.eqb_spec (Z.of_nat i + 1) 0); [lia|done].
Qed.

Lemma set_insert_old s l v :
  set_rep s l -> v ∈ l -> set_insert v s = (Ok false, s).
Proof.
  intros Hrep Hv. destruct (set_position_ok s l v Hrep) as (pos & Hpos & [[]|(i & Hi & ->)]); [done|].
  unfold set_insert. eapply mbind_ok_intro; [exact Hpos|].
  destruct (Z.eqb_spec (Z.of_nat i + 1) 0); [lia|done].
Qed.

Lemma set_insert_new s l v :
  set_rep s l -> v ∉ l -> Z.of_nat (length l) < u32_max ->
  exists s', set_insert v s = (Ok true, s') /\ set_rep s' (l ++ [v]).
Proof.
  intros Hrep Hv Hlt.
  destruct (set_position_ok s l v Hrep) as (pos & Hpos & [[_ ->]|(i & Hi & ->)]);
    [|by apply list_elem_of_lookup_2 in Hi].
  eexists. split.
  { unfold set_insert. eapply mbind_ok_intro; [exact Hpos|]. simpl.
    eapply mbind_ok_intro; [by apply set_len_ok|].
    do 3 (eapply mbind_ok_intro; [done|]). done. }
  destruct Hrep as (Hnd & Hl & Hm & Hd & Hin & Hout).
  rewrite wrapping_add_small by lia. split; [|repeat split]; simpl.
  - apply NoDup_app. split; [done|]. split; [set_solver|apply NoDup_singleton].
  - rewrite length_app. simpl. lia.
  - rewrite length_app. simpl. lia.
  - intros i. rewrite word_at_snoc. mcase; [by rewrite decide_True|].
    rewrite decide_False by done. apply Hd.
  - intros i w Hi. apply lookup_app_Some in Hi as [Hi|[Hge Hi]].
    + mcase; [by apply list_elem_of_lookup_2 in Hi|by apply Hin].
    + apply list_lookup_singleton_Some in Hi as [? ->]. mcase. lia.
  - intros w Hw. apply not_elem_of_app in Hw as [Hw Hwv].
    rewrite not_elem_of_cons in Hwv. destruct Hwv as [Hne _]. mcase. by apply Hout.
Qed.

Lemma set_remove_absent s l v :
  set_rep s l -> v ∉ l -> set_remove v s = (Ok false, s).
Proof.
  intros Hrep Hv. destruct (set_position_ok s l v Hrep) as (pos & Hpos & [[_ ->]|(i & Hi & ->)]);
    [|by apply list_elem_of_lookup_2 in Hi].
  unfold set_remove. by eapply mbind_ok_intro; [exact Hpos|].
Qed.

Lemma word_at_swap_remove i l w j :
  (i < length l)%nat -> l !! (length l - 1)%nat = Some w ->
  word_at (swap_remove i l) j =
    if decide (j = Z.of_nat (length l - 1)) then 0
    else if decide (j = Z.of_nat i) then w else word_at l j.
Proof.
  intros Hi Hw. unfold word_at. destruct (0 <=? j) eqn:Hj; bprop.
  - rewrite lookup_swap_remove by done.
    destruct (decide (j = Z.of_nat (length l - 1))), (decide (j = Z.of_nat i));
      repeat case_decide; try lia; try done; rewrite ?Hw; try done.
    rewrite lookup_ge_None_2 by lia. done.
  - rewrite !decide_False by lia. done.
Qed.

(** What the writes of [remove] amount to, whichever branch made them. *)
Lemma set_rep_swap_remove s s' l i v w :
  set_rep s l -> l !! i = Some v -> l !! (length l - 1)%nat = Some w ->
  ss_len s' = Z.of_nat (length l - 1) ->
  (forall j, (ss_values s').[j] =
     if decide (j = Z.of_nat (length l - 1)) then 0
     else if decide (j = Z.of_nat i) then w else (ss_values s).[j]) ->
  (forall u, (ss_positions s').[u] =
     if decide (u = v) then 0 else if decide (u = w) then Z.of_nat i + 1
     else (ss_positions s).[u]) ->
  set_rep s' (swap_remove i l).
Proof.
  intros (Hnd & Hl & Hm & Hd & Hin & Hout) Hi Hw Hlen Hval Hpos.
  pose proof (lookup_lt_Some _ _ _ Hi) as Hlt.
  split; [by apply NoDup_swap_remove|]. rewrite length_swap_remove by done.
  split; [done|]. split; [lia|]. split; [|split].
  - intros j. rewrite Hval, (word_at_swap_remove i l w) by done. by rewrite Hd.
  - intros j u Hj. rewrite Hpos. pose proof Hj as Hj'.
    apply list_elem_of_lookup_2, (elem_of_swap_remove i l v) in Hj' as [_ Hne]; [|done..].
    rewrite decide_False by done. rewrite lookup_swap_remove in Hj by done.
    repeat case_decide; simplify_eq; try done.
    + pose proof (NoDup_lookup _ _ _ _ Hnd Hj Hw). lia.
    + by apply Hin.
  - intros u Hu. rewrite (elem_of_swap_remove i l v) in Hu by done. rewrite Hpos.
    repeat case_decide; subst; try done.
    + destruct Hu. split; [by eapply list_elem_of_lookup_2|done].
    + apply Hout. intros ?. by apply Hu.
Qed.

Lemma set_remove_ok s l i v :
  set_rep s l -> l !! i = Some v ->
  exists s', set_remove v s = (Ok true, s') /\ set_rep s' (swap_remove i l).
Proof.
  intros Hrep Hi. pose proof (lookup_lt_Some _ _ _ Hi) as Hlt.
  destruct (set_position_ok s l v Hrep) as (pos & Hpos & [[Hv _]|(i' & Hi' & ->)]);
    [by apply list_elem_of_lookup_2 in Hi|].
  pose proof (set_len_ok s l Hrep) as Hlen.
  pose proof Hrep as (Hnd & Hl & Hm & Hd & Hin & Hout).
  assert (i' = i) as -> by (by eapply NoDup_lookup).
  destruct (lookup_lt_is_Some_2 l (length l - 1)) as [w Hw]; [lia|].
  assert (Hlast : wrapping_sub u32_max (Z.of_nat (length l)) 1 = Z.of_nat (length l - 1)).
  { rewrite wrapping_sub_small; lia. }
  unfold set_remove. rewrite (mbind_ok_intro _ _ _ _ _ _ Hpos eq_refl).
  destruct (Z.eqb_spec (Z.of_nat i + 1) 0); [lia|].
  rewrite (mbind_ok_intro _ _ _ _ _ _ Hlen eq_refl). cbv zeta. rewrite Hlast, Z.add_simpl_r.
  destruct (Z.eqb_spec (Z.of_nat i) (Z.of_nat (length l - 1))) as [Heq|Hne]; cbn [negb].
  - eexists. split; [reflexivity|]. assert (i = length l - 1)%nat by lia.
    assert (w = v) as -> by congruence.
    eapply (set_rep_swap_remove s _ l i v v); simpl; try done; intros; mcase; repeat case_decide; congruence.
  - eexists. split; [unfold mbind, gets; simpl; rewrite Hd, (word_at_lookup _ _ _ Hw); reflexivity|].
    eapply (set_rep_swap_remove s _ l i v w); simpl; try done; intros; mcase; repeat case_decide; congruence.
Qed.

(** ** The double-ended queue implements a list *)

Lemma u128_max_succ : u128_max + 1 = 2 ^ 128.
Proof. reflexivity. Qed.

Lemma mod_add_inj N b i j :
  0 <= i < N -> 0 <= j < N -> (b + i) mod N = (b + j) mod N -> i = j.
Proof.
  intros Hi Hj Heq.
  assert (Hd : (i - j) mod N = 0).
  { replace (i - j) with ((b + i) - (b + j)) by lia.
    rewrite Zminus_mod, Heq, Z.sub_diag. apply Z.mod_0_l. lia. }
  apply Z.mod_divide in Hd as [k Hk]; [|lia].
  destruct (Z.lt_trichotomy k 0) as [?|[->|?]]; nia.
Qed.

Lemma mod_range N a : 0 < N -> 0 <= a mod N < N.
Proof. apply Z.mod_pos_bound. Qed.

Lemma deque_read_begin_ok s l : deque_rep s l -> read_begin s = (Ok (sd_begin s), s).
Proof.
  intros (Hb & _). unfold read_begin, mbind, gets, lift. rewrite to_u128_ok; [done|apply Hb].
Qed.

Lemma deque_read_end_ok s l : deque_rep s l -> read_end s = (Ok (sd_end s), s).
Proof.
  intros (_ & _ & He & _). unfold read_end, mbind, gets, lift. rewrite to_u128_ok; [done|].
  rewrite He. pose proof (mod_range (2 ^ 128) (sd_begin s + Z.of_nat (length l)) eq_refl).
  rewrite <- u128_max_succ in *. lia.
Qed.

Lemma deque_span s l :
  deque_rep s l -> wrapping_sub u128_max (sd_end s) (sd_begin s) = Z.of_nat (length l).
Proof.
  intros (Hb & Hl & He & _). unfold wrapping_sub. rewrite He, u128_max_succ.
  rewrite Zminus_mod_idemp_l, Z.add_simpl_l. apply Z.mod_small. unfold u64_max in Hl. lia.
Qed.

Lemma deque_empty_iff s l :
  deque_rep s l -> (sd_begin s =? sd_end s) = bool_decide (l = []).
Proof.
  intros Hrep. pose proof (deque_span s l Hrep) as Hs. destruct Hrep as (Hb & Hl & He & _).
  destruct (Z.eqb_spec (sd_begin s) (sd_end s)) as [Heq|Hne].
  - rewrite bool_decide_eq_true_2; [done|]. rewrite <- Heq in Hs.
    unfold wrapping_sub in Hs. rewrite Z.sub_diag, Z.mod_0_l in Hs by (unfold u128_max; lia).
    destruct l; [done|simpl in Hs; lia].
  - rewrite bool_decide_eq_false_2; [done|]. intros ->. apply Hne. rewrite He. simpl.
    rewrite Z.add_0_r, Z.mod_small; [done|]. unfold in_range in Hb. rewrite <- u128_max_succ. lia.
Qed.

Lemma deque_push_back_ok s l v :
  deque_rep s l -> Z.of_nat (length l) < u64_max ->
  exists s', deque_push_back v s = (Ok tt, s') /\ deque_rep s' (l ++ [v]).
Proof.
  intros Hrep Hlt. eexists. split.
  { unfold deque_push_back. eapply mbind_ok_intro; [by eapply deque_read_end_ok|].
    by eapply mbind_ok_intro. }
  destruct Hrep as (Hb & Hl & He & Hd). repeat split; simpl; rewrite ?length_app; simpl;
    [apply Hb|apply Hb|lia|..].
  - unfold wrapping_add. rewrite He, u128_max_succ, Zplus_mod_idemp_l. f_equal. lia.
  - intros i w Hi. apply lookup_app_Some in Hi as [Hi|[Hge Hi]].
    + rewrite mread_mwrite_ne; [by apply Hd|]. rewrite He. intros Heq.
      pose proof (lookup_lt_Some _ _ _ Hi). unfold u64_max in Hl.
      apply mod_add_inj in Heq; lia.
    + apply list_lookup_singleton_Some in Hi as [? ->].
      replace (Z.of_nat i) with (Z.of_nat (length l)) by lia. rewrite <- He. by mcase.
Qed.

Lemma deque_push_front_ok s l v :
  deque_rep s l -> Z.of_nat (length l) < u64_max ->
  exists s', deque_push_front v s = (Ok tt, s') /\ deque_rep s' (v :: l).
Proof.
  intros Hrep Hlt. eexists. split.
  { unfold deque_push_front. eapply mbind_ok_intro; [by eapply deque_read_begin_ok|].
    by eapply mbind_ok_intro. }
  destruct Hrep as (Hb & Hl & He & Hd).
  unfold wrapping_sub. rewrite u128_max_succ.
  pose proof (mod_range (2 ^ 128) (sd_begin s - 1) eq_refl) as Hr.
  split; [|split; [|split]]; simpl.
  - unfold in_range. rewrite <- u128_max_succ in *. lia.
  - lia.
  - rewrite He, Zplus_mod_idemp_l. f_equal. lia.
  - intros [|i] w Hi; simpl in Hi.
    + simplify_eq. rewrite Z.add_0_r, Zmod_mod. by mcase.
    + rewrite Zplus_mod_idemp_l. replace (sd_begin s - 1 + Z.of_nat (S i))
        with (sd_begin s + Z.of_nat i) by lia.
      rewrite mread_mwrite_ne; [by apply Hd|]. intros Heq.
      replace (sd_begin s + Z.of_nat i) with (sd_begin s - 1 + Z.of_nat (S i)) in Heq by lia.
      rewrite <- (Z.add_0_r (sd_begin s - 1)) in Heq at 1.
      pose proof (lookup_lt_Some _ _ _ Hi). unfold u64_max in Hl.
      apply mod_add_inj in Heq; lia.
Qed.

Lemma deque_pop_front_ok s l :
  deque_rep s l ->
  exists s', deque_pop_front s = (Ok (head l), s') /\ deque_rep s' (tail l).
Proof.
  intros Hrep. unfold deque_pop_front.
  rewrite (mbind_ok_intro _ _ _ _ _ _ (deque_read_begin_ok _ _ Hrep) eq_refl).
  rewrite (mbind_ok_intro _ _ _ _ _ _ (deque_read_end_ok _ _ Hrep) eq_refl).
  rewrite (deque_empty_iff _ _ Hrep). destruct l as [|v l]; [by exists s|].
  rewrite bool_decide_eq_false_2 by done.
  destruct Hrep as (Hb & Hl & He & Hd).
  pose proof (Hd 0%nat v eq_refl) as Hv. rewrite Z.add_0_r in Hv.
  rewrite Z.mod_small in Hv by (unfold in_range in Hb; rewrite <- u128_max_succ; lia).
  eexists. split; [unfold mbind, deque_read, gets; simpl; rewrite Hv; reflexivity|].
  unfold wrapping_add. rewrite u128_max_succ.
  pose proof (mod_range (2 ^ 128) (sd_begin s + 1) eq_refl) as Hr. simpl in Hl, He |- *.
  split; [|split; [|split]]; simpl.
  - unfold in_range. rewrite <- u128_max_succ in *. lia.
  - lia.
  - rewrite He, Zplus_mod_idemp_l. f_equal. lia.
  - intros i w Hi. rewrite Zplus_mod_idemp_l.
    replace (sd_begin s + 1 + Z.of_nat i) with (sd_begin s + Z.of_nat (S i)) by lia.
    rewrite mread_mwrite_ne; [by apply Hd|]. intros Heq.
    rewrite <- (Z.mod_small (sd_begin s) (2 ^ 128)) in Heq at 1
      by (unfold in_range in Hb; rewrite <- u128_max_succ; lia).
    rewrite <- (Z.add_0_r (sd_begin s)) in Heq at 1.
    pose proof (lookup_lt_Some _ _ _ Hi). unfold u64_max in Hl.
    apply mod_add_inj in Heq; lia.
Qed.

Lemma deque_pop_back_ok s l :
  deque_rep s l ->
  exists s', deque_pop_back s = (Ok (last l), s') /\ deque_rep s' (removelast l).
Proof.
  intros Hrep. unfold deque_pop_back.
  rewrite (mbind_ok_intro _ _ _ _ _ _ (deque_read_end_ok _ _ Hrep) eq_refl).
  rewrite (mbind_ok_intro _ _ _ _ _ _ (deque_read_begin_ok _ _ Hrep) eq_refl).
  rewrite (deque_empty_iff _ _ Hrep). destruct l as [|v l _] using rev_ind; [by exists s|].
  rewrite bool_decide_eq_false_2 by (by destruct l).
  rewrite last_snoc, removelast_last.
  destruct Hrep as (Hb & Hl & He & Hd). rewrite length_app in *. simpl in Hl, He.
  assert (Hne : wrapping_sub u128_max (sd_end s) 1 = (sd_begin s + Z.of_nat (length l)) mod 2 ^ 128).
  { unfold wrapping_sub. rewrite He, u128_max_succ, Zminus_mod_idemp_l. f_equal. lia. }
  cbv zeta. rewrite Hne.
  pose proof (Hd (length l) v (list_lookup_middle l [] v _ eq_refl)) as Hv.
  eexists. split; [unfold mbind, deque_read, gets; simpl; rewrite Hv; reflexivity|].
  split; [|split; [|split]]; simpl; [exact Hb|lia|done|].
  intros i w Hi. pose proof (lookup_lt_Some _ _ _ Hi).
  rewrite mread_mwrite_ne; [apply Hd; by rewrite lookup_app_l|]. intros Heq.
  unfold u64_max in Hl. apply mod_add_inj in Heq; lia.
Qed.

Lemma deque_read_all_ok s l : deque_rep s l -> deque_read_all s = (Ok l, s).
Proof.
  intros Hrep. unfold deque_read_all.
  rewrite (mbind_ok_intro _ _ _ _ _ _ (deque_read_begin_ok _ _ Hrep) eq_refl).
  rewrite (mbind_ok_intro _ _ _ _ _ _ (deque_read_end_ok _ _ Hrep) eq_refl).
  cbv zeta. rewrite (deque_span _ _ Hrep). unfold deque_read.
  rewrite (mmap_gets _ (fun i s0 => (sd_data s0).[wrapping_add u128_max (sd_begin s) i])).
  destruct Hrep as (Hb & Hl & He & Hd). do 2 f_equal. apply list_eq. intros i.
  rewrite list_lookup_fmap. destruct (l !! i) as [v|] eqn:Hi.
  - pose proof (lookup_lt_Some _ _ _ Hi). rewrite lookup_seqZ_lt by lia.
    cbn [fmap option_fmap option_map]. f_equal. unfold wrapping_add.
    rewrite u128_max_succ, Z.add_0_l. by apply Hd.
  - apply lookup_ge_None in Hi. by rewrite lookup_seqZ_ge by lia.
Qed.

(** ** The ring buffer keeps the last [capacity] pushes *)

Lemma cb_read_capacity_ok s cap l : cb_rep s cap l -> cb_read_capacity s = (Ok cap, s).
Proof.
  intros (Hc & Hcap & _). unfold cb_read_capacity, mbind, gets, lift.
  rewrite Hc, to_u32_ok; [done|lia].
Qed.

Lemma cb_push_ok s cap l v :
  cb_rep s cap l -> Z.of_nat (length l) < u256_max ->
  exists s', cb_push v s = (Ok (evicted cap l), s') /\ cb_rep s' cap (l ++ [v]).
Proof.
  intros Hrep Hlt. unfold cb_push.
  rewrite (mbind_ok_intro _ _ _ _ _ _ (cb_read_capacity_ok _ _ _ Hrep) eq_refl).
  destruct Hrep as (Hc & Hcap & Ht & Hm & Hd).
  destruct (Z.eqb_spec cap 0) as [|_]; [lia|].
  set (n := Z.of_nat (length l)) in *.
  pose proof (Z.mod_pos_bound n cap ltac:(lia)).
  eexists. split.
  { unfold mbind at 1, gets at 1. rewrite Ht. unfold mbind at 1, lift at 1.
    rewrite to_u32_ok by lia. unfold evicted. fold n.
    destruct (Z.leb_spec cap n); [|reflexivity].
    destruct (lookup_lt_is_Some_2 l (length l - Z.to_nat cap)) as [w Hw]; [lia|].
    unfold mbind, gets. simpl. rewrite Hw.
    assert (Hj : (cb_data s).[n mod cap] = w).
    { rewrite <- (Hd _ _ Hw) by lia. f_equal.
      replace (Z.of_nat (length l - Z.to_nat cap)) with (n + (-1) * cap) by lia.
      by rewrite Z_mod_plus_full. }
    rewrite Hj. reflexivity. }
  rewrite wrapping_add_small by lia.
  repeat split; simpl; rewrite ?length_app; simpl; try (lia || done).
  intros j w Hj Hlo. apply lookup_app_Some in Hj as [Hj|[Hge Hj]].
  - pose proof (lookup_lt_Some _ _ _ Hj). rewrite mread_mwrite_ne; [apply Hd; [done|lia]|].
    intros Heq.
    assert (Hdiff : (n - Z.of_nat j) mod cap = 0).
    { rewrite Zminus_mod, Heq, Z.sub_diag.
      apply Z.mod_0_l. lia. }
    rewrite Z.mod_small in Hdiff by lia. lia.
  - apply list_lookup_singleton_Some in Hj as [? ->].
    replace (Z.of_nat j) with n by lia. by mcase.
Qed.

Lemma cb_read_all_ok s cap l :
  cb_rep s cap l ->
  exists r, cb_read_all s = (Ok r, s) /\ r ≡ₚ drop (length l - Z.to_nat cap) l.
Proof.
  intros Hrep. pose proof (cb_read_capacity_ok _ _ _ Hrep) as Hread.
  destruct Hrep as (Hc & Hcap & Ht & Hm & Hd).
  set (count := Z.min cap (Z.of_nat (length l))).
  assert (Hcount : cb_count s = (Ok count, s)).
  { unfold cb_count. rewrite (mbind_ok_intro _ _ _ _ _ _ Hread eq_refl).
    unfold mbind, gets. rewrite Ht. destruct (Z.leb_spec cap (Z.of_nat (length l))).
    - unfold mret. do 2 f_equal. lia.
    - unfold lift. rewrite to_u32_ok by lia. do 2 f_equal. lia. }
  eexists. split.
  { unfold cb_read_all. rewrite (mbind_ok_intro _ _ _ _ _ _ Hcount eq_refl).
    apply mmap_gets. }
  destruct (decide (Z.of_nat (length l) <= cap)) as [Hle|Hgt].
  - replace (length l - Z.to_nat cap)%nat with 0%nat by lia.
    replace count with (Z.of_nat (length l)) by lia.
    rewrite drop_0. apply reflexive_eq, list_eq. intros i. rewrite list_lookup_fmap.
    destruct (l !! i) as [v|] eqn:Hi.
    + pose proof (lookup_lt_Some _ _ _ Hi). rewrite lookup_seqZ_lt by lia.
      cbn. f_equal. rewrite <- (Hd _ _ Hi) by lia. by rewrite Z.mod_small by lia.
    + apply lookup_ge_None in Hi. by rewrite lookup_seqZ_ge by lia.
  - replace count with cap by lia.
    set (r := (fun x => (cb_data s).[x]) <$> seqZ 0 cap).
    assert (Hlen : length r = Z.to_nat cap).
    { unfold r. by rewrite length_fmap, length_seqZ. }
    transitivity (rotate (length l) r).
    { unfold rotate. rewrite Permutation_app_comm. by rewrite take_drop. }
    apply reflexive_eq, list_eq. intros k. rewrite lookup_drop.
    destruct (decide (k < Z.to_nat cap)%nat) as [Hk|Hk].
    + rewrite lookup_rotate_r by lia.
      destruct (lookup_lt_is_Some_2 l (length l - Z.to_nat cap + k)) as [v Hv]; [lia|].
      rewrite Hv, Hlen. unfold r. rewrite list_lookup_fmap. unfold rotate_nat_add.
      pose proof (Z.mod_pos_bound (Z.of_nat (length l) + Z.of_nat k) cap ltac:(lia)).
      rewrite Z2Nat.id by lia. rewrite lookup_seqZ_lt by (rewrite Z2Nat.id; lia).
      cbn. f_equal. rewrite <- (Hd _ _ Hv) by lia. f_equal.
      rewrite Z2Nat.id by lia.
      replace (Z.of_nat (length l - Z.to_nat cap + k)) with
        (Z.of_nat (length l) + Z.of_nat k + (-1) * cap) by lia.
      by rewrite Z_mod_plus_full.
    + rewrite !lookup_ge_None_2; [done|lia|]. rewrite length_rotate. lia.
Qed.

(** ** Sequences of calls *)

Lemma set_step_refines op s l :
  set_rep s l -> Z.of_nat (length l) < u32_max ->
  exists s' l', set_run op s = (Ok (fst (set_spec op (list_to_set l))), s') /\
    set_rep s' l' /\ list_to_set l' = snd (set_spec op (list_to_set l)) /\
    (length l' <= S (length l))%nat.
Proof.
  intros Hrep Hlt. destruct op as [v|v|v]; simpl.
  - destruct (decide (v ∈ l)) as [Hv|Hv].
    + exists s, l. rewrite (set_insert_old s l v) by done.
      rewrite bool_decide_eq_false_2 by (rewrite elem_of_list_to_set; tauto).
      split_and!; [done|done|set_solver|lia].
    + destruct (set_insert_new s l v Hrep Hv Hlt) as (s' & -> & Hrep').
      exists s', (l ++ [v]). rewrite bool_decide_eq_true_2 by (by rewrite elem_of_list_to_set).
      split_and!; [done|done| |rewrite length_app; simpl; lia].
      rewrite list_to_set_app_L. set_solver.
  - destruct (decide (v ∈ l)) as [Hv|Hv].
    + apply list_elem_of_lookup in Hv as Hi. destruct Hi as [i Hi].
      destruct (set_remove_ok s l i v Hrep Hi) as (s' & -> & Hrep').
      exists s', (swap_remove i l). rewrite bool_decide_eq_true_2 by (by rewrite elem_of_list_to_set).
      split_and!; [done|done| |].
      * apply set_eq. intros w. rewrite elem_of_list_to_set, (elem_of_swap_remove i l v);
          [set_solver|apply Hrep|done].
      * rewrite length_swap_remove by (by eapply lookup_lt_Some). lia.
    + exists s, l. rewrite (set_remove_absent s l v) by done.
      rewrite bool_decide_eq_false_2 by (by rewrite elem_of_list_to_set).
      split_and!; [done|done|set_solver|lia].
  - exists s, l. rewrite (set_contains_ok s l v) by done. split_and!; [|done..|lia].
    do 2 f_equal. apply bool_decide_ext. by rewrite elem_of_list_to_set.
Qed.

Lemma set_read_all_ok s l : set_rep s l -> set_read_all s = (Ok l, s).
Proof.
  intros Hrep. unfold set_read_all. eapply mbind_ok_intro; [by apply set_len_ok|].
  rewrite (mmap_gets _ (fun i s => (ss_values s).[i])).
  destruct Hrep as (_ & _ & _ & Hd & _). rewrite <- (fmap_word_at l) at 2.
  do 2 f_equal. apply list_fmap_ext. auto.
Qed.

Lemma set_run_refines ops : forall s l,
  set_rep s l -> Z.of_nat (length l + length ops) <= u32_max ->
  exists s' l', mmap ops set_run s = (Ok (fst (set_spec_run ops (list_to_set l))), s') /\
    set_rep s' l' /\ list_to_set l' = snd (set_spec_run ops (list_to_set l)).
Proof.
  induction ops as [|op ops IH]; intros s l Hrep Hlen; simpl in *; [by exists s, l|].
  destruct (set_step_refines op s l Hrep) as (s1 & l1 & Hs1 & Hrep1 & HX1 & Hl1); [lia|].
  destruct (set_spec op (list_to_set l)) as [b X1]; simpl in *. subst X1.
  destruct (IH s1 l1 Hrep1) as (s2 & l2 & Hs2 & Hrep2 & HX2); [lia|].
  destruct (set_spec_run ops (list_to_set l1)) as [bs X2]; simpl in *. subst X2.
  exists s2, l2. split; [|done].
  rewrite (mbind_ok_intro _ _ _ _ _ _ Hs1 eq_refl). by rewrite (mbind_ok_intro _ _ _ _ _ _ Hs2 eq_refl).
Qed.

(** Any sequence of [insert], [remove] and [contains] calls on an initially
    empty [StorageSet] returns what the same calls on a mathematical set
    return, never fails, and leaves an enumeration that lists every member
    exactly once; the bound only keeps the length in its [u32]. *)
Theorem storage_set_refines ops :
  Z.of_nat (length ops) <= u32_max ->
  exists s l, mmap ops set_run empty_set = (Ok (fst (set_spec_run ops ∅)), s) /\
    set_read_all s = (Ok l, s) /\ NoDup l /\ list_to_set l = snd (set_spec_run ops ∅).
Proof.
  intros Hlen. destruct (set_run_refines ops empty_set [] set_rep_empty Hlen)
    as (s & l & Hrun & Hrep & HX).
  exists s, l. split_and!; [done|by apply set_read_all_ok|apply Hrep|done].
Qed.

Definition sample_set_ops : list set_op :=
  [SetInsert 7; SetInsert 9; SetInsert 7; SetRemove 7; SetContains 9; SetContains 7].

Lemma storage_set_refines_witness :
  fst (set_spec_run sample_set_ops ∅) = [true; true; false; true; true; false] /\
  exists s l, mmap sample_set_ops set_run empty_set = (Ok (fst (set_spec_run sample_set_ops ∅)), s) /\
    set_read_all s = (Ok l, s) /\ NoDup l /\ list_to_set l = snd (set_spec_run sample_set_ops ∅).
Proof.
  split; [vm_compute; reflexivity|].
  apply (storage_set_refines sample_set_ops). vm_compute. discriminate.
Defined.

Lemma deque_step_refines op s l :
  deque_rep s l -> Z.of_nat (length l) < u64_max ->
  exists s', deque_run op s = (Ok (fst (deque_spec op l)), s') /\
    deque_rep s' (snd (deque_spec op l)) /\ (length (snd (deque_spec op l)) <= S (length l))%nat.
Proof.
  intros Hrep Hlt. destruct op as [v|v| |]; simpl.
  - destruct (deque_push_back_ok s l v Hrep Hlt) as (s' & Hs & Hrep').
    exists s'. rewrite (mbind_ok_intro _ _ _ _ _ _ Hs eq_refl).
    split_and!; [done|done|]. rewrite length_app. simpl. lia.
  - destruct (deque_push_front_ok s l v Hrep Hlt) as (s' & Hs & Hrep').
    exists s'. by rewrite (mbind_ok_intro _ _ _ _ _ _ Hs eq_refl).
  - destruct (deque_pop_front_ok s l Hrep) as (s' & Hs & Hrep').
    exists s'. split_and!; [done|done|]. destruct l; simpl; lia.
  - destruct (deque_pop_back_ok s l Hrep) as (s' & Hs & Hrep').
    exists s'. split_and!; [done|done|].
    destruct l as [|x l _] using rev_ind; [simpl; lia|].
    rewrite removelast_last, length_app. simpl. lia.
Qed.

Lemma deque_run_refines ops : forall s l,
  deque_rep s l -> Z.of_nat (length l + length ops) <= u64_max ->
  exists s', mmap ops deque_run s = (Ok (fst (deque_spec_run ops l)), s') /\
    deque_rep s' (snd (deque_spec_run ops l)).
Proof.
  induction ops as [|op ops IH]; intros s l Hrep Hlen; simpl in *; [by exists s|].
  destruct (deque_step_refines op s l Hrep) as (s1 & Hs1 & Hrep1 & Hl1); [lia|].
  destruct (deque_spec op l) as [o l1]; simpl in *.
  destruct (IH s1 l1 Hrep1) as (s2 & Hs2 & Hrep2); [lia|].
  destruct (deque_spec_run ops l1) as [os l2]; simpl in *.
  exists s2. split; [|done].
  rewrite (mbind_ok_intro _ _ _ _ _ _ Hs1 eq_refl). by rewrite (mbind_ok_intro _ _ _ _ _ _ Hs2 eq_refl).
Qed.

(** Any sequence of pushes and pops at either end of an initially empty
    [StorageDeque] returns what the same calls on a list return, never fails,
    and [read_all] afterwards lists the elements front to back, although the
    [u128] indices wrap below zero at the first [push_front]. *)
Theorem storage_deque_refines ops :
  Z.of_nat (length ops) <= u64_max ->
  exists s, mmap ops deque_run empty_deque = (Ok (fst (deque_spec_run ops [])), s) /\
    deque_read_all s = (Ok (snd (deque_spec_run ops [])), s).
Proof.
  intros Hlen. destruct (deque_run_refines ops empty_deque []) as (s & Hs & Hrep); [|done|].
  { by split_and!. }
  exists s. split; [done|]. by apply deque_read_all_ok.
Qed.

Definition sample_deque_ops : list deque_op :=
  [PushFront 1; PushBack 2; PushFront 3; PopBack; PopFront; PopFront; PopFront].

Lemma storage_deque_refines_witness :
  fst (deque_spec_run sample_deque_ops []) =
    [None; None; None; Some 2; Some 3; Some 1; None] /\
  exists s, mmap sample_deque_ops deque_run empty_deque
      = (Ok (fst (deque_spec_run sample_deque_ops [])), s) /\
    deque_read_all s = (Ok (snd (deque_spec_run sample_deque_ops [])), s).
Proof.
  split; [reflexivity|].
  apply (storage_deque_refines sample_deque_ops). vm_compute. discriminate.
Defined.

Lemma evictions_snoc cap l v : evictions cap (l ++ [v]) = evictions cap l ++ [evicted cap l].
Proof.
  unfold evictions. replace (length (l ++ [v])) with (S (length l))
    by (rewrite length_app; simpl; lia).
  rewrite seq_S, fmap_app. f_equal.
  - apply list_fmap_ext. intros i k Hk. apply lookup_seq in Hk as [-> Hk].
    by rewrite take_app_le by lia.
  - simpl. by rewrite take_app_length.
Qed.

Lemma mmap_app {S X A} (l1 l2 : list X) (f : X -> M S A) s r1 s1 r2 s2 :
  mmap l1 f s = (Ok r1, s1) -> mmap l2 f s1 = (Ok r2, s2) ->
  mmap (l1 ++ l2) f s = (Ok (r1 ++ r2), s2).
Proof.
  revert s r1. induction l1 as [|x l1 IH]; simpl; intros s r1 H1 H2; minv; [done|].
  eapply mbind_ok_intro; [done|]. by eapply mbind_ok_intro; [by eapply IH|].
Qed.

Lemma cb_pushes_ok l : forall s cap,
  cb_rep s cap [] -> Z.of_nat (length l) <= u256_max ->
  exists s', mmap l cb_push s = (Ok (evictions cap l), s') /\ cb_rep s' cap l.
Proof.
  induction l as [|v l IH] using rev_ind; intros s cap Hrep Hlen; [by exists s|].
  rewrite length_app in Hlen. simpl in Hlen.
  destruct (IH s cap Hrep) as (s1 & Hs1 & Hrep1); [lia|].
  destruct (cb_push_ok s1 cap l v Hrep1) as (s2 & Hs2 & Hrep2); [lia|].
  exists s2. split; [|done]. rewrite evictions_snoc. eapply mmap_app; [done|].
  simpl. by rewrite (mbind_ok_intro _ _ _ _ _ _ Hs2 eq_refl).
Qed.

(** A ring buffer set up with a non-zero capacity, over whatever its slots
    held before, accepts every push, evicts exactly the value pushed
    [capacity] pushes earlier, and holds the last [capacity] pushed values. *)
Theorem circular_buffer_window s0 cap pushed :
  0 < cap <= u32_max -> Z.of_nat (length pushed) <= u256_max ->
  exists s r, (cb_setup cap ;;; mmap pushed cb_push) s0 = (Ok (evictions cap pushed), s) /\
    cb_read_all s = (Ok r, s) /\ r ≡ₚ drop (length pushed - Z.to_nat cap) pushed.
Proof.
  intros Hcap Hlen.
  destruct (cb_pushes_ok pushed (s0 <| cb_total := 0 |> <| cb_capacity := cap |>) cap)
    as (s & Hs & Hrep); [|done|].
  { split_and!; try done; try lia. }
  destruct (cb_read_all_ok s cap pushed Hrep) as (r & Hr & Hperm).
  exists s, r. split; [|done]. by eapply mbind_ok_intro.
Qed.

Lemma circular_buffer_window_witness :
  let s0 := MkCircularBuffer 5 0 {[0 := 99; 2 := 98]} in
  evictions 2 [10; 20; 30; 40] = [None; None; Some 10; Some 20] /\
  exists s r, (cb_setup 2 ;;; mmap [10; 20; 30; 40] cb_push) s0
      = (Ok (evictions 2 [10; 20; 30; 40]), s) /\
    cb_read_all s = (Ok r, s) /\ r ≡ₚ [30; 40].
Proof.
  split; [reflexivity|].
  apply (circular_buffer_window _ 2 [10; 20; 30; 40]); vm_compute; [split; [reflexivity|discriminate]|discriminate].
Defined.
