(* ===== verification/Heap.v ===== *)
(** The binary min-heap of [crates/blockchain/primitives/src/storage/types/binary_heap.rs].

    The model keeps the length word and the data slots of one heap; an element
    is one storage word. The comparator is a parameter that may fail, as in the
    code; the theorems ask that it compares by some priority, the consistency
    the heap requires of its callers. *)

From S2P Require Import Prelude Containers.

Record BinaryHeap : Type := mkHeap {
  bh_len : Z;
  bh_data : gmap Z Z }.

#[global] Instance BinaryHeap_eta : Eta BinaryHeap := fun s => mkHeap (bh_len s) (bh_data s).

Abbreviation HM := (M BinaryHeap).

Definition heap_len : HM Z := let! w := gets bh_len in lift (to_u32 w).
Definition heap_is_empty : HM bool := let! l := heap_len in mret (l =? 0).
Definition heap_read (index : Z) : HM Z := gets (fun s => (bh_data s).[index]).
Definition heap_write (index value : Z) : HM unit :=
  modify (fun s => s <| bh_data := (bh_data s).[index <- value] |>).
Definition heap_clear_slot (index : Z) : HM unit := heap_write index 0.
Definition heap_set_len (n : Z) : HM unit := modify (fun s => s <| bh_len := n |>).

Definition heap_peek : HM (option Z) :=
  let! len := heap_len in
  if len =? 0 then mret None else let! v := heap_read 0 in mret (Some v).

Definition heap_clear : HM unit :=
  let! len := heap_len in
  mfor (seqZ 0 len) heap_clear_slot ;;;
  heap_set_len 0.

Definition heap_read_all : HM (list Z) := let! len := heap_len in mmap (seqZ 0 len) heap_read.

Section Heap.
Variable cmp : Z -> Z -> result comparison.

(** One iteration of [sift_up] at [i]; [inr] leaves the loop. *)
Definition sift_up_step (i : Z) : HM (Z + unit) :=
  if i =? 0 then mret (inr tt)
  else
    let parent := (i - 1) / 2 in
    let! child_val := heap_read i in
    let! parent_val := heap_read parent in
    let! ord := lift (cmp child_val parent_val) in
    match ord with
    | Lt => heap_write i parent_val ;;; heap_write parent child_val ;;; mret (inl parent)
    | _ => mret (inr tt)
    end.

(** The index at least halves in every iteration. *)
Definition sift_up (i : Z) : HM unit := mwhile (S (Z.to_nat i)) sift_up_step i.

Definition sift_down_step (len i : Z) : HM (Z + unit) :=
  let left := wrapping_add u32_max (wrapping_mul u32_max 2 i) 1 in
  let right := wrapping_add u32_max (wrapping_mul u32_max 2 i) 2 in
  if len <=? left then mret (inr tt)
  else
    let! smallest :=
      (if right <? len then
         let! l := heap_read left in
         let! r := heap_read right in
         let! ord := lift (cmp r l) in
         mret (match ord with Lt => right | _ => left end)
       else mret left) in
    let! current := heap_read i in
    let! child := heap_read smallest in
    let! ord := lift (cmp child current) in
    match ord with
    | Lt => heap_write i child ;;; heap_write smallest current ;;; mret (inl smallest)
    | _ => mret (inr tt)
    end.

(** The index grows in every iteration and stays below the length. *)
Definition sift_down (i : Z) : HM unit :=
  let! len := heap_len in mwhile (S (Z.to_nat len)) (sift_down_step len) i.

Definition heap_push (value : Z) : HM unit :=
  let! len := heap_len in
  heap_write len value ;;;
  heap_set_len (wrapping_add u32_max len 1) ;;;
  sift_up len.

Definition heap_pop_min : HM (option Z) :=
  let! len := heap_len in
  if len =? 0 then mret None
  else
    let! root := heap_read 0 in
    let last_idx := len - 1 in
    (if 0 <? last_idx then let! tail := heap_read last_idx in heap_write 0 tail else mret tt) ;;;
    heap_clear_slot last_idx ;;;
    heap_set_len last_idx ;;;
    (if 0 <? last_idx then sift_down 0 else mret tt) ;;;
    mret (Some root).

Definition heap_remove (target : Z) : HM bool :=
  let! len := heap_len in
  let! found := gets (fun s => List.find (fun i => (bh_data s).[i] =? target) (seqZ 0 len)) in
  match found with
  | None => mret false
  | Some idx =>
      let last_idx := len - 1 in
      (if negb (idx =? last_idx) then let! tail := heap_read last_idx in heap_write idx tail
       else mret tt) ;;;
      heap_clear_slot last_idx ;;;
      heap_set_len last_idx ;;;
      (if negb (idx =? last_idx) && (0 <? last_idx) then
         let! should_sift_up :=
           (if idx =? 0 then mret false
            else
              let! v := heap_read idx in
              let! p := heap_read ((idx - 1) / 2) in
              let! ord := lift (cmp v p) in
              mret (match ord with Lt => true | _ => false end)) in
         if should_sift_up : bool then sift_up idx else sift_down idx
       else mret tt) ;;;
      mret true
  end.

(** * Contents *)

Definition slot (s : BinaryHeap) (i : Z) : Z := (bh_data s).[i].
Definition contents (s : BinaryHeap) : list Z := map (slot s) (seqZ 0 (bh_len s)).

(** Exchanging two indices. *)
Definition transpose (i j k : Z) : Z := if decide (k = i) then j else if decide (k = j) then i else k.

Lemma transpose_perm i j n :
  0 <= i < n -> 0 <= j < n -> map (transpose i j) (seqZ 0 n) ≡ₚ seqZ 0 n.
Proof.
  intros Hi Hj. assert (Hinv : forall k, transpose i j (transpose i j k) = k)
    by (intros k; unfold transpose; repeat case_decide; congruence).
  apply NoDup_Permutation.
  - apply NoDup_fmap_2_strong; [|apply NoDup_seqZ]. intros a b _ _ Hab.
    rewrite <- (Hinv a), <- (Hinv b). by f_equal.
  - apply NoDup_seqZ.
  - intros k. rewrite list_elem_of_fmap. setoid_rewrite elem_of_seqZ. split.
    + intros (a & -> & Ha). unfold transpose. repeat case_decide; lia.
    + intros Hk. exists (transpose i j k). split; [by rewrite Hinv|].
      unfold transpose. repeat case_decide; lia.
Qed.

Lemma swap_contents (f g : Z -> Z) i j n :
  0 <= i < n -> 0 <= j < n -> (forall k, g k = f (transpose i j k)) ->
  map g (seqZ 0 n) ≡ₚ map f (seqZ 0 n).
Proof.
  intros Hi Hj Hg. rewrite <- (transpose_perm i j n Hi Hj) at 2. rewrite map_map.
  rewrite (map_ext g (fun k => f (transpose i j k)) Hg). done.
Qed.

Lemma seqZ_snoc n : 0 <= n -> seqZ 0 (n + 1) = seqZ 0 n ++ [n].
Proof. intros Hn. rewrite seqZ_app by lia. rewrite (seqZ_cons (0 + n) 1) by lia. by rewrite Z.add_0_l. Qed.

Lemma map_seqZ_ext (f g : Z -> Z) n : (forall k, 0 <= k < n -> f k = g k) -> map f (seqZ 0 n) = map g (seqZ 0 n).
Proof. intros H. apply list_fmap_ext. intros i k Hk. apply H. apply lookup_seqZ in Hk. lia. Qed.

(** Moving the last element over index [i] removes what [i] held. *)
Lemma remove_contents (f g : Z -> Z) i n :
  0 <= i <= n -> (forall k, 0 <= k < n -> g k = if decide (k = i) then f n else f k) ->
  f i :: map g (seqZ 0 n) ≡ₚ map f (seqZ 0 (n + 1)).
Proof.
  intros Hi Hg. rewrite <- (swap_contents f (fun k => f (transpose i n k)) i n (n + 1)) by (done || lia).
  rewrite seqZ_snoc, map_app by lia. simpl.
  replace (f (transpose i n n)) with (f i) by (unfold transpose; repeat case_decide; congruence).
  rewrite (map_seqZ_ext g (fun k => f (transpose i n k))); [apply Permutation_cons_append|].
  intros k Hk. rewrite Hg by done. unfold transpose. repeat case_decide; try congruence. lia.
Qed.

(** * The heap order *)

Variable prio : Z -> Z.
Hypothesis cmp_prio : forall a b, cmp a b = Ok (prio a ?= prio b).

Definition parent (j : Z) : Z := (j - 1) / 2.

Lemma parent_spec j : 0 < j -> 0 <= parent j < j /\ (j = 2 * parent j + 1 \/ j = 2 * parent j + 2).
Proof.
  intros Hj. unfold parent. pose proof (Z.div_mod (j - 1) 2 ltac:(lia)).
  pose proof (Z.mod_pos_bound (j - 1) 2 ltac:(lia)). lia.
Qed.

Definition below (f : Z -> Z) (i j : Z) : Prop := prio (f i) <= prio (f j).

Definition heap_ok (n : Z) (f : Z -> Z) : Prop := forall j, 0 < j < n -> below f (parent j) j.

(** The order holds except above [i], except below [i]. *)
Definition up_hole (n : Z) (f : Z -> Z) (i : Z) : Prop :=
  (forall j, 0 < j < n -> j <> i -> below f (parent j) j)
  /\ (forall c, 0 < c < n -> parent c = i -> 0 < i -> below f (parent i) c).
Definition down_hole (n : Z) (f : Z -> Z) (i : Z) : Prop :=
  (forall j, 0 < j < n -> parent j <> i -> below f (parent j) j)
  /\ (forall c, 0 < c < n -> parent c = i -> 0 < i -> below f (parent i) c).

Ltac heap_swap := unfold below in *; unfold transpose; repeat case_decide; subst; try lia.

Lemma up_hole_swap n f g i :
  0 < i < n -> up_hole n f i -> prio (f i) < prio (f (parent i)) ->
  (forall k, g k = f (transpose i (parent i) k)) -> up_hole n g (parent i).
Proof.
  intros Hi [H1 H2] Hlt Hg. pose proof (parent_spec i (proj1 Hi)) as Hpi. split.
  - intros j Hj Hne. pose proof (parent_spec j (proj1 Hj)) as Hpj. unfold below. rewrite !Hg.
    destruct (decide (j = i)) as [->|Hji]; [heap_swap|]. pose proof (H1 j Hj Hji) as Hb.
    destruct (decide (parent j = i)) as [Hpi'|Hpi'].
    + pose proof (H2 j Hj Hpi' (proj1 Hi)). heap_swap.
    + destruct (decide (parent j = parent i)) as [Hpp|Hpp]; [rewrite Hpp in *|]; heap_swap.
  - intros c Hc Hpc Hp. unfold below. rewrite !Hg. pose proof (parent_spec c (proj1 Hc)) as Hcs.
    pose proof (parent_spec (parent i) Hp) as Hpp.
    pose proof (H1 (parent i) ltac:(lia) ltac:(lia)) as Hb.
    destruct (decide (c = i)) as [->|Hci]; [heap_swap|].
    pose proof (H1 c Hc Hci) as Hbc. rewrite Hpc in Hbc. heap_swap.
Qed.

Lemma down_hole_swap n f g i c :
  0 <= i -> 0 < c < n -> parent c = i -> down_hole n f i -> prio (f c) < prio (f i) ->
  (forall j, 0 < j < n -> parent j = i -> below f c j) ->
  (forall k, g k = f (transpose i c k)) -> down_hole n g c.
Proof.
  intros Hi Hc Hpc [H1 H2] Hlt Hmin Hg. pose proof (parent_spec c (proj1 Hc)) as Hcs. split.
  - intros j Hj Hne. pose proof (parent_spec j (proj1 Hj)) as Hpj. unfold below. rewrite !Hg.
    destruct (decide (parent j = i)) as [Hji|Hji].
    + rewrite Hji. pose proof (Hmin j Hj Hji). heap_swap.
    + pose proof (H1 j Hj Hji) as Hb. destruct (decide (j = i)) as [->|Hne'].
      * pose proof (H2 c Hc Hpc (proj1 Hj)). heap_swap.
      * heap_swap.
  - intros c' Hc' Hpc' _. pose proof (parent_spec c' (proj1 Hc')) as Hcs'. unfold below. rewrite !Hg.
    pose proof (H1 c' Hc' ltac:(lia)) as Hb. rewrite Hpc in *. heap_swap.
Qed.

(** * The loops *)

(** The two writes of an exchange. *)
Lemma swap_slot s i j k :
  slot (s <| bh_data := (bh_data s).[i <- slot s j] |> <| bh_data := (bh_data s).[i <- slot s j].[j <- slot s i] |>) k
  = slot s (transpose i j k).
Proof. unfold slot, transpose. simpl. rewrite !mread_mwrite. repeat case_decide; subst; congruence. Qed.

(** What a sift leaves of the heap. *)
Definition sifted (s s' : BinaryHeap) : Prop :=
  bh_len s' = bh_len s /\ contents s' ≡ₚ contents s /\ heap_ok (bh_len s') (slot s').

Lemma sifted_step s s1 s' i j :
  0 <= i < bh_len s -> 0 <= j < bh_len s -> bh_len s1 = bh_len s ->
  (forall k, slot s1 k = slot s (transpose i j k)) -> sifted s1 s' -> sifted s s'.
Proof.
  intros Hi Hj Hlen Hslot (Hl & Hc & Hok). split_and!; [congruence| |done].
  rewrite Hc. unfold contents. rewrite Hlen. by apply (swap_contents _ _ i j).
Qed.

Lemma sift_up_loop fuel : forall i s,
  0 <= i < bh_len s -> (Z.to_nat i < fuel)%nat -> up_hole (bh_len s) (slot s) i ->
  exists s', mwhile fuel sift_up_step i s = (Ok tt, s') /\ sifted s s'.
Proof.
  induction fuel as [|fuel IH]; intros i s Hi Hf Hup; [lia|]. simpl. unfold sift_up_step at 1.
  unfold mbind at 1. destruct (Z.eqb_spec i 0) as [->|Hi0].
  { eexists. split; [done|]. split_and!; [done..|]. intros j Hj. apply Hup; lia. }
  fold (parent i). unfold mbind, heap_read, gets, lift. rewrite cmp_prio.
  fold (slot s i) (slot s (parent i)). pose proof (parent_spec i ltac:(lia)) as Hp.
  destruct (Z.compare_spec (prio (slot s i)) (prio (slot s (parent i)))) as [Heq|Hlt|Hgt].
  1,3: eexists; split; [done|]; split_and!; [done..|]; intros j Hj;
    destruct (decide (j = i)) as [->|Hne]; [unfold below; lia|by apply Hup].
  simpl. match goal with |- exists s', mwhile fuel _ _ ?s1 = _ /\ _ => destruct (IH (parent i) s1) as (s' & Hrun & Hs') end.
  - simpl. lia.
  - lia.
  - simpl. eapply up_hole_swap; [|exact Hup|done|]; [lia|]. apply swap_slot.
  - exists s'. split; [done|]. eapply (sifted_step _ _ _ i (parent i)); [lia|lia|..|exact Hs']; [done|apply swap_slot].
Qed.

Lemma sift_up_ok i s :
  0 <= i < bh_len s -> up_hole (bh_len s) (slot s) i ->
  exists s', sift_up i s = (Ok tt, s') /\ sifted s s'.
Proof. intros Hi Hup. apply sift_up_loop; [done|lia|done]. Qed.

(** The child that [sift_down] compares with: the smaller one. *)
Lemma smallest_child s i :
  0 <= i -> 2 * i + 1 < bh_len s -> bh_len s <= 2 ^ 31 - 1 ->
  exists c, (if 2 * i + 2 <? bh_len s then
               let! l := heap_read (2 * i + 1) in
               let! r := heap_read (2 * i + 2) in
               let! ord := lift (cmp r l) in
               mret (match ord with Lt => 2 * i + 2 | _ => 2 * i + 1 end)
             else mret (2 * i + 1)) s = (Ok c, s)
    /\ 0 < c < bh_len s /\ parent c = i
    /\ forall j, 0 < j < bh_len s -> parent j = i -> below (slot s) c j.
Proof.
  intros Hi Hl Hn.
  assert (Hp1 : parent (2 * i + 1) = i) by (pose proof (parent_spec (2 * i + 1) ltac:(lia)); lia).
  assert (Hp2 : parent (2 * i + 2) = i) by (pose proof (parent_spec (2 * i + 2) ltac:(lia)); lia).
  assert (Hj : forall j, 0 < j -> parent j = i -> j = 2 * i + 1 \/ j = 2 * i + 2)
    by (intros j Hj Hpj; pose proof (parent_spec j Hj); lia).
  destruct (Z.ltb_spec (2 * i + 2) (bh_len s)) as [Hr|Hr].
  - unfold mbind, heap_read, gets, lift, mret. rewrite cmp_prio.
    fold (slot s (2 * i + 1)) (slot s (2 * i + 2)).
    destruct (Z.compare_spec (prio (slot s (2 * i + 2))) (prio (slot s (2 * i + 1)))) as [He|Hlt|Hgt];
      eexists; (split; [done|]); (split_and!; [lia|lia|done|]); intros j Hjn Hpj;
      destruct (Hj j (proj1 Hjn) Hpj) as [->| ->]; unfold below; lia.
  - eexists. split; [done|]. split_and!; [lia|lia|done|]. intros j Hjn Hpj.
    destruct (Hj j (proj1 Hjn) Hpj) as [->| ->]; [unfold below; lia|lia].
Qed.

Lemma sift_down_loop fuel : forall i s,
  0 <= i < bh_len s -> bh_len s <= 2 ^ 31 - 1 -> (Z.to_nat (bh_len s - i) < fuel)%nat ->
  down_hole (bh_len s) (slot s) i ->
  exists s', mwhile fuel (sift_down_step (bh_len s)) i s = (Ok tt, s') /\ sifted s s'.
Proof.
  induction fuel as [|fuel IH]; intros i s Hi Hn Hf Hdown; [lia|]. simpl. unfold sift_down_step at 1.
  rewrite !(wrapping_mul_small u32_max 2 i), !wrapping_add_small by (unfold u32_max; lia).
  destruct (Z.leb_spec (bh_len s) (2 * i + 1)) as [Hend|Hl].
  { eexists. split; [done|]. split_and!; [done..|]. intros j Hj. apply Hdown; [done|].
    pose proof (parent_spec j (proj1 Hj)). lia. }
  destruct (smallest_child s i (proj1 Hi) Hl Hn) as (c & Hc & Hcn & Hpc & Hmin).
  unfold mbind at 1. unfold mbind at 1. rewrite Hc. unfold mbind, heap_read, gets, lift. rewrite cmp_prio.
  fold (slot s i) (slot s c). pose proof (parent_spec c (proj1 Hcn)) as Hps.
  destruct (Z.compare_spec (prio (slot s c)) (prio (slot s i))) as [Heq|Hlt|Hgt].
  1,3: eexists; split; [done|]; split_and!; [done..|]; intros j Hj;
    destruct (decide (parent j = i)) as [Hji|Hne]; [|by apply Hdown];
    pose proof (Hmin j Hj Hji); rewrite Hji; unfold below in *; lia.
  simpl. match goal with |- exists s', mwhile fuel _ _ ?s1 = _ /\ _ => destruct (IH c s1) as (s' & Hrun & Hs') end.
  - simpl. lia.
  - done.
  - simpl. lia.
  - simpl. eapply down_hole_swap; [apply Hi|exact Hcn|exact Hpc|exact Hdown|done|done|]. apply swap_slot.
  - exists s'. split; [done|]. eapply (sifted_step _ _ _ i c); [lia|lia|..|exact Hs']; [done|apply swap_slot].
Qed.

(** * The operations *)

Lemma heap_len_ok s : 0 <= bh_len s <= u32_max -> heap_len s = (Ok (bh_len s), s).
Proof. intros Hs. unfold heap_len, mbind, gets, lift, to_u32. by rewrite (proj2 (Z.leb_le _ _)) by lia. Qed.

Lemma heap_min n f j : heap_ok n f -> 0 <= j < n -> below f 0 j.
Proof.
  intros Hok. enough (H : forall m j, (Z.to_nat j < m)%nat -> 0 <= j < n -> below f 0 j)
    by (apply (H (S (Z.to_nat j))); lia).
  clear j. induction m as [|m IH]; intros j Hm Hj; [lia|].
  destruct (Z.eq_dec j 0) as [->|]; [unfold below; lia|].
  pose proof (parent_spec j ltac:(lia)). pose proof (Hok j ltac:(lia)).
  pose proof (IH (parent j) ltac:(lia) ltac:(lia)). unfold below in *. lia.
Qed.

Definition heap_inv (s : BinaryHeap) : Prop :=
  0 <= bh_len s <= 2 ^ 31 - 1 /\ heap_ok (bh_len s) (slot s).

Lemma heap_push_ok s v :
  heap_inv s -> bh_len s < 2 ^ 31 - 1 ->
  exists s', heap_push v s = (Ok tt, s') /\ heap_inv s' /\ bh_len s' = bh_len s + 1
    /\ contents s' ≡ₚ v :: contents s.
Proof.
  intros [Hn Hok] Hlt. unfold heap_push, mbind, heap_write, heap_set_len, modify.
  rewrite heap_len_ok by (unfold u32_max; lia). rewrite wrapping_add_small by (unfold u32_max; lia).
  set (n := bh_len s) in *.
  set (s1 := s <| bh_data := (bh_data s).[n <- v] |> <| bh_len := n + 1 |>).
  assert (Hslot : forall k, slot s1 k = if decide (k = n) then v else slot s k).
  { intros k. unfold slot, s1. simpl. rewrite mread_mwrite. repeat case_decide; congruence. }
  destruct (sift_up_ok n s1) as (s' & Hrun & Hl & Hc & Hok').
  - simpl. lia.
  - simpl. split.
    + intros j Hj Hne. pose proof (parent_spec j (proj1 Hj)). unfold below. rewrite !Hslot, !decide_False by lia.
      apply Hok. lia.
    + intros c Hc Hpc. pose proof (parent_spec c (proj1 Hc)). lia.
  - exists s'. split; [exact Hrun|]. simpl in Hl. split_and!; [unfold heap_inv; split; [lia|done]|done|].
    rewrite Hc. unfold contents. simpl. rewrite seqZ_snoc, map_app by lia. simpl.
    rewrite Hslot, decide_True by done. rewrite <- Permutation_cons_append. constructor.
    rewrite (map_seqZ_ext _ (slot s)); [done|]. intros k Hk. by rewrite Hslot, decide_False by lia.
Qed.

(** Dropping the last slot after moving its value to [idx]. *)
Definition moved_last (s s1 : BinaryHeap) (idx : Z) : Prop :=
  bh_len s1 = bh_len s - 1 /\
  forall k, 0 <= k < bh_len s - 1 -> slot s1 k = if decide (k = idx) then slot s (bh_len s - 1) else slot s k.

Lemma moved_contents s s1 idx :
  0 <= idx < bh_len s -> moved_last s s1 idx -> slot s idx :: contents s1 ≡ₚ contents s.
Proof.
  intros Hi [Hl Hslot]. unfold contents. rewrite Hl. replace (bh_len s) with (bh_len s - 1 + 1) at 2 by lia.
  apply remove_contents; [lia|done].
Qed.

Lemma moved_last_ok s s1 :
  heap_inv s -> 0 < bh_len s -> moved_last s s1 (bh_len s - 1) -> heap_inv s1.
Proof.
  intros [Hn Hok] Hpos [Hl Hslot]. split; [lia|]. rewrite Hl. intros j Hj.
  pose proof (parent_spec j (proj1 Hj)). unfold below. rewrite !Hslot, !decide_False by lia. apply Hok. lia.
Qed.

(** The value moved to [idx] is out of order in one direction only. *)
Lemma moved_holes s s1 idx :
  heap_inv s -> 0 <= idx < bh_len s - 1 -> moved_last s s1 idx ->
  (0 < idx -> prio (slot s1 idx) < prio (slot s1 (parent idx)) -> up_hole (bh_len s1) (slot s1) idx)
  /\ ((0 < idx -> prio (slot s1 (parent idx)) <= prio (slot s1 idx)) -> down_hole (bh_len s1) (slot s1) idx).
Proof.
  intros [Hn Hok] Hi [Hl Hslot]. rewrite Hl.
  assert (Hother : forall j, 0 < j < bh_len s - 1 -> j <> idx -> parent j <> idx -> below (slot s1) (parent j) j).
  { intros j Hj Hji Hpi. pose proof (parent_spec j (proj1 Hj)). unfold below.
    rewrite !Hslot, !decide_False by lia. apply Hok. lia. }
  assert (Hgrand : forall c, 0 < c < bh_len s - 1 -> parent c = idx -> 0 < idx -> below (slot s1) (parent idx) c).
  { intros c Hc Hpc Hi0. pose proof (parent_spec c (proj1 Hc)). pose proof (parent_spec idx Hi0). unfold below.
    rewrite !Hslot, !decide_False by lia. pose proof (Hok idx ltac:(lia)) as H1. pose proof (Hok c ltac:(lia)) as H2.
    rewrite Hpc in H2. unfold below in *. lia. }
  split.
  - intros Hi0 Hlt. split; [|done]. intros j Hj Hji.
    destruct (decide (parent j = idx)) as [Hpj|]; [|by apply Hother].
    pose proof (Hgrand j Hj Hpj Hi0). rewrite Hpj. unfold below in *. lia.
  - intros Hcmp. split; [|done]. intros j Hj Hpj.
    destruct (decide (j = idx)) as [->|]; [|by apply Hother]. apply Hcmp. lia.
Qed.

Lemma sift_down_ok i s :
  0 <= i < bh_len s -> bh_len s <= 2 ^ 31 - 1 -> down_hole (bh_len s) (slot s) i ->
  exists s', sift_down i s = (Ok tt, s') /\ sifted s s'.
Proof.
  intros Hi Hn Hd. unfold sift_down, mbind. rewrite heap_len_ok by (unfold u32_max; lia).
  apply sift_down_loop; [done|done|lia|done].
Qed.

Lemma sifted_inv s s' : 0 <= bh_len s <= 2 ^ 31 - 1 -> sifted s s' -> heap_inv s'.
Proof. intros Hn (Hl & _ & Hok). split; [lia|done]. Qed.

(** The writes that drop the last slot. *)
Definition drop_last (s : BinaryHeap) (idx : Z) : BinaryHeap :=
  let last := bh_len s - 1 in
  let s1 := if idx =? last then s else s <| bh_data := (bh_data s).[idx <- (bh_data s).[last]] |> in
  s1 <| bh_data := (bh_data s1).[last <- 0] |> <| bh_len := last |>.

Lemma drop_last_moved s idx : moved_last s (drop_last s idx) idx.
Proof.
  unfold moved_last, drop_last. split; [done|]. intros k Hk. unfold slot. simpl.
  rewrite mread_mwrite, decide_False by lia. destruct (Z.eqb_spec idx (bh_len s - 1)) as [->|Hne].
  - by rewrite decide_False by lia.
  - simpl. rewrite mread_mwrite. repeat case_decide; congruence.
Qed.

(** A least element of a list. *)
Definition least (l : list Z) (r : Z) : Prop := r ∈ l /\ forall x, x ∈ l -> prio r <= prio x.

Lemma contents_elem s x : x ∈ contents s <-> exists i, 0 <= i < bh_len s /\ slot s i = x.
Proof.
  unfold contents. rewrite list_elem_of_fmap. setoid_rewrite elem_of_seqZ. split.
  - intros (i & -> & Hi). exists i. split; [lia|done].
  - intros (i & Hi & <-). exists i. split; [done|lia].
Qed.

Lemma root_least s : heap_inv s -> 0 < bh_len s -> least (contents s) (slot s 0).
Proof.
  intros [Hn Hok] Hpos. split; [apply contents_elem; exists 0; split; [lia|done]|].
  intros x (i & Hi & <-)%contents_elem. by apply (heap_min (bh_len s)).
Qed.

Lemma heap_pop_ok s :
  heap_inv s ->
  exists r s', heap_pop_min s = (Ok r, s') /\ heap_inv s' /\ bh_len s' <= bh_len s
    /\ match r with
       | None => contents s = [] /\ s' = s
       | Some v => least (contents s) v /\ v :: contents s' ≡ₚ contents s
       end.
Proof.
  intros Hinv. pose proof Hinv as [Hn Hok]. unfold heap_pop_min, mbind at 1.
  rewrite heap_len_ok by (unfold u32_max; lia).
  destruct (Z.eqb_spec (bh_len s) 0) as [H0|H0].
  { exists None, s. split_and!; try done. unfold contents. by rewrite H0. }
  pose proof (drop_last_moved s 0) as Hmoved. pose proof (moved_contents s _ 0 ltac:(lia) Hmoved) as Hperm.
  pose proof (root_least s Hinv ltac:(lia)) as Hleast.
  unfold mbind, heap_read, heap_clear_slot, heap_set_len, heap_write, gets, modify, mret.
  destruct (Z.ltb_spec 0 (bh_len s - 1)) as [Hl|Hl].
  - destruct (moved_holes s _ 0 Hinv ltac:(lia) Hmoved) as [_ Hdown].
    destruct (sift_down_ok 0 (drop_last s 0)) as (s' & Hrun & Hs'); [simpl; lia|simpl; lia|apply Hdown; lia|].
    exists (Some (slot s 0)), s'. pose proof Hs' as (Hlen & Hc & _). simpl in Hlen. split_and!.
    + unfold drop_last in Hrun. rewrite (proj2 (Z.eqb_neq 0 (bh_len s - 1))) in Hrun by lia.
      simpl in Hrun |- *. by rewrite Hrun.
    + eapply sifted_inv; [|exact Hs']. simpl. lia.
    + lia.
    + done.
    + by rewrite Hc.
  - exists (Some (slot s 0)), (drop_last s 0). assert (H1 : bh_len s = 1) by lia. split_and!.
    + unfold drop_last. rewrite H1. done.
    + apply (moved_last_ok s); [done|lia|]. by replace (bh_len s - 1) with 0 by lia.
    + simpl. lia.
    + done.
    + done.
Qed.

Lemma heap_remove_ok s v :
  heap_inv s ->
  exists s', heap_remove v s = (Ok (bool_decide (v ∈ contents s)), s') /\ heap_inv s' /\ bh_len s' <= bh_len s
    /\ (if decide (v ∈ contents s) then v :: contents s' ≡ₚ contents s else s' = s).
Proof.
  intros Hinv. pose proof Hinv as [Hn Hok]. unfold heap_remove, mbind at 1.
  rewrite heap_len_ok by (unfold u32_max; lia). unfold mbind at 1, gets at 1.
  destruct (List.find _ (seqZ 0 (bh_len s))) as [idx|] eqn:Hfind.
  2: { exists s. assert (Hnot : v ∉ contents s).
       { intros (i & Hi & Hv)%contents_elem. 
         assert (Hsi : In i (seqZ 0 (bh_len s))) by (apply list_elem_of_In, elem_of_seqZ; lia).
         pose proof (List.find_none _ _ Hfind i Hsi) as Hf. by apply Z.eqb_neq in Hf. }
       rewrite bool_decide_false by done. by destruct (decide (v ∈ contents s)). }
  apply List.find_some in Hfind as [Hidx Hv]. apply list_elem_of_In, elem_of_seqZ in Hidx. apply Z.eqb_eq in Hv.
  assert (Hi : 0 <= idx < bh_len s) by lia.
  assert (Hin : v ∈ contents s) by (apply contents_elem; by exists idx).
  rewrite bool_decide_true by done. destruct (decide (v ∈ contents s)) as [_|]; [|done].
  pose proof (drop_last_moved s idx) as Hmoved. pose proof (moved_contents s _ idx Hi Hmoved) as Hperm.
  change (slot s idx) with ((bh_data s).[idx]) in Hperm. rewrite Hv in Hperm.
  assert (Hrun : forall (k : HM bool),
    ((if negb (idx =? bh_len s - 1) then let! tail := heap_read (bh_len s - 1) in heap_write idx tail
      else mret tt) ;;; heap_clear_slot (bh_len s - 1) ;;; heap_set_len (bh_len s - 1) ;;; k) s
    = k (drop_last s idx)).
  { intros k. unfold drop_last. by destruct (idx =? bh_len s - 1). }
  rewrite Hrun. clear Hrun. destruct (Z.eqb_spec idx (bh_len s - 1)) as [Hlast|Hlast]; simpl negb; cbn [andb].
  - exists (drop_last s idx). split_and!; [done| |simpl; lia|done].
    apply (moved_last_ok s); [done|lia|]. by rewrite <- Hlast.
  - rewrite (proj2 (Z.ltb_lt 0 (bh_len s - 1))) by lia.
    destruct (moved_holes s _ idx Hinv ltac:(lia) Hmoved) as [Hup Hdown].
    set (s1 := drop_last s idx) in *. assert (Hl1 : bh_len s1 = bh_len s - 1) by done.
    assert (Hsift : exists s', (let! b := (if idx =? 0 then mret false
         else let! v := heap_read idx in let! p := heap_read ((idx - 1) / 2) in
              let! ord := lift (cmp v p) in mret (match ord with Lt => true | _ => false end)) in
        if b : bool then sift_up idx else sift_down idx) s1 = (Ok tt, s') /\ sifted s1 s').
    { destruct (Z.eqb_spec idx 0) as [->|Hi0].
      - apply sift_down_ok; [lia|lia|]. apply Hdown. lia.
      - fold (parent idx). unfold mbind, heap_read, gets, lift, mret. rewrite cmp_prio.
        fold (slot s1 idx) (slot s1 (parent idx)).
        destruct (Z.compare_spec (prio (slot s1 idx)) (prio (slot s1 (parent idx)))).
        1,3: apply sift_down_ok; [lia|lia|]; apply Hdown; lia.
        apply sift_up_ok; [lia|]. apply Hup; lia. }
    destruct Hsift as (s' & Hrun & Hs'). exists s'. pose proof Hs' as (Hlen & Hc & _). split_and!.
    + unfold mbind at 1. by rewrite Hrun.
    + eapply sifted_inv; [|exact Hs']. lia.
    + lia.
    + by rewrite Hc.
Qed.

Lemma heap_clear_ok s :
  heap_inv s -> exists s', heap_clear s = (Ok tt, s') /\ bh_len s' = 0.
Proof.
  intros [Hn _]. unfold heap_clear, mbind at 1. rewrite heap_len_ok by (unfold u32_max; lia).
  destruct (runs_mfor (S := BinaryHeap) (seqZ 0 (bh_len s)) heap_clear_slot) with (s := s) as ([] & s1 & Hrun).
  { intros x. apply runs_modify. }
  unfold mbind. rewrite Hrun. by eexists.
Qed.

Lemma heap_read_all_ok s : heap_inv s -> heap_read_all s = (Ok (contents s), s).
Proof.
  intros [Hn _]. unfold heap_read_all, mbind. rewrite heap_len_ok by (unfold u32_max; lia).
  apply mmap_gets.
Qed.

(** * Calls and what they mean on a bag of values *)

Inductive HeapOp : Type :=
  | HeapPush (v : Z)
  | HeapPop
  | HeapPeek
  | HeapRemove (v : Z)
  | HeapReadAll
  | HeapClear.

Inductive HeapAnswer : Type :=
  | HeapUnit
  | HeapBool (b : bool)
  | HeapValue (r : option Z)
  | HeapValues (l : list Z).

Definition heap_run (op : HeapOp) : HM HeapAnswer :=
  match op with
  | HeapPush v => heap_push v ;;; mret HeapUnit
  | HeapPop => let! r := heap_pop_min in mret (HeapValue r)
  | HeapPeek => let! r := heap_peek in mret (HeapValue r)
  | HeapRemove v => let! b := heap_remove v in mret (HeapBool b)
  | HeapReadAll => let! l := heap_read_all in mret (HeapValues l)
  | HeapClear => heap_clear ;;; mret HeapUnit
  end.

Definition heap_spec (op : HeapOp) (l : list Z) (a : HeapAnswer) (l' : list Z) : Prop :=
  match op with
  | HeapPush v => a = HeapUnit /\ l' ≡ₚ v :: l
  | HeapPop =>
      (l = [] /\ a = HeapValue None /\ l' = []) \/
      exists v, a = HeapValue (Some v) /\ least l v /\ l ≡ₚ v :: l'
  | HeapPeek =>
      ((l = [] /\ a = HeapValue None) \/ exists v, a = HeapValue (Some v) /\ least l v) /\ l' = l
  | HeapRemove v =>
      a = HeapBool (bool_decide (v ∈ l)) /\ if decide (v ∈ l) then l ≡ₚ v :: l' else l' = l
  | HeapReadAll => exists k, a = HeapValues k /\ k ≡ₚ l /\ l' = l
  | HeapClear => a = HeapUnit /\ l' = []
  end.

Inductive heap_trace : list Z -> list HeapOp -> list HeapAnswer -> list Z -> Prop :=
  | heap_trace_nil l : heap_trace l [] [] l
  | heap_trace_cons l op ops a answers l1 l2 :
      heap_spec op l a l1 -> heap_trace l1 ops answers l2 -> heap_trace l (op :: ops) (a :: answers) l2.

Lemma heap_run_ok s op :
  heap_inv s -> bh_len s < 2 ^ 31 - 1 ->
  exists a s', heap_run op s = (Ok a, s') /\ heap_spec op (contents s) a (contents s') /\ heap_inv s'
    /\ bh_len s' <= bh_len s + 1.
Proof.
  intros Hinv Hlt. pose proof Hinv as [Hn Hok]. destruct op as [v| | |v| |]; unfold heap_run, mbind at 1.
  - destruct (heap_push_ok s v Hinv Hlt) as (s' & -> & Hinv' & Hl & Hc).
    eexists _, s'. split_and!; [done| |done|lia]. by split.
  - destruct (heap_pop_ok s Hinv) as (r & s' & -> & Hinv' & Hl & Hr).
    eexists _, s'. split_and!; [done| |done|lia]. destruct r as [v|].
    + right. destruct Hr as [Hv Hc]. by exists v.
    + left. destruct Hr as [Hc ->]. done.
  - unfold heap_peek, mbind. rewrite heap_len_ok by (unfold u32_max; lia).
    destruct (Z.eqb_spec (bh_len s) 0) as [H0|H0]; eexists _, s; (split_and!; [done| |done|lia]); (split; [|done]).
    + left. split; [|done]. unfold contents. by rewrite H0.
    + right. eexists. split; [done|]. apply root_least; [done|lia].
  - destruct (heap_remove_ok s v Hinv) as (s' & -> & Hinv' & Hl & Hr).
    eexists _, s'. split_and!; [done| |done|lia]. split; [done|].
    destruct (decide (v ∈ contents s)); [done|by subst].
  - rewrite heap_read_all_ok by done. eexists _, s. split_and!; [done| |done|lia]. by exists (contents s).
  - destruct (heap_clear_ok s Hinv) as (s' & -> & Hl).
    eexists _, s'. split_and!; [done| | |lia].
    + split; [done|]. unfold contents. by rewrite Hl.
    + split; [lia|]. intros j Hj. lia.
Qed.

Lemma heap_runs_ok ops : forall s,
  heap_inv s -> bh_len s + Z.of_nat (length ops) <= 2 ^ 31 - 1 ->
  exists answers s', mmap ops heap_run s = (Ok answers, s')
    /\ heap_trace (contents s) ops answers (contents s') /\ heap_inv s'.
Proof.
  induction ops as [|op ops IH]; intros s Hinv Hlen.
  { exists [], s. split_and!; [done|constructor|done..]. }
  cbn [length] in Hlen. destruct (heap_run_ok s op Hinv ltac:(lia)) as (a & s1 & Hrun & Hspec & Hinv1 & Hl1).
  destruct (IH s1 Hinv1 ltac:(lia)) as (answers & s2 & Hruns & Htrace & Hinv2).
  exists (a :: answers), s2. split_and!; [|by econstructor|done..].
  simpl. unfold mbind. rewrite Hrun. by rewrite Hruns.
Qed.

Definition empty_heap : BinaryHeap := mkHeap 0 ∅.

(** * Property *)

(** Under a comparator that orders by a priority, any sequence of heap calls
    from the empty heap ends without failure or exhausted sifts and answers as a
    bag of values would: peek and pop yield an element of least priority, pop
    and remove take out exactly one occurrence, and the stored array is always a
    permutation of the bag. The bound keeps the child indices in their [u32]. *)
Theorem binary_heap_refines ops :
  Z.of_nat (length ops) <= 2 ^ 31 - 1 ->
  exists answers s, mmap ops heap_run empty_heap = (Ok answers, s)
    /\ heap_trace [] ops answers (contents s).
Proof.
  intros Hlen. destruct (heap_runs_ok ops empty_heap) as (answers & s & Hrun & Htrace & _).
  - split; [done|]. intros j Hj. simpl in Hj. lia.
  - simpl. lia.
  - by exists answers, s.
Qed.
End Heap.

Definition sample_heap_ops : list HeapOp :=
  [HeapPush 50; HeapPush 30; HeapPush 40; HeapPush 10; HeapPush 20; HeapRemove 30; HeapPop; HeapPop; HeapPeek].

Lemma binary_heap_refines_witness :
  exists answers s, mmap sample_heap_ops (heap_run (fun a b => Ok (a ?= b))) empty_heap = (Ok answers, s)
    /\ heap_trace (fun a => a) [] sample_heap_ops answers (contents s)
    /\ fst (mmap sample_heap_ops (heap_run (fun a b => Ok (a ?= b))) empty_heap)
        = Ok [HeapUnit; HeapUnit; HeapUnit; HeapUnit; HeapUnit; HeapBool true; HeapValue (Some 10);
              HeapValue (Some 20); HeapValue (Some 40)].
Proof.
  destruct (binary_heap_refines (fun a b => Ok (a ?= b)) (fun a => a) (fun _ _ => eq_refl) sample_heap_ops)
    as (answers & s & Hrun & Htrace).
  - vm_compute. discriminate.
  - exists answers, s. split; [exact Hrun|]. split; [exact Htrace|]. vm_compute. reflexivity.
Defined.
