(* ===== verification/Policy.v ===== *)
(** The stablecoin policy registry ([crates/core/stablecoinpolicy]): policy
    descriptors, member sets, two-step administration and the [can] decision
    that the stablecoin ledgers ask for ([schema.rs], [state.rs], [errors.rs],
    [precompile.rs], [api.rs]).

    [policies] is the descriptor table keyed by policy id, [member_sets] the
    [StorageSet] of each policy, [reg_events] the log, oldest first. A call is
    one constructor of [PolicyCall] (the decoded ABI call); the encoding of
    calls and return values by [alloy_sol_types] is not modelled. *)

From S2P Require Import Prelude Containers.

(** * Data *)

Definition DENY_ALL_POLICY_ID : Z := 0.
Definition ALLOW_ALL_POLICY_ID : Z := 1.
Definition FIRST_MUTABLE_POLICY_ID : Z := 2.
Definition STABLECOIN_POLICY_MEMBER_BATCH_CAP : Z := 64.
Definition STABLECOIN_LIST_PAGE_CAP : Z := 100.

Inductive PolicyType : Type := DenyAll | AllowAll | Whitelist | Blacklist | Directional.

#[global] Instance PolicyType_eq_dec : EqDecision PolicyType.
Proof. solve_decision. Defined.

Definition policy_type_to_u8 (t : PolicyType) : Z :=
  match t with DenyAll => 0 | AllowAll => 1 | Whitelist => 2 | Blacklist => 3 | Directional => 4 end.

(** [TryFrom<u8> for PolicyType]; the callers choose the error. *)
Definition policy_type_of_u8 (n : Z) : option PolicyType :=
  if n =? 0 then Some DenyAll
  else if n =? 1 then Some AllowAll
  else if n =? 2 then Some Whitelist
  else if n =? 3 then Some Blacklist
  else if n =? 4 then Some Directional
  else None.

Definition is_simple (t : PolicyType) : bool :=
  match t with Whitelist | Blacklist => true | _ => false end.

Inductive PolicyLane : Type := Send | Receive | Mint.

Record PolicyDescriptor : Type := MkPolicyDescriptor {
  policy_id : Z;
  exists_flag : bool;
  policy_type : Z;
  admin : Address;
  pending_admin : Address;
  send_policy_id : Z;
  receive_policy_id : Z;
  mint_policy_id : Z;
}.
#[global] Instance Eta_PolicyDescriptor : Eta PolicyDescriptor := fun d =>
  MkPolicyDescriptor (policy_id d) (exists_flag d) (policy_type d) (admin d) (pending_admin d)
    (send_policy_id d) (receive_policy_id d) (mint_policy_id d).

Definition builtin (id : Z) (t : PolicyType) : PolicyDescriptor :=
  MkPolicyDescriptor id true (policy_type_to_u8 t) ZERO_ADDRESS ZERO_ADDRESS 0 0 0.

Inductive PolicyEvent : Type :=
  | PolicyCreated (id : Z) (actor adm : Address) (ty send recv mint : Z)
  | PolicyAdminTransferStarted (id : Z) (current pending : Address)
  | PolicyAdminTransferCancelled (id : Z) (adm cancelled : Address)
  | PolicyAdminTransferred (id : Z) (previous new : Address)
  | PolicyMemberAdded (id : Z) (account actor : Address)
  | PolicyMemberRemoved (id : Z) (account actor : Address).

Record PolicyRegistry : Type := MkPolicyRegistry {
  next_policy_id : Z;
  policies : gmap Z PolicyDescriptor;
  member_sets : gmap Z StorageSet;
  reg_events : list PolicyEvent;
}.
#[global] Instance Eta_PolicyRegistry : Eta PolicyRegistry := fun r =>
  MkPolicyRegistry (next_policy_id r) (policies r) (member_sets r) (reg_events r).

Definition empty_registry : PolicyRegistry := MkPolicyRegistry 0 ∅ ∅ [].

(** ** Errors *)

Definition InvalidPolicyType (t : Z) := RevertBytes "InvalidPolicyType" [t].
Definition UnknownPolicy (id : Z) := RevertBytes "UnknownPolicy" [id].
Definition ImmutablePolicy (id : Z) := RevertBytes "ImmutablePolicy" [id].
Definition InvalidPolicyAdmin (a : Address) := RevertBytes "InvalidPolicyAdmin" [a].
Definition UnauthorizedPolicyAdmin (id : Z) (c : Address) :=
  RevertBytes "UnauthorizedPolicyAdmin" [id; c].
Definition InvalidDirectionalChild (id : Z) := RevertBytes "InvalidDirectionalChild" [id].
Definition DirectionalMembershipUnsupported (id : Z) :=
  RevertBytes "DirectionalMembershipUnsupported" [id].
Definition InvalidMember (a : Address) := RevertBytes "InvalidMember" [a].
Definition EmptyMemberBatch := RevertBytes "EmptyMemberBatch" [].
Definition MemberBatchTooLarge (len max : Z) := RevertBytes "MemberBatchTooLarge" [len; max].
Definition DuplicateMember (a : Address) := RevertBytes "DuplicateMember" [a].
Definition MembershipUnchanged (id : Z) (a : Address) (m : bool) :=
  RevertBytes "MembershipUnchanged" [id; a; Z.b2z m].
Definition InvalidPendingPolicyAdmin (c : Address) := RevertBytes "InvalidPendingPolicyAdmin" [c].
Definition NotPendingPolicyAdmin (id : Z) (c : Address) :=
  RevertBytes "NotPendingPolicyAdmin" [id; c].
Definition PolicyIdExhausted := RevertBytes "PolicyIdExhausted" [].
Definition InvalidListLimit (l m : Z) := RevertBytes "InvalidListLimit" [l; m].
Definition PolicyMemberEnumerationUnsupported (id t : Z) :=
  RevertBytes "PolicyMemberEnumerationUnsupported" [id; t].
Definition PolicyUnexpectedValue (v : Z) := RevertBytes "UnexpectedValue" [v].

(** ** Storage access *)

Abbreviation PM := (M PolicyRegistry).

Definition policy_emit (e : PolicyEvent) : PM unit :=
  modify (fun r => r <| reg_events := reg_events r ++ [e] |>).

(** [Map<U256, PolicyDescriptor>]: an entry counts as present when its
    [exists] flag is set. *)
Definition policies_get (id : Z) : PM (option PolicyDescriptor) :=
  gets (fun r => match policies r !! id with
                 | Some d => if exists_flag d then Some d else None
                 | None => None
                 end).
Definition policies_exists (id : Z) : PM bool :=
  let! d := policies_get id in mret (bool_decide (is_Some d)).
Definition policies_write (d : PolicyDescriptor) : PM unit :=
  modify (fun r => r <| policies := <[policy_id d := d]> (policies r) |>).
Definition policies_create (d : PolicyDescriptor) : PM unit :=
  let! e := policies_exists (policy_id d) in
  require (negb e) (Revert "PolicyDescriptor already exists") ;;;
  policies_write d.
Definition policies_update (d : PolicyDescriptor) : PM unit :=
  let! e := policies_exists (policy_id d) in
  require e (Revert "PolicyDescriptor not found") ;;;
  policies_write d.

Definition member_set_of (r : PolicyRegistry) (id : Z) : StorageSet :=
  default empty_set (member_sets r !! id).
Definition on_member_set {A} (id : Z) (m : M StorageSet A) : PM A :=
  zoom (fun r => member_set_of r id)
       (fun s r => r <| member_sets := <[id := s]> (member_sets r) |>) m.
(** A read-only access to the member set of a policy. *)
Definition ask_member_set {A} (id : Z) (m : M StorageSet A) : PM A :=
  reads (fun r => fst (m (member_set_of r id))).

(** * Operations *)

Definition is_builtin (id : Z) : bool :=
  (id =? DENY_ALL_POLICY_ID) || (id =? ALLOW_ALL_POLICY_ID).

Definition optional_descriptor (id : Z) : PM (option PolicyDescriptor) :=
  if id =? DENY_ALL_POLICY_ID then mret (Some (builtin DENY_ALL_POLICY_ID DenyAll))
  else if id =? ALLOW_ALL_POLICY_ID then mret (Some (builtin ALLOW_ALL_POLICY_ID AllowAll))
  else policies_get id.

Definition policy_exists (id : Z) : PM bool :=
  if is_builtin id then mret true else policies_exists id.

Definition descriptor (id : Z) : PM PolicyDescriptor :=
  if id =? DENY_ALL_POLICY_ID then mret (builtin DENY_ALL_POLICY_ID DenyAll)
  else if id =? ALLOW_ALL_POLICY_ID then mret (builtin ALLOW_ALL_POLICY_ID AllowAll)
  else let! d := policies_get id in lift (ok_or d (UnknownPolicy id)).

Definition descriptor_type (d : PolicyDescriptor) : result PolicyType :=
  ok_or (policy_type_of_u8 (policy_type d)) (Fatal "policy has unknown stored descriptor").

Definition get_policy_type (id : Z) : PM PolicyType :=
  let! d := descriptor id in lift (descriptor_type d).
Definition policy_admin (id : Z) : PM Address := let! d := descriptor id in mret (admin d).
Definition pending_policy_admin (id : Z) : PM Address :=
  let! d := descriptor id in mret (pending_admin d).

Definition is_member (id : Z) (account : Address) : PM bool :=
  let! od := optional_descriptor id in
  match od with
  | None => mret false
  | Some d =>
      match policy_type_of_u8 (policy_type d) with
      | None => mret false
      | Some t =>
          if negb (is_simple t) then mret false
          else ask_member_set id (set_contains account)
      end
  end.

Definition require_enumerable (id : Z) (t : PolicyType) : PM unit :=
  require (is_simple t) (PolicyMemberEnumerationUnsupported id (policy_type_to_u8 t)).

Definition policy_member_count (id : Z) : PM Z :=
  let! t := get_policy_type id in
  require_enumerable id t ;;;
  ask_member_set id set_len.

Definition list_policy_members (id offset limit : Z) : PM (list Address) :=
  if (limit =? 0) || (STABLECOIN_LIST_PAGE_CAP <? limit)
  then mfail (InvalidListLimit limit STABLECOIN_LIST_PAGE_CAP)
  else
    let! t := get_policy_type id in
    require_enumerable id t ;;;
    let! count := ask_member_set id set_len in
    if count <=? offset then mret []
    else
      let! start := lift (to_u32 offset) in
      let! requested := lift (to_u32 limit) in
      let last := Z.min (saturating_add u32_max start requested) count in
      mmap (seqZ start (last - start)) (fun index =>
        let! m := ask_member_set id (set_at index) in
        lift (ok_or m (Fatal "policy member set length/data mismatch"))).

Definition can_simple_child (id : Z) (account : Address) : PM bool :=
  let! od := optional_descriptor id in
  match od with
  | None => mret false
  | Some d =>
      match policy_type_of_u8 (policy_type d) with
      | Some DenyAll => mret false
      | Some AllowAll => mret true
      | Some Whitelist => ask_member_set id (set_contains account)
      | Some Blacklist =>
          let! v := ask_member_set id (set_contains account) in mret (negb v)
      | Some Directional | None => mret false
      end
  end.

Definition can (id : Z) (account : Address) (lane : PolicyLane) : PM bool :=
  let! od := optional_descriptor id in
  match od with
  | None => mret false
  | Some d =>
      match policy_type_of_u8 (policy_type d) with
      | None => mret false
      | Some DenyAll => mret false
      | Some AllowAll => mret true
      | Some Whitelist => ask_member_set id (set_contains account)
      | Some Blacklist =>
          let! v := ask_member_set id (set_contains account) in mret (negb v)
      | Some Directional =>
          let child := match lane with
                       | Send => send_policy_id d
                       | Receive => receive_policy_id d
                       | Mint => mint_policy_id d
                       end in
          can_simple_child child account
      end
  end.

Definition validate_admin (a : Address) : PM unit :=
  require (negb (a =? ZERO_ADDRESS)) (InvalidPolicyAdmin a).

Definition next_id : PM Z :=
  let! stored := gets next_policy_id in
  if stored =? 0 then mret FIRST_MUTABLE_POLICY_ID
  else if stored <? FIRST_MUTABLE_POLICY_ID
  then mfail (Fatal "stablecoin policy next id is corrupt")
  else mret stored.

Definition create_descriptor (actor : Address) (t : PolicyType) (adm : Address)
    (send recv mint : Z) : PM Z :=
  let! id := next_id in
  let! e := policies_exists id in
  require (negb e) (Fatal "stablecoin policy next id collides with an existing descriptor") ;;;
  let! next := lift (ok_or (checked_add u256_max id 1) PolicyIdExhausted) in
  let d := MkPolicyDescriptor id true (policy_type_to_u8 t) adm ZERO_ADDRESS send recv mint in
  with_checkpoint (
    policies_create d ;;;
    modify (fun r => r <| next_policy_id := next |>) ;;;
    policy_emit (PolicyCreated id actor adm (policy_type_to_u8 t) send recv mint)) ;;;
  mret id.

Definition create_policy (actor : Address) (ty : Z) (adm : Address) : PM Z :=
  let! t := lift (ok_or (policy_type_of_u8 ty) (InvalidPolicyType ty)) in
  require (is_simple t) (InvalidPolicyType (policy_type_to_u8 t)) ;;;
  validate_admin adm ;;;
  create_descriptor actor t adm 0 0 0.

Definition check_directional_child (child : Z) : PM unit :=
  let! od := optional_descriptor child in
  let! d := lift (ok_or od (InvalidDirectionalChild child)) in
  let! t := lift (descriptor_type d) in
  require (negb (bool_decide (t = Directional))) (InvalidDirectionalChild child).

Definition create_directional_policy (actor adm : Address) (send recv mint : Z) : PM Z :=
  validate_admin adm ;;;
  mfor [send; recv; mint] check_directional_child ;;;
  create_descriptor actor Directional adm send recv mint.

Definition mutable_descriptor (id : Z) : PM PolicyDescriptor :=
  if is_builtin id then mfail (ImmutablePolicy id) else descriptor id.

Definition mutable_descriptor_for_admin (id : Z) (caller : Address) : PM PolicyDescriptor :=
  let! d := mutable_descriptor id in
  require (admin d =? caller) (UnauthorizedPolicyAdmin id caller) ;;;
  mret d.

(** The scan of a batch for zero and repeated accounts; [seen] is the
    [HashSet] of the accounts before the current one. *)
Fixpoint scan_batch (accounts : list Address) (seen : gset Z) : result unit :=
  match accounts with
  | [] => Ok tt
  | a :: rest =>
      if a =? ZERO_ADDRESS then Err (InvalidMember a)
      else if bool_decide (a ∈ seen) then Err (DuplicateMember a)
      else scan_batch rest ({[a]} ∪ seen)
  end.

Definition validate_member_batch (accounts : list Address) : result unit :=
  let n := Z.of_nat (length accounts) in
  if n =? 0 then Err EmptyMemberBatch
  else if STABLECOIN_POLICY_MEMBER_BATCH_CAP <? n
  then Err (MemberBatchTooLarge n STABLECOIN_POLICY_MEMBER_BATCH_CAP)
  else scan_batch accounts ∅.

Definition mutate_members (id : Z) (caller : Address) (accounts : list Address) (add : bool)
    : PM unit :=
  let! d := mutable_descriptor_for_admin id caller in
  let! t := lift (descriptor_type d) in
  require (is_simple t) (DirectionalMembershipUnsupported id) ;;;
  lift (validate_member_batch accounts) ;;;
  mfor accounts (fun account =>
    let! m := ask_member_set id (set_contains account) in
    require (negb (Bool.eqb m add)) (MembershipUnchanged id account add)) ;;;
  with_checkpoint (
    mfor accounts (fun account =>
      let! changed := on_member_set id (if add then set_insert account else set_remove account) in
      require changed (Fatal "validated policy membership changed during mutation") ;;;
      policy_emit (if add then PolicyMemberAdded id account caller
                   else PolicyMemberRemoved id account caller))).

Definition add_members (id : Z) (caller : Address) (accounts : list Address) : PM unit :=
  mutate_members id caller accounts true.
Definition remove_members (id : Z) (caller : Address) (accounts : list Address) : PM unit :=
  mutate_members id caller accounts false.

Definition begin_policy_admin_transfer (id : Z) (caller candidate : Address) : PM unit :=
  let! d := mutable_descriptor_for_admin id caller in
  require (negb ((candidate =? ZERO_ADDRESS) || (candidate =? admin d)))
    (InvalidPendingPolicyAdmin candidate) ;;;
  with_checkpoint (
    policies_update (d <| pending_admin := candidate |>) ;;;
    policy_emit (PolicyAdminTransferStarted id (admin d) candidate)).

Definition cancel_policy_admin_transfer (id : Z) (caller : Address) : PM unit :=
  let! d := mutable_descriptor_for_admin id caller in
  require (negb (pending_admin d =? ZERO_ADDRESS)) (InvalidPendingPolicyAdmin ZERO_ADDRESS) ;;;
  with_checkpoint (
    policies_update (d <| pending_admin := ZERO_ADDRESS |>) ;;;
    policy_emit (PolicyAdminTransferCancelled id caller (pending_admin d))).

Definition accept_policy_admin_transfer (id : Z) (caller : Address) : PM unit :=
  let! d := mutable_descriptor id in
  require (pending_admin d =? caller) (NotPendingPolicyAdmin id caller) ;;;
  with_checkpoint (
    policies_update (d <| admin := caller |> <| pending_admin := ZERO_ADDRESS |>) ;;;
    policy_emit (PolicyAdminTransferred id (admin d) caller)).

(** ** Dispatch *)

Inductive PolicyCall : Type :=
  | createPolicy (ty : Z) (adm : Address)
  | createDirectionalPolicy (adm : Address) (send recv mint : Z)
  | addMembers (id : Z) (accounts : list Address)
  | removeMembers (id : Z) (accounts : list Address)
  | beginPolicyAdminTransfer (id : Z) (candidate : Address)
  | cancelPolicyAdminTransfer (id : Z)
  | acceptPolicyAdminTransfer (id : Z)
  | policyExists (id : Z)
  | policyType (id : Z)
  | policyAdmin (id : Z)
  | pendingPolicyAdmin (id : Z)
  | isMember (id : Z) (account : Address)
  | policyMemberCount (id : Z)
  | listPolicyMembers (id offset limit : Z)
  | canSend (id : Z) (account : Address)
  | canReceive (id : Z) (account : Address)
  | canMint (id : Z) (account : Address).

Inductive PolicyReturn : Type :=
  | RVoid
  | RWord (w : Z)
  | RBool (b : bool)
  | RAddresses (l : list Address).

Definition returns {S A B} (f : A -> B) (m : M S A) : M S B := let! a := m in mret (f a).

Definition policy_dispatch (caller : Address) (value : Z) (call : PolicyCall) : PM PolicyReturn :=
  if negb (value =? 0) then mfail (PolicyUnexpectedValue value)
  else
    match call with
    | createPolicy ty adm => returns RWord (create_policy caller ty adm)
    | createDirectionalPolicy adm send recv mint =>
        returns RWord (create_directional_policy caller adm send recv mint)
    | addMembers id accounts => returns (fun _ => RVoid) (add_members id caller accounts)
    | removeMembers id accounts => returns (fun _ => RVoid) (remove_members id caller accounts)
    | beginPolicyAdminTransfer id candidate =>
        returns (fun _ => RVoid) (begin_policy_admin_transfer id caller candidate)
    | cancelPolicyAdminTransfer id =>
        returns (fun _ => RVoid) (cancel_policy_admin_transfer id caller)
    | acceptPolicyAdminTransfer id =>
        returns (fun _ => RVoid) (accept_policy_admin_transfer id caller)
    | policyExists id => returns RBool (policy_exists id)
    | policyType id => returns (fun t => RWord (policy_type_to_u8 t)) (get_policy_type id)
    | policyAdmin id => returns RWord (policy_admin id)
    | pendingPolicyAdmin id => returns RWord (pending_policy_admin id)
    | isMember id account => returns RBool (is_member id account)
    | policyMemberCount id => returns RWord (policy_member_count id)
    | listPolicyMembers id offset limit =>
        returns RAddresses (list_policy_members id offset limit)
    | canSend id account => returns RBool (can id account Send)
    | canReceive id account => returns RBool (can id account Receive)
    | canMint id account => returns RBool (can id account Mint)
    end.

(** * Specification vocabulary *)

Definition is_mem (r : PolicyRegistry) (id : Z) (a : Address) : bool :=
  negb ((ss_positions (member_set_of r id)).[a] =? 0).

Definition type_of (d : PolicyDescriptor) (t : PolicyType) : Prop :=
  policy_type d = policy_type_to_u8 t.

(** A policy that may be the child of a directional policy. *)
Definition simple_policy (r : PolicyRegistry) (id : Z) : Prop :=
  id = DENY_ALL_POLICY_ID \/ id = ALLOW_ALL_POLICY_ID \/
  exists d t, policies r !! id = Some d /\ type_of d t /\ is_simple t = true.

Definition next_of (r : PolicyRegistry) : Z :=
  if next_policy_id r =? 0 then FIRST_MUTABLE_POLICY_ID else next_policy_id r.

Definition desc_ok (r : PolicyRegistry) (id : Z) (d : PolicyDescriptor) : Prop :=
  exists_flag d = true /\ policy_id d = id /\
  FIRST_MUTABLE_POLICY_ID <= id < next_of r /\
  admin d <> ZERO_ADDRESS /\ pending_admin d <> admin d /\
  ((exists t, type_of d t /\ is_simple t = true) \/
   (type_of d Directional /\ simple_policy r (send_policy_id d) /\
    simple_policy r (receive_policy_id d) /\ simple_policy r (mint_policy_id d))).

(** The well-formedness of a registry. *)
Record reg_inv (r : PolicyRegistry) : Prop := MkRegInv {
  inv_next : next_policy_id r = 0 \/ FIRST_MUTABLE_POLICY_ID <= next_policy_id r <= u256_max;
  inv_desc : forall id d, policies r !! id = Some d -> desc_ok r id d;
  inv_members : forall id, exists l, set_rep (member_set_of r id) l /\ (ZERO_ADDRESS ∉ l) /\
    (l <> [] -> exists d t, policies r !! id = Some d /\ type_of d t /\ is_simple t = true);
}.

(** No member set is within one batch of the [u32] length limit. *)
Definition member_room (r : PolicyRegistry) : Prop :=
  forall id, ss_len (member_set_of r id) + STABLECOIN_POLICY_MEMBER_BATCH_CAP <= u32_max.

(** Registries that calls produce from the empty one; callers are not the
    zero address, which no key controls. *)
Inductive policy_reachable : PolicyRegistry -> Prop :=
  | policy_init : policy_reachable empty_registry
  | policy_call r caller value call res r' :
      policy_reachable r -> member_room r -> caller <> ZERO_ADDRESS ->
      policy_dispatch caller value call r = (res, r') -> policy_reachable r'.

(** Reference decision: follow directional policies to any depth. *)
Fixpoint policy_eval (fuel : nat) (r : PolicyRegistry) (id : Z) (a : Address)
    (lane : PolicyLane) : bool :=
  match fuel with
  | O => false
  | S fuel' =>
      if id =? DENY_ALL_POLICY_ID then false
      else if id =? ALLOW_ALL_POLICY_ID then true
      else match policies r !! id with
           | None => false
           | Some d =>
               match policy_type_of_u8 (policy_type d) with
               | Some AllowAll => true
               | Some Whitelist => is_mem r id a
               | Some Blacklist => negb (is_mem r id a)
               | Some Directional =>
                   policy_eval fuel' r (match lane with
                                        | Send => send_policy_id d
                                        | Receive => receive_policy_id d
                                        | Mint => mint_policy_id d
                                        end) a lane
               | Some DenyAll | None => false
               end
           end
  end.

(** What a caller must satisfy for a member batch to be applied. *)
Definition batch_ok (r : PolicyRegistry) (id : Z) (caller : Address) (accounts : list Address)
    (add : bool) : Prop :=
  (exists d t, policies r !! id = Some d /\ type_of d t /\ is_simple t = true /\
     admin d = caller) /\
  accounts <> [] /\ Z.of_nat (length accounts) <= STABLECOIN_POLICY_MEMBER_BATCH_CAP /\
  NoDup accounts /\ (ZERO_ADDRESS ∉ accounts) /\
  forall a, a ∈ accounts -> is_mem r id a = negb add.

(** * Lemmas *)

Lemma policy_type_roundtrip t : policy_type_of_u8 (policy_type_to_u8 t) = Some t.
Proof. by destruct t. Qed.

Lemma ro_policies_get id : ro (policies_get id). Proof. unfold policies_get. solve_ro. Qed.
Lemma ro_policies_exists id : ro (policies_exists id).
Proof. unfold policies_exists. apply ro_bind; [apply ro_policies_get|solve_ro]. Qed.
#[export] Hint Resolve ro_policies_get ro_policies_exists : rudis.
Lemma ro_ask_member_set {A} id (m : M StorageSet A) : ro (ask_member_set id m).
Proof. unfold ask_member_set. solve_ro. Qed.
#[export] Hint Resolve ro_ask_member_set : rudis.
Lemma ro_optional_descriptor id : ro (optional_descriptor id).
Proof. unfold optional_descriptor. solve_ro. Qed.
Lemma ro_descriptor id : ro (descriptor id).
Proof. unfold descriptor. solve_ro. Qed.
#[export] Hint Resolve ro_optional_descriptor ro_descriptor : rudis.
Lemma ro_get_policy_type id : ro (get_policy_type id).
Proof. unfold get_policy_type. solve_ro. Qed.
Lemma ro_can_simple_child id a : ro (can_simple_child id a).
Proof. unfold can_simple_child. solve_ro. Qed.
Lemma ro_mutable_descriptor id : ro (mutable_descriptor id).
Proof. unfold mutable_descriptor. solve_ro. Qed.
Lemma ro_next_id : ro next_id.
Proof. unfold next_id. solve_ro. Qed.
#[export] Hint Resolve ro_get_policy_type ro_can_simple_child ro_mutable_descriptor ro_next_id : rudis.
Lemma ro_mutable_descriptor_for_admin id c : ro (mutable_descriptor_for_admin id c).
Proof. unfold mutable_descriptor_for_admin. solve_ro. Qed.
Lemma ro_check_directional_child c : ro (check_directional_child c).
Proof. unfold check_directional_child. solve_ro. Qed.
Lemma ro_can id a lane : ro (can id a lane).
Proof. unfold can. solve_ro. Qed.
Lemma ro_list_policy_members id o l : ro (list_policy_members id o l).
Proof. unfold list_policy_members, require_enumerable. solve_ro. Qed.
#[export] Hint Resolve ro_mutable_descriptor_for_admin ro_check_directional_child ro_can
  ro_list_policy_members : rudis.

Lemma atomic_create_descriptor a t adm x y z : atomic (create_descriptor a t adm x y z).
Proof. unfold create_descriptor. solve_atomic. Qed.
#[export] Hint Resolve atomic_create_descriptor : rudis.

Lemma atomic_policy_dispatch caller value call : atomic (policy_dispatch caller value call).
Proof.
  unfold policy_dispatch, returns. case_match; [solve_atomic|].
  destruct call; apply atomic_bind_ret;
    unfold create_policy, create_directional_policy, add_members, remove_members, mutate_members,
      begin_policy_admin_transfer, cancel_policy_admin_transfer, accept_policy_admin_transfer,
      policy_exists, policy_admin, pending_policy_admin, is_member, policy_member_count,
      require_enumerable, validate_admin; solve_atomic.
Qed.

(** ** Member sets *)

Lemma member_set_of_put r id s' id' :
  member_set_of (r <| member_sets := <[id := s']> (member_sets r) |>) id' =
    if decide (id = id') then s' else member_set_of r id'.
Proof.
  unfold member_set_of. simpl. case_decide; subst.
  - by rewrite lookup_insert_eq.
  - by rewrite lookup_insert_ne.
Qed.

Lemma is_mem_rep r id l a :
  set_rep (member_set_of r id) l -> is_mem r id a = bool_decide (a ∈ l).
Proof.
  intros (_ & _ & _ & _ & Hin & Hout). unfold is_mem.
  destruct (decide (a ∈ l)) as [Ha|Ha].
  - rewrite bool_decide_eq_true_2 by done. apply list_elem_of_lookup in Ha as [i Hi].
    rewrite (Hin _ _ Hi). destruct (Z.eqb_spec (Z.of_nat i + 1) 0); [lia|done].
  - rewrite bool_decide_eq_false_2 by done. by rewrite Hout.
Qed.

Lemma ask_contains r id l a :
  set_rep (member_set_of r id) l ->
  ask_member_set id (set_contains a) r = (Ok (is_mem r id a), r).
Proof.
  intros Hl. unfold ask_member_set, reads. by rewrite (set_contains_ok _ l), (is_mem_rep _ _ l).
Qed.

(** A member loop changes only the member set of its policy and the log. *)
Definition same_policies (r r' : PolicyRegistry) (id : Z) : Prop :=
  policies r' = policies r /\ next_policy_id r' = next_policy_id r /\
  forall id', id' <> id -> member_set_of r' id' = member_set_of r id'.

Lemma member_step_ok r id caller (add : bool) a l :
  set_rep (member_set_of r id) l -> bool_decide (a ∈ l) = negb add ->
  Z.of_nat (length l) < u32_max ->
  exists r' l',
    (let! changed := on_member_set id (if add then set_insert a else set_remove a) in
     require changed (Fatal "validated policy membership changed during mutation") ;;;
     policy_emit (if add then PolicyMemberAdded id a caller
                  else PolicyMemberRemoved id a caller)) r = (Ok tt, r') /\
    set_rep (member_set_of r' id) l' /\ same_policies r r' id /\
    (length l' <= S (length l))%nat /\
    forall b, b ∈ l' <-> if add then b ∈ l \/ b = a else b ∈ l /\ b <> a.
Proof.
  intros Hrep Ha Hlen.
  assert (Hrun : exists s' l', (if add then set_insert a else set_remove a) (member_set_of r id)
      = (Ok true, s') /\ set_rep s' l' /\ (length l' <= S (length l))%nat /\
    forall b, b ∈ l' <-> if add then b ∈ l \/ b = a else b ∈ l /\ b <> a).
  { destruct add; simpl in Ha; bprop.
    - destruct (set_insert_new _ _ _ Hrep Ha Hlen) as (s' & Hs & Hrep').
      exists s', (l ++ [a]). split_and!; [done|done|rewrite length_app; simpl; lia|].
      intros b. by rewrite elem_of_app, list_elem_of_singleton.
    - apply list_elem_of_lookup in Ha as [i Hi].
      destruct (set_remove_ok _ _ _ _ Hrep Hi) as (s' & Hs & Hrep').
      exists s', (swap_remove i l). split_and!; [done|done| |].
      + rewrite length_swap_remove by (by eapply lookup_lt_Some). lia.
      + intros b. apply elem_of_swap_remove; [apply Hrep|done]. }
  destruct Hrun as (s' & l' & Hs & Hrep' & Hlen' & Hmem).
  eexists _, l'. split.
  { eapply mbind_ok_intro; [unfold on_member_set, zoom; by rewrite Hs|].
    by eapply mbind_ok_intro. }
  split_and!; try done.
  - change (set_rep (member_set_of (r <| member_sets := <[id := s']> (member_sets r) |>) id) l').
    by rewrite member_set_of_put, decide_True.
  - split_and!; [done|done|]. intros id' Hne.
    change (member_set_of (r <| member_sets := <[id := s']> (member_sets r) |>) id'
      = member_set_of r id').
    by rewrite member_set_of_put, decide_False.
Qed.

Lemma member_loop_ok id caller (add : bool) accounts : forall r l,
  set_rep (member_set_of r id) l -> NoDup accounts ->
  (forall a, a ∈ accounts -> bool_decide (a ∈ l) = negb add) ->
  Z.of_nat (length l + length accounts) <= u32_max ->
  exists r' l',
    mfor accounts (fun a =>
      let! changed := on_member_set id (if add then set_insert a else set_remove a) in
      require changed (Fatal "validated policy membership changed during mutation") ;;;
      policy_emit (if add then PolicyMemberAdded id a caller
                   else PolicyMemberRemoved id a caller)) r = (Ok tt, r') /\
    set_rep (member_set_of r' id) l' /\ same_policies r r' id /\
    forall b, b ∈ l' <-> if add then b ∈ l \/ b ∈ accounts else b ∈ l /\ (b ∉ accounts).
Proof.
  induction accounts as [|a accounts IH]; intros r l Hrep Hnd Hmem Hlen.
  - exists r, l. split; [done|]. split_and!; try done.
    intros b. destruct add; rewrite elem_of_nil; tauto.
  - apply NoDup_cons in Hnd as [Ha Hnd]. simpl in Hlen.
    destruct (member_step_ok r id caller add a l Hrep) as (r1 & l1 & Hs1 & Hrep1 & Hsame1 & Hl1 & Hm1).
    { apply Hmem. left. } { lia. }
    destruct (IH r1 l1 Hrep1 Hnd) as (r2 & l2 & Hs2 & Hrep2 & Hsame2 & Hm2); [|lia|].
    { intros b Hb. rewrite <- (Hmem b) by (by right). apply bool_decide_ext. specialize (Hm1 b).
      assert (b <> a) by congruence. destruct add; tauto. }
    exists r2, l2. split; [simpl; by rewrite (mbind_ok_intro _ _ _ _ _ _ Hs1 eq_refl)|].
    split_and!; [done|..].
    + destruct Hsame1 as (? & ? & Ho1), Hsame2 as (? & ? & Ho2).
      split_and!; [congruence|congruence|]. intros id' Hne. by rewrite Ho2, Ho1.
    + intros b. specialize (Hm1 b). specialize (Hm2 b). pose proof (elem_of_cons accounts b a).
      destruct add; tauto.
Qed.

(** ** Descriptors *)

Lemma policies_get_inv r id :
  reg_inv r -> policies_get id r = (Ok (policies r !! id), r).
Proof.
  intros Hinv. unfold policies_get, gets. destruct (policies r !! id) as [d|] eqn:Hd; [|done].
  apply Hinv in Hd as (-> & _). done.
Qed.

Ltac pget :=
  repeat match goal with
  | H : policies_get _ _ = _ |- _ => rewrite policies_get_inv in H by done; minv
  end.

Lemma descriptor_inv r id r' d :
  reg_inv r -> is_builtin id = false -> descriptor id r = (Ok d, r') ->
  r' = r /\ policies r !! id = Some d.
Proof.
  intros Hinv Hb Hrun. unfold is_builtin in Hb. bprop. unfold descriptor in Hrun.
  destruct (Z.eqb_spec id DENY_ALL_POLICY_ID), (Z.eqb_spec id ALLOW_ALL_POLICY_ID); try done.
  rewrite (mbind_ok_intro _ _ _ _ _ _ (policies_get_inv r id Hinv) eq_refl) in Hrun. by minv.
Qed.

Lemma descriptor_run r id d :
  reg_inv r -> policies r !! id = Some d -> descriptor id r = (Ok d, r) /\ is_builtin id = false.
Proof.
  intros Hinv Hd. pose proof (inv_desc r Hinv id d Hd) as (_ & _ & Hid & _).
  unfold descriptor, is_builtin, FIRST_MUTABLE_POLICY_ID, DENY_ALL_POLICY_ID,
    ALLOW_ALL_POLICY_ID in *.
  destruct (Z.eqb_spec id 0), (Z.eqb_spec id 1); try lia. split; [|done].
  eapply mbind_ok_intro; [by apply policies_get_inv|]. unfold lift. by rewrite Hd.
Qed.

Lemma mutable_descriptor_inv r id r' d :
  reg_inv r -> mutable_descriptor id r = (Ok d, r') -> r' = r /\ policies r !! id = Some d.
Proof.
  intros Hinv. unfold mutable_descriptor. destruct (is_builtin id) eqn:Hb; intros; minv.
  by apply descriptor_inv in H.
Qed.

Lemma for_admin_inv r id c r' d :
  reg_inv r -> mutable_descriptor_for_admin id c r = (Ok d, r') ->
  r' = r /\ policies r !! id = Some d /\ admin d = c.
Proof.
  intros Hinv Hrun. unfold mutable_descriptor_for_admin in Hrun. minv.
  apply mutable_descriptor_inv in H as [-> ?]; [|done]. bprop. done.
Qed.

Lemma next_id_inv r id r' : next_id r = (Ok id, r') -> r' = r /\ id = next_of r /\ 2 <= id \/ next_policy_id r < 0.
Proof.
  unfold next_id, next_of, FIRST_MUTABLE_POLICY_ID. intros. minv_all; bprop.
  all: destruct (Z.eqb_spec (next_policy_id r) 0); try lia; left; split_and!; lia || done.
Qed.

Definition new_descriptor (r : PolicyRegistry) (t : PolicyType) (adm : Address)
    (send recv mint : Z) : PolicyDescriptor :=
  MkPolicyDescriptor (next_of r) true (policy_type_to_u8 t) adm ZERO_ADDRESS send recv mint.

Lemma create_descriptor_inv r actor t adm x y z id r' :
  reg_inv r -> create_descriptor actor t adm x y z r = (Ok id, r') ->
  id = next_of r /\ id + 1 <= u256_max /\ policies r !! id = None /\
  policies r' = <[id := new_descriptor r t adm x y z]> (policies r) /\
  next_policy_id r' = id + 1 /\ member_sets r' = member_sets r.
Proof.
  intros Hinv Hrun. unfold create_descriptor in Hrun. minv.
  apply next_id_inv in H as [(-> & -> & _)|Hneg];
    [|destruct (inv_next r Hinv); unfold FIRST_MUTABLE_POLICY_ID in *; lia].
  unfold policies_create, policies_exists, policies_write, policy_emit in *. minv.
  pget. simpl in *.
  bprop. destruct (policies r !! next_of r) eqn:Hn; [naive_solver|]. done.
Qed.

(** ** The invariant is preserved by each kind of write *)

Lemma simple_policy_insert r r' id d :
  policies r' = <[id := d]> (policies r) ->
  (forall d0, policies r !! id = Some d0 -> policy_type d = policy_type d0) ->
  forall c, simple_policy r c -> simple_policy r' c.
Proof.
  intros Hp Hty c [?|[?|(d0 & t & Hd0 & Ht & Hs)]]; [by left|by right; left|].
  right; right. rewrite Hp. destruct (decide (id = c)) as [->|Hne].
  - exists d, t. rewrite lookup_insert_eq. split_and!; [done| |done].
    unfold type_of in *. by rewrite (Hty d0).
  - exists d0, t. by rewrite lookup_insert_ne.
Qed.

Lemma desc_ok_mono r r' id d :
  desc_ok r id d -> next_of r <= next_of r' ->
  (forall c, simple_policy r c -> simple_policy r' c) -> desc_ok r' id d.
Proof.
  intros (? & ? & ? & ? & ? & Hty) Hn Hs. split_and!; try done; try lia.
  destruct Hty as [?|(? & ? & ? & ?)]; [by left|right; split_and!; eauto].
Qed.

Lemma reg_inv_create r actor t adm x y z id r' :
  reg_inv r -> create_descriptor actor t adm x y z r = (Ok id, r') -> adm <> ZERO_ADDRESS ->
  (is_simple t = true \/
   (t = Directional /\ simple_policy r x /\ simple_policy r y /\ simple_policy r z)) ->
  reg_inv r'.
Proof.
  intros Hinv Hrun Hadm Ht.
  destruct (create_descriptor_inv _ _ _ _ _ _ _ _ _ Hinv Hrun) as (-> & Hmax & Hnone & Hp & Hn & Hm).
  assert (Hnext : 2 <= next_of r).
  { unfold next_of. destruct (Z.eqb_spec (next_policy_id r) 0); [done|].
    destruct (inv_next r Hinv); [done|]. unfold FIRST_MUTABLE_POLICY_ID in *. lia. }
  assert (Hnext' : next_of r' = next_of r + 1).
  { unfold next_of at 1. rewrite Hn. destruct (Z.eqb_spec (next_of r + 1) 0); lia. }
  assert (Hmono : forall c, simple_policy r c -> simple_policy r' c).
  { eapply simple_policy_insert; [exact Hp|]. by rewrite Hnone. }
  assert (Hlk : forall i d, policies r' !! i = Some d ->
    (i = next_of r /\ d = new_descriptor r t adm x y z) \/ policies r !! i = Some d).
  { intros i d. rewrite Hp, lookup_insert_Some. naive_solver. }
  split.
  - right. unfold FIRST_MUTABLE_POLICY_ID. lia.
  - intros i d Hd. apply Hlk in Hd as [[-> ->]|Hd].
    + split_and!; simpl; try done; unfold FIRST_MUTABLE_POLICY_ID; try lia.
      destruct Ht as [Ht|(-> & ? & ? & ?)]; [left; by exists t|right; split_and!; try done; eauto].
    + eapply desc_ok_mono; [by apply Hinv|lia|done].
  - intros i. destruct (inv_members r Hinv i) as (l & Hl & H0 & Hne). exists l.
    unfold member_set_of in *. rewrite Hm. split_and!; [done|done|].
    intros Hnil. destruct (Hne Hnil) as (d & t' & Hd & ?). exists d, t'.
    rewrite Hp, lookup_insert_ne; [done|]. intros <-. congruence.
Qed.

Lemma reg_inv_update r r' d0 d :
  reg_inv r -> policies r !! policy_id d = Some d0 ->
  policies r' = <[policy_id d := d]> (policies r) ->
  next_policy_id r' = next_policy_id r -> member_sets r' = member_sets r ->
  exists_flag d = true -> policy_type d = policy_type d0 ->
  send_policy_id d = send_policy_id d0 -> receive_policy_id d = receive_policy_id d0 ->
  mint_policy_id d = mint_policy_id d0 ->
  admin d <> ZERO_ADDRESS -> pending_admin d <> admin d -> reg_inv r'.
Proof.
  intros Hinv Hd0 Hp Hn Hm Hex Hty Hs Hr Hmi Ha Hpa.
  pose proof (inv_desc r Hinv _ _ Hd0) as (_ & _ & Hid & _ & _ & Hkind).
  assert (Hmono : forall c, simple_policy r c -> simple_policy r' c).
  { eapply simple_policy_insert; [exact Hp|]. naive_solver. }
  assert (Hnext : next_of r' = next_of r) by (unfold next_of; by rewrite Hn).
  split.
  - rewrite Hn. apply Hinv.
  - intros i d1 Hd1. rewrite Hp, lookup_insert_Some in Hd1. destruct Hd1 as [[<- <-]|[_ Hd1]].
    + split_and!; try done; try lia. unfold type_of in *. rewrite Hty, Hs, Hr, Hmi.
      destruct Hkind as [?|(? & ? & ? & ?)]; [by left|right; split_and!; eauto].
    + eapply desc_ok_mono; [by apply Hinv|lia|done].
  - intros i. destruct (inv_members r Hinv i) as (l & Hl & H0 & Hne). exists l.
    unfold member_set_of in *. rewrite Hm. split_and!; [done|done|].
    intros Hnil. destruct (Hne Hnil) as (d1 & t' & Hd1 & Ht & Hsim). rewrite Hp.
    destruct (decide (policy_id d = i)) as [<-|].
    + exists d, t'. rewrite lookup_insert_eq. unfold type_of in *. simplify_eq.
      split_and!; [done|congruence|done].
    + exists d1, t'. by rewrite lookup_insert_ne.
Qed.

Lemma policies_update_inv r d r' :
  reg_inv r -> policies_update d r = (Ok tt, r') ->
  is_Some (policies r !! policy_id d) /\
  policies r' = <[policy_id d := d]> (policies r) /\
  next_policy_id r' = next_policy_id r /\ member_sets r' = member_sets r.
Proof.
  intros Hinv Hrun. unfold policies_update, policies_exists, policies_write in Hrun. minv.
  pget. bprop. simpl. done.
Qed.

(** ** Member batches *)

Lemma scan_batch_ok accounts : forall seen,
  scan_batch accounts seen = Ok tt <->
  NoDup accounts /\ (ZERO_ADDRESS ∉ accounts) /\ (forall a, a ∈ accounts -> a ∉ seen).
Proof.
  induction accounts as [|a accounts IH]; intros seen; simpl.
  - split; [|done]. intros _. split_and!; [constructor|apply not_elem_of_nil|].
    intros a Ha. by apply elem_of_nil in Ha.
  - rewrite NoDup_cons, not_elem_of_cons.
    destruct (Z.eqb_spec a ZERO_ADDRESS) as [->|Hz]; [naive_solver|].
    case_bool_decide as Hseen.
    + split; [done|]. intros (_ & _ & Hs). destruct (Hs a); [left|done].
    + rewrite IH. split.
      * intros (Hnd & H0 & Hs). split_and!; try done.
        -- intros Ha. apply Hs in Ha. set_solver.
        -- intros b [->|Hb]%elem_of_cons; [done|]. apply Hs in Hb. set_solver.
      * intros ([Ha Hnd] & [_ H0] & Hs). split_and!; try done.
        intros b Hb. pose proof (Hs b ltac:(by right)). set_solver.
Qed.

Lemma validate_member_batch_ok accounts :
  validate_member_batch accounts = Ok tt <->
  accounts <> [] /\ Z.of_nat (length accounts) <= STABLECOIN_POLICY_MEMBER_BATCH_CAP /\
  NoDup accounts /\ (ZERO_ADDRESS ∉ accounts).
Proof.
  unfold validate_member_batch.
  destruct (Z.eqb_spec (Z.of_nat (length accounts)) 0).
  { destruct accounts; [naive_solver|simpl in *; lia]. }
  destruct (Z.ltb_spec STABLECOIN_POLICY_MEMBER_BATCH_CAP (Z.of_nat (length accounts))).
  { split; [done|]. lia. }
  rewrite scan_batch_ok. split.
  - intros (? & ? & _). split_and!; try done. by intros ->.
  - intros (_ & _ & ? & ?). by split_and!.
Qed.

Lemma member_check_loop r id add accounts l :
  set_rep (member_set_of r id) l ->
  fst (mfor accounts (fun account =>
    let! m := ask_member_set id (set_contains account) in
    require (negb (Bool.eqb m add)) (MembershipUnchanged id account add)) r) = Ok tt <->
  forall a, a ∈ accounts -> is_mem r id a = negb add.
Proof.
  intros Hl. induction accounts as [|a accounts IH]; simpl.
  - split; [|done]. intros _ a Ha. by apply elem_of_nil in Ha.
  - unfold mbind at 1. unfold mbind at 1. rewrite (ask_contains r id l a Hl).
    destruct (Bool.eqb (is_mem r id a) add) eqn:He; simpl.
    + apply Bool.eqb_prop in He. split; [done|]. intros Hs.
      specialize (Hs a ltac:(left)). rewrite He in Hs. by destruct add.
    + rewrite IH. apply Bool.eqb_false_iff in He. split; intros Hs.
      * intros b [->|Hb]%elem_of_cons; [|by apply Hs]. by destruct (is_mem r id a), add.
      * intros b Hb. apply Hs. by right.
Qed.

Lemma batch_ok_run r id caller accounts add :
  reg_inv r -> member_room r -> batch_ok r id caller accounts add ->
  exists r', mutate_members id caller accounts add r = (Ok tt, r') /\ reg_inv r' /\
    same_policies r r' id /\
    forall a, is_mem r' id a = if add then is_mem r id a || bool_decide (a ∈ accounts)
                               else is_mem r id a && negb (bool_decide (a ∈ accounts)).
Proof.
  intros Hinv Hroom ((d & t & Hd & Ht & Hsim & Hadm) & Hne & Hcap & Hnd & H0 & Hmem).
  destruct (inv_members r Hinv id) as (l & Hl & Hl0 & _).
  destruct (descriptor_run r id d Hinv Hd) as [Hdesc Hb].
  assert (Hlen : Z.of_nat (length l) + STABLECOIN_POLICY_MEMBER_BATCH_CAP <= u32_max).
  { specialize (Hroom id). by destruct Hl as (_ & <- & _). }
  destruct (member_loop_ok id caller add accounts r l Hl Hnd)
    as (r' & l' & Hloop & Hl' & Hsame & Hmem'); [|lia|].
  { intros a Ha. rewrite <- (is_mem_rep r id l) by done. by apply Hmem. }
  assert (Hfinal : forall a, is_mem r' id a = if add then is_mem r id a || bool_decide (a ∈ accounts)
                               else is_mem r id a && negb (bool_decide (a ∈ accounts))).
  { intros a. rewrite (is_mem_rep r' id l'), (is_mem_rep r id l) by done.
    specialize (Hmem' a). destruct add; repeat case_bool_decide; simpl; tauto. }
  exists r'. split_and!; [|split|done|done].
  - unfold mutate_members, mutable_descriptor_for_admin, mutable_descriptor. rewrite Hb.
    eapply mbind_ok_intro.
    { eapply mbind_ok_intro; [exact Hdesc|]. rewrite Hadm, Z.eqb_refl. reflexivity. }
    unfold descriptor_type, type_of in *. rewrite Ht, policy_type_roundtrip.
    eapply mbind_ok_intro; [reflexivity|]. rewrite Hsim.
    eapply mbind_ok_intro; [reflexivity|].
    eapply mbind_ok_intro; [unfold lift; by rewrite (proj2 (validate_member_batch_ok accounts))|].
    pose proof (proj2 (member_check_loop r id add accounts l Hl) Hmem) as Hcheck.
    destruct (mfor accounts _ r) as [res r1] eqn:Hrun in Hcheck. simpl in Hcheck. subst res.
    assert (r1 = r) as ->.
    { eapply ro_run; [|exact Hrun]. solve_ro. }
    eapply mbind_ok_intro; [exact Hrun|]. by apply with_checkpoint_ok.
  - destruct Hsame as (_ & -> & _). apply Hinv.
  - destruct Hsame as (Hp & Hn & _). intros i d' Hd'. rewrite Hp in Hd'.
    eapply desc_ok_mono; [by apply Hinv| |]; unfold next_of, simple_policy; rewrite ?Hn, ?Hp; [lia|done].
  - destruct Hsame as (Hp & Hn & Ho). intros i. destruct (decide (i = id)) as [->|Hi].
    + exists l'. split_and!; [done| |].
      * rewrite Hmem'. destruct add; naive_solver.
      * intros _. exists d, t. by rewrite Hp.
    + rewrite Ho by done. rewrite Hp. apply Hinv.
Qed.

Lemma run_batch_ok r id caller accounts add u r' :
  reg_inv r -> mutate_members id caller accounts add r = (Ok u, r') ->
  batch_ok r id caller accounts add.
Proof.
  intros Hinv Hrun. unfold mutate_members in Hrun. minv.
  apply for_admin_inv in H as (-> & Hd & Hadm); [|done].
  destruct (inv_members r Hinv id) as (l & Hl & _).
  pose proof (inv_desc r Hinv _ _ Hd) as (_ & _ & _ & _ & _ & Hkind).
  repeat match goal with H : validate_member_batch _ = Ok _ |- _ => apply validate_member_batch_ok in H end.
  destruct_and!. split_and!; try done.
  - unfold descriptor_type in *. minv. destruct Hkind as [(t & Ht & Hs)|(Ht & _)].
    + exists x, t. done.
    + unfold type_of in Ht. rewrite Ht, policy_type_roundtrip in *. by simplify_eq.
  - apply (member_check_loop r id add accounts l Hl).
    match goal with H : mfor accounts _ r = _ |- _ => by rewrite H end.
Qed.

(** ** What a successful call can do *)

Definition same_rules (d d' : PolicyDescriptor) : Prop :=
  policy_type d' = policy_type d /\ send_policy_id d' = send_policy_id d /\
  receive_policy_id d' = receive_policy_id d /\ mint_policy_id d' = mint_policy_id d.

Inductive policy_effect (r : PolicyRegistry) (caller : Address) : PolicyRegistry -> Prop :=
  | eff_view : policy_effect r caller r
  | eff_create r' t adm x y z :
      policies r !! next_of r = None ->
      policies r' = <[next_of r := new_descriptor r t adm x y z]> (policies r) ->
      member_sets r' = member_sets r -> policy_effect r caller r'
  | eff_update r' id d d' :
      policies r !! id = Some d -> policies r' = <[id := d']> (policies r) ->
      member_sets r' = member_sets r -> same_rules d d' ->
      (caller = admin d /\ admin d' = admin d) \/
      (caller = pending_admin d /\ admin d' = caller /\ pending_admin d' = ZERO_ADDRESS) ->
      policy_effect r caller r'
  | eff_members r' id accounts add :
      batch_ok r id caller accounts add -> same_policies r r' id ->
      policy_effect r caller r'.

Lemma update_effect r caller d0 d r1 r' e :
  reg_inv r -> caller <> ZERO_ADDRESS -> policies r !! policy_id d = Some d0 ->
  policies_update d r = (Ok tt, r1) -> policy_emit e r1 = (Ok tt, r') ->
  exists_flag d = true -> same_rules d0 d -> admin d <> ZERO_ADDRESS -> pending_admin d <> admin d ->
  (caller = admin d0 /\ admin d = admin d0) \/
  (caller = pending_admin d0 /\ admin d = caller /\ pending_admin d = ZERO_ADDRESS) ->
  reg_inv r' /\ policy_effect r caller r'.
Proof.
  intros Hinv Hc Hd Hup Hemit Hex (Hty & Hs & Hr & Hm) Ha Hp Hauth.
  apply policies_update_inv in Hup as (_ & Hpol & Hn & Hms); [|done].
  unfold policy_emit in Hemit. minv.
  split; [by eapply reg_inv_update|by eapply eff_update].
Qed.

Lemma check_directional_child_inv r c u r' :
  reg_inv r -> check_directional_child c r = (Ok u, r') -> r' = r /\ simple_policy r c.
Proof.
  intros Hinv Hrun. split; [by apply (ro_run _ _ _ _ (ro_check_directional_child c) Hrun)|].
  unfold check_directional_child, optional_descriptor in Hrun. minv.
  unfold simple_policy.
  destruct (Z.eqb_spec c DENY_ALL_POLICY_ID); [by left|].
  destruct (Z.eqb_spec c ALLOW_ALL_POLICY_ID); [by right; left|].
  pget. right; right. bprop. unfold descriptor_type in *. minv.
  match goal with H : policies r !! c = Some ?d |- _ =>
    pose proof (inv_desc r Hinv _ _ H) as (_ & _ & _ & _ & _ & [(t & Ht & Hs)|(Ht & _)]) end;
    unfold type_of in *; [by eauto|].
  by rewrite Ht, policy_type_roundtrip in *; simplify_eq.
Qed.

Lemma policy_dispatch_ok r caller value call res r' :
  reg_inv r -> member_room r -> caller <> ZERO_ADDRESS ->
  policy_dispatch caller value call r = (Ok res, r') ->
  reg_inv r' /\ policy_effect r caller r'.
Proof.
  intros Hinv Hroom Hc Hrun. unfold policy_dispatch, returns in Hrun.
  destruct (value =? 0); [simpl in Hrun|by minv].
  assert (Hview : forall A B (m : PM A) (f : A -> B) b, ro m ->
    (let! a := m in mret (f a)) r = (Ok b, r') -> reg_inv r' /\ policy_effect r caller r').
  { intros A B m f b Hro Hm. minv. apply (ro_run _ _ _ _ Hro) in H as ->. split; [done|constructor]. }
  destruct call; minv_step;
    try solve [eapply Hview; [|eapply mbind_ok_intro; eassumption];
         unfold policy_exists, policy_admin, pending_policy_admin, is_member,
           policy_member_count, require_enumerable; solve_ro].
  - unfold create_policy, validate_admin in *. minv. bprop.
    match goal with H : create_descriptor _ _ _ _ _ _ _ = _ |- _ => rename H into Hcr end.
    split; [eapply reg_inv_create; eauto|].
    apply create_descriptor_inv in Hcr as (-> & _ & ? & ? & _ & ?); [|done]. by eapply eff_create.
  - unfold create_directional_policy, validate_admin in *. cbn [mfor] in *. minv. bprop.
    repeat match goal with H : check_directional_child _ r = _ |- _ =>
      apply check_directional_child_inv in H as [-> ?]; [|done] end.
    match goal with H : create_descriptor _ _ _ _ _ _ _ = _ |- _ => rename H into Hcr end.
    split; [eapply reg_inv_create; eauto|].
    apply create_descriptor_inv in Hcr as (-> & _ & ? & ? & _ & ?); [|done]. by eapply eff_create.
  - unfold add_members in *. minv. pose proof (run_batch_ok _ _ _ _ _ _ _ Hinv H) as Hb.
    destruct (batch_ok_run _ _ _ _ _ Hinv Hroom Hb) as (r1 & Hr1 & ? & ? & _).
    rewrite Hr1 in H. minv. split; [done|by eapply eff_members].
  - unfold remove_members in *. minv. pose proof (run_batch_ok _ _ _ _ _ _ _ Hinv H) as Hb.
    destruct (batch_ok_run _ _ _ _ _ Hinv Hroom Hb) as (r1 & Hr1 & ? & ? & _).
    rewrite Hr1 in H. minv. split; [done|by eapply eff_members].
  - unfold begin_policy_admin_transfer in *. minv. bprop.
    match goal with H : mutable_descriptor_for_admin _ _ _ = _ |- _ =>
      apply for_admin_inv in H as (-> & Hd & Hadm); [|done] end.
    pose proof (inv_desc r Hinv _ _ Hd) as (? & Hid & _ & ? & _).
    eapply (update_effect _ _ x0); [done|done| |eassumption|eassumption|..];
      simpl; rewrite ?Hid; try done; naive_solver.
  - unfold cancel_policy_admin_transfer in *. minv. bprop.
    match goal with H : mutable_descriptor_for_admin _ _ _ = _ |- _ =>
      apply for_admin_inv in H as (-> & Hd & Hadm); [|done] end.
    pose proof (inv_desc r Hinv _ _ Hd) as (? & Hid & _ & ? & _).
    eapply (update_effect _ _ x0); [done|done| |eassumption|eassumption|..];
      simpl; rewrite ?Hid; try done; naive_solver.
  - unfold accept_policy_admin_transfer in *. minv. bprop.
    match goal with H : mutable_descriptor _ _ = _ |- _ =>
      apply mutable_descriptor_inv in H as (-> & Hd); [|done] end.
    pose proof (inv_desc r Hinv _ _ Hd) as (? & Hid & _ & ? & _).
    eapply (update_effect _ _ x0); [done|done| |eassumption|eassumption|..];
      simpl; rewrite ?Hid; try done; naive_solver.
  - minv. apply (ro_run _ _ _ _ (ro_get_policy_type _)) in H as ->. split; [done|constructor].
Qed.

Lemma reg_inv_empty : reg_inv empty_registry.
Proof.
  split; [by left|done|]. intros id. exists []. split_and!; [|apply not_elem_of_nil|done].
  apply set_rep_empty.
Qed.

Lemma policy_reachable_inv r : policy_reachable r -> reg_inv r.
Proof.
  induction 1 as [|r caller value call res r' _ IH Hroom Hc Hrun]; [apply reg_inv_empty|].
  destruct res as [res|e|].
  - by eapply policy_dispatch_ok.
  - by rewrite (atomic_err _ _ _ _ (atomic_policy_dispatch _ _ _) Hrun).
  - destruct (atomic_policy_dispatch caller value call r) as [[a Ha]|Ha]; rewrite Hrun in Ha;
      simpl in Ha; [done|by subst].
Qed.

(** * Theorems *)

(** C37. Every registry that calls produce is well formed: mutable ids lie
    between 2 and the next id, every descriptor has a non-zero admin different
    from its pending admin, the children of a directional policy exist and are
    not directional themselves, and every member set is a duplicate-free list
    of non-zero accounts that only a whitelist or blacklist policy has. *)
Theorem policy_registry_invariant r : policy_reachable r -> reg_inv r.
Proof. apply policy_reachable_inv. Qed.

Definition sample_registry : PolicyRegistry :=
  snd ((policy_dispatch 7 0 (createPolicy 2 7) ;;;
        policy_dispatch 7 0 (addMembers 2 [11; 12]) ;;;
        policy_dispatch 7 0 (createDirectionalPolicy 8 2 1 0)) empty_registry).

Lemma member_room_intro r :
  forallb (fun s => ss_len s + 64 <=? u32_max) (map snd (map_to_list (member_sets r))) = true ->
  member_room r.
Proof.
  intros Hall id. unfold member_set_of. destruct (member_sets r !! id) as [s|] eqn:Hs; [|done].
  simpl. rewrite forallb_forall in Hall. specialize (Hall s). apply Z.leb_le, Hall.
  apply in_map_iff. exists (id, s). split; [done|]. by apply list_elem_of_In, elem_of_map_to_list.
Qed.

Lemma sample_reachable : policy_reachable sample_registry.
Proof.
  eapply (policy_call _ 7 0 (createDirectionalPolicy 8 2 1 0));
    [eapply (policy_call _ 7 0 (addMembers 2 [11; 12]));
      [eapply (policy_call empty_registry 7 0 (createPolicy 2 7));
        [constructor|apply member_room_intro|..]|apply member_room_intro|..]
    |apply member_room_intro|..];
    solve [vm_compute; reflexivity | discriminate].
Qed.

Lemma policy_registry_invariant_witness :
  policy_reachable sample_registry /\ reg_inv sample_registry.
Proof.
  split; [apply sample_reachable|].
  exact (policy_registry_invariant sample_registry sample_reachable).
Defined.

Lemma optional_descriptor_inv r id :
  reg_inv r ->
  optional_descriptor id r =
    (Ok (if id =? DENY_ALL_POLICY_ID then Some (builtin DENY_ALL_POLICY_ID DenyAll)
         else if id =? ALLOW_ALL_POLICY_ID then Some (builtin ALLOW_ALL_POLICY_ID AllowAll)
         else policies r !! id), r).
Proof.
  intros Hinv. unfold optional_descriptor.
  destruct (id =? DENY_ALL_POLICY_ID); [done|]. destruct (id =? ALLOW_ALL_POLICY_ID); [done|].
  by apply policies_get_inv.
Qed.

Lemma can_simple_child_eval r c a lane n :
  reg_inv r -> simple_policy r c ->
  can_simple_child c a r = (Ok (policy_eval (S n) r c a lane), r).
Proof.
  intros Hinv Hs. destruct (inv_members r Hinv c) as (l & Hl & _).
  unfold can_simple_child. eapply mbind_ok_intro; [by apply optional_descriptor_inv|].
  simpl. destruct Hs as [->|[->|(d & t & Hd & Ht & Hsim)]]; [done|done|].
  destruct (descriptor_run r c d Hinv Hd) as [_ Hb]. unfold is_builtin in Hb.
  apply orb_false_iff in Hb as [-> ->]. rewrite Hd. unfold type_of in Ht.
  rewrite Ht, policy_type_roundtrip.
  destruct t; try done; [by apply (ask_contains r c l)|].
  by eapply mbind_ok_intro; [by apply (ask_contains r c l)|].
Qed.

(** C38. On a well-formed registry the permission check never fails, changes
    nothing, and decides as the reference evaluator that follows directional
    policies to any depth: looking through one directional level, as the code
    does, loses nothing. *)
Theorem can_decides r id a lane n :
  reg_inv r -> can id a lane r = (Ok (policy_eval (S (S n)) r id a lane), r).
Proof.
  intros Hinv. destruct (inv_members r Hinv id) as (l & Hl & _).
  unfold can. eapply mbind_ok_intro; [by apply optional_descriptor_inv|].
  remember (S n) as m eqn:Hm0. cbn [policy_eval].
  destruct (id =? DENY_ALL_POLICY_ID); [done|]. destruct (id =? ALLOW_ALL_POLICY_ID); [done|].
  destruct (policies r !! id) as [d|] eqn:Hd; [|done].
  pose proof (inv_desc r Hinv _ _ Hd) as (_ & _ & _ & _ & _ & [(t & Ht & Hsim)|(Ht & Hs & Hr & Hm)]);
    unfold type_of in Ht; rewrite Ht, policy_type_roundtrip.
  - destruct t; try done; [by apply (ask_contains r id l)|].
    by eapply mbind_ok_intro; [by apply (ask_contains r id l)|].
  - cbv zeta. subst m. destruct lane; by apply can_simple_child_eval.
Qed.

Lemma can_decides_witness :
  can 3 11 Send sample_registry = (Ok (policy_eval 2 sample_registry 3 11 Send), sample_registry)
  /\ policy_eval 2 sample_registry 3 11 Send = true
  /\ policy_eval 2 sample_registry 3 13 Send = false.
Proof.
  split; [|vm_compute; split; reflexivity].
  apply (can_decides sample_registry 3 11 Send 0), policy_reachable_inv, sample_reachable.
Defined.

(** A member batch is applied exactly when the caller is the admin of a
    whitelist or blacklist policy and the batch is non-empty, at most 64 long,
    free of duplicates and of the zero address, and changes the membership of
    every account in it; then exactly those accounts change, no other policy is
    touched, and otherwise nothing at all changes. *)
Theorem member_batch_spec r id caller accounts add :
  reg_inv r -> member_room r ->
  match mutate_members id caller accounts add r with
  | (Ok _, r') =>
      batch_ok r id caller accounts add /\ same_policies r r' id /\
      forall a, is_mem r' id a = if add then is_mem r id a || bool_decide (a ∈ accounts)
                                 else is_mem r id a && negb (bool_decide (a ∈ accounts))
  | (_, r') => ~ batch_ok r id caller accounts add /\ r' = r
  end.
Proof.
  intros Hinv Hroom. destruct (mutate_members id caller accounts add r) as [res r'] eqn:Hrun.
  assert (Hno : batch_ok r id caller accounts add -> exists u, res = Ok u).
  { intros Hb. destruct (batch_ok_run _ _ _ _ _ Hinv Hroom Hb) as (r1 & Hr1 & _).
    rewrite Hr1 in Hrun. minv. eauto. }
  assert (Hat : atomic (mutate_members id caller accounts add)) by (unfold mutate_members; solve_atomic).
  specialize (Hat r). rewrite Hrun in Hat. simpl in Hat.
  destruct res as [u|e|]; [|split; [naive_solver|destruct Hat as [[? ?]|?]; done]..].
  pose proof (run_batch_ok _ _ _ _ _ _ _ Hinv Hrun) as Hb.
  destruct (batch_ok_run _ _ _ _ _ Hinv Hroom Hb) as (r1 & Hr1 & _ & Hsame & Hmem).
  rewrite Hr1 in Hrun. by minv.
Qed.

Lemma member_batch_spec_witness :
  match mutate_members 2 7 [12; 13] true sample_registry with
  | (Ok _, r') =>
      batch_ok sample_registry 2 7 [12; 13] true /\ same_policies sample_registry r' 2 /\
      forall a, is_mem r' 2 a = is_mem sample_registry 2 a || bool_decide (a ∈ [12; 13])
  | (_, r') => ~ batch_ok sample_registry 2 7 [12; 13] true /\ r' = sample_registry
  end.
Proof.
  apply (member_batch_spec sample_registry 2 7 [12; 13] true).
  - apply policy_reachable_inv, sample_reachable.
  - apply member_room_intro. vm_compute. reflexivity.
Defined.

(** Authority over an existing policy: a successful call never changes its
    type or its children, it replaces the admin only by a caller that was the
    pending admin, changes the pending admin only on behalf of the admin or by
    such an acceptance, and changes a membership only on behalf of the admin. *)
Theorem policy_authority r caller value call res r' id d :
  reg_inv r -> member_room r -> caller <> ZERO_ADDRESS ->
  policy_dispatch caller value call r = (Ok res, r') -> policies r !! id = Some d ->
  exists d', policies r' !! id = Some d' /\ same_rules d d' /\
    (admin d' <> admin d -> caller = pending_admin d /\ admin d' = caller) /\
    (pending_admin d' <> pending_admin d -> caller = admin d \/ caller = pending_admin d) /\
    ((exists a, is_mem r' id a <> is_mem r id a) -> caller = admin d).
Proof.
  intros Hinv Hroom Hc Hrun Hd.
  destruct (policy_dispatch_ok _ _ _ _ _ _ Hinv Hroom Hc Hrun) as [_ Heff].
  assert (Hsets : forall r0, member_sets r0 = member_sets r ->
    ~ exists a, is_mem r0 id a <> is_mem r id a).
  { intros r0 H0 [a Ha]. apply Ha. unfold is_mem, member_set_of. by rewrite H0. }
  destruct Heff as [|r' t adm x y z Hnone Hp Hm|r' id' d0 d' Hd0 Hp Hm Hsame Hauth
                   |r' id' accounts add ((d0 & t & Hd0 & _ & _ & Hadm) & _) (Hp & _ & Ho)].
  - exists d. split_and!; [done|done|done|done|]. intros [a Ha]. done.
  - exists d. rewrite Hp, lookup_insert_ne by congruence.
    split_and!; [done|done|done|done|]. intros Ha. by destruct (Hsets _ Hm).
  - rewrite Hp. destruct (decide (id' = id)) as [->|Hne].
    + simplify_eq. exists d'. rewrite lookup_insert_eq. split_and!; [done|done| | |].
      * naive_solver.
      * naive_solver.
      * intros Ha. by destruct (Hsets _ Hm).
    + exists d. rewrite lookup_insert_ne by done. split_and!; [done|done|done|done|].
      intros Ha. by destruct (Hsets _ Hm).
  - exists d. rewrite Hp. split_and!; [done|done|done|done|]. intros [a Ha].
    destruct (decide (id' = id)) as [->|Hne]; [by simplify_eq|].
    destruct Ha. unfold is_mem. by rewrite Ho by congruence.
Qed.

Lemma policy_authority_witness :
  exists d', policies (snd (policy_dispatch 7 0 (beginPolicyAdminTransfer 2 9) sample_registry)) !! 2
      = Some d' /\ pending_admin d' = 9 /\ admin d' = 7.
Proof.
  destruct (policy_authority sample_registry 7 0 (beginPolicyAdminTransfer 2 9) RVoid
    (snd (policy_dispatch 7 0 (beginPolicyAdminTransfer 2 9) sample_registry)) 2
    (MkPolicyDescriptor 2 true 2 7 0 0 0 0)) as (d' & Hd' & _).
  - apply policy_reachable_inv, sample_reachable.
  - apply member_room_intro. vm_compute. reflexivity.
  - discriminate.
  - vm_compute. reflexivity.
  - vm_compute. reflexivity.
  - exists d'. split; [exact Hd'|]. vm_compute in Hd'. injection Hd' as <-. split; reflexivity.
Defined.

Lemma ask_len r id l :
  set_rep (member_set_of r id) l ->
  ask_member_set id set_len r = (Ok (Z.of_nat (length l)), r).
Proof. intros Hl. unfold ask_member_set, reads. by rewrite (set_len_ok _ l). Qed.

Lemma ask_at r id l i v :
  set_rep (member_set_of r id) l -> l !! i = Some v ->
  ask_member_set id (set_at (Z.of_nat i)) r = (Ok (Some v), r).
Proof.
  intros Hl Hi. pose proof (lookup_lt_Some _ _ _ Hi). unfold ask_member_set, reads, set_at.
  rewrite (mbind_ok_intro _ _ _ _ _ _ (set_len_ok _ l Hl) eq_refl).
  destruct (Z.leb_spec (Z.of_nat (length l)) (Z.of_nat i)); [lia|].
  unfold mbind, gets. simpl. destruct Hl as (_ & _ & _ & Hd & _).
  by rewrite Hd, (word_at_lookup _ _ _ Hi).
Qed.

Lemma window_eq (l : list Z) (start n : Z) :
  0 <= start -> start + n <= Z.of_nat (length l) ->
  word_at l <$> seqZ start n = take (Z.to_nat n) (drop (Z.to_nat start) l).
Proof.
  intros Hs Hn. apply list_eq. intros i. rewrite list_lookup_fmap.
  destruct (decide (i < Z.to_nat n)%nat) as [Hi|Hi].
  - rewrite lookup_seqZ_lt by lia. rewrite lookup_take_lt, lookup_drop by done.
    destruct (lookup_lt_is_Some_2 l (Z.to_nat start + i)) as [v Hv]; [lia|].
    rewrite Hv. cbn. replace (start + Z.of_nat i) with (Z.of_nat (Z.to_nat start + i)) by lia.
    by rewrite (word_at_lookup _ _ _ Hv).
  - rewrite lookup_seqZ_ge by lia. by rewrite lookup_take_ge by lia.
Qed.

(** Paging: the members of a whitelist or blacklist policy form one
    duplicate-free list, and every page request with a limit of 1 to 100
    returns exactly the corresponding window of it, so walking the offsets
    enumerates every member once. *)
Theorem list_policy_members_window r id d t :
  reg_inv r -> policies r !! id = Some d -> type_of d t -> is_simple t = true ->
  exists l, NoDup l /\ (forall a, a ∈ l <-> is_mem r id a = true) /\
    forall offset limit, 0 <= offset -> 1 <= limit <= STABLECOIN_LIST_PAGE_CAP ->
      list_policy_members id offset limit r =
        (Ok (take (Z.to_nat limit) (drop (Z.to_nat offset) l)), r).
Proof.
  intros Hinv Hd Ht Hsim. destruct (inv_members r Hinv id) as (l & Hl & _).
  exists l. split_and!; [apply Hl|intros a; by rewrite (is_mem_rep r id l), bool_decide_eq_true|].
  intros offset limit Hoff Hlim. unfold list_policy_members, get_policy_type.
  unfold STABLECOIN_LIST_PAGE_CAP in *.
  destruct (Z.eqb_spec limit 0), (Z.ltb_spec 100 limit); try lia. simpl.
  destruct (descriptor_run r id d Hinv Hd) as [Hdesc _].
  eapply mbind_ok_intro.
  { eapply mbind_ok_intro; [exact Hdesc|]. unfold lift, descriptor_type, type_of in *.
    by rewrite Ht, policy_type_roundtrip. }
  unfold require_enumerable. rewrite Hsim. eapply mbind_ok_intro; [reflexivity|].
  eapply mbind_ok_intro; [by apply ask_len|].
  destruct (Z.leb_spec (Z.of_nat (length l)) offset) as [Hge|Hlt].
  { rewrite drop_ge by lia. by rewrite take_nil. }
  pose proof Hl as (_ & _ & Hmax & _).
  eapply mbind_ok_intro; [unfold lift; by rewrite to_u32_ok by lia|].
  eapply mbind_ok_intro; [unfold lift; by rewrite to_u32_ok by (unfold u32_max; lia)|].
  set (last := Z.min _ _). cbv zeta.
  assert (Hlast : last = Z.min (offset + limit) (Z.of_nat (length l))).
  { unfold last, saturating_add. destruct (Z.leb_spec (offset + limit) u32_max); lia. }
  rewrite (mmap_pure _ _ (word_at l)).
  - rewrite window_eq by lia. rewrite Hlast. do 2 f_equal.
    destruct (Z.le_ge_cases (offset + limit) (Z.of_nat (length l))).
    + do 2 f_equal. lia.
    + rewrite !take_ge; [done|rewrite length_drop; lia..].
  - intros x Hx. apply elem_of_seqZ in Hx.
    destruct (lookup_lt_is_Some_2 l (Z.to_nat x)) as [v Hv]; [lia|].
    replace x with (Z.of_nat (Z.to_nat x)) by lia.
    eapply mbind_ok_intro; [by apply (ask_at r id l)|].
    by rewrite (word_at_lookup _ _ _ Hv).
Qed.

Lemma list_policy_members_window_witness :
  exists l, NoDup l /\ (forall a, a ∈ l <-> is_mem sample_registry 2 a = true) /\
    forall offset limit, 0 <= offset -> 1 <= limit <= STABLECOIN_LIST_PAGE_CAP ->
      list_policy_members 2 offset limit sample_registry =
        (Ok (take (Z.to_nat limit) (drop (Z.to_nat offset) l)), sample_registry).
Proof.
  apply (list_policy_members_window sample_registry 2 (MkPolicyDescriptor 2 true 2 7 0 0 0 0) Whitelist).
  - apply policy_reachable_inv, sample_reachable.
  - vm_compute. reflexivity.
  - vm_compute. reflexivity.
  - reflexivity.
Defined.
