(* ===== verification/Stablecoin.v ===== *)
(** The stablecoin ledger ([crates/core/stablecoin]): roles, supply cap, policy
    checks, frozen amounts, allowances with EIP-2612 permits, memo variants,
    Factory initialization and the dispatch over decoded calls ([schema.rs],
    [state.rs], [errors.rs], [precompile.rs]), with the identity rules of
    [crates/blockchain/primitives/src/stablecoin.rs] that initialization checks.

    [Token] is the per-token storage. The policy registry is used through the
    class [PolicyApi] ([crates/core/stablecoinpolicy/src/api.rs]); keccak256 and
    ECDSA recovery (crates [alloy_primitives] and [k256]) are the operations of
    the class [Crypto]. Strings are UTF-8 byte lists. *)

From S2P Require Import Prelude Bytes Containers Policy.

(** * External operations *)

(** What a ledger asks of the policy registry. *)
Class PolicyApi (R : Type) := {
  api_policy_exists : R -> Z -> result bool;
  api_can_send : R -> Z -> Address -> result bool;
  api_can_receive : R -> Z -> Address -> result bool;
  api_can_mint : R -> Z -> Address -> result bool;
}.

(** The registry's own functions behind that interface. *)
#[global] Instance PolicyApi_registry : PolicyApi PolicyRegistry := {
  api_policy_exists r id := fst (policy_exists id r);
  api_can_send r id a := fst (can id a Send r);
  api_can_receive r id a := fst (can id a Receive r);
  api_can_mint r id a := fst (can id a Mint r);
}.

(** [keccak256]; [EcdsaSignature::from_slice] succeeds; [normalize_s] returns
    [Some]; [recover_from_prehash] with the uncompressed encoding of the key. *)
Class Crypto := {
  #[global] crypto_keccak :: Keccak;
  signature_valid : B256 -> B256 -> bool;
  signature_high_s : B256 -> B256 -> bool;
  recover_key : B256 -> B256 -> B256 -> Z -> option (list Z);
}.

(** The ABI encoding of static values. *)
Definition abi_encode (words : list Z) : list Z := concat (be_bytes 32 <$> words).

(** * Data *)

Definition ADMIN_ROLE : B256 :=
  0xdf8b4c520ffe197c5343c6f5aec59570151ef9a492f2c624fd45ddde6135ec42.
Definition ISSUER_ROLE : B256 :=
  0x76afa8a5929fef1b4c03674b2152ae5aaad1d974b8a4021c59477bcc846ccc1e.
Definition CAP_MANAGER_ROLE : B256 :=
  0xea85ad40095d48558c82add51498fcc17c0bbd84883ea60f8230c6b6b494ea40.
Definition GUARDIAN_ROLE : B256 :=
  0x8b5b16d04624687fcf0d0228f19993c9157c1ed07b41d8d430fd9100eb099fe8.
Definition COMPLIANCE_ROLE : B256 :=
  0xa67a057d728d16e162a15912cbf6e8d4fcd69e5b7b0d1f849a0a10ca6e14741c.
Definition ENFORCER_ROLE : B256 :=
  0x98151564cba5aa82ec81644cc0eefc457cbd612a3d0184596373eb688d514497.
Definition OPERATIONAL_ROLES : list B256 :=
  [ISSUER_ROLE; CAP_MANAGER_ROLE; GUARDIAN_ROLE; COMPLIANCE_ROLE; ENFORCER_ROLE].

Definition EIP712_DOMAIN_TYPEHASH : B256 :=
  0x8b73c3c69bb8fe3d512ecc4cf759cc79239f7b179b0ffacaa9a75d522b39400f.
Definition EIP712_VERSION_HASH : B256 :=
  0xc89efdaa54c0f20c7adf612882df0950f5a951637e0307cdcb4c672f298b8bc6.
Definition PERMIT_TYPEHASH : B256 :=
  0x6e71edae12b1b97f4d1f60370fef10105fa2faae0126114a169c64845d6126c9.
Definition STABLECOIN_V1_SCHEMA_VERSION : Z := 1.
Definition ROOT_SLOT_COUNT : Z := 19.

Inductive TokenEvent : Type :=
  | Transfer (from to : Address) (value : Z)
  | Approval (owner spender : Address) (value : Z)
  | ForcedTransfer (from to : Address) (amount : Z)
  | TransferWithMemo (from to : Address) (amount : Z) (memo : B256)
  | Frozen (account : Address) (amount : Z)
  | RoleGranted (role : B256) (account actor : Address)
  | RoleRevoked (role : B256) (account actor : Address)
  | AdminTransferStarted (current pending : Address)
  | AdminTransferCancelled (adm cancelled : Address)
  | AdminTransferred (previous new : Address)
  | Paused (actor : Address)
  | Unpaused (actor : Address)
  | SupplyCapChanged (previous new : Z) (actor : Address)
  | PolicyChanged (previous new : Z) (actor : Address).

Record Token : Type := MkToken {
  schema_version : Z;
  creation_protocol_version : Z;
  token_id : B256;
  tok_name : list Z;
  tok_symbol : list Z;
  currency : Z;
  decimals : Z;
  issuer : Address;
  supply_cap : Z;
  total_supply : Z;
  tok_policy_id : Z;
  paused : bool;
  tok_admin : Address;
  tok_pending_admin : Address;
  balances : gmap Address Z;
  allowances : gmap B256 Z;
  nonces : gmap Address Z;
  roles : gmap B256 bool;
  frozen : gmap Address Z;
  tok_events : list TokenEvent;
}.
#[global] Instance Eta_Token : Eta Token := fun t =>
  MkToken (schema_version t) (creation_protocol_version t) (token_id t) (tok_name t)
    (tok_symbol t) (currency t) (decimals t) (issuer t) (supply_cap t) (total_supply t)
    (tok_policy_id t) (paused t) (tok_admin t) (tok_pending_admin t) (balances t)
    (allowances t) (nonces t) (roles t) (frozen t) (tok_events t).

Definition empty_token : Token :=
  MkToken 0 0 0 [] [] 0 0 0 0 0 0 false 0 0 ∅ ∅ ∅ ∅ ∅ [].

(** The chain values a call sees and the address it runs at. *)
Record TokenEnv : Type := MkTokenEnv {
  env_chain_id : Z;
  env_timestamp : Z;
  env_self : Address;
}.

Record StablecoinCreatePayload : Type := MkPayload {
  pl_issuer : Address;
  pl_name : list Z;
  pl_ticker : list Z;
  pl_iso4217 : Z;
  pl_decimals : Z;
  pl_supply_cap : Z;
  pl_policy_id : Z;
}.

Record FactoryTokenInitialization : Type := MkInitialization {
  init_token_address : Address;
  init_token_id : B256;
  init_creation_protocol_version : Z;
  init_payload : StablecoinCreatePayload;
}.

Record TokenIdentity : Type := MkTokenIdentity {
  ti_token_id : B256; ti_name : list Z; ti_symbol : list Z; ti_currency : Z;
  ti_decimals : Z; ti_issuer : Address; ti_creation_protocol_version : Z;
}.

(** ** Errors *)

Definition UnexpectedValue (v : Z) := RevertBytes "UnexpectedValue" [v].
Definition Uninitialized := Revert "stablecoin token is not initialized".
Definition AlreadyInitialized := Fatal "stablecoin token is already initialized".
Definition InvalidInitializationIdentity := Revert "invalid stablecoin initialization identity".
Definition UnknownInitializationPolicy := Revert "unknown stablecoin initialization policy".
Definition MigrationRequired (stored active : Z) :=
  RevertBytes "MigrationRequired" [stored; active].
Definition NonPristineRoot := Fatal "stablecoin initialization found non-pristine root slot".
Definition InvalidAddress (a : Address) := RevertBytes "InvalidAddress" [a].
Definition InvalidAmount := RevertBytes "InvalidAmount" [].
Definition InsufficientBalance (a : Address) (available required : Z) :=
  RevertBytes "InsufficientBalance" [a; available; required].
Definition InsufficientAllowance (o s : Address) (available required : Z) :=
  RevertBytes "InsufficientAllowance" [o; s; available; required].
Definition SupplyCapExceeded (cap requested : Z) :=
  RevertBytes "SupplyCapExceeded" [cap; requested].
Definition Unauthorized (role : B256) (c : Address) := RevertBytes "Unauthorized" [role; c].
Definition UnsupportedRole (role : B256) := RevertBytes "UnsupportedRole" [role].
Definition TokenPaused := RevertBytes "TokenPaused" [].
Definition TokenNotPaused := RevertBytes "TokenNotPaused" [].
Definition SupplyCapBelowSupply (requested supply : Z) :=
  RevertBytes "SupplyCapBelowSupply" [requested; supply].
Definition InvalidPendingAdmin (c : Address) := RevertBytes "InvalidPendingAdmin" [c].
Definition NotPendingAdmin (c : Address) := RevertBytes "NotPendingAdmin" [c].
Definition TokenUnknownPolicy (id : Z) := RevertBytes "UnknownPolicy" [id].
Definition ERC7943CannotSend (a : Address) := RevertBytes "ERC7943CannotSend" [a].
Definition ERC7943CannotReceive (a : Address) := RevertBytes "ERC7943CannotReceive" [a].
Definition ERC7943InsufficientUnfrozenBalance (a : Address) (amount unfrozen : Z) :=
  RevertBytes "ERC7943InsufficientUnfrozenBalance" [a; amount; unfrozen].
Definition FrozenAllowanceIncrease (o : Address) (current requested : Z) :=
  RevertBytes "FrozenAllowanceIncrease" [o; current; requested].
Definition ForcedSelfTransfer := RevertBytes "ForcedSelfTransfer" [].
Definition PermitExpired (deadline : Z) := RevertBytes "PermitExpired" [deadline].
Definition InvalidPermitSignature := RevertBytes "InvalidPermitSignature" [].

(** ** Payload rules *)

(** The pinned ISO 4217 numeric codes; [binary_search] on the sorted table is
    membership. *)
Definition ISO_4217_NUMERIC_CODES : list Z :=
  [8; 12; 32; 36; 44; 48; 50; 51; 52; 60; 64; 68; 72; 84; 90; 96; 104; 108; 116; 124; 132; 136;
   144; 152; 156; 170; 174; 188; 192; 203; 208; 214; 222; 230; 232; 238; 242; 262; 270; 292; 320;
   324; 328; 332; 340; 344; 348; 352; 356; 360; 364; 368; 376; 388; 392; 396; 398; 400; 404; 408;
   410; 414; 417; 418; 422; 426; 430; 434; 446; 454; 458; 462; 480; 484; 496; 498; 504; 512; 516;
   524; 532; 533; 548; 554; 558; 566; 578; 586; 590; 598; 600; 604; 608; 634; 643; 646; 654; 682;
   690; 702; 704; 706; 710; 728; 748; 752; 756; 760; 764; 776; 780; 784; 788; 800; 807; 818; 826;
   834; 840; 858; 860; 882; 886; 901; 924; 925; 926; 927; 928; 929; 930; 933; 934; 936; 938; 940;
   941; 943; 944; 946; 947; 948; 949; 950; 951; 952; 953; 955; 956; 957; 958; 959; 960; 961; 962;
   963; 964; 965; 967; 968; 969; 970; 971; 972; 973; 976; 977; 978; 979; 980; 981; 984; 985; 986;
   990; 994; 997; 999].
Definition is_supported_iso4217 (code : Z) : bool :=
  existsb (Z.eqb code) ISO_4217_NUMERIC_CODES.

Definition between (lo hi b : Z) : bool := (lo <=? b) && (b <=? hi).
Definition is_ascii_uppercase (b : Z) : bool := between 65 90 b.
Definition is_ascii_digit (b : Z) : bool := between 48 57 b.

Definition validate_ticker (ticker : list Z) : bool :=
  let n := Z.of_nat (length ticker) in
  between 2 12 n
  && match ticker with b :: _ => is_ascii_uppercase b | [] => false end
  && forallb (fun b => is_ascii_uppercase b || is_ascii_digit b) (drop 1 ticker).

(** [chars().any(char::is_control)] on UTF-8 bytes: U+0000 to U+001F and
    U+007F to U+009F, the latter encoded as [C2 80] to [C2 9F]. *)
Fixpoint has_control (bytes : list Z) : bool :=
  match bytes with
  | [] => false
  | b :: rest =>
      between 0 31 b || (b =? 127)
      || ((b =? 194) && match rest with c :: _ => between 128 159 c | [] => false end)
      || has_control rest
  end.

Definition validate_payload (p : StablecoinCreatePayload) : bool :=
  negb (pl_issuer p =? ZERO_ADDRESS)
  && negb ((length (pl_name p) =? 0)%nat || (64 <? length (pl_name p))%nat
           || has_control (pl_name p))
  && validate_ticker (pl_ticker p)
  && is_supported_iso4217 (pl_iso4217 p)
  && (pl_decimals p <=? 18)
  && negb (pl_supply_cap p =? 0).

(** [String::from_utf8]: well-formed UTF-8 (Unicode table 3-7). *)
Fixpoint utf8_valid (bytes : list Z) : bool :=
  match bytes with
  | [] => true
  | b0 :: r0 =>
      if between 0 127 b0 then utf8_valid r0
      else match r0 with
      | [] => false
      | b1 :: r1 =>
          if between 194 223 b0 then between 128 191 b1 && utf8_valid r1
          else match r1 with
          | [] => false
          | b2 :: r2 =>
              if between 224 239 b0 then
                between (if b0 =? 224 then 160 else 128) (if b0 =? 237 then 159 else 191) b1
                && between 128 191 b2 && utf8_valid r2
              else match r2 with
              | [] => false
              | b3 :: r3 =>
                  between 240 244 b0
                  && between (if b0 =? 240 then 144 else 128) (if b0 =? 244 then 143 else 191) b1
                  && between 128 191 b2 && between 128 191 b3 && utf8_valid r3
              end
          end
      end
  end.

(** * Operations *)

Section Stablecoin.
Context {R : Type} {API : PolicyApi R} {CR : Crypto}.

Abbreviation TM := (M Token).

(** ** Identity *)

Definition STABLECOIN_FACTORY_ADDRESS : Address := 0xee0f.
Definition STABLECOIN_ADDRESS_PREFIX : Z := 0x53c0.
(** The bytes of [OUTBE_STABLECOIN_V1]. *)
Definition STABLECOIN_TOKEN_ID_DOMAIN : list Z :=
  [79; 85; 84; 66; 69; 95; 83; 84; 65; 66; 76; 69; 67; 79; 73; 78; 95; 86; 49].

Definition stablecoin_token_id_preimage (chain_id : Z) (factory iss : Address) (ticker : list Z)
    : option (list Z) :=
  if factory =? ZERO_ADDRESS then None
  else if iss =? ZERO_ADDRESS then None
  else if negb (validate_ticker ticker) then None
  else Some (STABLECOIN_TOKEN_ID_DOMAIN ++ be_bytes 8 chain_id ++ be_bytes 20 factory
             ++ be_bytes 20 iss ++ [Z.of_nat (length ticker)] ++ ticker).

Definition stablecoin_token_id (chain_id : Z) (factory iss : Address) (ticker : list Z)
    : option B256 :=
  match stablecoin_token_id_preimage chain_id factory iss ticker with
  | Some p => Some (keccak256 p)
  | None => None
  end.

Definition stablecoin_address (id : B256) (prefix : Z) : Address :=
  prefix * 2 ^ 144 + id mod 2 ^ 144.

Definition allowance_key (owner spender : Address) : B256 :=
  keccak256 (be_bytes 20 owner ++ be_bytes 20 spender).
Definition role_key (role : B256) (account : Address) : B256 :=
  keccak256 (be_bytes 32 role ++ be_bytes 20 account).

(** ** Checks *)

Definition tok_emit (e : TokenEvent) : TM unit :=
  modify (fun t => t <| tok_events := tok_events t ++ [e] |>).

Definition write_balance (a : Address) (v : Z) : TM unit :=
  modify (fun t => t <| balances := (balances t).[a <- v] |>).
Definition write_allowance (k : B256) (v : Z) : TM unit :=
  modify (fun t => t <| allowances := (allowances t).[k <- v] |>).
Definition write_role (k : B256) (b : bool) : TM unit :=
  modify (fun t => t <| roles := (roles t).[k <- b] |>).
Definition write_frozen (a : Address) (v : Z) : TM unit :=
  modify (fun t => t <| frozen := (frozen t).[a <- v] |>).

Definition validated_schema_version : TM Z :=
  let! stored := gets schema_version in
  if stored =? 0 then mfail Uninitialized
  else if stored =? STABLECOIN_V1_SCHEMA_VERSION then mret stored
  else mfail (MigrationRequired stored STABLECOIN_V1_SCHEMA_VERSION).

Definition require_nonzero (a : Address) : TM unit :=
  require (negb (a =? ZERO_ADDRESS)) (InvalidAddress a).
Definition require_nonzero_amount (amount : Z) : TM unit :=
  require (negb (amount =? 0)) InvalidAmount.
Definition require_not_paused : TM unit :=
  let! p := gets paused in require (negb p) TokenPaused.

Definition is_operational (role : B256) : bool := existsb (Z.eqb role) OPERATIONAL_ROLES.

Definition has_role (role : B256) (account : Address) : TM bool :=
  validated_schema_version ;;;
  if negb (role =? ADMIN_ROLE) && negb (is_operational role) then mret false
  else
    let! member := gets (fun t => (roles t).[role_key role account]) in
    (if role =? ADMIN_ROLE then
       let! adm := gets tok_admin in
       require (Bool.eqb member (account =? adm))
         (Fatal "stablecoin ADMIN slot/role membership mismatch")
     else mret tt) ;;;
    mret member.

Definition require_role (role : B256) (caller : Address) : TM unit :=
  let! b := has_role role caller in require b (Unauthorized role caller).

Definition require_operational_role (role : B256) : TM unit :=
  require (is_operational role) (UnsupportedRole role).

Definition unfrozen (balance frozen : Z) : Z := saturating_sub balance frozen.

Definition require_can_send (reg : R) (account : Address) : TM unit :=
  let! id := gets tok_policy_id in
  let! b := lift (api_can_send reg id account) in
  require b (ERC7943CannotSend account).
Definition require_can_receive (reg : R) (account : Address) : TM unit :=
  let! id := gets tok_policy_id in
  let! b := lift (api_can_receive reg id account) in
  require b (ERC7943CannotReceive account).
Definition require_can_mint (reg : R) (account : Address) : TM unit :=
  let! id := gets tok_policy_id in
  let! b := lift (api_can_mint reg id account) in
  require b (ERC7943CannotReceive account).

Definition require_unfrozen (account : Address) (balance amount : Z) : TM unit :=
  let! f := gets (fun t => (frozen t).[account]) in
  let available := unfrozen balance f in
  require (amount <=? available) (ERC7943InsufficientUnfrozenBalance account amount available).

Definition consume_frozen (account : Address) (balance frozen amount : Z) : TM unit :=
  let available := unfrozen balance frozen in
  let consumed := if available <? amount then amount - available else 0 in
  if consumed =? 0 then mret tt
  else
    let! next := lift (ok_or (checked_sub frozen consumed)
                         (Fatal "stablecoin frozen-balance invariant is corrupted")) in
    write_frozen account next ;;;
    tok_emit (Frozen account next).

Definition require_balance (a : Address) (amount : Z) : TM Z :=
  let! balance := gets (fun t => (balances t).[a]) in
  require (amount <=? balance) (InsufficientBalance a balance amount) ;;;
  mret balance.

Definition require_allowance (owner spender : Address) (amount : Z) : TM Z :=
  let! allowance := gets (fun t => (allowances t).[allowance_key owner spender]) in
  require (amount <=? allowance) (InsufficientAllowance owner spender allowance amount) ;;;
  mret allowance.

(** ** Views *)

Definition read_utf8 (f : Token -> list Z) (msg : string) : TM (list Z) :=
  let! bytes := gets f in require (utf8_valid bytes) (Fatal msg) ;;; mret bytes.

Definition name_value : TM (list Z) :=
  validated_schema_version ;;; read_utf8 tok_name "stablecoin name storage is not UTF-8".
Definition symbol_value : TM (list Z) :=
  validated_schema_version ;;; read_utf8 tok_symbol "stablecoin symbol storage is not UTF-8".

Definition identity : TM TokenIdentity :=
  validated_schema_version ;;;
  let! n := read_utf8 tok_name "stablecoin name storage is not UTF-8" in
  let! s := read_utf8 tok_symbol "stablecoin symbol storage is not UTF-8" in
  gets (fun t => MkTokenIdentity (token_id t) n s (currency t) (decimals t) (issuer t)
                   (creation_protocol_version t)).

(** The views that return one stored value of an initialized token. *)
Definition read_validated {A} (f : Token -> A) : TM A := validated_schema_version ;;; gets f.

Definition balance_of (a : Address) : TM Z := read_validated (fun t => (balances t).[a]).
Definition allowance_of (owner spender : Address) : TM Z :=
  read_validated (fun t => (allowances t).[allowance_key owner spender]).
Definition frozen_tokens (a : Address) : TM Z := read_validated (fun t => (frozen t).[a]).

Definition domain_separator (env : TokenEnv) : TM B256 :=
  validated_schema_version ;;;
  let! n := gets tok_name in
  mret (keccak256 (abi_encode [EIP712_DOMAIN_TYPEHASH; keccak256 n; EIP712_VERSION_HASH;
                               env_chain_id env; env_self env])).

Definition token_can_send (reg : R) (a : Address) : TM bool :=
  validated_schema_version ;;;
  let! p := gets paused in
  if p || (a =? ZERO_ADDRESS) then mret false
  else let! id := gets tok_policy_id in lift (api_can_send reg id a).
Definition token_can_receive (reg : R) (a : Address) : TM bool :=
  validated_schema_version ;;;
  let! p := gets paused in
  if p || (a =? ZERO_ADDRESS) then mret false
  else let! id := gets tok_policy_id in lift (api_can_receive reg id a).

Definition can_transfer (reg : R) (from to : Address) (value : Z) : TM bool :=
  validated_schema_version ;;;
  let! p := gets paused in
  if p || (from =? ZERO_ADDRESS) || (to =? ZERO_ADDRESS) then mret false
  else
    let! id := gets tok_policy_id in
    let! s := lift (api_can_send reg id from) in
    if negb s then mret false
    else
      let! r := lift (api_can_receive reg id to) in
      if negb r then mret false
      else
        let! balance := gets (fun t => (balances t).[from]) in
        let! f := gets (fun t => (frozen t).[from]) in
        mret ((f =? 0) || (value <=? unfrozen balance f)).

(** ** Administration *)

Definition grant_role (actor : Address) (role : B256) (account : Address) : TM unit :=
  require_role ADMIN_ROLE actor ;;;
  require_operational_role role ;;;
  require_nonzero account ;;;
  let key := role_key role account in
  let! member := gets (fun t => (roles t).[key]) in
  if member then mret tt
  else with_checkpoint (write_role key true ;;; tok_emit (RoleGranted role account actor)).

Definition revoke_role (actor : Address) (role : B256) (account : Address) : TM unit :=
  require_role ADMIN_ROLE actor ;;;
  require_operational_role role ;;;
  require_nonzero account ;;;
  let key := role_key role account in
  let! member := gets (fun t => (roles t).[key]) in
  if negb member then mret tt
  else with_checkpoint (write_role key false ;;; tok_emit (RoleRevoked role account actor)).

Definition begin_admin_transfer (actor candidate : Address) : TM unit :=
  require_role ADMIN_ROLE actor ;;;
  require (negb ((candidate =? ZERO_ADDRESS) || (candidate =? actor)))
    (InvalidPendingAdmin candidate) ;;;
  with_checkpoint (
    modify (fun t => t <| tok_pending_admin := candidate |>) ;;;
    tok_emit (AdminTransferStarted actor candidate)).

Definition cancel_admin_transfer (actor : Address) : TM unit :=
  require_role ADMIN_ROLE actor ;;;
  let! pending := gets tok_pending_admin in
  require (negb (pending =? ZERO_ADDRESS)) (InvalidPendingAdmin ZERO_ADDRESS) ;;;
  with_checkpoint (
    modify (fun t => t <| tok_pending_admin := ZERO_ADDRESS |>) ;;;
    tok_emit (AdminTransferCancelled actor pending)).

Definition accept_admin_transfer (actor : Address) : TM unit :=
  validated_schema_version ;;;
  let! pending := gets tok_pending_admin in
  require (negb ((actor =? ZERO_ADDRESS) || negb (actor =? pending))) (NotPendingAdmin actor) ;;;
  let! previous := gets tok_admin in
  let! previous_role := gets (fun t => (roles t).[role_key ADMIN_ROLE previous]) in
  let! actor_role := gets (fun t => (roles t).[role_key ADMIN_ROLE actor]) in
  require (negb ((previous =? ZERO_ADDRESS) || negb previous_role || actor_role))
    (Fatal "stablecoin admin transfer reached inconsistent role state") ;;;
  with_checkpoint (
    write_role (role_key ADMIN_ROLE previous) false ;;;
    write_role (role_key ADMIN_ROLE actor) true ;;;
    modify (fun t => t <| tok_admin := actor |>) ;;;
    modify (fun t => t <| tok_pending_admin := ZERO_ADDRESS |>) ;;;
    tok_emit (AdminTransferred previous actor)).

Definition pause (actor : Address) : TM unit :=
  require_role GUARDIAN_ROLE actor ;;;
  let! p := gets paused in
  require (negb p) TokenPaused ;;;
  with_checkpoint (modify (fun t => t <| paused := true |>) ;;; tok_emit (Paused actor)).

Definition unpause (actor : Address) : TM unit :=
  require_role ADMIN_ROLE actor ;;;
  let! p := gets paused in
  require p TokenNotPaused ;;;
  with_checkpoint (modify (fun t => t <| paused := false |>) ;;; tok_emit (Unpaused actor)).

Definition set_supply_cap (actor : Address) (new_cap : Z) : TM unit :=
  require_role CAP_MANAGER_ROLE actor ;;;
  let! supply := gets total_supply in
  require (supply <=? new_cap) (SupplyCapBelowSupply new_cap supply) ;;;
  let! previous := gets supply_cap in
  if previous =? new_cap then mret tt
  else with_checkpoint (
    modify (fun t => t <| supply_cap := new_cap |>) ;;;
    tok_emit (SupplyCapChanged previous new_cap actor)).

Definition set_policy_id (reg : R) (actor : Address) (new_policy_id : Z) : TM unit :=
  require_role COMPLIANCE_ROLE actor ;;;
  let! e := lift (api_policy_exists reg new_policy_id) in
  require e (TokenUnknownPolicy new_policy_id) ;;;
  let! previous := gets tok_policy_id in
  if previous =? new_policy_id then mret tt
  else with_checkpoint (
    modify (fun t => t <| tok_policy_id := new_policy_id |>) ;;;
    tok_emit (PolicyChanged previous new_policy_id actor)).

Definition set_frozen_tokens (actor account : Address) (amount : Z) : TM unit :=
  require_role COMPLIANCE_ROLE actor ;;;
  require_nonzero account ;;;
  with_checkpoint (write_frozen account amount ;;; tok_emit (Frozen account amount)).

(** ** Allowances *)

Definition validate_allowance_update (owner spender : Address) (value : Z) : TM unit :=
  let! current := gets (fun t => (allowances t).[allowance_key owner spender]) in
  let! f := gets (fun t => (frozen t).[owner]) in
  require (negb (negb (f =? 0) && (current <? value)))
    (FrozenAllowanceIncrease owner current value).

Definition write_approval (owner spender : Address) (value : Z) : TM unit :=
  write_allowance (allowance_key owner spender) value ;;;
  tok_emit (Approval owner spender value).

Definition approve (owner spender : Address) (value : Z) : TM unit :=
  validated_schema_version ;;;
  require_nonzero owner ;;;
  require_nonzero spender ;;;
  validate_allowance_update owner spender value ;;;
  with_checkpoint (write_approval owner spender value).

Definition recover_permit_signer (digest : B256) (v : Z) (r s : B256) : result Address :=
  let? recovery_id := ok_or (if (v =? 27) || (v =? 28) then Some (v - 27) else None)
                        InvalidPermitSignature in
  let? _ := rrequire (signature_valid r s) InvalidPermitSignature in
  let? _ := rrequire (negb (signature_high_s r s)) InvalidPermitSignature in
  let? key := ok_or (recover_key digest r s recovery_id) InvalidPermitSignature in
  Ok (keccak256 (drop 1 key) mod 2 ^ 160).

Definition permit_digest (separator : B256) (owner spender : Address) (value nonce deadline : Z)
    : B256 :=
  keccak256 ([0x19; 0x01] ++ be_bytes 32 separator
             ++ be_bytes 32 (keccak256 (abi_encode [PERMIT_TYPEHASH; owner; spender; value;
                                                    nonce; deadline]))).

Definition permit (env : TokenEnv) (owner spender : Address) (value deadline v : Z) (r s : B256)
    : TM unit :=
  validated_schema_version ;;;
  require_nonzero owner ;;;
  require_nonzero spender ;;;
  require (env_timestamp env <=? deadline) (PermitExpired deadline) ;;;
  let! nonce := gets (fun t => (nonces t).[owner]) in
  let! separator := domain_separator env in
  let! signer := lift (recover_permit_signer
                         (permit_digest separator owner spender value nonce deadline) v r s) in
  require (signer =? owner) InvalidPermitSignature ;;;
  validate_allowance_update owner spender value ;;;
  let! next_nonce := lift (ok_or (checked_add u256_max nonce 1)
                             (Fatal "stablecoin permit nonce overflow")) in
  with_checkpoint (
    modify (fun t => t <| nonces := (nonces t).[owner <- next_nonce] |>) ;;;
    write_approval owner spender value).

(** ** Movements *)

(** The recipient's balance after a transfer, checked before any write. *)
Definition next_recipient (from to : Address) (from_balance value : Z) (msg : string) : TM Z :=
  if from =? to then mret from_balance
  else
    let! b := gets (fun t => (balances t).[to]) in
    lift (ok_or (checked_add u256_max b value) (Fatal msg)).

Definition move_balance (from to : Address) (from_balance next_to value : Z) : TM unit :=
  if negb (from =? to) then
    write_balance from (wrapping_sub u256_max from_balance value) ;;;
    write_balance to next_to
  else mret tt.

Definition transfer (reg : R) (from to : Address) (value : Z) : TM unit :=
  validated_schema_version ;;;
  require_not_paused ;;;
  require_nonzero from ;;;
  require_nonzero to ;;;
  require_can_send reg from ;;;
  require_can_receive reg to ;;;
  let! from_balance := require_balance from value in
  require_unfrozen from from_balance value ;;;
  let! next_to := next_recipient from to from_balance value
                    "stablecoin recipient balance overflow" in
  with_checkpoint (
    move_balance from to from_balance next_to value ;;;
    tok_emit (Transfer from to value)).

Definition spend_allowance (owner spender : Address) (allowance value : Z) : TM unit :=
  if negb (allowance =? u256_max)
  then write_allowance (allowance_key owner spender) (wrapping_sub u256_max allowance value)
  else mret tt.

Definition transfer_from (reg : R) (spender from to : Address) (value : Z) : TM unit :=
  validated_schema_version ;;;
  require_not_paused ;;;
  require_nonzero spender ;;;
  require_nonzero from ;;;
  require_nonzero to ;;;
  require_can_send reg from ;;;
  require_can_receive reg to ;;;
  let! allowance := require_allowance from spender value in
  let! from_balance := require_balance from value in
  require_unfrozen from from_balance value ;;;
  let! next_to := next_recipient from to from_balance value
                    "stablecoin recipient balance overflow" in
  with_checkpoint (
    spend_allowance from spender allowance value ;;;
    move_balance from to from_balance next_to value ;;;
    tok_emit (Transfer from to value)).

Definition mint_core (to : Address) (amount : Z) : TM unit :=
  validated_schema_version ;;;
  require_nonzero to ;;;
  require_nonzero_amount amount ;;;
  let! supply := gets total_supply in
  let! cap := gets supply_cap in
  require (supply <=? cap) (Fatal "stablecoin total supply exceeds its stored cap") ;;;
  let! requested := lift (ok_or (checked_add u256_max supply amount)
                            (SupplyCapExceeded cap u256_max)) in
  require (requested <=? cap) (SupplyCapExceeded cap requested) ;;;
  let! balance := gets (fun t => (balances t).[to]) in
  let! next := lift (ok_or (checked_add u256_max balance amount)
                       (Fatal "stablecoin balance overflow")) in
  with_checkpoint (
    modify (fun t => t <| total_supply := requested |>) ;;;
    write_balance to next ;;;
    tok_emit (Transfer ZERO_ADDRESS to amount)).

Definition burn_core (from : Address) (amount : Z) : TM unit :=
  validated_schema_version ;;;
  require_nonzero from ;;;
  require_nonzero_amount amount ;;;
  let! balance := require_balance from amount in
  let! supply := gets total_supply in
  let! next := lift (ok_or (checked_sub supply amount)
                       (Fatal "stablecoin supply/balance invariant is corrupted")) in
  with_checkpoint (
    write_balance from (wrapping_sub u256_max balance amount) ;;;
    modify (fun t => t <| total_supply := next |>) ;;;
    tok_emit (Transfer from ZERO_ADDRESS amount)).

Definition mint (reg : R) (actor to : Address) (amount : Z) : TM unit :=
  require_role ISSUER_ROLE actor ;;;
  require_not_paused ;;;
  require_nonzero to ;;;
  require_can_mint reg to ;;;
  mint_core to amount.

Definition burn (actor : Address) (amount : Z) : TM unit :=
  require_role ISSUER_ROLE actor ;;;
  require_not_paused ;;;
  require_nonzero_amount amount ;;;
  let! balance := require_balance actor amount in
  let! f := gets (fun t => (frozen t).[actor]) in
  with_checkpoint (
    consume_frozen actor balance f amount ;;;
    burn_core actor amount).

Definition burn_from (reg : R) (spender from : Address) (amount : Z) : TM unit :=
  validated_schema_version ;;;
  require_not_paused ;;;
  require_nonzero spender ;;;
  require_nonzero from ;;;
  require_nonzero_amount amount ;;;
  require_can_send reg from ;;;
  let! allowance := require_allowance from spender amount in
  let! balance := require_balance from amount in
  require_unfrozen from balance amount ;;;
  with_checkpoint (
    burn_core from amount ;;;
    spend_allowance from spender allowance amount).

Definition forced_transfer (reg : R) (actor from to : Address) (amount : Z) : TM unit :=
  require_role ENFORCER_ROLE actor ;;;
  require_not_paused ;;;
  require_nonzero from ;;;
  require_nonzero to ;;;
  require_nonzero_amount amount ;;;
  require (negb (from =? to)) ForcedSelfTransfer ;;;
  require_can_receive reg to ;;;
  let! from_balance := require_balance from amount in
  let! to_balance := gets (fun t => (balances t).[to]) in
  let! next_to := lift (ok_or (checked_add u256_max to_balance amount)
                          (Fatal "stablecoin forced-transfer recipient overflow")) in
  let! f := gets (fun t => (frozen t).[from]) in
  with_checkpoint (
    consume_frozen from from_balance f amount ;;;
    write_balance from (wrapping_sub u256_max from_balance amount) ;;;
    write_balance to next_to ;;;
    tok_emit (Transfer from to amount) ;;;
    tok_emit (ForcedTransfer from to amount)).

Definition with_memo (from to : Address) (amount : Z) (memo : B256) (operation : TM unit)
    : TM unit :=
  with_checkpoint (operation ;;; tok_emit (TransferWithMemo from to amount memo)).

Definition transfer_with_memo (reg : R) (from to : Address) (amount : Z) (memo : B256) : TM unit :=
  with_memo from to amount memo (transfer reg from to amount).
Definition transfer_from_with_memo (reg : R) (spender from to : Address) (amount : Z) (memo : B256)
    : TM unit :=
  with_memo from to amount memo (transfer_from reg spender from to amount).
Definition mint_with_memo (reg : R) (actor to : Address) (amount : Z) (memo : B256) : TM unit :=
  with_memo ZERO_ADDRESS to amount memo (mint reg actor to amount).
Definition burn_with_memo (actor : Address) (amount : Z) (memo : B256) : TM unit :=
  with_memo actor ZERO_ADDRESS amount memo (burn actor amount).
Definition burn_from_with_memo (reg : R) (spender from : Address) (amount : Z) (memo : B256)
    : TM unit :=
  with_memo from ZERO_ADDRESS amount memo (burn_from reg spender from amount).
Definition forced_transfer_with_memo (reg : R) (actor from to : Address) (amount : Z) (memo : B256)
    : TM unit :=
  with_memo from to amount memo (forced_transfer reg actor from to amount).

(** ** Initialization by the Factory *)

(** Whether a root slot holds zero. Slots 14 to 18 are mapping bases, which
    hold no word themselves. *)
Definition root_slot_zero (t : Token) (slot : Z) : bool :=
  if slot =? 1 then creation_protocol_version t =? 0
  else if slot =? 2 then token_id t =? 0
  else if slot =? 3 then bool_decide (tok_name t = [])
  else if slot =? 4 then bool_decide (tok_symbol t = [])
  else if slot =? 5 then currency t =? 0
  else if slot =? 6 then decimals t =? 0
  else if slot =? 7 then issuer t =? 0
  else if slot =? 8 then supply_cap t =? 0
  else if slot =? 9 then total_supply t =? 0
  else if slot =? 10 then tok_policy_id t =? 0
  else if slot =? 11 then negb (paused t)
  else if slot =? 12 then tok_admin t =? 0
  else if slot =? 13 then tok_pending_admin t =? 0
  else true.

Definition validate_pristine_root : TM unit :=
  mfor (seqZ 1 (ROOT_SLOT_COUNT - 1)) (fun slot =>
    let! z := gets (fun t => root_slot_zero t slot) in require z NonPristineRoot).

Definition validate_initialization (env : TokenEnv) (reg : R) (i : FactoryTokenInitialization)
    : TM unit :=
  require (negb (negb (init_token_address i =? env_self env)
                 || (init_token_address i =? ZERO_ADDRESS) || (init_token_id i =? 0)))
    InvalidInitializationIdentity ;;;
  require (validate_payload (init_payload i)) InvalidInitializationIdentity ;;;
  let! expected_id := lift (ok_or (stablecoin_token_id (env_chain_id env)
                                     STABLECOIN_FACTORY_ADDRESS (pl_issuer (init_payload i))
                                     (pl_ticker (init_payload i)))
                              InvalidInitializationIdentity) in
  let expected_address := stablecoin_address expected_id STABLECOIN_ADDRESS_PREFIX in
  require (negb (negb (expected_id =? init_token_id i)
                 || negb (expected_address =? env_self env))) InvalidInitializationIdentity ;;;
  let! e := lift (api_policy_exists reg (pl_policy_id (init_payload i))) in
  require e UnknownInitializationPolicy.

Definition initialize_from_factory (env : TokenEnv) (reg : R) (i : FactoryTokenInitialization)
    : TM unit :=
  let! stored := gets schema_version in
  if negb (stored =? 0) then
    mfail (if stored =? STABLECOIN_V1_SCHEMA_VERSION then AlreadyInitialized
           else Fatal "stablecoin Factory initialization reached incompatible schema")
  else
    validate_pristine_root ;;;
    validate_initialization env reg i ;;;
    let p := init_payload i in
    with_checkpoint (
      modify (fun t => t <| creation_protocol_version := init_creation_protocol_version i |>) ;;;
      modify (fun t => t <| token_id := init_token_id i |>) ;;;
      modify (fun t => t <| tok_name := pl_name p |>) ;;;
      modify (fun t => t <| tok_symbol := pl_ticker p |>) ;;;
      modify (fun t => t <| currency := pl_iso4217 p |>) ;;;
      modify (fun t => t <| decimals := pl_decimals p |>) ;;;
      modify (fun t => t <| issuer := pl_issuer p |>) ;;;
      modify (fun t => t <| supply_cap := pl_supply_cap p |>) ;;;
      modify (fun t => t <| tok_policy_id := pl_policy_id p |>) ;;;
      modify (fun t => t <| tok_admin := pl_issuer p |>) ;;;
      write_role (role_key ADMIN_ROLE (pl_issuer p)) true ;;;
      mfor OPERATIONAL_ROLES (fun role => write_role (role_key role (pl_issuer p)) true) ;;;
      modify (fun t => t <| schema_version := STABLECOIN_V1_SCHEMA_VERSION |>)).
End Stablecoin.

(** ** Dispatch *)

Inductive TokenCall : Type :=
  | c_name | c_symbol | c_decimals | c_totalSupply
  | c_balanceOf (account : Address)
  | c_allowance (owner spender : Address)
  | c_approve (spender : Address) (value : Z)
  | c_transfer (to : Address) (value : Z)
  | c_transferFrom (from to : Address) (value : Z)
  | c_nonces (owner : Address)
  | c_DOMAIN_SEPARATOR
  | c_permit (owner spender : Address) (value deadline v : Z) (r s : B256)
  | c_currency | c_supplyCap | c_policyId | c_issuer | c_paused
  | c_hasRole (role : B256) (account : Address)
  | c_pendingAdmin | c_creationProtocolVersion
  | c_supportsInterface (interface_id : Z)
  | c_canSend (account : Address)
  | c_canReceive (account : Address)
  | c_canTransfer (from to : Address) (value : Z)
  | c_getFrozenTokens (account : Address)
  | c_forcedTransfer (from to : Address) (value : Z)
  | c_setFrozenTokens (account : Address) (amount : Z)
  | c_mint (to : Address) (amount : Z)
  | c_burn (amount : Z)
  | c_burnFrom (from : Address) (amount : Z)
  | c_transferWithMemo (to : Address) (amount : Z) (memo : B256)
  | c_transferFromWithMemo (from to : Address) (amount : Z) (memo : B256)
  | c_mintWithMemo (to : Address) (amount : Z) (memo : B256)
  | c_burnWithMemo (amount : Z) (memo : B256)
  | c_burnFromWithMemo (from : Address) (amount : Z) (memo : B256)
  | c_forcedTransferWithMemo (from to : Address) (amount : Z) (memo : B256)
  | c_grantRole (role : B256) (account : Address)
  | c_revokeRole (role : B256) (account : Address)
  | c_setSupplyCap (new_cap : Z)
  | c_setPolicyId (new_policy_id : Z)
  | c_pause | c_unpause
  | c_beginAdminTransfer (candidate : Address)
  | c_cancelAdminTransfer | c_acceptAdminTransfer.

Inductive TokenReturn : Type :=
  | TVoid
  | TWord (w : Z)
  | TBool (b : bool)
  | TBytes (l : list Z).

Definition ERC165_INTERFACE_ID : Z := 0x01ffc9a7.
Definition ERC7943_FUNGIBLE_INTERFACE_ID : Z := 0x3edbb4c4.

Definition token_dispatch {R} {API : PolicyApi R} {CR : Crypto} (env : TokenEnv) (reg : R)
    (caller : Address) (value : Z) (call : TokenCall) : M Token TokenReturn :=
  let ok (m : M Token unit) := returns (fun _ => TBool true) m in
  let void (m : M Token unit) := returns (fun _ => TVoid) m in
  if negb (value =? 0) then mfail (UnexpectedValue value)
  else
    match call with
    | c_name => returns TBytes name_value
    | c_symbol => returns TBytes symbol_value
    | c_decimals => returns TWord (read_validated decimals)
    | c_totalSupply => returns TWord (read_validated total_supply)
    | c_balanceOf a => returns TWord (balance_of a)
    | c_allowance o s => returns TWord (allowance_of o s)
    | c_approve s v => ok (approve caller s v)
    | c_transfer to v => ok (transfer reg caller to v)
    | c_transferFrom from to v => ok (transfer_from reg caller from to v)
    | c_nonces o => returns TWord (read_validated (fun t => (nonces t).[o]))
    | c_DOMAIN_SEPARATOR => returns TWord (domain_separator env)
    | c_permit o s v d vv r ss => void (permit env o s v d vv r ss)
    | c_currency => returns TWord (read_validated currency)
    | c_supplyCap => returns TWord (read_validated supply_cap)
    | c_policyId => returns TWord (read_validated tok_policy_id)
    | c_issuer => returns TWord (read_validated issuer)
    | c_paused => returns TBool (read_validated paused)
    | c_hasRole r a => returns TBool (has_role r a)
    | c_pendingAdmin => returns TWord (read_validated tok_pending_admin)
    | c_creationProtocolVersion => returns TWord (read_validated creation_protocol_version)
    | c_supportsInterface i =>
        mret (TBool ((i =? ERC165_INTERFACE_ID) || (i =? ERC7943_FUNGIBLE_INTERFACE_ID)))
    | c_canSend a => returns TBool (token_can_send reg a)
    | c_canReceive a => returns TBool (token_can_receive reg a)
    | c_canTransfer from to v => returns TBool (can_transfer reg from to v)
    | c_getFrozenTokens a => returns TWord (frozen_tokens a)
    | c_forcedTransfer from to v => ok (forced_transfer reg caller from to v)
    | c_setFrozenTokens a v => ok (set_frozen_tokens caller a v)
    | c_mint to v => ok (mint reg caller to v)
    | c_burn v => ok (burn caller v)
    | c_burnFrom from v => ok (burn_from reg caller from v)
    | c_transferWithMemo to v m => ok (transfer_with_memo reg caller to v m)
    | c_transferFromWithMemo from to v m => ok (transfer_from_with_memo reg caller from to v m)
    | c_mintWithMemo to v m => ok (mint_with_memo reg caller to v m)
    | c_burnWithMemo v m => ok (burn_with_memo caller v m)
    | c_burnFromWithMemo from v m => ok (burn_from_with_memo reg caller from v m)
    | c_forcedTransferWithMemo from to v m =>
        ok (forced_transfer_with_memo reg caller from to v m)
    | c_grantRole r a => void (grant_role caller r a)
    | c_revokeRole r a => void (revoke_role caller r a)
    | c_setSupplyCap v => void (set_supply_cap caller v)
    | c_setPolicyId id => void (set_policy_id reg caller id)
    | c_pause => void (pause caller)
    | c_unpause => void (unpause caller)
    | c_beginAdminTransfer c => void (begin_admin_transfer caller c)
    | c_cancelAdminTransfer => void (cancel_admin_transfer caller)
    | c_acceptAdminTransfer => void (accept_admin_transfer caller)
    end.

(** The [uint256] words of a call are in range, as ABI decoding makes them. *)
Definition call_words (call : TokenCall) : list Z :=
  match call with
  | c_approve _ v | c_transfer _ v | c_transferFrom _ _ v | c_canTransfer _ _ v
  | c_forcedTransfer _ _ v | c_setFrozenTokens _ v | c_mint _ v | c_burn v | c_burnFrom _ v
  | c_transferWithMemo _ v _ | c_transferFromWithMemo _ _ v _ | c_mintWithMemo _ v _
  | c_burnWithMemo v _ | c_burnFromWithMemo _ v _ | c_forcedTransferWithMemo _ _ v _
  | c_setSupplyCap v | c_setPolicyId v | c_permit _ _ v _ _ _ _ => [v]
  | _ => []
  end.
Definition call_ok (call : TokenCall) : Prop := Forall (in_range u256_max) (call_words call).

(** * Specification vocabulary *)

(** The ledger invariant. *)
Record token_inv (t : Token) : Prop := MkTokenInv {
  inv_balances : forall a, 0 <= (balances t).[a];
  inv_frozen : forall a, in_range u256_max (frozen t).[a];
  inv_allowances : forall k, in_range u256_max (allowances t).[k];
  inv_supply : total_supply t = map_sum (balances t);
  inv_cap : total_supply t <= supply_cap t;
  inv_cap_range : in_range u256_max (supply_cap t);
}.

(** Ledgers that the Factory initializes and that calls then produce, each call
    with chain values and a policy registry of its own. *)
Inductive token_reachable {R} {API : PolicyApi R} {CR : Crypto} : Token -> Prop :=
  | token_init env reg i t :
      in_range u256_max (pl_supply_cap (init_payload i)) ->
      initialize_from_factory env reg i empty_token = (Ok tt, t) -> token_reachable t
  | token_call env reg caller value call res t t' :
      token_reachable t -> call_ok call ->
      token_dispatch env reg caller value call t = (res, t') -> token_reachable t'.

(** A spender uses up [value] of an allowance unless it is unlimited. *)
Definition spent {CR : Crypto} (t t' : Token) (owner spender : Address) (value : Z) : Prop :=
  value <= (allowances t).[allowance_key owner spender] /\
  forall k, (allowances t').[k] =
    if decide (k = allowance_key owner spender)
    then if decide ((allowances t).[k] = u256_max) then u256_max
         else (allowances t).[k] - value
    else (allowances t).[k].

(** An issuer burn or a forced transfer of [value] first uses the unfrozen
    part and then reduces the frozen amount. *)
Definition frozen_after (t : Token) (a : Address) (value : Z) : Z :=
  (frozen t).[a] - Z.max 0 (value - unfrozen (balances t).[a] (frozen t).[a]).
Definition froze (t t' : Token) (a : Address) (value : Z) : Prop :=
  forall x, (frozen t').[x] = if decide (x = a) then frozen_after t a value else (frozen t).[x].

Definition moved (b : gmap Address Z) (from to : Address) (value : Z) : gmap Address Z :=
  if from =? to then b else (b.[from <- b.[from] - value]).[to <- b.[to] + value].

Definition has {CR : Crypto} (t : Token) (role : B256) (a : Address) : Prop :=
  (roles t).[role_key role a] = true.

(** What a successful call can do to balances, supply, frozen amounts and
    allowances, and on whose authority. *)
Inductive token_effect {CR : Crypto} (t : Token) (caller : Address) (t' : Token) : Prop :=
  | te_control :
      balances t' = balances t -> total_supply t' = total_supply t ->
      (supply_cap t' = supply_cap t \/ total_supply t <= supply_cap t' <= u256_max) ->
      (forall a, in_range u256_max (frozen t').[a]) ->
      (forall k, in_range u256_max (allowances t').[k]) -> token_effect t caller t'
  | te_transfer from to value :
      paused t = false -> 0 <= value ->
      value <= unfrozen (balances t).[from] (frozen t).[from] ->
      balances t' = moved (balances t) from to value ->
      total_supply t' = total_supply t -> supply_cap t' = supply_cap t ->
      frozen t' = frozen t ->
      (from = caller /\ allowances t' = allowances t) \/ spent t t' from caller value ->
      token_effect t caller t'
  | te_mint to value :
      paused t = false -> has t ISSUER_ROLE caller -> 0 < value ->
      total_supply t + value <= supply_cap t ->
      balances t' = (balances t).[to <- (balances t).[to] + value] ->
      total_supply t' = total_supply t + value -> supply_cap t' = supply_cap t ->
      frozen t' = frozen t -> allowances t' = allowances t -> token_effect t caller t'
  | te_burn from value :
      paused t = false -> 0 < value -> value <= (balances t).[from] ->
      balances t' = (balances t).[from <- (balances t).[from] - value] ->
      total_supply t' = total_supply t - value -> supply_cap t' = supply_cap t ->
      (from = caller /\ has t ISSUER_ROLE caller /\ allowances t' = allowances t /\
         froze t t' from value) \/
      (value <= unfrozen (balances t).[from] (frozen t).[from] /\ frozen t' = frozen t /\
         spent t t' from caller value) ->
      token_effect t caller t'
  | te_forced from to value :
      paused t = false -> has t ENFORCER_ROLE caller -> from <> to -> 0 < value ->
      value <= (balances t).[from] ->
      balances t' = moved (balances t) from to value ->
      total_supply t' = total_supply t -> supply_cap t' = supply_cap t ->
      allowances t' = allowances t -> froze t t' from value -> token_effect t caller t'.

(** * Lemmas *)

Section Lemmas.
Context {R : Type} {API : PolicyApi R} {CR : Crypto}.

(** ** Reads do not write *)

Lemma ro_validated : ro validated_schema_version.
Proof. unfold validated_schema_version. solve_ro. Qed.
#[local] Hint Resolve ro_validated : rudis.
Lemma ro_has_role r a : ro (has_role r a).
Proof. unfold has_role. solve_ro. Qed.
#[local] Hint Resolve ro_has_role : rudis.
Lemma ro_require_role r a : ro (require_role r a).
Proof. unfold require_role. solve_ro. Qed.
Lemma ro_require_can_send (reg : R) a : ro (require_can_send reg a).
Proof. unfold require_can_send. solve_ro. Qed.
Lemma ro_require_can_receive (reg : R) a : ro (require_can_receive reg a).
Proof. unfold require_can_receive. solve_ro. Qed.
Lemma ro_require_can_mint (reg : R) a : ro (require_can_mint reg a).
Proof. unfold require_can_mint. solve_ro. Qed.
Lemma ro_require_not_paused : ro require_not_paused.
Proof. unfold require_not_paused. solve_ro. Qed.
Lemma ro_require_unfrozen a b v : ro (require_unfrozen a b v).
Proof. unfold require_unfrozen. solve_ro. Qed.
Lemma ro_require_balance a v : ro (require_balance a v).
Proof. unfold require_balance. solve_ro. Qed.
Lemma ro_require_allowance o s v : ro (require_allowance o s v).
Proof. unfold require_allowance. solve_ro. Qed.
Lemma ro_next_recipient f t b v m : ro (next_recipient f t b v m).
Proof. unfold next_recipient. solve_ro. Qed.
Lemma ro_read_utf8 f m : ro (read_utf8 f m).
Proof. unfold read_utf8. solve_ro. Qed.
Lemma ro_domain_separator env : ro (domain_separator env).
Proof. unfold domain_separator. solve_ro. Qed.
Lemma ro_validate_allowance_update o s v : ro (validate_allowance_update o s v).
Proof. unfold validate_allowance_update. solve_ro. Qed.
Lemma ro_read_validated {A} (f : Token -> A) : ro (read_validated f).
Proof. unfold read_validated. solve_ro. Qed.
#[local] Hint Resolve ro_require_role ro_require_can_send ro_require_can_receive
  ro_require_can_mint ro_require_not_paused ro_require_unfrozen ro_require_balance
  ro_require_allowance ro_next_recipient ro_read_utf8 ro_domain_separator
  ro_validate_allowance_update ro_read_validated : rudis.

Lemma atomic_mint_core a v : atomic (mint_core a v).
Proof. unfold mint_core, require_nonzero, require_nonzero_amount. solve_atomic. Qed.
#[local] Hint Resolve atomic_mint_core : rudis.

Lemma atomic_token_dispatch env (reg : R) caller value call :
  atomic (token_dispatch env reg caller value call).
Proof.
  unfold token_dispatch, returns. case_match; [solve_atomic|].
  destruct call; try apply atomic_bind_ret;
    unfold name_value, symbol_value, balance_of, allowance_of, frozen_tokens, token_can_send,
      token_can_receive, can_transfer, grant_role, revoke_role, begin_admin_transfer,
      cancel_admin_transfer, accept_admin_transfer, pause, unpause, set_supply_cap,
      set_policy_id, set_frozen_tokens, approve, permit, transfer, transfer_from, mint, burn,
      burn_from, forced_transfer, transfer_with_memo, transfer_from_with_memo, mint_with_memo,
      burn_with_memo, burn_from_with_memo, forced_transfer_with_memo, with_memo,
      require_nonzero, require_nonzero_amount, require_operational_role; solve_atomic.
Qed.

(** ** What the checks establish *)

Lemma validated_ok t v t' :
  validated_schema_version t = (Ok v, t') -> t' = t /\ schema_version t = 1.
Proof.
  unfold validated_schema_version, STABLECOIN_V1_SCHEMA_VERSION. intros. minv_all; bprop; auto.
Qed.

Lemma require_role_ok role a t u t' :
  require_role role a t = (Ok u, t') ->
  t' = t /\ schema_version t = 1 /\ has t role a /\ (role = ADMIN_ROLE -> a = tok_admin t).
Proof.
  intros H. pose proof (ro_run _ _ _ _ (ro_require_role role a) H) as Ht.
  unfold require_role, has_role in H. minv.
  match goal with H : validated_schema_version _ = _ |- _ => apply validated_ok in H as [-> ?] end.
  split; [done|]. split; [done|]. clear Ht.
  destruct (negb (role =? ADMIN_ROLE) && negb (is_operational role)); minv; [done|].
  unfold has. destruct (Z.eqb_spec role ADMIN_ROLE); minv; [|by split].
  split; [done|]. intros _.
  match goal with H : Bool.eqb _ _ = true |- _ => apply Bool.eqb_prop in H end.
  apply Z.eqb_eq. congruence.
Qed.

Lemma require_not_paused_ok t u t' :
  require_not_paused t = (Ok u, t') -> t' = t /\ paused t = false.
Proof. unfold require_not_paused. intros. minv. bprop. done. Qed.

Lemma require_balance_ok a v t b t' :
  require_balance a v t = (Ok b, t') -> t' = t /\ b = (balances t).[a] /\ v <= b.
Proof. unfold require_balance. intros. minv. bprop. done. Qed.

Lemma require_allowance_ok o s v t b t' :
  require_allowance o s v t = (Ok b, t') ->
  t' = t /\ b = (allowances t).[allowance_key o s] /\ v <= b.
Proof. unfold require_allowance. intros. minv. bprop. done. Qed.

Lemma require_unfrozen_ok a b v t u t' :
  require_unfrozen a b v t = (Ok u, t') -> t' = t /\ v <= unfrozen b (frozen t).[a].
Proof. unfold require_unfrozen. intros. minv. bprop. done. Qed.

Lemma next_recipient_ok from to b v m t n t' :
  next_recipient from to b v m t = (Ok n, t') ->
  t' = t /\ ((from = to /\ n = b) \/
             (from <> to /\ n = (balances t).[to] + v /\ n <= u256_max)).
Proof.
  unfold next_recipient. destruct (Z.eqb_spec from to); intros; minv; split; auto.
Qed.

Lemma validate_allowance_update_ok o s v t u t' :
  validate_allowance_update o s v t = (Ok u, t') -> t' = t.
Proof. apply ro_run, ro_validate_allowance_update. Qed.

Lemma require_can_send_ok (reg : R) a t u t' :
  require_can_send reg a t = (Ok u, t') ->
  t' = t /\ api_can_send reg (tok_policy_id t) a = Ok true.
Proof. unfold require_can_send. intros. minv. split; congruence. Qed.
Lemma require_can_receive_ok (reg : R) a t u t' :
  require_can_receive reg a t = (Ok u, t') ->
  t' = t /\ api_can_receive reg (tok_policy_id t) a = Ok true.
Proof. unfold require_can_receive. intros. minv. split; congruence. Qed.
Lemma require_can_mint_ok (reg : R) a t u t' :
  require_can_mint reg a t = (Ok u, t') ->
  t' = t /\ api_can_mint reg (tok_policy_id t) a = Ok true.
Proof. unfold require_can_mint. intros. minv. split; congruence. Qed.
End Lemmas.

(** Inversion of a successful ledger call: run [minv] and apply the lemma of
    each check that was passed. *)
Ltac tinv_step :=
  match goal with
  | H : validated_schema_version _ = (Ok _, _) |- _ => apply validated_ok in H as [-> ?]
  | H : require_role _ _ _ = (Ok _, _) |- _ => apply require_role_ok in H as (-> & ? & ? & ?)
  | H : require_not_paused _ = (Ok _, _) |- _ => apply require_not_paused_ok in H as [-> ?]
  | H : require_balance _ _ _ = (Ok _, _) |- _ => apply require_balance_ok in H as (-> & -> & ?)
  | H : require_allowance _ _ _ _ = (Ok _, _) |- _ =>
      apply require_allowance_ok in H as (-> & -> & ?)
  | H : require_unfrozen _ _ _ _ = (Ok _, _) |- _ => apply require_unfrozen_ok in H as [-> ?]
  | H : next_recipient _ _ _ _ _ _ = (Ok _, _) |- _ => apply next_recipient_ok in H as [-> ?]
  | H : validate_allowance_update _ _ _ _ = (Ok _, _) |- _ =>
      apply validate_allowance_update_ok in H as ->
  | H : domain_separator _ _ = (Ok _, _) |- _ =>
      apply (ro_run _ _ _ _ (ro_domain_separator _)) in H as ->
  | H : require_can_send _ _ _ = (Ok _, _) |- _ => apply require_can_send_ok in H as [-> ?]
  | H : require_can_receive _ _ _ = (Ok _, _) |- _ => apply require_can_receive_ok in H as [-> ?]
  | H : require_can_mint _ _ _ = (Ok _, _) |- _ => apply require_can_mint_ok in H as [-> ?]
  end.
Ltac tinv :=
  unfold write_approval, require_nonzero, require_nonzero_amount, require_operational_role,
    tok_emit, write_balance, write_allowance, write_role, write_frozen in *;
  repeat first [progress minv | tinv_step]; bprop.

Section Effects.
Context {R : Type} {API : PolicyApi R} {CR : Crypto}.

(** ** The effect of each operation *)

Lemma unfrozen_le b f : 0 <= f -> 0 <= b -> unfrozen b f <= b /\ unfrozen b f = Z.max 0 (b - f).
Proof. intros. unfold unfrozen, saturating_sub. case_match; bprop; lia. Qed.

Lemma token_balance_le t a : token_inv t -> (balances t).[a] <= u256_max.
Proof.
  intros Hinv. pose proof (map_sum_le (balances t) a (inv_balances t Hinv)).
  pose proof (inv_supply t Hinv). pose proof (inv_cap t Hinv).
  pose proof (inv_cap_range t Hinv). unfold in_range in *. lia.
Qed.

Lemma control_effect t caller t' :
  token_inv t -> balances t' = balances t -> total_supply t' = total_supply t ->
  supply_cap t' = supply_cap t -> frozen t' = frozen t -> allowances t' = allowances t ->
  token_effect t caller t'.
Proof.
  intros Hinv Hb Hs Hc Hf Ha. apply te_control; [done|done|by left|..].
  - rewrite Hf. apply Hinv.
  - rewrite Ha. apply Hinv.
Qed.

Lemma spent_write t t' o s v :
  token_inv t -> 0 <= v -> v <= (allowances t).[allowance_key o s] ->
  allowances t' = (if decide ((allowances t).[allowance_key o s] = u256_max) then allowances t
                   else (allowances t).[allowance_key o s <-
                          (allowances t).[allowance_key o s] - v]) ->
  spent t t' o s v.
Proof.
  intros Hinv Hv Hle Hal. split; [done|]. intros k. rewrite Hal.
  destruct (decide (k = allowance_key o s)) as [->|Hne]; case_decide; mcase; done.
Qed.

Lemma spend_allowance_ok o s v t u t' :
  token_inv t -> 0 <= v -> v <= (allowances t).[allowance_key o s] ->
  spend_allowance o s (allowances t).[allowance_key o s] v t = (Ok u, t') ->
  t' = t <| allowances := (if decide ((allowances t).[allowance_key o s] = u256_max)
                           then allowances t
                           else (allowances t).[allowance_key o s <-
                                  (allowances t).[allowance_key o s] - v]) |>.
Proof.
  intros Hinv Hv Hle. pose proof (inv_allowances t Hinv (allowance_key o s)) as Hr.
  unfold spend_allowance, write_allowance. unfold in_range in Hr.
  destruct (Z.eqb_spec (allowances t).[allowance_key o s] u256_max) as [He|He]; simpl; intros; minv.
  - rewrite decide_True by done. by destruct t.
  - rewrite decide_False by done. rewrite wrapping_sub_small by lia. done.
Qed.

Lemma move_balance_ok from to v n t u t' :
  token_inv t -> 0 <= v -> v <= (balances t).[from] ->
  (from = to /\ n = (balances t).[from]) \/
    (from <> to /\ n = (balances t).[to] + v /\ n <= u256_max) ->
  move_balance from to (balances t).[from] n v t = (Ok u, t') ->
  t' = t <| balances := moved (balances t) from to v |>.
Proof.
  intros Hinv Hv Hle Hn. pose proof (token_balance_le t from Hinv).
  unfold move_balance, moved, write_balance.
  destruct Hn as [[<- ->]|(Hne & -> & _)].
  - rewrite Z.eqb_refl. simpl. intros; minv. by destruct t.
  - destruct (Z.eqb_spec from to); [done|]. simpl. intros; minv.
    rewrite wrapping_sub_small by lia. done.
Qed.

Lemma consume_frozen_ok a v t u t' :
  token_inv t -> 0 <= v -> v <= (balances t).[a] ->
  consume_frozen a (balances t).[a] (frozen t).[a] v t = (Ok u, t') ->
  froze t t' a v /\ balances t' = balances t /\ total_supply t' = total_supply t /\
  supply_cap t' = supply_cap t /\ allowances t' = allowances t /\
  schema_version t' = schema_version t.
Proof.
  intros Hinv Hv Hle. pose proof (inv_frozen t Hinv a) as Hf. pose proof (inv_balances t Hinv a).
  unfold in_range in Hf. unfold consume_frozen, froze, frozen_after, write_frozen, tok_emit.
  destruct (unfrozen_le (balances t).[a] (frozen t).[a]) as [_ ->]; [lia|lia|].
  destruct (Z.ltb_spec (Z.max 0 ((balances t).[a] - (frozen t).[a])) v).
  - destruct (Z.eqb_spec (v - Z.max 0 ((balances t).[a] - (frozen t).[a])) 0); [lia|].
    intros; minv; split_and!; try done. simpl. intros x. case_decide; subst; mcase; [lia|done].
  - simpl. intros; minv; split_and!; try done. intros x. case_decide; subst; [lia|done].
Qed.

Lemma transfer_effect (reg : R) from to v t u t' :
  token_inv t -> 0 <= v -> transfer reg from to v t = (Ok u, t') -> token_effect t from t'.
Proof.
  intros Hinv Hv Hrun. unfold transfer in Hrun. tinv.
  match goal with H : move_balance _ _ _ _ _ _ = _ |- _ => apply move_balance_ok in H; [|done..] end.
  subst. eapply te_transfer; simpl; try done. by left.
Qed.

Lemma transfer_from_effect (reg : R) spender from to v t u t' :
  token_inv t -> 0 <= v -> transfer_from reg spender from to v t = (Ok u, t') ->
  token_effect t spender t'.
Proof.
  intros Hinv Hv Hrun. unfold transfer_from in Hrun. tinv.
  match goal with H : spend_allowance _ _ _ _ _ = _ |- _ => apply spend_allowance_ok in H; [|done..] end.
  match goal with H : ?s = t <| allowances := ?A |>, H' : move_balance _ _ _ _ _ ?s = _ |- _ =>
    set (al := A) in *; subst s; change (balances t) with (balances (t <| allowances := al |>)) in H' end.
  match goal with H : move_balance _ _ _ _ _ _ = _ |- _ => apply move_balance_ok in H; simpl; try done end.
  - subst. eapply te_transfer; simpl; try done. right. by apply spent_write.
  - destruct Hinv. split; simpl; try done. intros k. unfold al.
    case_decide; mcase; try done. specialize (inv_allowances0 (allowance_key from spender)).
    unfold in_range in *. lia.
Qed.

Lemma mint_effect (reg : R) actor to v t u t' :
  token_inv t -> 0 <= v -> mint reg actor to v t = (Ok u, t') -> token_effect t actor t'.
Proof.
  intros Hinv Hv Hrun. unfold mint, mint_core in Hrun. tinv. simpl in *.
  eapply te_mint; simpl; try done. lia.
Qed.

Lemma burn_core_ok from v t u t' :
  token_inv t -> 0 <= v -> burn_core from v t = (Ok u, t') ->
  0 < v /\ v <= (balances t).[from] /\
  balances t' = (balances t).[from <- (balances t).[from] - v] /\
  total_supply t' = total_supply t - v /\ supply_cap t' = supply_cap t /\
  frozen t' = frozen t /\ allowances t' = allowances t.
Proof.
  intros Hinv Hv Hrun. pose proof (token_balance_le t from Hinv).
  unfold burn_core in Hrun. tinv. rewrite wrapping_sub_small in * by lia.
  split_and!; simpl; try done. lia.
Qed.

Lemma token_inv_frozen t t' :
  token_inv t -> balances t' = balances t -> total_supply t' = total_supply t ->
  supply_cap t' = supply_cap t -> allowances t' = allowances t ->
  (forall a, in_range u256_max (frozen t').[a]) -> token_inv t'.
Proof. intros [] Hb Hs Hc Ha Hf. split; rewrite ?Hb, ?Hs, ?Hc, ?Ha; done. Qed.

Lemma froze_range t t' a v :
  token_inv t -> 0 <= v <= (balances t).[a] -> froze t t' a v ->
  forall x, in_range u256_max (frozen t').[x].
Proof.
  intros Hinv Hv Hf x. rewrite Hf. case_decide; subst; [|apply Hinv].
  pose proof (inv_frozen t Hinv a). pose proof (inv_balances t Hinv a).
  unfold in_range, frozen_after in *.
  destruct (unfrozen_le (balances t).[a] (frozen t).[a]) as [_ ->]; lia.
Qed.

Lemma burn_effect actor v t u t' :
  token_inv t -> 0 <= v -> burn actor v t = (Ok u, t') -> token_effect t actor t'.
Proof.
  intros Hinv Hv Hrun. unfold burn in Hrun. tinv.
  match goal with H : consume_frozen _ _ _ _ _ = _ |- _ =>
    apply consume_frozen_ok in H as (Hf & Hb & Hs & Hc & Ha & _); [|done..] end.
  match goal with H : burn_core _ _ ?s = _ |- _ =>
    assert (token_inv s) by (by eapply token_inv_frozen; [..|eapply froze_range]);
    apply burn_core_ok in H as (? & ? & Hb' & Hs' & Hc' & Hf' & Ha'); [|done..] end.
  rewrite Hb, Hs, Hc, Ha in *. eapply te_burn; try done. left. split_and!; try done.
  intros x. by rewrite Hf'.
Qed.

Lemma burn_from_effect (reg : R) spender from v t u t' :
  token_inv t -> 0 <= v -> burn_from reg spender from v t = (Ok u, t') ->
  token_effect t spender t'.
Proof.
  intros Hinv Hv Hrun. unfold burn_from in Hrun. tinv.
  match goal with H : burn_core _ _ _ = _ |- _ =>
    apply burn_core_ok in H as (? & ? & Hb & Hs & Hc & Hf & Ha); [|done..] end.
  match goal with H : spend_allowance _ _ ?al v ?s = _ |- _ =>
    unfold spend_allowance, write_allowance in H end.
  pose proof (inv_allowances t Hinv (allowance_key from spender)) as Hr. unfold in_range in Hr.
  eapply (te_burn t spender t' from v); try done;
    destruct (Z.eqb_spec (allowances t).[allowance_key from spender] u256_max) as [He|He];
    simpl in *; minv; simpl; try done.
  all: right; split_and!; try done; apply spent_write; try done; simpl; rewrite Ha.
  - by rewrite decide_True.
  - rewrite decide_False, wrapping_sub_small by (done || lia). done.
Qed.

Lemma forced_transfer_effect (reg : R) actor from to v t u t' :
  token_inv t -> 0 <= v -> forced_transfer reg actor from to v t = (Ok u, t') ->
  token_effect t actor t'.
Proof.
  intros Hinv Hv Hrun. pose proof (token_balance_le t from Hinv).
  unfold forced_transfer in Hrun. tinv.
  match goal with H : consume_frozen _ _ _ _ _ = _ |- _ =>
    apply consume_frozen_ok in H as (Hf & Hb & Hs & Hc & Ha & _); [|done..] end.
  eapply (te_forced t actor _ from to v); simpl; try done; [lia|].
  rewrite Hb, wrapping_sub_small by lia. unfold moved.
  by destruct (Z.eqb_spec from to).
Qed.

Lemma emit_effect t caller t1 e :
  token_effect t caller t1 -> token_effect t caller (t1 <| tok_events := e |>).
Proof. intros []; [eapply te_control|eapply te_transfer|eapply te_mint|eapply te_burn|eapply te_forced]; done. Qed.

Lemma memo_effect from to v memo caller (m : M Token unit) t u t' :
  (forall t1, m t = (Ok tt, t1) -> token_effect t caller t1) ->
  with_memo from to v memo m t = (Ok u, t') -> token_effect t caller t'.
Proof.
  intros Hm Hrun. unfold with_memo, tok_emit in Hrun. minv. by apply emit_effect, Hm.
Qed.

Ltac move_eff lem :=
  solve [eapply lem; [eassumption| |eassumption]; lia].

Lemma token_dispatch_effect env (reg : R) caller value call t res t' :
  token_inv t -> call_ok call ->
  token_dispatch env reg caller value call t = (Ok res, t') -> token_effect t caller t'.
Proof.
  intros Hinv Hok Hrun. unfold token_dispatch, returns in Hrun.
  destruct (value =? 0); [simpl in Hrun|by minv].
  assert (Hview : forall A B (m : M Token A) (f : A -> B) b, ro m ->
    (let! a := m in mret (f a)) t = (Ok b, t') -> token_effect t caller t').
  { intros A B m f b Hro Hm. minv. apply (ro_run _ _ _ _ Hro) in H as ->. by apply control_effect. }
  assert (Hsame : token_effect t caller t) by (by apply control_effect).
  unfold call_ok in Hok.
  destruct call; simpl in Hok; try (apply (proj1 (Forall_singleton _ _)) in Hok; unfold in_range in Hok);
    try solve [by minv];
    try solve [eapply Hview; [|exact Hrun];
      unfold name_value, symbol_value, balance_of, allowance_of, frozen_tokens, token_can_send,
        token_can_receive, can_transfer; solve_ro].
  all: minv_step; minv.
  all: try (unfold transfer_with_memo, transfer_from_with_memo, mint_with_memo, burn_with_memo,
    burn_from_with_memo, forced_transfer_with_memo in *;
    match goal with H : with_memo _ _ _ _ _ _ = _ |- _ =>
      eapply memo_effect; [|exact H]; clear H; intros ? ? end).
  all: try first [move_eff transfer_effect | move_eff transfer_from_effect | move_eff mint_effect
    | move_eff burn_effect | move_eff burn_from_effect | move_eff forced_transfer_effect].
  all: unfold approve, permit, grant_role, revoke_role, begin_admin_transfer,
    cancel_admin_transfer, accept_admin_transfer, pause, unpause, set_supply_cap, set_policy_id,
    set_frozen_tokens in *; tinv; try (minv_case; tinv; try done).
  all: try (by apply control_effect).
  all: apply te_control; simpl; try done;
    try (right; unfold in_range in *; lia); try (by left); try apply Hinv;
    intros; mcase; try apply Hinv; unfold in_range; lia.
Qed.
End Effects.

Section Invariant.
Context {R : Type} {API : PolicyApi R} {CR : Crypto}.

(** ** The ledger invariant *)

Lemma map_sum_moved b from to v : map_sum (moved b from to v) = map_sum b.
Proof.
  unfold moved. destruct (Z.eqb_spec from to); [done|].
  rewrite !map_sum_mwrite, mread_mwrite_ne by done. lia.
Qed.

Lemma moved_read b from to v a :
  (moved b from to v).[a] =
    if decide (from = to) then b.[a]
    else if decide (a = to) then b.[to] + v
    else if decide (a = from) then b.[from] - v else b.[a].
Proof.
  unfold moved. destruct (Z.eqb_spec from to); case_decide; try done.
  repeat case_decide; subst; mcase; try done.
Qed.

Lemma spent_range t t' o s v :
  token_inv t -> 0 <= v -> spent t t' o s v -> forall k, in_range u256_max (allowances t').[k].
Proof.
  intros Hinv Hv [Hle Hal] k. rewrite Hal. pose proof (inv_allowances t Hinv k).
  unfold in_range in *. repeat case_decide; subst; lia.
Qed.

Lemma token_effect_inv t caller t' : token_inv t -> token_effect t caller t' -> token_inv t'.
Proof.
  intros Hinv Heff. pose proof Hinv as [Hb Hf Ha Hs Hc Hr]. unfold in_range in Hr.
  destruct Heff as
    [Eb Es Ec Ef Ea
    |from to v Hp Hv Hle Eb Es Ec Ef Hauth
    |to v Hp Hrole Hv Hcap Eb Es Ec Ef Ea
    |from v Hp Hv Hle Eb Es Ec Hauth
    |from to v Hp Hrole Hne Hv Hle Eb Es Ec Ea Ef].
  - split; rewrite ?Eb, ?Es; try done; unfold in_range; destruct Ec as [->|?]; try lia.
    pose proof (map_sum_nonneg (balances t) Hb). lia.
  - pose proof (Hf from). pose proof (Hb from). unfold in_range in *.
    destruct (unfrozen_le (balances t).[from] (frozen t).[from]) as [Hu _]; [lia|lia|].
    split; rewrite ?Es, ?Ec, ?Ef; try done.
    + intros a. rewrite Eb, moved_read. pose proof (Hb a). pose proof (Hb to).
      repeat case_decide; subst; lia.
    + intros k. destruct Hauth as [[_ ->]|Hsp]; [apply Ha|exact (spent_range _ _ _ _ _ Hinv Hv Hsp k)].
    + by rewrite Eb, map_sum_moved.
  - split; rewrite ?Es, ?Ec, ?Ef, ?Ea; try done; try lia.
    + intros a. rewrite Eb. pose proof (Hb to). mcase; [lia|apply Hb].
    + rewrite Eb, map_sum_mwrite. lia.
  - split; rewrite ?Es, ?Ec; try done; try lia.
    + intros a. rewrite Eb. mcase; [lia|apply Hb].
    + destruct Hauth as [(_ & _ & _ & Hfz)|(_ & -> & _)]; [|done]. eapply froze_range; [done| |done]. lia.
    + intros k. destruct Hauth as [(_ & _ & -> & _)|(_ & _ & Hsp)]; [apply Ha|].
      eapply spent_range; [done| |done]. lia.
    + rewrite Eb, map_sum_mwrite. lia.
  - split; rewrite ?Es, ?Ec, ?Ea; try done.
    + intros a. rewrite Eb, moved_read. pose proof (Hb a). pose proof (Hb to).
      repeat case_decide; subst; lia.
    + eapply froze_range; [done| |done]. lia.
    + by rewrite Eb, map_sum_moved.
Qed.

Lemma initialize_inv env (reg : R) i t :
  in_range u256_max (pl_supply_cap (init_payload i)) ->
  initialize_from_factory env reg i empty_token = (Ok tt, t) ->
  token_inv t /\ schema_version t = 1 /\ tok_admin t = pl_issuer (init_payload i) /\
  tok_admin t <> ZERO_ADDRESS.
Proof.
  intros Hcap Hrun. unfold initialize_from_factory in Hrun. minv.
  change (negb (schema_version empty_token =? 0)) with false in *. cbv iota zeta in *. minv.
  match goal with H : validate_pristine_root _ = _ |- _ =>
    apply ro_run in H as ->; [|unfold validate_pristine_root; solve_ro] end.
  match goal with H : validate_initialization _ _ _ _ = _ |- _ =>
    pose proof H as Hval; apply ro_run in H as ->; [|unfold validate_initialization; solve_ro] end.
  unfold validate_initialization in Hval. minv.
  unfold OPERATIONAL_ROLES, write_role in *. cbn [mfor] in *. minv.
  unfold validate_payload in *. bprop.
  split; [|done]. unfold in_range in *.
  split; simpl; try (intros; rewrite mread_empty); try (unfold in_range; simpl);
    try done; try lia.
  all: unfold u256_max; lia.
Qed.

Lemma token_reachable_inv (t : Token) : token_reachable (R := R) t -> token_inv t.
Proof.
  induction 1 as [env reg i t Hcap Hinit|env reg caller value call res t t' _ IH Hok Hrun].
  - by eapply initialize_inv.
  - pose proof (atomic_token_dispatch env reg caller value call t) as Hat.
    rewrite Hrun in Hat. simpl in Hat.
    destruct res as [res|e|]; [|destruct Hat as [[? ?]| ->]; done..].
    by eapply token_effect_inv, token_dispatch_effect.
Qed.
End Invariant.

(** * A concrete ledger for the witnesses

    [demo_crypto] hashes a byte list to the number it spells after a leading
    one, and recovers the address written in the signature word [r]. *)

Definition demo_crypto : Crypto := {|
  crypto_keccak l := fold_left (fun acc b => acc * 256 + b) l 1;
  signature_valid _ _ := true;
  signature_high_s _ _ := false;
  recover_key _ r _ _ := Some (4 :: be_bytes 20 r);
|}.

Definition demo_payload : StablecoinCreatePayload :=
  MkPayload 161 [69; 117; 114; 111] [69; 85; 82] 978 6 1000000 1.
Definition demo_id : B256 :=
  default 0 (stablecoin_token_id (CR := demo_crypto) 1 STABLECOIN_FACTORY_ADDRESS 161 [69; 85; 82]).
Definition demo_env : TokenEnv :=
  MkTokenEnv 1 100 (stablecoin_address demo_id STABLECOIN_ADDRESS_PREFIX).
Definition demo_init : FactoryTokenInitialization :=
  MkInitialization (env_self demo_env) demo_id 7 demo_payload.

Definition demo_call (caller : Address) (call : TokenCall) : M Token TokenReturn :=
  token_dispatch (CR := demo_crypto) demo_env empty_registry caller 0 call.

Definition demo_fresh : Token :=
  snd (initialize_from_factory (CR := demo_crypto) demo_env empty_registry demo_init empty_token).
Definition demo_minted : Token := snd (demo_call 161 (c_mint 200 500) demo_fresh).
Definition demo_approved : Token := snd (demo_call 200 (c_approve 300 50) demo_minted).
(** Account 200 holds 500, of which 100 are frozen; 300 may spend 50 of them. *)
Definition demo_token : Token := snd (demo_call 161 (c_setFrozenTokens 200 100) demo_approved).

Abbreviation demo_reachable := (@token_reachable PolicyRegistry PolicyApi_registry demo_crypto).

Lemma demo_step caller call t :
  demo_reachable t -> call_ok call -> demo_reachable (snd (demo_call caller call t)).
Proof.
  intros Ht Hok. eapply (token_call demo_env empty_registry caller 0 call); [done|done|].
  apply surjective_pairing.
Qed.

Lemma demo_fresh_ok :
  fst (initialize_from_factory (CR := demo_crypto) demo_env empty_registry demo_init empty_token)
  = Ok tt.
Proof. vm_compute. reflexivity. Qed.

Lemma demo_fresh_reachable : demo_reachable demo_fresh.
Proof.
  apply (token_init demo_env empty_registry demo_init).
  - vm_compute. split; discriminate.
  - unfold demo_fresh. rewrite <- demo_fresh_ok. apply surjective_pairing.
Qed.

Lemma demo_token_reachable : demo_reachable demo_token.
Proof.
  apply demo_step; [apply demo_step; [apply demo_step; [apply demo_fresh_reachable|]|]|];
    repeat constructor; vm_compute; discriminate.
Qed.

(** * Theorems *)

Lemma sub_sub_cancel (x v : Z) : x - (x - v) = v.
Proof. lia. Qed.

Section Theorems.
Context {R : Type} {API : PolicyApi R} {CR : Crypto}.

(** C39. In every ledger that the Factory initializes and calls produce, the
    total supply is the sum of all balances, no balance is negative, and the
    supply stays within the cap, which fits in 256 bits; this holds whatever
    the policy registry answers. *)
Theorem token_supply_invariant (t : Token) :
  token_reachable (R := R) t ->
  total_supply t = map_sum (balances t) /\ (forall a, 0 <= (balances t).[a]) /\
  total_supply t <= supply_cap t <= u256_max.
Proof.
  intros Ht. destruct (token_reachable_inv t Ht) as [Hb _ _ Hs Hc Hr].
  unfold in_range in Hr. split_and!; [done|done|lia|lia].
Qed.

(** A call that does not return a value leaves the whole ledger, its
    allowances, nonces and log included, exactly as it was. *)
Theorem token_call_atomic env (reg : R) caller value call t res t' :
  token_dispatch env reg caller value call t = (res, t') ->
  (forall r, res <> Ok r) -> t' = t.
Proof.
  intros Hrun Hno. pose proof (atomic_token_dispatch env reg caller value call t) as Hat.
  rewrite Hrun in Hat. destruct Hat as [[r Hr]|Ht]; [by destruct (Hno r)|done].
Qed.

(** While the token is paused no successful call changes any balance or
    the total supply. *)
Theorem paused_blocks_movement env (reg : R) caller value call t res t' :
  token_reachable (R := R) t -> call_ok call -> paused t = true ->
  token_dispatch env reg caller value call t = (Ok res, t') ->
  balances t' = balances t /\ total_supply t' = total_supply t.
Proof.
  intros Ht Hok Hp Hrun.
  destruct (token_dispatch_effect _ _ _ _ _ _ _ _ (token_reachable_inv t Ht) Hok Hrun);
    by rewrite ?Hp in *.
Qed.

(** C40. Whose tokens a call can take: when the balance of [a] decreases, the
    caller is [a] itself, or is an enforcer, or spends an allowance that [a]
    granted it, which covers the whole decrease and is reduced by it unless it
    was unlimited. *)
Theorem balance_decrease_authority env (reg : R) caller value call t res t' a :
  token_reachable (R := R) t -> call_ok call ->
  token_dispatch env reg caller value call t = (Ok res, t') ->
  (balances t').[a] < (balances t).[a] ->
  caller = a \/ has t ENFORCER_ROLE caller \/
  spent t t' a caller ((balances t).[a] - (balances t').[a]).
Proof.
  intros Ht Hok Hrun Hlt. pose proof (token_reachable_inv t Ht) as Hinv.
  destruct (token_dispatch_effect _ _ _ _ _ _ _ _ Hinv Hok Hrun) as
    [Eb|from to v _ Hv _ Eb _ _ _ Hauth|to v _ _ Hv _ Eb|from v _ Hv _ Eb _ _ Hauth|];
    [rewrite Eb in Hlt; lia| | | |by right; left].
  - rewrite Eb, moved_read in *. repeat case_decide; subst; try lia.
    destruct Hauth as [[-> _]|Hsp]; [by left|]. right; right.
    by rewrite sub_sub_cancel.
  - rewrite Eb in Hlt. exfalso. mcase; lia.
  - rewrite Eb in *. mcase; [|lia].
    destruct Hauth as [(-> & _)|(_ & _ & Hsp)]; [by left|]. right; right.
    by rewrite sub_sub_cancel.
Qed.

(** Frozen amounts hold: when a call reduces the balance of [a], the new
    balance still covers the amount frozen for [a], unless an enforcer forced
    the transfer or [a] is an issuer burning its own tokens; in those two cases
    the frozen amount shrinks by what the unfrozen part did not cover. *)
Theorem frozen_amount_held env (reg : R) caller value call t res t' a :
  token_reachable (R := R) t -> call_ok call ->
  token_dispatch env reg caller value call t = (Ok res, t') ->
  (balances t').[a] < (balances t).[a] ->
  ((frozen t).[a] <= (balances t').[a] /\ frozen t' = frozen t) \/
  ((has t ENFORCER_ROLE caller \/ (caller = a /\ has t ISSUER_ROLE caller)) /\
   froze t t' a ((balances t).[a] - (balances t').[a])).
Proof.
  intros Ht Hok Hrun Hlt. pose proof (token_reachable_inv t Ht) as Hinv.
  pose proof (inv_frozen t Hinv a) as Hf. pose proof (inv_balances t Hinv a) as Hb.
  unfold in_range in Hf.
  destruct (unfrozen_le (balances t).[a] (frozen t).[a]) as [_ Hu]; [lia|done|].
  destruct (token_dispatch_effect _ _ _ _ _ _ _ _ Hinv Hok Hrun) as
    [Eb|from to v _ Hv Hle Eb _ _ Ef _|to v _ _ Hv _ Eb|from v _ Hv Hle Eb _ _ Hauth
    |from to v _ Hrole Hne Hv Hle Eb _ _ _ Ef];
    [rewrite Eb in Hlt; lia|..].
  - rewrite Eb, moved_read in *. repeat case_decide; subst; try lia. left. split; [lia|done].
  - rewrite Eb in Hlt. exfalso. mcase; lia.
  - rewrite Eb in *. mcase; [|lia].
    destruct Hauth as [(-> & Hi & _ & Hfz)|(Hle' & Ef & _)]; [right|left; split; [lia|done]].
    split; [by right|]. by rewrite sub_sub_cancel.
  - rewrite Eb, moved_read in *. repeat case_decide; subst; try lia. right. split; [by left|].
    by rewrite sub_sub_cancel.
Qed.

(** The supply grows only when an issuer mints and never past the cap;
    every other call keeps it or burns from it. *)
Theorem supply_growth_authority env (reg : R) caller value call t res t' :
  token_reachable (R := R) t -> call_ok call ->
  token_dispatch env reg caller value call t = (Ok res, t') ->
  total_supply t < total_supply t' ->
  has t ISSUER_ROLE caller /\ total_supply t' <= supply_cap t /\ paused t = false.
Proof.
  intros Ht Hok Hrun Hlt.
  destruct (token_dispatch_effect _ _ _ _ _ _ _ _ (token_reachable_inv t Ht) Hok Hrun); try lia.
  split_and!; [done|lia|done].
Qed.


(** What the administration of a ledger consists of. *)
Definition control (t : Token) : Address * Address * gmap B256 bool * Z * Z * bool :=
  (tok_admin t, tok_pending_admin t, roles t, supply_cap t, tok_policy_id t, paused t).

#[local] Hint Resolve ro_validated ro_require_role ro_require_can_send ro_require_can_receive
  ro_require_can_mint ro_require_not_paused ro_require_unfrozen ro_require_balance
  ro_require_allowance ro_next_recipient ro_domain_separator ro_validate_allowance_update : rudis.

Ltac solve_control :=
  unfold mint_core, burn_core, consume_frozen, spend_allowance, move_balance, require_nonzero,
    require_nonzero_amount, tok_emit, write_approval, write_balance, write_allowance,
    write_frozen; cbv zeta; solve_keeps.

#[local] Hint Resolve ro_read_utf8 ro_has_role ro_read_validated : rudis.

Lemma keeps_approve a b v : keeps control (approve a b v).
Proof. unfold approve. solve_control. Qed.
Lemma keeps_permit env a b v d vv r s : keeps control (permit env a b v d vv r s).
Proof. unfold permit. solve_control. Qed.
Lemma keeps_transfer (reg : R) a b v : keeps control (transfer reg a b v).
Proof. unfold transfer. solve_control. Qed.
Lemma keeps_transfer_from (reg : R) a b c v : keeps control (transfer_from reg a b c v).
Proof. unfold transfer_from. solve_control. Qed.
Lemma keeps_mint (reg : R) a b v : keeps control (mint reg a b v).
Proof. unfold mint. solve_control. Qed.
Lemma keeps_burn a v : keeps control (burn a v).
Proof. unfold burn. solve_control. Qed.
Lemma keeps_burn_from (reg : R) a b v : keeps control (burn_from reg a b v).
Proof. unfold burn_from. solve_control. Qed.
Lemma keeps_forced_transfer (reg : R) a b c v : keeps control (forced_transfer reg a b c v).
Proof. unfold forced_transfer. solve_control. Qed.
Lemma keeps_set_frozen_tokens a b v : keeps control (set_frozen_tokens a b v).
Proof. unfold set_frozen_tokens. solve_control. Qed.
Lemma keeps_with_memo a b v memo m : keeps control m -> keeps control (with_memo a b v memo m).
Proof. intros Hm. unfold with_memo. solve_control. Qed.
#[local] Hint Resolve keeps_approve keeps_permit keeps_transfer keeps_transfer_from keeps_mint
  keeps_burn keeps_burn_from keeps_forced_transfer keeps_set_frozen_tokens keeps_with_memo : rudis.

Lemma ro_name_value : ro (name_value).
Proof. unfold name_value. solve_ro. Qed.
Lemma ro_symbol_value : ro (symbol_value).
Proof. unfold symbol_value. solve_ro. Qed.
Lemma ro_balance_of a : ro (balance_of a).
Proof. unfold balance_of. solve_ro. Qed.
Lemma ro_allowance_of a b : ro (allowance_of a b).
Proof. unfold allowance_of. solve_ro. Qed.
Lemma ro_frozen_tokens a : ro (frozen_tokens a).
Proof. unfold frozen_tokens. solve_ro. Qed.
Lemma ro_token_can_send (reg : R) a : ro (token_can_send reg a).
Proof. unfold token_can_send. solve_ro. Qed.
Lemma ro_token_can_receive (reg : R) a : ro (token_can_receive reg a).
Proof. unfold token_can_receive. solve_ro. Qed.
Lemma ro_can_transfer (reg : R) a b v : ro (can_transfer reg a b v).
Proof. unfold can_transfer. solve_ro. Qed.
#[local] Hint Resolve ro_name_value ro_symbol_value ro_balance_of ro_allowance_of ro_frozen_tokens ro_token_can_send ro_token_can_receive ro_can_transfer
  ro_read_validated ro_has_role ro_read_utf8 keeps_ro : rudis.

(** The authority that each change of the administration needs. *)
Definition control_authority (t : Token) (caller : Address) (t' : Token) : Prop :=
  (tok_admin t' <> tok_admin t ->
     caller = tok_pending_admin t /\ tok_admin t' = caller /\
     tok_pending_admin t' = ZERO_ADDRESS /\ caller <> ZERO_ADDRESS) /\
  (tok_pending_admin t' <> tok_pending_admin t ->
     caller = tok_admin t \/ caller = tok_pending_admin t) /\
  (roles t' <> roles t -> caller = tok_admin t \/ caller = tok_pending_admin t) /\
  (supply_cap t' <> supply_cap t -> has t CAP_MANAGER_ROLE caller) /\
  (tok_policy_id t' <> tok_policy_id t -> has t COMPLIANCE_ROLE caller) /\
  (paused t = false -> paused t' = true -> has t GUARDIAN_ROLE caller) /\
  (paused t = true -> paused t' = false -> caller = tok_admin t).

Lemma control_same t caller t' : control t' = control t -> control_authority t caller t'.
Proof.
  unfold control, control_authority. intros [= -> -> -> -> -> ->]. split_and!; try done; congruence.
Qed.

(** Control changes only with the right authority: the admin is replaced
    only by its pending successor, who accepts; the pending admin and the role
    table change only on behalf of the admin or by that acceptance; cap, policy,
    pausing and unpausing need the cap manager, compliance, guardian and admin
    roles respectively. *)
Theorem control_change_authority env (reg : R) caller value call t res t' :
  token_dispatch env reg caller value call t = (Ok res, t') -> control_authority t caller t'.
Proof.
  intros Hrun. unfold token_dispatch, returns in Hrun. destruct (value =? 0); [simpl in Hrun|by minv].
  assert (Hkeep : forall A B (m : M Token A) (f : A -> B) b, keeps control m ->
    (let! a := m in mret (f a)) t = (Ok b, t') -> control_authority t caller t').
  { intros A B m f b Hk Hm. minv. apply control_same. by apply (keeps_run _ _ _ _ _ Hk) in H. }
  destruct call; try solve
    [ eapply Hkeep; [|exact Hrun];
      unfold transfer_with_memo, transfer_from_with_memo, mint_with_memo, burn_with_memo,
        burn_from_with_memo, forced_transfer_with_memo; eauto 3 with rudis nocore ].
  { minv. by apply control_same. }
  all: clear Hkeep; minv_step; unfold grant_role, revoke_role, begin_admin_transfer,
    cancel_admin_transfer, accept_admin_transfer, pause, unpause, set_supply_cap,
    set_policy_id in *; tinv; try (minv_case; tinv; try by apply control_same).
  all: unfold control_authority; simpl; split_and!; try done; try congruence; auto.
Qed.

Lemma validated_run t : schema_version t = 1 -> validated_schema_version t = (Ok 1, t).
Proof. intros H. unfold validated_schema_version, mbind, gets. by rewrite H. Qed.

Lemma transfer_run (reg : R) from to v t :
  schema_version t = 1 -> paused t = false -> from <> ZERO_ADDRESS -> to <> ZERO_ADDRESS ->
  api_can_send reg (tok_policy_id t) from = Ok true ->
  api_can_receive reg (tok_policy_id t) to = Ok true ->
  v <= (balances t).[from] -> v <= unfrozen (balances t).[from] (frozen t).[from] ->
  (from <> to -> (balances t).[to] + v <= u256_max) ->
  exists t', transfer reg from to v t = (Ok tt, t').
Proof.
  intros Hs Hp Hf Ht Hcs Hcr Hb Hu Hov.
  assert (Hn : exists n, next_recipient from to (balances t).[from] v
    "stablecoin recipient balance overflow" t = (Ok n, t)).
  { unfold next_recipient. destruct (Z.eqb_spec from to) as [|Hne]; [by eexists|].
    eexists. eapply mbind_ok_intro; [reflexivity|]. unfold lift, checked_add.
    by rewrite (proj2 (Z.leb_le _ _) (Hov Hne)). }
  destruct Hn as [n Hn].
  assert (Hm : exists t1, move_balance from to (balances t).[from] n v t = (Ok tt, t1)).
  { unfold move_balance. destruct (negb (from =? to)); by eexists. }
  destruct Hm as [t1 Hm].
  eexists. unfold transfer. eapply mbind_ok_intro; [by apply validated_run|].
  unfold require_not_paused, require_nonzero, require_can_send, require_can_receive,
    require_balance, require_unfrozen.
  eapply mbind_ok_intro; [unfold mbind, gets; by rewrite Hp|].
  eapply mbind_ok_intro; [rewrite (proj2 (Z.eqb_neq _ _) Hf); reflexivity|].
  eapply mbind_ok_intro; [rewrite (proj2 (Z.eqb_neq _ _) Ht); reflexivity|].
  eapply mbind_ok_intro; [unfold mbind, gets, lift; rewrite Hcs; reflexivity|].
  eapply mbind_ok_intro; [unfold mbind, gets, lift; rewrite Hcr; reflexivity|].
  eapply mbind_ok_intro; [unfold mbind, gets; rewrite (proj2 (Z.leb_le _ _) Hb); reflexivity|].
  eapply mbind_ok_intro; [unfold mbind, gets; rewrite (proj2 (Z.leb_le _ _) Hu); reflexivity|].
  eapply mbind_ok_intro; [exact Hn|]. apply with_checkpoint_ok.
  by eapply mbind_ok_intro; [exact Hm|].
Qed.

(** [can_transfer] predicts [transfer]: on a well-formed initialized ledger
    a transfer of an amount the sender holds succeeds exactly when
    [can_transfer] answers true; in particular the recipient balance never
    overflows. *)
Theorem can_transfer_predicts_transfer (reg : R) from to v t :
  token_inv t -> schema_version t = 1 -> 0 <= v ->
  (exists t', transfer reg from to v t = (Ok tt, t')) <->
  can_transfer reg from to v t = (Ok true, t) /\ v <= (balances t).[from].
Proof.
  intros Hinv Hs Hv. pose proof (inv_frozen t Hinv from) as Hf.
  pose proof (inv_balances t Hinv from) as Hb. unfold in_range in Hf.
  destruct (unfrozen_le (balances t).[from] (frozen t).[from]) as [_ Hu]; [lia|done|].
  unfold can_transfer. split.
  - intros [t' Hrun]. unfold transfer in Hrun. tinv. split; [|done].
    eapply mbind_ok_intro; [by apply validated_run|].
    unfold mbind, gets, lift, mret.
    repeat match goal with H : ?x = _ |- context [?x] => rewrite H end.
    destruct (Z.eqb_spec from ZERO_ADDRESS), (Z.eqb_spec to ZERO_ADDRESS); try done. simpl.
    repeat match goal with H : ?x = _ |- context [?x] => rewrite H end. simpl.
    do 2 f_equal. apply orb_true_iff. right. by apply Z.leb_le.
  - intros [Hcan Hle]. minv. tinv.
    destruct (paused t || (from =? ZERO_ADDRESS) || (to =? ZERO_ADDRESS)) eqn:Hg; minv; [done|].
    repeat (match goal with H : (if negb ?b then _ else _) _ = _ |- _ => destruct b end;
      simpl in *; minv; try done).
    match goal with H : true = _ |- _ => symmetry in H end. bprop.
    apply transfer_run; try done.
    + match goal with H : _ \/ _ |- _ => destruct H; bprop; lia end.
    + intros Hne. pose proof (map_sum_le2 (balances t) from to Hne (inv_balances t Hinv)).
      destruct Hinv as [_ _ _ Hsum Hcap Hr]. unfold in_range in Hr. lia.
Qed.

Definition separator_of (env : TokenEnv) (t : Token) : B256 :=
  keccak256 (abi_encode [EIP712_DOMAIN_TYPEHASH; keccak256 (tok_name t); EIP712_VERSION_HASH;
                         env_chain_id env; env_self env]).

(** A permit that succeeds was signed by the owner over exactly these terms
    with the owner's current nonce, is not expired, and consumes that nonce: the
    owner's nonce advances by one, so the digest of the same terms changes; it
    sets only that one allowance, never raises it while the owner has frozen
    tokens, and moves no balance. *)
Theorem permit_consumes_nonce env owner spender value deadline v r s t u t' :
  permit env owner spender value deadline v r s t = (Ok u, t') ->
  env_timestamp env <= deadline /\
  recover_permit_signer (permit_digest (separator_of env t) owner spender value
    (nonces t).[owner] deadline) v r s = Ok owner /\
  (forall a, (nonces t').[a] = if decide (a = owner) then (nonces t).[a] + 1 else (nonces t).[a]) /\
  (forall k, (allowances t').[k] = if decide (k = allowance_key owner spender) then value
                                   else (allowances t).[k]) /\
  ((frozen t).[owner] <> 0 -> value <= (allowances t).[allowance_key owner spender]) /\
  balances t' = balances t /\ control t' = control t.
Proof.
  intros Hrun. unfold permit, validate_allowance_update, domain_separator in Hrun. tinv. subst.
  split_and!; try done.
  - simpl. intros a. case_decide; subst; mcase; done.
  - simpl. intros k. case_decide; subst; mcase; done.
  - match goal with H : _ \/ _ |- _ => destruct H; bprop; [|done] end. done.
Qed.
End Theorems.

(** * Witnesses *)

Lemma token_supply_invariant_witness :
  total_supply demo_token = 500 /\
  total_supply demo_token = map_sum (balances demo_token) /\
  (forall a, 0 <= (balances demo_token).[a]) /\
  total_supply demo_token <= supply_cap demo_token <= u256_max.
Proof.
  split; [vm_compute; reflexivity|].
  exact (token_supply_invariant demo_token demo_token_reachable).
Defined.

Lemma token_call_atomic_witness :
  snd (demo_call 200 (c_transfer 300 450) demo_token) = demo_token.
Proof.
  apply (token_call_atomic (CR := demo_crypto) demo_env empty_registry 200 0 (c_transfer 300 450)
    demo_token (fst (demo_call 200 (c_transfer 300 450) demo_token))).
  - apply surjective_pairing.
  - intros r. vm_compute. discriminate.
Defined.

Definition demo_paused : Token := snd (demo_call 161 c_pause demo_token).

Lemma demo_paused_ok :
  fst (demo_call 200 (c_approve 300 40) demo_paused) = Ok (TBool true).
Proof. vm_compute. reflexivity. Qed.

Lemma paused_blocks_movement_witness :
  balances (snd (demo_call 200 (c_approve 300 40) demo_paused)) = balances demo_paused /\
  total_supply (snd (demo_call 200 (c_approve 300 40) demo_paused)) = total_supply demo_paused.
Proof.
  apply (paused_blocks_movement (CR := demo_crypto) demo_env empty_registry 200 0
    (c_approve 300 40) demo_paused (TBool true)).
  - apply demo_step; [apply demo_token_reachable|constructor].
  - repeat constructor; vm_compute; discriminate.
  - vm_compute. reflexivity.
  - rewrite <- demo_paused_ok. apply surjective_pairing.
Defined.

Lemma demo_has_decrease :
  fst (demo_call 300 (c_transferFrom 200 400 30) demo_token) = Ok (TBool true) /\
  (balances (snd (demo_call 300 (c_transferFrom 200 400 30) demo_token))).[200]
    < (balances demo_token).[200].
Proof. split; vm_compute; reflexivity. Qed.

Lemma balance_decrease_authority_witness :
  300 = 200 \/ has (CR := demo_crypto) demo_token ENFORCER_ROLE 300 \/
  spent (CR := demo_crypto) demo_token (snd (demo_call 300 (c_transferFrom 200 400 30) demo_token))
    200 300 ((balances demo_token).[200] -
      (balances (snd (demo_call 300 (c_transferFrom 200 400 30) demo_token))).[200]).
Proof.
  apply (balance_decrease_authority (CR := demo_crypto) demo_env empty_registry 300 0
    (c_transferFrom 200 400 30) demo_token (TBool true)).
  - apply demo_token_reachable.
  - repeat constructor; vm_compute; discriminate.
  - rewrite <- (proj1 demo_has_decrease). apply surjective_pairing.
  - apply demo_has_decrease.
Defined.

Lemma frozen_amount_held_witness :
  ((frozen demo_token).[200] <=
     (balances (snd (demo_call 300 (c_transferFrom 200 400 30) demo_token))).[200] /\
   frozen (snd (demo_call 300 (c_transferFrom 200 400 30) demo_token)) = frozen demo_token) \/
  ((has (CR := demo_crypto) demo_token ENFORCER_ROLE 300 \/
    (300 = 200 /\ has (CR := demo_crypto) demo_token ISSUER_ROLE 300)) /\
   froze demo_token (snd (demo_call 300 (c_transferFrom 200 400 30) demo_token)) 200
     ((balances demo_token).[200] -
      (balances (snd (demo_call 300 (c_transferFrom 200 400 30) demo_token))).[200])).
Proof.
  apply (frozen_amount_held (CR := demo_crypto) demo_env empty_registry 300 0
    (c_transferFrom 200 400 30) demo_token (TBool true)).
  - apply demo_token_reachable.
  - repeat constructor; vm_compute; discriminate.
  - rewrite <- (proj1 demo_has_decrease). apply surjective_pairing.
  - apply demo_has_decrease.
Defined.

Lemma demo_mint_ok :
  fst (demo_call 161 (c_mint 300 7) demo_token) = Ok (TBool true) /\
  total_supply demo_token < total_supply (snd (demo_call 161 (c_mint 300 7) demo_token)).
Proof. split; vm_compute; reflexivity. Qed.

Lemma supply_growth_authority_witness :
  has (CR := demo_crypto) demo_token ISSUER_ROLE 161 /\
  total_supply (snd (demo_call 161 (c_mint 300 7) demo_token)) <= supply_cap demo_token /\
  paused demo_token = false.
Proof.
  apply (supply_growth_authority (CR := demo_crypto) demo_env empty_registry 161 0 (c_mint 300 7)
    demo_token (TBool true)).
  - apply demo_token_reachable.
  - repeat constructor; vm_compute; discriminate.
  - rewrite <- (proj1 demo_mint_ok). apply surjective_pairing.
  - apply demo_mint_ok.
Defined.

Definition demo_pending : Token := snd (demo_call 161 (c_beginAdminTransfer 170) demo_token).

Lemma demo_accept_ok : fst (demo_call 170 c_acceptAdminTransfer demo_pending) = Ok TVoid.
Proof. vm_compute. reflexivity. Qed.

Lemma control_change_authority_witness :
  control_authority (CR := demo_crypto) demo_pending 170
    (snd (demo_call 170 c_acceptAdminTransfer demo_pending)) /\
  tok_admin (snd (demo_call 170 c_acceptAdminTransfer demo_pending)) = 170.
Proof.
  split; [|vm_compute; reflexivity].
  apply (control_change_authority (CR := demo_crypto) demo_env empty_registry 170 0
    c_acceptAdminTransfer demo_pending TVoid).
  rewrite <- demo_accept_ok. apply surjective_pairing.
Defined.

Lemma can_transfer_predicts_transfer_witness :
  (exists t', transfer empty_registry 200 300 400 demo_token = (Ok tt, t')) <->
  can_transfer empty_registry 200 300 400 demo_token = (Ok true, demo_token) /\
  400 <= (balances demo_token).[200].
Proof.
  apply (can_transfer_predicts_transfer empty_registry 200 300 400 demo_token).
  - apply (@token_reachable_inv PolicyRegistry PolicyApi_registry demo_crypto), demo_token_reachable.
  - vm_compute. reflexivity.
  - discriminate.
Defined.

Lemma demo_permit_ok :
  fst (permit (CR := demo_crypto) demo_env 200 300 20 1000 27 200 5 demo_token) = Ok tt.
Proof. vm_compute. reflexivity. Qed.

Lemma permit_consumes_nonce_witness :
  let t' := snd (permit (CR := demo_crypto) demo_env 200 300 20 1000 27 200 5 demo_token) in
  (nonces demo_token).[200] = 0 /\ (nonces t').[200] = 1.
Proof.
  destruct (permit_consumes_nonce (CR := demo_crypto) demo_env 200 300 20 1000 27 200 5 demo_token tt
    (snd (permit (CR := demo_crypto) demo_env 200 300 20 1000 27 200 5 demo_token)))
    as (_ & _ & Hn & _).
  - rewrite <- demo_permit_ok. apply surjective_pairing.
  - split; [vm_compute; reflexivity|]. rewrite Hn. vm_compute. reflexivity.
Defined.
