(* ===== verification/Vote.v ===== *)
(** The Vote precompile ([crates/system/vote/src]): proposals with their bonds,
    validator votes, the tally at the end of the voting window and the dispatch
    of its outcome to the target module that the proposal names.

    [schema.rs], [state.rs], [runtime.rs], [handlers.rs], [notify.rs],
    [errors.rs], [constants.rs], [api.rs], [lifecycle.rs] and [precompile.rs].

    [Vote] is the storage of the contract, one field per slot group of the
    schema, with the event log. The contract runs in a [World]: its storage, the
    validator registry it reads, the native balances its bonds live in, and the
    storage [T] of the target modules. A target module (the trait [VoteTarget])
    is a record of operations on that world. A [String] is the list of its
    UTF-8 bytes; a call is its decoded ABI form. The ids and amounts that three of
    the [Fatal] messages print are left out of the message. *)

From S2P Require Import Prelude Bytes P2pAddress Native Lifecycle ValidatorSet Containers.

(** * Constants *)

Definition QUORUM_NUMERATOR : Z := 2.
Definition QUORUM_DENOMINATOR : Z := 3.
Definition MAX_PENDING_PROPOSALS : Z := 64.
Definition MAX_PENDING_PROPOSALS_PER_VALIDATOR : Z := 1.
Definition MAX_PAGE_SIZE : Z := 100.
Definition MAX_PENDING_PUBLIC_BONDED_PROPOSALS : Z := 16.
Definition VOTE_ADDRESS : Address := 0xEE0C.

(** [get_governance_voting_window_blocks], a parameter of the genesis. *)
Class VotingWindow := voting_window_blocks : Z.

(** * Data (schema.rs) *)

Inductive ProposalStatus : Type := Pending | Approved | Rejected | Expired | Error.
#[global] Instance ProposalStatus_eq_dec : EqDecision ProposalStatus.
Proof. solve_decision. Defined.

Inductive BondSettlement : Type := NoBond | Unsettled | Refunded | Burned.
#[global] Instance BondSettlement_eq_dec : EqDecision BondSettlement.
Proof. solve_decision. Defined.

Inductive VoteKind : Type := No | Yes.

Record ProposalRecord : Type := MkProposal {
  pr_id : Z;
  pr_proposer : Address;
  pr_target_module : Address;
  pr_payload : list Z;
  pr_created_height : Z;
  pr_voting_deadline_height : Z;
  pr_status : Z;
}.
#[global] Instance Eta_ProposalRecord : Eta ProposalRecord := fun p =>
  MkProposal (pr_id p) (pr_proposer p) (pr_target_module p) (pr_payload p)
    (pr_created_height p) (pr_voting_deadline_height p) (pr_status p).

Record VoteRecord : Type := MkVoteRecord {
  vr_voter : Address;
  vr_vote_kind : Z;
  vr_block_number : Z;
}.

Inductive VoteEvent : Type :=
  | ProposalCreated (proposal_id : Z) (proposer target_module : Address) (payload : list Z)
      (voting_deadline_height : Z)
  | VoteCast (proposal_id : Z) (validator : Address) (approve : bool)
  | ProposalBondEscrowed (proposal_id : Z) (owner : Address) (amount : Z)
  | ProposalBondRefunded (proposal_id : Z) (owner : Address) (amount : Z)
  | ProposalBondBurned (proposal_id : Z) (owner : Address) (amount : Z)
  | ProposalApproved (proposal_id yes no : Z)
  | ProposalExpired (proposal_id yes no : Z)
  | ProposalErrored (proposal_id yes no : Z).

Record Vote : Type := MkVote {
  proposal_count : Z;
  pending_proposal_ids : StorageVec;
  proposals : gmap Z ProposalRecord;
  votes_map : gmap B256 Z;
  proposal_voters : gmap Z StorageVec;
  proposal_bond_amount : gmap Z Z;
  proposal_bond_settlement : gmap Z Z;
  unsettled_bond_liabilities : Z;
  vote_events : list VoteEvent;
}.
#[global] Instance Eta_Vote : Eta Vote := fun v =>
  MkVote (proposal_count v) (pending_proposal_ids v) (proposals v) (votes_map v)
    (proposal_voters v) (proposal_bond_amount v) (proposal_bond_settlement v)
    (unsettled_bond_liabilities v) (vote_events v).

Definition empty_vec : StorageVec := MkStorageVec 0 ∅.
Definition empty_vote : Vote := MkVote 0 empty_vec ∅ ∅ ∅ ∅ ∅ 0 [].

(** ** Errors *)

Definition NotValidator := Revert "caller is not an active validator".
Definition ProposalNotFound := Revert "proposal not found".
Definition NotPending := Revert "proposal is not pending".
Definition VotingClosed := Revert "proposal voting window is closed".
Definition AlreadyVoted := Revert "validator has already voted on proposal".
Definition TooManyPending := Revert "too many pending proposals".
Definition TooManyPendingByValidator := Revert "validator has too many pending proposals".
Definition TooManyPendingPublicBonded := Revert "too many pending public bonded proposals".
Definition TooManyPendingPublicBondedByProposer :=
  Revert "proposer already has a pending public bonded proposal".
Definition InvalidProposalStatus := Revert "invalid proposal status".
Definition InvalidVoteKind := Revert "invalid vote kind".
Definition InvalidBondSettlement := Fatal "invalid proposal bond settlement".
Definition ProposalCounterExhausted := Revert "proposal counter is exhausted".
Definition InvalidBondAmount := Revert "proposal bond amount must be nonzero".
Definition ProposalBondAlreadyRecorded := Revert "proposal bond is already recorded".
Definition ProposalBondNotUnsettled := Revert "proposal bond is not unsettled".
Definition BondLiabilityOverflow := Fatal "proposal bond liability overflow".
Definition BondLiabilityUnderflow := Fatal "proposal bond liability underflow".
Definition InvalidProposalBond (expected actual : Z) :=
  RevertBytes "InvalidProposalBond" [expected; actual].
Definition BondLiabilityInvariant := Fatal "proposal bond liabilities exceed Vote balance".
Definition UnknownTargetModule := Revert "unknown vote target module".
Definition DuplicateTargetModule := Revert "duplicate vote target module handler".

(** ** Encodings *)

Definition bond_settlement_from_u8 (value : Z) : result BondSettlement :=
  if value =? 0 then Ok NoBond
  else if value =? 1 then Ok Unsettled
  else if value =? 2 then Ok Refunded
  else if value =? 3 then Ok Burned
  else Err InvalidBondSettlement.
Definition bond_settlement_to_u8 (s : BondSettlement) : Z :=
  match s with NoBond => 0 | Unsettled => 1 | Refunded => 2 | Burned => 3 end.

Definition proposal_status_from_u8 (value : Z) : result ProposalStatus :=
  if value =? 0 then Ok Pending
  else if value =? 1 then Ok Approved
  else if value =? 2 then Ok Rejected
  else if value =? 3 then Ok Expired
  else if value =? 4 then Ok Error
  else Err InvalidProposalStatus.
Definition proposal_status_to_u8 (s : ProposalStatus) : Z :=
  match s with Pending => 0 | Approved => 1 | Rejected => 2 | Expired => 3 | Error => 4 end.
Definition is_terminal (s : ProposalStatus) : bool :=
  match s with Approved | Rejected | Expired => true | Pending | Error => false end.

Definition vote_kind_from_u8 (value : Z) : result VoteKind :=
  if value =? 0 then Ok No else if value =? 1 then Ok Yes else Err InvalidVoteKind.
Definition vote_kind_to_u8 (k : VoteKind) : Z := match k with No => 0 | Yes => 1 end.
Definition from_approve (approve : bool) : VoteKind := if approve then Yes else No.
Definition to_approve (k : VoteKind) : bool := match k with Yes => true | No => false end.

Definition proposal_status (p : ProposalRecord) : result ProposalStatus :=
  proposal_status_from_u8 (pr_status p).

(** [Storable for VoteRecord]: voter, kind and block number from the left of
    one word, three zero bytes on the right. *)
Definition vote_from_word (word : Z) : VoteRecord :=
  let bytes := be_bytes 32 word in
  MkVoteRecord (be_value (take 20 bytes)) (be_value (take 1 (drop 20 bytes)))
    (be_value (take 8 (drop 21 bytes))).
Definition vote_to_word (v : VoteRecord) : Z :=
  be_value (be_bytes 20 (vr_voter v) ++ [vr_vote_kind v] ++ be_bytes 8 (vr_block_number v)
            ++ [0; 0; 0]).

(** * The world of a Vote call *)

Record World (T : Type) : Type := MkWorld {
  w_vote : Vote;
  w_validators : ValidatorSet;
  w_native : gmap Address Z;
  w_target : T;
}.
Arguments MkWorld {T}.
Arguments w_vote {T}.
Arguments w_validators {T}.
Arguments w_native {T}.
Arguments w_target {T}.
#[global] Instance Eta_World {T} : Eta (World T) := fun w =>
  MkWorld (w_vote w) (w_validators w) (w_native w) (w_target w).

#[global] Instance World_native {T} : Native (World T) := {|
  native_of := w_native; set_native := fun n w => w <| w_native := n |> |}.
#[global] Instance World_native_laws {T} : NativeLaws (World T).
Proof. split; [done|by intros []]. Qed.

(** * Target modules (handlers.rs) *)

Inductive TargetAdmission : Type :=
  | ActiveValidatorOnly
  | PublicBonded (amount : Z).

Record VoteTargetContext : Type := MkContext {
  tc_proposer : Address;
  tc_attached_value : Z;
  tc_block_number : Z;
  tc_chain_id : Z;
}.

(** [Error { reason }]: the reason is the error the target renders. *)
Inductive TargetExecutionOutcome : Type :=
  | Applied
  | ExecutionError (reason : PrecompileError).

(** The trait [VoteTarget]. *)
Record VoteTarget (T : Type) : Type := MkVoteTarget {
  target_module : Address;
  admission : TargetAdmission;
  target_validate : list Z -> VoteTargetContext -> result unit;
  target_reserve : Env -> Z -> list Z -> VoteTargetContext -> M (World T) unit;
  target_handle_tally : Env -> Z -> list Z -> VoteTargetContext -> ProposalStatus ->
    M (World T) TargetExecutionOutcome;
}.
Arguments MkVoteTarget {T}.
Arguments target_module {T}.
Arguments admission {T}.
Arguments target_validate {T}.
Arguments target_reserve {T}.
Arguments target_handle_tally {T}.

(** The provided method [handle_tally]. *)
Definition default_handle_tally {T} (handle_approved : Env -> Z -> list Z -> VoteTargetContext ->
    M (World T) TargetExecutionOutcome) (env : Env) (proposal_id : Z) (payload : list Z)
    (context : VoteTargetContext) (status : ProposalStatus) : M (World T) TargetExecutionOutcome :=
  match status with
  | Approved => handle_approved env proposal_id payload context
  | Rejected | Expired | Pending | Error => mret Applied
  end.

Definition registry_lookup {T} (registry : list (VoteTarget T)) (target : Address) :
    result (VoteTarget T) :=
  match List.filter (fun handler => target_module handler =? target) registry with
  | [] => Err UnknownTargetModule
  | [first] => Ok first
  | _ :: _ :: _ => Err DuplicateTargetModule
  end.

(** The target's checkpoint: its writes stay only when it applied. *)
Definition target_checkpoint {S} (m : M S TargetExecutionOutcome) : M S TargetExecutionOutcome :=
  fun s => match m s with
           | (Ok Applied, s') => (Ok Applied, s')
           | (r, _) => (r, s)
           end.

Section Contract.
Context {T : Type} `{X : Externals} `{K : Keccak} `{W : VotingWindow}.
Abbreviation VW := (M (World T)).

Definition on_vote {A} (m : M Vote A) : VW A := zoom w_vote (fun v w => w <| w_vote := v |>) m.
Definition on_pending {A} (m : M StorageVec A) : M Vote A :=
  zoom pending_proposal_ids (fun l v => v <| pending_proposal_ids := l |>) m.
Definition voters_of (v : Vote) (proposal_id : Z) : StorageVec :=
  default empty_vec (proposal_voters v !! proposal_id).
Definition on_voters {A} (proposal_id : Z) (m : M StorageVec A) : M Vote A :=
  zoom (fun v => voters_of v proposal_id)
       (fun l v => v <| proposal_voters := <[proposal_id := l]> (proposal_voters v) |>) m.
(** A read-only access to the votes of a proposal. *)
Definition ask_voters {A} (proposal_id : Z) (m : M StorageVec A) : M Vote A :=
  reads (fun v => fst (m (voters_of v proposal_id))).

Definition vote_emit (e : VoteEvent) : M Vote unit :=
  modify (fun v => v <| vote_events := vote_events v ++ [e] |>).

(** [Map<U256, ProposalRecord>]: a record is present when its proposer is not
    zero. *)
Definition get_record (v : Vote) (proposal_id : Z) : option ProposalRecord :=
  match proposals v !! proposal_id with
  | Some p => if pr_proposer p =? 0 then None else Some p
  | None => None
  end.
Definition proposals_write (p : ProposalRecord) : M Vote unit :=
  modify (fun v => v <| proposals := <[pr_id p := p]> (proposals v) |>).
Definition proposals_create (p : ProposalRecord) : M Vote unit :=
  let! present := gets (fun v => get_record v (pr_id p)) in
  require (negb (bool_decide (is_Some present))) (Revert "ProposalRecord already exists") ;;;
  proposals_write p.
Definition proposals_update (p : ProposalRecord) : M Vote unit :=
  let! present := gets (fun v => get_record v (pr_id p)) in
  require (bool_decide (is_Some present)) (Revert "ProposalRecord not found") ;;;
  proposals_write p.
Definition required_record (proposal_id : Z) : M Vote ProposalRecord :=
  let! record := gets (fun v => get_record v proposal_id) in
  lift (ok_or record ProposalNotFound).

(** * Proposal and vote records (state.rs) *)

Definition vote_key (proposal_id : Z) (voter : Address) : B256 :=
  keccak256 (be_bytes 32 proposal_id ++ be_bytes 20 voter).

Record VoteTally : Type := MkTally { tally_yes : Z; tally_no : Z }.

Record ProposalInfo : Type := MkProposalInfo {
  pi_id : Z;
  pi_proposer : Address;
  pi_target_module : Address;
  pi_payload : list Z;
  pi_created_height : Z;
  pi_voting_deadline_height : Z;
  pi_status : ProposalStatus;
  pi_state : VoteTally;
  pi_voters_count : Z;
}.

Record ProposalBond : Type := MkBond { bond_amount : Z; bond_settlement : BondSettlement }.

Record VoteInfo : Type := MkVoteInfo {
  vi_proposal_id : Z;
  vi_voter : Address;
  vi_vote_kind : VoteKind;
  vi_block_number : Z;
}.

Definition into_vote_info (v : VoteRecord) (proposal_id : Z) : result VoteInfo :=
  let? kind := vote_kind_from_u8 (vr_vote_kind v) in
  Ok (MkVoteInfo proposal_id (vr_voter v) kind (vr_block_number v)).

Definition active_validator_addresses (s : ValidatorSet) : result (list Address) :=
  let? records := get_active_validators s in
  Ok (vr_address <$> records).

Definition is_active_validator (voter : Address) (active : list Address) : bool :=
  bool_decide (voter ∈ active).

Definition clamp_page (index count : Z) : Z * Z :=
  (Z.min index u64_max, Z.min (Z.min count u64_max) MAX_PAGE_SIZE).

(** The loop over the votes, with the two counters. *)
Fixpoint tally_votes (active : list Address) (votes : list VoteRecord) (yes no : Z) :
    result VoteTally :=
  match votes with
  | [] => Ok (MkTally yes no)
  | vote :: rest =>
      if negb (is_active_validator (vr_voter vote) active) then tally_votes active rest yes no
      else
        let? kind := vote_kind_from_u8 (vr_vote_kind vote) in
        match kind with
        | Yes => tally_votes active rest (wrapping_add u64_max yes 1) no
        | No => tally_votes active rest yes (wrapping_add u64_max no 1)
        end
  end.

Definition calculate_vote_tally (p : ProposalRecord) (active : list Address) : M Vote VoteTally :=
  let! words := ask_voters (pr_id p) vec_read_all in
  lift (tally_votes active (vote_from_word <$> words) 0 0).

Definition peek_next_proposal_id : M Vote Z :=
  let! current := gets proposal_count in
  lift (ok_or (checked_add u256_max current 1) ProposalCounterExhausted).

Definition proposal_exists (v : Vote) (proposal_id : Z) : bool :=
  negb (proposal_id =? 0) && (proposal_id <=? proposal_count v).

Definition get_proposal (proposal_id : Z) : VW (option ProposalInfo) :=
  let! allocated := gets (fun w => proposal_exists (w_vote w) proposal_id) in
  if negb allocated then mret None
  else
    let! found := gets (fun w => get_record (w_vote w) proposal_id) in
    match found with
    | None => mret None
    | Some record =>
        let! active := reads (fun w => active_validator_addresses (w_validators w)) in
        let! state := on_vote (calculate_vote_tally record active) in
        let! status := lift (proposal_status record) in
        let! voters_count := on_vote (ask_voters proposal_id vec_len) in
        mret (Some (MkProposalInfo (pr_id record) (pr_proposer record) (pr_target_module record)
                      (pr_payload record) (pr_created_height record)
                      (pr_voting_deadline_height record) status state voters_count))
    end.

Definition proposal_bond (proposal_id : Z) : M Vote ProposalBond :=
  let! _ := required_record proposal_id in
  let! stored := gets (fun v => (proposal_bond_settlement v).[proposal_id]) in
  let! settlement := lift (bond_settlement_from_u8 stored) in
  let! amount := gets (fun v => (proposal_bond_amount v).[proposal_id]) in
  let valid_pair := match settlement with
                    | NoBond => amount =? 0
                    | Unsettled | Refunded | Burned => negb (amount =? 0)
                    end in
  require valid_pair (Fatal "proposal has inconsistent bond amount and settlement") ;;;
  mret (MkBond amount settlement).

Definition bond_liabilities : M Vote Z := gets unsettled_bond_liabilities.

Definition record_proposal_bond (proposal_id amount : Z) : M Vote unit :=
  require (negb (amount =? 0)) InvalidBondAmount ;;;
  with_checkpoint (
    let! _ := required_record proposal_id in
    let! stored := gets (fun v => (proposal_bond_settlement v).[proposal_id]) in
    let! settlement := lift (bond_settlement_from_u8 stored) in
    let! recorded := gets (fun v => (proposal_bond_amount v).[proposal_id]) in
    require (bool_decide (settlement = NoBond) && (recorded =? 0)) ProposalBondAlreadyRecorded ;;;
    let! current := gets unsettled_bond_liabilities in
    let! liabilities := lift (ok_or (checked_add u256_max current amount) BondLiabilityOverflow) in
    modify (fun v => v <| proposal_bond_amount :=
                       (proposal_bond_amount v).[proposal_id <- amount] |>) ;;;
    modify (fun v => v <| proposal_bond_settlement :=
                       (proposal_bond_settlement v).[proposal_id <- bond_settlement_to_u8 Unsettled] |>) ;;;
    modify (fun v => v <| unsettled_bond_liabilities := liabilities |>)).

Definition settle_proposal_bond_accounting (proposal_id : Z) (settlement : BondSettlement) :
    M Vote Z :=
  require (match settlement with Refunded | Burned => true | _ => false end)
    InvalidBondSettlement ;;;
  with_checkpoint (
    let! _ := required_record proposal_id in
    let! amount := gets (fun v => (proposal_bond_amount v).[proposal_id]) in
    let! stored := gets (fun v => (proposal_bond_settlement v).[proposal_id]) in
    let! current := lift (bond_settlement_from_u8 stored) in
    require (bool_decide (current = Unsettled) && negb (amount =? 0)) ProposalBondNotUnsettled ;;;
    let! total := gets unsettled_bond_liabilities in
    let! liabilities := lift (ok_or (checked_sub total amount) BondLiabilityUnderflow) in
    modify (fun v => v <| proposal_bond_settlement :=
                       (proposal_bond_settlement v).[proposal_id <- bond_settlement_to_u8 settlement] |>) ;;;
    modify (fun v => v <| unsettled_bond_liabilities := liabilities |>) ;;;
    mret amount).

Definition read_vote (proposal_id : Z) (voter : Address) : M Vote (option VoteInfo) :=
  let! position := gets (fun v => (votes_map v).[vote_key proposal_id voter]) in
  if position =? 0 then mret None
  else
    let! found := ask_voters proposal_id (vec_get (position - 1)) in
    match found with
    | None => mret None
    | Some word =>
        let! info := lift (into_vote_info (vote_from_word word) proposal_id) in
        mret (Some info)
    end.

(** A page: the positions [index], [index + 1], ... until [len]. *)
Fixpoint page_loop {A} (len : Z) (item : Z -> M Vote (option A)) (positions : list Z) :
    M Vote (list A) :=
  match positions with
  | [] => mret []
  | pos :: rest =>
      if len <=? pos then mret []
      else
        let! found := item pos in
        let! page := page_loop len item rest in
        mret (match found with Some a => a :: page | None => page end)
  end.
Definition page_positions (index count : Z) : list Z :=
  wrapping_add u64_max index <$> seqZ 0 count.

Definition read_proposal_voters_page (proposal_id index count : Z) : M Vote (list Address) :=
  let! _ := required_record proposal_id in
  let '(index, count) := clamp_page index count in
  let! len := ask_voters proposal_id vec_len in
  page_loop len (fun pos =>
    let! word := ask_voters proposal_id (vec_get (pos mod 2 ^ 32)) in
    mret ((fun w => vr_voter (vote_from_word w)) <$> word)) (page_positions index count).

Definition read_proposal_voters (proposal_id : Z) : M Vote (list Address) :=
  let! _ := required_record proposal_id in
  let! words := ask_voters proposal_id vec_read_all in
  mret ((fun w => vr_voter (vote_from_word w)) <$> words).

Definition list_proposals (index count : Z) : M Vote (list Z) :=
  let! stored := gets proposal_count in
  let total := Z.min stored u64_max in
  let '(index, count) := clamp_page index count in
  page_loop total (fun pos => mret (Some (wrapping_add u64_max pos 1)))
    (page_positions index count).

Fixpoint proposals_with_status (status : ProposalStatus) (ids : list Z) : M Vote (list Z) :=
  match ids with
  | [] => mret []
  | proposal_id :: rest =>
      let! found := gets (fun v => get_record v proposal_id) in
      match found with
      | None => proposals_with_status status rest
      | Some record =>
          let! current := lift (proposal_status record) in
          let! matched := proposals_with_status status rest in
          mret (if bool_decide (current = status) then proposal_id :: matched else matched)
      end
  end.

Definition list_proposals_by_status (status : ProposalStatus) (index count : Z) : M Vote (list Z) :=
  let! stored := gets proposal_count in
  let total := Z.min stored u64_max in
  let '(start_index, page_size) := clamp_page index count in
  let! matched := proposals_with_status status (seqZ 1 total) in
  mret (take (Z.to_nat page_size) (drop (Z.to_nat start_index) matched)).

Definition list_pending_proposal_ids : M Vote (list Z) := on_pending vec_read_all.

Fixpoint count_by_proposer (v : Vote) (who : Address) (ids : list Z) (count : Z) : Z :=
  match ids with
  | [] => count
  | proposal_id :: rest =>
      match get_record v proposal_id with
      | None => count_by_proposer v who rest count
      | Some record =>
          count_by_proposer v who rest
            (if pr_proposer record =? who then saturating_add u32_max count 1 else count)
      end
  end.

Definition pending_proposal_count_by_proposer (who : Address) : M Vote Z :=
  let! ids := list_pending_proposal_ids in
  gets (fun v => count_by_proposer v who ids 0).

Definition write_proposal (proposer target : Address) (payload : list Z)
    (created_height voting_deadline_height : Z) (status : ProposalStatus) : M Vote Z :=
  let! proposal_id := peek_next_proposal_id in
  modify (fun v => v <| proposal_count := proposal_id |>) ;;;
  proposals_create (MkProposal proposal_id proposer target payload created_height
                      voting_deadline_height (proposal_status_to_u8 status)) ;;;
  (if bool_decide (status = Pending) then on_pending (vec_push proposal_id) else mret tt) ;;;
  mret proposal_id.

Definition write_vote (proposal_id : Z) (voter : Address) (kind : VoteKind) (block_number : Z) :
    M Vote unit :=
  let key := vote_key proposal_id voter in
  let! _ := required_record proposal_id in
  let! index := ask_voters proposal_id vec_len in
  on_voters proposal_id
    (vec_push (vote_to_word (MkVoteRecord voter (vote_kind_to_u8 kind) block_number))) ;;;
  modify (fun v => v <| votes_map := (votes_map v).[key <- wrapping_add u32_max index 1] |>).

Definition remove_pending_proposal_id (proposal_id : Z) : M Vote unit :=
  let! ids := on_pending vec_read_all in
  match list_find (fun p => p = proposal_id) ids with
  | None => mret tt
  | Some (removed_idx, _) =>
      let len := length ids in
      (if bool_decide (removed_idx = (len - 1)%nat) then mret tt
       else
         let! last := on_pending (vec_get (Z.of_nat len - 1)) in
         on_pending (vec_set (Z.of_nat removed_idx) (default 0 last))) ;;;
      let! _ := on_pending vec_pop in
      mret tt
  end.

Definition unsettled (s : ProposalStatus) : bool :=
  match s with Pending | Error => true | _ => false end.

Definition set_proposal_status (proposal_id : Z) (new_status : ProposalStatus) : M Vote unit :=
  let! proposal := required_record proposal_id in
  let! old_status := lift (proposal_status proposal) in
  if bool_decide (old_status = new_status) then mret tt
  else
    proposals_update (proposal <| pr_status := proposal_status_to_u8 new_status |>) ;;;
    (if unsettled old_status && negb (unsettled new_status)
     then remove_pending_proposal_id proposal_id else mret tt) ;;;
    (if negb (unsettled old_status) && unsettled new_status
     then on_pending (vec_push proposal_id) else mret tt).

(** * Proposals, votes and the tally (runtime.rs) *)

Definition ensure_active_validator (caller : Address) : VW unit :=
  let! l := reads (fun w => validator_lifecycle (w_validators w) caller) in
  require (is_active_status l) NotValidator.

Definition ensure_voting_validator (caller : Address) : VW unit :=
  let! l := reads (fun w => validator_lifecycle (w_validators w) caller) in
  require (is_active_status l || is_pending l) NotValidator.

Definition quorum_reached (yes_votes active_validator_count : Z) : bool :=
  if active_validator_count =? 0 then false
  else active_validator_count * QUORUM_NUMERATOR <=? yes_votes * QUORUM_DENOMINATOR.

Definition is_public_bonded (a : TargetAdmission) : bool :=
  match a with PublicBonded _ => true | ActiveValidatorOnly => false end.

Fixpoint count_public_bonded (registry : list (VoteTarget T)) (who : Address) (ids : list Z)
    (total by_proposer : Z) : M Vote (Z * Z) :=
  match ids with
  | [] => mret (total, by_proposer)
  | proposal_id :: rest =>
      let! proposal := required_record proposal_id in
      let! target := lift (registry_lookup registry (pr_target_module proposal)) in
      if is_public_bonded (admission target) then
        count_public_bonded registry who rest (saturating_add u32_max total 1)
          (if pr_proposer proposal =? who then saturating_add u32_max by_proposer 1
           else by_proposer)
      else count_public_bonded registry who rest total by_proposer
  end.

Definition pending_public_bonded_counts (registry : list (VoteTarget T)) (who : Address) :
    M Vote (Z * Z) :=
  let! ids := list_pending_proposal_ids in
  count_public_bonded registry who ids 0 0.

Definition validate_target_payload (registry : list (VoteTarget T)) (target : Address)
    (payload : list Z) (context : VoteTargetContext) : result unit :=
  let? t := registry_lookup registry target in
  target_validate t payload context.

Definition reserve_target_proposal (registry : list (VoteTarget T)) (env : Env) (target : Address)
    (proposal_id : Z) (payload : list Z) (context : VoteTargetContext) : VW unit :=
  let! t := lift (registry_lookup registry target) in
  target_reserve t env proposal_id payload context.

Definition handle_target_tally (registry : list (VoteTarget T)) (env : Env) (proposal_id : Z)
    (proposal : ProposalRecord) (attached_value : Z) (status : ProposalStatus) :
    VW TargetExecutionOutcome :=
  let! t := lift (registry_lookup registry (pr_target_module proposal)) in
  let context := MkContext (pr_proposer proposal) attached_value (block_number env)
                   (chain_id env) in
  target_handle_tally t env proposal_id (pr_payload proposal) context status.

(** The admission class decides who may propose and with what value. *)
Definition check_admission (a : TargetAdmission) (proposer : Address) (attached_value : Z) :
    VW unit :=
  match a with
  | ActiveValidatorOnly =>
      require (attached_value =? 0) (InvalidProposalBond 0 attached_value) ;;;
      ensure_active_validator proposer
  | PublicBonded amount =>
      require (attached_value =? amount) (InvalidProposalBond amount attached_value)
  end.

Definition check_pending_limits (registry : list (VoteTarget T)) (a : TargetAdmission)
    (proposer : Address) : VW unit :=
  match a with
  | ActiveValidatorOnly =>
      let! proposer_pending := on_vote (pending_proposal_count_by_proposer proposer) in
      require (negb (MAX_PENDING_PROPOSALS_PER_VALIDATOR <=? proposer_pending))
        TooManyPendingByValidator
  | PublicBonded _ =>
      let! counts := on_vote (pending_public_bonded_counts registry proposer) in
      require (negb (MAX_PENDING_PUBLIC_BONDED_PROPOSALS <=? fst counts))
        TooManyPendingPublicBonded ;;;
      require (negb (0 <? snd counts)) TooManyPendingPublicBondedByProposer
  end.

(** The bond becomes a liability that the contract's balance must cover. *)
Definition escrow_bond (a : TargetAdmission) (proposal_id : Z) (proposer : Address) : VW unit :=
  match a with
  | ActiveValidatorOnly => mret tt
  | PublicBonded amount =>
      on_vote (record_proposal_bond proposal_id amount) ;;;
      let! liabilities := on_vote bond_liabilities in
      let! held := balance VOTE_ADDRESS in
      require (negb (held <? liabilities)) BondLiabilityInvariant ;;;
      on_vote (vote_emit (ProposalBondEscrowed proposal_id proposer amount))
  end.

Definition create_proposal_with_value (env : Env) (registry : list (VoteTarget T))
    (proposer target : Address) (payload : list Z) (current_height attached_value : Z) : VW Z :=
  let! t := lift (registry_lookup registry target) in
  check_admission (admission t) proposer attached_value ;;;
  let! pending_len := on_vote (on_pending vec_len) in
  require (negb (MAX_PENDING_PROPOSALS <=? pending_len)) TooManyPending ;;;
  check_pending_limits registry (admission t) proposer ;;;
  let context := MkContext proposer attached_value current_height (chain_id env) in
  lift (validate_target_payload registry target payload context) ;;;
  let voting_deadline := saturating_add u64_max current_height voting_window_blocks in
  with_checkpoint (
    let! proposal_id := on_vote (write_proposal proposer target payload current_height
                                   voting_deadline Pending) in
    reserve_target_proposal registry env target proposal_id payload context ;;;
    escrow_bond (admission t) proposal_id proposer ;;;
    on_vote (vote_emit (ProposalCreated proposal_id proposer target payload voting_deadline)) ;;;
    mret proposal_id).

Definition create_proposal (env : Env) (registry : list (VoteTarget T)) (proposer target : Address)
    (payload : list Z) (current_height : Z) : VW Z :=
  create_proposal_with_value env registry proposer target payload current_height 0.

Definition cast_vote_approve (proposal_id : Z) (voter : Address) (approve : bool)
    (block_number : Z) : VW unit :=
  ensure_active_validator voter ;;;
  let! proposal := on_vote (required_record proposal_id) in
  let! status := lift (proposal_status proposal) in
  require (bool_decide (status = Pending)) NotPending ;;;
  require (negb (pr_voting_deadline_height proposal <? block_number)) VotingClosed ;;;
  let! cast := on_vote (read_vote proposal_id voter) in
  require (negb (bool_decide (is_Some cast))) AlreadyVoted ;;;
  on_vote (write_vote proposal_id voter (from_approve approve) block_number) ;;;
  on_vote (vote_emit (VoteCast proposal_id voter approve)).

Definition settle_terminal_bond (proposal_id : Z) (owner : Address) (bond : ProposalBond)
    (status : ProposalStatus) : VW unit :=
  match bond_settlement bond with
  | NoBond => mret tt
  | Refunded | Burned => mfail (Fatal "pending proposal has an already settled bond")
  | Unsettled =>
      match status with
      | Approved =>
          transfer_balance VOTE_ADDRESS owner (bond_amount bond) ;;;
          let! _ := on_vote (settle_proposal_bond_accounting proposal_id Refunded) in
          on_vote (vote_emit (ProposalBondRefunded proposal_id owner (bond_amount bond)))
      | Expired =>
          decrease_balance VOTE_ADDRESS (bond_amount bond) ;;;
          let! _ := on_vote (settle_proposal_bond_accounting proposal_id Burned) in
          on_vote (vote_emit (ProposalBondBurned proposal_id owner (bond_amount bond)))
      | Pending | Rejected | Error => mpanic
      end
  end.

(** [notify_proposal_finalized] on the three outcomes. *)
Definition finalized_event (outcome : ProposalStatus) (proposal_id : Z) (tally : VoteTally) :
    result VoteEvent :=
  match outcome with
  | Approved => Ok (ProposalApproved proposal_id (tally_yes tally) (tally_no tally))
  | Expired => Ok (ProposalExpired proposal_id (tally_yes tally) (tally_no tally))
  | Error => Ok (ProposalErrored proposal_id (tally_yes tally) (tally_no tally))
  | Pending | Rejected => Panic
  end.

Definition finalize_voting (env : Env) (registry : list (VoteTarget T)) (proposal_id : Z) :
    VW unit :=
  let! proposal := on_vote (required_record proposal_id) in
  let! current := lift (proposal_status proposal) in
  if negb (bool_decide (current = Pending)) then mret tt
  else
    let! active := reads (fun w => active_validator_addresses (w_validators w)) in
    let! tally := on_vote (calculate_vote_tally proposal active) in
    let! active_count := reads (fun w => active_validator_count (w_validators w)) in
    let status := if quorum_reached (tally_yes tally) active_count then Approved else Expired in
    let! bond := on_vote (proposal_bond proposal_id) in
    with_checkpoint (
      let! target_outcome := target_checkpoint
        (handle_target_tally registry env proposal_id proposal (bond_amount bond) status) in
      let! outcome :=
        (match target_outcome with
         | Applied =>
             on_vote (set_proposal_status proposal_id status) ;;;
             settle_terminal_bond proposal_id (pr_proposer proposal) bond status ;;;
             mret status
         | ExecutionError _ =>
             on_vote (set_proposal_status proposal_id Error) ;;;
             mret Error
         end) in
      let! event := lift (finalized_event outcome (pr_id proposal) tally) in
      on_vote (vote_emit event)).

Definition process_begin_block (env : Env) (registry : list (VoteTarget T)) : VW unit :=
  let! pending_ids := on_vote list_pending_proposal_ids in
  mfor pending_ids (fun proposal_id =>
    let! proposal := on_vote (required_record proposal_id) in
    let! status := lift (proposal_status proposal) in
    if bool_decide (status = Pending) && (pr_voting_deadline_height proposal <? block_number env)
    then finalize_voting env registry proposal_id
    else mret tt).

(** [VoteLifecycle::begin_block_with_handlers]. *)
Definition begin_block_with_handlers := process_begin_block.

(** * The precompile (precompile.rs) *)

Inductive VoteCall : Type :=
  | createProposal (target : Address) (payload : list Z)
  | castVote (proposal_id : Z) (approve : bool)
  | getProposal (proposal_id : Z)
  | getProposalVoters (proposal_id index count : Z)
  | listProposals (index count : Z)
  | listProposalsByStatus (status : ProposalStatus) (index count : Z)
  | getProposalBond (proposal_id : Z)
  | unsettledBondLiabilities.

Inductive VoteReturn : Type :=
  | ReturnsNothing
  | ReturnsWord (w : Z)
  | ReturnsInfo (info : ProposalInfo)
  | ReturnsAddresses (l : list Address)
  | ReturnsIds (l : list Z)
  | ReturnsBond (b : ProposalBond).

(** [PAYABLE_SELECTORS]. *)
Definition payable (c : VoteCall) : bool :=
  match c with createProposal _ _ => true | _ => false end.

Definition dispatch_vote_call (env : Env) (registry : list (VoteTarget T)) (caller : Address)
    (value : Z) (c : VoteCall) : VW VoteReturn :=
  match c with
  | createProposal target payload =>
      let! proposal_id := create_proposal_with_value env registry caller target payload
                            (block_number env) value in
      mret (ReturnsWord proposal_id)
  | castVote proposal_id approve =>
      cast_vote_approve proposal_id caller approve (block_number env) ;;;
      mret ReturnsNothing
  | getProposal proposal_id =>
      let! found := get_proposal proposal_id in
      let! info := lift (ok_or found ProposalNotFound) in
      mret (ReturnsInfo info)
  | getProposalVoters proposal_id index count =>
      let! page := on_vote (read_proposal_voters_page proposal_id index count) in
      mret (ReturnsAddresses page)
  | listProposals index count =>
      let! page := on_vote (list_proposals index count) in mret (ReturnsIds page)
  | listProposalsByStatus status index count =>
      let! page := on_vote (list_proposals_by_status status index count) in mret (ReturnsIds page)
  | getProposalBond proposal_id =>
      let! bond := on_vote (proposal_bond proposal_id) in mret (ReturnsBond bond)
  | unsettledBondLiabilities =>
      let! l := on_vote bond_liabilities in mret (ReturnsWord l)
  end.

Definition dispatch_with_handlers (env : Env) (registry : list (VoteTarget T)) (caller : Address)
    (value : Z) (c : VoteCall) : VW VoteReturn :=
  require ((value =? 0) || payable c) (Revert "non-payable function called with value") ;;;
  dispatch_vote_call env registry caller value c.

(** A call frame on the payable route: the value moves to the contract first,
    and a failing call leaves nothing behind. *)
Definition vote_call (env : Env) (registry : list (VoteTarget T)) (caller : Address)
    (value : Z) (c : VoteCall) : VW VoteReturn :=
  with_checkpoint (
    transfer_balance caller VOTE_ADDRESS value ;;;
    dispatch_with_handlers env registry caller value c).
End Contract.
