(* ===== verification/VoteInv.v ===== *)
(** The invariant of the Vote contract and what each storage operation of
    [Vote.v] does to a contract that satisfies it. *)

From S2P Require Import Prelude Bytes P2pAddress Native Lifecycle ValidatorSet Containers Vote.

(** * Vocabulary *)

(** The open proposals in list order, and the votes of a proposal. *)
Definition pending_of (v : Vote) : list Z :=
  match vec_read_all (pending_proposal_ids v) with (Ok l, _) => l | _ => [] end.
Definition votes_of (v : Vote) (proposal_id : Z) : list VoteRecord :=
  match vec_read_all (voters_of v proposal_id) with
  | (Ok l, _) => vote_from_word <$> l
  | _ => []
  end.

Definition address_ok (a : Address) : Prop := 0 <= a < 2 ^ 160.
Definition vote_ok (r : VoteRecord) : Prop :=
  address_ok (vr_voter r) /\ (vr_vote_kind r = 0 \/ vr_vote_kind r = 1)
  /\ in_range u64_max (vr_block_number r).

(** What a bond may be, by the status of its proposal. *)
Definition bond_agrees (amount : Z) (settlement : BondSettlement) (status : ProposalStatus) : Prop :=
  match settlement with
  | NoBond => amount = 0
  | Unsettled => 0 < amount /\ unsettled status = true
  | Refunded => 0 < amount /\ status = Approved
  | Burned => 0 < amount /\ status = Expired
  end.

Definition bond_sum (v : Vote) (ids : list Z) : Z :=
  foldr (fun id acc => (proposal_bond_amount v).[id] + acc) 0 ids.

Record vote_inv `{Keccak} (v : Vote) (L : list Z) : Prop := {
  vi_rep : vec_rep (pending_proposal_ids v) L;
  vi_nodup : NoDup L;
  vi_cap : Z.of_nat (length L) <= MAX_PENDING_PROPOSALS;
  vi_count : in_range u256_max (proposal_count v);
  vi_dense : forall id, is_Some (proposals v !! id) <-> 1 <= id <= proposal_count v;
  vi_record : forall id p, proposals v !! id = Some p -> pr_id p = id /\ pr_proposer p <> 0;
  vi_status : forall id p, proposals v !! id = Some p -> exists st,
    proposal_status p = Ok st /\ st <> Rejected /\ (id ∈ L <-> unsettled st = true);
  vi_bond : forall id p st, proposals v !! id = Some p -> proposal_status p = Ok st -> exists b,
    bond_settlement_from_u8 (proposal_bond_settlement v).[id] = Ok b
    /\ bond_agrees (proposal_bond_amount v).[id] b st;
  vi_nobond : forall id, proposals v !! id = None ->
    (proposal_bond_settlement v).[id] = 0 /\ (proposal_bond_amount v).[id] = 0;
  vi_liabilities : unsettled_bond_liabilities v = bond_sum v L /\ bond_sum v L <= u256_max;
  vi_open : forall id, id ∈ L -> is_Some (proposals v !! id);
  vi_votes : forall id, in_range u256_max id -> exists vs,
    vec_rep (voters_of v id) (vote_to_word <$> vs) /\ Forall vote_ok vs
    /\ NoDup (vr_voter <$> vs)
    /\ (forall i r, vs !! i = Some r -> (votes_map v).[vote_key id (vr_voter r)] = Z.of_nat i + 1)
    /\ (forall a, address_ok a -> a ∉ vr_voter <$> vs -> (votes_map v).[vote_key id a] = 0) }.

(** * Generic lemmas *)

Lemma zoom_run {W S A} (get : W -> S) put (m : M S A) w r s' :
  m (get w) = (r, s') -> zoom get put m w = (r, put s' w).
Proof. intros H. unfold zoom. by rewrite H. Qed.
Lemma zoom_inv {W S A} (get : W -> S) put (m : M S A) w r w' :
  zoom get put m w = (r, w') -> exists s', m (get w) = (r, s') /\ w' = put s' w.
Proof. unfold zoom. destruct (m (get w)) as [r' s'] eqn:E. intros ?; simplify_eq. by exists s'. Qed.

Lemma swap_remove_perm i (l : list Z) v :
  NoDup l -> l !! i = Some v -> l ≡ₚ v :: Containers.swap_remove i l.
Proof.
  intros Hnd Hi. pose proof (lookup_lt_Some _ _ _ Hi). apply NoDup_Permutation; [done| |].
  - constructor; [|by apply NoDup_swap_remove].
    rewrite elem_of_swap_remove by done. naive_solver.
  - intros x. rewrite elem_of_cons, (elem_of_swap_remove _ _ v) by done.
    destruct (decide (x = v)) as [->|]; [|naive_solver].
    split; [by left|]. intros _. by eapply list_elem_of_lookup_2.
Qed.

Lemma status_u8 st : proposal_status_from_u8 (proposal_status_to_u8 st) = Ok st.
Proof. by destruct st. Qed.
Lemma settlement_u8 b : bond_settlement_from_u8 (bond_settlement_to_u8 b) = Ok b.
Proof. by destruct b. Qed.

Lemma bond_sum_perm v l l' : l ≡ₚ l' -> bond_sum v l = bond_sum v l'.
Proof. intros Hp. unfold bond_sum. induction Hp; simpl; lia. Qed.
Lemma bond_sum_ext v v' l :
  (forall id, id ∈ l -> (proposal_bond_amount v').[id] = (proposal_bond_amount v).[id]) ->
  bond_sum v' l = bond_sum v l.
Proof.
  intros He. induction l as [|x l IH]; [done|]. simpl. rewrite (He x) by left.
  f_equal. apply IH. intros id Hid. apply He. by right.
Qed.
Lemma bond_sum_nonneg v l : (forall id, 0 <= (proposal_bond_amount v).[id]) -> 0 <= bond_sum v l.
Proof. intros Hp. induction l as [|x l IH]; simpl; [lia|]. specialize (Hp x). lia. Qed.

#[local] Opaque be_bytes.

Lemma vote_word_roundtrip r : vote_ok r -> vote_from_word (vote_to_word r) = r.
Proof.
  intros (Hv & Hk & Hb). destruct r as [voter kind block]. simpl in *.
  unfold vote_from_word, vote_to_word. simpl.
  set (bytes := be_bytes 20 voter ++ kind :: be_bytes 8 block ++ [0; 0; 0]).
  assert (Hlen : length bytes = 32%nat).
  { unfold bytes. rewrite length_app. cbn [length]. rewrite length_app, !length_be_bytes. done. }
  assert (Hbyte : Forall byte bytes).
  { unfold bytes. apply Forall_app. split; [apply be_bytes_byte|]. constructor; [unfold byte; lia|].
    apply Forall_app. split; [apply be_bytes_byte|]. by repeat constructor. }
  rewrite <- Hlen, be_bytes_value by done. unfold bytes. f_equal.
  - rewrite take_app_length' by by rewrite length_be_bytes. apply be_value_bytes. done.
  - change 21%nat with (20 + 1)%nat. rewrite <- drop_drop, drop_app_length' by by rewrite length_be_bytes.
    change (drop 1 (kind :: ?l)) with l. rewrite take_app_length' by by rewrite length_be_bytes. apply be_value_bytes.
    change (256 ^ Z.of_nat 8) with (u64_max + 1). unfold in_range in Hb. lia.
Qed.

Section Operations.
Context `{K : Keccak}.
Implicit Types (v : Vote) (L : list Z).

Lemma get_record_eq v L id : vote_inv v L -> get_record v id = proposals v !! id.
Proof.
  intros Hi. unfold get_record. destruct (proposals v !! id) as [p|] eqn:Hp; [|done].
  destruct (vi_record _ _ Hi _ _ Hp) as [_ Hn]. by rewrite (proj2 (Z.eqb_neq _ _) Hn).
Qed.

Lemma required_record_runs v L id p :
  vote_inv v L -> proposals v !! id = Some p -> required_record id v = (Ok p, v).
Proof.
  intros Hi Hp. unfold required_record, mbind, gets, lift.
  by rewrite (get_record_eq _ _ _ Hi), Hp.
Qed.
Lemma required_record_inv v L id p v' :
  vote_inv v L -> required_record id v = (Ok p, v') -> v' = v /\ proposals v !! id = Some p.
Proof.
  intros Hi Hrun. unfold required_record in Hrun. minv. split; [done|].
  by rewrite <- (get_record_eq _ _ _ Hi).
Qed.

Lemma pending_of_eq v L : vote_inv v L -> pending_of v = L.
Proof. intros Hi. unfold pending_of. by rewrite (vec_read_all_ok _ _ (vi_rep _ _ Hi)). Qed.

Lemma pending_runs v L : vote_inv v L -> list_pending_proposal_ids v = (Ok L, v).
Proof.
  intros Hi. unfold list_pending_proposal_ids, on_pending, zoom.
  rewrite (vec_read_all_ok _ _ (vi_rep _ _ Hi)). by destruct v.
Qed.

Lemma amount_nonneg v L id : vote_inv v L -> 0 <= (proposal_bond_amount v).[id].
Proof.
  intros Hi. destruct (proposals v !! id) as [p|] eqn:Hp.
  - destruct (vi_status _ _ Hi _ _ Hp) as (st & Hst & _).
    destruct (vi_bond _ _ Hi _ _ _ Hp Hst) as (b & _ & Hb). destruct b; simpl in Hb; lia.
  - by destruct (vi_nobond _ _ Hi _ Hp) as [_ ->].
Qed.

Lemma proposal_bond_runs v L id p st :
  vote_inv v L -> proposals v !! id = Some p -> proposal_status p = Ok st ->
  exists b, proposal_bond id v = (Ok b, v)
    /\ bond_amount b = (proposal_bond_amount v).[id]
    /\ bond_settlement_from_u8 (proposal_bond_settlement v).[id] = Ok (bond_settlement b)
    /\ bond_agrees (bond_amount b) (bond_settlement b) st.
Proof.
  intros Hi Hp Hst. destruct (vi_bond _ _ Hi _ _ _ Hp Hst) as (b & Hb & Ha).
  exists (MkBond (proposal_bond_amount v).[id] b). split; [|done].
  unfold proposal_bond. rewrite (mbind_ok_intro _ _ _ _ _ _ (required_record_runs _ _ _ _ Hi Hp) eq_refl).
  unfold mbind, gets, lift. rewrite Hb. unfold require.
  destruct b; simpl in Ha |- *; [by rewrite Ha| | |];
    destruct (Z.eqb_spec (proposal_bond_amount v).[id] 0); try lia; done.
Qed.

(** ** A new proposal *)

Lemma inv_new v L l' p :
  let id := proposal_count v + 1 in
  vote_inv v L -> Z.of_nat (length L) < MAX_PENDING_PROPOSALS -> id <= u256_max ->
  pr_id p = id -> pr_proposer p <> 0 -> pr_status p = 0 -> vec_rep l' (L ++ [id]) ->
  vote_inv (v <| proposal_count := id |> <| proposals := <[id := p]> (proposals v) |>
              <| pending_proposal_ids := l' |>) (L ++ [id]).
Proof.
  intros id Hi Hlt Hmax Hid Hprop Hst Hrep. pose proof (vi_count _ _ Hi) as Hc. unfold in_range in Hc.
  assert (Hfresh : proposals v !! id = None).
  { apply eq_None_not_Some. rewrite (vi_dense _ _ Hi). unfold id. lia. }
  assert (Hnew : id ∉ L).
  { intros Hin. destruct (vi_open _ _ Hi _ Hin) as [q Hq]. congruence. }
  destruct (vi_nobond _ _ Hi _ Hfresh) as [Hs0 Ha0].
  assert (Hsum : bond_sum v (L ++ [id]) = bond_sum v L).
  { rewrite (bond_sum_perm _ _ (id :: L)) by (rewrite Permutation_app_comm; done).
    simpl. rewrite Ha0. lia. }
  constructor; simpl.
  - done.
  - apply NoDup_app. split_and!; [apply (vi_nodup _ _ Hi)| |by apply NoDup_singleton].
    intros x Hx ->%list_elem_of_singleton. done.
  - rewrite length_app. simpl. lia.
  - unfold in_range, id in *. lia.
  - intros j. destruct (decide (j = id)) as [->|Hne].
    + rewrite lookup_insert_eq. unfold id. split; [intros; lia|eauto].
    + rewrite lookup_insert_ne by done. rewrite (vi_dense _ _ Hi). unfold id in *. lia.
  - intros j q [[-> <-]|[Hne Hq]]%lookup_insert_Some; [done|]. by apply (vi_record _ _ Hi).
  - intros j q [[-> <-]|[Hne Hq]]%lookup_insert_Some.
    + exists Pending. unfold proposal_status. rewrite Hst. split_and!; try done.
      split; [done|]. intros _. set_solver.
    + destruct (vi_status _ _ Hi _ _ Hq) as (st & E & Hr & Hl). exists st. split_and!; try done.
      rewrite <- Hl. set_solver.
  - intros j q st [[-> <-]|[Hne Hq]]%lookup_insert_Some Hq'.
    + exists NoBond. rewrite Hs0, Ha0. done.
    + by apply (vi_bond _ _ Hi _ _ _ Hq).
  - intros j [Hq _]%lookup_insert_None. by apply (vi_nobond _ _ Hi).
  - rewrite (bond_sum_ext v) by done. rewrite Hsum. apply (vi_liabilities _ _ Hi).
  - intros j Hj. destruct (decide (id = j)) as [->|Hne]; [rewrite lookup_insert_eq; eauto|].
    rewrite lookup_insert_ne by done. apply (vi_open _ _ Hi). set_solver.
  - apply (vi_votes _ _ Hi).
Qed.

Lemma write_proposal_inv v L proposer target payload h d id v' :
  vote_inv v L -> Z.of_nat (length L) < MAX_PENDING_PROPOSALS -> proposer <> 0 ->
  write_proposal proposer target payload h d Pending v = (Ok id, v') ->
  id = proposal_count v + 1
  /\ v' = v <| proposal_count := id |>
            <| proposals := <[id := MkProposal id proposer target payload h d 0]> (proposals v) |>
            <| pending_proposal_ids := pending_proposal_ids v' |>
  /\ vote_inv v' (L ++ [id]).
Proof.
  intros Hi Hlt Hp Hrun. unfold write_proposal, peek_next_proposal_id in Hrun. minv.
  unfold proposals_create, proposals_write in *. minv. simpl in *.
  match goal with H : on_pending _ _ = _ |- _ =>
    unfold on_pending in H; apply zoom_inv in H as (l' & Hpush & ->) end.
  simpl in Hpush. destruct (vec_push_ok _ L (proposal_count v + 1) (vi_rep _ _ Hi)) as (l2 & Hl2 & Hrep).
  { unfold MAX_PENDING_PROPOSALS, u32_max in *. lia. }
  rewrite Hpush in Hl2. simplify_eq. split_and!; try done. by apply inv_new.
Qed.

(** ** Bonds *)

(** The bond of an open proposal, and the bonds of the others. *)
Lemma open_split v L id : vote_inv v L -> id ∈ L -> exists L0,
  L ≡ₚ id :: L0 /\ id ∉ L0 /\ bond_sum v L = (proposal_bond_amount v).[id] + bond_sum v L0.
Proof.
  intros Hi Hin. destruct (elem_of_Permutation L id) as [H1 _]. destruct (H1 Hin) as [L0 HL0].
  exists L0. split_and!; [done| |].
  - pose proof (vi_nodup _ _ Hi) as Hnd. rewrite HL0 in Hnd. by apply NoDup_cons in Hnd as [].
  - by rewrite (bond_sum_perm _ _ _ HL0).
Qed.

Lemma record_bond_inv v L id p amount v' :
  vote_inv v L -> id ∈ L -> proposals v !! id = Some p -> proposal_status p = Ok Pending ->
  0 <= amount -> record_proposal_bond id amount v = (Ok tt, v') ->
  v' = v <| proposal_bond_amount := (proposal_bond_amount v).[id <- amount] |>
         <| proposal_bond_settlement := (proposal_bond_settlement v).[id <- 1] |>
         <| unsettled_bond_liabilities := unsettled_bond_liabilities v + amount |>
  /\ vote_inv v' L.
Proof.
  intros Hi Hin Hp Hst Ha Hrun. unfold record_proposal_bond in Hrun. minv.
  match goal with H : required_record _ _ = _ |- _ =>
    apply (required_record_inv _ _ _ _ _ Hi) in H as [-> Hq] end. bprop.
  split; [done|]. destruct (open_split _ _ _ Hi Hin) as (L0 & HL0 & Hn0 & Hsum).
  destruct (vi_liabilities _ _ Hi) as [El Hm].
  set (v2 := _ <| unsettled_bond_liabilities := _ |>).
  assert (Hsum2 : bond_sum v2 L = bond_sum v L + amount).
  { rewrite (bond_sum_perm _ _ _ HL0). simpl. rewrite mread_mwrite_eq, Hsum.
    rewrite (bond_sum_ext v v2 L0); [lia|]. intros j Hj. simpl.
    rewrite mread_mwrite_ne by set_solver. done. }
  assert (Hz : (proposal_bond_amount v).[id] = 0) by assumption.
  destruct Hi. constructor; try assumption; simpl.
  - intros j q st Hj Hjs. destruct (decide (id = j)) as [->|Hne].
    + assert (st = Pending) as -> by congruence. exists Unsettled. rewrite !mread_mwrite_eq.
      split; [done|]. simpl. split; [lia|done].
    + rewrite !mread_mwrite_ne by done. eauto.
  - intros j Hj. assert (id <> j) by congruence. rewrite !mread_mwrite_ne by done. eauto.
  - rewrite Hsum2. split; [lia|]. lia.
Qed.

(** ** Status changes *)

Lemma vote_same_pending v : v <| pending_proposal_ids := pending_proposal_ids v |> = v.
Proof. by destruct v. Qed.

Lemma on_pending_run {A} v (m : M StorageVec A) r l' :
  m (pending_proposal_ids v) = (r, l') -> on_pending m v = (r, v <| pending_proposal_ids := l' |>).
Proof. apply zoom_run. Qed.

Lemma remove_pending_runs v L id :
  vec_rep (pending_proposal_ids v) L -> NoDup L -> id ∈ L -> exists l' L',
    remove_pending_proposal_id id v = (Ok tt, v <| pending_proposal_ids := l' |>)
    /\ vec_rep l' L' /\ L ≡ₚ id :: L'.
Proof.
  intros Hrep Hnd Hin.
  destruct (list_find_elem_of (fun p => p = id) L id Hin eq_refl) as [[i x] Hf].
  pose proof Hf as (Hi & -> & _)%list_find_Some. pose proof (lookup_lt_Some _ _ _ Hi) as Hlt.
  assert (Hread : on_pending vec_read_all v = (Ok L, v)).
  { rewrite (on_pending_run _ _ _ _ (vec_read_all_ok _ _ Hrep)). by rewrite vote_same_pending. }
  unfold remove_pending_proposal_id. rewrite (mbind_ok_intro _ _ _ _ _ _ Hread eq_refl), Hf.
  set (L1 := <[i := List.last L 0]> L).
  assert (Hset : exists l1, (if bool_decide (i = (length L - 1)%nat) then mret tt
      else let! last := on_pending (vec_get (Z.of_nat (length L) - 1)) in
           on_pending (vec_set (Z.of_nat i) (default 0 last))) v
        = (Ok tt, v <| pending_proposal_ids := l1 |>) /\ vec_rep l1 L1).
  { assert (Hlast : L !! (length L - 1)%nat = Some (List.last L 0)).
    { destruct L as [|y L2 _] using rev_ind; [simpl in Hlt; lia|].
      rewrite List.last_last, length_app. simpl. rewrite Nat.add_sub. by rewrite list_lookup_middle. }
    case_bool_decide as He.
    - exists (pending_proposal_ids v). split; [unfold mret; by rewrite vote_same_pending|].
      unfold L1. rewrite He, list_insert_id by done. done.
    - destruct (vec_set_ok _ L (Z.of_nat i) (List.last L 0) Hrep) as (l1 & Hl1 & Hrep1); [lia|].
      exists l1. rewrite Nat2Z.id in Hrep1. split; [|done].
      eapply mbind_ok_intro.
      + apply on_pending_run. apply (vec_get_ok _ L); [done|lia].
      + rewrite vote_same_pending. replace (Z.to_nat (Z.of_nat (length L) - 1)) with (length L - 1)%nat by lia.
        rewrite Hlast. by apply on_pending_run. }
  destruct Hset as (l1 & Hset & Hrep1).
  assert (Hsnoc : exists y, L1 = Containers.swap_remove i L ++ [y]).
  { unfold Containers.swap_remove. fold L1.
    assert (Hl1 : length L1 = length L) by apply length_insert.
    destruct (lookup_lt_is_Some_2 L1 (length L - 1)%nat) as [y Hy]; [lia|]. exists y.
    rewrite <- (take_drop (length L - 1) L1) at 1. f_equal.
    apply (drop_S _ _ _) in Hy. rewrite Hy. rewrite drop_ge by lia. done. }
  destruct Hsnoc as [y Hy]. rewrite Hy in Hrep1.
  destruct (vec_pop_ok _ _ _ Hrep1) as (l2 & Hpop & Hrep2).
  exists l2, (Containers.swap_remove i L). split_and!; [|done|by apply swap_remove_perm].
  cbv zeta. eapply mbind_ok_intro; [exact Hset|].
  eapply mbind_ok_intro; [by apply (on_pending_run (v <| pending_proposal_ids := l1 |>))|]. done.
Qed.

(** The status of a pending proposal changes: [Error] keeps it open, the
    terminal statuses take it off the list. *)
Lemma set_status_runs v L id p st :
  vote_inv v L -> proposals v !! id = Some p -> proposal_status p = Ok Pending -> st <> Pending ->
  exists l' L', set_proposal_status id st v
      = (Ok tt, v <| proposals := <[id := p <| pr_status := proposal_status_to_u8 st |>]> (proposals v) |>
                  <| pending_proposal_ids := l' |>)
    /\ vec_rep l' L' /\ (if unsettled st then L' = L else L ≡ₚ id :: L').
Proof.
  intros Hi Hp Hst Hne. pose proof (get_record_eq _ _ id Hi) as Hg.
  destruct (vi_status _ _ Hi _ _ Hp) as (st0 & E0 & _ & Hl). assert (st0 = Pending) as -> by congruence.
  destruct (vi_record _ _ Hi _ _ Hp) as [Eid _].
  set (v1 := v <| proposals := <[id := p <| pr_status := proposal_status_to_u8 st |>]> (proposals v) |>).
  assert (Hfin : exists l' L', ((if unsettled Pending && negb (unsettled st)
     then remove_pending_proposal_id id else mret tt) ;;;
     (if negb (unsettled Pending) && unsettled st then on_pending (vec_push id) else mret tt)) v1
      = (Ok tt, v1 <| pending_proposal_ids := l' |>)
      /\ vec_rep l' L' /\ (if unsettled st then L' = L else L ≡ₚ id :: L')).
  { destruct (unsettled st) eqn:Hu; cbn [unsettled negb andb].
    - exists (pending_proposal_ids v1), L. rewrite vote_same_pending. split_and!; try done. apply (vi_rep _ _ Hi).
    - destruct (remove_pending_runs v1 L id) as (l' & L' & Hr & Hrep & Hperm);
        [apply (vi_rep _ _ Hi)|apply (vi_nodup _ _ Hi)|by apply Hl|].
      exists l', L'. split; [|done]. by eapply mbind_ok_intro. }
  destruct Hfin as (l' & L' & Hrun & Hrest). exists l', L'. split; [|done].
  unfold set_proposal_status. eapply mbind_ok_intro; [by apply (required_record_runs _ L)|].
  eapply mbind_ok_intro; [unfold lift; by rewrite Hst|]. rewrite bool_decide_eq_false_2 by congruence.
  eapply mbind_ok_intro; [|exact Hrun].
  unfold proposals_update, gets, require, proposals_write, modify, mbind. simpl.
  rewrite Eid, Hg, Hp. by rewrite bool_decide_eq_true_2 by eauto.
Qed.

Lemma inv_closed v L id p st b l' L' m' :
  vote_inv v L -> proposals v !! id = Some p -> proposal_status p = Ok Pending ->
  st <> Pending -> st <> Rejected -> vec_rep l' L' ->
  (if unsettled st then L' = L else L ≡ₚ id :: L') ->
  bond_settlement_from_u8 m'.[id] = Ok b -> bond_agrees (proposal_bond_amount v).[id] b st ->
  (forall j, j <> id -> m'.[j] = (proposal_bond_settlement v).[j]) ->
  vote_inv (v <| proposals := <[id := p <| pr_status := proposal_status_to_u8 st |>]> (proposals v) |>
              <| pending_proposal_ids := l' |> <| proposal_bond_settlement := m' |>
              <| unsettled_bond_liabilities := bond_sum v L' |>) L'.
Proof.
  intros Hi Hp Hst Hne Hrj Hrep HL Hb Hag Hm.
  destruct (vi_record _ _ Hi _ _ Hp) as [Eid Hprop].
  destruct (vi_status _ _ Hi _ _ Hp) as (st0 & E0 & _ & Hl). assert (st0 = Pending) as -> by congruence.
  assert (Hin : id ∈ L) by by apply Hl.
  assert (Hsub : forall j, j ∈ L' -> j ∈ L).
  { intros j Hj. destruct (unsettled st); [by subst|]. rewrite HL. by right. }
  assert (Hmem : forall j, j <> id -> j ∈ L' <-> j ∈ L).
  { intros j Hj. destruct (unsettled st); [by subst|]. rewrite HL. set_solver. }
  assert (Hid : id ∈ L' <-> unsettled st = true).
  { destruct (unsettled st); [by subst|]. split; [|done]. intros Hx.
    pose proof (vi_nodup _ _ Hi) as Hnd. rewrite HL in Hnd. by apply NoDup_cons in Hnd as []. }
  assert (Hle : bond_sum v L' <= bond_sum v L).
  { pose proof (amount_nonneg _ _ id Hi). destruct (unsettled st); [by subst|].
    rewrite (bond_sum_perm _ _ _ HL). simpl. lia. }
  constructor; simpl.
  - done.
  - pose proof (vi_nodup _ _ Hi) as Hnd. destruct (unsettled st); [by subst|].
    rewrite HL in Hnd. by apply NoDup_cons in Hnd as [].
  - pose proof (vi_cap _ _ Hi). destruct (unsettled st); [by subst|].
    apply Permutation_length in HL. simpl in HL. lia.
  - apply (vi_count _ _ Hi).
  - intros j. destruct (decide (id = j)) as [<-|Hj].
    + rewrite lookup_insert_eq, <- (vi_dense _ _ Hi), Hp. split; intros _; eauto.
    + rewrite lookup_insert_ne by done. apply (vi_dense _ _ Hi).
  - intros j q [[<- <-]|[Hj Hq]]%lookup_insert_Some; [done|]. by apply (vi_record _ _ Hi).
  - intros j q [[<- <-]|[Hj Hq]]%lookup_insert_Some.
    + exists st. unfold proposal_status. simpl. by rewrite status_u8.
    + destruct (vi_status _ _ Hi _ _ Hq) as (st1 & E1 & Hr1 & Hl1). exists st1.
      split_and!; try done. by rewrite Hmem.
  - intros j q st1 [[<- <-]|[Hj Hq]]%lookup_insert_Some Hs1.
    + unfold proposal_status in Hs1. simpl in Hs1. rewrite status_u8 in Hs1. simplify_eq. eauto.
    + rewrite Hm by done. by apply (vi_bond _ _ Hi _ q).
  - intros j [Hq Hj]%lookup_insert_None. rewrite Hm by done. by apply (vi_nobond _ _ Hi).
  - change (bond_sum v L' = bond_sum v L' /\ bond_sum v L' <= u256_max).
    split; [done|]. pose proof (proj2 (vi_liabilities _ _ Hi)). lia.
  - intros j Hj%Hsub%(vi_open _ _ Hi). destruct (decide (id = j)) as [<-|Hj'].
    + by rewrite lookup_insert_eq.
    + by rewrite lookup_insert_ne.
  - apply (vi_votes _ _ Hi).
Qed.

(** The accounting half of a refund or burn. *)
Lemma settle_accounting_runs v id p b :
  get_record v id = Some p -> b = Refunded \/ b = Burned ->
  bond_settlement_from_u8 (proposal_bond_settlement v).[id] = Ok Unsettled ->
  0 < (proposal_bond_amount v).[id] <= unsettled_bond_liabilities v ->
  settle_proposal_bond_accounting id b v = (Ok (proposal_bond_amount v).[id],
    v <| proposal_bond_settlement := (proposal_bond_settlement v).[id <- bond_settlement_to_u8 b] |>
      <| unsettled_bond_liabilities := unsettled_bond_liabilities v - (proposal_bond_amount v).[id] |>).
Proof.
  intros Hp Hb Hs Ha. unfold settle_proposal_bond_accounting.
  eapply mbind_ok_intro; [by destruct Hb as [->| ->]|]. apply with_checkpoint_ok.
  eapply mbind_ok_intro; [unfold required_record, mbind, gets, lift; by rewrite Hp|].
  do 2 (eapply mbind_ok_intro; [reflexivity|]).
  eapply mbind_ok_intro; [unfold lift; by rewrite Hs|].
  eapply mbind_ok_intro; [unfold require; by destruct (Z.eqb_spec (proposal_bond_amount v).[id] 0); [lia|]|].
  eapply mbind_ok_intro; [reflexivity|].
  eapply mbind_ok_intro; [|reflexivity].
  unfold lift, checked_sub. by rewrite (proj2 (Z.leb_le _ _)) by lia.
Qed.

(** ** Votes *)

Definition keccak_injective_52 : Prop := forall a b,
  Forall byte a -> Forall byte b -> length a = 52%nat -> length b = 52%nat ->
  keccak256 a = keccak256 b -> a = b.

Lemma vote_key_inj i a j b :
  keccak_injective_52 -> in_range u256_max i -> in_range u256_max j -> address_ok a -> address_ok b ->
  vote_key i a = vote_key j b -> i = j /\ a = b.
Proof.
  unfold in_range, address_ok. intros Hk Hi Hj Ha Hb E. apply Hk in E.
  - apply app_inj_1 in E as [E1 E2]; [|by rewrite !length_be_bytes].
    apply be_bytes_inj in E1, E2; try done; change (256 ^ Z.of_nat 32) with (u256_max + 1); lia.
  - apply Forall_app. split; apply be_bytes_byte.
  - apply Forall_app. split; apply be_bytes_byte.
  - by rewrite length_app, !length_be_bytes.
  - by rewrite length_app, !length_be_bytes.
Qed.

Lemma votes_words vs : Forall vote_ok vs -> vote_from_word <$> (vote_to_word <$> vs) = vs.
Proof.
  intros Hv. rewrite <- list_fmap_compose. rewrite <- (list_fmap_id vs) at 2.
  apply list_fmap_ext. intros i r Hr. apply vote_word_roundtrip.
  rewrite Forall_lookup in Hv. eauto.
Qed.

Lemma votes_of_eq v id vs :
  vec_rep (voters_of v id) (vote_to_word <$> vs) -> Forall vote_ok vs -> votes_of v id = vs.
Proof.
  intros Hrep Hv. unfold votes_of. rewrite (vec_read_all_ok _ _ Hrep). by apply votes_words.
Qed.

(** The votes of a proposal as the invariant describes them. *)
Lemma votes_spec v L id : vote_inv v L -> in_range u256_max id ->
  vec_rep (voters_of v id) (vote_to_word <$> votes_of v id) /\ Forall vote_ok (votes_of v id)
  /\ NoDup (vr_voter <$> votes_of v id)
  /\ (forall i r, votes_of v id !! i = Some r ->
        (votes_map v).[vote_key id (vr_voter r)] = Z.of_nat i + 1)
  /\ (forall a, address_ok a -> a ∉ vr_voter <$> votes_of v id -> (votes_map v).[vote_key id a] = 0).
Proof.
  intros Hi Hid. destruct (vi_votes _ _ Hi id Hid) as (vs & Hrep & Hok & Hrest).
  by rewrite (votes_of_eq _ _ _ Hrep Hok).
Qed.

Lemma vote_kind_ok r : vote_ok r -> exists k, vote_kind_from_u8 (vr_vote_kind r) = Ok k
  /\ vr_vote_kind r = vote_kind_to_u8 k.
Proof. intros (_ & [-> | ->] & _); [by exists No|by exists Yes]. Qed.

(** [read_vote] finds exactly the recorded vote. *)
Lemma read_vote_runs v L id a :
  vote_inv v L -> in_range u256_max id -> address_ok a ->
  exists o, read_vote id a v = (Ok o, v) /\ (is_Some o <-> a ∈ vr_voter <$> votes_of v id).
Proof.
  intros Hi Hid Ha. destruct (votes_spec _ _ _ Hi Hid) as (Hrep & Hok & Hnd & Hpos & Habs).
  unfold read_vote. unfold mbind at 1, gets at 1.
  destruct (decide (a ∈ vr_voter <$> votes_of v id)) as [Hin|Hout].
  - apply list_elem_of_fmap in Hin as (r & -> & Hr). apply list_elem_of_lookup in Hr as [i Hr].
    rewrite (Hpos _ _ Hr). destruct (Z.eqb_spec (Z.of_nat i + 1) 0); [lia|].
    unfold ask_voters, reads, mbind. rewrite (vec_get_ok _ _ _ Hrep) by lia. simpl.
    replace (Z.to_nat (Z.of_nat i + 1 - 1)) with i by lia. rewrite list_lookup_fmap, Hr. simpl.
    rewrite Forall_lookup in Hok. specialize (Hok _ _ Hr). rewrite (vote_word_roundtrip _ Hok).
    destruct (vote_kind_ok _ Hok) as (k & Hk & _). unfold lift, into_vote_info. rewrite Hk. simpl.
    eexists. split; [done|]. split; [|eauto]. intros _.
    apply list_elem_of_fmap. exists r. split; [done|]. by eapply list_elem_of_lookup_2.
  - rewrite (Habs _ Ha Hout). simpl. exists None. split; [done|]. split; [by intros []|done].
Qed.

(** The contract with one more vote [r] on proposal [id], stored in [l]. *)
Definition with_vote v (id : Z) (l : StorageVec) (a : Address) : Vote :=
  v <| proposal_voters := <[id := l]> (proposal_voters v) |>
    <| votes_map := (votes_map v).[vote_key id a <- Z.of_nat (length (votes_of v id)) + 1] |>.

Lemma voters_with_vote v id l a j :
  voters_of (with_vote v id l a) j = if decide (id = j) then l else voters_of v j.
Proof.
  unfold voters_of. simpl. case_decide; subst; [by rewrite lookup_insert_eq|by rewrite lookup_insert_ne].
Qed.

Lemma inv_vote v L id l r :
  keccak_injective_52 -> vote_inv v L -> in_range u256_max id -> vote_ok r ->
  vr_voter r ∉ vr_voter <$> votes_of v id ->
  vec_rep l (vote_to_word <$> votes_of v id ++ [r]) ->
  vote_inv (with_vote v id l (vr_voter r)) L.
Proof.
  intros Hk Hi Hid Hr Hnew Hrep. pose proof (proj1 Hr) as Ha.
  constructor; try apply Hi. intros j Hj. rewrite voters_with_vote. simpl.
  destruct (votes_spec _ _ _ Hi Hj) as (Hrep' & Hok & Hnd & Hpos & Habs).
  assert (Hother : forall a, address_ok a -> (id <> j \/ a <> vr_voter r) ->
    vote_key id (vr_voter r) <> vote_key j a).
  { intros a Haa Hne E. apply vote_key_inj in E; try done. naive_solver. }
  assert (Haddr : forall i q, votes_of v j !! i = Some q -> address_ok (vr_voter q)).
  { intros i q Hq. rewrite Forall_lookup in Hok. by apply (Hok _ _ Hq). }
  destruct (decide (id = j)) as [<-|Hne].
  - exists (votes_of v id ++ [r]). split_and!; [done|by apply Forall_app; split; [|constructor]| | |].
    + rewrite fmap_app. apply NoDup_app. split_and!; [done| |by apply NoDup_singleton].
      intros x Hx ->%list_elem_of_singleton. done.
    + intros i q [Hq|[Hge Hq]]%lookup_app_Some.
      * rewrite mread_mwrite_ne; [by apply Hpos|]. apply Hother; [by eapply Haddr|]. right.
        intros E. apply Hnew. rewrite <- E. apply list_elem_of_fmap. exists q. split; [done|].
        by eapply list_elem_of_lookup_2.
      * apply list_lookup_singleton_Some in Hq as [Hz <-]. rewrite mread_mwrite_eq. lia.
    + intros a Haa Hout. rewrite fmap_app in Hout. rewrite mread_mwrite_ne.
      * apply Habs; [done|]. intros Hx. apply Hout. apply elem_of_app. by left.
      * apply Hother; [done|]. right. intros ->. apply Hout. apply elem_of_app. right. by left.
  - exists (votes_of v j). split_and!; try done.
    + intros i q Hq. rewrite mread_mwrite_ne; [by apply Hpos|]. apply Hother; [by eapply Haddr|by left].
    + intros a Haa Hout. rewrite mread_mwrite_ne; [by apply Habs|]. apply Hother; [done|by left].
Qed.

Lemma write_vote_inv v L id a kind bn v' :
  let r := MkVoteRecord a (vote_kind_to_u8 kind) bn in
  keccak_injective_52 -> vote_inv v L -> in_range u256_max id -> address_ok a -> in_range u64_max bn ->
  a ∉ vr_voter <$> votes_of v id -> Z.of_nat (length (votes_of v id)) < u32_max ->
  write_vote id a kind bn v = (Ok tt, v') ->
  exists l, v' = with_vote v id l a /\ vote_inv v' L
    /\ (forall j, votes_of v' j = if decide (id = j) then votes_of v id ++ [r] else votes_of v j).
Proof.
  intros r Hk Hi Hid Ha Hbn Hnew Hroom Hrun.
  destruct (votes_spec _ _ _ Hi Hid) as (Hrep & Hok & _).
  unfold write_vote in Hrun. minv.
  match goal with H : required_record _ _ = _ |- _ =>
    apply (required_record_inv _ _ _ _ _ Hi) in H as [-> Hq] end.
  match goal with H : ask_voters _ _ _ = _ |- _ =>
    unfold ask_voters in H; minv; rewrite (vec_len_ok _ _ Hrep) in H; simpl in H; minv end.
  match goal with H : on_voters _ _ _ = _ |- _ =>
    unfold on_voters in H; apply zoom_inv in H as (l' & Hpush & ->) end.
  assert (Hr : vote_ok r) by (split_and!; [done|by destruct kind; [left|right]|done]).
  destruct (vec_push_ok _ _ (vote_to_word r) Hrep) as (l2 & Hl2 & Hrep2); [by rewrite length_fmap|].
  fold r in Hpush. rewrite Hpush in Hl2. simplify_eq.
  change [vote_to_word r] with (vote_to_word <$> [r]) in Hrep2. rewrite <- fmap_app in Hrep2.
  rewrite length_fmap, wrapping_add_small by lia. exists l2.
  split; [done|]. change (vote_inv (with_vote v id l2 a) L /\ forall j,
    votes_of (with_vote v id l2 a) j = if decide (id = j) then votes_of v id ++ [r] else votes_of v j).
  split; [by apply (inv_vote v L id l2 r)|].
  - intros j. unfold votes_of at 1. rewrite (voters_with_vote v id l2 a j).
    case_decide; [|done]. rewrite (vec_read_all_ok _ _ Hrep2). apply votes_words.
    by apply Forall_app; split; [|constructor].
Qed.
End Operations.
