(* ===== verification/VoteSteps.v ===== *)
(** The operations of the Vote runtime on a world that satisfies the contract's
    invariant: proposal creation, votes and the tally, each with what it
    changes. The target modules enter through [VoteTarget] only; what the Vote
    contract relies on is that a target leaves the Vote storage, the registry and
    the native balances alone ([frames]). *)

From S2P Require Import Prelude Bytes P2pAddress Native Lifecycle ValidatorSet Containers Vote VoteInv.

(** * Targets and worlds *)

(** The part of the world that belongs to no target module. *)
Definition core {T} (w : World T) : Vote * ValidatorSet * gmap Address Z :=
  (w_vote w, w_validators w, w_native w).

Record frames {T} (t : VoteTarget T) : Prop := {
  fr_reserve : forall env id payload context, keeps core (target_reserve t env id payload context);
  fr_tally : forall env id payload context st,
    keeps core (target_handle_tally t env id payload context st) }.

Definition world_inv `{Keccak} {T} (w : World T) (L : list Z) : Prop :=
  vote_inv (w_vote w) L /\ supply_bounded (w_native w)
  /\ unsettled_bond_liabilities (w_vote w) <= (w_native w).[VOTE_ADDRESS].

(** Yes votes of active validators among the recorded votes. *)
Definition counts (active : list Address) (kind : VoteKind) (r : VoteRecord) : bool :=
  bool_decide (vr_voter r ∈ active) && (vr_vote_kind r =? vote_kind_to_u8 kind).
Definition count_votes (active : list Address) (kind : VoteKind) (votes : list VoteRecord) : Z :=
  Z.of_nat (length (List.filter (counts active kind) votes)).

(** The status the tally decides. *)
Definition tally_status (active : list Address) (n : Z) (votes : list VoteRecord) : ProposalStatus :=
  if quorum_reached (count_votes active Yes votes) n then Approved else Expired.

(** * Generic steps *)

Lemma on_vote_run {T A} (w : World T) (m : M Vote A) r v' :
  m (w_vote w) = (r, v') -> on_vote m w = (r, w <| w_vote := v' |>).
Proof. apply zoom_run. Qed.
Lemma on_vote_inv {T A} (w : World T) (m : M Vote A) r w' :
  on_vote m w = (r, w') -> exists v', m (w_vote w) = (r, v') /\ w' = w <| w_vote := v' |>.
Proof. apply zoom_inv. Qed.
Lemma world_same_vote {T} (w : World T) : w <| w_vote := w_vote w |> = w.
Proof. by destruct w. Qed.

(** Inversion of the calls into the Vote storage. *)
Ltac vinv :=
  repeat match goal with
  | H : on_vote _ _ = (Ok _, _) |- _ =>
      let v := fresh "v" in let Hv := fresh "Hv" in apply on_vote_inv in H as (v & Hv & ->)
  end.

Section Steps.
Context {T : Type} `{X : Externals} `{K : Keccak} `{W : VotingWindow}.
Implicit Types (w : World T) (L : list Z).

Lemma inv_emit v L e : vote_inv v L -> vote_inv (v <| vote_events := e |>) L.
Proof. intros []. by constructor. Qed.

Lemma emit_run v e : vote_emit e v = (Ok tt, v <| vote_events := vote_events v ++ [e] |>).
Proof. done. Qed.

Lemma keeps_core_run {A} (m : M (World T) A) w r w' :
  keeps core m -> m w = (r, w') ->
  w_vote w' = w_vote w /\ w_validators w' = w_validators w /\ w_native w' = w_native w.
Proof.
  intros Hk Hm. pose proof (keeps_run _ _ _ _ _ Hk Hm) as E. unfold core in E. by simplify_eq.
Qed.

Lemma lookup_frames registry target (t : VoteTarget T) :
  Forall frames registry -> registry_lookup registry target = Ok t ->
  frames t /\ target_module t = target /\ t ∈ registry.
Proof.
  intros Hf Hl. unfold registry_lookup in Hl.
  destruct (List.filter _ registry) as [|x [|]] eqn:E; simplify_eq.
  assert (Hin : List.In t (List.filter (fun handler => target_module handler =? target) registry)).
  { rewrite E. by left. }
  apply List.filter_In in Hin as [Hin Ht]. bprop. apply list_elem_of_In in Hin.
  rewrite Forall_forall in Hf. auto.
Qed.

(** ** The tally *)

Lemma tally_votes_eq active votes : Forall vote_ok votes -> forall yes no,
  0 <= yes -> 0 <= no -> yes + no + Z.of_nat (length votes) <= u64_max ->
  tally_votes active votes yes no
  = Ok (MkTally (yes + count_votes active Yes votes) (no + count_votes active No votes)).
Proof.
  unfold count_votes. induction 1 as [|r votes Hr Hv IH]; intros yes no Hy Hn Hmax; simpl.
  { by rewrite !Z.add_0_r. }
  cbn [length] in Hmax. destruct (vote_kind_ok _ Hr) as (k & Ek & Hk).
  assert (Hc : forall k', counts active k' r = is_active_validator (vr_voter r) active
    && match k, k' with Yes, Yes | No, No => true | _, _ => false end).
  { intros k'. unfold counts, is_active_validator. rewrite Hk. by destruct k, k'. }
  rewrite !Hc. destruct (is_active_validator (vr_voter r) active); cbn [negb andb].
  - rewrite Ek. destruct k; cbn [rbind]; rewrite wrapping_add_small, IH by lia;
      do 2 f_equal; cbn [length]; lia.
  - apply IH; lia.
Qed.

Lemma tally_runs v L p active :
  vote_inv v L -> in_range u256_max (pr_id p) ->
  calculate_vote_tally p active v
  = (Ok (MkTally (count_votes active Yes (votes_of v (pr_id p)))
                 (count_votes active No (votes_of v (pr_id p)))), v).
Proof.
  intros Hi Hid. destruct (votes_spec _ _ _ Hi Hid) as (Hrep & Hok & _).
  unfold calculate_vote_tally, ask_voters, reads, mbind, lift.
  rewrite (vec_read_all_ok _ _ Hrep). simpl. rewrite (votes_words _ Hok).
  rewrite tally_votes_eq; try done. destruct Hrep as (_ & Hm & _). rewrite length_fmap in Hm.
  unfold u64_max, u32_max in *. lia.
Qed.

(** ** Settling a bond *)

(** The native balances after a bond of [amount] left the contract, to [owner]
    when it is refunded. *)
Definition settled_native (n n' : gmap Address Z) (amount : Z) (owner : Address)
    (st : ProposalStatus) : Prop :=
  forall a, n'.[a] = n.[a] - (if decide (a = VOTE_ADDRESS) then amount else 0)
    + (if decide (st = Approved /\ a = owner) then amount else 0).

Lemma settle_money w owner amount st :
  st = Approved \/ st = Expired -> supply_bounded (w_native w) ->
  0 < amount <= (w_native w).[VOTE_ADDRESS] ->
  exists n', (if decide (st = Approved) then transfer_balance VOTE_ADDRESS owner amount
              else decrease_balance VOTE_ADDRESS amount) w = (Ok tt, w <| w_native := n' |>)
    /\ settled_native (w_native w) n' amount owner st /\ supply_bounded n'.
Proof.
  intros Hst Hs Ha. destruct (decide (st = Approved)) as [->|Hne].
  - destruct (decide (VOTE_ADDRESS = owner)) as [<-|Ho].
    + exists (w_native w). split_and!; [|intros a; repeat case_decide; naive_solver lia|done].
      unfold transfer_balance. rewrite (proj2 (Z.eqb_neq _ _)) by lia. rewrite Z.eqb_refl.
      by destruct w.
    + destruct (transfer_succeeds VOTE_ADDRESS owner amount w) as [w' Hr]; [lia|done|simpl; lia| |].
      { simpl. pose proof (map_sum_le2 _ _ _ Ho (proj1 Hs)). destruct Hs. lia. }
      pose proof (transfer_supply _ _ _ _ _ Hr) as Hsum.
      destruct (transfer_inv _ _ _ _ _ Hr) as (n & -> & _ & _ & Hn & Hb); [lia|]. simpl in *.
      exists n. split_and!; [done| |].
      * intros a. rewrite (Hn Ho). repeat case_decide; naive_solver lia.
      * split; [|rewrite Hsum; apply Hs]. intros a. apply (Hb (supply_balances _ Hs)).
  - destruct (decrease_succeeds VOTE_ADDRESS amount w) as [w' Hr]; [simpl; lia|].
    pose proof (decrease_supply _ _ _ _ Hr ltac:(lia)) as Hsum.
    destruct (decrease_inv _ _ _ _ Hr) as (n & -> & _ & Hn & Hb); [lia|]. simpl in *.
    exists n. split_and!; [done| |].
    + intros a. rewrite Hn. repeat case_decide; naive_solver lia.
    + split; [|destruct Hs; lia]. intros a. apply (Hb (supply_balances _ Hs)).
Qed.

(** What settling leaves in the Vote storage: the settlement of one proposal,
    the liabilities and the log. *)
Lemma settle_runs w id p owner b st :
  get_record (w_vote w) id = Some p -> st = Approved \/ st = Expired ->
  bond_amount b = (proposal_bond_amount (w_vote w)).[id] ->
  bond_settlement_from_u8 (proposal_bond_settlement (w_vote w)).[id] = Ok (bond_settlement b) ->
  bond_agrees (bond_amount b) (bond_settlement b) Pending ->
  supply_bounded (w_native w) ->
  bond_amount b <= unsettled_bond_liabilities (w_vote w) <= (w_native w).[VOTE_ADDRESS] ->
  exists n' m' e' b', settle_terminal_bond id owner b st w
      = (Ok tt, w <| w_native := n' |> <| w_vote := (w_vote w) <| proposal_bond_settlement := m' |>
           <| unsettled_bond_liabilities := unsettled_bond_liabilities (w_vote w) - bond_amount b |>
           <| vote_events := e' |> |>)
    /\ settled_native (w_native w) n' (bond_amount b) owner st /\ supply_bounded n'
    /\ bond_settlement_from_u8 m'.[id] = Ok b' /\ bond_agrees (bond_amount b) b' st
    /\ (forall j, j <> id -> m'.[j] = (proposal_bond_settlement (w_vote w)).[j]).
Proof.
  intros Hp Hst Ham Hs Hag Hsup Hle. unfold settle_terminal_bond.
  destruct (bond_settlement b) eqn:Eb; simpl in Hag.
  - exists (w_native w), (proposal_bond_settlement (w_vote w)), (vote_events (w_vote w)), NoBond.
    split_and!; try done; [|intros a; repeat case_decide; lia].
    rewrite Hag, Z.sub_0_r. by destruct w as [[] ? ? ?].
  - destruct (settle_money w owner (bond_amount b) st) as (n' & Hm & Hn & Hsb); [done|done|lia|].
    set (w1 := w <| w_native := n' |>) in *.
    destruct Hst as [-> | ->]; rewrite ?decide_True in Hm by done.
    + eexists n', _, _, Refunded. split_and!; [|done|done| | |].
      * eapply mbind_ok_intro; [exact Hm|]. eapply mbind_ok_intro.
        { apply on_vote_run. eapply (settle_accounting_runs _ _ p Refunded); [done|by left|done|].
          simpl. rewrite <- Ham. lia. }
        rewrite (on_vote_run _ _ _ _ (emit_run _ _)). simpl. by rewrite Ham.
      * rewrite mread_mwrite_eq. done.
      * split; [lia|done].
      * intros j Hj. by rewrite mread_mwrite_ne.
    + rewrite decide_False in Hm by done. eexists n', _, _, Burned. split_and!; [|done|done| | |].
      * eapply mbind_ok_intro; [exact Hm|]. eapply mbind_ok_intro.
        { apply on_vote_run. eapply (settle_accounting_runs _ _ p Burned); [done|by right|done|].
          simpl. rewrite <- Ham. lia. }
        rewrite (on_vote_run _ _ _ _ (emit_run _ _)). simpl. by rewrite Ham.
      * rewrite mread_mwrite_eq. done.
      * split; [lia|done].
      * intros j Hj. by rewrite mread_mwrite_ne.
  - by destruct Hag.
  - by destruct Hag.
Qed.

(** ** Closing a proposal *)

(** The status after the target answered. *)
Definition final_status (st : ProposalStatus) (o : TargetExecutionOutcome) : ProposalStatus :=
  match o with Applied => st | ExecutionError _ => Error end.

(** What closing proposal [id], whose record is [p], changes: its status, its
    bond when the target applied the outcome, and the target's storage, which an
    execution error leaves as it was. *)
Record closed w (id : Z) (p : ProposalRecord) (st : ProposalStatus) (o : TargetExecutionOutcome)
    (target' : T) w' : Prop := {
  cl_proposals : proposals (w_vote w') =
    <[id := p <| pr_status := proposal_status_to_u8 (final_status st o) |>]> (proposals (w_vote w));
  cl_target : w_target w' = match o with Applied => target' | ExecutionError _ => w_target w end;
  cl_validators : w_validators w' = w_validators w;
  cl_native : settled_native (w_native w) (w_native w')
    (match o with Applied => (proposal_bond_amount (w_vote w)).[id] | ExecutionError _ => 0 end)
    (pr_proposer p) st;
  cl_amounts : proposal_bond_amount (w_vote w') = proposal_bond_amount (w_vote w);
  cl_count : proposal_count (w_vote w') = proposal_count (w_vote w);
  cl_votes : proposal_voters (w_vote w') = proposal_voters (w_vote w) }.

Lemma settled_zero n owner st : settled_native n n 0 owner st.
Proof. intros a. repeat case_decide; lia. Qed.

Lemma record_range v L id p : vote_inv v L -> proposals v !! id = Some p -> in_range u256_max id.
Proof.
  intros Hi Hp. pose proof (vi_count _ _ Hi) as Hc. unfold in_range in *.
  assert (1 <= id <= proposal_count v); [|lia]. apply (vi_dense _ _ Hi). eauto.
Qed.

(** The body of [finalize_voting] under its checkpoint, from the outcome on. *)
Definition conclude (id : Z) (p : ProposalRecord) (tally : VoteTally) (bond : ProposalBond)
    (st : ProposalStatus) (o : TargetExecutionOutcome) : M (World T) unit :=
  let! outcome :=
    (match o with
     | Applied =>
         on_vote (set_proposal_status id st) ;;;
         settle_terminal_bond id (pr_proposer p) bond st ;;;
         mret st
     | ExecutionError _ =>
         on_vote (set_proposal_status id Error) ;;;
         mret Error
     end) in
  let! event := lift (finalized_event outcome (pr_id p) tally) in
  on_vote (vote_emit event).

Lemma conclude_error w L id p tally bond st e :
  world_inv w L -> proposals (w_vote w) !! id = Some p -> proposal_status p = Ok Pending ->
  exists w', conclude id p tally bond st (ExecutionError e) w = (Ok tt, w') /\ world_inv w' L
    /\ closed w id p st (ExecutionError e) (w_target w) w'.
Proof.
  intros (Hi & Hs & Hsol) Hp Hst.
  destruct (set_status_runs _ _ _ _ Error Hi Hp Hst ltac:(done)) as (l' & L' & Hrun & Hrep & HL).
  simpl in HL. subst L'. eexists. split_and!.
  - unfold conclude. eapply mbind_ok_intro.
    { eapply mbind_ok_intro; [by apply on_vote_run|done]. }
    eapply mbind_ok_intro; [done|]. by apply on_vote_run.
  - destruct (vi_status _ _ Hi _ _ Hp) as (st0 & E0 & _). assert (st0 = Pending) as -> by congruence.
    destruct (vi_bond _ _ Hi _ _ _ Hp E0) as (b & Hb & Hag).
    split_and!; simpl; [|done|done]. apply inv_emit.
    pose proof (inv_closed _ _ id p Error b l' L (proposal_bond_settlement (w_vote w)) Hi Hp Hst
      ltac:(done) ltac:(done) Hrep eq_refl Hb) as Hc.
    destruct (vi_liabilities _ _ Hi) as [El _]. rewrite <- El in Hc. apply Hc; [|done].
    destruct b; simpl in *; naive_solver.
  - constructor; simpl; try done. apply settled_zero.
Qed.

Lemma conclude_applied w L id p tally bond st :
  world_inv w L -> proposals (w_vote w) !! id = Some p -> proposal_status p = Ok Pending ->
  st = Approved \/ st = Expired ->
  proposal_bond id (w_vote w) = (Ok bond, w_vote w) ->
  exists w' L', conclude id p tally bond st Applied w = (Ok tt, w') /\ world_inv w' L'
    /\ L ≡ₚ id :: L' /\ closed w id p st Applied (w_target w) w'.
Proof.
  intros (Hi & Hs & Hsol) Hp Hst Hst' Hbond.
  destruct (proposal_bond_runs _ _ _ _ _ Hi Hp Hst) as (b & Hb & Ham & Hset & Hag).
  rewrite Hbond in Hb. simplify_eq.
  destruct (set_status_runs _ _ _ _ st Hi Hp Hst) as (l' & L' & Hrun & Hrep & HL);
    [by destruct Hst' as [-> | ->]|].
  assert (Hu : unsettled st = false) by by destruct Hst' as [-> | ->]. rewrite Hu in HL.
  destruct (vi_liabilities _ _ Hi) as [El Hm]. destruct (vi_record _ _ Hi _ _ Hp) as [Eid Hprop].
  assert (Hsum : bond_sum (w_vote w) L = bond_amount b + bond_sum (w_vote w) L').
  { rewrite (bond_sum_perm _ _ _ HL), Ham. done. }
  assert (Hnn : 0 <= bond_sum (w_vote w) L').
  { apply bond_sum_nonneg. intros j. by eapply amount_nonneg. }
  set (w1 := w <| w_vote := (w_vote w) <| proposals := <[id := p <| pr_status := proposal_status_to_u8 st |>]>
      (proposals (w_vote w)) |> <| pending_proposal_ids := l' |> |>).
  destruct (settle_runs w1 id (p <| pr_status := proposal_status_to_u8 st |>) (pr_proposer p) b st)
    as (n' & m' & e' & b' & Hsr & Hn & Hsb & Hb' & Hag' & Hm'); try done; simpl.
  { unfold get_record. simpl. rewrite lookup_insert_eq. simpl. by rewrite (proj2 (Z.eqb_neq _ _)). }
  { lia. }
  assert (Hr : st <> Pending /\ st <> Rejected) by by destruct Hst' as [-> | ->].
  assert (Hev : exists ev, finalized_event st (pr_id p) tally = Ok ev).
  { destruct Hst' as [-> | ->]; simpl; eauto. }
  destruct Hev as [ev Hev]. eexists _, L'. split_and!; [|split_and!| |].
  - unfold conclude. eapply mbind_ok_intro.
    { eapply mbind_ok_intro; [by apply on_vote_run|]. eapply mbind_ok_intro; [exact Hsr|done]. }
    eapply mbind_ok_intro; [unfold lift; by rewrite Hev|]. by apply on_vote_run.
  - simpl. apply inv_emit, (inv_emit _ _ e').
    pose proof (inv_closed _ _ id p st b' l' L' m' Hi Hp Hst (proj1 Hr) (proj2 Hr) Hrep) as Hc.
    rewrite Hu in Hc. specialize (Hc HL Hb').
    replace (bond_sum (w_vote w) L') with (unsettled_bond_liabilities (w_vote w) - bond_amount b) in Hc by lia.
    apply Hc; [by rewrite <- Ham|done].
  - done.
  - simpl. rewrite Hn. simpl. pose proof (amount_nonneg _ _ id Hi). repeat case_decide; try done; lia.
  - done.
  - constructor; simpl; try done. by rewrite <- Ham.
Qed.

Lemma tally_status_cases active n votes :
  tally_status active n votes = Approved \/ tally_status active n votes = Expired.
Proof. unfold tally_status. case_match; auto. Qed.

Lemma handle_keeps_core env registry id p amount st :
  Forall frames registry -> keeps core (@handle_target_tally T registry env id p amount st).
Proof.
  intros Hf. unfold handle_target_tally. intros w. unfold mbind, lift.
  destruct (registry_lookup registry (pr_target_module p)) as [t| |] eqn:El; [|done|done].
  destruct (lookup_frames _ _ _ Hf El) as (Ht & _). by apply (fr_tally _ Ht).
Qed.

(** Closing a pending proposal, given the answer of its target. *)
Lemma finalize_voting_runs env registry w L id p active n o w1 :
  Forall frames registry -> world_inv w L ->
  proposals (w_vote w) !! id = Some p -> proposal_status p = Ok Pending ->
  active_validator_addresses (w_validators w) = Ok active ->
  active_validator_count (w_validators w) = Ok n ->
  let st := tally_status active n (votes_of (w_vote w) id) in
  handle_target_tally registry env id p (proposal_bond_amount (w_vote w)).[id] st w = (Ok o, w1) ->
  exists w' L', finalize_voting env registry id w = (Ok tt, w') /\ world_inv w' L'
    /\ closed w id p st o (w_target w1) w'
    /\ match o with Applied => L ≡ₚ id :: L' | ExecutionError _ => L' = L end.
Proof.
  intros Hf Hw Hp Hst Hact Hn st Hh. pose proof Hw as (Hi & Hs & Hsol).
  destruct (proposal_bond_runs _ _ _ _ _ Hi Hp Hst) as (b & Hb & Ham & Hset & Hag).
  destruct (vi_record _ _ Hi _ _ Hp) as [Eid _].
  destruct (keeps_core_run _ _ _ _ (handle_keeps_core env registry id p _ st Hf) Hh) as (Ev & Evs & En).
  set (tally := MkTally (count_votes active Yes (votes_of (w_vote w) id))
                        (count_votes active No (votes_of (w_vote w) id))).
  assert (Hbody : forall w2 w', target_checkpoint (handle_target_tally registry env id p
      (bond_amount b) st) w = (Ok o, w2) -> conclude id p tally b st o w2 = (Ok tt, w') ->
    finalize_voting env registry id w = (Ok tt, w')).
  { intros w2 w' Htc Hc. unfold finalize_voting.
    eapply mbind_ok_intro; [apply on_vote_run; by apply (required_record_runs _ L)|].
    rewrite world_same_vote. eapply mbind_ok_intro; [unfold lift; by rewrite Hst|].
    rewrite bool_decide_eq_true_2 by done. cbn [negb].
    eapply mbind_ok_intro; [unfold reads; by rewrite Hact|].
    eapply mbind_ok_intro; [apply on_vote_run, (tally_runs _ L); rewrite ?Eid; [done|by eapply record_range]|].
    rewrite world_same_vote, Eid. eapply mbind_ok_intro; [unfold reads; by rewrite Hn|].
    eapply mbind_ok_intro; [apply on_vote_run; exact Hb|]. rewrite world_same_vote.
    apply with_checkpoint_ok. eapply mbind_ok_intro; [exact Htc|].
    unfold conclude in Hc. rewrite Eid in Hc. exact Hc. }
  rewrite <- Ham in Hh. destruct o as [|e].
  - assert (Hw1 : world_inv w1 L) by by unfold world_inv; rewrite Ev, En.
    destruct (conclude_applied w1 L id p tally b st) as (w' & L' & Hc & Hw' & HL & Hcl);
      rewrite ?Ev; try done; [apply tally_status_cases|].
    exists w', L'. split_and!; [|done| |done].
    + eapply Hbody; [|exact Hc]. unfold target_checkpoint. by rewrite Hh.
    + destruct Hcl. constructor; rewrite ?Ev, ?Evs, ?En in *; done.
  - destruct (conclude_error w L id p tally b st e Hw Hp Hst) as (w' & Hc & Hw' & Hcl).
    exists w', L. split_and!; [|done| |done].
    + eapply Hbody; [|exact Hc]. unfold target_checkpoint. by rewrite Hh.
    + destruct Hcl. by constructor.
Qed.

(** A run of [finalize_voting] that succeeds on a pending proposal heard the
    target. *)
Lemma finalize_heard env registry w L id p w' :
  world_inv w L -> proposals (w_vote w) !! id = Some p -> proposal_status p = Ok Pending ->
  finalize_voting env registry id w = (Ok tt, w') ->
  exists active n o w1, active_validator_addresses (w_validators w) = Ok active
    /\ active_validator_count (w_validators w) = Ok n
    /\ handle_target_tally registry env id p (proposal_bond_amount (w_vote w)).[id]
         (tally_status active n (votes_of (w_vote w) id)) w = (Ok o, w1).
Proof.
  intros (Hi & _) Hp Hst Hrun. destruct (vi_record _ _ Hi _ _ Hp) as [Eid _].
  destruct (proposal_bond_runs _ _ _ _ _ Hi Hp Hst) as (b & Hb & Ham & _).
  unfold finalize_voting in Hrun.
  apply mbind_ok in Hrun as (q & w2 & Hq & Hrun). vinv.
  apply (required_record_inv _ _ _ _ _ Hi) in Hv as [-> Hv]. rewrite world_same_vote in Hrun. simplify_eq.
  apply mbind_ok in Hrun as (st0 & w2 & Hst0 & Hrun). apply lift_ok in Hst0 as [Hst0 ->].
  rewrite Hst in Hst0. simplify_eq.
  rewrite bool_decide_eq_true_2 in Hrun by done. cbn [negb] in Hrun.
  apply mbind_ok in Hrun as (active & w2 & Hact & Hrun). apply reads_ok in Hact as [Hact ->].
  apply mbind_ok in Hrun as (tally & w2 & Htally & Hrun). vinv.
  rewrite (tally_runs _ L) in Hv; [|done|by eapply record_range]. simplify_eq.
  rewrite world_same_vote in Hrun.
  apply mbind_ok in Hrun as (n & w2 & Hn & Hrun). apply reads_ok in Hn as [Hn ->].
  apply mbind_ok in Hrun as (b' & w2 & Hb' & Hrun). vinv. rewrite Hb in Hv. simplify_eq.
  rewrite world_same_vote in Hrun. minv.
  match goal with H : target_checkpoint _ _ = (Ok ?o, _) |- _ => rename H into Ht end.
  unfold target_checkpoint in Ht. destruct (handle_target_tally _ _ _ _ _ _ w) as [[o'| |] w1] eqn:Hh;
    [|done|done].
  rewrite Ham in Hh. cbn [tally_yes] in Hh. eexists _, _, o', w1. done.
Qed.

(** ** Creating a proposal *)

Lemma ro_on_vote {A} (m : M Vote A) : ro m -> ro (@on_vote T A m).
Proof.
  intros Hm w. unfold on_vote, zoom. specialize (Hm (w_vote w)).
  destruct (m (w_vote w)) as [r v]. simpl in *. subst. apply world_same_vote.
Qed.
Lemma ro_on_pending {A} (m : M StorageVec A) : ro m -> ro (on_pending m).
Proof.
  intros Hm v. unfold on_pending, zoom. specialize (Hm (pending_proposal_ids v)).
  destruct (m (pending_proposal_ids v)) as [r l]. simpl in *. subst. apply vote_same_pending.
Qed.
Lemma ro_vec_len : ro vec_len.
Proof. unfold vec_len. solve_ro. Qed.
Lemma ro_vec_read_all : ro vec_read_all.
Proof. unfold vec_read_all, vec_read. pose proof ro_vec_len. solve_ro. Qed.
Lemma ro_required_record id : ro (required_record id).
Proof. unfold required_record. solve_ro. Qed.

Lemma ro_count_public_bonded (registry : list (VoteTarget T)) who ids : forall total mine,
  ro (count_public_bonded registry who ids total mine).
Proof.
  pose proof ro_required_record. induction ids; intros total mine; simpl; solve_ro.
Qed.

Lemma ro_ensure_active a : ro (@ensure_active_validator T X a).
Proof. unfold ensure_active_validator. solve_ro. Qed.

Lemma ro_check_admission a proposer value : ro (@check_admission T X a proposer value).
Proof. pose proof ro_ensure_active. unfold check_admission. solve_ro. Qed.

Lemma ro_check_pending_limits (registry : list (VoteTarget T)) a proposer :
  ro (check_pending_limits registry a proposer).
Proof.
  pose proof (ro_on_pending _ ro_vec_read_all). pose proof (ro_count_public_bonded registry proposer).
  unfold check_pending_limits. destruct a; (apply ro_bind; [apply ro_on_vote|intros ?; solve_ro]).
  - unfold pending_proposal_count_by_proposer, list_pending_proposal_ids. solve_ro.
  - unfold pending_public_bonded_counts, list_pending_proposal_ids. solve_ro.
Qed.

(** A created proposal: its record, its bond, the target's reservation. *)
Record created env (t : VoteTarget T) w (proposer : Address) (payload : list Z) (height value : Z)
    (id : Z) w' : Prop := {
  ct_id : id = proposal_count (w_vote w) + 1;
  ct_count : proposal_count (w_vote w') = id;
  ct_admitted : check_admission (admission t) proposer value w = (Ok tt, w);
  ct_valid : target_validate t payload (MkContext proposer value height (chain_id env)) = Ok tt;
  ct_proposals : proposals (w_vote w') =
    <[id := MkProposal id proposer (target_module t) payload height
              (saturating_add u64_max height voting_window_blocks) 0]> (proposals (w_vote w));
  ct_bond : forall j, (proposal_bond_amount (w_vote w')).[j] =
    if decide (j = id) then match admission t with PublicBonded a => a | ActiveValidatorOnly => 0 end
    else (proposal_bond_amount (w_vote w)).[j];
  ct_votes : proposal_voters (w_vote w') = proposal_voters (w_vote w);
  ct_native : w_native w' = w_native w;
  ct_validators : w_validators w' = w_validators w;
  ct_reserved : exists w1 w2, w_target w1 = w_target w
    /\ target_reserve t env id payload (MkContext proposer value height (chain_id env)) w1 = (Ok tt, w2)
    /\ w_target w' = w_target w2 }.

Lemma escrow_inv w L a id p proposer w' :
  vote_inv (w_vote w) L -> supply_bounded (w_native w) -> id ∈ L ->
  proposals (w_vote w) !! id = Some p -> proposal_status p = Ok Pending ->
  (proposal_bond_amount (w_vote w)).[id] = 0 ->
  match a with
  | PublicBonded amount => 0 <= amount
  | ActiveValidatorOnly => unsettled_bond_liabilities (w_vote w) <= (w_native w).[VOTE_ADDRESS]
  end ->
  escrow_bond a id proposer w = (Ok tt, w') ->
  world_inv w' L /\ w_native w' = w_native w /\ w_validators w' = w_validators w
  /\ w_target w' = w_target w /\ proposals (w_vote w') = proposals (w_vote w)
  /\ proposal_count (w_vote w') = proposal_count (w_vote w)
  /\ proposal_voters (w_vote w') = proposal_voters (w_vote w)
  /\ forall j, (proposal_bond_amount (w_vote w')).[j] =
       if decide (j = id) then match a with PublicBonded a => a | ActiveValidatorOnly => 0 end
       else (proposal_bond_amount (w_vote w)).[j].
Proof.
  intros Hi Hs Hin Hp Hst Hz Ha Hrun. destruct a as [|amount]; simpl in Hrun; minv.
  - split; [done|]. split_and!; try done. intros j. case_decide; by subst.
  - vinv. unfold bond_liabilities, balance in *. minv. simpl in *.
    match goal with H : record_proposal_bond _ _ _ = _ |- _ =>
      apply (record_bond_inv _ L _ p) in H as [-> Hi2]; try done end.
    match goal with H : vote_emit _ _ = _ |- _ => rewrite emit_run in H end. simplify_eq. bprop.
    split_and!; simpl; try done.
    + split_and!; simpl; [by apply inv_emit|done|]. simpl in *. lia.
    + intros j. case_decide; [subst; by rewrite mread_mwrite_eq|by rewrite mread_mwrite_ne].
Qed.

Lemma create_inv env registry w L proposer target payload height value id w' :
  Forall frames registry -> world_inv w L -> proposer <> 0 -> 0 <= value ->
  create_proposal_with_value env registry proposer target payload height value w = (Ok id, w') ->
  exists t, registry_lookup registry target = Ok t
    /\ created env t w proposer payload height value id w' /\ world_inv w' (L ++ [id]).
Proof.
  intros Hf (Hi & Hs & Hsol) Hprop Hval Hrun. unfold create_proposal_with_value in Hrun.
  apply mbind_ok in Hrun as (t & w0 & Ht & Hrun). apply lift_ok in Ht as [Ht ->]. exists t.
  destruct (lookup_frames _ _ _ Hf Ht) as (Hft & Em & _).
  apply mbind_ok in Hrun as ([] & w0 & Hadm & Hrun).
  pose proof (ro_run _ _ _ _ (ro_check_admission _ _ _) Hadm) as ->.
  apply mbind_ok in Hrun as (len & w0 & Hlen & Hrun).
  pose proof (ro_run _ _ _ _ (ro_on_vote _ (ro_on_pending _ ro_vec_len)) Hlen) as ->.
  apply mbind_ok in Hrun as ([] & w0 & Hcap & Hrun). apply require_ok in Hcap as [Hcap ->].
  apply mbind_ok in Hrun as ([] & w0 & Hlim & Hrun).
  pose proof (ro_run _ _ _ _ (ro_check_pending_limits _ _ _) Hlim) as ->. clear Hlim.
  apply mbind_ok in Hrun as ([] & w0 & Hvalid & Hrun). apply lift_ok in Hvalid as [Hvalid ->].
  unfold validate_target_payload in Hvalid. rewrite Ht in Hvalid. simpl in Hvalid.
  unfold on_vote, on_pending, zoom in Hlen. rewrite (vec_len_ok _ _ (vi_rep _ _ Hi)) in Hlen.
  simplify_eq. bprop. minv. vinv.
  match goal with H : write_proposal _ _ _ _ _ _ _ = _ |- _ =>
    apply (write_proposal_inv _ L) in H as (-> & Ev & Hi1); [|done..] end.
  set (id := proposal_count (w_vote w) + 1) in *.
  match goal with H : reserve_target_proposal _ _ _ _ _ _ _ = _ |- _ => rename H into Hres end.
  unfold reserve_target_proposal in Hres. rewrite Ht in Hres.
  apply mbind_ok in Hres as (t' & w1 & Ht' & Hres). apply lift_ok in Ht' as [Ht' ->].
  assert (t' = t) as -> by congruence.
  destruct (keeps_core_run _ _ _ _ (fr_reserve _ Hft _ _ _ _) Hres) as (Ev1 & Evs1 & En1).
  simpl in Ev1, Evs1, En1.
  match goal with H : vote_emit _ _ = _ |- _ =>
    rewrite emit_run in H; apply pair_equal_spec in H as [_ <-] end.
  match goal with H : escrow_bond _ _ _ _ = _ |- _ =>
    apply (escrow_inv _ (L ++ [id]) _ _ (MkProposal id proposer (target_module t) payload height
      (saturating_add u64_max height voting_window_blocks) 0)) in H end.
  - match goal with H : world_inv _ _ /\ _ |- _ =>
      destruct H as (Hw' & En & Evs & Et & Ep & Ec & Evo & Eb) end.
    rewrite Ev1, Ev in Ep, Ec, Evo, Eb. simpl in Ep, Ec, Evo, Eb.
    split; [done|].
    split; [|destruct Hw' as (H1 & H2 & H3); split_and!; simpl; [by apply inv_emit|done|done]].
    constructor; simpl; try done; [by rewrite En|by rewrite Evs|].
    eexists _, _. split_and!; [|exact Hres|done]. done.
  - by rewrite Ev1.
  - by rewrite En1.
  - set_solver.
  - rewrite Ev1, Ev. simpl. by rewrite lookup_insert_eq.
  - done.
  - rewrite Ev1, Ev. simpl. apply (vi_nobond _ _ Hi). apply eq_None_not_Some.
    rewrite (vi_dense _ _ Hi). unfold id. lia.
  - destruct (admission t) as [|a]; simpl in Hadm; minv; bprop; [|lia].
    rewrite Ev1, En1, Ev. simpl. done.
Qed.

(** ** Voting *)

(** A recorded vote: who may cast it, when, and that only the list of the
    proposal grows. *)
Record voted w (id : Z) (voter : Address) (approve : bool) (height : Z) w' : Prop := {
  vo_active : exists l, validator_lifecycle (w_validators w) voter = Ok l /\ is_active_status l = true;
  vo_open : exists p, proposals (w_vote w) !! id = Some p /\ proposal_status p = Ok Pending
    /\ height <= pr_voting_deadline_height p;
  vo_fresh : voter ∉ vr_voter <$> votes_of (w_vote w) id;
  vo_votes : forall j, votes_of (w_vote w') j = if decide (id = j)
    then votes_of (w_vote w) id ++ [MkVoteRecord voter (vote_kind_to_u8 (from_approve approve)) height]
    else votes_of (w_vote w) j;
  vo_proposals : proposals (w_vote w') = proposals (w_vote w);
  vo_amounts : proposal_bond_amount (w_vote w') = proposal_bond_amount (w_vote w);
  vo_count : proposal_count (w_vote w') = proposal_count (w_vote w);
  vo_rest : w_native w' = w_native w /\ w_validators w' = w_validators w /\ w_target w' = w_target w }.

Lemma cast_inv w L id voter approve height w' :
  keccak_injective_52 -> world_inv w L -> address_ok voter -> in_range u64_max height ->
  Z.of_nat (length (votes_of (w_vote w) id)) < u32_max ->
  cast_vote_approve id voter approve height w = (Ok tt, w') ->
  voted w id voter approve height w' /\ world_inv w' L.
Proof.
  intros Hk (Hi & Hs & Hsol) Ha Hh Hroom Hrun. unfold cast_vote_approve in Hrun.
  apply mbind_ok in Hrun as ([] & w0 & Hact & Hrun).
  pose proof (ro_run _ _ _ _ (ro_ensure_active _) Hact) as ->.
  apply mbind_ok in Hact as (l & w0 & Hl & Hact). apply reads_ok in Hl as [Hl ->].
  apply require_ok in Hact as [Hact _].
  apply mbind_ok in Hrun as (p & w0 & Hp & Hrun). vinv.
  apply (required_record_inv _ _ _ _ _ Hi) in Hv as [-> Hp]. rewrite world_same_vote in Hrun.
  pose proof (record_range _ _ _ _ Hi Hp) as Hid.
  apply mbind_ok in Hrun as (st & w0 & Hst & Hrun). apply lift_ok in Hst as [Hst ->].
  apply mbind_ok in Hrun as ([] & w0 & Hpend & Hrun). apply require_ok in Hpend as [Hpend ->].
  apply mbind_ok in Hrun as ([] & w0 & Hdead & Hrun). apply require_ok in Hdead as [Hdead ->].
  apply mbind_ok in Hrun as (o & w0 & Ho & Hrun). vinv.
  destruct (read_vote_runs _ _ _ _ Hi Hid Ha) as (o' & Ho' & Hiff). rewrite Ho' in Hv. simplify_eq.
  rewrite world_same_vote in Hrun. minv. vinv. bprop.
  match goal with H : write_vote _ _ _ _ _ = _ |- _ =>
    apply (write_vote_inv _ L) in H as (vec & -> & Hi' & Hvs); try done end.
  - match goal with H : vote_emit _ _ = _ |- _ => rewrite emit_run in H end. simplify_eq.
    split; [|split_and!; simpl; [by apply inv_emit|done|done]].
    constructor; simpl; try done; [by eauto|exists p; split_and!; [done|by subst|lia]|].
    intros Hin%Hiff. done.
  - intros Hin%Hiff. done.
Qed.
End Steps.
