(* ===== verification/VoteProps.v ===== *)
(** What the Vote contract guarantees over every sequence of calls, blocks and
    steps of the rest of the chain: the bonds are covered, each validator counts
    once, only a quorum approves, the hook does what the tally and the targets'
    answers say, and it never fails while the targets keep their contract. *)

From S2P Require Import Prelude Bytes P2pAddress Native Lifecycle ValidatorSet ValidatorSetInv ValidatorSetMoves ValidatorSetProps Containers Vote VoteInv VoteSteps.

Lemma NoDup_fst_inj {A B} (l : list (A * B)) (x : A) (y z : B) :
  NoDup (l.*1) -> (x, y) ∈ l -> (x, z) ∈ l -> y = z.
Proof.
  intros Hnd [i Hi]%list_elem_of_lookup [j Hj]%list_elem_of_lookup.
  assert (i = j) as <-; [|congruence].
  apply (NoDup_lookup _ _ _ x Hnd); rewrite list_lookup_fmap; [by rewrite Hi|by rewrite Hj].
Qed.

(** * The block hook *)

#[global] Instance result_status_eq_dec : EqDecision (result ProposalStatus).
Proof. solve_decision. Defined.

(** The proposal's window has closed while it was pending. *)
Definition due (env : Env) (p : ProposalRecord) : bool :=
  bool_decide (proposal_status p = Ok Pending) && (pr_voting_deadline_height p <? block_number env).

(** The bond that a closed proposal gave up, and what of it went to [a]. *)
Definition closed_bond (v : Vote) (id : Z) : Z :=
  match proposals v !! id with
  | Some p => if bool_decide (proposal_status p = Ok Approved \/ proposal_status p = Ok Expired)
              then (proposal_bond_amount v).[id] else 0
  | None => 0
  end.
Definition refund_to (v : Vote) (a : Address) (id : Z) : Z :=
  match proposals v !! id with
  | Some p => if bool_decide (proposal_status p = Ok Approved /\ pr_proposer p = a)
              then (proposal_bond_amount v).[id] else 0
  | None => 0
  end.
Definition sum_over (f : Z -> Z) (ids : list Z) : Z := foldr (fun id acc => f id + acc) 0 ids.

Section Block.
Context {T : Type} `{X : Externals} `{K : Keccak}.
Implicit Types (w : World T) (L : list Z).

(** What a target answered, by proposal, in the order of the calls. *)
Abbreviation Outcomes := (list (Z * TargetExecutionOutcome)).

(** The hook as a sequence: each due proposal is put to its target, in the state
    the proposals before it left, and closed on the answer; the others are
    passed over. *)
Inductive answers (env : Env) (registry : list (VoteTarget T)) :
    list Z -> World T -> Outcomes -> World T -> Prop :=
  | answers_nil w : answers env registry [] w [] w
  | answers_open id ids p w outs w' :
      proposals (w_vote w) !! id = Some p -> due env p = false ->
      answers env registry ids w outs w' -> answers env registry (id :: ids) w outs w'
  | answers_close id ids p active n o w wt w1 outs w' :
      proposals (w_vote w) !! id = Some p -> due env p = true ->
      active_validator_addresses (w_validators w) = Ok active ->
      active_validator_count (w_validators w) = Ok n ->
      handle_target_tally registry env id p (proposal_bond_amount (w_vote w)).[id]
        (tally_status active n (votes_of (w_vote w) id)) w = (Ok o, wt) ->
      closed w id p (tally_status active n (votes_of (w_vote w) id)) o (w_target wt) w1 ->
      answers env registry ids w1 outs w' -> answers env registry (id :: ids) w ((id, o) :: outs) w'.

(** The decision on a due proposal: the tally of the votes recorded before the
    block among the validators active in it, when its target applied the outcome,
    and Error exactly when the target answered with an execution error. *)
Definition decided w (outs : Outcomes) (id : Z) (p p' : ProposalRecord) : Prop :=
  exists active n o, active_validator_addresses (w_validators w) = Ok active
    /\ active_validator_count (w_validators w) = Ok n
    /\ (id, o) ∈ outs
    /\ p' = p <| pr_status := proposal_status_to_u8
                   (final_status (tally_status active n (votes_of (w_vote w) id)) o) |>.

Definition due_in (env : Env) w (id : Z) : bool :=
  match proposals (w_vote w) !! id with Some p => due env p | None => false end.

Record block_effect (env : Env) w (ids : list Z) (outs : Outcomes) w' : Prop := {
  be_validators : w_validators w' = w_validators w;
  be_amounts : proposal_bond_amount (w_vote w') = proposal_bond_amount (w_vote w);
  be_count : proposal_count (w_vote w') = proposal_count (w_vote w);
  be_votes : proposal_voters (w_vote w') = proposal_voters (w_vote w);
  be_asked : outs.*1 = List.filter (due_in env w) ids;
  be_other : forall j, j ∉ ids -> proposals (w_vote w') !! j = proposals (w_vote w) !! j;
  be_each : forall id p, id ∈ ids -> proposals (w_vote w) !! id = Some p -> exists p',
    proposals (w_vote w') !! id = Some p' /\ if due env p then decided w outs id p p' else p' = p;
  be_native : forall a, (w_native w').[a] = (w_native w).[a]
    - (if decide (a = VOTE_ADDRESS) then sum_over (closed_bond (w_vote w')) ids else 0)
    + sum_over (refund_to (w_vote w') a) ids }.

(** One iteration of the loop. *)
Definition visit (env : Env) (registry : list (VoteTarget T)) (proposal_id : Z) : M (World T) unit :=
  let! proposal := on_vote (required_record proposal_id) in
  let! status := lift (proposal_status proposal) in
  if bool_decide (status = Pending) && (pr_voting_deadline_height proposal <? block_number env)
  then finalize_voting env registry proposal_id
  else mret tt.

Lemma visit_eq env registry w L id p :
  world_inv w L -> proposals (w_vote w) !! id = Some p ->
  visit env registry id w = (if due env p then finalize_voting env registry id w else (Ok tt, w)).
Proof.
  intros (Hi & _) Hp. destruct (vi_status _ _ Hi _ _ Hp) as (st & Hst & _).
  unfold visit. eapply mbind_ok_intro; [apply on_vote_run; by apply (required_record_runs _ L)|].
  rewrite world_same_vote. eapply mbind_ok_intro; [unfold lift; by rewrite Hst|].
  unfold due. rewrite Hst.
  rewrite (bool_decide_ext (st = Pending) (Ok st = Ok Pending)) by naive_solver.
  by destruct (_ && _).
Qed.

Lemma due_pending env p : due env p = true -> proposal_status p = Ok Pending.
Proof. unfold due. intros H. bprop. done. Qed.

(** The effect of closing one proposal, in the terms of the block's effect. *)
Lemma closed_effect env w L id p active n o target' w' :
  world_inv w L -> proposals (w_vote w) !! id = Some p -> due env p = true ->
  active_validator_addresses (w_validators w) = Ok active ->
  active_validator_count (w_validators w) = Ok n ->
  closed w id p (tally_status active n (votes_of (w_vote w) id)) o target' w' ->
  block_effect env w [id] [(id, o)] w'.
Proof.
  intros (Hi & _) Hp Hdue Hact Hn []. set (st := tally_status _ _ _) in *.
  destruct (vi_record _ _ Hi _ _ Hp) as [Eid _].
  constructor; try done.
  - simpl. unfold due_in. by rewrite Hp, Hdue.
  - intros j Hj. rewrite cl_proposals, lookup_insert_ne; [done|]. set_solver.
  - intros j q ->%list_elem_of_singleton Hq. simplify_eq. rewrite cl_proposals, lookup_insert_eq.
    eexists. split; [done|]. rewrite Hdue. exists active, n, o. split_and!; try done. by left.
  - intros a. rewrite cl_native. simpl. unfold closed_bond, refund_to.
    rewrite cl_proposals, lookup_insert_eq, cl_amounts. unfold proposal_status. simpl.
    rewrite status_u8. destruct o; simpl.
    + destruct (tally_status_cases active n (votes_of (w_vote w) id)) as [E|E]; fold st in E;
        rewrite !E; repeat case_decide; repeat case_bool_decide; naive_solver lia.
    + repeat case_decide; repeat case_bool_decide; naive_solver lia.
Qed.

Lemma effect_skip env w L id p :
  world_inv w L -> id ∈ L -> proposals (w_vote w) !! id = Some p -> due env p = false ->
  block_effect env w [id] [] w.
Proof.
  intros (Hi & _) Hin Hp Hdue. constructor; try done.
  - simpl. unfold due_in. by rewrite Hp, Hdue.
  - intros j q ->%list_elem_of_singleton Hq. simplify_eq. rewrite Hdue. eauto.
  - intros a. simpl. unfold closed_bond, refund_to. rewrite Hp.
    destruct (vi_status _ _ Hi _ _ Hp) as (st & Hst & _ & Hl). apply Hl in Hin. rewrite Hst.
    repeat case_decide; repeat case_bool_decide; naive_solver lia.
Qed.

Lemma votes_of_same v v' id : proposal_voters v' = proposal_voters v -> votes_of v' id = votes_of v id.
Proof. unfold votes_of, voters_of. by intros ->. Qed.

Lemma effect_cons env w id o1 w1 ids outs w' :
  id ∉ ids -> block_effect env w [id] o1 w1 -> block_effect env w1 ids outs w' ->
  block_effect env w (id :: ids) (o1 ++ outs) w'.
Proof.
  intros Hnew [] []. constructor; try congruence.
  - rewrite fmap_app, be_asked0, be_asked1. simpl.
    assert (E : List.filter (due_in env w1) ids = List.filter (due_in env w) ids).
    { apply List.filter_ext_in. intros j Hj%list_elem_of_In. unfold due_in. rewrite be_other0; [done|set_solver]. }
    rewrite E. by destruct (due_in env w id).
  - intros j Hj. rewrite be_other1, be_other0; [done|set_solver..].
  - intros j p Hj Hp. destruct (decide (j = id)) as [->|Hne].
    + rewrite be_other1 by done. destruct (be_each0 id p) as (p' & Hp' & Hd); [by left|done|].
      exists p'. split; [done|]. destruct (due env p); [|done].
      destruct Hd as (active & n & o & H1 & H2 & H3 & H4). exists active, n, o.
      split_and!; try done. apply elem_of_app. by left.
    + assert (Hj' : j ∈ ids) by set_solver.
      destruct (be_each1 j p Hj') as (p' & Hp' & Hd); [rewrite be_other0; [done|set_solver]|].
      exists p'. split; [done|]. destruct (due env p); [|done].
      destruct Hd as (active & n & o & H1 & H2 & H3 & H4). exists active, n, o.
      rewrite <- be_validators0, <- (votes_of_same _ _ j be_votes0). split_and!; try done.
      apply elem_of_app. by right.
  - intros a. rewrite be_native1, be_native0. simpl.
    assert (Hc : closed_bond (w_vote w') id = closed_bond (w_vote w1) id
      /\ refund_to (w_vote w') a id = refund_to (w_vote w1) a id).
    { unfold closed_bond, refund_to. by rewrite be_other1, be_amounts1. }
    destruct Hc as [-> ->]. case_decide; lia.
Qed.

Lemma loop_inv env registry ids : Forall frames registry -> forall w L w',
  world_inv w L -> NoDup ids -> (forall id, id ∈ ids -> id ∈ L) ->
  mfor ids (visit env registry) w = (Ok tt, w') ->
  (exists L', world_inv w' L')
  /\ exists outs, answers env registry ids w outs w' /\ block_effect env w ids outs w'.
Proof.
  intros Hf. induction ids as [|id ids IH]; intros w L w' Hw Hnd Hsub Hrun; simpl in Hrun.
  { minv. split; [by exists L|]. exists []. split; [constructor|]. constructor; try done; [set_solver|].
    intros a. simpl. case_decide; lia. }
  apply NoDup_cons in Hnd as [Hnew Hnd]. assert (Hin : id ∈ L) by (apply Hsub; by left).
  pose proof Hw as (Hi & _). destruct (vi_open _ _ Hi _ Hin) as [p Hp].
  apply mbind_ok in Hrun as ([] & w1 & Hv & Hrun). rewrite (visit_eq _ _ _ _ _ _ Hw Hp) in Hv.
  destruct (due env p) eqn:Hdue.
  - pose proof (due_pending _ _ Hdue) as Hst.
    destruct (finalize_heard _ _ _ _ _ _ _ Hw Hp Hst Hv) as (active & n & o & w2 & Ha & Hn & Hh).
    destruct (finalize_voting_runs _ _ _ _ _ _ _ _ _ _ Hf Hw Hp Hst Ha Hn Hh)
      as (w1' & L1 & Hv' & Hw1 & Hcl & HL). rewrite Hv in Hv'. simplify_eq.
    destruct (IH w1' L1 w' Hw1 Hnd) as [Hinv (outs & Han & He)]; [|done|].
    { intros j Hj. assert (j ∈ L) by (apply Hsub; by right). destruct o; [|by subst].
      rewrite HL in *. set_solver. }
    split; [done|]. exists ((id, o) :: outs). split; [by eapply answers_close|].
    apply (effect_cons _ _ _ [(id, o)] w1'); [done| |done]. by eapply closed_effect.
  - simplify_eq. destruct (IH w1 L w' Hw Hnd) as [Hinv (outs & Han & He)]; [set_solver|done|].
    split; [done|]. exists outs. split; [by eapply answers_open|].
    apply (effect_cons _ _ _ [] w1); [done| |done]. by eapply effect_skip.
Qed.

Lemma begin_block_inv env registry w L w' :
  Forall frames registry -> world_inv w L -> process_begin_block env registry w = (Ok tt, w') ->
  (exists L', world_inv w' L')
  /\ exists outs, answers env registry L w outs w' /\ block_effect env w L outs w'.
Proof.
  intros Hf Hw Hrun. pose proof Hw as (Hi & _). unfold process_begin_block in Hrun.
  apply mbind_ok in Hrun as (ids & w1 & Hids & Hrun).
  rewrite (on_vote_run _ _ _ _ (pending_runs _ _ Hi)), world_same_vote in Hids. simplify_eq.
  eapply loop_inv; [done|done|apply (vi_nodup _ _ Hi)|done|exact Hrun].
Qed.
(** No proposal whose window closed stays pending. *)
Lemma none_due env w L outs w' id p :
  vote_inv (w_vote w) L -> block_effect env w L outs w' -> proposals (w_vote w') !! id = Some p ->
  due env p = false.
Proof.
  intros Hi He Hp. apply not_true_is_false. intros Hdue. pose proof (due_pending _ _ Hdue) as Hst.
  destruct (decide (id ∈ L)) as [Hin|Hout].
  - destruct (vi_open _ _ Hi _ Hin) as [q Hq].
    destruct (be_each _ _ _ _ _ He id q Hin Hq) as (p' & Hp' & Hdec). assert (p' = p) as -> by congruence.
    destruct (due env q) eqn:Hdq; [|congruence].
    destruct Hdec as (active & n & o & _ & _ & _ & ->). unfold proposal_status in Hst. simpl in Hst.
    rewrite status_u8 in Hst. destruct o; simpl in Hst; [|done].
    by destruct (tally_status_cases active n (votes_of (w_vote w) id)); congruence.
  - rewrite (be_other _ _ _ _ _ He) in Hp by done. destruct (vi_status _ _ Hi _ _ Hp) as (st & Hs & _ & Hl).
    apply Hout, Hl. rewrite Hst in Hs. by simplify_eq.
Qed.

(** The settlement of a bond by the status of its proposal. *)
Definition settlement_of (amount : Z) (st : ProposalStatus) : BondSettlement :=
  if amount =? 0 then NoBond
  else match st with Approved => Refunded | Expired => Burned | _ => Unsettled end.

Lemma agrees_settlement amount b st : bond_agrees amount b st -> b = settlement_of amount st.
Proof.
  unfold settlement_of. destruct b; simpl.
  - by intros ->.
  - intros [Ha Hs]. rewrite (proj2 (Z.eqb_neq _ _)) by lia. by destruct st.
  - intros [Ha ->]. by rewrite (proj2 (Z.eqb_neq _ _)) by lia.
  - intros [Ha ->]. by rewrite (proj2 (Z.eqb_neq _ _)) by lia.
Qed.

(** A proposal leaves the open index exactly when its target applied it. *)
Lemma open_after env w L outs w' L' id :
  vote_inv (w_vote w) L -> vote_inv (w_vote w') L' -> block_effect env w L outs w' ->
  id ∈ L' <-> id ∈ L /\ (id, Applied) ∉ outs.
Proof.
  intros Hi Hi' He.
  assert (Hnd : NoDup (outs.*1)).
  { rewrite (be_asked _ _ _ _ _ He). apply NoDup_ListNoDup, List.NoDup_filter, NoDup_ListNoDup, (vi_nodup _ _ Hi). }
  assert (Hsub : forall o, (id, o) ∈ outs -> id ∈ L /\ due_in env w id = true).
  { intros o Ho%(list_elem_of_fmap_2 fst). rewrite (be_asked _ _ _ _ _ He) in Ho.
    apply list_elem_of_In, List.filter_In in Ho as [Ho ?]. by rewrite list_elem_of_In. }
  destruct (decide (id ∈ L)) as [Hin|Hout].
  - destruct (vi_open _ _ Hi _ Hin) as [p Hp].
    destruct (be_each _ _ _ _ _ He id p Hin Hp) as (p' & Hp' & Hdec).
    destruct (vi_status _ _ Hi' _ _ Hp') as (st & Hst & _ & Hl). rewrite Hl.
    destruct (due env p) eqn:Hdue.
    + destruct Hdec as (active & n & o & _ & _ & Ho & ->). unfold proposal_status in Hst.
      simpl in Hst. rewrite status_u8 in Hst. injection Hst as <-.
      assert (Hone : (id, Applied) ∈ outs -> o = Applied).
      { intros Ha. by eapply (NoDup_fst_inj outs id). }
      destruct o as [|e]; simpl; [|naive_solver].
      destruct (tally_status_cases active n (votes_of (w_vote w) id)) as [-> | ->]; naive_solver.
    + subst p'. destruct (vi_status _ _ Hi _ _ Hp) as (st0 & Hst0 & _ & Hl0).
      assert (st0 = st) as -> by congruence. rewrite Hl0. split; [|naive_solver]. intros Hu. split; [done|].
      intros [_ Hd]%Hsub. unfold due_in in Hd. by rewrite Hp, Hdue in Hd.
  - split; [|naive_solver]. intros Hin'. exfalso. destruct (vi_open _ _ Hi' _ Hin') as [p Hp].
    destruct (vi_status _ _ Hi' _ _ Hp) as (st & Hst & _ & Hl). rewrite (be_other _ _ _ _ _ He) in Hp by done.
    destruct (vi_status _ _ Hi _ _ Hp) as (st0 & Hst0 & _ & Hl0). assert (st0 = st) as -> by congruence.
    apply Hout, Hl0, Hl, Hin'.
Qed.
End Block.

(** * Sequences of calls and blocks *)

Definition call_ok {T} (chain : Z) (env : Env) (caller : Address) (value : Z) (c : VoteCall) (w : World T) : Prop :=
  chain_id env = chain /\ address_ok caller /\ caller <> 0 /\ 0 <= value
  /\ in_range u64_max (block_number env)
  /\ match c with
     | castVote id _ => Z.of_nat (length (votes_of (w_vote w) id)) < u32_max
     | _ => True
     end.

Section Chain.
Context {T : Type} `{X : Externals} `{K : Keccak} `{W : VotingWindow}.
(** The chain id, the targets, and what the rest of the chain does to the
    targets' storage. *)
Context (chain : Z) (targets : list (VoteTarget T)) (evolve : T -> T -> Prop).
Implicit Types (w : World T) (L : list Z).

(** A step of the chain: a call of the contract, its block hook, or anything
    else, which may move balances without spending the contract's, run registry
    calls and change the targets' storage, but does not write the Vote storage. *)
Inductive vote_step : World T -> World T -> Prop :=
  | step_call env caller value c r w w' :
      call_ok chain env caller value c w -> vote_call env targets caller value c w = (Ok r, w') ->
      vote_step w w'
  | step_block env w w' : chain_id env = chain -> process_begin_block env targets w = (Ok tt, w') -> vote_step w w'
  | step_other w w' :
      w_vote w' = w_vote w -> rtc vs_exec (w_validators w) (w_validators w') ->
      evolve (w_target w) (w_target w') -> supply_bounded (w_native w') ->
      (w_native w).[VOTE_ADDRESS] <= (w_native w').[VOTE_ADDRESS] -> vote_step w w'.

(** The contract as deployed. *)
Definition deployed w : Prop := w_vote w = empty_vote /\ supply_bounded (w_native w).

Lemma empty_vec_rep : vec_rep empty_vec [].
Proof. split_and!; [done|unfold u32_max; simpl; lia|]. intros i. unfold word_at. by destruct (0 <=? i). Qed.

Lemma empty_inv : vote_inv empty_vote [].
Proof.
  constructor; simpl; try done.
  - apply empty_vec_rep.
  - constructor.
  - intros id. rewrite lookup_empty. split; [by intros []|lia].
  - set_solver.
  - intros id _. exists []. split_and!; try done; [apply empty_vec_rep|constructor].
Qed.

Lemma deployed_inv w : deployed w -> world_inv w [].
Proof.
  intros [Ev Hs]. unfold world_inv. rewrite Ev. split_and!; [apply empty_inv|done|]. apply Hs.
Qed.

(** ** Read-only calls *)

Lemma ro_ask_voters {A} id (m : M StorageVec A) : ro (ask_voters id m).
Proof. unfold ask_voters. solve_ro. Qed.
#[local] Hint Resolve ro_ask_voters ro_required_record : rudis.

Lemma ro_page_loop {A} len (item : Z -> M Vote (option A)) l :
  (forall p, ro (item p)) -> ro (page_loop len item l).
Proof. intros Hi. induction l; simpl; solve_ro. Qed.

Lemma ro_with_status st ids : ro (proposals_with_status st ids).
Proof. induction ids; simpl; solve_ro. Qed.

Lemma ro_view env caller value c :
  match c with createProposal _ _ | castVote _ _ => False | _ => True end ->
  ro (dispatch_vote_call env targets caller value c).
Proof.
  intros Hc. destruct c; try done; simpl.
  - apply ro_bind; [|intros ?; solve_ro]. unfold get_proposal.
    repeat first [apply ro_on_vote | case_match | apply ro_bind; [|intros ?] | solve [solve_ro]].
  - apply ro_bind; [apply ro_on_vote|intros ?; solve_ro]. unfold read_proposal_voters_page.
    apply ro_bind; [solve_ro|intros ?]. destruct (clamp_page _ _).
    apply ro_bind; [solve_ro|intros ?]. apply ro_page_loop. intros p. solve_ro.
  - apply ro_bind; [apply ro_on_vote|intros ?; solve_ro]. unfold list_proposals.
    apply ro_bind; [solve_ro|intros ?]. cbv zeta. destruct (clamp_page _ _).
    apply ro_page_loop. intros p. solve_ro.
  - apply ro_bind; [apply ro_on_vote|intros ?; solve_ro]. unfold list_proposals_by_status.
    apply ro_bind; [solve_ro|intros ?]. cbv zeta. destruct (clamp_page _ _).
    apply ro_bind; [apply ro_with_status|intros ?; solve_ro].
  - apply ro_bind; [apply ro_on_vote|intros ?; solve_ro]. unfold proposal_bond. solve_ro.
  - apply ro_bind; [apply ro_on_vote|intros ?; solve_ro]. unfold bond_liabilities. solve_ro.
Qed.

(** ** A call *)

(** The value moves to the contract. *)
Definition paid w (caller : Address) (value : Z) w1 : Prop :=
  exists n, w1 = w <| w_native := n |> /\ supply_bounded n
    /\ (w_native w).[VOTE_ADDRESS] <= n.[VOTE_ADDRESS].

Lemma pay_inv w L caller value w1 :
  world_inv w L -> 0 <= value -> transfer_balance caller VOTE_ADDRESS value w = (Ok tt, w1) ->
  paid w caller value w1 /\ world_inv w1 L.
Proof.
  intros (Hi & Hs & Hsol) Hv Hr. pose proof (transfer_supply _ _ _ _ _ Hr) as Hsum.
  destruct (transfer_inv _ _ _ _ _ Hr) as (n & -> & Hsame & _ & Hn & Hb); [done|]. simpl in *.
  assert (Hle : (w_native w).[VOTE_ADDRESS] <= n.[VOTE_ADDRESS]).
  { destruct (decide (caller = VOTE_ADDRESS)) as [->|Hne].
    - specialize (Hsame (or_intror eq_refl)). apply (f_equal w_native) in Hsame. simpl in Hsame.
      by rewrite Hsame.
    - rewrite (Hn Hne), decide_False, decide_True by done. lia. }
  assert (Hsb : supply_bounded n).
  { split; [intros a; apply (Hb (supply_balances _ Hs))|]. rewrite Hsum. apply Hs. }
  split; [by exists n|]. split_and!; simpl; [done|done|lia].
Qed.

(** What a successful call of the contract was. *)
Inductive call_effect (env : Env) (caller : Address) (value : Z) : VoteCall -> World T -> World T -> Prop :=
  | effect_create t target payload id w w1 w' : paid w caller value w1 ->
      registry_lookup targets target = Ok t ->
      created env t w1 caller payload (block_number env) value id w' ->
      call_effect env caller value (createProposal target payload) w w'
  | effect_cast id approve w w1 w' : paid w caller value w1 ->
      voted w1 id caller approve (block_number env) w' ->
      call_effect env caller value (castVote id approve) w w'
  | effect_view c w w' : paid w caller value w' -> call_effect env caller value c w w'.

Lemma call_inv env caller value c w L r w' :
  Forall frames targets -> keccak_injective_52 -> world_inv w L -> call_ok chain env caller value c w ->
  vote_call env targets caller value c w = (Ok r, w') ->
  call_effect env caller value c w w' /\ exists L', world_inv w' L'.
Proof.
  intros Hf Hk Hw (_ & Ha & Hz & Hv & Hb & Hroom) Hrun. unfold vote_call in Hrun.
  apply (proj1 (with_checkpoint_ok _ _ _ _)) in Hrun. apply mbind_ok in Hrun as ([] & w1 & Hpay & Hrun).
  destruct (pay_inv _ _ _ _ _ Hw Hv Hpay) as [Hp Hw1]. unfold dispatch_with_handlers in Hrun.
  apply mbind_ok in Hrun as ([] & w2 & Hreq & Hrun). apply require_ok in Hreq as [_ ->].
  assert (Hview : (match c with createProposal _ _ | castVote _ _ => False | _ => True end) ->
    call_effect env caller value c w w' /\ exists L', world_inv w' L').
  { intros Hc. pose proof (ro_run _ _ _ _ (ro_view env caller value c Hc) Hrun) as ->.
    split; [by apply effect_view|by exists L]. }
  destruct c as [target payload|id approve|id|id i n|i n|s i n|id|]; try by apply Hview.
  - simpl in Hrun. apply mbind_ok in Hrun as (id & w2 & Hc & Hrun). minv.
    destruct (create_inv _ _ _ _ _ _ _ _ _ _ _ Hf Hw1 Hz Hv Hc) as (t & Ht & Hcr & Hw').
    split; [by eapply effect_create|by eexists].
  - simpl in Hrun. apply mbind_ok in Hrun as ([] & w2 & Hc & Hrun). minv.
    assert (Hroom1 : Z.of_nat (length (votes_of (w_vote w1) id)) < u32_max).
    { by destruct Hp as (n & -> & _). }
    destruct (cast_inv _ _ _ _ _ _ _ Hk Hw1 Ha Hb Hroom1 Hc) as [Hvo Hw'].
    split; [by eapply effect_cast|by eexists].
Qed.

Lemma step_inv w L w' :
  Forall frames targets -> keccak_injective_52 -> world_inv w L -> vote_step w w' ->
  exists L', world_inv w' L'.
Proof.
  intros Hf Hk Hw Hstep. destruct Hstep as [env caller value c r w w' Hok Hrun|env w w' _ Hrun|w w' Ev _ _ Hs Hle].
  - by eapply call_inv.
  - by eapply begin_block_inv.
  - exists L. destruct Hw as (Hi & _ & Hsol). unfold world_inv. rewrite Ev. split_and!; [done|done|lia].
Qed.

Lemma reach_inv w w' :
  Forall frames targets -> keccak_injective_52 -> rtc vote_step w w' -> forall L, world_inv w L ->
  exists L', world_inv w' L'.
Proof.
  intros Hf Hk. induction 1 as [|w w1 w' Hs _ IH]; intros L Hw; [by exists L|].
  destruct (step_inv _ _ _ Hf Hk Hw Hs) as [L1 Hw1]. by eapply IH.
Qed.

(** ** The history of a proposal *)

(** From [w] to [w'] votes are only added, and a proposal keeps everything but
    a pending status. *)
Record history w w' : Prop := {
  hi_votes : forall id, votes_of (w_vote w) id `prefix_of` votes_of (w_vote w') id;
  hi_record : forall id p, proposals (w_vote w) !! id = Some p -> exists p',
    proposals (w_vote w') !! id = Some p' /\ p' = p <| pr_status := pr_status p' |>
    /\ (proposal_status p = Ok Pending \/ p' = p)
    /\ (proposal_bond_amount (w_vote w')).[id] = (proposal_bond_amount (w_vote w)).[id] }.

Lemma record_same_status p : p = p <| pr_status := pr_status p |>.
Proof. by destruct p. Qed.

Lemma history_same w w' : w_vote w' = w_vote w -> history w w'.
Proof.
  intros E. constructor; rewrite E; [done|]. intros id p Hp. exists p.
  split_and!; [done|apply record_same_status|by right|done].
Qed.

Lemma history_trans w w1 w' : history w w1 -> history w1 w' -> history w w'.
Proof.
  intros [Hv Hr] [Hv' Hr']. constructor; [intros id; etrans; [apply Hv|apply Hv']|].
  intros id p Hp. destruct (Hr id p Hp) as (p1 & Hp1 & E1 & Hs1 & Ha1).
  destruct (Hr' id p1 Hp1) as (p' & Hp' & E' & Hs' & Ha'). exists p'. split_and!; [done| | |congruence].
  - transitivity (p1 <| pr_status := pr_status p' |>); [exact E'|]. rewrite E1. by destruct p.
  - destruct Hs1 as [Hs1| ->]; [by left|done].
Qed.

Lemma call_history env caller value c w L w' :
  vote_inv (w_vote w) L -> call_effect env caller value c w w' -> history w w'.
Proof.
  intros Hi He. destruct He as [t target payload id w w1 w' (n & -> & _) _ []
    |id approve w w1 w' (n & -> & _) []|c w w' (n & -> & _)]; [..|by apply history_same].
  - constructor.
    + intros j. by rewrite (votes_of_same _ _ j ct_votes).
    + intros j p Hp. rewrite ct_proposals. simpl in *.
      assert (j <> id).
      { intros ->. assert (1 <= id <= proposal_count (w_vote w)); [|lia]. apply (vi_dense _ _ Hi). eauto. }
      exists p. rewrite lookup_insert_ne, ct_bond, decide_False by done.
      split_and!; [done|apply record_same_status|by right|done].
  - constructor.
    + intros j. rewrite vo_votes. simpl. case_decide; [subst; by eexists|done].
    + intros j p Hp. exists p. rewrite vo_proposals, vo_amounts.
      split_and!; [done|apply record_same_status|by right|done].
Qed.

Lemma block_history env w L outs w' : block_effect env w L outs w' -> history w w'.
Proof.
  intros [_ Ea _ Ev _ Eo Ee _]. constructor.
  - intros j. by rewrite (votes_of_same _ _ j Ev).
  - intros j p Hp. rewrite Ea. destruct (decide (j ∈ L)) as [Hin|Hout].
    + destruct (Ee j p Hin Hp) as (p' & Hp' & Hd). exists p'. split; [done|].
      destruct (due env p) eqn:Hdue.
      * destruct Hd as (active & n & o & _ & _ & _ & ->). split_and!; [by destruct p|left|done].
        by eapply due_pending.
      * subst. split_and!; [apply record_same_status|by right|done].
    + exists p. rewrite Eo by done. split_and!; [done|apply record_same_status|by right|done].
Qed.

Lemma reach_history w w' :
  Forall frames targets -> keccak_injective_52 -> rtc vote_step w w' -> forall L, world_inv w L ->
  history w w'.
Proof.
  intros Hf Hk. induction 1 as [|w w1 w' Hs _ IH]; intros L Hw; [by apply history_same|].
  destruct (step_inv _ _ _ Hf Hk Hw Hs) as [L1 Hw1]. eapply history_trans; [|by eapply IH].
  destruct Hs as [env caller value c r w w1 Hok Hrun|env w w1 _ Hrun|w w1 Ev _ _ _ _].
  - eapply call_history; [apply Hw|]. by eapply call_inv.
  - destruct (begin_block_inv _ _ _ _ _ Hf Hw Hrun) as (_ & outs & _ & He). by eapply block_history.
  - by apply history_same.
Qed.

(** ** The quorum *)

Lemma rmap_addresses s l rs :
  rmap l (read_validator_record s) = Ok rs -> vr_address <$> rs = l.
Proof.
  revert rs. induction l as [|a l IH]; intros rs Hr; simpl in Hr; minv; [done|].
  match goal with H : read_validator_record _ _ = Ok ?x |- _ =>
    unfold read_validator_record in H; minv end.
  simpl. f_equal. by apply IH.
Qed.

Lemma active_count_length s active n :
  active_validator_addresses s = Ok active -> active_validator_count s = Ok n ->
  n = Z.of_nat (length active).
Proof.
  unfold active_validator_addresses, active_validator_count, get_active_validators,
    get_validators_matching, count_matching. intros Ha Hn. minv.
  match goal with H : rmap _ _ = Ok _ |- _ => apply rmap_addresses in H; rewrite H end.
  minv_all. congruence.
Qed.

(** Distinct active validators, enough of them, each with a recorded Yes. *)
Definition quorum_of (v : Vote) (id : Z) (active Q : list Address) : Prop :=
  NoDup Q /\ (0 < length active)%nat /\ 2 * Z.of_nat (length active) <= 3 * Z.of_nat (length Q)
  /\ forall a, a ∈ Q -> a ∈ active /\ exists r, r ∈ votes_of v id /\ vr_voter r = a /\ vr_vote_kind r = 1.

Lemma tally_quorum v L id active n :
  vote_inv v L -> in_range u256_max id -> n = Z.of_nat (length active) ->
  tally_status active n (votes_of v id) = Approved -> exists Q, quorum_of v id active Q.
Proof.
  intros Hi Hid -> Ht. destruct (votes_spec _ _ _ Hi Hid) as (_ & _ & Hnd & _).
  unfold tally_status, quorum_reached, QUORUM_NUMERATOR, QUORUM_DENOMINATOR in Ht.
  destruct (Z.eqb_spec (Z.of_nat (length active)) 0); [done|].
  destruct (Z.leb_spec (Z.of_nat (length active) * 2) (count_votes active Yes (votes_of v id) * 3)); [|done].
  exists (vr_voter <$> List.filter (counts active Yes) (votes_of v id)). split_and!.
  - revert Hnd. generalize (votes_of v id). intros l. induction l as [|r l IH]; simpl; [done|].
    intros [Hr Hnd]%NoDup_cons. destruct (counts active Yes r); [|by apply IH].
    apply NoDup_cons. split; [|by apply IH]. intros (q & E & Hq)%list_elem_of_fmap. apply Hr.
    apply list_elem_of_fmap. exists q. split; [done|].
    apply list_elem_of_In in Hq. apply List.filter_In in Hq as [Hq _]. by apply list_elem_of_In.
  - lia.
  - rewrite length_fmap. unfold count_votes in *. lia.
  - intros a (r & -> & Hr)%list_elem_of_fmap. apply list_elem_of_In, List.filter_In in Hr as [Hr Hc].
    unfold counts in Hc. bprop. split; [done|]. exists r. split_and!; [by apply list_elem_of_In|done|done].
Qed.

(** ** Worlds of a deployed contract *)

Hypothesis targets_frame : Forall frames targets.
Hypothesis keys_distinct : keccak_injective_52.

Lemma deployed_reach w0 w : deployed w0 -> rtc vote_step w0 w -> exists L, world_inv w L.
Proof. intros Hd Hr. by eapply reach_inv; [..|apply deployed_inv]. Qed.

(** C25. The bonds are covered. After any calls, blocks and other steps of the
    chain, the recorded liabilities are the sum of the bonds of the open
    proposals and the contract's balance covers them; the open list has no
    duplicate, at most 64 entries, and holds exactly the pending and the errored
    proposals; proposal ids are 1 to the counter; and the bond of each proposal
    agrees with its status: escrowed while it is open, refunded only when it was
    approved, burned only when it expired. *)
Theorem vote_books_solvent w0 w : deployed w0 -> rtc vote_step w0 w ->
  let v := w_vote w in
  unsettled_bond_liabilities v = bond_sum v (pending_of v)
  /\ bond_sum v (pending_of v) <= (w_native w).[VOTE_ADDRESS]
  /\ NoDup (pending_of v) /\ Z.of_nat (length (pending_of v)) <= MAX_PENDING_PROPOSALS
  /\ (forall id, id ∈ pending_of v <-> exists p, get_record v id = Some p
        /\ (proposal_status p = Ok Pending \/ proposal_status p = Ok Error))
  /\ (forall id, is_Some (get_record v id) <-> 1 <= id <= proposal_count v)
  /\ (forall id p, get_record v id = Some p -> exists st b, proposal_status p = Ok st
        /\ proposal_bond id v = (Ok b, v) /\ bond_agrees (bond_amount b) (bond_settlement b) st).
Proof.
  intros Hd Hr. destruct (deployed_reach _ _ Hd Hr) as (L & Hi & Hs & Hsol). simpl.
  rewrite (pending_of_eq _ _ Hi). destruct (vi_liabilities _ _ Hi) as [El _].
  assert (Hg : forall id, get_record (w_vote w) id = proposals (w_vote w) !! id)
    by (intros; by eapply get_record_eq).
  split_and!; [done|lia|apply (vi_nodup _ _ Hi)|apply (vi_cap _ _ Hi)| | |].
  - intros id. rewrite Hg. split.
    + intros Hin. destruct (vi_open _ _ Hi _ Hin) as [p Hp]. exists p. split; [done|].
      destruct (vi_status _ _ Hi _ _ Hp) as ([] & Hst & _ & Hl); auto; by apply Hl in Hin.
    + intros (p & Hp & Hst). destruct (vi_status _ _ Hi _ _ Hp) as (st & Hst' & _ & Hl).
      apply Hl. destruct Hst as [Hst|Hst]; rewrite Hst in Hst'; by simplify_eq.
  - intros id. rewrite Hg. apply (vi_dense _ _ Hi).
  - intros id p. rewrite Hg. intros Hp. destruct (vi_status _ _ Hi _ _ Hp) as (st & Hst & _).
    destruct (proposal_bond_runs _ _ _ _ _ Hi Hp Hst) as (b & Hb & _ & _ & Ha). by exists st, b.
Qed.

(** C26. Only a quorum approves. When the block hook turns a pending proposal
    into an approved one, its voting window had closed, and at least two thirds
    of the validators active in that block, at least one of them, are distinct
    voters whose recorded vote on the proposal is Yes. *)
Theorem approval_needs_quorum w0 w env w' id p p' : deployed w0 -> rtc vote_step w0 w ->
  process_begin_block env targets w = (Ok tt, w') ->
  get_record (w_vote w) id = Some p -> proposal_status p = Ok Pending ->
  get_record (w_vote w') id = Some p' -> proposal_status p' = Ok Approved ->
  pr_voting_deadline_height p < block_number env
  /\ exists active Q, active_validator_addresses (w_validators w) = Ok active
       /\ quorum_of (w_vote w) id active Q.
Proof.
  intros Hd Hr Hrun Hp Hst Hp' Hst'. destruct (deployed_reach _ _ Hd Hr) as (L & Hw).
  pose proof Hw as (Hi & _).
  destruct (begin_block_inv _ _ _ _ _ targets_frame Hw Hrun) as ([L' (Hi' & _)] & outs & Han & He).
  rewrite (get_record_eq _ _ _ Hi) in Hp. rewrite (get_record_eq _ _ _ Hi') in Hp'.
  destruct (decide (id ∈ L)) as [Hin|Hout];
    [|rewrite (be_other _ _ _ _ _ He) in Hp' by done; congruence].
  destruct (be_each _ _ _ _ _ He id p Hin Hp) as (q & Hq & Hdec). assert (q = p') as -> by congruence.
  destruct (due env p) eqn:Hdue; [|congruence].
  destruct Hdec as (active & n & o & Hact & Hn & _ & ->). unfold due in Hdue. bprop.
  split; [done|]. unfold proposal_status in Hst'. simpl in Hst'. rewrite status_u8 in Hst'.
  destruct o; simpl in Hst'; [|done]. injection Hst' as Ht.
  destruct (tally_quorum _ _ _ active n Hi (record_range _ _ _ _ Hi Hp)) as [Q HQ];
    [by eapply active_count_length|done|]. by exists active, Q.
Qed.

(** C27. The block hook does exactly what the votes and the targets say. A
    successful run is a sequence in which each pending proposal whose window
    closed, and no other, is put to its target once, in the state the ones before
    left. When the target applies the outcome, the proposal gets the status that
    its recorded votes and the active validators decide, and leaves the open
    index; its bond goes in full to the proposer on approval and is burned on
    expiry. When the target answers with an execution error, the proposal becomes
    Error, keeps its bond unsettled, stays in the index, and the target's storage
    is as before its call. No other record and no other native balance changes,
    and no proposal whose window closed is left pending. *)
Theorem begin_block_exact w0 w env w' : deployed w0 -> rtc vote_step w0 w ->
  process_begin_block env targets w = (Ok tt, w') ->
  exists outs, answers env targets (pending_of (w_vote w)) w outs w'
  /\ block_effect env w (pending_of (w_vote w)) outs w'
  /\ (forall id, id ∈ pending_of (w_vote w') <->
        id ∈ pending_of (w_vote w) /\ (id, Applied) ∉ outs)
  /\ (forall id p st, get_record (w_vote w') id = Some p -> proposal_status p = Ok st ->
        let amount := (proposal_bond_amount (w_vote w)).[id] in
        proposal_bond id (w_vote w') = (Ok (MkBond amount (settlement_of amount st)), w_vote w'))
  /\ (forall id p, get_record (w_vote w') id = Some p -> due env p = false).
Proof.
  intros Hd Hr Hrun. destruct (deployed_reach _ _ Hd Hr) as (L & Hw). pose proof Hw as (Hi & _).
  destruct (begin_block_inv _ _ _ _ _ targets_frame Hw Hrun) as ([L' (Hi' & _)] & outs & Han & He).
  exists outs. rewrite (pending_of_eq _ _ Hi), (pending_of_eq _ _ Hi').
  split_and!; [done|done|intros id; by apply (open_after env w L outs w' L')| |].
  - intros id p st. rewrite (get_record_eq _ _ _ Hi'). intros Hp Hst.
    destruct (proposal_bond_runs _ _ _ _ _ Hi' Hp Hst) as ([amount b] & -> & Ham & _ & Hag).
    simpl in *. rewrite (be_amounts _ _ _ _ _ He) in Ham. subst amount. by rewrite (agrees_settlement _ _ _ Hag).
  - intros id p. rewrite (get_record_eq _ _ _ Hi'). intros Hp. exact (none_due _ _ _ _ _ _ _ Hi He Hp).
Qed.

(** C28. Votes and outcomes are final. Each validator has at most one vote on a
    proposal, and a second attempt while voting is open fails as already voted.
    As the chain goes on, votes are only appended, the bond amount, proposer,
    target, payload and deadline of a proposal never change, and its status
    changes only from pending. *)
Theorem votes_and_outcomes_final w0 w w1 : deployed w0 -> rtc vote_step w0 w -> rtc vote_step w w1 ->
  (forall id, in_range u256_max id -> NoDup (vr_voter <$> votes_of (w_vote w) id))
  /\ history w w1
  /\ (forall id p a approve height l, get_record (w_vote w) id = Some p ->
        proposal_status p = Ok Pending -> height <= pr_voting_deadline_height p -> address_ok a ->
        validator_lifecycle (w_validators w) a = Ok l -> is_active_status l = true ->
        a ∈ vr_voter <$> votes_of (w_vote w) id ->
        cast_vote_approve id a approve height w = (Err AlreadyVoted, w)).
Proof.
  intros Hd Hr Hr1. destruct (deployed_reach _ _ Hd Hr) as (L & Hw). pose proof Hw as (Hi & _).
  split_and!; [intros id Hid; by apply (votes_spec _ _ _ Hi Hid)|by eapply reach_history|].
  intros id p a approve height l Hp Hst Hh Ha Hl Hact Hin. rewrite (get_record_eq _ _ _ Hi) in Hp.
  destruct (read_vote_runs _ _ _ _ Hi (record_range _ _ _ _ Hi Hp) Ha) as (o & Ho & Hiff).
  unfold cast_vote_approve.
  eapply mbind_ok_intro; [unfold ensure_active_validator, mbind, reads; rewrite Hl; simpl; by rewrite Hact|].
  eapply mbind_ok_intro; [apply on_vote_run; by apply (required_record_runs _ L)|].
  rewrite world_same_vote. eapply mbind_ok_intro; [unfold lift; by rewrite Hst|].
  eapply mbind_ok_intro; [by rewrite bool_decide_eq_true_2|].
  eapply mbind_ok_intro; [unfold require; by rewrite (proj2 (Z.ltb_ge _ _))|].
  eapply mbind_ok_intro; [apply on_vote_run; exact Ho|]. rewrite world_same_vote.
  unfold mbind at 1. rewrite bool_decide_eq_true_2 by by apply Hiff. done.
Qed.
End Chain.

(** * Liveness of the block hook *)

(** The pending proposals. *)
Definition pending_map (v : Vote) : gmap Z ProposalRecord :=
  filter (fun '(_, p) => pr_status p = 0) (proposals v).

(** What a target promises, about its storage and the pending proposals in view
    of it ([J]): accepting a proposal extends the promise to it, as long as the
    target's storage has [room] for what is pending, and every proposal under the
    promise gets an answer when its window closes. *)
Record target_contract {T} (chain : Z) (room J : T -> gmap Z ProposalRecord -> Prop)
    (t : VoteTarget T) : Prop := {
  tc_accepts : forall env w w' m p context,
    chain_id env = chain -> tc_chain_id context = chain -> tc_proposer context = pr_proposer p ->
    J (w_target w) m -> m !! pr_id p = None -> 1 <= pr_id p -> pr_proposer p <> 0 ->
    address_ok (pr_proposer p) -> room (w_target w') (<[pr_id p := p]> m) ->
    pr_target_module p = target_module t -> target_validate t (pr_payload p) context = Ok tt ->
    target_reserve t env (pr_id p) (pr_payload p) context w = (Ok tt, w') ->
    J (w_target w') (<[pr_id p := p]> m);
  tc_answers : forall env w m p context st,
    chain_id env = chain -> tc_chain_id context = chain -> tc_proposer context = pr_proposer p ->
    J (w_target w) m -> m !! pr_id p = Some p -> get_record (w_vote w) (pr_id p) = Some p ->
    pr_target_module p = target_module t -> st = Approved \/ st = Expired ->
    exists o w', target_handle_tally t env (pr_id p) (pr_payload p) context st w = (Ok o, w')
      /\ (o = Applied -> J (w_target w') (delete (pr_id p) m)) }.

Section Live.
Context {T : Type} `{X : Externals} `{K : Keccak} `{W : VotingWindow}.
Context (chain : Z) (targets : list (VoteTarget T)) (evolve : T -> T -> Prop).
Context (room J : T -> gmap Z ProposalRecord -> Prop).
Hypothesis targets_frame : Forall frames targets.
Hypothesis keys_distinct : keccak_injective_52.
Hypothesis targets_contract : Forall (target_contract chain room J) targets.
Hypothesis J_forgets : forall s m id, J s m -> J s (delete id m).
Hypothesis J_evolves : forall s s' m, evolve s s' -> room s' m -> J s m -> J s' m.
Implicit Types (w : World T) (L : list Z).

Definition served (v : Vote) : Prop := forall id p, pending_map v !! id = Some p ->
  exists t, registry_lookup targets (pr_target_module p) = Ok t.

Definition live w : Prop :=
  vs_inv (w_validators w) /\ J (w_target w) (pending_map (w_vote w)) /\ served (w_vote w).

(** A step into a state in which the targets have room. *)
Definition roomy_step w w' : Prop :=
  vote_step chain targets evolve w w' /\ room (w_target w') (pending_map (w_vote w')).

(** ** The registry reads *)

Lemma filter_addresses_ok s Lv pred l :
  core_rep s (validator_count s) Lv ->
  filter_addresses s pred l = Ok (List.filter (fun a => pred (Lv a)) l).
Proof.
  intros Hc. induction l as [|a l IH]; [done|]. simpl.
  rewrite (rep_lifecycle _ _ _ _ Hc). simpl. rewrite IH. by destruct (pred (Lv a)).
Qed.

Lemma active_reads s : vs_inv s -> exists active n,
  active_validator_addresses s = Ok active /\ active_validator_count s = Ok n.
Proof.
  intros [Lv [Hc _ _]].
  set (l := List.filter (fun a => is_active_status (Lv a)) (registry s)).
  assert (Hm : validator_addresses_matching s is_active_status = Ok l).
  { unfold validator_addresses_matching. rewrite (rep_addresses _ _ Hc). simpl.
    by apply filter_addresses_ok. }
  assert (Hrec : exists rs, rmap l (read_validator_record s) = Ok rs).
  { assert (Hl : forall a, a ∈ l -> is_active_status (Lv a) = true).
    { intros a Ha%list_elem_of_In. by apply List.filter_In in Ha as []. }
    clearbody l. clear Hm. induction l as [|a l IH]; [by exists []|]. simpl.
    destruct IH as [rs Hrs]; [intros b Hb; apply Hl; by right|]. rewrite Hrs.
    specialize (Hl a ltac:(by left)). unfold read_validator_record. rewrite (rep_state _ _ _ _ Hc).
    simpl. destruct (Lv a); try done; simpl; eauto. }
  destruct Hrec as [rs Hrs]. exists (vr_address <$> rs), (Z.of_nat (length l)).
  unfold active_validator_addresses, get_active_validators, get_validators_matching,
    active_validator_count, count_matching. rewrite Hm. simpl. rewrite Hrs. split; [done|].
  rewrite (proj2 (Z.leb_le _ _)); [done|]. pose proof (cr_count _ _ _ Hc).
  assert (Hle : (length l <= length (registry s))%nat) by apply List.filter_length_le.
  unfold registry in Hle. rewrite length_fmap, length_seqZ in Hle. lia.
Qed.

(** ** One block *)

Lemma pending_lookup v L id p :
  vote_inv v L -> pending_map v !! id = Some p <-> proposals v !! id = Some p /\ proposal_status p = Ok Pending.
Proof.
  intros Hi. unfold pending_map. rewrite map_lookup_filter_Some. split; intros [Hp Hs]; split; try done.
  - unfold proposal_status. by rewrite Hs.
  - unfold proposal_status, proposal_status_from_u8 in Hs. by destruct (Z.eqb_spec (pr_status p) 0); [|repeat case_match; simplify_eq].
Qed.

Lemma pending_map_close v id p st : st <> Pending ->
  filter (fun '(_, q) => pr_status q = 0)
    (<[id := p <| pr_status := proposal_status_to_u8 st |>]> (proposals v)) = delete id (pending_map v).
Proof.
  intros Hne. unfold pending_map. rewrite map_filter_insert_False by (simpl; by destruct st).
  by rewrite map_filter_delete.
Qed.

Lemma target_answers env w L id p st :
  chain_id env = chain -> world_inv w L -> live w -> proposals (w_vote w) !! id = Some p ->
  proposal_status p = Ok Pending -> st = Approved \/ st = Expired ->
  exists o w1, handle_target_tally targets env id p (proposal_bond_amount (w_vote w)).[id] st w = (Ok o, w1)
    /\ (o = Applied -> J (w_target w1) (delete id (pending_map (w_vote w)))).
Proof.
  intros Hch (Hi & _) (_ & HJ & Hserved) Hp Hst Hst'.
  assert (Hpm : pending_map (w_vote w) !! id = Some p) by by apply (pending_lookup _ L).
  destruct (Hserved _ _ Hpm) as [t Ht]. destruct (lookup_frames _ _ _ targets_frame Ht) as (_ & Em & Hin).
  rewrite Forall_forall in targets_contract. specialize (targets_contract _ Hin).
  destruct (vi_record _ _ Hi _ _ Hp) as [Eid _]. subst id.
  unfold handle_target_tally, mbind, lift. rewrite Ht.
  apply (tc_answers _ _ _ _ targets_contract env w (pending_map (w_vote w))); try done.
  by rewrite (get_record_eq _ L).
Qed.

Lemma visit_live env w L id :
  chain_id env = chain -> world_inv w L -> live w -> id ∈ L ->
  exists w' L', visit env targets id w = (Ok tt, w') /\ world_inv w' L' /\ live w'
    /\ forall j, j ∈ L -> j <> id -> j ∈ L'.
Proof.
  intros Hch Hw Hl Hin. pose proof Hw as (Hi & _). pose proof Hl as (Hvs & HJ & Hserved).
  destruct (vi_open _ _ Hi _ Hin) as [p Hp]. rewrite (visit_eq _ _ _ _ _ _ Hw Hp).
  destruct (due env p) eqn:Hdue; [|by exists w, L].
  pose proof (due_pending _ _ Hdue) as Hst. destruct (active_reads _ Hvs) as (active & n & Ha & Hn).
  destruct (target_answers env w L id p (tally_status active n (votes_of (w_vote w) id)))
    as (o & w1 & Hh & HJ1); try done; [apply tally_status_cases|].
  destruct (finalize_voting_runs _ _ _ _ _ _ _ _ _ _ targets_frame Hw Hp Hst Ha Hn Hh)
    as (w' & L' & Hrun & Hw' & [] & HL).
  exists w', L'. split_and!; [done|done| |].
  - assert (Hpm : pending_map (w_vote w') = delete id (pending_map (w_vote w))).
    { unfold pending_map at 1. rewrite cl_proposals. apply pending_map_close.
      destruct o; [|done]. by destruct (tally_status_cases active n (votes_of (w_vote w) id)) as [-> | ->]. }
    unfold live, served. rewrite cl_validators, cl_target, Hpm. split_and!; [done| |].
    + destruct o; [by apply HJ1|by apply J_forgets].
    + intros j q [_ Hq]%lookup_delete_Some. by eapply Hserved.
  - intros j Hj Hne. destruct o; [|by subst]. rewrite HL in Hj. set_solver.
Qed.

Lemma loop_live env ids : chain_id env = chain -> forall w L,
  world_inv w L -> live w -> NoDup ids -> (forall id, id ∈ ids -> id ∈ L) ->
  exists w', mfor ids (visit env targets) w = (Ok tt, w') /\ live w'.
Proof.
  intros Hch. induction ids as [|id ids IH]; intros w L Hw Hl Hnd Hsub; [by exists w|].
  apply NoDup_cons in Hnd as [Hnew Hnd].
  destruct (visit_live env w L id) as (w1 & L1 & Hv & Hw1 & Hl1 & HL1); try done; [set_solver|].
  destruct (IH w1 L1) as (w' & Hrun & Hl'); try done.
  { intros j Hj. apply HL1; [set_solver|]. by intros ->. }
  exists w'. split; [|done]. simpl. by eapply mbind_ok_intro.
Qed.

Lemma block_live env w L :
  chain_id env = chain -> world_inv w L -> live w ->
  exists w', process_begin_block env targets w = (Ok tt, w') /\ live w'.
Proof.
  intros Hch Hw Hl. pose proof Hw as (Hi & _).
  destruct (loop_live env L Hch w L) as (w' & Hrun & Hl'); try done; [apply (vi_nodup _ _ Hi)|].
  exists w'. split; [|done]. unfold process_begin_block.
  eapply mbind_ok_intro; [apply on_vote_run; by apply pending_runs|]. by rewrite world_same_vote.
Qed.

(** ** Every step *)

Lemma live_same w w' :
  live w -> w_vote w' = w_vote w -> w_validators w' = w_validators w -> w_target w' = w_target w -> live w'.
Proof. unfold live. by intros ? -> -> ->. Qed.

Lemma call_live env caller value c w L w' :
  chain_id env = chain -> world_inv w L -> caller <> 0 -> address_ok caller ->
  room (w_target w') (pending_map (w_vote w')) -> live w ->
  call_effect targets env caller value c w w' -> live w'.
Proof.
  intros Hch (Hi & _) Hz Hca Hroom Hl He. destruct He as [t target payload id w w1 w' (n & -> & _) Ht []
    |id approve w w1 w' (n & -> & _) [_ _ _ _ Ep _ _ (En & Evs & Et)]|c w w' (n & -> & _)].
  - destruct Hl as (Hvs & HJ & Hserved). simpl in *.
    destruct (lookup_frames _ _ _ targets_frame Ht) as (_ & Em & Hin).
    rewrite Forall_forall in targets_contract. specialize (targets_contract _ Hin).
    set (p := MkProposal _ _ _ _ _ _ _) in *.
    assert (Hpm : pending_map (w_vote w') = <[id := p]> (pending_map (w_vote w))).
    { unfold pending_map. rewrite ct_proposals. by apply map_filter_insert_True. }
    assert (Hfresh : pending_map (w_vote w) !! id = None).
    { apply eq_None_not_Some. intros [q Hq]. apply (pending_lookup _ L) in Hq as [Hq _]; [|done].
      assert (1 <= id <= proposal_count (w_vote w)); [|lia]. apply (vi_dense _ _ Hi). eauto. }
    destruct ct_reserved as (w2 & w3 & E2 & Hres & E3). simpl in E2.
    pose proof (vi_count _ _ Hi) as Hcount. unfold in_range in Hcount.
    unfold live, served. rewrite ct_validators, Hpm, E3. split_and!; [done| |].
    + apply (tc_accepts _ _ _ _ targets_contract env w2 w3 _ p
        (MkContext caller value (block_number env) (chain_id env))); try done; simpl; [by rewrite E2|lia|].
      change (pr_id p) with id. by rewrite <- Hpm, <- E3.
    + intros j q [[<- <-]|[Hne Hq]]%lookup_insert_Some; [simpl; rewrite Em; eauto|by eapply Hserved].
  - unfold live, served, pending_map in *. by rewrite Ep, Evs, Et.
  - by eapply live_same.
Qed.

Lemma step_live w L w' :
  world_inv w L -> live w -> roomy_step w w' -> live w'.
Proof.
  intros Hw Hl [Hs Hroom]. destruct Hs as [env caller value c r w w' Hok Hrun|env w w' Hch Hrun|w w' Ev Hvs Het _ _].
  - destruct (call_inv chain targets _ _ _ _ _ _ _ _ targets_frame keys_distinct Hw Hok Hrun) as [He _].
    destruct Hok as (Hch & Hca & Hz & _). by eapply (call_live env caller value c w L).
  - destruct (block_live env w L Hch Hw Hl) as (w1 & Hrun1 & Hl1).
    rewrite Hrun in Hrun1. by simplify_eq.
  - destruct Hl as (Hv & HJ & Hse). unfold live, served. rewrite Ev. split_and!; [|by eapply J_evolves; [| |exact HJ]; [|rewrite <- Ev]|done].
    by eapply exec_inv.
Qed.

Lemma reach_live w w' :
  rtc roomy_step w w' -> forall L, world_inv w L -> live w -> live w'.
Proof.
  induction 1 as [|w w1 w' Hs _ IH]; intros L Hw Hl; [done|].
  destruct (step_inv chain targets evolve _ _ _ targets_frame keys_distinct Hw (proj1 Hs)) as [L1 Hw1].
  eapply IH; [exact Hw1|]. exact (step_live _ _ _ Hw Hl Hs).
Qed.

(** C29. The block hook never fails. From a deployed contract with a consistent
    registry and targets that keep their contract, after any calls, blocks and
    other steps in which the targets' storage has room for what is pending, the
    hook of the next block returns: it finds every open proposal, reads the active
    validators, gets every target's answer and can pay every bond it settles, and
    it leaves no proposal pending whose window closed. *)
Theorem block_hook_never_fails w0 w env :
  deployed w0 -> vs_inv (w_validators w0) -> J (w_target w0) ∅ ->
  rtc roomy_step w0 w -> chain_id env = chain ->
  exists w', process_begin_block env targets w = (Ok tt, w')
    /\ forall id p, get_record (w_vote w') id = Some p -> proposal_status p = Ok Pending ->
         block_number env <= pr_voting_deadline_height p.
Proof.
  intros Hd Hvs HJ Hr Hch. pose proof (deployed_inv _ Hd) as Hw0.
  assert (Hl0 : live w0).
  { unfold live, served, pending_map. destruct Hd as [-> _]. simpl. rewrite map_filter_empty.
    split_and!; [done|done|]. intros id p. by rewrite lookup_empty. }
  assert (Hr' : rtc (vote_step chain targets evolve) w0 w)
    by (eapply rtc_subrel; [|exact Hr]; by intros ?? []).
  destruct (reach_inv chain targets evolve _ _ targets_frame keys_distinct Hr' _ Hw0) as [L Hw].
  pose proof (reach_live _ _ Hr _ Hw0 Hl0) as Hl.
  destruct (block_live env w L Hch Hw Hl) as (w' & Hrun & _). exists w'. split; [done|].
  pose proof Hw as (Hi & _).
  destruct (begin_block_inv _ _ _ _ _ targets_frame Hw Hrun) as ([L' (Hi' & _)] & outs & Han & He).
  intros id p Hp Hst. rewrite (get_record_eq _ _ _ Hi') in Hp.
  pose proof (none_due _ _ _ _ _ _ _ Hi He Hp) as Hdue. unfold due in Hdue.
  rewrite bool_decide_eq_true_2 in Hdue by done. bprop. lia.
Qed.
End Live.

(** * Examples *)

(** A target that accepts everything and keeps nothing, voted on by the two active
    validators of the sample registry, with a window of two blocks. *)
#[local] Existing Instance sample_externals.
#[local] Existing Instance spelled_keccak.
#[local] Instance memo_window : VotingWindow := 2.

Definition memo_target : VoteTarget unit := {|
  target_module := 42;
  admission := ActiveValidatorOnly;
  target_validate := fun _ _ => Ok tt;
  target_reserve := fun _ _ _ _ => mret tt;
  target_handle_tally := default_handle_tally (fun _ _ _ _ => mret Applied) |}.
Definition memo_targets : list (VoteTarget unit) := [memo_target].
Definition memo_evolve (_ _ : unit) : Prop := True.
Definition memo_env (height : Z) : Env := mkEnv height 1 0.

Definition memo_world : World unit := MkWorld empty_vote sample_active ∅ tt.
Definition memo_run (height : Z) (caller : Address) (c : VoteCall) (w : World unit) : World unit :=
  snd (vote_call (memo_env height) memo_targets caller 0 c w).
Definition memo_created : World unit := memo_run 10 10 (createProposal 42 [1]) memo_world.
Definition memo_first : World unit := memo_run 11 10 (castVote 1 true) memo_created.
Definition memo_voted : World unit := memo_run 11 11 (castVote 1 true) memo_first.
Definition memo_closed : World unit := snd (process_begin_block (memo_env 13) memo_targets memo_voted).
Definition memo_proposal : ProposalRecord := MkProposal 1 10 42 [1] 10 12 0.

Lemma memo_frames : Forall frames memo_targets.
Proof.
  constructor; [|constructor]. constructor; intros; simpl; [by apply keeps_ro|].
  destruct st; by apply keeps_ro.
Qed.

Lemma memo_keys : keccak_injective_52.
Proof. intros a b Ha Hb H1 H2. apply spelled_inj; [done..|congruence]. Qed.

Lemma memo_deployed : deployed memo_world.
Proof. split; [done|]. simpl. split; [intros a; by rewrite mread_empty|]. by rewrite map_sum_empty. Qed.

Lemma memo_step height caller c x w :
  (height = 10 \/ height = 11) -> (caller = 10 \/ caller = 11) ->
  match c with castVote id _ => Z.of_nat (length (votes_of (w_vote w) id)) < u32_max | _ => True end ->
  fst (vote_call (memo_env height) memo_targets caller 0 c w) = Ok x ->
  vote_step 1 memo_targets memo_evolve w (memo_run height caller c w).
Proof.
  intros Hh Hc Hv Hrun. apply (step_call _ _ _ (memo_env height) caller 0 c x).
  - unfold call_ok, address_ok, in_range. simpl. split_and!; try done; unfold u64_max; lia.
  - by apply (run_snd (vote_call _ _ _ _ _)).
Qed.

Lemma memo_path : vote_step 1 memo_targets memo_evolve memo_world memo_created
  /\ vote_step 1 memo_targets memo_evolve memo_created memo_first
  /\ vote_step 1 memo_targets memo_evolve memo_first memo_voted.
Proof.
  split; [|split].
  - apply (memo_step 10 10 _ (ReturnsWord 1)); [by left|by left|exact I|vm_compute; reflexivity].
  - apply (memo_step 11 10 _ ReturnsNothing); [by right|by left|vm_compute; reflexivity..].
  - apply (memo_step 11 11 _ ReturnsNothing); [by right|by right|vm_compute; reflexivity..].
Qed.

Lemma memo_reach : rtc (vote_step 1 memo_targets memo_evolve) memo_world memo_voted.
Proof.
  destruct memo_path as (H1 & H2 & H3).
  eapply rtc_l; [exact H1|]. eapply rtc_l; [exact H2|]. by apply rtc_once.
Qed.

Lemma memo_close : process_begin_block (memo_env 13) memo_targets memo_voted = (Ok tt, memo_closed).
Proof. apply (run_snd (process_begin_block _ _)). vm_compute. reflexivity. Qed.

Lemma memo_record : get_record (w_vote memo_voted) 1 = Some memo_proposal.
Proof. vm_compute. reflexivity. Qed.

Lemma vote_books_solvent_witness : NoDup (pending_of (w_vote memo_voted))
  /\ unsettled_bond_liabilities (w_vote memo_voted)
     = bond_sum (w_vote memo_voted) (pending_of (w_vote memo_voted)).
Proof.
  destruct (vote_books_solvent 1 memo_targets memo_evolve memo_frames memo_keys memo_world memo_voted
    memo_deployed memo_reach) as (Hl & _ & Hnd & _). exact (conj Hnd Hl).
Defined.

Lemma approval_needs_quorum_witness : 12 < 13
  /\ exists active Q, active_validator_addresses (w_validators memo_voted) = Ok active
       /\ quorum_of (w_vote memo_voted) 1 active Q.
Proof.
  apply (approval_needs_quorum 1 memo_targets memo_evolve memo_frames memo_keys memo_world memo_voted
    (memo_env 13) memo_closed 1 memo_proposal (memo_proposal <| pr_status := 1 |>)
    memo_deployed memo_reach memo_close memo_record); vm_compute; reflexivity.
Defined.

Lemma begin_block_exact_witness : exists outs,
  answers (memo_env 13) memo_targets (pending_of (w_vote memo_voted)) memo_voted outs memo_closed
  /\ block_effect (memo_env 13) memo_voted (pending_of (w_vote memo_voted)) outs memo_closed.
Proof.
  destruct (begin_block_exact 1 memo_targets memo_evolve memo_frames memo_keys memo_world memo_voted
    (memo_env 13) memo_closed memo_deployed memo_reach memo_close) as (outs & Han & He & _).
  exact (ex_intro _ outs (conj Han He)).
Defined.

Lemma votes_and_outcomes_final_witness : history memo_voted memo_closed.
Proof.
  exact (proj1 (proj2 (votes_and_outcomes_final 1 memo_targets memo_evolve memo_frames memo_keys
    memo_world memo_voted memo_closed memo_deployed memo_reach
    (rtc_once _ _ (step_block 1 memo_targets memo_evolve (memo_env 13) _ _ eq_refl memo_close))))).
Defined.

Definition memo_free (_ : unit) (_ : gmap Z ProposalRecord) : Prop := True.

Lemma memo_contract : Forall (target_contract 1 memo_free memo_free) memo_targets.
Proof.
  constructor; [|constructor]. constructor; [done|].
  intros env w m p context st _ _ _ _ _ _ _ [-> | ->]; by eexists _, _.
Qed.

Lemma memo_roomy : rtc (roomy_step 1 memo_targets memo_evolve memo_free) memo_world memo_voted.
Proof. eapply rtc_subrel; [|exact memo_reach]. by intros w w' Hs. Qed.

Lemma block_hook_never_fails_witness :
  exists w', process_begin_block (memo_env 13) memo_targets memo_voted = (Ok tt, w').
Proof.
  destruct (block_hook_never_fails 1 memo_targets memo_evolve memo_free memo_free memo_frames memo_keys
    memo_contract (fun _ _ _ _ => I) (fun _ _ _ _ _ _ => I) memo_world memo_voted (memo_env 13)
    memo_deployed sample_active_inv I memo_roomy eq_refl) as (w' & Hrun & _). exact (ex_intro _ w' Hrun).
Defined.
