(* ===== verification/Governance.v ===== *)
(** The Governance precompile ([crates/core/governance/src]): the canon and the
    meta-canon with their revision hashes, the improvement proposals (OIP and
    GIP) with their status graph and their author and status indexes, and the
    vote target that materializes an approved proposal.

    [schema.rs], [status.rs], [state.rs], [runtime.rs], [errors.rs],
    [precompile.rs], [vote_target.rs] and [diff.rs].

    The two kinds of proposal share one macro in the source and one
    [ProposalBook] here, selected by [ProposalKind]. Texts are UTF-8 byte lists;
    [read_string] turns bytes that are not UTF-8 into the empty string, which no
    text written through the contract is, since the ABI decodes a [String].
    [keccak256], the JSON reader of vote payloads ([serde_json]) and the line
    diff ([similar]) are parameters. *)

From S2P Require Import Prelude Bytes Native ValidatorSet Containers Vote.

(** * Parameters *)

(** Which proposal kind a vote payload creates. *)
Inductive ProposalKind : Type := Oip | Gip.
#[global] Instance ProposalKind_eq_dec : EqDecision ProposalKind.
Proof. solve_decision. Defined.

Record GovernanceVotePayload : Type := MkVotePayload {
  vp_kind : ProposalKind;
  vp_text : list Z;
}.

(** [serde_json] on vote payloads, and [similar]: [unified_diff from to old new]
    is [TextDiff::from_lines(old, new).unified_diff().header(from, to)], printed. *)
Class GovernanceLibs := {
  json_value : Type;
  json_from_slice : list Z -> option json_value;
  payload_from_json : json_value -> option GovernanceVotePayload;
  payload_to_string : GovernanceVotePayload -> list Z;
  unified_diff : string -> string -> list Z -> list Z -> list Z }.

(** * Status (status.rs) *)

Definition DRAFT : Z := 0.
Definition APPROVED : Z := 1.
Definition REJECTED : Z := 2.
Definition REWORK : Z := 3.
Definition IMPLEMENTED : Z := 4.

(** [GovernanceError]; every variant becomes a [Revert] with its text. *)
Definition NotAuthorized := Revert "not authorized".
Definition NotAuthor := Revert "not the proposal author".
Definition GovProposalNotFound := Revert "proposal not found".
Definition InvalidStatusTransition := Revert "invalid status transition".
Definition InvalidStatus := Revert "invalid status value".
Definition TextNotEditableInStatus := Revert "text is not editable in the current status".
Definition EmptyText := Revert "text must not be empty".
Definition TextTooLarge := Revert "text exceeds the maximum size".
Definition InvalidDiffBase := Revert "invalid diff base (expected 0 = canon or 1 = meta-canon)".
Definition GovInvalidPayload := Revert "invalid vote payload".

Definition is_valid_status (s : Z) : bool := s <=? IMPLEMENTED.

Definition permitted (from to : Z) : bool :=
  ((from =? DRAFT) && (to =? APPROVED)) || ((from =? DRAFT) && (to =? REJECTED))
  || ((from =? DRAFT) && (to =? REWORK)) || ((from =? REWORK) && (to =? DRAFT))
  || ((from =? APPROVED) && (to =? IMPLEMENTED)).

Definition validate_transition (from to : Z) : result unit :=
  if negb (is_valid_status to) then Err InvalidStatus
  else if permitted from to then Ok tt else Err InvalidStatusTransition.

Definition text_editable (status : Z) : bool := (status =? DRAFT) || (status =? REWORK).

(** * Storage (schema.rs) *)

(** [Oip] and [Gip]: the same fields. *)
Record Improvement : Type := MkImprovement {
  ip_id : Z;
  ip_author : Address;
  ip_status : Z;
  ip_created_block : Z;
  ip_updated_block : Z;
  ip_text_hash : B256;
  ip_text : list Z;
}.
#[global] Instance Eta_Improvement : Eta Improvement := fun r =>
  MkImprovement (ip_id r) (ip_author r) (ip_status r) (ip_created_block r) (ip_updated_block r)
    (ip_text_hash r) (ip_text r).

(** The slots of one proposal kind. *)
Record ProposalBook : Type := MkBook {
  next_id : Z;
  records : gmap Z Improvement;
  author_count : gmap Address Z;
  author_ids : gmap B256 Z;
  by_status : gmap Z StorageSet;
}.
#[global] Instance Eta_ProposalBook : Eta ProposalBook := fun b =>
  MkBook (next_id b) (records b) (author_count b) (author_ids b) (by_status b).

(** The slots of one normative text. *)
Record NormativeText : Type := MkNormative {
  nt_text : list Z;
  nt_version : Z;
  nt_hash : B256;
  nt_revisions : gmap Z B256;
}.

Inductive GovEvent : Type :=
  | Submitted (k : ProposalKind) (id : Z) (author : Address) (text_hash : B256)
  | TextUpdated (k : ProposalKind) (id : Z) (text_hash : B256)
  | StatusChanged (k : ProposalKind) (id old_status new_status : Z)
  | MetaCanonUpdated (version : Z) (hash : B256)
  | CanonUpdated (version : Z) (hash : B256).

Record Governance : Type := MkGovernance {
  meta_canon : NormativeText;
  canon : NormativeText;
  authorities : gmap Address bool;
  oips : ProposalBook;
  gips : ProposalBook;
  gov_events : list GovEvent;
}.
#[global] Instance Eta_Governance : Eta Governance := fun g =>
  MkGovernance (meta_canon g) (canon g) (authorities g) (oips g) (gips g) (gov_events g).

Definition empty_book : ProposalBook := MkBook 0 ∅ ∅ ∅ ∅.

Section Contract.
Context `{K : Keccak} `{G : GovernanceLibs}.
Abbreviation GM := (M Governance).

Definition book (k : ProposalKind) (g : Governance) : ProposalBook :=
  match k with Oip => oips g | Gip => gips g end.
Definition set_book (k : ProposalKind) (b : ProposalBook) (g : Governance) : Governance :=
  match k with Oip => g <| oips := b |> | Gip => g <| gips := b |> end.
Definition on_book {A} (k : ProposalKind) (m : M ProposalBook A) : GM A :=
  zoom (book k) (set_book k) m.
Definition gov_emit (e : GovEvent) : GM unit :=
  modify (fun g => g <| gov_events := gov_events g ++ [e] |>).

(** [Map<U256, Oip>]: a record is present when its author is not zero. *)
Definition book_get (b : ProposalBook) (id : Z) : option Improvement :=
  match records b !! id with
  | Some r => if ip_author r =? 0 then None else Some r
  | None => None
  end.
Definition book_write (r : Improvement) : M ProposalBook unit :=
  modify (fun b => b <| records := <[ip_id r := r]> (records b) |>).
(** The record type's name, which the storage errors carry. *)
Definition record_name (k : ProposalKind) : string :=
  match k with Oip => "Oip" | Gip => "Gip" end.
Definition book_create (k : ProposalKind) (r : Improvement) : M ProposalBook unit :=
  let! present := gets (fun b => book_get b (ip_id r)) in
  require (negb (bool_decide (is_Some present))) (Revert (record_name k +:+ " already exists")) ;;;
  book_write r.
Definition book_update (k : ProposalKind) (r : Improvement) : M ProposalBook unit :=
  let! present := gets (fun b => book_get b (ip_id r)) in
  require (bool_decide (is_Some present)) (Revert (record_name k +:+ " not found")) ;;;
  book_write r.

Definition status_set (b : ProposalBook) (status : Z) : StorageSet :=
  default empty_set (by_status b !! status).
Definition on_status_set {A} (status : Z) (m : M StorageSet A) : M ProposalBook A :=
  zoom (fun b => status_set b status)
       (fun s b => b <| by_status := <[status := s]> (by_status b) |>) m.
Definition ask_status_set {A} (status : Z) (m : M StorageSet A) : M ProposalBook A :=
  reads (fun b => fst (m (status_set b status))).

(** * Reads (state.rs) *)

Definition MAX_PAGE : Z := 1000.

Record ProposalMeta : Type := MkMeta {
  pm_id : Z;
  pm_author : Address;
  pm_status : Z;
  pm_created_block : Z;
  pm_updated_block : Z;
  pm_text_hash : B256;
}.

Definition author_index_key (author : Address) (index : Z) : B256 :=
  keccak256 (be_bytes 20 author ++ be_bytes 4 index).

Definition page_bounds (total offset limit : Z) : Z * Z :=
  let start := Z.min offset total in
  let take := Z.min limit MAX_PAGE in
  (start, Z.min (saturating_add u32_max start take) total).

Definition get_meta_canon (g : Governance) : list Z * Z * B256 :=
  (nt_text (meta_canon g), nt_version (meta_canon g), nt_hash (meta_canon g)).
Definition get_canon (g : Governance) : list Z * Z * B256 :=
  (nt_text (canon g), nt_version (canon g), nt_hash (canon g)).
Definition meta_canon_revision_hash (g : Governance) (version : Z) : B256 :=
  (nt_revisions (meta_canon g)).[version].
Definition canon_revision_hash (g : Governance) (version : Z) : B256 :=
  (nt_revisions (canon g)).[version].

Definition get_improvement (k : ProposalKind) (g : Governance) (id : Z) : option Improvement :=
  book_get (book k g) id.
Definition improvement_count (k : ProposalKind) (g : Governance) : Z := next_id (book k g).
Definition is_authority (g : Governance) (who : Address) : bool := (authorities g).[who].

(** The fixed-width fields, read slot by slot. *)
Definition proposal_meta (b : ProposalBook) (id : Z) : ProposalMeta :=
  match records b !! id with
  | Some r => MkMeta id (ip_author r) (ip_status r) (ip_created_block r) (ip_updated_block r)
                (ip_text_hash r)
  | None => MkMeta id 0 0 0 0 0
  end.

Definition count_by_author (b : ProposalBook) (author : Address) : Z := (author_count b).[author].

Definition list_by_author (author : Address) (offset limit : Z) : M ProposalBook (list ProposalMeta) :=
  let! total := gets (fun b => count_by_author b author) in
  let '(start, stop) := page_bounds total offset limit in
  mmap (seqZ start (stop - start)) (fun i =>
    let! id := gets (fun b => (author_ids b).[author_index_key author i]) in
    gets (fun b => proposal_meta b id)).

Definition count_by_status (status : Z) : M ProposalBook Z :=
  require (is_valid_status status) InvalidStatus ;;;
  ask_status_set status set_len.

(** The loop over the positions of a status set. *)
Fixpoint status_page (status : Z) (positions : list Z) : M ProposalBook (list ProposalMeta) :=
  match positions with
  | [] => mret []
  | i :: rest =>
      let! found := ask_status_set status (set_at i) in
      match found with
      | None => status_page status rest
      | Some id =>
          let! m := gets (fun b => proposal_meta b id) in
          let! page := status_page status rest in
          mret (m :: page)
      end
  end.

Definition list_by_status (status offset limit : Z) : M ProposalBook (list ProposalMeta) :=
  require (is_valid_status status) InvalidStatus ;;;
  let! total := ask_status_set status set_len in
  let '(start, stop) := page_bounds total offset limit in
  status_page status (seqZ start (stop - start)).

(** * Operations (runtime.rs) *)

Definition MAX_TEXT_BYTES : Z := 128 * 1024.

Definition validate_text (text : list Z) : result unit :=
  if bool_decide (text = []) then Err EmptyText
  else if MAX_TEXT_BYTES <? Z.of_nat (length text) then Err TextTooLarge
  else Ok tt.

(** [submit_oip] and [submit_gip]. *)
Definition submit (env : Env) (k : ProposalKind) (author : Address) (text : list Z) : GM Z :=
  lift (validate_text text) ;;;
  let block := block_number env in
  let! counter := gets (fun g => next_id (book k g)) in
  let id := wrapping_add u64_max counter 1 in
  let text_hash := keccak256 text in
  on_book k (book_create k (MkImprovement id author DRAFT block block text_hash text)) ;;;
  on_book k (modify (fun b => b <| next_id := id |>)) ;;;
  let! acount := gets (fun g => (author_count (book k g)).[author]) in
  on_book k (modify (fun b => b <| author_ids :=
               (author_ids b).[author_index_key author acount <- id] |>)) ;;;
  on_book k (modify (fun b => b <| author_count :=
               (author_count b).[author <- wrapping_add u32_max acount 1] |>)) ;;;
  let! _ := on_book k (on_status_set DRAFT (set_insert id)) in
  gov_emit (Submitted k id author text_hash) ;;;
  mret id.

(** [apply_oip_status] and [apply_gip_status]. *)
Definition apply_status (env : Env) (k : ProposalKind) (id new_status : Z) : GM unit :=
  let! found := gets (fun g => book_get (book k g) id) in
  let! entry := lift (ok_or found GovProposalNotFound) in
  let current := ip_status entry in
  lift (validate_transition current new_status) ;;;
  let block := block_number env in
  on_book k (modify (fun b => b <| records := <[id :=
               entry <| ip_status := new_status |> <| ip_updated_block := block |>]> (records b) |>)) ;;;
  let! _ := on_book k (on_status_set current (set_remove id)) in
  let! _ := on_book k (on_status_set new_status (set_insert id)) in
  gov_emit (StatusChanged k id current new_status).

(** [create_approved_oip] and [create_approved_gip]. *)
Definition create_approved (env : Env) (k : ProposalKind) (author : Address) (text : list Z) : GM Z :=
  let! id := submit env k author text in
  apply_status env k id APPROVED ;;;
  mret id.

(** [update_oip_text] and [update_gip_text]. *)
Definition update_text (env : Env) (k : ProposalKind) (caller : Address) (id : Z) (text : list Z) :
    GM unit :=
  lift (validate_text text) ;;;
  let! found := gets (fun g => book_get (book k g) id) in
  let! record := lift (ok_or found GovProposalNotFound) in
  require (ip_author record =? caller) NotAuthor ;;;
  require (text_editable (ip_status record)) TextNotEditableInStatus ;;;
  let text_hash := keccak256 text in
  on_book k (book_update k (record <| ip_text := text |> <| ip_text_hash := text_hash |>
                                 <| ip_updated_block := block_number env |>)) ;;;
  gov_emit (TextUpdated k id text_hash).

(** [set_oip_status] and [set_gip_status]. *)
Definition set_status (env : Env) (k : ProposalKind) (caller : Address) (id new_status : Z) : GM unit :=
  let! found := gets (fun g => book_get (book k g) id) in
  let! entry := lift (ok_or found GovProposalNotFound) in
  let current := ip_status entry in
  lift (validate_transition current new_status) ;;;
  let author_resubmit := (current =? REWORK) && (new_status =? DRAFT) && (caller =? ip_author entry) in
  let! authority := gets (fun g => is_authority g caller) in
  require (author_resubmit || authority) NotAuthorized ;;;
  apply_status env k id new_status.

Definition ensure_authority (caller : Address) : GM unit :=
  let! authority := gets (fun g => is_authority g caller) in
  require authority NotAuthorized.

Definition add_authority (caller who : Address) : GM unit :=
  ensure_authority caller ;;;
  modify (fun g => g <| authorities := (authorities g).[who <- true] |>).

(** The new state of a normative text. *)
Definition overwrite (n : NormativeText) (text : list Z) : NormativeText :=
  let version := wrapping_add u64_max (nt_version n) 1 in
  let hash := keccak256 text in
  MkNormative text version hash ((nt_revisions n).[version <- hash]).

Definition update_meta_canon (caller : Address) (text : list Z) : GM Z :=
  ensure_authority caller ;;;
  lift (validate_text text) ;;;
  modify (fun g => g <| meta_canon := overwrite (meta_canon g) text |>) ;;;
  let! n := gets meta_canon in
  gov_emit (MetaCanonUpdated (nt_version n) (nt_hash n)) ;;;
  mret (nt_version n).

Definition update_canon (caller : Address) (text : list Z) : GM Z :=
  ensure_authority caller ;;;
  lift (validate_text text) ;;;
  modify (fun g => g <| canon := overwrite (canon g) text |>) ;;;
  let! n := gets canon in
  gov_emit (CanonUpdated (nt_version n) (nt_hash n)) ;;;
  mret (nt_version n).

(** * Dispatch (precompile.rs) *)

(** The arms of the ABI that exist for both kinds carry the kind. *)
Inductive GovCall : Type :=
  | getMetaCanon | getCanon
  | getMetaCanonRevisionHash (version : Z) | getCanonRevisionHash (version : Z)
  | updateMetaCanon (text : list Z) | updateCanon (text : list Z)
  | submitProposal (k : ProposalKind) (text : list Z)
  | getImprovement (k : ProposalKind) (id : Z)
  | updateText (k : ProposalKind) (id : Z) (text : list Z)
  | setStatus (k : ProposalKind) (id new_status : Z)
  | proposalCount (k : ProposalKind)
  | getDiff (k : ProposalKind) (id base : Z)
  | getByAuthor (k : ProposalKind) (author : Address) (offset limit : Z)
  | getByStatus (k : ProposalKind) (status offset limit : Z)
  | countByAuthor (k : ProposalKind) (author : Address)
  | countByStatus (k : ProposalKind) (status : Z)
  | isAuthority (who : Address).

Inductive GovReturn : Type :=
  | GovNothing
  | GovWord (w : Z)
  | GovNormative (n : list Z * Z * B256)
  | GovImprovement (r : Improvement)
  | GovText (t : list Z)
  | GovMetas (l : list ProposalMeta)
  | GovBool (b : bool).

(** [diff::unified]. *)
Definition unified (base proposal : list Z) : list Z :=
  unified_diff "base" "proposal" base proposal.

(** [diff_base_text]: 0 = canon, 1 = meta-canon. *)
Definition diff_base_text (g : Governance) (base : Z) : result (list Z) :=
  if base =? 0 then Ok (fst (fst (get_canon g)))
  else if base =? 1 then Ok (fst (fst (get_meta_canon g)))
  else Err InvalidDiffBase.

Definition gov_dispatch (env : Env) (caller : Address) (value : Z) (c : GovCall) : GM GovReturn :=
  require (value =? 0) (Revert "non-payable function called with value") ;;;
  match c with
  | getMetaCanon => let! n := gets get_meta_canon in mret (GovNormative n)
  | getCanon => let! n := gets get_canon in mret (GovNormative n)
  | getMetaCanonRevisionHash version =>
      let! h := gets (fun g => meta_canon_revision_hash g version) in mret (GovWord h)
  | getCanonRevisionHash version =>
      let! h := gets (fun g => canon_revision_hash g version) in mret (GovWord h)
  | updateMetaCanon text => let! v := update_meta_canon caller text in mret (GovWord v)
  | updateCanon text => let! v := update_canon caller text in mret (GovWord v)
  | submitProposal k text => let! id := submit env k caller text in mret (GovWord id)
  | getImprovement k id =>
      let! found := gets (fun g => get_improvement k g id) in
      let! r := lift (ok_or found GovProposalNotFound) in
      mret (GovImprovement r)
  | updateText k id text => update_text env k caller id text ;;; mret GovNothing
  | setStatus k id new_status => set_status env k caller id new_status ;;; mret GovNothing
  | proposalCount k => let! n := gets (improvement_count k) in mret (GovWord n)
  | getDiff k id base =>
      let! found := gets (fun g => get_improvement k g id) in
      let! r := lift (ok_or found GovProposalNotFound) in
      let! text := reads (fun g => diff_base_text g base) in
      mret (GovText (unified text (ip_text r)))
  | getByAuthor k author offset limit =>
      let! l := on_book k (list_by_author author offset limit) in mret (GovMetas l)
  | getByStatus k status offset limit =>
      let! l := on_book k (list_by_status status offset limit) in mret (GovMetas l)
  | countByAuthor k author =>
      let! n := gets (fun g => count_by_author (book k g) author) in mret (GovWord n)
  | countByStatus k status =>
      let! n := on_book k (count_by_status status) in mret (GovWord n)
  | isAuthority who => let! b := gets (fun g => is_authority g who) in mret (GovBool b)
  end.

(** * The vote target (vote_target.rs) *)

Definition GOVERNANCE_ADDRESS : Address := 0x1018.

(** [GovernanceVotePayload::from_value]. *)
Definition payload_from_value (v : json_value) : result GovernanceVotePayload :=
  ok_or (payload_from_json v) GovInvalidPayload.
Definition payload_validate (p : GovernanceVotePayload) : result unit :=
  if bool_decide (vp_text p = []) then Err EmptyText
  else if MAX_TEXT_BYTES <? Z.of_nat (length (vp_text p)) then Err TextTooLarge
  else Ok tt.
Definition payload_encode (k : ProposalKind) (text : list Z) : list Z :=
  payload_to_string (MkVotePayload k text).
Definition validate_json (v : json_value) : result unit :=
  let? p := payload_from_value v in payload_validate p.

Definition governance_validate (payload : list Z) (_ : VoteTargetContext) : result unit :=
  let? v := ok_or (json_from_slice payload) (Revert "invalid proposal payload") in
  validate_json v.

(** The storage of the Governance contract inside the targets' storage. *)
Context {T : Type} (get : T -> Governance) (put : Governance -> T -> T).

Definition on_governance {A} (m : GM A) : M (World T) A :=
  zoom (fun w => get (w_target w)) (fun g w => w <| w_target := put g (w_target w) |>) m.

Definition governance_handle_approved (env : Env) (proposal_id : Z) (payload : list Z)
    (_ : VoteTargetContext) : M (World T) TargetExecutionOutcome :=
  let! v := lift (ok_or (json_from_slice payload)
                    (Fatal "stored Governance proposal payload is invalid")) in
  let! decoded := lift (payload_from_value v) in
  lift (payload_validate decoded) ;;;
  let! found := gets (fun w => get_record (w_vote w) proposal_id) in
  let! proposal := lift (ok_or found GovProposalNotFound) in
  let author := pr_proposer proposal in
  let! _ := on_governance (create_approved env (vp_kind decoded) author (vp_text decoded)) in
  mret Applied.

Definition GovernanceVoteTarget : VoteTarget T := {|
  target_module := GOVERNANCE_ADDRESS;
  admission := ActiveValidatorOnly;
  target_validate := governance_validate;
  target_reserve := fun _ _ _ _ => mret tt;
  target_handle_tally := default_handle_tally governance_handle_approved |}.
End Contract.
