(* ===== verification/GovernanceInv.v ===== *)
(** The invariant of a book of improvement proposals, and what the operations of
    the Governance contract do to it: the id sequence is dense, the author lists
    and the status sets index exactly the records, and every text hash is the
    hash of the stored text. *)

From S2P Require Import Prelude Bytes Native ValidatorSet Containers Vote VoteInv Governance.

Section Inv.
Context `{K : Keccak} `{G : GovernanceLibs}.
Implicit Types (b : ProposalBook) (g : Governance) (k : ProposalKind) (r : Improvement).

(** The author index keys do not collide. *)
Definition keccak_injective_24 : Prop := forall l l',
  Forall byte l -> Forall byte l' -> length l = 24%nat -> length l' = 24%nat ->
  keccak256 l = keccak256 l' -> l = l'.

(** The ids of an author's proposals, oldest first. *)
Definition authored (m : gmap Z Improvement) (a : Address) (id : Z) : bool :=
  match m !! id with Some r => ip_author r =? a | None => false end.
Definition ids_of b (a : Address) : list Z :=
  List.filter (authored (records b) a) (seqZ 1 (next_id b)).

Record record_ok (id : Z) r : Prop := {
  ro_id : ip_id r = id;
  ro_author : ip_author r <> 0 /\ address_ok (ip_author r);
  ro_status : 0 <= ip_status r <= IMPLEMENTED;
  ro_text : validate_text (ip_text r) = Ok tt;
  ro_hash : ip_text_hash r = keccak256 (ip_text r) }.

Definition in_status b (s id : Z) : Prop := exists r, records b !! id = Some r /\ ip_status r = s.

Record book_inv b : Prop := {
  bi_next : 0 <= next_id b <= u32_max;
  bi_dense : forall id, is_Some (records b !! id) <-> 1 <= id <= next_id b;
  bi_record : forall id r, records b !! id = Some r -> record_ok id r;
  bi_count : forall a, address_ok a -> count_by_author b a = Z.of_nat (length (ids_of b a));
  bi_ids : forall a i id, address_ok a -> ids_of b a !! i = Some id ->
    (author_ids b).[author_index_key a (Z.of_nat i)] = id;
  bi_status : forall s, exists l, set_rep (status_set b s) l /\ forall id, id ∈ l <-> in_status b s id }.

Definition gov_inv g : Prop := forall k, book_inv (book k g).

(** ** Lenses *)

Lemma book_set k b g : book k (set_book k b g) = b.
Proof. by destruct k. Qed.
Lemma book_set_other k k' b g : k <> k' -> book k' (set_book k b g) = book k' g.
Proof. by destruct k, k'. Qed.
Lemma set_book_same k g : set_book k (book k g) g = g.
Proof. by destruct k, g. Qed.
Lemma on_book_run {A} k (m : M ProposalBook A) g res b' :
  m (book k g) = (res, b') -> on_book k m g = (res, set_book k b' g).
Proof. apply zoom_run. Qed.

(** ** Reads under the invariant *)

Lemma book_get_eq b id : book_inv b -> book_get b id = records b !! id.
Proof.
  intros Hi. unfold book_get. destruct (records b !! id) as [r|] eqn:E; [|done].
  destruct (ro_author _ _ (bi_record _ Hi _ _ E)). by destruct (Z.eqb_spec (ip_author r) 0).
Qed.

Lemma author_key_inj a i a' i' :
  keccak_injective_24 -> address_ok a -> address_ok a' -> 0 <= i <= u32_max -> 0 <= i' <= u32_max ->
  author_index_key a i = author_index_key a' i' -> a = a' /\ i = i'.
Proof.
  unfold address_ok. intros Hk Ha Ha' Hi Hi' E. apply Hk in E.
  - apply app_inj_1 in E as [E1 E2]; [|by rewrite !length_be_bytes].
    apply be_bytes_inj in E1, E2; try done; change (256 ^ Z.of_nat 4) with (u32_max + 1); lia.
  - apply Forall_app. split; apply be_bytes_byte.
  - apply Forall_app. split; apply be_bytes_byte.
  - by rewrite length_app, !length_be_bytes.
  - by rewrite length_app, !length_be_bytes.
Qed.

Lemma ids_of_length b a : 0 <= next_id b -> Z.of_nat (length (ids_of b a)) <= next_id b.
Proof.
  intros Hn. unfold ids_of. pose proof (filter_length_le (authored (records b) a) (seqZ 1 (next_id b))).
  rewrite length_seqZ in *. lia.
Qed.

Lemma members_bound b l s : book_inv b -> NoDup l -> (forall id, id ∈ l <-> in_status b s id) ->
  Z.of_nat (length l) <= next_id b.
Proof.
  intros Hi Hnd Hl. assert (Hsub : l ⊆+ seqZ 1 (next_id b)).
  { apply NoDup_submseteq; [done|]. intros id (r & Hr & _)%Hl. apply elem_of_seqZ.
    assert (1 <= id <= next_id b); [|lia]. apply (bi_dense _ Hi). eauto. }
  apply submseteq_length in Hsub. rewrite length_seqZ in Hsub. pose proof (bi_next _ Hi). lia.
Qed.

Lemma status_set_insert b s t x : status_set (b <| by_status := <[s := x]> (by_status b) |>) t
  = if decide (s = t) then x else status_set b t.
Proof.
  unfold status_set. simpl. case_decide; subst; [by rewrite lookup_insert_eq|by rewrite lookup_insert_ne].
Qed.

(** ** Submission *)

Definition new_record (env : Env) (id : Z) (author : Address) (text : list Z) : Improvement :=
  MkImprovement id author DRAFT (block_number env) (block_number env) (keccak256 text) text.

Definition with_new b r (s : StorageSet) : ProposalBook :=
  let n := (author_count b).[ip_author r] in
  MkBook (ip_id r) (<[ip_id r := r]> (records b))
    ((author_count b).[ip_author r <- n + 1])
    ((author_ids b).[author_index_key (ip_author r) n <- ip_id r])
    (<[DRAFT := s]> (by_status b)).

Lemma ids_of_new b r s a : book_inv b -> ip_id r = next_id b + 1 ->
  ids_of (with_new b r s) a = ids_of b a ++ (if ip_author r =? a then [next_id b + 1] else []).
Proof.
  intros Hi Hid. pose proof (bi_next _ Hi). unfold ids_of. simpl. rewrite Hid.
  rewrite seqZ_app by lia. rewrite List.filter_app. f_equal.
  - apply List.filter_ext_in. intros id Hin%list_elem_of_In%elem_of_seqZ.
    unfold authored. by rewrite lookup_insert_ne by lia.
  - change (seqZ (1 + next_id b) 1) with [1 + next_id b]. rewrite (Z.add_comm 1). simpl.
    unfold authored. by rewrite lookup_insert_eq.
Qed.

Lemma in_status_insert b b' id r s j : records b' = <[id := r]> (records b) ->
  in_status b' s j <-> (j = id /\ ip_status r = s) \/ (j <> id /\ in_status b s j).
Proof.
  intros E. unfold in_status. rewrite E. destruct (decide (j = id)) as [->|Hne].
  - rewrite lookup_insert_eq. naive_solver.
  - rewrite lookup_insert_ne by done. naive_solver.
Qed.

(** A fresh record joins the author's list and the drafts. *)
Lemma inv_with_new b r s l :
  keccak_injective_24 -> book_inv b -> next_id b < u32_max -> record_ok (next_id b + 1) r ->
  ip_status r = DRAFT -> set_rep s (l ++ [next_id b + 1]) -> (forall id, id ∈ l <-> in_status b DRAFT id) ->
  book_inv (with_new b r s).
Proof.
  intros Hk Hi Hlt Hr Hst Hrep Hl. pose proof (ro_id _ _ Hr) as Hid. pose proof (bi_next _ Hi) as Hn.
  destruct (ro_author _ _ Hr) as [_ Hauth].
  assert (Hfresh : records b !! (next_id b + 1) = None).
  { apply eq_None_not_Some. rewrite (bi_dense _ Hi). lia. }
  pose proof (bi_count _ Hi _ Hauth) as Hcount. unfold count_by_author in Hcount.
  assert (Hlen : forall a, Z.of_nat (length (ids_of b a)) <= next_id b) by (intros; apply ids_of_length; lia).
  constructor.
  - simpl. lia.
  - intros id. simpl. rewrite Hid, lookup_insert_is_Some, (bi_dense _ Hi). lia.
  - intros id q. simpl. rewrite Hid. intros [[<- <-]|[_ Hq]]%lookup_insert_Some; [done|by apply (bi_record _ Hi)].
  - intros a Ha. rewrite ids_of_new, length_app by done. unfold count_by_author. simpl. mcase.
    + rewrite Z.eqb_refl. simpl. rewrite Hcount. lia.
    + rewrite (proj2 (Z.eqb_neq _ _)) by done. simpl. pose proof (bi_count _ Hi _ Ha) as Hc. unfold count_by_author in Hc. rewrite Hc. lia.
  - intros a i id Ha. rewrite ids_of_new by done. simpl. intros Hin.
    apply lookup_app_Some in Hin as [Hin|[Hge Hin]].
    + rewrite mread_mwrite_ne; [by apply (bi_ids _ Hi)|]. rewrite Hcount. intros E.
      pose proof (lookup_lt_Some _ _ _ Hin). pose proof (Hlen a). pose proof (Hlen (ip_author r)).
      apply author_key_inj in E as [<- E]; try done; try lia.
    + destruct (Z.eqb_spec (ip_author r) a) as [<-|]; [|done].
      apply list_lookup_singleton_Some in Hin as [E <-].
      rewrite Hcount. replace (Z.of_nat i) with (Z.of_nat (length (ids_of b (ip_author r)))) by lia.
      by rewrite mread_mwrite_eq.
  - intros t. assert (Hset : status_set (with_new b r s) t = if decide (DRAFT = t) then s else status_set b t)
      by exact (status_set_insert b DRAFT t s).
    rewrite Hset. assert (Hin := in_status_insert b (with_new b r s) (ip_id r) r t).
    case_decide as Ht.
    + subst t. exists (l ++ [next_id b + 1]). split; [done|]. intros id.
      rewrite Hin, elem_of_app, list_elem_of_singleton, Hl, Hid by done.
      split; [|naive_solver]. intros [Hs| ->]; [|by left]. right. split; [|done].
      intros ->. destruct Hs as (q & Hq & _). congruence.
    + destruct (bi_status _ Hi t) as (l' & Hrep' & Hl'). exists l'. split; [done|]. intros id.
      rewrite Hin, Hl', Hid by done. split; [|naive_solver].
      intros Hs. right. split; [|done]. intros ->. destruct Hs as (q & Hq & _). congruence.
Qed.

Definition with_event g (e : GovEvent) : Governance := g <| gov_events := gov_events g ++ [e] |>.

Lemma submit_runs env k a text g :
  keccak_injective_24 -> book_inv (book k g) -> next_id (book k g) < u32_max ->
  validate_text text = Ok tt -> a <> 0 -> address_ok a ->
  let id := next_id (book k g) + 1 in
  exists s, submit env k a text g
      = (Ok id, with_event (set_book k (with_new (book k g) (new_record env id a text) s) g)
                  (Submitted k id a (keccak256 text)))
    /\ book_inv (with_new (book k g) (new_record env id a text) s).
Proof.
  intros Hk Hi Hlt Htext Ha0 Ha id. pose proof (bi_next _ Hi) as Hn.
  destruct (bi_status _ Hi DRAFT) as (l & Hrep & Hl).
  assert (Hfresh : id ∉ l).
  { rewrite Hl. intros (r & Hr & _). assert (1 <= id <= next_id (book k g)); [|lia].
    apply (bi_dense _ Hi). eauto. }
  assert (Hnone : records (book k g) !! id = None).
  { apply eq_None_not_Some. rewrite (bi_dense _ Hi). lia. }
  pose proof (members_bound _ _ _ Hi (proj1 Hrep) Hl).
  destruct (set_insert_new _ _ id Hrep Hfresh) as (s & Hins & Hrep'); [lia|].
  exists s. split; [|apply (inv_with_new _ _ _ l); try done; by constructor].
  pose proof (bi_count _ Hi _ Ha) as Hcount. pose proof (ids_of_length (book k g) a).
  unfold submit. eapply mbind_ok_intro; [unfold lift; by rewrite Htext|].
  eapply mbind_ok_intro; [done|]. cbv beta zeta.
  rewrite (wrapping_add_small u64_max) by (unfold u32_max, u64_max in *; lia). fold id.
  eapply mbind_ok_intro.
  { apply on_book_run. unfold book_create. eapply mbind_ok_intro; [done|].
    simpl. rewrite book_get_eq, Hnone by done. done. }
  eapply mbind_ok_intro; [by apply on_book_run|]. eapply mbind_ok_intro; [done|].
  eapply mbind_ok_intro; [by apply on_book_run|]. eapply mbind_ok_intro; [by apply on_book_run|].
  eapply mbind_ok_intro.
  { apply on_book_run. unfold on_status_set. apply zoom_run. rewrite !book_set. exact Hins. }
  rewrite !book_set. cbn [author_count]. unfold count_by_author in Hcount.
  unfold gov_emit, mbind, modify, mret, with_event, with_new. simpl.
  destruct k, g; simpl in *; rewrite wrapping_add_small by lia; reflexivity.
Qed.

(** ** Changes of a record *)

Definition with_record b r (sets : gmap Z StorageSet) : ProposalBook :=
  b <| records := <[ip_id r := r]> (records b) |> <| by_status := sets |>.

(** Replacing a record by one of the same author keeps all but the status sets. *)
Lemma inv_with_record b id r r' sets :
  book_inv b -> records b !! id = Some r -> record_ok id r' -> ip_author r' = ip_author r ->
  (forall s, exists l, set_rep (status_set (with_record b r' sets) s) l
     /\ forall j, j ∈ l <-> in_status (with_record b r' sets) s j) ->
  book_inv (with_record b r' sets).
Proof.
  intros Hi Hr Hr' Ea Hsets. pose proof (ro_id _ _ Hr') as Hid.
  assert (Hids : forall a, ids_of (with_record b r' sets) a = ids_of b a).
  { intros a. unfold ids_of. apply List.filter_ext. intros j. unfold authored. simpl. rewrite Hid.
    destruct (decide (j = id)) as [->|]; [by rewrite lookup_insert_eq, Hr, Ea|by rewrite lookup_insert_ne]. }
  constructor.
  - apply (bi_next _ Hi).
  - intros j. simpl. rewrite Hid, lookup_insert_is_Some, <- (bi_dense _ Hi).
    destruct (decide (id = j)) as [<-|]; [rewrite Hr|]; naive_solver.
  - intros j q. simpl. rewrite Hid. intros [[<- <-]|[_ Hq]]%lookup_insert_Some; [done|by apply (bi_record _ Hi)].
  - intros a Ha. rewrite Hids. by apply (bi_count _ Hi).
  - intros a i j Ha. rewrite Hids. by apply (bi_ids _ Hi).
  - done.
Qed.

(** ** Editing a text *)

Definition edited (env : Env) r (text : list Z) : Improvement :=
  r <| ip_text := text |> <| ip_text_hash := keccak256 text |> <| ip_updated_block := block_number env |>.

Lemma inv_edited b env id r text :
  book_inv b -> records b !! id = Some r -> validate_text text = Ok tt ->
  book_inv (with_record b (edited env r text) (by_status b)).
Proof.
  intros Hi Hr Ht. pose proof (bi_record _ Hi _ _ Hr) as Hok.
  apply (inv_with_record b id r); try done; [by destruct Hok; constructor|].
  intros s. destruct (bi_status _ Hi s) as (l & Hrep & Hl). exists l. split; [done|]. intros j.
  rewrite (in_status_insert b _ id (edited env r text)) by (simpl; by rewrite (ro_id _ _ Hok)).
  rewrite Hl. simpl. destruct (decide (j = id)) as [->|]; [|naive_solver].
  unfold in_status. rewrite Hr. naive_solver.
Qed.

Lemma update_text_inv env k caller id text g u g' :
  book_inv (book k g) -> update_text env k caller id text g = (Ok u, g') ->
  exists r, records (book k g) !! id = Some r /\ ip_author r = caller
    /\ text_editable (ip_status r) = true /\ validate_text text = Ok tt
    /\ g' = with_event (set_book k (with_record (book k g) (edited env r text) (by_status (book k g))) g)
              (TextUpdated k id (keccak256 text)).
Proof.
  intros Hi H. unfold update_text in H.
  apply mbind_ok in H as (v & g1 & Hv & H). apply lift_ok in Hv as [Hv ->]. destruct v.
  apply mbind_ok in H as (o & g1 & Ho & H). apply gets_ok in Ho as [-> ->].
  apply mbind_ok in H as (r & g1 & Hr & H). apply lift_ok in Hr as [Hr%ok_or_ok ->].
  rewrite book_get_eq in Hr by done.
  apply mbind_ok in H as (u1 & g1 & Hc & H). apply require_ok in Hc as [Hc ->].
  apply mbind_ok in H as (u2 & g1 & He & H). apply require_ok in He as [He ->].
  exists r. split_and!; try done; [by bprop|].
  apply mbind_ok in H as (u3 & g1 & Hw & H). unfold on_book in Hw.
  apply zoom_inv in Hw as (b1 & Hw & ->). unfold book_update in Hw.
  apply mbind_ok in Hw as (o & b2 & Ho & Hw). apply gets_ok in Ho as [-> ->].
  apply mbind_ok in Hw as (u4 & b2 & Hp & Hw). apply require_ok in Hp as [_ ->].
  apply modify_ok in Hw as ->. apply modify_ok in H as ->. done.
Qed.

(** ** Moving a status *)

Definition moved (env : Env) r (status : Z) : Improvement :=
  r <| ip_status := status |> <| ip_updated_block := block_number env |>.

Lemma transition_ok from to : validate_transition from to = Ok tt ->
  permitted from to = true /\ from <> to /\ 0 <= to <= IMPLEMENTED.
Proof.
  unfold validate_transition, is_valid_status, permitted, DRAFT, APPROVED, REJECTED, REWORK, IMPLEMENTED.
  destruct (to <=? 4) eqn:E4; [|done]. simpl. case_match eqn:E; [|done]. intros _. split; [done|].
  repeat (apply orb_true_iff in E as [E|E]); apply andb_true_iff in E as [E1 E2]; bprop; lia.
Qed.

Lemma inv_moved b env id r status s1 s2 l1 l2 i :
  book_inv b -> records b !! id = Some r -> ip_status r <> status -> 0 <= status <= IMPLEMENTED ->
  (forall j, j ∈ l1 <-> in_status b (ip_status r) j) -> (forall j, j ∈ l2 <-> in_status b status j) ->
  NoDup l1 -> l1 !! i = Some id -> set_rep s1 (Containers.swap_remove i l1) -> set_rep s2 (l2 ++ [id]) ->
  book_inv (with_record b (moved env r status) (<[status := s2]> (<[ip_status r := s1]> (by_status b)))).
Proof.
  intros Hi Hr Hne Hs Hl1 Hl2 Hnd Hix Hrep1 Hrep2. pose proof (bi_record _ Hi _ _ Hr) as Hok.
  apply (inv_with_record b id r); try done; [by destruct Hok; constructor|].
  intros t. set (b' := with_record _ _ _).
  assert (Hin : forall j, in_status b' t j <-> (j = id /\ status = t) \/ (j <> id /\ in_status b t j)).
  { intros j. apply (in_status_insert b b' id (moved env r status)). simpl. by rewrite (ro_id _ _ Hok). }
  assert (Hset : status_set b' t = if decide (status = t) then s2
    else if decide (ip_status r = t) then s1 else status_set b t).
  { unfold status_set, b'. simpl. repeat case_decide; subst;
      by rewrite ?lookup_insert_eq, ?lookup_insert_ne, ?lookup_insert_eq, ?lookup_insert_ne by done. }
  assert (Hold : forall t', in_status b t' id -> t' = ip_status r) by (intros t' (q & Hq & <-); congruence).
  rewrite Hset. clear Hset. clearbody b'. repeat case_decide; subst.
  - exists (l2 ++ [id]). split; [done|]. intros j. rewrite Hin, elem_of_app, list_elem_of_singleton, Hl2.
    destruct (decide (j = id)) as [->|]; naive_solver.
  - exists (Containers.swap_remove i l1). split; [done|]. intros j.
    rewrite Hin, (elem_of_swap_remove i l1 id), Hl1 by done. naive_solver.
  - destruct (bi_status _ Hi t) as (l & Hrep & Hl). exists l. split; [done|]. intros j. rewrite Hin, Hl.
    destruct (decide (j = id)) as [->|]; [|naive_solver]. split; [intros ?%Hold; congruence|naive_solver].
Qed.

Lemma apply_status_runs env k id r status g :
  book_inv (book k g) -> records (book k g) !! id = Some r ->
  validate_transition (ip_status r) status = Ok tt ->
  exists sets, apply_status env k id status g
      = (Ok tt, with_event (set_book k (with_record (book k g) (moved env r status) sets) g)
                  (StatusChanged k id (ip_status r) status))
    /\ book_inv (with_record (book k g) (moved env r status) sets).
Proof.
  intros Hi Hr Ht. destruct (transition_ok _ _ Ht) as (_ & Hne & Hs).
  pose proof (bi_record _ Hi _ _ Hr) as Hok.
  destruct (bi_status _ Hi (ip_status r)) as (l1 & Hrep1 & Hl1).
  destruct (bi_status _ Hi status) as (l2 & Hrep2 & Hl2).
  assert (Hin1 : id ∈ l1) by (apply Hl1; by exists r).
  assert (Hout2 : id ∉ l2) by (rewrite Hl2; intros (q & Hq & E); congruence).
  apply list_elem_of_lookup in Hin1 as [i Hix].
  destruct (set_remove_ok _ _ _ _ Hrep1 Hix) as (s1 & Hrem & Hrep1').
  assert (Hlt : Z.of_nat (length (l2 ++ [id])) <= next_id (book k g)).
  { assert (Hsub : l2 ++ [id] ⊆+ seqZ 1 (next_id (book k g))).
    { apply NoDup_submseteq; [apply NoDup_app; split_and!; [apply Hrep2|set_solver|apply NoDup_singleton]|].
      intros j [Hj| ->%list_elem_of_singleton]%elem_of_app; apply elem_of_seqZ.
      - apply Hl2 in Hj as (q & Hq & _). assert (1 <= j <= next_id (book k g)); [|lia].
        apply (bi_dense _ Hi). eauto.
      - assert (1 <= id <= next_id (book k g)); [|lia]. apply (bi_dense _ Hi). eauto. }
    apply submseteq_length in Hsub. rewrite length_seqZ in Hsub. pose proof (bi_next _ Hi). lia. }
  rewrite length_app in Hlt. simpl in Hlt. pose proof (bi_next _ Hi).
  destruct (set_insert_new _ _ id Hrep2 Hout2) as (s2 & Hins & Hrep2'); [lia|].
  eexists. split; [|by apply (inv_moved _ env id r status s1 s2 l1 l2 i); try done; apply Hrep1].
  unfold apply_status. eapply mbind_ok_intro; [done|].
  eapply mbind_ok_intro; [unfold lift; by rewrite book_get_eq, Hr by done|]. cbv beta zeta.
  eapply mbind_ok_intro; [unfold lift; by rewrite Ht|].
  eapply mbind_ok_intro; [by apply on_book_run|].
  eapply mbind_ok_intro; [apply on_book_run, zoom_run; rewrite book_set; exact Hrem|].
  eapply mbind_ok_intro.
  { apply on_book_run, zoom_run. rewrite book_set, status_set_insert, decide_False by done. rewrite book_set. exact Hins. }
  rewrite !book_set. unfold with_event, with_record. simpl. rewrite (ro_id _ _ Hok).
  by destruct k, g.
Qed.
End Inv.
