(* ===== verification/GovernanceProps.v ===== *)
(** What the Governance contract guarantees: its books and their paginated
    listings are exact after any sequence of calls and approved votes, a record
    changes only by the hand the rules name, and its vote target keeps the
    contract the Vote module relies on, creating what validators approved. *)

From S2P Require Import Prelude Bytes Native ValidatorSet ValidatorSetProps Containers Vote VoteInv VoteSteps VoteProps Governance GovernanceInv.

(** The slice of a list a paginated read returns. *)
Definition page {A} (l : list A) (offset limit : Z) : list A :=
  take (Z.to_nat (Z.min limit MAX_PAGE)) (drop (Z.to_nat offset) l).

Lemma page_positions_eq {A} (l : list Z) (f : Z -> A) (h : Z -> A) offset limit :
  0 <= offset -> 0 <= limit -> Z.of_nat (length l) <= u32_max ->
  (forall i x, l !! i = Some x -> f (Z.of_nat i) = h x) ->
  let '(start, stop) := page_bounds (Z.of_nat (length l)) offset limit in
  f <$> seqZ start (stop - start) = h <$> page l offset limit.
Proof.
  intros Ho Hl Hlen Hf. unfold page_bounds, page, saturating_add.
  set (start := Z.min offset (Z.of_nat (length l))). set (n := Z.min limit MAX_PAGE).
  set (stop := Z.min _ (Z.of_nat (length l))).
  assert (Hn : 0 <= n) by (unfold n, MAX_PAGE; lia). assert (Hs : 0 <= start <= Z.of_nat (length l)) by lia.
  assert (Estop : stop = Z.min (start + n) (Z.of_nat (length l))) by (unfold stop; case_match; bprop; lia).
  apply list_eq. intros i. rewrite !list_lookup_fmap.
  destruct (decide (Z.of_nat i < stop - start)) as [Hi|Hi].
  - rewrite lookup_seqZ_lt by lia. rewrite lookup_take_lt by lia. rewrite lookup_drop.
    assert (Eo : Z.to_nat offset = Z.to_nat start) by lia. rewrite Eo.
    destruct (lookup_lt_is_Some_2 l (Z.to_nat start + i)) as [x Hx]; [lia|]. rewrite Hx. simpl.
    rewrite <- (Hf _ _ Hx). do 2 f_equal. lia.
  - rewrite lookup_seqZ_ge by lia. rewrite (lookup_ge_None_2 (take _ _)); [done|].
    rewrite length_take, length_drop. lia.
Qed.

Section Props.
Context `{K : Keccak} `{G : GovernanceLibs}.
Implicit Types (b : ProposalBook) (g : Governance) (k : ProposalKind) (r : Improvement).

(** ** Listings *)

Lemma list_by_author_ok b a offset limit :
  book_inv b -> address_ok a -> 0 <= offset -> 0 <= limit ->
  list_by_author a offset limit b = (Ok (proposal_meta b <$> page (ids_of b a) offset limit), b).
Proof.
  intros Hi Ha Ho Hl. pose proof (bi_next _ Hi). pose proof (ids_of_length b a ltac:(lia)).
  pose proof (page_positions_eq (ids_of b a)
    (fun i => proposal_meta b (author_ids b).[author_index_key a i]) (proposal_meta b) offset limit) as Hp.
  unfold list_by_author. eapply mbind_ok_intro; [done|]. rewrite (bi_count _ Hi _ Ha).
  destruct (page_bounds _ offset limit) as [start stop]. rewrite <- Hp; try done; [by apply mmap_pure|lia|].
  intros i id Hid. by rewrite (bi_ids _ Hi a i id).
Qed.

Lemma ask_set_ok {A} b s (m : M StorageSet A) x st :
  m (status_set b s) = (Ok x, st) -> ask_status_set s m b = (Ok x, b).
Proof. intros E. unfold ask_status_set, reads. by rewrite E. Qed.

Lemma status_page_ok b s l positions :
  set_rep (status_set b s) l -> (forall i, i ∈ positions -> 0 <= i < Z.of_nat (length l)) ->
  status_page s positions b = (Ok ((fun i => proposal_meta b (ss_values (status_set b s)).[i]) <$> positions), b).
Proof.
  intros Hrep. induction positions as [|i rest IH]; intros Hin; [done|].
  assert (Hi : 0 <= i < Z.of_nat (length l)) by (apply Hin; set_solver).
  cbn [status_page]. eapply mbind_ok_intro.
  { eapply ask_set_ok. unfold set_at. eapply mbind_ok_intro; [by apply set_len_ok|].
    rewrite (proj2 (Z.leb_gt _ _)) by lia. done. }
  cbv beta iota. eapply mbind_ok_intro; [done|].
  eapply mbind_ok_intro; [apply IH; set_solver|]. done.
Qed.

Lemma list_by_status_ok b s l offset limit :
  set_rep (status_set b s) l -> is_valid_status s = true -> 0 <= offset -> 0 <= limit ->
  list_by_status s offset limit b = (Ok (proposal_meta b <$> page l offset limit), b).
Proof.
  intros Hrep Hs Ho Hl. pose proof Hrep as (_ & _ & Hm & Hd & _).
  pose proof (page_positions_eq l (fun i => proposal_meta b (ss_values (status_set b s)).[i])
    (proposal_meta b) offset limit) as Hp.
  unfold list_by_status. eapply mbind_ok_intro; [by rewrite Hs|].
  eapply mbind_ok_intro; [eapply ask_set_ok; by apply set_len_ok|].
  destruct (page_bounds _ offset limit) as [start stop] eqn:E. rewrite <- Hp; try done.
  - apply (status_page_ok b s l); [done|]. intros i [Hi1 Hi2]%elem_of_seqZ.
    unfold page_bounds in E. simplify_eq. lia.
  - intros i x Hx. by rewrite Hd, (word_at_lookup _ _ _ Hx).
Qed.

(** ** Steps *)

Definition books_have_room g : Prop := forall k, next_id (book k g) < u32_max.

(** A step: a successful call, or the record an approved vote creates. *)
Inductive gov_step : Governance -> Governance -> Prop :=
  | gs_call env caller value c x g g' :
      books_have_room g -> caller <> 0 -> address_ok caller ->
      gov_dispatch env caller value c g = (Ok x, g') -> gov_step g g'
  | gs_vote env k author text id g g' :
      books_have_room g -> author <> 0 -> address_ok author ->
      create_approved env k author text g = (Ok id, g') -> gov_step g g'.

(** What a call does to a book, and on whose authority. *)
Inductive book_change (env : Env) (caller : Address) (authority : bool) : ProposalBook -> ProposalBook -> Prop :=
  | bc_same b : book_change env caller authority b b
  | bc_new b text s : validate_text text = Ok tt ->
      book_change env caller authority b (with_new b (new_record env (next_id b + 1) caller text) s)
  | bc_text b id r text : records b !! id = Some r -> ip_author r = caller ->
      text_editable (ip_status r) = true -> validate_text text = Ok tt ->
      book_change env caller authority b (with_record b (edited env r text) (by_status b))
  | bc_status b id r status sets : records b !! id = Some r ->
      validate_transition (ip_status r) status = Ok tt ->
      authority = true \/ (ip_status r = REWORK /\ status = DRAFT /\ ip_author r = caller) ->
      book_change env caller authority b (with_record b (moved env r status) sets).

Definition text_change (authority : bool) (n n' : NormativeText) : Prop :=
  n' = n \/ (authority = true /\ exists text, validate_text text = Ok tt /\ n' = overwrite n text).

Record call_change (env : Env) (caller : Address) g g' : Prop := {
  cc_book : forall k, book_change env caller (is_authority g caller) (book k g) (book k g')
    /\ book_inv (book k g');
  cc_meta : text_change (is_authority g caller) (meta_canon g) (meta_canon g');
  cc_canon : text_change (is_authority g caller) (canon g) (canon g');
  cc_authorities : authorities g' = authorities g }.

Lemma change_same env caller g : gov_inv g -> call_change env caller g g.
Proof. intros Hi. constructor; [|by left..|done]. intros k. split; [constructor|apply Hi]. Qed.

Lemma change_book env caller g k b' e :
  gov_inv g -> book_inv b' -> book_change env caller (is_authority g caller) (book k g) b' ->
  call_change env caller g (with_event (set_book k b' g) e).
Proof.
  intros Hi Hb Hc. assert (Hbook : forall k', book k' (with_event (set_book k b' g) e) = book k' (set_book k b' g))
    by by intros [].
  constructor; [|left; by destruct k..|by destruct k].
  intros k'. rewrite Hbook. destruct (decide (k = k')) as [<-|].
  - by rewrite book_set.
  - rewrite book_set_other by done. split; [constructor|apply Hi].
Qed.

(** Every successful call makes one permitted change. *)
Lemma set_status_inv env k caller id status g u g' :
  gov_inv g -> set_status env k caller id status g = (Ok u, g') -> call_change env caller g g'.
Proof.
  intros Hi H. unfold set_status in H.
  apply mbind_ok in H as (o & g1 & Ho & H). apply gets_ok in Ho as [-> ->].
  apply mbind_ok in H as (r & g1 & Hr & H). apply lift_ok in Hr as [Hr%ok_or_ok ->].
  rewrite book_get_eq in Hr by apply Hi.
  apply mbind_ok in H as ([] & g1 & Ht & H). apply lift_ok in Ht as [Ht ->].
  apply mbind_ok in H as (au & g1 & Hau & H). apply gets_ok in Hau as [-> ->].
  apply mbind_ok in H as (u1 & g1 & Hq & H). apply require_ok in Hq as [Hq ->].
  destruct (apply_status_runs env k id r status g (Hi k) Hr Ht) as (sets & Hrun & Hb).
  rewrite Hrun in H. apply pair_equal_spec in H as [_ <-]. apply change_book; [done..|].
  apply (bc_status _ _ _ _ id); [done..|]. apply orb_true_iff in Hq as [Hq|Hq]; [right|by left]. by bprop.
Qed.

Lemma ro_on_book {A} k (m : M ProposalBook A) : ro m -> ro (on_book k m).
Proof.
  intros Hm g. unfold on_book, zoom. specialize (Hm (book k g)).
  destruct (m (book k g)) as [x b']. simpl in *. subst b'. by apply set_book_same.
Qed.

Lemma ro_status_page s positions : ro (status_page s positions).
Proof.
  induction positions as [|i rest IH]; [apply ro_ret|]. cbn [status_page].
  apply ro_bind; [apply ro_reads|]. intros [id|]; [|done]. repeat (apply ro_bind; [done|intros]). done.
Qed.

Lemma ro_listings s a offset limit :
  ro (list_by_author a offset limit) /\ ro (list_by_status s offset limit) /\ ro (count_by_status s).
Proof.
  split_and!.
  - apply ro_bind; [done|]. intros n. destruct (page_bounds n offset limit). apply ro_mmap. intros i.
    by apply ro_bind.
  - apply ro_bind; [apply ro_require|]. intros _. apply ro_bind; [apply ro_reads|]. intros n.
    destruct (page_bounds n offset limit). apply ro_status_page.
  - apply ro_bind; [apply ro_require|]. intros _. apply ro_reads.
Qed.

Lemma ensure_authority_ok caller g u g' :
  ensure_authority caller g = (Ok u, g') -> is_authority g caller = true /\ g' = g.
Proof.
  intros H. unfold ensure_authority in H. apply mbind_ok in H as (au & g1 & Hau & H).
  apply gets_ok in Hau as [-> ->]. by apply require_ok in H as [H ->].
Qed.

Lemma update_canon_inv env caller text g v g' :
  gov_inv g -> update_canon caller text g = (Ok v, g') \/ update_meta_canon caller text g = (Ok v, g') ->
  call_change env caller g g'.
Proof.
  intros Hi [H|H]; unfold update_canon, update_meta_canon in H;
    apply mbind_ok in H as (u & g1 & [Hau ->]%ensure_authority_ok & H);
    apply mbind_ok in H as ([] & g1 & Ht & H); apply lift_ok in Ht as [Ht ->];
    apply pair_equal_spec in H as [_ <-].
  all: constructor; [intros []; (split; [constructor|apply (Hi Oip) || apply (Hi Gip)])| | |done].
  all: (by left) || (right; split; [done|by exists text]).
Qed.

Lemma dispatch_change env caller value c x g g' :
  keccak_injective_24 -> gov_inv g -> books_have_room g -> caller <> 0 -> address_ok caller ->
  gov_dispatch env caller value c g = (Ok x, g') -> call_change env caller g g'.
Proof.
  intros Hk Hi Hroom Hz Ha H. unfold gov_dispatch in H.
  apply mbind_ok in H as (u & g1 & Hv & H). apply require_ok in Hv as [_ ->].
  destruct c as [| | | |text|text|k text|k id|k id text|k id status|k|k id base|k a o l|k s o l|k a|k s|a].
  1-4, 8, 11-17: apply ro_run in H as ->; [by apply change_same|];
    apply ro_bind; [|intros; solve_ro];
    first [done|apply ro_on_book, ro_listings; first [exact 0|exact Oip]].
  all: apply mbind_ok in H as (y & g1 & Hop & H); apply mret_ok in H as [_ ->].
  - apply (update_canon_inv _ _ text _ y); [done|by right].
  - apply (update_canon_inv _ _ text _ y); [done|by left].
  - assert (Ht : validate_text text = Ok tt).
    { unfold submit in Hop. by apply mbind_ok in Hop as ([] & g2 & [Ht _]%lift_ok & _). }
    destruct (submit_runs env k caller text g Hk (Hi k) (Hroom k) Ht Hz Ha) as (s & Hrun & Hb).
    rewrite Hrun in Hop. apply pair_equal_spec in Hop as [_ <-].
    apply change_book; [done..|by constructor].
  - apply update_text_inv in Hop as (r & Hr & Hc & He & Ht & ->); [|apply Hi].
    apply change_book; [done|by eapply inv_edited|by eapply bc_text].
  - by eapply set_status_inv.
Qed.

(** ** Approved votes *)

Lemma create_approved_runs env k a text g :
  keccak_injective_24 -> gov_inv g -> next_id (book k g) < u32_max ->
  validate_text text = Ok tt -> a <> 0 -> address_ok a ->
  let id := next_id (book k g) + 1 in
  exists g', create_approved env k a text g = (Ok id, g') /\ gov_inv g'
    /\ next_id (book k g') = id
    /\ records (book k g') = <[id := moved env (new_record env id a text) APPROVED]> (records (book k g))
    /\ (forall k', k <> k' -> book k' g' = book k' g)
    /\ meta_canon g' = meta_canon g /\ canon g' = canon g /\ authorities g' = authorities g.
Proof.
  intros Hk Hi Hlt Ht Hz Ha id.
  destruct (submit_runs env k a text g Hk (Hi k) Hlt Ht Hz Ha) as (s & Hsub & Hb). fold id in Hsub, Hb.
  set (b1 := with_new _ _ s) in *. set (g1 := with_event _ _) in Hsub.
  assert (E1 : book k g1 = b1) by by destruct k.
  assert (Hr : records (book k g1) !! id = Some (new_record env id a text))
    by (rewrite E1; apply lookup_insert_eq).
  rewrite <- E1 in Hb.
  destruct (apply_status_runs env k id _ APPROVED g1 Hb Hr eq_refl) as (sets & Happ & Hb2).
  eexists. split; [unfold create_approved; eapply mbind_ok_intro; [exact Hsub|];
    eapply mbind_ok_intro; [exact Happ|done]|].
  set (b2 := with_record _ _ sets) in *. set (g2 := with_event _ _).
  assert (E2 : book k g2 = b2) by by destruct k.
  assert (Eo : forall k', k <> k' -> book k' g2 = book k' g) by by destruct k; intros [].
  split_and!; [| | |exact Eo|by destruct k..].
  - intros k'. destruct (decide (k = k')) as [<-|]; [by rewrite E2|by rewrite Eo].
  - rewrite E2. unfold b2. simpl. by rewrite E1.
  - rewrite E2. unfold b2. simpl. rewrite E1. simpl. by rewrite insert_insert_eq.
Qed.

Lemma gov_step_inv g g' : keccak_injective_24 -> gov_inv g -> gov_step g g' -> gov_inv g'.
Proof.
  intros Hk Hi Hs. revert Hi.
  destruct Hs as [env caller value c x g1 g1' Hroom Hz Ha H|env k a text id g1 g1' Hroom Hz Ha H]; intros Hi.
  - intros k. by apply (cc_book _ _ _ _ (dispatch_change _ _ _ _ _ _ _ Hk Hi Hroom Hz Ha H)).
  - assert (Ht : validate_text text = Ok tt).
    { unfold create_approved, submit in H. apply mbind_ok in H as (y & g2 & H & _).
      by apply mbind_ok in H as ([] & g3 & [Ht _]%lift_ok & _). }
    destruct (create_approved_runs env k a text g1 Hk Hi (Hroom k) Ht Hz Ha) as (g2 & Hrun & Hi2 & _).
    rewrite Hrun in H. by simplify_eq.
Qed.

(** Genesis: no proposals; the seeder writes the texts and the authorities. *)
Definition seeded g : Prop := oips g = empty_book /\ gips g = empty_book.

Lemma seeded_inv g : seeded g -> gov_inv g.
Proof.
  intros [Eo Eg] k. assert (Eb : book k g = empty_book) by by destruct k. rewrite Eb. constructor; simpl.
  - unfold u32_max. lia.
  - intros id. rewrite lookup_empty. split; [by intros []|lia].
  - intros id r. by rewrite lookup_empty.
  - done.
  - done.
  - intros s. exists []. split; [apply set_rep_empty|]. intros id. split; [set_solver|].
    intros (r & Hr & _). simpl in Hr. by rewrite lookup_empty in Hr.
Qed.

Lemma reach_gov_inv g g' : keccak_injective_24 -> seeded g -> rtc gov_step g g' -> gov_inv g'.
Proof.
  intros Hk Hs Hr. apply seeded_inv in Hs. induction Hr as [|g g1 g' Hstep _ IH]; [done|].
  apply IH. by eapply gov_step_inv.
Qed.

(** C30. The books are exact. After any sequence of calls and approved votes, for
    both kinds: the ids run from one to the count; every stored hash is the hash
    of the stored text; a page of an author's listing is that slice of the
    author's proposals in order of submission; and the proposals in a status have
    one enumeration without repetition whose length is the reported count and
    whose slices are the pages. *)
Theorem governance_books_exact g0 g k :
  keccak_injective_24 -> seeded g0 -> rtc gov_step g0 g ->
  let b := book k g in
  (forall id, is_Some (get_improvement k g id) <-> 1 <= id <= improvement_count k g)
  /\ (forall id r, get_improvement k g id = Some r ->
        ip_text_hash r = keccak256 (ip_text r) /\ validate_text (ip_text r) = Ok tt)
  /\ (forall a offset limit, address_ok a -> 0 <= offset -> 0 <= limit ->
        list_by_author a offset limit b = (Ok (proposal_meta b <$> page (ids_of b a) offset limit), b))
  /\ (forall s, 0 <= s <= IMPLEMENTED -> exists l, NoDup l
        /\ (forall id, id ∈ l <-> exists r, get_improvement k g id = Some r /\ ip_status r = s)
        /\ count_by_status s b = (Ok (Z.of_nat (length l)), b)
        /\ forall offset limit, 0 <= offset -> 0 <= limit ->
             list_by_status s offset limit b = (Ok (proposal_meta b <$> page l offset limit), b)).
Proof.
  intros Hk Hs Hr b. pose proof (reach_gov_inv _ _ Hk Hs Hr k) as Hi. fold b in Hi.
  assert (Hg : forall id, get_improvement k g id = records b !! id) by (intros; by apply book_get_eq).
  split_and!.
  - intros id. rewrite Hg. apply (bi_dense _ Hi).
  - intros id r. rewrite Hg. intros E. by destruct (bi_record _ Hi _ _ E).
  - intros a offset limit. by apply list_by_author_ok.
  - intros s Hst. destruct (bi_status _ Hi s) as (l & Hrep & Hl). exists l.
    assert (Hv : is_valid_status s = true) by (unfold is_valid_status; lia).
    split_and!; [apply Hrep| | |intros; by apply list_by_status_ok].
    + intros id. rewrite Hl. unfold in_status. by setoid_rewrite Hg.
    + unfold count_by_status. eapply mbind_ok_intro; [by rewrite Hv|].
      eapply ask_set_ok. by apply set_len_ok.
Qed.

(** ** Who may change what *)

(** The fate of one record under one call. *)
Definition lawful_edit (caller : Address) (authority : bool) r r' : Prop :=
  ip_author r' = ip_author r /\ ip_created_block r' = ip_created_block r
  /\ (ip_text r' <> ip_text r -> ip_author r = caller /\ text_editable (ip_status r) = true)
  /\ (ip_status r' <> ip_status r -> permitted (ip_status r) (ip_status r') = true
        /\ (authority = true \/ (ip_status r = REWORK /\ ip_status r' = DRAFT /\ ip_author r = caller))).

Lemma change_records env caller au b b' id : book_inv b -> book_change env caller au b b' ->
  (forall r, records b !! id = Some r -> exists r', records b' !! id = Some r' /\ lawful_edit caller au r r')
  /\ (forall r', records b !! id = None -> records b' !! id = Some r' ->
        id = next_id b + 1 /\ ip_author r' = caller /\ ip_status r' = DRAFT).
Proof.
  intros Hi Hc. revert Hi.
  destruct Hc as [b1|b1 text s Ht|b1 j q text Hq Hc He Ht|b1 j q status sets Hq Ht Hau]; intros Hi.
  - split; [|congruence]. intros r Hr. exists r. by split_and!.
  - split; simpl.
    + intros r Hr. exists r. rewrite lookup_insert_ne; [by split_and!|]. intros <-.
      assert (1 <= next_id b1 + 1 <= next_id b1); [|lia]. apply (bi_dense _ Hi). eauto.
    + intros r' Hn. intros [[<- <-]|[_ Hq]]%lookup_insert_Some; [done|congruence].
  - pose proof (ro_id _ _ (bi_record _ Hi _ _ Hq)) as Hid. simpl. rewrite Hid. split.
    + intros r Hr. destruct (decide (j = id)) as [<-|]; [|exists r; rewrite lookup_insert_ne by done; by split_and!].
      assert (r = q) as -> by congruence. eexists. rewrite lookup_insert_eq. by split_and!.
    + intros r' Hn. rewrite lookup_insert_ne; congruence.
  - pose proof (ro_id _ _ (bi_record _ Hi _ _ Hq)) as Hid. simpl. rewrite Hid. split.
    + intros r Hr. destruct (decide (j = id)) as [<-|]; [|exists r; rewrite lookup_insert_ne by done; by split_and!].
      assert (r = q) as -> by congruence. eexists. rewrite lookup_insert_eq.
      split; [done|]. split; [done|]. split; [done|]. split; [by simpl|].
      intros _. split; [by apply transition_ok|done].
    + intros r' Hn. rewrite lookup_insert_ne; congruence.
Qed.

(** C31. Nothing changes without authority. A successful call keeps every record
    with its author and creation block; the text changes only by its author while
    it is editable; the status changes only along the graph, by an authority, or
    by the author resubmitting after rework; a new record is a draft of the caller
    with the next id; only an authority overwrites the canon or the meta-canon;
    and no call changes the authorities. *)
Theorem proposal_changes_authorised g0 g env caller value c x g' :
  keccak_injective_24 -> seeded g0 -> rtc gov_step g0 g -> books_have_room g ->
  caller <> 0 -> address_ok caller -> gov_dispatch env caller value c g = (Ok x, g') ->
  let au := is_authority g caller in
  (forall k id r, get_improvement k g id = Some r ->
     exists r', get_improvement k g' id = Some r' /\ lawful_edit caller au r r')
  /\ (forall k id r', get_improvement k g id = None -> get_improvement k g' id = Some r' ->
     id = improvement_count k g + 1 /\ ip_author r' = caller /\ ip_status r' = DRAFT)
  /\ text_change au (canon g) (canon g') /\ text_change au (meta_canon g) (meta_canon g')
  /\ authorities g' = authorities g.
Proof.
  intros Hk Hs Hr Hroom Hz Ha H au. pose proof (reach_gov_inv _ _ Hk Hs Hr) as Hi.
  destruct (dispatch_change _ _ _ _ _ _ _ Hk Hi Hroom Hz Ha H) as [Hb Hm Hc Hau].
  assert (Hg : forall k id, get_improvement k g id = records (book k g) !! id) by (intros; by apply book_get_eq).
  assert (Hg' : forall k id, get_improvement k g' id = records (book k g') !! id)
    by (intros; apply book_get_eq, Hb).
  assert (Hrec := fun k id => change_records env caller au _ _ id (Hi k) (proj1 (Hb k))).
  split_and!; try done; intros k id r; rewrite Hg.
  - intros Hr0. destruct (proj1 (Hrec k id) r Hr0) as (r' & Hr' & Hl). exists r'. by rewrite Hg'.
  - rewrite Hg'. apply (proj2 (Hrec k id)).
Qed.
End Props.

(** * The vote target *)

Section Target.
Context {T : Type} `{K : Keccak} `{G : GovernanceLibs}.
Context (get : T -> Governance) (put : Governance -> T -> T) (chain : Z).
Hypothesis get_put : forall g s, get (put g s) = g.
Implicit Types (w : World T) (p : ProposalRecord) (m : gmap Z ProposalRecord).

(** What a stored payload asks for. *)
Definition asks (payload : list Z) (d : GovernanceVotePayload) : Prop :=
  exists v, json_from_slice payload = Some v /\ payload_from_value v = Ok d
    /\ payload_validate d = Ok tt.

(** Room in both books for everything that is pending. *)
Definition gov_room (s : T) m : Prop :=
  forall k, next_id (book k (get s)) + Z.of_nat (size m) <= u32_max.

(** The promise: the books are exact, have that room, and every pending
    Governance proposal carries a payload that was validated. *)
Definition gov_promise (s : T) m : Prop :=
  gov_inv (get s) /\ gov_room s m
  /\ forall id p, m !! id = Some p -> pr_target_module p = GOVERNANCE_ADDRESS ->
       (exists d, asks (pr_payload p) d) /\ pr_proposer p <> 0 /\ address_ok (pr_proposer p).

Lemma validate_asks payload context :
  governance_validate payload context = Ok tt -> exists d, asks payload d.
Proof.
  unfold governance_validate, validate_json. intros H.
  apply rbind_ok in H as (v & Hv%ok_or_ok & H). apply rbind_ok in H as (d & Hd & H). by exists d, v.
Qed.

(** An approved proposal becomes one approved record of its proposer. *)
Record materialised (env : Env) w p (d : GovernanceVotePayload) w' : Prop := {
  mt_core : core w' = core w;
  mt_id : next_id (book (vp_kind d) (get (w_target w'))) = next_id (book (vp_kind d) (get (w_target w))) + 1;
  mt_record : let id := next_id (book (vp_kind d) (get (w_target w'))) in
    records (book (vp_kind d) (get (w_target w')))
    = <[id := moved env (new_record env id (pr_proposer p) (vp_text d)) APPROVED]>
        (records (book (vp_kind d) (get (w_target w))));
  mt_other : forall k, vp_kind d <> k -> book k (get (w_target w')) = book k (get (w_target w));
  mt_inv : gov_inv (get (w_target w')) }.

Lemma approved_runs env w id p d context :
  keccak_injective_24 -> gov_inv (get (w_target w)) ->
  next_id (book (vp_kind d) (get (w_target w))) < u32_max ->
  asks (pr_payload p) d -> pr_proposer p <> 0 -> address_ok (pr_proposer p) ->
  get_record (w_vote w) id = Some p ->
  exists w', governance_handle_approved get put env id (pr_payload p) context w = (Ok Applied, w')
    /\ materialised env w p d w'.
Proof.
  intros Hk Hi Hlt (v & Hv & Hd & Hval) Hz Ha Hp.
  destruct (create_approved_runs env (vp_kind d) (pr_proposer p) (vp_text d) _ Hk Hi Hlt Hval Hz Ha)
    as (g' & Hrun & Hi' & Hn & Hr & Ho & _).
  eexists. split.
  - unfold governance_handle_approved. eapply mbind_ok_intro; [unfold lift; by rewrite Hv|].
    eapply mbind_ok_intro; [unfold lift; by rewrite Hd|].
    eapply mbind_ok_intro; [unfold lift; by rewrite Hval|]. eapply mbind_ok_intro; [done|].
    eapply mbind_ok_intro; [unfold lift; by rewrite Hp|].
    eapply mbind_ok_intro; [apply zoom_run; exact Hrun|done].
  - constructor; simpl; rewrite ?get_put; try done. by rewrite Hn.
Qed.

Lemma keeps_approved env id payload context :
  keeps core (governance_handle_approved get put env id payload context).
Proof.
  unfold governance_handle_approved. repeat (apply keeps_bind; [|intros]); try by apply keeps_ro.
  intros w. unfold on_governance, zoom. by destruct (create_approved _ _ _ _ _).
Qed.

Lemma target_frames : frames (GovernanceVoteTarget get put).
Proof.
  constructor; intros; simpl; [by apply keeps_ro|].
  destruct st; simpl; try by apply keeps_ro. apply keeps_approved.
Qed.

Lemma room_left s m id p k : gov_room s m -> m !! id = Some p -> next_id (book k (get s)) < u32_max.
Proof.
  intros Hroom Hp. specialize (Hroom k). assert (size m <> 0)%nat; [|lia].
  intros E%map_size_empty_inv. subst m. by rewrite lookup_empty in Hp.
Qed.

Lemma promise_forgets s m id : gov_promise s m -> gov_promise s (delete id m).
Proof.
  intros (Hi & Hroom & Hm). split_and!; [done| |].
  - intros k. specialize (Hroom k). rewrite map_size_delete. case_match; simpl; lia.
  - intros j q [_ Hq]%lookup_delete_Some. by eapply Hm.
Qed.

Lemma promise_kept env w m p d w' : gov_promise (w_target w) m -> m !! pr_id p = Some p ->
  materialised env w p d w' -> gov_promise (w_target w') (delete (pr_id p) m).
Proof.
  intros HJ Hp [_ Hn _ Ho Hi']. pose proof (promise_forgets _ _ (pr_id p) HJ) as (_ & Hroom & Hm).
  split_and!; [done| |done]. intros k. destruct HJ as (_ & Hroom0 & _).
  assert (Hsize : size m = S (size (delete (pr_id p) m))).
  { rewrite <- (insert_delete_id m (pr_id p) p Hp) at 1. by rewrite map_size_insert_None by apply lookup_delete_eq. }
  destruct (decide (vp_kind d = k)) as [<-|Hne]; [specialize (Hroom0 (vp_kind d)); lia|].
  rewrite Ho by done. apply Hroom.
Qed.

Lemma target_keeps_contract : keccak_injective_24 ->
  target_contract chain gov_room gov_promise (GovernanceVoteTarget get put).
Proof.
  intros Hk. constructor.
  - intros env w w' m p context _ _ _ (Hi & _ & Hm) Hnew _ Hz Ha Hroom _ Hval Hres.
    simpl in Hres, Hval. apply mret_ok in Hres as [_ ->]. split_and!; [done..|].
    intros id q [[_ <-]|[_ Hq]]%lookup_insert_Some Hmod; [|by eapply Hm].
    split_and!; try done. by eapply validate_asks.
  - intros env w m p context st _ _ _ HJ Hp Hrec Hmod [-> | ->]; simpl in *;
      [|eexists _, _; split; [done|]; intros _; by apply promise_forgets].
    pose proof HJ as (Hi & Hroom & Hm). destruct (Hm _ _ Hp Hmod) as ((d & Hd) & Hz & Ha).
    pose proof (room_left _ _ _ _ (vp_kind d) Hroom Hp) as Hlt.
    destruct (approved_runs env w (pr_id p) p d context Hk Hi Hlt Hd Hz Ha Hrec) as (w' & Hrun & Hmat).
    exists Applied, w'. split; [done|]. intros _. by eapply promise_kept.
Qed.

(** C32. The Governance vote target is lawful and does what was voted. It never
    touches the Vote, registry or balance state; it keeps the contract under which
    the block hook cannot fail, for the promise that pending payloads were
    validated and the books have room; and when a pending proposal under that
    promise is approved, it is applied: its payload's kind and text become one new
    record, approved, authored by the proposer, with the next id, and nothing else
    in the books changes. *)
Theorem governance_target_lawful : keccak_injective_24 ->
  frames (GovernanceVoteTarget get put)
  /\ target_contract chain gov_room gov_promise (GovernanceVoteTarget get put)
  /\ (forall env w m p context, gov_promise (w_target w) m -> m !! pr_id p = Some p ->
        get_record (w_vote w) (pr_id p) = Some p -> pr_target_module p = GOVERNANCE_ADDRESS ->
        exists d w', asks (pr_payload p) d /\ materialised env w p d w'
          /\ target_handle_tally (GovernanceVoteTarget get put) env (pr_id p) (pr_payload p) context
               Approved w = (Ok Applied, w')).
Proof.
  intros Hk. split_and!; [apply target_frames|by apply target_keeps_contract|].
  intros env w m p context (Hi & Hroom & Hm) Hp Hrec Hmod.
  destruct (Hm _ _ Hp Hmod) as ((d & Hd) & Hz & Ha).
  pose proof (room_left _ _ _ _ (vp_kind d) Hroom Hp) as Hlt.
  destruct (approved_runs env w (pr_id p) p d context Hk Hi Hlt Hd Hz Ha Hrec) as (w' & Hrun & Hmat).
  by exists d, w'.
Qed.
End Target.

(** * Examples *)

(** Concrete parameters: a hash that spells its input out, and payloads whose
    first byte is the kind. *)
#[local] Existing Instance spelled_keccak.
#[local] Instance sample_libs : GovernanceLibs := {|
  json_value := list Z;
  json_from_slice := fun l => Some l;
  payload_from_json := fun v => match v with
    | 0 :: t => Some (MkVotePayload Oip t) | 1 :: t => Some (MkVotePayload Gip t) | _ => None end;
  payload_to_string := fun p => (match vp_kind p with Oip => 0 | Gip => 1 end) :: vp_text p;
  unified_diff := fun _ _ _ new => new |}.

Lemma sample_keys : keccak_injective_24.
Proof. intros l l' Hl Hl' H1 H2. apply spelled_inj; [done..|congruence]. Qed.

(** Address 7 is an authority; address 5 submits an OIP, which 7 sends to rework. *)
Definition sample_env : Env := mkEnv 9 1 0.
Definition sample_gov : Governance :=
  MkGovernance (MkNormative [] 0 0 ∅) (MkNormative [] 0 0 ∅) {[7 := true]} empty_book empty_book [].
Definition sample_submitted : Governance :=
  snd (gov_dispatch sample_env 5 0 (submitProposal Oip [104; 105]) sample_gov).
Definition sample_rework : Governance :=
  snd (gov_dispatch sample_env 7 0 (setStatus Oip 1 REWORK) sample_submitted).

Lemma sample_room g : next_id (oips g) = 0 \/ next_id (oips g) = 1 -> next_id (gips g) = 0 -> books_have_room g.
Proof. intros Ho Hg []; simpl; unfold u32_max; lia. Qed.

Lemma sample_reach : rtc gov_step sample_gov sample_submitted.
Proof.
  apply rtc_once, (gs_call sample_env 5 0 (submitProposal Oip [104; 105]) (GovWord 1)).
  - by apply sample_room; [left|].
  - done.
  - unfold address_ok. lia.
  - vm_compute. reflexivity.
Qed.

Lemma governance_books_exact_witness :
  list_by_author 5 0 10 (book Oip sample_submitted)
  = (Ok [MkMeta 1 5 DRAFT 9 9 (keccak256 [104; 105])], book Oip sample_submitted).
Proof.
  destruct (governance_books_exact sample_gov sample_submitted Oip sample_keys (conj eq_refl eq_refl)
    sample_reach) as (_ & _ & Hpage & _).
  rewrite (Hpage 5 0 10); [vm_compute; reflexivity|unfold address_ok; lia|lia|lia].
Defined.

Lemma proposal_changes_authorised_witness :
  exists r', get_improvement Oip sample_rework 1 = Some r'
    /\ lawful_edit 7 true (new_record sample_env 1 5 [104; 105]) r'.
Proof.
  destruct (proposal_changes_authorised sample_gov sample_submitted sample_env 7 0 (setStatus Oip 1 REWORK)
    GovNothing sample_rework sample_keys (conj eq_refl eq_refl) sample_reach) as (Hedit & _).
  - apply sample_room; [right|]; vm_compute; reflexivity.
  - done.
  - unfold address_ok. lia.
  - vm_compute. reflexivity.
  - apply (Hedit Oip 1). vm_compute. reflexivity.
Defined.

(** A pending vote for a GIP by address 5. *)
Definition sample_proposal : ProposalRecord :=
  MkProposal 1 5 GOVERNANCE_ADDRESS [1; 104; 105] 3 8 0.
Definition sample_world : World Governance :=
  MkWorld (empty_vote <| proposals := {[1 := sample_proposal]} |>) sample_active ∅ sample_gov.

Lemma sample_promise : gov_promise (fun g => g) sample_gov {[1 := sample_proposal]}.
Proof.
  split_and!.
  - by apply seeded_inv.
  - intros k. rewrite map_size_singleton. destruct k; simpl; unfold u32_max; lia.
  - intros id p [<- <-]%lookup_singleton_Some _. split_and!; [|done|unfold address_ok; simpl; lia].
    exists (MkVotePayload Gip [104; 105]), [1; 104; 105]. split_and!; [reflexivity|reflexivity|].
    unfold payload_validate. by rewrite bool_decide_eq_false_2.
Qed.

Lemma governance_target_lawful_witness : exists d w',
  asks [1; 104; 105] d /\ materialised (fun g => g) sample_env sample_world sample_proposal d w'.
Proof.
  destruct (governance_target_lawful (fun g : Governance => g) (fun g _ => g) 1
    (fun _ _ => eq_refl) sample_keys) as (_ & _ & Happly).
  destruct (Happly sample_env sample_world {[1 := sample_proposal]} sample_proposal (MkContext 5 0 9 1))
    as (d & w' & Hd & Hm & _).
  - exact sample_promise.
  - by rewrite lookup_singleton_eq.
  - reflexivity.
  - reflexivity.
  - by exists d, w'.
Defined.
